(* ===== verification/_CoqProject ===== *)
-Q . S2P
Prelude.v
TraceLogic.v
Run.v
GoTime.v
Timestamp.v
Retention.v
Release.v
Update.v
Netip.v
HostConfig.v
Ipam.v
IpamSafety.v
HostNetwork.v
HostNetSafety.v
MgmtUpdate.v
MgmtSafety.v
MgmtRequests.v
GoStrings.v
CoreStack.v
MgmtLinux.v
MgmtLinuxSafety.v
MgmtCheckpoint.v
MgmtSandbox.v
HostManifest.v
HostBoot.v
HostBootSafety.v
HostBootAlways.v
HostBootCleanup.v
HostUpgrade.v
HostGuard.v
HostUpgradeSafety.v
HostUpgradeLife.v
HostGuardSafety.v
Lifecycle.v
LifecycleSafety.v
Failover.v
FailoverSafety.v
FailoverDetector.v
Monitoring.v
MonitoringSafety.v
Alerts.v
AlertsSafety.v
CrashLogic.v
HostDatasets.v
DatasetSwap.v
DatasetNames.v
DatasetPool.v
DatasetSwapSafety.v
Operations.v
Worker.v
WorkerTrace.v
WorkerUpgrade.v
WorkerDelete.v
WorkerRestore.v
TaskTables.v
BackupTargets.v
WorkerTasks.v
TaskLog.v
TaskSafety.v
TaskLiveness.v
Backup.v
BackupLog.v
BackupSafety.v
BackupRun.v
BackupReplication.v
BackupRestore.v
BackupRestoreSafety.v
