(* ===== verification/Prelude.v ===== *)
(** * A verification development for floatlab-core

    floatlab-core runs Docker Compose stacks on ZFS hosts.  A control service
    (the management stack) keeps stacks, networks, snapshots and alerts in a
    replicated SQLite database and a Raft log, and drives a privileged daemon on
    every host.  Management and the host system upgrade themselves, with a
    checkpoint to go back to.  This development models the decisions of that
    code that can lose data, an address, a service or a host, and proves what
    they promise.  Paths below are under [src/].

    ** Conventions

    A Go function that returns an error is a function to [result]; one that also
    changes state is a program [prog E S A] of this file: it threads the
    component's world [S], and a failing program keeps the state it reached, as
    Go does.  What is not under [src/] (ZFS, Docker, systemd, SQLite, YAML, the
    clock, HTTP) is an environment: a class whose operations answer each call,
    possibly from everything that happened before, so that a theorem about all
    environments covers every failure and every timing.  Where the code relies on
    documented behaviour of such a tool, that is a class of laws, with an instance
    in the witness.  Every call and every durable write is recorded in a trace
    or a history, latest first, so that "at any moment", "before" and "never" are
    statements about lists; a crash is any prefix of it.  Instants and durations
    are nanoseconds in [Z] ([GoTime.v]); text is [string], compared as bytes.

    ** Files

    - [Prelude], [TraceLogic], [GoStrings], [GoTime], [Netip]: results and
      programs, judgements about traces, and the parts of Go's standard library
      the code computes with.
    - [Run] (pkg/run/machine.go): the lifecycle state machine of a stack.
      [Apply] is the table lookup with its lock; reachable instances are locked
      exactly in transitional states.  [Lifecycle], [LifecycleSafety] (pkg/run,
      pkg/raft, internal/orchestrator): the replicated map of machines, the
      local node's durable rows, and the dispatch of a transition's work.  Memory
      and disk of a local node are a function of the log of its calls, among them
      writes that were done though their call reported a failure.
    - [Timestamp], [Retention] (pkg/store): snapshot names encode an instant to
      three seconds and read back; [RetainedSnapshots] equals its specification
      over tiers of windows and buckets.
    - [Release] (pkg/release): versions and the host range of a release.
    - [Update] (internal/update): atomic file replacement, the update lock, the
      upstream repository.
    - [MgmtUpdate], [MgmtSafety], [MgmtRequests]
      (internal/managementupdate/manager.go): the management upgrade transaction
      against any backend; its journal is honest at every moment of every
      sequence of crashes and recoveries, and one undisturbed [Recover] settles
      it.  [CoreStack], [MgmtLinux], [MgmtLinuxSafety] (linux.go, retention.go):
      the Linux backend, command by command; the orders it keeps while it
      restores, reopens production, cleans up and waits.  [MgmtCheckpoint]: the
      checkpoint a host upgrade takes of management.  [MgmtSandbox] (sandbox.go):
      the isolated trial of a candidate.
    - [HostManifest] (manifest.go): images, transitions and requests of a host
      upgrade (internal/hostupgrade).  [HostBoot], [HostBootSafety],
      [HostBootAlways], [HostBootCleanup] (linux.go): the boot datasets, command
      by command.  The running release stays bootable on any host; the boot
      dataset is one of the two releases as long as no [zfs list] fails for a
      dataset that is there, which the code takes for absence.  [HostUpgrade],
      [HostUpgradeSafety], [HostUpgradeLife] (manager.go): the journalled
      manager over whole lifetimes, and what one undisturbed startup settles;
      [host.json] may be unreadable at any moment except while the goroutine of
      an accepted request runs.
      [HostGuard], [HostGuardSafety] (guard.go): trial supervision and the boot
      guard, which decides as if it had never been restarted.
    - [HostConfig], [HostNetwork], [HostNetSafety] (internal/hostnetwork): the
      host's network configuration and the manager that applies a change, and
      keeps it only when it is confirmed in time.
    - [Ipam], [IpamSafety] (internal/ipam): address pools, allocation and
      reservations on a database that others write to.
    - [Failover], [FailoverSafety], [FailoverDetector] (internal/failover): the
      sequences that move a stack between nodes, the order of their calls, and
      what triggers them.
    - [Monitoring], [MonitoringSafety] (pkg/monitoring/store.go): checks,
      incidents and notifications in guarded transactions, among any clients.
      [Alerts], [AlertsSafety] (pkg/alerts): the evaluator of alert rules on the
      same database, and the evidence its decisions rest on.
    - [CrashLogic]: programs that run commands on a medium which may be cut short
      anywhere, and triples for them.  [HostDatasets] (internal/hostd, the
      [fs.dataset] requests over [zfs]) implements the interface the control
      service uses; [DatasetSwap] (internal/worker/queue.go) restores a stack's
      datasets against that interface by renaming trees; [DatasetNames],
      [DatasetPool], [DatasetSwapSafety]: no data are lost at any interruption,
      and one undisturbed run finishes the swap.
    - [Operations] (pkg/operation): the tables of operations and events.
      [Worker] (internal/worker/queue.go): the task handlers of stacks and
      snapshots; [WorkerTrace], [WorkerUpgrade], [WorkerDelete],
      [WorkerRestore]: the order of their calls, the last over any number of
      attempts with the checkpoint each leaves.
    - [TaskTables], [BackupTargets] (pkg/config/backups.go), [WorkerTasks]
      (internal/worker): the task queue and the tables of backup targets,
      statement by statement; [TaskLog], [TaskSafety], [TaskLiveness]: tasks are
      honest, removals of targets are not forgotten, tasks are settled.
    - [Backup], [BackupLog], [BackupSafety], [BackupRun], [BackupReplication]
      (pkg/store/backup.go, backup_transport.go): one dataset and its backup on
      one node, over [zfs] and [ssh], while others act on the source.
      [BackupRestore], [BackupRestoreSafety] (backup_restore.go): the three steps
      that bring a snapshot of a backup back.

    ** Bounds and fuel

    Every loop of the code that is not structural takes fuel, and what the fuel is
    for is a theorem: [MgmtLinux.drain_fuel] (302 polls cover the minute of the
    drain at 200 ms) and [MgmtLinux.readiness_fuel] (62 probes cover five
    minutes at five seconds) never run out ([drain_waits], [healthy_minute]);
    [MgmtSandbox.tests_fuel] is 102 attempts, one every three seconds of five
    minutes, and its theorems hold for any fuel;
    [Ipam.find_free] needs one step per reservation
    ([Allocate_walk]); [Monitoring.record_loop] is the code's eight attempts.
    [Worker.wait_fuel] is one round for each poll period of the wait and two
    more ([wait_settles]: the loop ends as it would without fuel unless its ticker
    fired that often); [Worker.purge] takes one round per dataset, as every
    round but the last removes one ([purge_settled]).  [WorkerTasks.Run] is given
    the number of its ticks; 720 for each task are enough ([tasks_settle]).
    Integers of the code that could overflow (IPv4 addresses, timestamps) are
    kept in their range by the operations, which write the wrap or the check.

    ** Not modelled

    HTTP routes and JSON bindings ([internal/control], [cmd], [pkg/ipc]), the
    installers and their terminal interface, the agent's metrics, most of the host
    daemon's dispatcher, Compose and Docker access, log and statistics
    forwarding, the user interface and the generated clients: they decode a
    request, call what is modelled here or an external tool, and encode the
    answer.  The cluster node of [pkg/raft] is the hashicorp library's; the model
    is its contract.  Lab enrollment, key rotation and recovery
    ([internal/lab]), and the provisioning, starting and stopping of stacks
    ([internal/orchestrator]) beyond their dispatch, are left out.

    Within the components: handlers of one stack do not interleave with each
    other; a failover and a failback of the same stack do not either; processes
    of a host upgrade follow each other in the order of the update lock, except
    that the supervisor's marking may come at any time; the history of a backup has no
    restore of its source, which replaces the dataset; what [zfs] reports of
    progress, byte counts and ancestors made by [-p] has no part in a theorem. *)
From stdpp Require Export base gmap sets list strings fin_maps sorting.
From Stdlib Require Export ZArith Lia.

(** ** Results and effectful programs

    Go functions return a value and an error.  [result] is that pair with the
    impossible combinations removed, and [prog] threads the state a component
    keeps (files, tables, clock) through calls that may fail.  A failing
    program keeps the state it reached: Go does not undo earlier effects. *)

Inductive result (E A : Type) : Type :=
| Ok (a : A)
| Err (e : E).
Arguments Ok {E A} a.
Arguments Err {E A} e.

#[export] Instance result_eq_dec `{EqDecision E, EqDecision A} : EqDecision (result E A).
Proof. solve_decision. Defined.

Definition is_ok {E A} (r : result E A) : bool :=
  match r with Ok _ => true | Err _ => false end.

Definition prog (E S A : Type) : Type := S -> result E A * S.

Definition ret {E S A} (a : A) : prog E S A := fun s => (Ok a, s).
Definition fail {E S A} (e : E) : prog E S A := fun s => (Err e, s).
Definition get {E S} : prog E S S := fun s => (Ok s, s).
Definition modify {E S} (f : S -> S) : prog E S unit := fun s => (Ok tt, f s).
Definition of_result {E S A} (r : result E A) : prog E S A := fun s => (r, s).

Definition bind {E S A B} (m : prog E S A) (k : A -> prog E S B) : prog E S B :=
  fun s => match m s with
           | (Ok a, s') => k a s'
           | (Err e, s') => (Err e, s')
           end.

Lemma Ok_inj {E A} (a b : A) : @Ok E A a = Ok b -> a = b.
Proof. congruence. Qed.

(** [attempt] hands the error of [m] to the caller as a value: Go code that
    inspects or discards ([_ = f()]) an error continues with the state reached. *)
Definition attempt {E S A} (m : prog E S A) : prog E S (result E A) :=
  fun s => let '(r, s') := m s in (Ok r, s').

(** The [x ← m; k] notation of stdpp, for results and for programs. *)
#[export] Instance result_mret E : MRet (result E) := fun _ => Ok.
#[export] Instance result_mbind E : MBind (result E) := fun _ _ k r =>
  match r with Ok a => k a | Err e => Err e end.
#[export] Instance result_fmap E : FMap (result E) := fun _ _ f r =>
  match r with Ok a => Ok (f a) | Err e => Err e end.
#[export] Instance prog_mret E S : MRet (prog E S) := fun _ a => ret a.
#[export] Instance prog_mbind E S : MBind (prog E S) := fun _ _ k m => bind m k.

(** ** Reasoning about programs: [post m Q s] says that running [m] in [s]
    ends in a result and a state related by [Q]. *)
Definition post {E S A} (m : prog E S A) (Q : result E A -> S -> Prop) (s : S) : Prop :=
  Q (m s).1 (m s).2.

Section Post.
Context {E S : Type}.

Lemma post_ret {A} (a : A) (Q : result E A -> S -> Prop) s :
  Q (Ok a) s -> post (ret a) Q s.
Proof. done. Qed.

Lemma post_fail {A} (e : E) (Q : result E A -> S -> Prop) s :
  Q (Err e) s -> post (fail e) Q s.
Proof. done. Qed.

Lemma post_bind {A B} (m : prog E S A) (k : A -> prog E S B) Q s :
  post m (fun r s' => match r with Ok a => post (k a) Q s' | Err e => Q (Err e) s' end) s ->
  post (m ≫= k) Q s.
Proof. unfold post, mbind, prog_mbind, bind. destruct (m s) as [[a|e] s']; done. Qed.

(** A sequence, run. *)
Lemma bind_run {A B} (m : prog E S A) (k : A -> prog E S B) s :
  (m ≫= k) s = match m s with (Ok a, s') => k a s' | (Err e, s') => (Err e, s') end.
Proof. done. Qed.

Lemma post_attempt {A} (m : prog E S A) Q s :
  post m (fun r s' => Q (Ok r) s') s -> post (attempt m) Q s.
Proof. unfold post, attempt. destruct (m s); done. Qed.

Lemma post_mono {A} (m : prog E S A) (Q Q' : result E A -> S -> Prop) s :
  post m Q s -> (forall r s', Q r s' -> Q' r s') -> post m Q' s.
Proof. unfold post. auto. Qed.

Lemma post_run {A} (m : prog E S A) Q s r s' :
  post m Q s -> m s = (r, s') -> Q r s'.
Proof. unfold post. intros H Hm. by rewrite Hm in H. Qed.
End Post.

Create HintDb prog discriminated.
#[export] Hint Resolve post_ret post_fail : prog.

(** ** Tactics *)

(** Case analysis on the outermost [match] or [if] of the goal or a hypothesis. *)
Ltac case_step :=
  match goal with
  | |- context [match ?x with _ => _ end] => destruct x eqn:?
  | H : context [match ?x with _ => _ end] |- _ => destruct x eqn:?
  end.
Ltac case_all := repeat (case_step; simplify_eq/=); try done.

(** The result of the first program of a sequence is not needed. *)
Ltac skip := let x := fresh "u" in intros x; cbv beta; try clear x.

(** Reduces Boolean hypotheses to propositions. *)
Ltac to_prop :=
  repeat match goal with
  | H : _ && _ = true |- _ => apply andb_true_iff in H as [??]
  | H : _ || _ = false |- _ => apply orb_false_iff in H as [??]
  | H : negb _ = true |- _ => apply negb_true_iff in H
  | H : negb _ = false |- _ => apply negb_false_iff in H
  | H : bool_decide _ = true |- _ => apply bool_decide_eq_true in H
  | H : bool_decide _ = false |- _ => apply bool_decide_eq_false in H
  | H : (_ <? _)%Z = true |- _ => apply Z.ltb_lt in H
  | H : (_ <? _)%Z = false |- _ => apply Z.ltb_ge in H
  | H : (_ <=? _)%Z = true |- _ => apply Z.leb_le in H
  | H : (_ <=? _)%Z = false |- _ => apply Z.leb_gt in H
  | H : (_ =? _)%Z = true |- _ => apply Z.eqb_eq in H
  | H : (_ =? _)%Z = false |- _ => apply Z.eqb_neq in H
  end.

(** ** Transition sequences *)
Section Star.
Context {St : Type} (R : St -> St -> Prop).

Inductive star : St -> St -> Prop :=
| star_refl s : star s s
| star_step s1 s2 s3 : R s1 s2 -> star s2 s3 -> star s1 s3.

Lemma star_one s1 s2 : R s1 s2 -> star s1 s2.
Proof. intros. eapply star_step; [done|apply star_refl]. Qed.

Lemma star_trans s1 s2 s3 : star s1 s2 -> star s2 s3 -> star s1 s3.
Proof. induction 1; eauto using star. Qed.

(** Invariants by rule induction: what holds initially and is kept by each
    step holds in every reachable state. *)
Lemma star_invariant (I : St -> Prop) s1 s2 :
  I s1 -> (forall s s', I s -> R s s' -> I s') -> star s1 s2 -> I s2.
Proof. intros H1 Hstep. induction 1; eauto. Qed.
End Star.

(** ** Text *)

(** A Go string as its list of bytes. *)
Definition chars : string -> list Ascii.ascii := String.list_ascii_of_string.

(** Go's string comparison: lexicographic on bytes. *)
Fixpoint bytes_ltb (a b : list Ascii.ascii) : bool :=
  match a, b with
  | _, [] => false
  | [], _ :: _ => true
  | x :: a, y :: b =>
      let m := Ascii.N_of_ascii x in
      let n := Ascii.N_of_ascii y in
      (m <? n)%N || ((m =? n)%N && bytes_ltb a b)
  end.

(** ** Lists *)

(** A decidable property of every element of a closed list, by evaluation. *)
Lemma Forall_decide {A} (P : A -> Prop) `{!forall x, Decision (P x)} (l : list A) :
  forallb (fun x => bool_decide (P x)) l = true -> forall x, x ∈ l -> P x.
Proof.
  intros Hf x Hx. rewrite forallb_forall in Hf.
  eapply bool_decide_eq_true, Hf, list_elem_of_In, Hx.
Qed.

(** ** Order of byte strings *)

Lemma bytes_ltb_asym a b : bytes_ltb a b = true -> bytes_ltb b a = false.
Proof.
  revert b. induction a as [|x a IH]; intros [|y b]; simpl; try done.
  destruct (N.ltb_spec (Ascii.N_of_ascii x) (Ascii.N_of_ascii y)),
    (N.ltb_spec (Ascii.N_of_ascii y) (Ascii.N_of_ascii x)),
    (N.eqb_spec (Ascii.N_of_ascii x) (Ascii.N_of_ascii y)),
    (N.eqb_spec (Ascii.N_of_ascii y) (Ascii.N_of_ascii x)); simpl; try done; try lia; auto.
Qed.

Lemma bytes_le_trans a b c :
  bytes_ltb b a = false -> bytes_ltb c b = false -> bytes_ltb c a = false.
Proof.
  revert b c. induction a as [|x a IH]; intros [|y b] [|z c]; simpl; try done.
  destruct (N.ltb_spec (Ascii.N_of_ascii y) (Ascii.N_of_ascii x)),
    (N.ltb_spec (Ascii.N_of_ascii z) (Ascii.N_of_ascii y)),
    (N.ltb_spec (Ascii.N_of_ascii z) (Ascii.N_of_ascii x)),
    (N.eqb_spec (Ascii.N_of_ascii y) (Ascii.N_of_ascii x)),
    (N.eqb_spec (Ascii.N_of_ascii z) (Ascii.N_of_ascii y)),
    (N.eqb_spec (Ascii.N_of_ascii z) (Ascii.N_of_ascii x)); simpl; try done; try lia; eauto.
Qed.

Lemma bytes_le_antisym a b : bytes_ltb a b = false -> bytes_ltb b a = false -> a = b.
Proof.
  revert b. induction a as [|x a IH]; intros [|y b]; simpl; try done.
  destruct (N.ltb_spec (Ascii.N_of_ascii x) (Ascii.N_of_ascii y)),
    (N.ltb_spec (Ascii.N_of_ascii y) (Ascii.N_of_ascii x)),
    (N.eqb_spec (Ascii.N_of_ascii x) (Ascii.N_of_ascii y)),
    (N.eqb_spec (Ascii.N_of_ascii y) (Ascii.N_of_ascii x)); simpl; try done; try lia.
  intros H1 H2. f_equal; [|by apply IH].
  rewrite <- (Ascii.ascii_N_embedding x), <- (Ascii.ascii_N_embedding y). by f_equal.
Qed.

Lemma chars_inj s1 s2 : chars s1 = chars s2 -> s1 = s2.
Proof.
  intros H. rewrite <- (String.string_of_list_ascii_of_string s1),
    <- (String.string_of_list_ascii_of_string s2). unfold chars in H. by rewrite H.
Qed.

Lemma chars_app s1 s2 : chars (String.append s1 s2) = chars s1 ++ chars s2.
Proof.
  induction s1 as [|c s1 IH]; [done|].
  change (c :: chars (String.append s1 s2) = c :: (chars s1 ++ chars s2)). by rewrite IH.
Qed.

(** ** Extremal elements of sorted lists *)

Lemma StronglySorted_last {A} (R : A -> A -> Prop) `{!Reflexive R} (l : list A) x y :
  StronglySorted R l -> last l = Some y -> x ∈ l -> R x y.
Proof.
  induction 1 as [|z l Hs IH Hall]; [done|]. rewrite last_cons, elem_of_cons.
  rewrite Forall_forall in Hall.
  destruct (last l) as [w|] eqn:Hl.
  - intros [= ->] [->|Hx]; [|by apply IH].
    apply Hall. apply last_Some in Hl as [l' ->]. apply elem_of_app. right. by apply list_elem_of_singleton.
  - apply last_None in Hl as ->. intros [= ->] [->|Hx]; [done|]. by apply elem_of_nil in Hx.
Qed.

Lemma StronglySorted_head {A} (R : A -> A -> Prop) `{!Reflexive R} (l : list A) x y :
  StronglySorted R l -> head l = Some y -> x ∈ l -> R y x.
Proof.
  intros Hs. inversion Hs as [|z l' _ Hall]; subst; [done|]. intros [= ->].
  rewrite Forall_forall in Hall. intros [->|Hx]%elem_of_cons; [done|]. by apply Hall.
Qed.

Lemma StronglySorted_filter {A} (R : A -> A -> Prop) (P : A -> Prop) `{!forall x, Decision (P x)} (l : list A) :
  StronglySorted R l -> StronglySorted R (filter P l).
Proof.
  induction 1 as [|z l Hs IH Hall]; [constructor|]. rewrite filter_cons.
  case_decide; [|done]. constructor; [done|].
  rewrite Forall_forall in *. intros x [_ Hx]%list_elem_of_filter. by apply Hall.
Qed.

Lemma head_elem_of {A} (l : list A) x : head l = Some x -> x ∈ l.
Proof. destruct l; [done|]. intros [= ->]. apply elem_of_cons; by left. Qed.

Lemma last_elem_of {A} (l : list A) x : last l = Some x -> x ∈ l.
Proof. intros [l' ->]%last_Some. apply elem_of_app. right. by apply list_elem_of_singleton. Qed.
