(* ===== verification/TraceLogic.v ===== *)
(** Reasoning about the order of recorded events.

    Several components of the development run against an environment and
    record what they do in a trace, latest event first.  This file has the
    judgement they share: a program, started where [P] holds of the events
    recorded since [base], records only events that were allowed when they were
    made, keeps the invariant [inv] of the rest of the state, and ends where [Q]
    holds if it succeeds. *)
From S2P Require Import Prelude.

Open Scope list_scope.

Section Order.
Context {E W event : Type} (trace : W -> list event) (allowed : event -> list event -> Prop).

Inductive Ordered : list event -> Prop :=
| Ordered_nil : Ordered []
| Ordered_cons e l : Ordered l -> allowed e l -> Ordered (e :: l).

Lemma Ordered_app l1 l2 : Ordered (l1 ++ l2) -> Ordered l2.
Proof. induction l1 as [|e l1 IH]; [done|]. inversion 1; subst. by apply IH. Qed.

(** Each event of an ordered trace was allowed by the events before it. *)
Lemma Ordered_elem e l1 l2 : Ordered (l1 ++ e :: l2) -> allowed e l2.
Proof. intros Ho%Ordered_app. by inversion Ho. Qed.

Variables (inv : W -> Prop) (base : list event).

Definition orderly {A} (P : list event -> Prop) (m : prog E W A) (Q : A -> list event -> Prop) : Prop :=
  forall w l, inv w -> trace w = l ++ base -> Ordered l -> P l ->
    post m (fun r w' => inv w' /\ exists l', trace w' = (l' ++ l) ++ base /\ Ordered (l' ++ l) /\
      match r with Ok a => Q a (l' ++ l) | Err _ => True end) w.

Lemma orderly_pre {A} (m : prog E W A) (P P' : list event -> Prop) Q :
  (forall l, P' l -> P l) -> orderly P m Q -> orderly P' m Q.
Proof. intros Hi Hm w l Hv Ht Ho Hp. apply Hm; auto. Qed.

Lemma orderly_post {A} (m : prog E W A) P (Q Q' : A -> list event -> Prop) :
  (forall a l, Q a l -> Q' a l) -> orderly P m Q -> orderly P m Q'.
Proof.
  intros Hi Hm w l Hv Ht Ho Hp. eapply post_mono; [by apply (Hm w l)|].
  intros r w' (Hv' & l' & Ht' & Ho' & Hr). split; [done|]. exists l'. split_and!; [done|done|]. destruct r; auto.
Qed.

(** A step that records nothing. *)
Lemma orderly_silent {A} (m : prog E W A) (P : list event -> Prop) (Q : A -> list event -> Prop) :
  (forall w, inv w -> inv (m w).2) ->
  (forall w, trace (m w).2 = trace w /\
     match (m w).1 with Ok a => inv w -> forall l, P l -> Q a l | Err _ => True end) -> orderly P m Q.
Proof.
  intros Hi Hm w l Hv Ht Ho Hp. destruct (Hm w) as [Ht' Hr]. split; [by apply Hi|]. exists []. cbn.
  split_and!; [by rewrite Ht'|done|]. destruct (m w).1; auto.
Qed.

Lemma orderly_ret {A} (a : A) (P : list event -> Prop) (Q : A -> list event -> Prop) :
  (forall l, P l -> Q a l) -> orderly P (ret a) Q.
Proof. intros HQ. apply orderly_silent; [done|]. intros w. split; [done|]. cbn. auto. Qed.

Lemma orderly_fail {A} e P (Q : A -> list event -> Prop) : orderly P (fail e) Q.
Proof. by apply orderly_silent. Qed.

Lemma orderly_done {A} (a : A) P : orderly P (ret a) (fun _ _ => True).
Proof. by apply orderly_ret. Qed.

(** Reading the state. *)
Lemma orderly_get {B} (k : W -> prog E W B) P Q : (forall w, inv w -> orderly P (k w) Q) -> orderly P (get ≫= k) Q.
Proof. intros Hk w l Hv Ht Ho Hp. by apply (Hk w Hv w l). Qed.

(** The plain sequence: the first program's outcome is all the second knows. *)
Lemma orderly_seq {A B} (m : prog E W A) (k : A -> prog E W B) P (R : A -> list event -> Prop) Q :
  orderly P m R -> (forall a, orderly (R a) (k a) Q) -> orderly P (m ≫= k) Q.
Proof.
  intros Hm Hk w l Hv Ht Ho Hp. apply post_bind. eapply post_mono; [by apply (Hm w l)|].
  intros [a|e] w' (Hv' & l' & Ht' & Ho' & Hr); [|by split; [|exists l']].
  eapply post_mono; [apply (Hk a w' (l' ++ l)); done|].
  intros r w2 (Hv2 & l2 & Ht2 & Ho2 & Hr2). split; [done|]. exists (l2 ++ l'). rewrite <- (app_assoc l2 l' l). by split_and!.
Qed.

Lemma orderly_assoc {A B C} (m : prog E W A) (f : A -> prog E W B) (k : B -> prog E W C) P Q :
  orderly P ((m ≫= f) ≫= k) Q -> orderly P (a ← m; f a ≫= k) Q.
Proof.
  intros Hm w l Hv Ht Ho HP. specialize (Hm w l Hv Ht Ho HP). revert Hm. unfold post, mbind, prog_mbind, bind.
  by destruct (m w) as [[a|e] w'].
Qed.

(** What was recorded stays recorded. *)
Class Growing (P : list event -> Prop) : Prop := grows : forall l l', P l -> P (l' ++ l).
#[export] Instance growing_true : Growing (fun _ => True).
Proof. by intros l l'. Qed.
#[export] Instance growing_and P Q : Growing P -> Growing Q -> Growing (fun l => P l /\ Q l).
Proof. intros HP HQ l l' [? ?]. split; [by apply HP|by apply HQ]. Qed.
#[export] Instance growing_elem e : Growing (elem_of e).
Proof. intros l l' He. apply elem_of_app. by right. Qed.

Lemma orderly_frame {A} (m : prog E W A) (P F : list event -> Prop) Q `{!Growing F} :
  orderly P m Q -> orderly (fun l => F l /\ P l) m (fun a l => F l /\ Q a l).
Proof.
  intros Hm w l Hv Ht Ho [Hf Hp]. eapply post_mono; [by apply (Hm w l)|].
  intros r w' (Hv' & l' & Ht' & Ho' & Hr). split; [done|]. exists l'. split_and!; [done|done|].
  destruct r; [|done]. split; [by apply grows|done].
Qed.

(** The framed sequence: what held before still holds. *)
Lemma orderly_bind {A B} (m : prog E W A) (k : A -> prog E W B) (P : list event -> Prop) (R : A -> list event -> Prop) Q
  `{!Growing P} :
  orderly P m R -> (forall a, orderly (fun l => P l /\ R a l) (k a) Q) -> orderly P (m ≫= k) Q.
Proof.
  intros Hm Hk. eapply orderly_seq; [|exact Hk]. apply (orderly_pre m (fun l => P l /\ P l)); [done|].
  by apply orderly_frame.
Qed.

Lemma orderly_attempt {A} (m : prog E W A) P Q : orderly P m Q ->
  orderly P (attempt m) (fun r l => match r with Ok a => Q a l | Err _ => True end).
Proof.
  intros Hm w l Hv Ht Ho Hp. apply post_attempt. eapply post_mono; [by apply (Hm w l)|].
  intros r w' (Hv' & l' & Ht' & Ho' & Hr). split; [done|]. by exists l'.
Qed.

(** A call that records one event. *)
Lemma orderly_event {A} (m : prog E W A) (P : list event -> Prop) (Q : A -> list event -> Prop) :
  (forall w, inv w -> inv (m w).2) ->
  (forall w l, inv w -> trace w = l ++ base -> P l -> exists e, trace (m w).2 = e :: trace w /\ allowed e l /\
     match (m w).1 with Ok a => Q a (e :: l) | Err _ => True end) -> orderly P m Q.
Proof.
  intros Hi Hm w l Hv Ht Ho Hp. destruct (Hm w l Hv Ht Hp) as (e & Ht' & Ha & Hr). split; [by apply Hi|]. exists [e]. cbn.
  split_and!; [by rewrite Ht', Ht|by constructor|done].
Qed.

(** A fact that does not depend on the trace. *)
Lemma orderly_conj {A} (m : prog E W A) (F : Prop) (P : list event -> Prop) Q :
  (F -> orderly P m Q) -> orderly (fun l => F /\ P l) m Q.
Proof. intros Hm w l Hv Ht Ho [HF HP]. by apply Hm. Qed.
End Order.

#[export] Existing Instances growing_true growing_and growing_elem.
Arguments orderly {E W event} trace allowed inv base {A} P m Q.
Arguments Growing {event} P.
Arguments grows {event P _} l l' _.
Arguments orderly_pre {E W event trace allowed inv base A} m P P' Q.
Arguments orderly_post {E W event trace allowed inv base A} m P Q Q'.
Arguments orderly_seq {E W event trace allowed inv base A B} m k P R Q.
Arguments orderly_bind {E W event trace allowed inv base A B} m k P R Q {_}.
Arguments orderly_frame {E W event trace allowed inv base A} m P F Q {_}.
Arguments orderly_attempt {E W event trace allowed inv base A} m P Q.

Section Adequacy.
Context {E W event : Type} (trace : W -> list event) (allowed : event -> list event -> Prop) (inv : W -> Prop).

(** What a judgement says of a run. *)
Lemma orderly_run {A} (m : prog E W A) (Q : A -> list event -> Prop) w r w' :
  orderly trace allowed inv (trace w) (fun _ => True) m Q -> inv w -> m w = (r, w') -> inv w' /\
  exists l, trace w' = l ++ trace w /\ Ordered allowed l /\ match r with Ok a => Q a l | Err _ => True end.
Proof.
  intros Hm Hv Hr. destruct (post_run _ _ _ _ _ (Hm w [] Hv eq_refl ltac:(constructor) I) Hr) as (Hv' & l & Ht & Ho & HQ).
  split; [done|]. exists l. rewrite app_nil_r in *. by split_and!.
Qed.
End Adequacy.

(** ** Programs that go on after an error

    Where a handler acts on the error of a call, what is known when the call
    failed matters as well: [tracked] is [orderly] with a second postcondition
    [R], for failure. *)
Section Tracked.
Context {E W event : Type} (inv : W -> Prop) (trace : W -> list event) (allowed : event -> list event -> Prop) (base : list event).

Definition tracked {A} (P : list event -> Prop) (m : prog E W A) (Q : A -> list event -> Prop) (R : list event -> Prop) : Prop :=
  forall w l, inv w -> trace w = l ++ base -> Ordered allowed l -> P l ->
    post m (fun r w' => inv w' /\ exists l', trace w' = (l' ++ l) ++ base /\ Ordered allowed (l' ++ l) /\ match r with Ok a => Q a (l' ++ l) | Err _ => R (l' ++ l) end) w.

Lemma tracked_pre {A} (m : prog E W A) (P P' : list event -> Prop) Q R : (forall l, P' l -> P l) -> tracked P m Q R -> tracked P' m Q R.
Proof. intros Hi Hm w l Hv Ht Ho HP. apply Hm; auto. Qed.
Lemma tracked_post {A} (m : prog E W A) P (Q Q' : A -> list event -> Prop) (R R' : list event -> Prop) :
  (forall a l, Q a l -> Q' a l) -> (forall l, R l -> R' l) -> tracked P m Q R -> tracked P m Q' R'.
Proof.
  intros HQ HR Hm w l Hv Ht Ho HP. eapply post_mono; [by apply (Hm w l)|].
  intros r w' (Hv' & l' & Ht' & Ho' & Hr). split; [done|]. exists l'. split_and!; [done..|]. destruct r; auto.
Qed.

(** What an ordered trace says may be used on the way. *)
Lemma tracked_conseq {A} (m : prog E W A) (P P' : list event -> Prop) (Q Q' : A -> list event -> Prop) (R R' : list event -> Prop) :
  (forall l, Ordered allowed l -> P' l -> P l) -> (forall a l, Ordered allowed l -> Q a l -> Q' a l) ->
  (forall l, Ordered allowed l -> R l -> R' l) -> tracked P m Q R -> tracked P' m Q' R'.
Proof.
  intros HP HQ HR Hm w l Hv Ht Ho Hp. eapply post_mono; [apply (Hm w l); auto|].
  intros r w' (Hv' & l' & Ht' & Ho' & Hr). split; [done|]. exists l'. split_and!; [done..|]. destruct r; auto.
Qed.

Lemma tracked_silent {A} (m : prog E W A) (P : list event -> Prop) (Q : A -> list event -> Prop) (R : list event -> Prop) :
  (forall w, inv w -> inv (m w).2 /\ trace (m w).2 = trace w /\ match (m w).1 with Ok a => forall l, P l -> Q a l | Err _ => forall l, P l -> R l end) ->
  tracked P m Q R.
Proof.
  intros Hm w l Hv Ht Ho HP. destruct (Hm w Hv) as (Hv' & Ht' & Hr). split; [done|]. exists []. cbn.
  split_and!; [by rewrite Ht'|done|]. destruct (m w).1; auto.
Qed.
Lemma tracked_ret {A} (a : A) (P : list event -> Prop) (Q : A -> list event -> Prop) R : (forall l, P l -> Q a l) -> tracked P (ret a) Q R.
Proof. intros HQ. by apply tracked_silent. Qed.
Lemma tracked_fail {A} e (P : list event -> Prop) (Q : A -> list event -> Prop) (R : list event -> Prop) : (forall l, P l -> R l) -> tracked P (fail e) Q R.
Proof. intros HR. by apply tracked_silent. Qed.

Lemma tracked_bind {A B} (m : prog E W A) (k : A -> prog E W B) P (S : A -> list event -> Prop) Q R :
  tracked P m S R -> (forall a, tracked (S a) (k a) Q R) -> tracked P (m ≫= k) Q R.
Proof.
  intros Hm Hk w l Hv Ht Ho HP. apply post_bind. eapply post_mono; [by apply (Hm w l)|].
  intros [a|e] w' (Hv' & l' & Ht' & Ho' & Hr); [|split; [done|by exists l']].
  eapply post_mono; [apply (Hk a w' (l' ++ l)); done|].
  intros r w2 (Hv2 & l2 & Ht2 & Ho2 & Hr2). split; [done|]. exists (l2 ++ l'). rewrite <- (app_assoc l2 l' l). by split_and!.
Qed.
Lemma tracked_attempt {A} (m : prog E W A) P (Q : A -> list event -> Prop) (R R' : list event -> Prop) :
  tracked P m Q R -> tracked P (attempt m) (fun r l => match r with Ok a => Q a l | Err _ => R l end) R'.
Proof.
  intros Hm w l Hv Ht Ho HP. apply post_attempt. eapply post_mono; [by apply (Hm w l)|]. intros r w' Hr. done.
Qed.
(** [_ = m()] *)
Lemma tracked_try {A} (m : prog E W A) (P S R : list event -> Prop) :
  tracked P m (fun _ => S) S -> tracked P (attempt m) (fun _ => S) R.
Proof. intros Hm. eapply tracked_post; [|by intros l Hl; exact Hl|by apply (tracked_attempt _ _ (fun _ => S) S R)]. by intros []. Qed.
Lemma tracked_get {B} (k : W -> prog E W B) (P : list event -> Prop) Q R :
  (forall w, inv w -> tracked P (k w) Q R) -> tracked P (get ≫= k) Q R.
Proof. intros Hk w l Hv Ht Ho HP. by apply (Hk w Hv w l). Qed.

Lemma tracked_pure {A} (F : Prop) (m : prog E W A) (P : list event -> Prop) Q R :
  (F -> tracked P m Q R) -> tracked (fun l => F /\ P l) m Q R.
Proof. intros Hm w l Hv Ht Ho [HF HP]. by apply (Hm HF w l). Qed.

Lemma tracked_ex {A X} (m : prog E W A) (P : X -> list event -> Prop) Q R :
  (forall x, tracked (P x) m Q R) -> tracked (fun l => exists x, P x l) m Q R.
Proof. intros Hm w l Hv Ht Ho [x HP]. by apply (Hm x w l). Qed.

Lemma tracked_assoc {A B C} (m : prog E W A) (f : A -> prog E W B) (k : B -> prog E W C) P Q R :
  tracked P ((m ≫= f) ≫= k) Q R -> tracked P (a ← m; f a ≫= k) Q R.
Proof.
  intros Hm w l Hv Ht Ho HP. specialize (Hm w l Hv Ht Ho HP). revert Hm. unfold post, mbind, prog_mbind, bind.
  by destruct (m w) as [[a|e] w'].
Qed.

(** What was recorded stays recorded. *)
Lemma tracked_frame {A} (m : prog E W A) (F P : list event -> Prop) (Q : A -> list event -> Prop) (R : list event -> Prop) `{!Growing F} :
  tracked P m Q R -> tracked (fun l => F l /\ P l) m (fun a l => F l /\ Q a l) (fun l => F l /\ R l).
Proof.
  intros Hm w l Hv Ht Ho [HF HP]. eapply post_mono; [by apply (Hm w l)|]. intros r w' (Hv' & l' & Ht' & Ho' & Hr).
  split; [done|]. exists l'. split_and!; [done..|]. destruct r; split; try done; by apply grows.
Qed.

(** A call that records one event. *)
Lemma tracked_event {A} (m : prog E W A) (P : list event -> Prop) (Q : A -> list event -> Prop) (R : list event -> Prop) :
  (forall w l, inv w -> trace w = l ++ base -> P l -> inv (m w).2 /\ exists e, trace (m w).2 = e :: trace w /\ allowed e l /\ match (m w).1 with Ok a => Q a (e :: l) | Err _ => R (e :: l) end) -> tracked P m Q R.
Proof.
  intros Hm w l Hv Ht Ho HP. destruct (Hm w l Hv Ht HP) as (Hv' & e & Ht' & Ha & Hr). split; [done|]. exists [e]. cbn.
  split_and!; [by rewrite Ht', Ht|by constructor|done].
Qed.
End Tracked.

Arguments tracked {E W event} inv trace allowed base {A} P m Q R.

(** What a judgement says of a run, from nothing recorded. *)
Lemma tracked_run_from {E W event A} (inv : W -> Prop) (trace : W -> list event) allowed (P : list event -> Prop) (m : prog E W A)
  (Q : A -> list event -> Prop) (R : list event -> Prop) w :
  tracked inv trace allowed (trace w) P m Q R -> P [] -> inv w -> inv (m w).2 /\
  exists l, trace (m w).2 = l ++ trace w /\ Ordered allowed l /\ match (m w).1 with Ok a => Q a l | Err _ => R l end.
Proof.
  intros Hm HP Hv. destruct (Hm w [] Hv eq_refl ltac:(constructor) HP) as (Hv' & l & Ht & Ho & Hr). split; [done|].
  exists l. rewrite app_nil_r in *. done.
Qed.
Lemma tracked_run {E W event A} (inv : W -> Prop) (trace : W -> list event) allowed (m : prog E W A) (Q : A -> list event -> Prop) (R : list event -> Prop) w :
  tracked inv trace allowed (trace w) (fun _ => True) m Q R -> inv w -> inv (m w).2 /\
  exists l, trace (m w).2 = l ++ trace w /\ Ordered allowed l /\ match (m w).1 with Ok a => Q a l | Err _ => R l end.
Proof. intros Hm. by apply (tracked_run_from _ _ _ (fun _ => True)). Qed.
