(* ===== verification/Run.v ===== *)
(** The stack lifecycle state machine of [src/pkg/run/machine.go]. *)
From S2P Require Import Prelude.

Open Scope string_scope.

(** States and events are Go string types: a value outside the declared
    constants (in particular the zero value [""]) can occur, so both stay
    strings here. *)
Abbreviation State := string (only parsing).
Abbreviation Event := string (only parsing).

Definition StateProvisioning : State := "Provisioning".
Definition StateIdle : State := "Idle".
Definition StateStarting : State := "Starting".
Definition StateRunningPrimary : State := "RunningPrimary".
Definition StateFailingOver : State := "FailingOver".
Definition StateRunningBackup : State := "RunningBackup".
Definition StateRestoring : State := "Restoring".
Definition StateStopping : State := "Stopping".
Definition StateUpdating : State := "Updating".
Definition StateRollingBack : State := "RollingBack".
Definition StateFailed : State := "Failed".

(** [transitionalStates]: Go reads an absent key as [false]. *)
Definition transitionalStates : gset State :=
  {[ StateProvisioning; StateStarting; StateFailingOver; StateRestoring;
     StateStopping; StateUpdating; StateRollingBack ]}.

Definition transitional (s : State) : bool := bool_decide (s ∈ transitionalStates).

Definition EventCreateStack : Event := "CreateStack".
Definition EventBackupRestoreStart : Event := "BackupRestoreStart".
Definition EventBackupRestorePrepared : Event := "BackupRestorePrepared".
Definition EventProvisionDone : Event := "ProvisionDone".
Definition EventStartStack : Event := "StartStack".
Definition EventStartDone : Event := "StartDone".
Definition EventStartFailed : Event := "StartFailed".
Definition EventFailStack : Event := "FailStack".
Definition EventFailoverStart : Event := "FailoverStart".
Definition EventFailoverDone : Event := "FailoverDone".
Definition EventFailoverFailed : Event := "FailoverFailed".
Definition EventRestoreStart : Event := "RestoreStart".
Definition EventRestoreDone : Event := "RestoreDone".
Definition EventRestoreFailed : Event := "RestoreFailed".
Definition EventStopStack : Event := "StopStack".
Definition EventStopDone : Event := "StopDone".
Definition EventUpdateStack : Event := "UpdateStack".
Definition EventUpdateDone : Event := "UpdateDone".
Definition EventUpdateFailed : Event := "UpdateFailed".
Definition EventRollbackDone : Event := "RollbackDone".
Definition EventRollbackFailed : Event := "RollbackFailed".
Definition EventPurgeStack : Event := "PurgeStack".

Record Transition := mkTransition { From : State; Evt : Event; To : State }.
#[export] Instance Transition_eq_dec : EqDecision Transition.
Proof. solve_decision. Defined.

Definition transitions : list Transition :=
  [ mkTransition StateIdle EventBackupRestoreStart StateRestoring;
    mkTransition StateRestoring EventBackupRestorePrepared StateProvisioning;
    mkTransition StateIdle EventCreateStack StateProvisioning;
    mkTransition StateProvisioning EventProvisionDone StateIdle;
    mkTransition StateProvisioning EventFailStack StateFailed;
    mkTransition StateIdle EventStartStack StateStarting;
    mkTransition StateFailed EventStartStack StateStarting;
    mkTransition StateStarting EventStartDone StateRunningPrimary;
    mkTransition StateStarting EventStartFailed StateFailed;
    mkTransition StateRunningPrimary EventFailStack StateFailed;
    mkTransition StateRunningPrimary EventFailoverStart StateFailingOver;
    mkTransition StateFailingOver EventFailoverDone StateRunningBackup;
    mkTransition StateFailingOver EventFailoverFailed StateFailed;
    mkTransition StateRunningBackup EventRestoreStart StateRestoring;
    mkTransition StateRestoring EventRestoreDone StateRunningPrimary;
    mkTransition StateRestoring EventRestoreFailed StateFailed;
    mkTransition StateRunningPrimary EventStopStack StateStopping;
    mkTransition StateRunningBackup EventStopStack StateStopping;
    mkTransition StateIdle EventStopStack StateIdle;
    mkTransition StateStopping EventStopDone StateIdle;
    mkTransition StateRunningPrimary EventUpdateStack StateUpdating;
    mkTransition StateUpdating EventUpdateDone StateRunningPrimary;
    mkTransition StateUpdating EventUpdateFailed StateRollingBack;
    mkTransition StateRollingBack EventRollbackDone StateRunningPrimary;
    mkTransition StateRollingBack EventRollbackFailed StateFailed ].

(** [init]: the two-level index is filled row by row, creating the inner map
    on first use of a source state; a later row overwrites an earlier one. *)
Definition init_row (m : gmap State (gmap Event State)) (t : Transition) : gmap State (gmap Event State) :=
  <[ From t := <[ Evt t := To t ]> (default ∅ (m !! From t)) ]> m.
Definition init (ts : list Transition) : gmap State (gmap Event State) := foldl init_row ∅ ts.
Definition transitionMap : gmap State (gmap Event State) := init transitions.

(** [StackInstance]; times are nanoseconds since the Unix epoch. *)
Record StackInstance := mkInstance {
  ID : string;
  InstState : State;
  PreviousState : State;
  LockedBy : string;
  UpdatedAt : Z }.

Inductive Error :=
| ErrTransitionInProgress
| ErrInvalidTransition (from : State) (ev : option Event).

Section Machine.
(** [time.Now().UTC()] at the call. *)
Variable now : Z.

Definition Apply (inst : StackInstance) (ev : Event) : result Error StackInstance :=
  let locked := transitional (InstState inst) && negb (bool_decide (LockedBy inst = "")) in
  let toMap := transitionMap !! InstState inst in
  if locked && negb (bool_decide (is_Some (toMap ≫= (.!! ev)))) then Err ErrTransitionInProgress
  else match toMap with
       | None => Err (ErrInvalidTransition (InstState inst) None)
       | Some m =>
           match m !! ev with
           | None => Err (ErrInvalidTransition (InstState inst) (Some ev))
           | Some next =>
               Ok {| ID := ID inst;
                     InstState := next;
                     PreviousState := InstState inst;
                     LockedBy := if transitional next then "control" else "";
                     UpdatedAt := now |}
           end
       end.
End Machine.

(** [ValidTransitions]: Go returns the keys in no particular order. *)
Definition ValidTransitions (state : State) : list Event :=
  (map_to_list (default ∅ (transitionMap !! state))).*1.

(** ** The index built by [init] is the transition table *)

Definition row (m : gmap State (gmap Event State)) (s : State) (e : Event) : option State :=
  m !! s ≫= (.!! e).

Lemma init_snoc ts t : init (ts ++ [t]) = init_row (init ts) t.
Proof. unfold init. by rewrite foldl_app. Qed.

Lemma row_init_row m t s e :
  row (init_row m t) s e = if decide (From t = s /\ Evt t = e) then Some (To t) else row m s e.
Proof.
  unfold row, init_row.
  destruct (decide (From t = s)) as [<-|Hne].
  - rewrite lookup_insert_eq; simpl.
    destruct (decide (Evt t = e)) as [<-|He].
    + rewrite lookup_insert_eq. rewrite decide_True; done.
    + rewrite lookup_insert_ne, decide_False by naive_solver.
      by destruct (m !! From t).
  - by rewrite lookup_insert_ne, decide_False by naive_solver.
Qed.

(** Rows are looked up with Go's last-write-wins; when no two rows share
    source and event, that is membership. *)
Lemma row_init_spec ts s e t :
  NoDup ((fun t => (From t, Evt t)) <$> ts) ->
  row (init ts) s e = Some t <-> mkTransition s e t ∈ ts.
Proof.
  induction ts as [|r ts IH] using rev_ind; intros Hnd.
  - split; [done|]. by intros ?%elem_of_nil.
  - rewrite fmap_app, NoDup_app in Hnd. destruct Hnd as (Hnd & Hdis & _).
    rewrite init_snoc, row_init_row, elem_of_app, list_elem_of_singleton.
    case_decide as Hd.
    + destruct Hd as [<- <-]. split.
      * intros [= <-]. right. by destruct r.
      * intros [Hin|Heq]; [exfalso|by rewrite <- Heq].
        apply (Hdis (From r, Evt r)); [|simpl; set_solver].
        apply list_elem_of_fmap. by eexists (mkTransition _ _ _).
    + rewrite IH by done. split; [by left|]. intros [?|Heq]; [done|].
      exfalso. apply Hd. by rewrite <- Heq.
Qed.

Lemma transitionMap_eq : transitionMap = init transitions.
Proof. reflexivity. Qed.

(** From here on the index is used through its specification and [vm_compute]. *)
#[global] Opaque transitionMap.

Lemma transitions_deterministic : NoDup ((fun t => (From t, Evt t)) <$> transitions).
Proof. apply (bool_decide_eq_true_1 _). vm_compute. reflexivity. Qed.

Lemma transitionMap_spec s e t :
  row transitionMap s e = Some t <-> mkTransition s e t ∈ transitions.
Proof. rewrite transitionMap_eq. apply row_init_spec, transitions_deterministic. Qed.

(** ** One application *)

Lemma row_lookup m s e :
  row m s e = match m !! s with Some r => r !! e | None => None end.
Proof. unfold row. by destruct (m !! s). Qed.

(** [Apply] succeeds exactly on the rows of the index. *)
Lemma Apply_row now inst ev :
  Apply now inst ev =
    match row transitionMap (InstState inst) ev with
    | Some next =>
        Ok {| ID := ID inst; InstState := next; PreviousState := InstState inst;
              LockedBy := if transitional next then "control" else ""; UpdatedAt := now |}
    | None =>
        if transitional (InstState inst) && negb (bool_decide (LockedBy inst = ""))
        then Err ErrTransitionInProgress
        else Err (ErrInvalidTransition (InstState inst)
                    match transitionMap !! InstState inst with Some _ => Some ev | None => None end)
    end.
Proof.
  unfold Apply. rewrite row_lookup. generalize transitionMap as m; intros m.
  destruct (m !! InstState inst) as [r|]; simpl;
    [|change (bool_decide (is_Some (@None State))) with false; rewrite andb_true_r;
      by destruct (transitional _ && _)].
  destruct (r !! ev) eqn:Hr; simpl.
  - change (bool_decide (is_Some (Some s))) with true. by rewrite andb_false_r.
  - change (bool_decide (is_Some (@None State))) with false. rewrite andb_true_r.
    by destruct (transitional _ && _).
Qed.

Lemma Apply_Ok_inv now inst ev inst' :
  Apply now inst ev = Ok inst' ->
  mkTransition (InstState inst) ev (InstState inst') ∈ transitions /\
  inst' = {| ID := ID inst; InstState := InstState inst'; PreviousState := InstState inst;
             LockedBy := if transitional (InstState inst') then "control" else "";
             UpdatedAt := now |}.
Proof.
  rewrite Apply_row. destruct (row _ _ _) eqn:Hr.
  - apply transitionMap_spec in Hr. intros [= <-]. done.
  - by destruct (_ && _).
Qed.

Lemma no_row s e :
  row transitionMap s e = None <-> forall t, mkTransition s e t ∉ transitions.
Proof.
  split.
  - intros Hn t Ht%transitionMap_spec. congruence.
  - intros Hn. destruct (row transitionMap s e) eqn:Hr; [|done].
    apply transitionMap_spec in Hr. by apply Hn in Hr.
Qed.

Definition states : list State :=
  [StateProvisioning; StateIdle; StateStarting; StateRunningPrimary; StateFailingOver;
   StateRunningBackup; StateRestoring; StateStopping; StateUpdating; StateRollingBack;
   StateFailed].

(** Runs a sequence of events through the index, as successive calls do. *)
Fixpoint run_events (s : State) (evs : list Event) {struct evs} : option State :=
  match evs with
  | [] => Some s
  | e :: evs =>
      match row transitionMap s e with
      | Some t => run_events t evs
      | None => None
      end
  end.

(** ** Runs of the machine *)

(** One command accepted by the machine at some time. *)
Definition step (i i' : StackInstance) : Prop := exists now ev, Apply now i ev = Ok i'.

(** The instance a stack starts from: settled and unlocked. *)
Definition fresh (i : StackInstance) : Prop := InstState i = StateIdle /\ LockedBy i = "".

Definition lock_inv (i : StackInstance) : Prop :=
  InstState i ∈ states /\
  LockedBy i = if transitional (InstState i) then "control" else "".

Lemma row_target_state t : t ∈ transitions -> From t ∈ states /\ To t ∈ states.
Proof. revert t. refine (Forall_decide (fun t => From t ∈ states /\ To t ∈ states) transitions _). vm_compute. reflexivity. Qed.

Lemma step_lock_inv i i' : step i i' -> lock_inv i'.
Proof.
  intros (now & ev & H). apply Apply_Ok_inv in H as [Hin Heq].
  split; [apply (row_target_state _ Hin)|]. by rewrite Heq.
Qed.

Lemma fresh_lock_inv i : fresh i -> lock_inv i.
Proof.
  intros [Hs Hl]. split; rewrite Hs; [|by rewrite Hl].
  unfold states. set_solver.
Qed.

(** Closes a reachability goal with an explicit event sequence. *)
#[local] Ltac path evs := exists evs; split; [simpl; lia|vm_compute; reflexivity].
#[local] Ltac settle evs := intros _; exists evs; eexists; split; [simpl; lia|split; [vm_compute; reflexivity|vm_compute; reflexivity]].

(** * Properties *)

(** The whole contract of [Apply]: it succeeds exactly on a row of the
    transition table, moving to the row's target, remembering the state it
    left, stamping the time and taking the lock ["control"] exactly when the
    target is transitional; a command without a row is refused as "in
    progress" when the instance is locked in a transitional state, and as an
    invalid transition otherwise. *)
Theorem Apply_contract (now : Z) (inst : StackInstance) (ev : Event) :
  match Apply now inst ev with
  | Ok i =>
      mkTransition (InstState inst) ev (InstState i) ∈ transitions /\
      ID i = ID inst /\ PreviousState i = InstState inst /\ UpdatedAt i = now /\
      LockedBy i = if transitional (InstState i) then "control" else ""
  | Err ErrTransitionInProgress =>
      (forall t, mkTransition (InstState inst) ev t ∉ transitions) /\
      transitional (InstState inst) = true /\ LockedBy inst <> ""
  | Err (ErrInvalidTransition from _) =>
      (forall t, mkTransition (InstState inst) ev t ∉ transitions) /\
      from = InstState inst /\
      (transitional (InstState inst) = false \/ LockedBy inst = "")
  end.
Proof.
  rewrite Apply_row. destruct (row _ _ _) as [t|] eqn:Hr.
  - apply transitionMap_spec in Hr. done.
  - pose proof (proj1 (no_row _ _) Hr) as Hno. destruct (transitional (InstState inst)) eqn:Ht; simpl.
    + destruct (decide (LockedBy inst = "")) as [Hl|Hl];
        [rewrite bool_decide_true by done|rewrite bool_decide_false by done]; simpl; auto.
    + auto.
Qed.

(** Lock discipline: in every instance reachable from a fresh one by
    accepted commands, the state is one of the eleven declared states and the
    control lock is held exactly in the transitional ones. *)
Theorem reachable_lock_discipline (i i' : StackInstance) :
  fresh i -> star step i i' -> lock_inv i'.
Proof.
  intros Hf. apply star_invariant.
  - by apply fresh_lock_inv.
  - intros s s' _. apply step_lock_inv.
Qed.

Lemma reachable_lock_discipline_witness :
  let i0 := mkInstance "s" StateIdle "" "" 0 in
  let i1 := mkInstance "s" StateStarting StateIdle "control" 5 in
  fresh i0 /\ star step i0 i1 /\ lock_inv i1.
Proof.
  intros i0 i1.
  assert (Hf : fresh i0) by done.
  assert (Hs : star step i0 i1).
  { apply star_one. exists 5%Z, EventStartStack. vm_compute. reflexivity. }
  split; [exact Hf|]. split; [exact Hs|].
  exact (reachable_lock_discipline i0 i1 Hf Hs).
Defined.

(** No declared state is a trap: from each of them some sequence of at
    most four accepted events brings the stack back to [Idle], and every
    transitional state can settle by its own completion or failure events
    in at most two. *)
Theorem every_state_recovers (s : State) :
  s ∈ states ->
  (exists evs, length evs <= 4 /\ run_events s evs = Some StateIdle) /\
  (transitional s = true ->
   exists evs t, length evs <= 2 /\ run_events s evs = Some t /\ transitional t = false).
Proof.
  intros Hs. unfold states in Hs.
  repeat (apply elem_of_cons in Hs; destruct Hs as [->|Hs]); [..|by apply elem_of_nil in Hs]; split.
  all: try (intros Ht; vm_compute in Ht; discriminate).
  - path [EventProvisionDone].
  - settle [EventProvisionDone].
  - path (@nil Event).
  - path [EventStartDone; EventStopStack; EventStopDone].
  - settle [EventStartDone].
  - path [EventStopStack; EventStopDone].
  - path [EventFailoverDone; EventStopStack; EventStopDone].
  - settle [EventFailoverDone].
  - path [EventStopStack; EventStopDone].
  - path [EventRestoreDone; EventStopStack; EventStopDone].
  - settle [EventRestoreDone].
  - path [EventStopDone].
  - settle [EventStopDone].
  - path [EventUpdateDone; EventStopStack; EventStopDone].
  - settle [EventUpdateDone].
  - path [EventRollbackDone; EventStopStack; EventStopDone].
  - settle [EventRollbackDone].
  - path [EventStartStack; EventStartDone; EventStopStack; EventStopDone].
Qed.

Lemma every_state_recovers_witness :
  StateUpdating ∈ states /\
  exists evs, length evs <= 4 /\ run_events StateUpdating evs = Some StateIdle.
Proof.
  assert (H : StateUpdating ∈ states) by (unfold states; set_solver).
  split; [exact H|]. exact (proj1 (every_state_recovers StateUpdating H)).
Defined.

Lemma elem_of_ValidTransitions s e : e ∈ ValidTransitions s <-> is_Some (row transitionMap s e).
Proof.
  unfold ValidTransitions. rewrite row_lookup. generalize transitionMap as m; intros m.
  rewrite list_elem_of_fmap. destruct (m !! s) as [r|]; simpl.
  - split.
    + intros ([? t] & -> & H%elem_of_map_to_list). eauto.
    + intros [t H]. exists (e, t). by rewrite elem_of_map_to_list.
  - split; [|by intros [??]]. intros ([? t] & -> & H%elem_of_map_to_list).
    by rewrite lookup_empty in H.
Qed.

(** [ValidTransitions] is complete and exact: it lists, without
    duplicates, precisely the events that [Apply] accepts in that state. *)
Theorem ValidTransitions_exact (now : Z) (inst : StackInstance) (ev : Event) :
  NoDup (ValidTransitions (InstState inst)) /\
  (ev ∈ ValidTransitions (InstState inst) <-> is_ok (Apply now inst ev) = true).
Proof.
  split; [apply NoDup_fst_map_to_list|].
  rewrite elem_of_ValidTransitions, Apply_row.
  destruct (row _ _ _); simpl.
  - split; [done|eauto].
  - destruct (_ && _); split; try done; by intros [??].
Qed.

(** A container failure while the workload runs on its backup node cannot
    be recorded: [FailStack] is refused in [RunningBackup] whatever the lock,
    and purging has no transition in any state. *)
Theorem no_failure_on_backup (now : Z) (inst : StackInstance) :
  (InstState inst = StateRunningBackup ->
   Apply now inst EventFailStack = Err (ErrInvalidTransition StateRunningBackup (Some EventFailStack))) /\
  is_ok (Apply now inst EventPurgeStack) = false.
Proof.
  split.
  - intros Hs. rewrite Apply_row, Hs.
    replace (row transitionMap StateRunningBackup EventFailStack) with (@None State)
      by (vm_compute; reflexivity).
    replace (transitional StateRunningBackup) with false by (vm_compute; reflexivity).
    simpl. f_equal.
  - rewrite Apply_row. destruct (row _ _ _) as [t|] eqn:Hr; [|by destruct (_ && _)].
    apply transitionMap_spec in Hr.
    assert (Hno : forall t, t ∈ transitions -> Evt t <> EventPurgeStack).
    { refine (Forall_decide (fun t => Evt t <> EventPurgeStack) transitions _). vm_compute. reflexivity. }
    by apply Hno in Hr.
Qed.

Lemma no_failure_on_backup_witness :
  Apply 0 (mkInstance "s" StateRunningBackup StateFailingOver "" 0) EventFailStack
  = Err (ErrInvalidTransition StateRunningBackup (Some EventFailStack)).
Proof.
  exact (proj1 (no_failure_on_backup 0 (mkInstance "s" StateRunningBackup StateFailingOver "" 0)) eq_refl).
Defined.
