(* ===== verification/GoTime.v ===== *)
(** The part of Go's [time] package the program computes with: instants are
    nanoseconds since the Unix epoch (UTC), calendar dates follow the
    proleptic Gregorian calendar, and [Date]/[AddDate] normalise out-of-range
    months and days the way the package documents. *)
From S2P Require Import Prelude.

Open Scope Z_scope.

Definition Nanosecond : Z := 1.
Definition Microsecond : Z := 1000.
Definition Millisecond : Z := 1000 * Microsecond.
Definition Second : Z := 1000 * Millisecond.
Definition Minute : Z := 60 * Second.
Definition Hour : Z := 60 * Minute.
Definition day_ns : Z := 24 * Hour.

Definition MaxInt64 : Z := 2 ^ 63 - 1.

(** [t.Unix()] and the clock fields. *)
Definition Unix (t : Z) : Z := t / Second.
Definition clock_ns (t : Z) : Z := t mod day_ns.
Definition unix_day (t : Z) : Z := t / day_ns.

(** Seconds between year 1 and the Unix epoch: [Truncate] rounds down to a
    multiple of the duration since the zero time. *)
Definition zero_offset : Z := 62135596800 * Second.
Definition Truncate (t d : Z) : Z :=
  if d <=? 0 then t else t - (t + zero_offset) mod d.

(** The zero [time.Time]. *)
Definition zero_time : Z := - zero_offset.
Definition IsZero (t : Z) : bool := t =? zero_time.

(** [t.Sub(u)]: a duration, which saturates. *)
Definition Sub (t u : Z) : Z := Z.max (- 2 ^ 63) (Z.min MaxInt64 (t - u)).

(** ** Calendar *)

Definition leap (y : Z) : bool :=
  (y mod 4 =? 0) && (negb (y mod 100 =? 0) || (y mod 400 =? 0)).

(** Days from 0001-01-01 to the first day of year [y]. *)
Definition days_before_year (y : Z) : Z :=
  365 * (y - 1) + (y - 1) / 4 - (y - 1) / 100 + (y - 1) / 400.

Definition epoch_days : Z := 719162.

Definition days_in_month (l : bool) (m : Z) : Z :=
  if m =? 2 then (if l then 29 else 28)
  else if (m =? 4) || (m =? 6) || (m =? 9) || (m =? 11) then 30 else 31.

Definition days_before_month (l : bool) (m : Z) : Z :=
  let b := if l then 1 else 0 in
  if m =? 1 then 0 else if m =? 2 then 31 else if m =? 3 then 59 + b
  else if m =? 4 then 90 + b else if m =? 5 then 120 + b else if m =? 6 then 151 + b
  else if m =? 7 then 181 + b else if m =? 8 then 212 + b else if m =? 9 then 243 + b
  else if m =? 10 then 273 + b else if m =? 11 then 304 + b else 334 + b.

(** The calendar date of a day counted from the Unix epoch. *)
Definition year_of (n : Z) : Z :=
  let d := n + epoch_days in
  let y := 400 * d / 146097 + 1 in
  if d <? days_before_year y then y - 1
  else if days_before_year (y + 1) <=? d then y + 1 else y.

Definition month_of_yday (l : bool) (yd : Z) : Z :=
  if yd <? days_before_month l 2 then 1 else if yd <? days_before_month l 3 then 2
  else if yd <? days_before_month l 4 then 3 else if yd <? days_before_month l 5 then 4
  else if yd <? days_before_month l 6 then 5 else if yd <? days_before_month l 7 then 6
  else if yd <? days_before_month l 8 then 7 else if yd <? days_before_month l 9 then 8
  else if yd <? days_before_month l 10 then 9 else if yd <? days_before_month l 11 then 10
  else if yd <? days_before_month l 12 then 11 else 12.

Definition yday (n : Z) : Z := n + epoch_days - days_before_year (year_of n).

Definition Year (t : Z) : Z := year_of (unix_day t).
Definition Month (t : Z) : Z := month_of_yday (leap (Year t)) (yday (unix_day t)).
Definition Day (t : Z) : Z :=
  yday (unix_day t) - days_before_month (leap (Year t)) (Month t) + 1.

(** [time.Date] with the clock given in nanoseconds since midnight: the month
    is normalised into the year, the day counts on from the month's start. *)
Definition days_from_civil (y m d : Z) : Z :=
  let y' := y + (m - 1) / 12 in
  let m' := (m - 1) mod 12 + 1 in
  days_before_year y' + days_before_month (leap y') m' + (d - 1) - epoch_days.
Definition Date (y m d ns : Z) : Z := days_from_civil y m d * day_ns + ns.

Definition AddDate (t years months days : Z) : Z :=
  Date (Year t + years) (Month t + months) (Day t + days) (clock_ns t).

(** ** The calendar functions invert each other *)

Lemma Date_eq y m d ns : Date y m d ns = days_from_civil y m d * day_ns + ns.
Proof. reflexivity. Qed.

Definition leap_day (y : Z) : Z := if leap y then 1 else 0.

Ltac div_lia := Z.div_mod_to_equations; lia.

Lemma days_before_year_succ y :
  days_before_year (y + 1) = days_before_year y + 365 + leap_day y.
Proof.
  unfold days_before_year, leap_day, leap.
  destruct (y mod 4 =? 0) eqn:H4, (y mod 100 =? 0) eqn:H100, (y mod 400 =? 0) eqn:H400;
    simpl; to_prop; div_lia.
Qed.

Lemma days_before_year_mono y1 y2 : y1 <= y2 -> days_before_year y1 <= days_before_year y2.
Proof. unfold days_before_year. intros. div_lia. Qed.

Lemma leap_day_bounds y : 0 <= leap_day y <= 1.
Proof. unfold leap_day. destruct (leap y); lia. Qed.

Lemma year_of_spec n :
  days_before_year (year_of n) <= n + epoch_days < days_before_year (year_of n + 1).
Proof.
  unfold year_of. set (d := n + epoch_days). set (y := 400 * d / 146097 + 1).
  assert (Hb : days_before_year (y - 1) <= d < days_before_year (y + 2)).
  { unfold days_before_year, y. div_lia. }
  destruct (d <? days_before_year y) eqn:H1; to_prop.
  - replace (y - 1 + 1) with y by lia. lia.
  - destruct (days_before_year (y + 1) <=? d) eqn:H2; to_prop; [|lia].
    replace (y + 1 + 1) with (y + 2) by lia. lia.
Qed.

Lemma year_of_unique n y :
  days_before_year y <= n + epoch_days < days_before_year (y + 1) -> year_of n = y.
Proof.
  intros Hy. pose proof (year_of_spec n) as Hs.
  destruct (Z.lt_trichotomy (year_of n) y) as [H|[H|H]]; [exfalso|done|exfalso].
  - pose proof (days_before_year_mono (year_of n + 1) y). lia.
  - pose proof (days_before_year_mono (y + 1) (year_of n)). lia.
Qed.

Lemma yday_bounds n : 0 <= yday n < 365 + leap_day (year_of n).
Proof.
  unfold yday. pose proof (year_of_spec n). rewrite days_before_year_succ in *. lia.
Qed.

(** Splits a month number into its twelve values. *)
Lemma month_cases m : 1 <= m <= 12 ->
  m = 1 \/ m = 2 \/ m = 3 \/ m = 4 \/ m = 5 \/ m = 6 \/
  m = 7 \/ m = 8 \/ m = 9 \/ m = 10 \/ m = 11 \/ m = 12.
Proof. lia. Qed.
Ltac month_split H := apply month_cases in H; destruct_or! H; subst.

Lemma days_in_month_bounds l m : 28 <= days_in_month l m <= 31.
Proof. unfold days_in_month. repeat case_match; lia. Qed.

Lemma month_end_bound (l : bool) (m : Z) :
  1 <= m <= 12 -> days_before_month l m + days_in_month l m <= 365 + (if l then 1 else 0).
Proof. intros H. month_split H; destruct l; vm_compute; congruence. Qed.

Lemma days_before_month_nonneg l m : 0 <= days_before_month l m.
Proof. unfold days_before_month. repeat case_match; lia. Qed.

Lemma month_of_yday_spec l m d :
  1 <= m <= 12 -> 1 <= d <= days_in_month l m ->
  month_of_yday l (days_before_month l m + (d - 1)) = m.
Proof.
  intros Hm Hd. unfold month_of_yday.
  month_split Hm; destruct l;
    cbn [days_in_month days_before_month Z.eqb Pos.eqb orb] in *;
    repeat (match goal with |- context [Z.ltb ?a ?b] => destruct (Z.ltb_spec a b); try lia end); done.
Qed.

Lemma month_of_yday_bounds l yd : 1 <= month_of_yday l yd <= 12.
Proof. unfold month_of_yday. repeat case_match; lia. Qed.

Lemma day_in_month_bounds (l : bool) (yd : Z) :
  0 <= yd < 365 + (if l then 1 else 0) ->
  let m := month_of_yday l yd in
  0 <= yd - days_before_month l m < days_in_month l m.
Proof.
  intros Hyd. unfold month_of_yday.
  repeat (match goal with |- context [Z.ltb ?a ?b] => destruct (Z.ltb_spec a b) end);
    destruct l; cbn [days_in_month days_before_month Z.eqb Pos.eqb orb] in *; lia.
Qed.

Lemma unix_day_Date y m d ns :
  0 <= ns < day_ns -> unix_day (Date y m d ns) = days_from_civil y m d.
Proof. intros. unfold unix_day, Date. rewrite Z.div_add_l by done. rewrite Z.div_small; lia. Qed.

Lemma clock_ns_Date y m d ns : 0 <= ns < day_ns -> clock_ns (Date y m d ns) = ns.
Proof. intros. unfold clock_ns, Date. rewrite Z.add_comm, Z.mod_add by done. apply Z.mod_small; lia. Qed.

Lemma clock_ns_bounds t : 0 <= clock_ns t < day_ns.
Proof. apply Z.mod_pos_bound. done. Qed.

(** A date in range is read back as written. *)
Lemma civil_roundtrip y m d ns :
  1 <= m <= 12 -> 1 <= d <= days_in_month (leap y) m -> 0 <= ns < day_ns ->
  let t := Date y m d ns in Year t = y /\ Month t = m /\ Day t = d /\ clock_ns t = ns.
Proof.
  intros Hm Hd Hns t.
  assert (Hday : unix_day t + epoch_days = days_before_year y + (days_before_month (leap y) m + (d - 1))).
  { unfold t. rewrite unix_day_Date by done. unfold days_from_civil.
    rewrite (Z.div_small (m - 1) 12), (Z.mod_small (m - 1) 12), Z.add_0_r by lia.
    replace (m - 1 + 1) with m by lia. lia. }
  pose proof (month_end_bound (leap y) m Hm). pose proof (days_before_month_nonneg (leap y) m).
  assert (Hy : Year t = y).
  { apply year_of_unique. rewrite Hday, days_before_year_succ. unfold leap_day. lia. }
  assert (Hyd : yday (unix_day t) = days_before_month (leap y) m + (d - 1)).
  { unfold yday. change (year_of (unix_day t)) with (Year t). rewrite Hy. lia. }
  assert (Hmo : Month t = m).
  { unfold Month. rewrite Hy, Hyd. by apply month_of_yday_spec. }
  split; [done|]. split; [done|]. split; [|by apply clock_ns_Date].
  unfold Day. rewrite Hyd, Hy, Hmo. lia.
Qed.

Lemma Month_bounds t : 1 <= Month t <= 12.
Proof. apply month_of_yday_bounds. Qed.

Lemma Day_bounds t : 1 <= Day t <= days_in_month (leap (Year t)) (Month t).
Proof.
  pose proof (day_in_month_bounds (leap (Year t)) (yday (unix_day t))) as H.
  pose proof (yday_bounds (unix_day t)) as Hy. unfold leap_day in Hy.
  specialize (H Hy). unfold Day. fold (Month t) in H. cbv zeta in H. lia.
Qed.

(** An instant is rebuilt from its fields. *)
Lemma civil_rebuild t : Date (Year t) (Month t) (Day t) (clock_ns t) = t.
Proof.
  unfold Date, days_from_civil. pose proof (Month_bounds t).
  rewrite (Z.div_small (Month t - 1) 12), (Z.mod_small (Month t - 1) 12), Z.add_0_r by lia.
  replace (Month t - 1 + 1) with (Month t) by lia.
  replace (days_before_year (Year t) + _ + _ - epoch_days) with (unix_day t)
    by (unfold Day, yday; change (year_of (unix_day t)) with (Year t); lia).
  unfold unix_day, clock_ns. pose proof (Z.div_mod t day_ns ltac:(done)). lia.
Qed.

(** ** Fixed-width text *)

Definition digit (n : Z) : Ascii.ascii := Ascii.ascii_of_N (Z.to_N (48 + n mod 10)).

(** The [n] low decimal digits of [v], most significant first. *)
Fixpoint digits (n : nat) (v : Z) : string :=
  match n with
  | O => ""
  | S n => String.append (digits n (v / 10)) (String (digit v) "")
  end.

(** [t.UTC().Format("20060102-150405")], for years of four digits. *)
Definition FormatCompact (t : Z) : string :=
  (digits 4 (Year t) +:+ digits 2 (Month t) +:+ digits 2 (Day t) +:+ "-" +:+
   digits 2 (clock_ns t / Hour) +:+ digits 2 (clock_ns t / Minute mod 60) +:+
   digits 2 (clock_ns t / Second mod 60))%string.

Example format_ex : FormatCompact (1735689600 * Second) = "20250101-000000"%string.
Proof. vm_compute. reflexivity. Qed.
Example format_ex2 : FormatCompact (1709251199 * Second) = "20240229-235959"%string.
Proof. vm_compute. reflexivity. Qed.

(** ** Month arithmetic *)

Lemma days_before_month_succ l m : 1 <= m < 12 ->
  days_before_month l (m + 1) = days_before_month l m + days_in_month l m.
Proof.
  intros H. assert (H' : 1 <= m <= 12) by lia.
  month_split H'; try lia; destruct l; vm_compute; reflexivity.
Qed.

(** The first of the next month follows the last day of this one. *)
Lemma days_from_civil_next y m : 1 <= m <= 12 ->
  days_from_civil y (m + 1) 1 = days_from_civil y m 1 + days_in_month (leap y) m.
Proof.
  intros Hm. unfold days_from_civil.
  rewrite (Z.div_small (m - 1) 12), (Z.mod_small (m - 1) 12) by lia.
  replace (m + 1 - 1) with m by lia.
  destruct (decide (m = 12)) as [->|Hne].
  - change (12 / 12) with 1. change (12 mod 12 + 1) with 1. change (12 - 1 + 1) with 12.
    rewrite days_before_year_succ, (Z.add_0_r y). unfold leap_day.
    generalize (leap (y + 1)), (days_before_year y). intros l d.
    assert (days_before_month l 1 = 0 /\ (forall l, days_before_month l 12 = 334 + (if l then 1 else 0))
      /\ (forall l, days_in_month l 12 = 31)) as (-> & H12 & H31) by done.
    rewrite H12, H31. destruct (leap y); lia.
  - rewrite (Z.div_small m 12), (Z.mod_small m 12), (Z.add_0_r y) by lia.
    replace (m - 1 + 1) with m by lia. rewrite days_before_month_succ by lia. lia.
Qed.

(** Dates are counted from a month index: only [12 * y + m - 1] matters. *)
Definition month_index (t : Z) : Z := Year t * 12 + Month t - 1.

Lemma days_from_civil_index y m d :
  let k := y * 12 + m - 1 in
  days_from_civil y m d = days_from_civil (k / 12) (k mod 12 + 1) d.
Proof.
  intros k. assert (Hd : k / 12 = y + (m - 1) / 12) by (unfold k; div_lia).
  assert (Hm : k mod 12 = (m - 1) mod 12) by (unfold k; div_lia).
  assert (H0 : ((m - 1) mod 12 + 1 - 1) / 12 = 0) by div_lia.
  assert (H1 : ((m - 1) mod 12 + 1 - 1) mod 12 = (m - 1) mod 12) by div_lia.
  unfold days_from_civil. by rewrite Hd, Hm, H0, H1, Z.add_0_r.
Qed.
