(* ===== verification/Timestamp.v ===== *)
(** Snapshot names: [src/pkg/store/timestamp.go] and the name-based
    classification of [src/pkg/store/snapshot.go]. *)
From S2P Require Import Prelude GoTime.
From Stdlib Require Import Ascii.

Open Scope Z_scope.

Definition snapshotAlphabet : list ascii :=
  chars "0123456789ABCDEFGHJKMNPQRSTVWXYZ".
Definition snapshotEpoch : Z := 1735689600.
Definition snapshotTicks : Z := 2 ^ 30.

(** [snapshotAlphabet[i]], for an index of five bits. *)
Definition alphabet_at (i : Z) : ascii := nth (Z.to_nat i) snapshotAlphabet "0"%char.

(** The loop filling [out] from its last position down. *)
Fixpoint encode_loop (i : nat) (tick : Z) (out : list ascii) : list ascii :=
  match i with
  | O => out
  | S i => encode_loop i (Z.shiftr tick 5) (alphabet_at (Z.land tick 31) :: out)
  end.

Inductive Error := ErrRange | ErrLength | ErrCharacter.

(** [EncodeSnapshotTimestamp]: [t.Before(u)] is [t < u] on instants. *)
Definition EncodeSnapshotTimestamp (t : Z) : result Error (list ascii) :=
  if (t <? snapshotEpoch * Second) || negb (t <? (snapshotEpoch + snapshotTicks * 3) * Second)
  then Err ErrRange
  else
    let seconds := Unix t - snapshotEpoch in
    let tick := Z.quot seconds 3 in
    Ok (encode_loop 6 tick []).

(** ** Decoding

    The code ranges over the runes of [strings.ToUpper(s)].  A rune that is
    not ASCII after upper-casing is never in the alphabet, so it is only
    recorded as [None]; the two non-ASCII runes whose upper case is ASCII are
    U+0131 (to [I]) and U+017F (to [S]). *)
Definition ascii_upper (c : ascii) : ascii :=
  let n := N_of_ascii c in
  if (97 <=? n)%N && (n <=? 122)%N then ascii_of_N (n - 32) else c.

Fixpoint upper_runes (s : list ascii) : list (option ascii) :=
  match s with
  | [] => []
  | c :: s' =>
      let n := N_of_ascii c in
      if (n <? 128)%N then Some (ascii_upper c) :: upper_runes s'
      else match s' with
           | d :: s'' =>
               if (n =? 196)%N && (N_of_ascii d =? 177)%N then Some "I"%char :: upper_runes s''
               else if (n =? 197)%N && (N_of_ascii d =? 191)%N then Some "S"%char :: upper_runes s''
               else None :: upper_runes s'
           | [] => [None]
           end
  end.

(** [strings.IndexRune]. *)
Fixpoint index_rune (l : list ascii) (c : ascii) : option Z :=
  match l with
  | [] => None
  | x :: l => if Ascii.eqb x c then Some 0 else Z.succ <$> index_rune l c
  end.

Definition alias (c : ascii) : ascii :=
  if Ascii.eqb c "O" then "0"%char
  else if Ascii.eqb c "I" || Ascii.eqb c "L" then "1"%char else c.

Fixpoint decode_loop (rs : list (option ascii)) (tick : Z) : result Error Z :=
  match rs with
  | [] => Ok tick
  | None :: _ => Err ErrCharacter
  | Some c :: rs =>
      match index_rune snapshotAlphabet (alias c) with
      | None => Err ErrCharacter
      | Some n => decode_loop rs (tick * 32 + n)
      end
  end.

Definition DecodeSnapshotTimestamp (s : list ascii) : result Error Z :=
  if negb (length s =? 6)%nat then Err ErrLength
  else match decode_loop (upper_runes s) 0 with
       | Err e => Err e
       | Ok tick => Ok ((snapshotEpoch + tick * 3) * Second)
       end.

Definition AutomatedSnapshotName (t : Z) : result Error (list ascii) :=
  match EncodeSnapshotTimestamp t with
  | Err e => Err e
  | Ok stamp => Ok (chars "fl-" ++ stamp)
  end.

(** [strings.HasPrefix]. *)
Fixpoint has_prefix (s p : list ascii) : bool :=
  match p, s with
  | [], _ => true
  | x :: p, y :: s => Ascii.eqb x y && has_prefix s p
  | _ :: _, [] => false
  end.

(** A rune outside ASCII is never in the alphabet: testing the bytes decides
    the same. *)
Definition IsAutomatedSnapshot (name : list ascii) : bool :=
  if negb (length name =? 9)%nat || negb (has_prefix name (chars "fl-")) then false
  else forallb (fun c => match index_rune snapshotAlphabet c with Some _ => true | None => false end)
         (drop 3 name).

(** ** [snapshot.go] *)

Definition PrefixUser : list ascii := chars "user".
Definition PrefixScheduled : list ascii := chars "flsnap".
Definition PrefixReplication : list ascii := chars "fsrepl".

Inductive SnapshotType := SnapshotTypeUser | SnapshotTypeScheduled | SnapshotTypeReplication.

Definition UserSnapshotName (now : Z) (label : list ascii) : list ascii :=
  PrefixUser ++ "-"%char :: chars (FormatCompact now) ++ "-"%char :: label.

Definition ClassifySnapshot (name : list ascii) : SnapshotType :=
  if IsAutomatedSnapshot name then SnapshotTypeScheduled
  else if has_prefix name (PrefixUser ++ ["-"%char]) then SnapshotTypeUser
  else if has_prefix name (PrefixScheduled ++ ["-"%char]) then SnapshotTypeScheduled
  else if has_prefix name (PrefixReplication ++ ["-"%char]) then SnapshotTypeReplication
  else SnapshotTypeUser.

Definition DatasetPath (pool stackName : list ascii) : list ascii :=
  pool ++ "/"%char :: stackName.
Definition VolumeDatasetPath (pool stackName service volume : list ascii) : list ascii :=
  pool ++ "/"%char :: stackName ++ "/"%char :: service ++ "/"%char :: volume.

(** ** The alphabet *)

Definition five_bits (n : Z) : Prop := 0 <= n < 32.

(** Facts about all thirty-two digits are decided by evaluation. *)
Lemma five_bits_ind (P : Z -> Prop) `{!forall n, Decision (P n)} :
  forallb (fun n => bool_decide (P n)) (seqZ 0 32) = true -> forall n, five_bits n -> P n.
Proof. intros Hall n Hn. apply (Forall_decide P _ Hall). apply elem_of_seqZ. unfold five_bits in Hn. lia. Qed.

Lemma index_alphabet_at n : five_bits n -> index_rune snapshotAlphabet (alphabet_at n) = Some n.
Proof. revert n. refine (five_bits_ind _ _). vm_compute. reflexivity. Qed.

Lemma alias_alphabet_at n : five_bits n -> alias (alphabet_at n) = alphabet_at n.
Proof. revert n. refine (five_bits_ind _ _). vm_compute. reflexivity. Qed.

Lemma upper_alphabet_at n :
  five_bits n -> (N_of_ascii (alphabet_at n) <? 128)%N = true /\ ascii_upper (alphabet_at n) = alphabet_at n.
Proof. revert n. refine (five_bits_ind _ _). vm_compute. reflexivity. Qed.

Lemma index_rune_nth l c n : index_rune l c = Some n -> 0 <= n < Z.of_nat (length l) /\ nth (Z.to_nat n) l "0"%char = c.
Proof.
  revert n. induction l as [|x l IH]; intros n; simpl; [done|].
  destruct (Ascii.eqb_spec x c) as [->|_].
  - intros [= <-]. simpl. split; [lia|done].
  - destruct (index_rune l c) as [k|] eqn:Hk; simpl; [|done]. intros [= <-].
    destruct (IH k eq_refl) as [Hr Hn]. split; [lia|].
    by replace (Z.to_nat (Z.succ k)) with (S (Z.to_nat k)) by lia.
Qed.

Lemma index_alphabet_inv c n : index_rune snapshotAlphabet c = Some n -> five_bits n /\ alphabet_at n = c.
Proof. intros [Hr Hn]%index_rune_nth. split; [|done]. exact Hr. Qed.

(** ** Positional notation *)

(** The value of a digit list, most significant first. *)
Fixpoint value (acc : Z) (ds : list Z) : Z :=
  match ds with [] => acc | d :: ds => value (acc * 32 + d) ds end.

(** The [n] base-32 digits of [tick]. *)
Fixpoint ticks (n : nat) (tick : Z) : list Z :=
  match n with O => [] | S n => ticks n (tick / 32) ++ [tick mod 32] end.

Lemma ticks_five_bits n tick : Forall five_bits (ticks n tick).
Proof.
  revert tick. induction n as [|n IH]; intros tick; simpl; [done|].
  apply Forall_app. split; [apply IH|]. constructor; [|done].
  apply Z.mod_pos_bound. lia.
Qed.

Lemma length_ticks n tick : length (ticks n tick) = n.
Proof. revert tick. induction n as [|n IH]; intros; simpl; [done|]. rewrite length_app, IH. simpl. lia. Qed.

Lemma encode_loop_ticks n tick out :
  0 <= tick -> encode_loop n tick out = (alphabet_at <$> ticks n tick) ++ out.
Proof.
  revert tick out. induction n as [|n IH]; intros tick out Ht; simpl; [done|].
  rewrite Z.shiftr_div_pow2 by lia. change (2 ^ 5) with 32.
  rewrite IH by (apply Z.div_pos; lia).
  rewrite fmap_app, <- app_assoc. simpl. do 3 f_equal.
  change 31 with (Z.ones 5). by rewrite Z.land_ones by lia.
Qed.

Lemma value_snoc acc ds d : value acc (ds ++ [d]) = value acc ds * 32 + d.
Proof. revert acc. induction ds as [|x ds IH]; intros; simpl; [done|]. apply IH. Qed.

Lemma value_ticks n tick : 0 <= tick < 32 ^ Z.of_nat n -> value 0 (ticks n tick) = tick.
Proof.
  revert tick. induction n as [|n IH]; intros tick Ht; simpl; [simpl in Ht; lia|].
  rewrite value_snoc, IH.
  - pose proof (Z.div_mod tick 32 ltac:(lia)). lia.
  - rewrite Nat2Z.inj_succ, Z.pow_succ_r in Ht by lia. split; [apply Z.div_pos; lia|].
    apply Z.div_lt_upper_bound; lia.
Qed.

Lemma ticks_value ds : Forall five_bits ds -> ticks (length ds) (value 0 ds) = ds.
Proof.
  induction ds as [|d ds IH] using rev_ind; intros Hf; [done|].
  apply Forall_app in Hf as [Hf Hd]. apply Forall_cons in Hd as [Hd _].
  rewrite length_app, Nat.add_comm, value_snoc. simpl. unfold five_bits in Hd.
  rewrite Z.div_add_l, Z.div_small, Z.add_0_r, IH by (done || lia).
  rewrite Z.add_comm, Z.mod_add, Z.mod_small by lia. done.
Qed.

Lemma value_bounds ds acc :
  Forall five_bits ds -> 0 <= acc ->
  acc * 32 ^ Z.of_nat (length ds) <= value acc ds < (acc + 1) * 32 ^ Z.of_nat (length ds).
Proof.
  intros Hf. revert acc. induction Hf as [|d ds Hd _ IH]; intros acc Ha; simpl length; simpl value; [simpl; lia|].
  unfold five_bits in Hd. rewrite Nat2Z.inj_succ, Z.pow_succ_r by lia.
  specialize (IH (acc * 32 + d) ltac:(lia)). nia.
Qed.

(** ** Encoding and decoding *)

Definition in_range (t : Z) : Prop :=
  snapshotEpoch * Second <= t < (snapshotEpoch + snapshotTicks * 3) * Second.

Definition tick_of (t : Z) : Z := (Unix t - snapshotEpoch) / 3.

Lemma tick_of_bounds t : in_range t -> 0 <= tick_of t < 32 ^ 6.
Proof. unfold in_range, tick_of, Unix, Second, Millisecond, Microsecond, snapshotTicks. intros H. div_lia. Qed.

Lemma Encode_ticks t :
  EncodeSnapshotTimestamp t =
    if decide (in_range t) then Ok (alphabet_at <$> ticks 6 (tick_of t)) else Err ErrRange.
Proof.
  unfold EncodeSnapshotTimestamp. case_decide as Hr.
  - pose proof (tick_of_bounds t Hr) as Hb. unfold in_range in Hr.
    destruct (Z.ltb_spec t (snapshotEpoch * Second)); [lia|].
    destruct (Z.ltb_spec t ((snapshotEpoch + snapshotTicks * 3) * Second)); [|lia].
    cbn [orb negb]. unfold tick_of in *. rewrite Z.quot_div_nonneg; [|div_lia|lia].
    rewrite encode_loop_ticks by lia. by rewrite app_nil_r.
  - destruct (Z.ltb_spec t (snapshotEpoch * Second)); [done|].
    destruct (Z.ltb_spec t ((snapshotEpoch + snapshotTicks * 3) * Second)); [|done].
    exfalso. apply Hr. unfold in_range. lia.
Qed.

Lemma upper_runes_digits ds : Forall five_bits ds ->
  upper_runes (alphabet_at <$> ds) = (Some ∘ alphabet_at) <$> ds.
Proof.
  induction 1 as [|d ds Hd _ IH]; [done|].
  destruct (upper_alphabet_at d Hd) as [Hl Hu]. csimpl. by rewrite Hl, Hu, IH.
Qed.

Lemma decode_loop_digits ds acc : Forall five_bits ds ->
  decode_loop ((Some ∘ alphabet_at) <$> ds) acc = Ok (value acc ds).
Proof.
  intros Hf. revert acc. induction Hf as [|d ds Hd _ IH]; intros acc; [done|].
  cbn [fmap list_fmap decode_loop compose value].
  by rewrite alias_alphabet_at, index_alphabet_at by done.
Qed.

Lemma Decode_digits ds : length ds = 6%nat -> Forall five_bits ds ->
  DecodeSnapshotTimestamp (alphabet_at <$> ds) = Ok ((snapshotEpoch + value 0 ds * 3) * Second).
Proof.
  intros Hl Hf. unfold DecodeSnapshotTimestamp.
  rewrite upper_runes_digits, decode_loop_digits, length_fmap, Hl by done. done.
Qed.

(** The instants a stamp stands for are exactly the range of the format. *)
Lemma digits_in_range ds : length ds = 6%nat -> Forall five_bits ds ->
  in_range ((snapshotEpoch + value 0 ds * 3) * Second) /\
  tick_of ((snapshotEpoch + value 0 ds * 3) * Second) = value 0 ds.
Proof.
  intros Hl Hf. pose proof (value_bounds ds 0 Hf ltac:(lia)) as Hb. rewrite Hl in Hb.
  unfold in_range, tick_of, Unix. rewrite Z.div_mul by done.
  unfold Second, Millisecond, Microsecond, snapshotTicks in *. simpl in Hb. split; [lia|].
  replace (snapshotEpoch + value 0 ds * 3 - snapshotEpoch) with (value 0 ds * 3) by lia.
  by apply Z.div_mul.
Qed.

Lemma all_in_alphabet s :
  forallb (fun c => match index_rune snapshotAlphabet c with Some _ => true | None => false end) s = true ->
  exists ds, Forall five_bits ds /\ s = alphabet_at <$> ds.
Proof.
  induction s as [|c s IH]; intros H; [by exists []; split|].
  cbn [forallb] in H. apply andb_true_iff in H as [Hc Hs].
  destruct (index_rune snapshotAlphabet c) as [n|] eqn:Hi; [|done].
  destruct (IH Hs) as (ds & Hf & ->). apply index_alphabet_inv in Hi as [Hn <-].
  exists (n :: ds). split; [by constructor|reflexivity].
Qed.

(** The alphabet is in ascending byte order. *)
Lemma alphabet_order_all m : five_bits m ->
  Forall (fun n =>
    (N_of_ascii (alphabet_at m) <? N_of_ascii (alphabet_at n))%N = (m <? n) /\
    (N_of_ascii (alphabet_at m) =? N_of_ascii (alphabet_at n))%N = (m =? n)) (seqZ 0 32).
Proof. revert m. refine (five_bits_ind _ _). vm_compute. reflexivity. Qed.

Lemma alphabet_order m n : five_bits m -> five_bits n ->
  (N_of_ascii (alphabet_at m) <? N_of_ascii (alphabet_at n))%N = (m <? n) /\
  (N_of_ascii (alphabet_at m) =? N_of_ascii (alphabet_at n))%N = (m =? n).
Proof.
  intros Hm Hn. pose proof (alphabet_order_all m Hm) as Hall.
  rewrite Forall_forall in Hall. apply Hall, elem_of_seqZ. unfold five_bits in Hn. lia.
Qed.

Lemma bytes_ltb_digits ds1 ds2 a :
  length ds1 = length ds2 -> Forall five_bits ds1 -> Forall five_bits ds2 -> 0 <= a ->
  bytes_ltb (alphabet_at <$> ds1) (alphabet_at <$> ds2) = (value a ds1 <? value a ds2).
Proof.
  revert ds2 a. induction ds1 as [|x ds1 IH]; intros [|y ds2] a; [|done|done|].
  { intros _ _ _ _. simpl. by rewrite Z.ltb_irrefl. }
  intros [= Hl] [Hx Hf1]%Forall_cons [Hy Hf2]%Forall_cons Ha.
  destruct (alphabet_order x y Hx Hy) as [Hlt Heq].
  cbn [fmap list_fmap bytes_ltb value]. rewrite Hlt, Heq. unfold five_bits in *.
  pose proof (value_bounds ds1 (a * 32 + x) Hf1 ltac:(lia)) as B1.
  pose proof (value_bounds ds2 (a * 32 + y) Hf2 ltac:(lia)) as B2.
  rewrite <- Hl in B2. set (p := 32 ^ Z.of_nat (length ds1)) in *.
  assert (0 < p) by (apply Z.pow_pos_nonneg; lia).
  destruct (Z.ltb_spec x y); simpl.
  { symmetry. apply Z.ltb_lt. nia. }
  destruct (Z.eqb_spec x y) as [->|]; simpl.
  { change (list_fmap Z ascii alphabet_at) with (fmap (M:=list) alphabet_at). apply IH; [done..|lia]. }
  symmetry. apply Z.ltb_ge. nia.
Qed.

Lemma length_6_value ds : Forall five_bits ds -> length ds = 6%nat -> 0 <= value 0 ds < 32 ^ 6.
Proof. intros Hf Hl. pose proof (value_bounds ds 0 Hf ltac:(lia)) as H. rewrite Hl in H. simpl in *. lia. Qed.

Lemma Name_ticks t : in_range t ->
  AutomatedSnapshotName t = Ok (chars "fl-" ++ (alphabet_at <$> ticks 6 (tick_of t))).
Proof. intros Hr. unfold AutomatedSnapshotName. by rewrite Encode_ticks, decide_True by done. Qed.

Lemma Name_inv t n : AutomatedSnapshotName t = Ok n ->
  in_range t /\ n = chars "fl-" ++ (alphabet_at <$> ticks 6 (tick_of t)).
Proof.
  destruct (decide (in_range t)) as [Hr|Hr].
  - rewrite Name_ticks by done. split; [done|congruence].
  - unfold AutomatedSnapshotName. by rewrite Encode_ticks, decide_False by done.
Qed.

Lemma has_prefix_app s p : has_prefix s p = true <-> exists r, s = p ++ r.
Proof.
  revert s. induction p as [|x p IH]; intros s; [split; [eauto|by destruct s]|].
  destruct s as [|y s]; simpl; [split; [done|by intros [r ?]]|].
  rewrite andb_true_iff, IH, Ascii.eqb_eq. split.
  - intros [-> [r ->]]. eauto.
  - intros [r [= -> ->]]. eauto.
Qed.

Lemma IsAutomated_digits ds : length ds = 6%nat -> Forall five_bits ds ->
  IsAutomatedSnapshot (chars "fl-" ++ (alphabet_at <$> ds)) = true.
Proof.
  intros Hl Hf. unfold IsAutomatedSnapshot.
  rewrite (proj2 (has_prefix_app _ _)) by eauto.
  rewrite length_app, length_fmap, Hl.
  change (drop 3 (chars "fl-" ++ (alphabet_at <$> ds))) with (alphabet_at <$> ds).
  cbn [length chars String.list_ascii_of_string plus Nat.eqb negb orb].
  rewrite forallb_forall. intros c (n & <- & Hn)%in_map_iff.
  rewrite index_alphabet_at; [done|].
  rewrite Forall_forall in Hf. by apply Hf, list_elem_of_In.
Qed.

(** * Properties *)

(** C36. The stamp is a faithful clock: encoding fails exactly outside the
    format's range, and otherwise decoding the six characters gives back the
    start of the three-second interval the instant lies in. *)
Theorem Encode_Decode (t : Z) :
  match EncodeSnapshotTimestamp t with
  | Ok s => in_range t /\ length s = 6%nat /\
      exists t', DecodeSnapshotTimestamp s = Ok t' /\ t' <= t < t' + 3 * Second /\
                 (t' - snapshotEpoch * Second) mod (3 * Second) = 0
  | Err e => e = ErrRange /\ ~ in_range t
  end.
Proof.
  rewrite Encode_ticks. case_decide as Hr; [|done].
  pose proof (tick_of_bounds t Hr) as Hb.
  split; [done|]. rewrite length_fmap, length_ticks. split; [done|].
  eexists. split; [apply Decode_digits; [apply length_ticks|apply ticks_five_bits]|].
  rewrite value_ticks by exact Hb. unfold tick_of, Unix. split.
  - unfold Second, Millisecond, Microsecond. div_lia.
  - replace ((snapshotEpoch + _ * 3) * Second - snapshotEpoch * Second)
      with ((t / Second - snapshotEpoch) / 3 * (3 * Second)) by ring.
    by apply Z.mod_mul.
Qed.

(** Canonical stamps are unique: six characters of the alphabet decode to
    an instant in range that encodes to the same six characters. *)
Theorem Decode_Encode (s : list ascii) :
  length s = 6%nat ->
  forallb (fun c => match index_rune snapshotAlphabet c with Some _ => true | None => false end) s = true ->
  exists t, DecodeSnapshotTimestamp s = Ok t /\ in_range t /\ EncodeSnapshotTimestamp t = Ok s.
Proof.
  intros Hl (ds & Hf & ->)%all_in_alphabet. rewrite length_fmap in Hl.
  destruct (digits_in_range ds Hl Hf) as [Hr Ht].
  eexists. split; [by apply Decode_digits|]. split; [done|].
  rewrite Encode_ticks, decide_True, Ht by done. by rewrite <- Hl, ticks_value.
Qed.

Lemma Decode_Encode_witness :
  exists t, DecodeSnapshotTimestamp (chars "0012ZK") = Ok t /\ in_range t /\
            EncodeSnapshotTimestamp t = Ok (chars "0012ZK").
Proof. apply (Decode_Encode (chars "0012ZK")); vm_compute; reflexivity. Defined.

(** Sorting automated snapshot names by bytes sorts them by time: the
    names compare as their three-second ticks do. *)
Theorem names_sort_by_time (t1 t2 : Z) (n1 n2 : list ascii) :
  AutomatedSnapshotName t1 = Ok n1 -> AutomatedSnapshotName t2 = Ok n2 ->
  bytes_ltb n1 n2 = (tick_of t1 <? tick_of t2) /\
  (t1 <= t2 -> bytes_ltb n2 n1 = false) /\
  (n1 = n2 <-> tick_of t1 = tick_of t2).
Proof.
  intros [H1 ->]%Name_inv [H2 ->]%Name_inv.
  pose proof (tick_of_bounds t1 H1). pose proof (tick_of_bounds t2 H2).
  assert (Hcmp : forall a b, 0 <= a < 32 ^ 6 -> 0 <= b < 32 ^ 6 ->
    bytes_ltb (chars "fl-" ++ (alphabet_at <$> ticks 6 a)) (chars "fl-" ++ (alphabet_at <$> ticks 6 b)) = (a <? b)).
  { intros a b Ha Hb. rewrite <- (value_ticks 6 a) at 2 by exact Ha. rewrite <- (value_ticks 6 b) at 2 by exact Hb.
    rewrite <- (bytes_ltb_digits _ _ 0) by (rewrite ?length_ticks; auto using ticks_five_bits with lia). reflexivity. }
  rewrite !Hcmp by done. split; [done|]. split.
  - intros Ht. apply Z.ltb_ge. unfold tick_of, Unix. unfold Second, Millisecond, Microsecond. div_lia.
  - split; [|by intros ->]. intros Heq.
    assert (Hn : forall a b, 0 <= a < 32 ^ 6 -> 0 <= b < 32 ^ 6 ->
      chars "fl-" ++ (alphabet_at <$> ticks 6 a) = chars "fl-" ++ (alphabet_at <$> ticks 6 b) -> ~ a < b).
    { intros a b Ha Hb He Hlt. pose proof (Hcmp a b Ha Hb) as Hc. rewrite He, (Hcmp b b Hb Hb) in Hc.
      rewrite Z.ltb_irrefl in Hc. symmetry in Hc. apply Z.ltb_ge in Hc. lia. }
    pose proof (Hn _ _ H H0 Heq). pose proof (Hn _ _ H0 H (eq_sym Heq)). lia.
Qed.

Lemma names_sort_by_time_witness :
  let t1 := (snapshotEpoch + 10) * Second in
  let t2 := (snapshotEpoch + 100000) * Second in
  bytes_ltb (chars "fl-000003") (chars "fl-0010HN") = (tick_of t1 <? tick_of t2).
Proof.
  intros t1 t2.
  exact (proj1 (names_sort_by_time t1 t2 (chars "fl-000003") (chars "fl-0010HN") eq_refl eq_refl)).
Defined.

(** [IsAutomatedSnapshot] recognises exactly the names the scheduler can
    generate, and those are classified as scheduled; a user snapshot name is
    never mistaken for one, whatever its label. *)
Theorem IsAutomated_exact (name label : list ascii) (now : Z) :
  (IsAutomatedSnapshot name = true <-> exists t, AutomatedSnapshotName t = Ok name) /\
  (IsAutomatedSnapshot name = true -> ClassifySnapshot name = SnapshotTypeScheduled) /\
  IsAutomatedSnapshot (UserSnapshotName now label) = false /\
  ClassifySnapshot (UserSnapshotName now label) = SnapshotTypeUser.
Proof.
  split; [|split; [|split]].
  - split.
    + unfold IsAutomatedSnapshot. destruct (Nat.eqb_spec (length name) 9) as [Hl|]; [|done].
      destruct (has_prefix name (chars "fl-")) eqn:Hp; [|done]. cbn [negb orb].
      apply has_prefix_app in Hp as [r ->].
      change (drop 3 (chars "fl-" ++ r)) with r. intros (ds & Hf & ->)%all_in_alphabet.
      rewrite length_app, length_fmap in Hl. change (length (chars "fl-")) with 3%nat in Hl.
      assert (Hd : length ds = 6%nat) by lia. destruct (digits_in_range ds Hd Hf) as [Hr Ht].
      eexists. rewrite Name_ticks by done. by rewrite Ht, <- Hd, ticks_value.
    + intros [t [_ ->]%Name_inv].
      apply IsAutomated_digits; [apply length_ticks|apply ticks_five_bits].
  - unfold ClassifySnapshot. by intros ->.
  - unfold IsAutomatedSnapshot. replace (has_prefix _ _) with false by reflexivity.
    by destruct (_ =? _)%nat.
  - unfold ClassifySnapshot. destruct (IsAutomatedSnapshot _) eqn:H; [|reflexivity].
    unfold IsAutomatedSnapshot in H. by destruct (_ =? _)%nat.
Qed.

Lemma IsAutomated_exact_witness : ClassifySnapshot (chars "fl-0012ZK") = SnapshotTypeScheduled.
Proof. exact (proj1 (proj2 (IsAutomated_exact (chars "fl-0012ZK") [] 0)) eq_refl). Defined.

(** The length test counts bytes before upper-casing: a two-byte long s makes
    a five-character string pass as a timestamp. *)
Lemma Decode_accepts_five_characters :
  DecodeSnapshotTimestamp (ascii_of_N 197 :: ascii_of_N 191 :: chars "0000")
  = DecodeSnapshotTimestamp (chars "0S0000").
Proof. vm_compute. reflexivity. Qed.
