(* ===== verification/Retention.v ===== *)
(** Snapshot schedules and retention: [src/pkg/store/policy.go].  Instants are
    UTC nanoseconds; the text of a creation time is read by a parser that is a
    parameter of the section that needs it. *)
From S2P Require Import Prelude GoTime Timestamp.
From Stdlib Require Import Ascii.

Open Scope Z_scope.

Definition MaxInt : Z := MaxInt64.

Record RetentionTier := mkTier { Interval : string; Retain : Z }.

Inductive Error :=
| ErrToken (token : string)
| ErrIntervalText (interval : string)
| ErrInterval (token : string)
| ErrAtoi
| ErrRetentionOverflow (token : string)
| ErrRetention
| ErrDurationOverflow
| ErrCalendarRange
| ErrCreation (dataset name : string).

(** ** Text: numbers, units and fields *)

Definition code (c : ascii) : Z := Z.of_N (N_of_ascii c).
Definition is_digit (c : ascii) : bool := (48 <=? code c) && (code c <=? 57).

Fixpoint take_digits (l : list ascii) : list ascii * list ascii :=
  match l with
  | c :: l' => if is_digit c then let '(ds, r) := take_digits l' in (c :: ds, r) else ([], l)
  | [] => ([], [])
  end.

(** [[1-9][0-9]*] at the front: the digits and what follows. *)
Definition match_number (l : list ascii) : option (list ascii * list ascii) :=
  match l with
  | c :: l' => if is_digit c && negb (Ascii.eqb c "0") then
                 let '(ds, r) := take_digits l' in Some (c :: ds, r)
               else None
  | [] => None
  end.

(** [(mo|m|h|d|w|y)] at the front, in the order of the alternation. *)
Definition units : list string := ["mo"; "m"; "h"; "d"; "w"; "y"]%string.

Definition strip_unit (l : list ascii) (u : string) : option (string * list ascii) :=
  if has_prefix l (chars u) then Some (u, drop (length (chars u)) l) else None.

Definition unit_matches (l : list ascii) : list (string * list ascii) := omap (strip_unit l) units.

(** [policyToken]: the three submatches. *)
Definition match_token (token : string) : option (list ascii * string * list ascii) :=
  let '(n, rest) := default ([], chars token) (match_number (chars token)) in
  head (omap (fun '(u, r) =>
    match r with
    | c :: r =>
        if Ascii.eqb c "/" then
          match match_number r with Some (ds, []) => Some (n, u, ds) | _ => None end
        else None
    | [] => None
    end) (unit_matches rest)).

(** [policyInterval]: the two submatches. *)
Definition match_interval (interval : string) : option (list ascii * string) :=
  match match_number (chars interval) with
  | None => None
  | Some (n, rest) =>
      head (omap (fun '(u, r) => match r with [] => Some (n, u) | _ => None end) (unit_matches rest))
  end.

Definition digits_value (ds : list ascii) : Z :=
  foldl (fun v c => v * 10 + (code c - 48)) 0 ds.

(** [strconv.Atoi] on a string of digits. *)
Definition Atoi (ds : list ascii) : option Z :=
  if digits_value ds <=? MaxInt then Some (digits_value ds) else None.

(** One white-space rune at the front of a UTF-8 string, as [unicode.IsSpace]
    decides: the rest after it. *)
Definition strip_space (l : list ascii) : option (list ascii) :=
  let c n := default 0 (code <$> l !! n) in
  if ((9 <=? c 0%nat) && (c 0%nat <=? 13)) || (c 0%nat =? 32) then Some (drop 1 l)
  else if (c 0%nat =? 194) && ((c 1%nat =? 133) || (c 1%nat =? 160)) then Some (drop 2 l)
  else if ((c 0%nat =? 225) && (c 1%nat =? 154) && (c 2%nat =? 128)) ||
          ((c 0%nat =? 226) && (c 1%nat =? 128) &&
             (((128 <=? c 2%nat) && (c 2%nat <=? 138)) || (c 2%nat =? 168) || (c 2%nat =? 169) || (c 2%nat =? 175))) ||
          ((c 0%nat =? 226) && (c 1%nat =? 129) && (c 2%nat =? 159)) ||
          ((c 0%nat =? 227) && (c 1%nat =? 128) && (c 2%nat =? 128)) then Some (drop 3 l)
  else None.

(** [strings.Fields]: maximal runs without white space.  Each round drops at
    least one byte, so the length of the text is enough fuel. *)
Fixpoint fields_loop (fuel : nat) (l word : list ascii) : list (list ascii) :=
  let emit := match word with [] => [] | _ => [rev word] end in
  match fuel with
  | O => emit
  | S fuel =>
      match l with
      | [] => emit
      | c :: l' =>
          match strip_space l with
          | Some r => emit ++ fields_loop fuel r []
          | None => fields_loop fuel l' (c :: word)
          end
      end
  end.
Definition Fields (s : string) : list string :=
  String.string_of_list_ascii <$> fields_loop (S (length (chars s))) (chars s) [].

(** ** Buckets and schedules *)

Definition intervalParts (interval : string) : result Error (Z * string) :=
  match match_interval interval with
  | None => Err (ErrIntervalText interval)
  | Some (n, u) => match Atoi n with None => Err ErrAtoi | Some count => Ok (count, u) end
  end.

(** Go's [/] and [%] truncate towards zero. *)
Definition floorDiv (n d : Z) : Z :=
  let q := Z.quot n d in
  if Z.rem n d <? 0 then q - 1 else q.

Definition intervalBucket (t count : Z) (unit : string) : Z :=
  if decide (unit = "m"%string) then floorDiv (floorDiv (Unix t) 60) count
  else if decide (unit = "h"%string) then floorDiv (floorDiv (Unix t) 3600) count
  else if decide (unit = "d"%string) then floorDiv (floorDiv (Unix t) 86400) count
  else if decide (unit = "w"%string) then floorDiv (floorDiv (Unix t - 4 * 86400) (7 * 86400)) count
  else if decide (unit = "mo"%string) then floorDiv (Year t * 12 + Month t - 1) count
  else if decide (unit = "y"%string) then floorDiv (Year t) count
  else 0.

Definition SnapshotDue (now : Z) (interval : string) : bool :=
  match intervalParts interval with
  | Err _ => false
  | Ok (count, unit) =>
      let now := Truncate now Minute in
      negb (intervalBucket now count unit =? intervalBucket (now - Minute) count unit)
  end.

(** The [seconds] table: fixed-length units only. *)
Definition unit_seconds (unit : string) : option Z :=
  if decide (unit = "m"%string) then Some 60
  else if decide (unit = "h"%string) then Some 3600
  else if decide (unit = "d"%string) then Some 86400
  else if decide (unit = "w"%string) then Some (7 * 86400)
  else None.

Definition retentionCutoff (now : Z) (tier : RetentionTier) : result Error Z :=
  match intervalParts (Interval tier) with
  | Err e => Err e
  | Ok (count, unit) =>
      if (Retain tier <? 1) || (Z.quot MaxInt count <? Retain tier) then Err ErrRetention
      else
        let span := count * Retain tier in
        match unit_seconds unit with
        | Some scale =>
            if Z.quot (Z.quot MaxInt64 Second) scale <? span then Err ErrDurationOverflow
            else Ok (now + - (span * scale) * Second)
        | None =>
            let months := if decide (unit = "y"%string) then span * 12 else span in
            if bool_decide (unit = "y"%string) && (9999 <? span) then Err ErrCalendarRange
            else if 9999 * 12 <? months then Err ErrCalendarRange
            else
              let monthStart := AddDate (Date (Year now) (Month now) 1 (clock_ns now)) 0 (- months) 0 in
              let last := Day (AddDate (AddDate monthStart 0 1 0) 0 0 (-1)) in
              let day := if last <? Day now then last else Day now in
              Ok (AddDate monthStart 0 0 (day - 1))
        end
  end.

(** ** Policies *)

Definition parse_token (now : Z) (token : string) (seen : gset string) :
    result Error (RetentionTier * string) :=
  match match_token token with
  | None => Err (ErrToken token)
  | Some (n, unit, r) =>
      if decide (unit ∈ seen) then Err (ErrToken token)
      else
        let countText := match n with [] => ["1"%char] | _ => n end in
        match Atoi countText with
        | None => Err (ErrInterval token)
        | Some count =>
            match Atoi r with
            | None => Err (ErrRetentionOverflow token)
            | Some retain =>
                if Z.quot MaxInt count <? retain then Err (ErrRetentionOverflow token)
                else
                  let tier := mkTier (String.string_of_list_ascii (countText ++ chars unit)) retain in
                  match retentionCutoff now tier with
                  | Err e => Err e
                  | Ok _ => Ok (tier, unit)
                  end
            end
        end
  end.

Fixpoint parse_tokens (now : Z) (tokens : list string) (seen : gset string)
    (tiers : list RetentionTier) : result Error (list RetentionTier) :=
  match tokens with
  | [] => Ok tiers
  | token :: tokens =>
      match parse_token now token seen with
      | Err e => Err e
      | Ok (tier, unit) => parse_tokens now tokens ({[unit]} ∪ seen) (tiers ++ [tier])
      end
  end.

(** [now] is [time.Now().UTC()], read while a tier is checked. *)
Definition ParseSnapshotPolicy (now : Z) (policy : string) : result Error (list RetentionTier) :=
  parse_tokens now (Fields policy) ∅ [].

(** ** Selecting the snapshots to keep *)

(** The fields of [SnapshotInfo] that retention reads. *)
Record SnapshotInfo := mkSnap { Name : string; Dataset : string; CreatedAt : string }.

Record point := mkPoint { snapshot : SnapshotInfo; created : Z }.

Definition key (p : point) : string := Dataset (snapshot p) +:+ "@" +:+ Name (snapshot p).

(** The comparison given to [sort.Slice]. *)
Definition less (a b : point) : bool :=
  if created a =? created b then bytes_ltb (chars (Name (snapshot a))) (chars (Name (snapshot b)))
  else created a <? created b.
Definition point_le (a b : point) : Prop := less b a = false.
#[export] Instance point_le_dec : RelDecision point_le.
Proof. intros a b. unfold point_le. apply _. Defined.

(** The loop over the sorted points that records the last one of each dataset
    and keeps every point dated in the future. *)
Fixpoint latest_loop (now : Z) (points : list point) (latest : gmap string point)
    (keep : gset string) : gmap string point * gset string :=
  match points with
  | [] => (latest, keep)
  | p :: points =>
      latest_loop now points (<[Dataset (snapshot p) := p]> latest)
        (if now <? created p then {[key p]} ∪ keep else keep)
  end.

(** One tier: the first point of each bucket of each dataset in the window. *)
Fixpoint tier_loop (now cutoff count : Z) (unit : string) (points : list point)
    (seen : gmap string (gset Z)) (keep : gset string) : gset string :=
  match points with
  | [] => keep
  | p :: points =>
      if negb (cutoff <? created p) || (now <? created p) then
        tier_loop now cutoff count unit points seen keep
      else
        let buckets := default ∅ (seen !! Dataset (snapshot p)) in
        let bucket := intervalBucket (created p) count unit in
        if decide (bucket ∈ buckets) then
          tier_loop now cutoff count unit points (<[Dataset (snapshot p) := buckets]> seen) keep
        else
          tier_loop now cutoff count unit points
            (<[Dataset (snapshot p) := {[bucket]} ∪ buckets]> seen) ({[key p]} ∪ keep)
  end.

(** [count, unit, _ := intervalParts(tier.Interval)] after the cutoff. *)
Fixpoint tiers_loop (now : Z) (points : list point) (tiers : list RetentionTier)
    (keep : gset string) : result Error (gset string) :=
  match tiers with
  | [] => Ok keep
  | tier :: tiers =>
      match retentionCutoff now tier with
      | Err e => Err e
      | Ok cutoff =>
          let '(count, unit) := match intervalParts (Interval tier) with Ok cu => cu | Err _ => (0, ""%string) end in
          tiers_loop now points tiers (tier_loop now cutoff count unit points ∅ keep)
      end
  end.

Section Retained.
(** [time.Parse(time.RFC3339Nano, s)]. *)
Variable Parse : string -> option Z.

Fixpoint gather (snaps : list SnapshotInfo) : result Error (list point) :=
  match snaps with
  | [] => Ok []
  | snap :: snaps =>
      if IsAutomatedSnapshot (chars (Name snap)) then
        match Parse (CreatedAt snap) with
        | None => Err (ErrCreation (Dataset snap) (Name snap))
        | Some c =>
            match gather snaps with
            | Err e => Err e
            | Ok ps => Ok (mkPoint snap c :: ps)
            end
        end
      else gather snaps
  end.

Definition RetainedSnapshots (snaps : list SnapshotInfo) (tiers : list RetentionTier) (now : Z) :
    result Error (gset string) :=
  match gather snaps with
  | Err e => Err e
  | Ok ps =>
      let points := merge_sort point_le ps in
      let '(latest, keep) := latest_loop now points ∅ ∅ in
      let keep := list_to_set (key <$> (map_to_list latest).*2) ∪ keep in
      tiers_loop now points tiers keep
  end.
End Retained.

(** ** Arithmetic of buckets *)

(** [floorDiv] is floor division. *)
Lemma floorDiv_div n d : 0 < d -> floorDiv n d = n / d.
Proof.
  intros Hd. unfold floorDiv. pose proof (Z.quot_rem n d ltac:(lia)) as Hq.
  destruct (Z.ltb_spec (Z.rem n d) 0).
  - apply Z.div_unique with (Z.rem n d + d); [|lia].
    left. pose proof (Z.rem_bound_abs n d ltac:(lia)). lia.
  - apply Z.div_unique with (Z.rem n d); [|lia].
    left. pose proof (Z.rem_bound_abs n d ltac:(lia)). lia.
Qed.

Definition unit_offset (unit : string) : Z :=
  if decide (unit = "w"%string) then 4 * 86400 else 0.

(** Fixed-length units: the bucket is the index of the period of
    [count * scale] seconds, weeks starting on Monday. *)
Lemma intervalBucket_fixed t count unit scale :
  0 < count -> unit_seconds unit = Some scale ->
  intervalBucket t count unit = (Unix t - unit_offset unit) / (scale * count) /\ 0 < scale.
Proof.
  intros Hc Hs. unfold unit_seconds in Hs. unfold intervalBucket, unit_offset.
  repeat (case_decide; [subst; simplify_eq; rewrite ?decide_False by done;
    split; [rewrite !floorDiv_div, Z.div_div by lia; f_equal; lia|lia]|]).
  done.
Qed.

Lemma digits_value_app acc ds : 0 <= acc -> Forall (fun c => is_digit c = true) ds ->
  acc <= foldl (fun v c => v * 10 + (code c - 48)) acc ds.
Proof.
  intros Ha Hf. revert acc Ha. induction Hf as [|c ds Hc _ IH]; intros acc Ha; simpl; [lia|].
  unfold is_digit in Hc. to_prop. etransitivity; [|apply IH]; lia.
Qed.

Lemma take_digits_digits l : Forall (fun c => is_digit c = true) (take_digits l).1.
Proof.
  induction l as [|c l IH]; simpl; [done|].
  destruct (is_digit c) eqn:Hc; [|done]. destruct (take_digits l); simpl in *. by constructor.
Qed.

(** A matched number is positive. *)
Lemma match_number_pos l ds r : match_number l = Some (ds, r) -> 1 <= digits_value ds.
Proof.
  destruct l as [|c l]; simpl; [done|].
  destruct (is_digit c && negb (Ascii.eqb c "0")) eqn:Hc; [|done].
  pose proof (take_digits_digits l) as Hd. destruct (take_digits l) as [ds' r']. intros [= <- <-].
  apply andb_true_iff in Hc as [Hc H0]. unfold digits_value; cbn [foldl].
  assert (Hn : code c <> 48).
  { intros Heq. apply negb_true_iff, Ascii.eqb_neq in H0. apply H0.
    rewrite <- (ascii_N_embedding c). unfold code in Heq.
    replace (N_of_ascii c) with 48%N by lia. reflexivity. }
  unfold is_digit in Hc. to_prop. etransitivity; [|apply digits_value_app; [lia|done]]. lia.
Qed.

Lemma head_omap_inv {A B} (f : A -> option B) l b :
  head (omap f l) = Some b -> exists a, a ∈ l /\ f a = Some b.
Proof.
  induction l as [|a l IH]; simpl; [done|]. destruct (f a) eqn:Hf; simpl.
  - intros [= ->]. exists a. split; [apply elem_of_cons; by left|done].
  - intros (x & Hx & Hfx)%IH. exists x. split; [apply elem_of_cons; by right|done].
Qed.

Lemma unit_matches_units l u r : (u, r) ∈ unit_matches l -> u ∈ units.
Proof.
  unfold unit_matches. intros (u' & Hu & Hs)%list_elem_of_omap.
  unfold strip_unit in Hs. destruct (has_prefix _ _); naive_solver.
Qed.

Lemma intervalParts_inv interval count unit :
  intervalParts interval = Ok (count, unit) -> 1 <= count <= MaxInt /\ unit ∈ units.
Proof.
  unfold intervalParts, match_interval.
  destruct (match_number _) as [[n rest]|] eqn:Hn; [|done].
  destruct (head _) as [[n' u]|] eqn:Hh; [|done].
  apply head_omap_inv in Hh as ([u' r] & Hin & Hr). destruct r; [|done]. simplify_eq.
  unfold Atoi. destruct (Z.leb_spec (digits_value n') MaxInt); [|done].
  intros [= <- <-]. apply match_number_pos in Hn. split; [lia|].
  by apply unit_matches_units in Hin.
Qed.

(** ** The order of points *)

Lemma point_le_iff a b :
  point_le a b <-> created a < created b \/
    (created a = created b /\ bytes_ltb (chars (Name (snapshot b))) (chars (Name (snapshot a))) = false).
Proof.
  unfold point_le, less. destruct (Z.eqb_spec (created b) (created a)) as [H|H].
  - split; [by right|]. intros [?|[_ ?]]; [lia|done].
  - rewrite Z.ltb_ge. split; [left; lia|]. intros [?|[? _]]; lia.
Qed.

#[export] Instance point_le_refl : Reflexive point_le.
Proof.
  intros a. apply point_le_iff. right. split; [done|].
  destruct (bytes_ltb _ _) eqn:H; [|done]. pose proof (bytes_ltb_asym _ _ H). congruence.
Qed.
#[export] Instance point_le_trans : Transitive point_le.
Proof.
  intros a b c. rewrite !point_le_iff. intros [?|[? H1]] [?|[? H2]]; [left; lia..|].
  right. split; [lia|]. by apply (bytes_le_trans _ (chars (Name (snapshot b)))).
Qed.
#[export] Instance point_le_total : Total point_le.
Proof.
  intros a b. rewrite !point_le_iff.
  destruct (Z.lt_trichotomy (created a) (created b)) as [?|[?|?]]; [by left; left| |by right; left].
  destruct (bytes_ltb (chars (Name (snapshot b))) (chars (Name (snapshot a)))) eqn:Hb; [|left; right; done].
  right; right. split; [done|]. by apply bytes_ltb_asym.
Qed.

(** Points that are ordered both ways carry the same name. *)
Lemma point_le_antisym_key a b :
  point_le a b -> point_le b a -> Dataset (snapshot a) = Dataset (snapshot b) -> key a = key b.
Proof.
  rewrite !point_le_iff. intros [Hab|[Hab H1]] [Hba|[Hba H2]] Hd; try lia.
  unfold key. rewrite Hd. do 2 f_equal. by apply chars_inj, bytes_le_antisym.
Qed.

(** ** The loops *)

Lemma latest_loop_keep now pts latest keep k :
  k ∈ (latest_loop now pts latest keep).2 <->
  k ∈ keep \/ exists p, p ∈ pts /\ key p = k /\ now < created p.
Proof.
  revert latest keep. induction pts as [|p pts IH]; intros latest keep; simpl.
  - split; [by left|]. intros [?|(p & Hp & _)]; [done|by apply elem_of_nil in Hp].
  - rewrite IH. setoid_rewrite elem_of_cons. destruct (Z.ltb_spec now (created p)).
    + rewrite elem_of_union, elem_of_singleton. split.
      * intros [[->|Hk]|(q & Hq & Hk & Hn)]; [right; exists p; auto|by left|right; exists q; auto].
      * intros [Hk|(q & [->|Hq] & <- & Hn)]; [auto..|right; exists q; auto].
    + split.
      * intros [Hk|(q & Hq & Hk & Hn)]; [by left|right; exists q; auto].
      * intros [Hk|(q & [->|Hq] & Hk & Hn)]; [by left|lia|right; exists q; auto].
Qed.

Lemma latest_loop_lookup now pts latest keep d :
  (latest_loop now pts latest keep).1 !! d =
    match last (filter (fun p => Dataset (snapshot p) = d) pts) with
    | Some p => Some p
    | None => latest !! d
    end.
Proof.
  revert latest keep. induction pts as [|p pts IH]; intros latest keep; [done|].
  cbn [latest_loop]. rewrite IH, filter_cons. case_decide as Hd.
  - rewrite last_cons. destruct (last _); [done|]. subst d. by rewrite lookup_insert_eq.
  - destruct (last _); [done|]. by rewrite lookup_insert_ne.
Qed.

(** The points of dataset [d] in bucket [b] of a tier's window. *)
Definition in_class (now cutoff count : Z) (unit d : string) (b : Z) (p : point) : Prop :=
  Dataset (snapshot p) = d /\ cutoff < created p /\ created p <= now /\
  intervalBucket (created p) count unit = b.
#[export] Instance in_class_dec now cutoff count unit d b p : Decision (in_class now cutoff count unit d b p).
Proof. unfold in_class. apply _. Defined.

Lemma filter_class_cons now cutoff count unit d b x pts :
  filter (in_class now cutoff count unit d b) (x :: pts) =
    if decide (in_class now cutoff count unit d b x)
    then x :: filter (in_class now cutoff count unit d b) pts
    else filter (in_class now cutoff count unit d b) pts.
Proof. apply filter_cons. Qed.

Lemma seen_insert (seen : gmap string (gset Z)) x d (s : gset Z) :
  default ∅ (<[x := s]> seen !! d) = if decide (x = d) then s else default ∅ (seen !! d).
Proof.
  case_decide; [subst; by rewrite lookup_insert_eq|by rewrite lookup_insert_ne].
Qed.

Lemma tier_loop_spec now cutoff count unit pts seen keep k :
  k ∈ tier_loop now cutoff count unit pts seen keep <->
  k ∈ keep \/ (exists d b p, (b ∉ default ∅ (seen !! d)) /\
    head (filter (in_class now cutoff count unit d b) pts) = Some p /\ key p = k).
Proof.
  revert seen keep. induction pts as [|x pts IH]; intros seen keep.
  { simpl. split; [by left|]. intros [?|(d & b & p & _ & [=] & _)]; done. }
  cbn [tier_loop]. setoid_rewrite filter_class_cons.
  destruct (Z.ltb_spec cutoff (created x)) as [Hc|Hc], (Z.ltb_spec now (created x)) as [Hn|Hn]; cbn [negb orb].
  1,3,4: rewrite IH; do 6 (apply or_iff_compat_l || f_equiv || intros ?);
    (rewrite decide_False by (unfold in_class; intuition lia)); done.
  set (bx := intervalBucket (created x) count unit). set (dx := Dataset (snapshot x)).
  assert (Hx : forall d b, in_class now cutoff count unit d b x <-> d = dx /\ b = bx).
  { intros d b. unfold in_class. fold bx dx. intuition (subst; lia || done). }
  case_decide as Hseen; rewrite IH; setoid_rewrite seen_insert.
  - f_equiv. apply exist_proper; intros d. apply exist_proper; intros b. apply exist_proper; intros p.
    destruct (decide (in_class _ _ _ _ d b x)) as [Hin|Hin].
    + apply Hx in Hin as [-> ->]. rewrite decide_True by done. tauto.
    + case_decide; [subst d|]; tauto.
  - rewrite elem_of_union, elem_of_singleton. split.
    + intros [[->|Hk]|(d & b & p & Hb & Hh & Hk)]; [|by left|].
      * right. exists dx, bx, x. rewrite decide_True by (by apply Hx). done.
      * right. exists d, b, p. rewrite decide_False; [split; [|done]|].
        -- case_decide; [subst d; set_solver|done].
        -- rewrite Hx. intros [-> ->]. rewrite decide_True in Hb by done. set_solver.
    + intros [Hk|(d & b & p & Hb & Hh & Hk)]; [by left; right|].
      destruct (decide (in_class _ _ _ _ d b x)) as [Hin|Hin].
      * left; left. simpl in Hh. congruence.
      * right. exists d, b, p. split; [|done]. rewrite Hx in Hin.
        case_decide; [|done]. subst d. set_solver.
Qed.

(** ** What is kept, declaratively *)

(** The earliest point of its bucket within a tier's window. *)
Definition tier_keeps (now : Z) (points : list point) (tier : RetentionTier) (p : point) : Prop :=
  exists cutoff count unit,
    retentionCutoff now tier = Ok cutoff /\ intervalParts (Interval tier) = Ok (count, unit) /\
    cutoff < created p <= now /\
    forall q, q ∈ points -> Dataset (snapshot q) = Dataset (snapshot p) ->
      cutoff < created q <= now ->
      intervalBucket (created q) count unit = intervalBucket (created p) count unit ->
      point_le p q.

Definition latest_of (points : list point) (p : point) : Prop :=
  forall q, q ∈ points -> Dataset (snapshot q) = Dataset (snapshot p) -> point_le q p.

Definition retained (now : Z) (points : list point) (tiers : list RetentionTier) (k : string) : Prop :=
  exists p, p ∈ points /\ key p = k /\
    (now < created p \/ latest_of points p \/
     exists tier, tier ∈ tiers /\ tier_keeps now points tier p).

Lemma cutoff_parts now tier cutoff :
  retentionCutoff now tier = Ok cutoff -> exists cu, intervalParts (Interval tier) = Ok cu.
Proof. unfold retentionCutoff. destruct (intervalParts _); [eauto|done]. Qed.

(** One tier's loop from an empty [seen] keeps what [tier_keeps] says. *)
Lemma tier_loop_keeps now points tier cutoff count unit keep k :
  StronglySorted point_le points ->
  retentionCutoff now tier = Ok cutoff -> intervalParts (Interval tier) = Ok (count, unit) ->
  k ∈ tier_loop now cutoff count unit points ∅ keep <->
  k ∈ keep \/ (exists p, p ∈ points /\ key p = k /\ tier_keeps now points tier p).
Proof.
  intros Hs Hc Hp. rewrite tier_loop_spec. f_equiv. split.
  - intros (d & b & p & _ & Hh & Hk). exists p.
    pose proof (head_elem_of _ _ Hh) as [Hcl Hin]%list_elem_of_filter.
    split; [done|]. split; [done|]. exists cutoff, count, unit. destruct Hcl as (Hd & H1 & H2 & Hb).
    do 3 (split; [done|]). intros q Hq Hdq [Hq1 Hq2] Hbq.
    refine (StronglySorted_head point_le _ _ _ (StronglySorted_filter _ _ _ Hs) Hh _).
    apply list_elem_of_filter. unfold in_class. split; [|done]. repeat split; congruence || lia.
  - intros (p & Hp1 & Hk & cutoff' & count' & unit' & Hc' & Hp' & Hw & Hmin).
    rewrite Hc in Hc'. injection Hc' as <-. rewrite Hp in Hp'. injection Hp' as <- <-.
    set (F := filter (in_class now cutoff count unit (Dataset (snapshot p)) (intervalBucket (created p) count unit)) points).
    assert (HpF : p ∈ F).
    { apply list_elem_of_filter. unfold in_class. split; [|done]. repeat split; lia. }
    destruct (head F) as [p0|] eqn:Hh; [|destruct F; [by apply elem_of_nil in HpF|done]].
    exists (Dataset (snapshot p)), (intervalBucket (created p) count unit), p0.
    split; [rewrite lookup_empty; set_solver|]. split; [done|].
    pose proof (head_elem_of _ _ Hh) as [(Hd0 & Hw1 & Hw2 & Hb0) Hin0]%list_elem_of_filter.
    rewrite <- Hk. apply point_le_antisym_key; [|by apply Hmin|done].
    exact (StronglySorted_head point_le _ _ _ (StronglySorted_filter _ _ _ Hs) Hh HpF).
Qed.

Lemma tiers_loop_spec now points tiers keep :
  StronglySorted point_le points ->
  match tiers_loop now points tiers keep with
  | Ok keep' =>
      (forall tier, tier ∈ tiers -> is_ok (retentionCutoff now tier) = true) /\
      forall k, k ∈ keep' <-> k ∈ keep \/
        (exists p, p ∈ points /\ key p = k /\ exists tier, tier ∈ tiers /\ tier_keeps now points tier p)
  | Err e => exists tier, tier ∈ tiers /\ retentionCutoff now tier = Err e
  end.
Proof.
  intros Hs. revert keep. induction tiers as [|tier tiers IH]; intros keep; simpl.
  { split; [by intros ? ?%elem_of_nil|]. intros k. split; [by left|].
    intros [?|(p & _ & _ & t & Ht & _)]; [done|by apply elem_of_nil in Ht]. }
  destruct (retentionCutoff now tier) as [cutoff|e] eqn:Hc.
  2: { exists tier. split; [apply elem_of_cons; by left|done]. }
  destruct (cutoff_parts _ _ _ Hc) as [[count unit] Hp]. rewrite Hp.
  specialize (IH (tier_loop now cutoff count unit points ∅ keep)).
  destruct (tiers_loop _ _ _ _) as [keep'|e].
  - destruct IH as [Hok Hk]. split.
    { intros t [->|Ht]%elem_of_cons; [by rewrite Hc|by apply Hok]. }
    intros k. rewrite Hk, tier_loop_keeps by done. setoid_rewrite elem_of_cons. split.
    + intros [[?|(p & ? & ? & ?)]|(p & ? & ? & t & ? & ?)]; [by left|right; eauto 8..].
    + intros [?|(p & ? & ? & t & [->|?] & ?)]; [by left; left|left; right; eauto|right; eauto 8].
  - destruct IH as (t & Ht & He). exists t. split; [apply elem_of_cons; by right|done].
Qed.

(** ** Windows, schedules and calendar cutoffs *)

(** Fixed-length tiers: the cutoff is the stated span before [now]. *)
Lemma retentionCutoff_fixed now tier count unit scale cutoff :
  intervalParts (Interval tier) = Ok (count, unit) -> unit_seconds unit = Some scale ->
  retentionCutoff now tier = Ok cutoff ->
  1 <= Retain tier /\ cutoff = now - scale * count * Retain tier * Second /\
  scale * count * Retain tier * Second <= MaxInt64.
Proof.
  unfold retentionCutoff. intros Hp Hs. rewrite Hp, Hs.
  apply intervalParts_inv in Hp as [Hc _].
  destruct (intervalBucket_fixed 0 count unit scale ltac:(lia) Hs) as [_ Hscale].
  destruct (Z.ltb_spec (Retain tier) 1); [done|]. cbn [orb].
  destruct (Z.ltb_spec (Z.quot MaxInt count) (Retain tier)); [done|].
  destruct (Z.ltb_spec (Z.quot (Z.quot MaxInt64 Second) scale) (count * Retain tier)) as [|Hspan]; [done|].
  intros [= <-]. split; [done|]. split; [ring|].
  assert (HM : 0 <= MaxInt64) by (vm_compute; congruence).
  assert (HS : 0 < Second) by done.
  rewrite Z.quot_quot, Z.quot_div_nonneg in Hspan by nia.
  pose proof (Z.mul_div_le MaxInt64 (Second * scale) ltac:(nia)). nia.
Qed.

(** The Unix second of an instant [n] whole seconds earlier. *)
Lemma Unix_sub t n : Unix (t - n * Second) = Unix t - n.
Proof.
  unfold Unix. replace (t - n * Second) with (t + (- n) * Second) by lia.
  rewrite Z.div_add by done. lia.
Qed.

Lemma Unix_mono a b : a <= b -> Unix a <= Unix b.
Proof. intros. by apply Z.div_le_mono. Qed.

Lemma Truncate_Minute t : Truncate t Minute = t / Minute * Minute.
Proof.
  unfold Truncate. change (Minute <=? 0) with false. cbv iota.
  replace zero_offset with (1035593280 * Minute) by reflexivity.
  rewrite Z.mod_add by done. pose proof (Z.div_mod t Minute ltac:(done)). lia.
Qed.

Lemma Unix_minutes k : Unix (k * Minute) = k * 60.
Proof. unfold Unix, Minute. rewrite Z.mul_assoc. by apply Z.div_mul. Qed.

(** Two successive integers fall in different periods exactly at a boundary. *)
Lemma period_boundary x p : 0 < p -> (x / p =? (x - 1) / p) = negb (x mod p =? 0).
Proof.
  intros Hp. pose proof (Z.div_mod x p ltac:(lia)) as Hx.
  pose proof (Z.mod_pos_bound x p Hp) as Hb.
  destruct (Z.eqb_spec (x mod p) 0) as [H0|H0]; simpl.
  - apply Z.eqb_neq. enough ((x - 1) / p = x / p - 1) by lia.
    symmetry. apply Z.div_unique with (p - 1); lia.
  - apply Z.eqb_eq. symmetry. symmetry. apply Z.div_unique with (x mod p - 1); lia.
Qed.

(** Minute [k] of the epoch in units of a whole number of minutes. *)
Lemma minute_bucket k off q : 0 < q -> (k * 60 - off * 60) / (60 * q) = (k - off) / q.
Proof. intros Hq. replace (k * 60 - off * 60) with (60 * (k - off)) by ring. apply Z.div_mul_cancel_l; lia. Qed.

Definition unit_minutes (unit : string) : option Z := (fun s => s / 60) <$> unit_seconds unit.

(** An instant given by a valid date has that date's month index. *)
Lemma month_index_Date y m d ns :
  1 <= m <= 12 -> 1 <= d <= days_in_month (leap y) m -> 0 <= ns < day_ns ->
  month_index (Date y m d ns) = y * 12 + m - 1.
Proof.
  intros Hm Hd Hns. destruct (civil_roundtrip y m d ns Hm Hd Hns) as (Hy & Hmo & _).
  unfold month_index. by rewrite Hy, Hmo.
Qed.

Lemma minute_lt_day : 0 < Minute < day_ns.
Proof. done. Qed.

(** The day before the first of a month is the last of the one before. *)
Lemma days_from_civil_prev y m :
  let k := y * 12 + m - 2 in
  let y' := k / 12 in let m' := k mod 12 + 1 in
  days_from_civil y m 1 - 1 = days_from_civil y' m' (days_in_month (leap y') m').
Proof.
  intros k y' m'. assert (Hm' : 1 <= m' <= 12) by (unfold m'; div_lia).
  transitivity (days_from_civil y' (m' + 1) 1 - 1).
  - rewrite (days_from_civil_index y' (m' + 1)), (days_from_civil_index y m).
    replace (y' * 12 + (m' + 1) - 1) with (y * 12 + m - 1); [done|].
    unfold y', m', k. div_lia.
  - rewrite days_from_civil_next by done. unfold days_from_civil.
    replace (leap (y' + (m' - 1) / 12)) with (leap y'); [lia|]. f_equal. div_lia.
Qed.

Lemma civil_days t : days_from_civil (Year t) (Month t) (Day t) * day_ns + clock_ns t = t.
Proof. rewrite <- Date_eq. apply civil_rebuild. Qed.

Lemma days_from_civil_day y m d n : days_from_civil y m (d - n) = days_from_civil y m d - n.
Proof. unfold days_from_civil. lia. Qed.

Lemma month_index_prev_month t : Day t = 1 -> clock_ns t < Minute ->
  month_index (t - Minute) = month_index t - 1.
Proof.
  intros H1 Hc. pose proof (clock_ns_bounds t) as Hb. pose proof minute_lt_day as Hm.
  pose proof (civil_days t) as Ht. pose proof (days_from_civil_prev (Year t) (Month t)) as Hp.
  cbv zeta in Hp. rewrite H1 in Ht.
  set (k := Year t * 12 + Month t - 2) in *.
  assert (Hk : month_index t = k + 1) by (unfold month_index, k; lia). rewrite Hk.
  generalize dependent (clock_ns t). intros c Hc Hb Ht.
  set (d := days_in_month (leap (k / 12)) (k mod 12 + 1)) in *.
  assert (Heq : t - Minute = Date (k / 12) (k mod 12 + 1) d (c + day_ns - Minute)).
  { unfold Date. rewrite <- Hp. lia. }
  rewrite Heq, month_index_Date; [pose proof (Z.div_mod k 12 ltac:(done)); lia|div_lia| |lia].
  pose proof (days_in_month_bounds (leap (k / 12)) (k mod 12 + 1)). lia.
Qed.

Lemma month_index_prev_day t : Day t <> 1 \/ Minute <= clock_ns t ->
  month_index (t - Minute) = month_index t.
Proof.
  intros Hd. pose proof (clock_ns_bounds t) as Hb. pose proof minute_lt_day as Hl.
  pose proof (civil_days t) as Ht. pose proof (Month_bounds t) as Hm. pose proof (Day_bounds t) as HD.
  unfold month_index at 2. generalize dependent (clock_ns t). intros c Hd Hb Ht.
  generalize dependent (Day t). intros d Hd Ht HD.
  destruct (Z.le_gt_cases Minute c) as [Hc|Hc].
  - assert (Heq : t - Minute = Date (Year t) (Month t) d (c - Minute)).
    { unfold Date. lia. }
    rewrite Heq, month_index_Date; [done|done|done|lia].
  - assert (Heq : t - Minute = Date (Year t) (Month t) (d - 1) (c + day_ns - Minute)).
    { unfold Date. rewrite days_from_civil_day. lia. }
    rewrite Heq, month_index_Date; [done|done|lia|lia].
Qed.

(** Calendar tiers: one month arithmetic for both units. *)
Lemma AddDate_month_start y m k ns : 0 <= ns < day_ns ->
  let i := y * 12 + m - 1 + k in
  AddDate (Date y m 1 ns) 0 k 0 = Date (i / 12) (i mod 12 + 1) 1 ns.
Proof.
  intros Hns i. unfold AddDate.
  set (i0 := y * 12 + m - 1).
  assert (H0 : Date y m 1 ns = Date (i0 / 12) (i0 mod 12 + 1) 1 ns).
  { rewrite !Date_eq. by rewrite days_from_civil_index. }
  assert (Hm0 : 1 <= i0 mod 12 + 1 <= 12) by div_lia.
  destruct (civil_roundtrip (i0 / 12) (i0 mod 12 + 1) 1 ns) as (Hy & Hm & Hd & Hc);
    [done|pose proof (days_in_month_bounds (leap (i0 / 12)) (i0 mod 12 + 1)); lia|done|].
  rewrite H0, Hy, Hm, Hd, Hc, !Z.add_0_r, !Date_eq. do 2 f_equal.
  rewrite days_from_civil_index. unfold i. fold i0.
  replace (i0 / 12 * 12 + (i0 mod 12 + 1 + k) - 1) with (i0 + k); [done|].
  pose proof (Z.div_mod i0 12 ltac:(done)). lia.
Qed.

Lemma AddDate_days y m d ns n : 1 <= m <= 12 -> 1 <= d <= days_in_month (leap y) m ->
  0 <= ns < day_ns -> AddDate (Date y m d ns) 0 0 n = Date y m (d + n) ns.
Proof.
  intros Hm Hd Hns. unfold AddDate.
  destruct (civil_roundtrip y m d ns Hm Hd Hns) as (Hy & Hmo & Hday & Hc).
  by rewrite Hy, Hmo, Hday, Hc, !Z.add_0_r.
Qed.

(** The last day of the month that starts at a given first. *)
Lemma last_day y m ns : 1 <= m <= 12 -> 0 <= ns < day_ns ->
  Day (AddDate (AddDate (Date y m 1 ns) 0 1 0) 0 0 (-1)) = days_in_month (leap y) m.
Proof.
  intros Hm Hns. rewrite AddDate_month_start by done.
  set (i := y * 12 + m - 1 + 1). pose proof (days_in_month_bounds (leap (i / 12)) (i mod 12 + 1)).
  rewrite AddDate_days by (done || div_lia || lia).
  pose proof (days_in_month_bounds (leap y) m).
  assert (Heq : Date (i / 12) (i mod 12 + 1) (1 + -1) ns = Date y m (days_in_month (leap y) m) ns).
  { rewrite !Date_eq. do 2 f_equal.
    transitivity (days_from_civil y (m + 1) 1 - 1).
    - rewrite (days_from_civil_index y (m + 1)).
      replace (y * 12 + (m + 1) - 1) with i by (unfold i; lia).
      rewrite <- days_from_civil_day. done.
    - rewrite days_from_civil_next by done.
      replace (days_in_month (leap y) m) with (1 - (1 - days_in_month (leap y) m)) at 2 by lia.
      rewrite days_from_civil_day. lia. }
  rewrite Heq. apply civil_roundtrip; [done|lia|done].
Qed.

Lemma retentionCutoff_calendar now tier count unit cutoff :
  intervalParts (Interval tier) = Ok (count, unit) -> unit = "mo"%string \/ unit = "y"%string ->
  retentionCutoff now tier = Ok cutoff ->
  let months := (if decide (unit = "y"%string) then 12 else 1) * (count * Retain tier) in
  let i := month_index now - months in
  let y := i / 12 in let m := i mod 12 + 1 in
  cutoff = Date y m (Z.min (Day now) (days_in_month (leap y) m)) (clock_ns now).
Proof.
  intros Hp Hu. unfold retentionCutoff. rewrite Hp.
  replace (unit_seconds unit) with (@None Z) by (by destruct Hu; subst).
  destruct (_ || _); [done|]. set (span := count * Retain tier).
  replace (if decide (unit = "y"%string) then span * 12 else span)
    with ((if decide (unit = "y"%string) then 12 else 1) * span) by (case_decide; lia).
  set (months := _ * span). destruct (_ && _); [done|]. destruct (_ <? months); [done|].
  cbv zeta. intros <-%Ok_inj.
  pose proof (clock_ns_bounds now) as Hc. pose proof (Day_bounds now) as Hd.
  rewrite AddDate_month_start by done.
  replace (Year now * 12 + Month now - 1 + - months) with (month_index now - months)
    by (unfold month_index; lia).
  set (i := month_index now - months). rewrite last_day by (done || div_lia).
  pose proof (days_in_month_bounds (leap (i / 12)) (i mod 12 + 1)).
  rewrite AddDate_days by (done || div_lia || lia).
  generalize dependent (Day now). generalize dependent (days_in_month (leap (i / 12)) (i mod 12 + 1)).
  intros last Hl day Hd.
  replace (1 + ((if last <? day then last else day) - 1)) with (Z.min day last); [done|].
  destruct (Z.ltb_spec last day); lia.
Qed.

(** The points recorded as latest are those no point of their dataset exceeds. *)
Lemma latest_loop_latest now pts k : StronglySorted point_le pts ->
  k ∈ (list_to_set (key <$> (map_to_list (latest_loop now pts ∅ ∅).1).*2) : gset string) <->
  exists p, p ∈ pts /\ key p = k /\ latest_of pts p.
Proof.
  intros Hs. set (latest := (latest_loop now pts ∅ ∅).1).
  assert (Hlatest : forall d, latest !! d = last (filter (fun p => Dataset (snapshot p) = d) pts)).
  { intros d. unfold latest. rewrite latest_loop_lookup, lookup_empty. by destruct (last _). }
  rewrite elem_of_list_to_set, list_elem_of_fmap. setoid_rewrite list_elem_of_fmap. split.
  - intros (p & -> & [d p'] & -> & Hp%elem_of_map_to_list). simpl. rewrite Hlatest in Hp.
    pose proof (last_elem_of _ _ Hp) as [Hd Hpin]%list_elem_of_filter.
    exists p'. split; [done|]. split; [done|]. intros q Hq Hdq.
    refine (StronglySorted_last point_le _ _ _ (StronglySorted_filter _ _ _ Hs) Hp _).
    apply list_elem_of_filter. split; [congruence|done].
  - intros (p & Hp & <- & Hlast).
    set (F := filter (fun q => Dataset (snapshot q) = Dataset (snapshot p)) pts).
    assert (HpF : p ∈ F) by (by apply list_elem_of_filter).
    destruct (last F) as [p0|] eqn:Hp0; [|apply last_None in Hp0; rewrite Hp0 in HpF; by apply elem_of_nil in HpF].
    pose proof (last_elem_of _ _ Hp0) as [Hd Hpin]%list_elem_of_filter.
    exists p0. split.
    + apply point_le_antisym_key; [|by apply Hlast|done].
      exact (StronglySorted_last point_le _ _ _ (StronglySorted_filter _ _ _ Hs) Hp0 HpF).
    + exists (Dataset (snapshot p), p0). split; [done|]. apply elem_of_map_to_list. by rewrite Hlatest.
Qed.

Lemma gather_spec Parse snaps ps : gather Parse snaps = Ok ps ->
  forall p, p ∈ ps <-> snapshot p ∈ snaps /\ IsAutomatedSnapshot (chars (Name (snapshot p))) = true /\
                       Parse (CreatedAt (snapshot p)) = Some (created p).
Proof.
  revert ps. induction snaps as [|s snaps IH]; intros ps; simpl.
  { intros <-%Ok_inj p. split; [by intros ?%elem_of_nil|by intros [?%elem_of_nil _]]. }
  destruct (IsAutomatedSnapshot (chars (Name s))) eqn:Ha.
  - destruct (Parse (CreatedAt s)) as [c|] eqn:Hc; [|done].
    destruct (gather Parse snaps) as [qs|e]; [|done]. intros <-%Ok_inj p.
    rewrite !elem_of_cons, (IH qs eq_refl). destruct p as [s' c']; simpl. split.
    + intros [[= -> ->]|(? & ? & ?)]; auto.
    + intros [[->|Hin] [? ?]]; [left; congruence|right; auto].
  - intros Hg p. rewrite (IH ps Hg), elem_of_cons. split.
    + intros (? & ? & ?). auto.
    + intros [[Hs|?] [? ?]]; [congruence|auto].
Qed.

Lemma tier_keeps_proper now points points' tier p :
  (forall q, q ∈ points <-> q ∈ points') -> tier_keeps now points tier p <-> tier_keeps now points' tier p.
Proof.
  intros Hp. unfold tier_keeps. setoid_rewrite Hp. done.
Qed.

Lemma retentionCutoff_retain now tier cutoff :
  retentionCutoff now tier = Ok cutoff -> 1 <= Retain tier.
Proof.
  unfold retentionCutoff. destruct (intervalParts _) as [[c u]|]; [|done].
  destruct (Z.ltb_spec (Retain tier) 1); [done|lia].
Qed.

Lemma parse_token_inv now token seen tier unit :
  parse_token now token seen = Ok (tier, unit) ->
  unit ∉ seen /\ (exists n r, match_token token = Some (n, unit, r)) /\
  1 <= Retain tier /\ is_ok (retentionCutoff now tier) = true.
Proof.
  unfold parse_token. destruct (match_token token) as [[[n u] r]|]; [|done].
  case_decide as Hu; [done|]. destruct (Atoi _) as [count|]; [|done].
  destruct (Atoi r) as [retain|]; [|done]. destruct (_ <? retain); [done|].
  destruct (retentionCutoff now _) as [cut|] eqn:Hc; [|done]. intros [= <- <-].
  split; [done|]. split; [eauto|]. rewrite Hc. split; [|done].
  exact (retentionCutoff_retain _ _ _ Hc).
Qed.

Lemma parse_tokens_spec now tokens seen acc tiers :
  parse_tokens now tokens seen acc = Ok tiers ->
  exists new us, tiers = acc ++ new /\ length new = length tokens /\
    Forall (fun t => 1 <= Retain t /\ is_ok (retentionCutoff now t) = true) new /\
    NoDup us /\ (forall u, u ∈ us -> u ∉ seen) /\
    Forall2 (fun token u => exists n r, match_token token = Some (n, u, r)) tokens us.
Proof.
  revert seen acc. induction tokens as [|token tokens IH]; intros seen acc; simpl.
  { intros <-%Ok_inj. exists [], []. rewrite app_nil_r. do 4 (split; [constructor||done|]). split; [|constructor].
    by intros u ?%elem_of_nil. }
  destruct (parse_token now token seen) as [[tier unit]|] eqn:Ht; [|done].
  apply parse_token_inv in Ht as (Hu & Hm & Hr & Hc).
  intros (new & us & -> & Hl & Hf & Hnd & Hout & Hall)%IH.
  exists (tier :: new), (unit :: us). rewrite <- app_assoc. simpl. rewrite Hl.
  split; [done|]. split; [done|]. split; [by constructor|]. split; [|split; [|by constructor]].
  - apply NoDup_cons. split; [|done]. intros H. apply Hout in H. set_solver.
  - intros u [->|H]%elem_of_cons; [done|]. apply Hout in H. set_solver.
Qed.

(** * Properties *)

(** What is kept, when there is an answer. *)
Lemma retained_elem Parse snaps tiers now keep : RetainedSnapshots Parse snaps tiers now = Ok keep ->
  exists ps, gather Parse snaps = Ok ps /\ (forall tier, tier ∈ tiers -> is_ok (retentionCutoff now tier) = true) /\
    forall k, k ∈ keep <-> retained now ps tiers k.
Proof.
  unfold RetainedSnapshots. destruct (gather Parse snaps) as [ps|e]; [|done].
  set (pts := merge_sort point_le ps).
  assert (Hs : StronglySorted point_le pts) by (apply (StronglySorted_merge_sort _)).
  assert (Hin : forall q, q ∈ pts <-> q ∈ ps) by (intros q; unfold pts; by rewrite merge_sort_Permutation).
  destruct (latest_loop now pts ∅ ∅) as [latest keep0] eqn:Hl.
  set (keep1 := list_to_set (key <$> (map_to_list latest).*2) ∪ keep0).
  pose proof (tiers_loop_spec now pts tiers keep1 Hs) as Ht.
  destruct (tiers_loop now pts tiers keep1) as [keep2|e]; [|done]. intros [= <-].
  destruct Ht as [Hok Hk]. exists ps. split; [done|]. split; [done|].
  intros k. rewrite Hk. unfold retained. setoid_rewrite <- Hin.
  setoid_rewrite <- (tier_keeps_proper now pts ps _ _ Hin).
  assert (Hlo : forall p, latest_of ps p <-> latest_of pts p) by (intros p; unfold latest_of; by setoid_rewrite Hin).
  setoid_rewrite Hlo.
  pose proof (latest_loop_keep now pts ∅ ∅ k) as Hkeep0.
  pose proof (latest_loop_latest now pts k Hs) as Hk1.
  rewrite Hl in Hkeep0, Hk1. simpl in Hkeep0, Hk1.
  unfold keep1. rewrite elem_of_union, Hkeep0, Hk1. clear. split.
  - intros [[(p & ? & ? & ?)|[H|(p & ? & ? & ?)]]|(p & ? & ? & ?)].
    2: { by apply elem_of_empty in H. }
    all: exists p; auto.
  - intros (p & ? & ? & [?|[?|?]]); [left; right; right|left; left|right]; eauto.
Qed.
(** When there is none. *)
(** Errors come in the order of the loops: the first automated snapshot whose
    time cannot be read, and only then the first tier without a cutoff. *)
Definition first_unreadable (Parse : string -> option Z) (snaps : list SnapshotInfo) (e : Error) : Prop :=
  exists pre s post, snaps = pre ++ s :: post /\ IsAutomatedSnapshot (chars (Name s)) = true /\ Parse (CreatedAt s) = None /\
    e = ErrCreation (Dataset s) (Name s) /\
    forall t, t ∈ pre -> IsAutomatedSnapshot (chars (Name t)) = true -> is_Some (Parse (CreatedAt t)).
Definition first_unbounded (now : Z) (tiers : list RetentionTier) (e : Error) : Prop :=
  exists pre tier post, tiers = pre ++ tier :: post /\ retentionCutoff now tier = Err e /\
    forall t, t ∈ pre -> is_ok (retentionCutoff now t) = true.

Lemma gather_error Parse snaps e : gather Parse snaps = Err e -> first_unreadable Parse snaps e.
Proof.
  induction snaps as [|s snaps IH]; simpl; [done|].
  assert (Hskip : gather Parse snaps = Err e -> (IsAutomatedSnapshot (chars (Name s)) = true -> is_Some (Parse (CreatedAt s))) ->
    first_unreadable Parse (s :: snaps) e).
  { intros Hg Hs. destruct (IH Hg) as (pre & t & post & -> & Ht & Hn & He & Hpre). exists (s :: pre), t, post. split_and!; [done..|].
    intros x [->|Hx]%elem_of_cons; [done|by apply Hpre]. }
  destruct (IsAutomatedSnapshot (chars (Name s))) eqn:Ha; [|intros Hg; by apply Hskip].
  destruct (Parse (CreatedAt s)) as [c|] eqn:Ec.
  - destruct (gather Parse snaps) as [ps|e']; [done|]. intros [= ->]. apply Hskip; [done|by eexists].
  - intros [= <-]. exists [], s, snaps. split_and!; [done..|]. by intros t ?%elem_of_nil.
Qed.
Lemma gather_readable Parse snaps ps : gather Parse snaps = Ok ps ->
  forall t, t ∈ snaps -> IsAutomatedSnapshot (chars (Name t)) = true -> is_Some (Parse (CreatedAt t)).
Proof.
  revert ps. induction snaps as [|s snaps IH]; intros ps; simpl; [by intros _ t ?%elem_of_nil|].
  destruct (IsAutomatedSnapshot (chars (Name s))) eqn:Ha.
  - destruct (Parse (CreatedAt s)) as [c|] eqn:Ec; [|done]. destruct (gather Parse snaps) as [ps'|] eqn:Eg; [|done].
    intros _ t [->|Ht]%elem_of_cons; [by rewrite Ec|by eapply IH].
  - intros Hg t [->|Ht]%elem_of_cons; [congruence|by eapply IH].
Qed.
Lemma tiers_loop_error now points tiers keep e : tiers_loop now points tiers keep = Err e -> first_unbounded now tiers e.
Proof.
  revert keep. induction tiers as [|tier tiers IH]; intros keep; simpl; [done|].
  destruct (retentionCutoff now tier) as [cutoff|e'] eqn:Ec.
  - destruct (match intervalParts (Interval tier) with Ok cu => cu | Err _ => _ end) as [count unit].
    intros Hl. destruct (IH _ Hl) as (pre & t & post & -> & He & Hpre). exists (tier :: pre), t, post. split_and!; [done..|].
    intros x [->|Hx]%elem_of_cons; [by rewrite Ec|by apply Hpre].
  - intros [= ->]. exists [], tier, tiers. split_and!; [done..|]. by intros t ?%elem_of_nil.
Qed.

Lemma retained_error Parse snaps tiers now e : RetainedSnapshots Parse snaps tiers now = Err e ->
  first_unreadable Parse snaps e \/
  ((forall t, t ∈ snaps -> IsAutomatedSnapshot (chars (Name t)) = true -> is_Some (Parse (CreatedAt t))) /\ first_unbounded now tiers e).
Proof.
  unfold RetainedSnapshots. destruct (gather Parse snaps) as [ps|e'] eqn:Eg.
  - destruct (latest_loop now _ ∅ ∅) as [latest keep0]. intros Ht%tiers_loop_error. right. split; [by eapply gather_readable|done].
  - intros [= ->]. left. by apply gather_error.
Qed.
(** The newest point of a dataset is kept. *)
Lemma retained_newest Parse snaps tiers now keep s c : RetainedSnapshots Parse snaps tiers now = Ok keep -> s ∈ snaps ->
  IsAutomatedSnapshot (chars (Name s)) = true -> Parse (CreatedAt s) = Some c ->
  (forall t d, t ∈ snaps -> IsAutomatedSnapshot (chars (Name t)) = true -> Dataset t = Dataset s -> Parse (CreatedAt t) = Some d ->
     less (mkPoint s c) (mkPoint t d) = false) -> Dataset s +:+ "@" +:+ Name s ∈ keep.
Proof.
  intros (ps & Hg & _ & Hk)%retained_elem Hin Ha Hc Hn. pose proof (gather_spec _ _ _ Hg) as Hps. apply Hk.
  exists (mkPoint s c). split_and!; [by apply Hps|done|]. right; left. intros q (Hq & Hqa & Hqc)%Hps Hd. cbn in *. destruct q as [t d]. by apply Hn.
Qed.

(** C35. Retention keeps exactly what it documents.  When it answers, a
    snapshot is kept if and only if it is an automated one that is dated after
    [now], or is the latest of its dataset, or is the earliest of its bucket
    inside the window of some tier.  It fails with the error of the first
    automated snapshot whose creation time cannot be read; and only when all
    can, with that of the first tier that has no cutoff. *)
Theorem RetainedSnapshots_spec (Parse : string -> option Z) (snaps : list SnapshotInfo)
    (tiers : list RetentionTier) (now : Z) :
  match RetainedSnapshots Parse snaps tiers now with
  | Ok keep =>
      exists ps, gather Parse snaps = Ok ps /\
        (forall tier, tier ∈ tiers -> is_ok (retentionCutoff now tier) = true) /\
        forall k, k ∈ keep <-> retained now ps tiers k
  | Err e =>
      first_unreadable Parse snaps e \/
      ((forall t, t ∈ snaps -> IsAutomatedSnapshot (chars (Name t)) = true -> is_Some (Parse (CreatedAt t))) /\
       first_unbounded now tiers e)
  end.
Proof.
  destruct (RetainedSnapshots Parse snaps tiers now) as [keep|e] eqn:E; [by apply retained_elem in E|by apply retained_error in E].
Qed.

(** A tier of a fixed-length unit never keeps more than [Retain + 1]
    points per dataset: every instant in its window falls in one of the last
    [Retain + 1] buckets; and the window arithmetic stays inside 64 bits. *)
Theorem tier_window_bound (now t : Z) (tier : RetentionTier) (count scale cutoff : Z) (unit : string) :
  intervalParts (Interval tier) = Ok (count, unit) ->
  unit_seconds unit = Some scale ->
  retentionCutoff now tier = Ok cutoff ->
  cutoff < t <= now ->
  intervalBucket now count unit - Retain tier <= intervalBucket t count unit <= intervalBucket now count unit /\
  scale * count * Retain tier * Second <= MaxInt64.
Proof.
  intros Hp Hs Hc Ht. destruct (retentionCutoff_fixed _ _ _ _ _ _ Hp Hs Hc) as (Hr & Hcut & Hmax).
  apply intervalParts_inv in Hp as [Hcount _].
  destruct (intervalBucket_fixed now count unit scale ltac:(lia) Hs) as [Hb Hscale].
  destruct (intervalBucket_fixed t count unit scale ltac:(lia) Hs) as [Hbt _].
  split; [|done]. rewrite Hb, Hbt. set (off := unit_offset unit).
  assert (HP : 0 < scale * count) by nia. split; [|apply Z.div_le_mono; [done|]; pose proof (Unix_mono t now); lia].
  pose proof (Unix_mono cutoff t ltac:(lia)) as Hu.
  rewrite Hcut, Unix_sub in Hu.
  transitivity ((Unix now - off - Retain tier * (scale * count)) / (scale * count)).
  - replace (Unix now - off - Retain tier * (scale * count))
      with (Unix now - off + (- Retain tier) * (scale * count)) by ring.
    rewrite Z.div_add by lia. lia.
  - apply Z.div_le_mono; lia.
Qed.

Lemma tier_window_bound_witness :
  let now := 1735689600 * Second in
  intervalBucket now 6 "h" - 4 <= intervalBucket (now - 5 * Hour) 6 "h" <= intervalBucket now 6 "h".
Proof.
  intros now.
  refine (proj1 (tier_window_bound now (now - 5 * Hour) (mkTier "6h" 4) 6 3600 (now - 86400 * Second) "h" _ _ _ _));
    [vm_compute; reflexivity|reflexivity|vm_compute; reflexivity|vm_compute; split; congruence].
Defined.

(** Schedules fire on period boundaries only: for minutes, hours, days
    and (Monday-based) weeks a snapshot is due exactly in the minutes whose
    index since the epoch is a multiple of the interval, for months exactly in
    the first minute of a month whose index is a multiple of the count; an
    unreadable interval is never due. *)
Theorem SnapshotDue_spec (now : Z) (interval : string) :
  match intervalParts interval with
  | Err _ => SnapshotDue now interval = false
  | Ok (count, unit) =>
      match unit_minutes unit with
      | Some q =>
          SnapshotDue now interval = ((now / Minute - unit_offset unit / 60) mod (q * count) =? 0)
      | None =>
          unit = "mo"%string ->
          let t := now / Minute * Minute in
          SnapshotDue now interval =
            (Day t =? 1) && (clock_ns t <? Minute) && (month_index t mod count =? 0)
      end
  end.
Proof.
  unfold SnapshotDue. destruct (intervalParts interval) as [[c u]|e] eqn:Hp; [|done].
  apply intervalParts_inv in Hp as [Hc _].
  unfold unit_minutes. rewrite Truncate_Minute. set (k := now / Minute).
  destruct (unit_seconds u) as [scale|] eqn:Hs; simpl.
  - assert (Hq : scale = 60 * (scale / 60) /\ unit_offset u = unit_offset u / 60 * 60 /\ 0 < scale / 60).
    { unfold unit_seconds in Hs. unfold unit_offset.
      repeat (case_decide; [simplify_eq; done|]). done. }
    destruct Hq as (Hq & Ho & Hq0).
    destruct (intervalBucket_fixed (k * Minute) c u scale ltac:(lia) Hs) as [-> _].
    destruct (intervalBucket_fixed (k * Minute - Minute) c u scale ltac:(lia) Hs) as [-> _].
    replace (k * Minute - Minute) with ((k - 1) * Minute) by ring.
    rewrite !Unix_minutes, Hq, Ho, <- !Z.mul_assoc, !minute_bucket by nia.
    replace (60 * (scale / 60) / 60) with (scale / 60) by (rewrite <- Hq; done).
    replace (unit_offset u / 60 * 60 / 60) with (unit_offset u / 60) by (rewrite <- Ho; done).
    replace (k - 1 - unit_offset u / 60) with (k - unit_offset u / 60 - 1) by lia.
    rewrite period_boundary by nia. by rewrite negb_involutive.
  - intros ->. unfold intervalBucket. simpl. rewrite !floorDiv_div by lia.
    change (Year (k * Minute) * 12 + Month (k * Minute) - 1) with (month_index (k * Minute)).
    change (Year (k * Minute - Minute) * 12 + Month (k * Minute - Minute) - 1) with (month_index (k * Minute - Minute)).
    set (t := k * Minute).
    destruct ((Day t =? 1) && (clock_ns t <? Minute)) eqn:Hd.
    + apply andb_true_iff in Hd as [H1%Z.eqb_eq H2%Z.ltb_lt].
      rewrite month_index_prev_month, period_boundary by (done || lia). by rewrite negb_involutive.
    + rewrite month_index_prev_day; [by rewrite Z.eqb_refl|].
      apply andb_false_iff in Hd as [?%Z.eqb_neq|?%Z.ltb_ge]; auto.
Qed.

Lemma SnapshotDue_spec_witness :
  let t := 1738368000 * Second in
  SnapshotDue t "1mo" = (Day t =? 1) && (clock_ns t <? Minute) && (month_index t mod 1 =? 0) /\
  SnapshotDue t "1mo" = true.
Proof.
  intros t. split; [exact (SnapshotDue_spec t "1mo" eq_refl)|vm_compute; reflexivity].
Defined.

(** Calendar windows clamp: the cutoff of a month or year tier is the
    same time of day in the month [count * Retain] months (or years) earlier,
    on the same day of the month or on the last day that month has. *)
Theorem calendar_cutoff_clamps (now : Z) (tier : RetentionTier) (count cutoff : Z) (unit : string) :
  intervalParts (Interval tier) = Ok (count, unit) ->
  unit = "mo"%string \/ unit = "y"%string ->
  retentionCutoff now tier = Ok cutoff ->
  let months := (if decide (unit = "y"%string) then 12 else 1) * (count * Retain tier) in
  month_index cutoff = month_index now - months /\
  Day cutoff = Z.min (Day now) (days_in_month (leap (Year cutoff)) (Month cutoff)) /\
  clock_ns cutoff = clock_ns now.
Proof.
  intros Hp Hu Hc months. pose proof (retentionCutoff_calendar _ _ _ _ _ Hp Hu Hc) as H.
  cbv zeta in H. fold months in H. set (i := month_index now - months) in *.
  pose proof (clock_ns_bounds now). pose proof (Day_bounds now).
  pose proof (days_in_month_bounds (leap (i / 12)) (i mod 12 + 1)).
  destruct (civil_roundtrip (i / 12) (i mod 12 + 1)
    (Z.min (Day now) (days_in_month (leap (i / 12)) (i mod 12 + 1))) (clock_ns now)) as (Hy & Hm & Hd & Hcl);
    [div_lia|lia|done|].
  rewrite H. unfold month_index at 1. rewrite Hy, Hm, Hd, Hcl.
  pose proof (Z.div_mod i 12 ltac:(done)). split; [lia|done].
Qed.

Lemma calendar_cutoff_clamps_witness :
  Day (Date 2026 2 28 (10 * Hour)) =
    Z.min 31 (days_in_month (leap (Year (Date 2026 2 28 (10 * Hour)))) (Month (Date 2026 2 28 (10 * Hour)))).
Proof.
  refine (proj1 (proj2 (calendar_cutoff_clamps (Date 2026 3 31 (10 * Hour)) (mkTier "1mo" 1) 1
    (Date 2026 2 28 (10 * Hour)) "mo" _ _ _)));
    [vm_compute; reflexivity|by left|vm_compute; reflexivity].
Defined.

(** A parsed policy is usable: one tier per field, no unit given twice,
    every tier retains at least one point and has a cutoff. *)
Theorem ParseSnapshotPolicy_sound (now : Z) (policy : string) (tiers : list RetentionTier) :
  ParseSnapshotPolicy now policy = Ok tiers ->
  length tiers = length (Fields policy) /\
  Forall (fun t => 1 <= Retain t /\ is_ok (retentionCutoff now t) = true) tiers /\
  exists us, NoDup us /\
    Forall2 (fun token u => exists n r, match_token token = Some (n, u, r)) (Fields policy) us.
Proof.
  intros (new & us & -> & Hl & Hf & Hnd & _ & Hall)%parse_tokens_spec. eauto.
Qed.

Lemma ParseSnapshotPolicy_sound_witness :
  ParseSnapshotPolicy (1735689600 * Second) "h/24 2d/28" = Ok [mkTier "1h" 24; mkTier "2d" 28] /\
  length [mkTier "1h" 24; mkTier "2d" 28] = length (Fields "h/24 2d/28").
Proof.
  assert (H : ParseSnapshotPolicy (1735689600 * Second) "h/24 2d/28" = Ok [mkTier "1h" 24; mkTier "2d" 28])
    by (vm_compute; reflexivity).
  split; [exact H|]. exact (proj1 (ParseSnapshotPolicy_sound _ _ _ H)).
Defined.
