(* ===== verification/Release.v ===== *)
(** Release versions and the host range a management release accepts:
    [src/pkg/release/version.go].  The semantic-version library is a
    parameter: the class [Semver] has the three operations the code calls. *)
From S2P Require Import Prelude Timestamp.
From Stdlib Require Import Ascii.

Open Scope string_scope.

(** [hashicorp/go-version]: [NewSemver], [Prerelease] and [LessThan]. *)
Class Semver := {
  version : Type;
  NewSemver : string -> option version;
  Prerelease : version -> string;
  LessThan : version -> version -> bool }.

(** What its documentation says of the order: versions are totally preordered. *)
Class SemverLaws `{Semver} := {
  LessThan_irrefl : forall v, LessThan v v = false;
  LessThan_trans : forall u v w, LessThan u v = true -> LessThan v w = true -> LessThan u w = true;
  LessThan_negtrans : forall u v w, LessThan v u = false -> LessThan w v = false -> LessThan w u = false }.

Inductive Error := ErrSyntax (s : string) | ErrLibrary | ErrNumericPrerelease (part : string) | ErrEmptyRange.

(** ** The regular expressions *)

Definition in_range_ascii (lo hi c : ascii) : bool :=
  (N_of_ascii lo <=? N_of_ascii c)%N && (N_of_ascii c <=? N_of_ascii hi)%N.
Definition digit (c : ascii) : bool := in_range_ascii "0" "9" c.
Definition letter (c : ascii) : bool := in_range_ascii "A" "Z" c || in_range_ascii "a" "z" c.
Definition ident_char (c : ascii) : bool := digit c || letter c || Ascii.eqb c "-".

(** [strings.Split] on one byte. *)
Fixpoint split_on (sep : ascii) (l : list ascii) : list (list ascii) :=
  match l with
  | [] => [[]]
  | c :: l =>
      if Ascii.eqb c sep then [] :: split_on sep l
      else match split_on sep l with
           | w :: ws => (c :: w) :: ws
           | [] => [[c]]
           end
  end.

(** [0|[1-9][0-9]*] *)
Definition numeric (l : list ascii) : bool :=
  match l with
  | [] => false
  | c :: l' => if Ascii.eqb c "0" then bool_decide (l' = []) else forallb digit l
  end.

(** [([0-9A-Za-z-]+\.)*[0-9A-Za-z-]+]: nonempty identifiers between dots. *)
Definition prerelease_syntax (l : list ascii) : bool :=
  forallb (fun w => negb (bool_decide (w = [])) && forallb ident_char w) (split_on "." l).

(** The three numbers run up to the first dash, if any. *)
Fixpoint cut (sep : ascii) (l : list ascii) : list ascii * option (list ascii) :=
  match l with
  | [] => ([], None)
  | c :: l =>
      if Ascii.eqb c sep then ([], Some l)
      else let '(a, b) := cut sep l in (c :: a, b)
  end.

Definition semver_match (s : string) : bool :=
  let '(core, pre) := cut "-" (chars s) in
  match split_on "." core with
  | [x; y; z] => numeric x && numeric y && numeric z && match pre with None => true | Some p => prerelease_syntax p end
  | _ => false
  end.

(** [^0[0-9]+$] *)
Definition numericLeadingZero (l : list ascii) : bool :=
  match l with
  | c :: (_ :: _) as l' => Ascii.eqb c "0" && forallb digit l'
  | _ => false
  end.

Section Release.
Context `{Semver}.

Definition Parse (s : string) : result Error version :=
  if negb (semver_match s) then Err (ErrSyntax s)
  else match NewSemver s with
       | None => Err ErrLibrary
       | Some v =>
           match list_find (fun part => numericLeadingZero part) (split_on "." (chars (Prerelease v))) with
           | Some (_, part) => Err (ErrNumericPrerelease (String.string_of_list_ascii part))
           | None => Ok v
           end
       end.

Record HostRange := mkRange { Min : string; Max : string }.

Definition Validate (r : HostRange) : result Error unit :=
  match Parse (Min r) with
  | Err e => Err e
  | Ok min =>
      match Parse (Max r) with
      | Err e => Err e
      | Ok max => if negb (LessThan min max) then Err ErrEmptyRange else Ok tt
      end
  end.

(** [min, _ := Parse(r.Min)]: after [Validate] both parse. *)
Definition Contains (r : HostRange) (s : string) : result Error bool :=
  match Validate r with
  | Err e => Err e
  | Ok _ =>
      match Parse s with
      | Err e => Err e
      | Ok v =>
          match Parse (Min r), Parse (Max r) with
          | Ok min, Ok max => Ok (negb (LessThan v min) && LessThan v max)
          | _, _ => Ok false
          end
      end
  end.

(** [CheckHost]: [executed] is the answer of the host daemon to
    [sys.version], already split into the call and its decoding. *)
Inductive Compatibility := CompatUnknown (host : option string) | Incompatible (host : string) | Compatible (host : string).

Definition CheckHost (required : HostRange) (executed : option (option string)) : Compatibility :=
  match executed with
  | None => CompatUnknown None
  | Some None => CompatUnknown None
  | Some (Some host) =>
      match Contains required host with
      | Err _ => CompatUnknown (Some host)
      | Ok true => Compatible host
      | Ok false => Incompatible host
      end
  end.
End Release.

(** [validRelease] of [src/internal/managementupdate/linux.go]. *)
Definition validRelease `{Semver} (tag : string) : bool :=
  has_prefix (chars tag) (chars "manage-v") &&
  is_ok (Parse (String.string_of_list_ascii (drop 8 (chars tag)))).

(** * Properties *)

Lemma Contains_inv `{Semver} r s b : Contains r s = Ok b ->
  exists min max v, Parse (Min r) = Ok min /\ Parse (Max r) = Ok max /\ Parse s = Ok v /\
    LessThan min max = true /\ b = negb (LessThan v min) && LessThan v max.
Proof.
  unfold Contains, Validate. destruct (Parse (Min r)) as [min|]; [|done].
  destruct (Parse (Max r)) as [max|]; [|done]. destruct (LessThan min max) eqn:Hl; [|done]. simpl.
  destruct (Parse s) as [v|]; [|done]. intros <-%Ok_inj. eauto 10.
Qed.

(** The accepted hosts form a half-open interval: [Contains] answers
    [true] exactly for the versions from [Min] (included) up to [Max]
    (excluded); the lower bound itself is accepted, the upper one never is,
    and between two accepted versions every version is accepted. *)
Theorem Contains_interval `{SemverLaws} (r : HostRange) (s1 s s2 : string) (b : bool) (v1 v v2 : version) :
  Parse s1 = Ok v1 -> Parse s = Ok v -> Parse s2 = Ok v2 ->
  Contains r s = Ok b ->
  Contains r (Min r) = Ok true /\ Contains r (Max r) = Ok false /\
  (b = true <-> exists min max, Parse (Min r) = Ok min /\ Parse (Max r) = Ok max /\
                LessThan v min = false /\ LessThan v max = true) /\
  (Contains r s1 = Ok true -> Contains r s2 = Ok true ->
   LessThan v v1 = false -> LessThan v2 v = false -> b = true).
Proof.
  intros H1 Hv H2 Hc. pose proof Hc as (min & max & v' & Hmin & Hmax & Hv' & Hlt & Hb)%Contains_inv.
  assert (Hgen : forall t u, Parse t = Ok u -> Contains r t = Ok (negb (LessThan u min) && LessThan u max)).
  { intros t u Ht. unfold Contains, Validate. by rewrite Hmin, Hmax, Hlt, Ht. }
  rewrite (Hgen _ _ Hmin), (Hgen _ _ Hmax), (Hgen _ _ H1), (Hgen _ _ H2).
  rewrite Hv in Hv'. apply Ok_inj in Hv' as <-. subst b.
  rewrite LessThan_irrefl, Hlt, LessThan_irrefl, andb_false_r.
  split; [done|]. split; [done|]. split.
  - rewrite andb_true_iff, negb_true_iff. split; [eauto 10|].
    intros (m & M & Hm & HM & ?). rewrite Hmin in Hm. rewrite Hmax in HM.
    apply Ok_inj in Hm as <-. by apply Ok_inj in HM as <-.
  - intros Ha%Ok_inj Hb%Ok_inj Hlo Hhi. to_prop.
    apply andb_true_iff. split.
    + apply negb_true_iff. by apply (LessThan_negtrans min v1).
    + destruct (LessThan v max) eqn:Hvm; [done|].
      by rewrite (LessThan_negtrans max v v2 Hvm Hhi) in *.
Qed.

(** A small instance for witnesses: versions are their major number. *)
Definition major (s : string) : N :=
  foldl (fun n c => n * 10 + (N_of_ascii c - 48))%N 0%N (cut "." (chars s)).1.
Definition major_semver : Semver := {|
  version := N; NewSemver := fun s => Some (major s);
  Prerelease := fun _ => ""; LessThan := N.ltb |}.
Definition major_laws : @SemverLaws major_semver.
Proof. split; simpl; intros; rewrite ?N.ltb_lt, ?N.ltb_ge in *; lia. Defined.

Lemma Contains_interval_witness :
  @Contains major_semver (mkRange "1.0.0" "3.0.0") "1.0.0" = Ok true.
Proof.
  exact (proj1 (@Contains_interval major_semver major_laws (mkRange "1.0.0" "3.0.0")
    "1.2.0" "2.0.0-rc.1" "2.5.0" true 1%N 2%N 2%N eq_refl eq_refl eq_refl eq_refl)).
Defined.
