(* ===== verification/Update.v ===== *)
(** Disk and request primitives shared by the host and management updaters:
    [src/internal/update/update.go] and [src/internal/update/source.go]. *)
From S2P Require Import Prelude Release.
From Stdlib Require Import Ascii.

Open Scope string_scope.

(** ** Files

    A file is missing, cannot be read or decoded, or holds a value. *)
Inductive file (A : Type) := Absent | Unreadable | Content (a : A).
Arguments Absent {A}.
Arguments Unreadable {A}.
Arguments Content {A} a.

(** The system calls of [WriteFile], in order. *)
Inductive wstep := MkdirAll | CreateTemp | Chmod | WriteData | Sync | Close | Rename | OpenDir | SyncDir.

(** [WriteFile]: [ok] says which calls succeed.  The temporary file is removed
    on return, so only the renamed content can remain at the path. *)
Definition WriteFile {A} (ok : wstep -> bool) (data : A) (old : file A) : bool * file A :=
  if negb (ok MkdirAll) then (false, old)
  else if negb (ok CreateTemp) then (false, old)
  else
    let err := negb (ok Chmod) || negb (ok WriteData) in
    let err := err || negb (ok Sync) in
    let closeErr := negb (ok Close) in
    if err then (false, old)
    else if closeErr then (false, old)
    else if negb (ok Rename) then (false, old)
    else if negb (ok OpenDir) then (false, Content data)
    else (ok SyncDir, Content data).

(** [Acquire]: the lock file is opened ([io] says whether that works), then
    locked exclusively without blocking; a held lock is an error. *)
Definition Acquire (io lock : bool) : option bool :=
  if negb io then None else if lock then None else Some true.

(** ** Upstream repositories *)

Definition DefaultRepository : string := "floatlab-hq/floatlab-core".

Definition owner_char (c : ascii) : bool := ident_char c.
Definition repo_char (c : ascii) : bool := digit c || letter c || Ascii.eqb c "_" || Ascii.eqb c "." || Ascii.eqb c "-".

(** [^[A-Za-z0-9][A-Za-z0-9-]{0,38}/[A-Za-z0-9_][A-Za-z0-9_.-]{0,99}$] *)
Definition repository_match (s : string) : bool :=
  match split_on "/" (chars s) with
  | [o :: owner; r :: repo] =>
      (digit o || letter o) && forallb owner_char owner && (length owner <=? 38)%nat &&
      (digit r || letter r || Ascii.eqb r "_") && forallb repo_char repo && (length repo <=? 99)%nat
  | _ => false
  end.

Definition ValidateUpstream (upstream : string) : bool :=
  bool_decide (upstream = "") || repository_match upstream.

Definition Repository (upstream : string) : string :=
  if decide (upstream = "") then DefaultRepository else upstream.

(** [operationID] of both managers: [^[A-Za-z0-9][A-Za-z0-9_-]{0,63}$]. *)
Definition operationID (s : string) : bool :=
  match chars s with
  | c :: l => (digit c || letter c) && forallb (fun c => digit c || letter c || Ascii.eqb c "_" || Ascii.eqb c "-") l
              && (length l <=? 63)%nat
  | [] => false
  end.

(** * Properties *)

(** Journal replacement is atomic: whatever calls fail, the path holds
    the old content or the whole new one; success means the new one; and an
    error with the new content in place can only come from the directory
    flush after the rename. *)
Theorem WriteFile_atomic {A} (ok : wstep -> bool) (data : A) (old : file A) :
  let '(success, f) := WriteFile ok data old in
  (f = old \/ f = Content data) /\
  (success = true -> f = Content data /\ forall c, ok c = true) /\
  (success = false -> f <> old -> ok Rename = true /\ (ok OpenDir = false \/ ok SyncDir = false)).
Proof.
  unfold WriteFile.
  destruct (ok MkdirAll) eqn:H1; [|simpl; tauto || (split; [by left|split; [done|done]])].
  destruct (ok CreateTemp) eqn:H2; [|simpl; tauto || (split; [by left|split; [done|done]])].
  destruct (ok Chmod) eqn:H3, (ok WriteData) eqn:H4, (ok Sync) eqn:H5, (ok Close) eqn:H6,
    (ok Rename) eqn:H7, (ok OpenDir) eqn:H8, (ok SyncDir) eqn:H9; simpl;
    (split; [by auto|split; [|by auto]]); try done.
  intros _. split; [done|]. by intros [].
Qed.

Lemma WriteFile_content {A} (ok : wstep -> bool) (data : A) (old : file A) :
  (WriteFile ok data old).1 = true -> (WriteFile ok data old).2 = Content data.
Proof. unfold WriteFile. by repeat match goal with |- context [ok ?c] => destruct (ok c) end. Qed.

Lemma WriteFile_cases {A} ok (data : A) old :
  exists b ap, WriteFile ok data old = (b, if ap : bool then Content data else old) /\
    (match WriteFile ok tt Unreadable with (_, Content _) => true | _ => false end) = ap /\
    (b = true -> ap = true).
Proof.
  unfold WriteFile.
  destruct (ok MkdirAll); [|by exists false, false].
  destruct (ok CreateTemp); [|by exists false, false]. simpl.
  destruct (negb (ok Chmod) || negb (ok WriteData) || negb (ok Sync)); [by exists false, false|].
  destruct (ok Close); [|by exists false, false].
  destruct (ok Rename); [|by exists false, false].
  destruct (ok OpenDir); [|by exists false, true]. simpl. by exists (ok SyncDir), true.
Qed.

(** The path separator can never enter an operation ID or repository part. *)
Lemma operationID_no_slash s : operationID s = true -> "/"%char ∉ chars s.
Proof.
  unfold operationID. destruct (chars s) as [|c l]; [done|]. intros H. to_prop.
  intros [Heq|Hin]%elem_of_cons.
  - subst c. done.
  - rewrite forallb_forall in *. match goal with H : forall x, In x l -> _ |- _ => specialize (H "/"%char) end.
    apply list_elem_of_In in Hin. intuition discriminate.
Qed.
