(* ===== verification/Netip.v ===== *)
(** IP addresses as the code uses them: the part of Go's [net/netip] behind
    [internal/ipam] and [internal/hostnetwork].  IPv4 text is parsed and
    printed here; the text form of IPv6 addresses is a parameter. *)
From S2P Require Import Prelude Release.
From Stdlib Require Import Ascii.

Open Scope string_scope.
Open Scope Z_scope.

(** ** Addresses *)

(** [netip.Addr]: the zero value, a 32-bit or a 128-bit address. *)
Inductive Addr := Invalid | V4 (v : Z) | V6 (v : Z) (zone : string).
#[export] Instance Addr_eq_dec : EqDecision Addr.
Proof. solve_decision. Defined.

#[export] Instance Addr_countable : Countable Addr.
Proof.
  refine (inj_countable'
    (fun a => match a with Invalid => inl tt | V4 v => inr (inl v) | V6 v z => inr (inr (v, z)) end)
    (fun x => match x with inl tt => Invalid | inr (inl v) => V4 v | inr (inr (v, z)) => V6 v z end) _).
  by intros [].
Defined.

Definition Is4 (a : Addr) : bool := match a with V4 _ => true | _ => false end.
Definition BitLen (a : Addr) : Z := match a with Invalid => 0 | V4 _ => 32 | V6 _ _ => 128 end.
Definition bits_of (a : Addr) : Z := match a with Invalid => 0 | V4 v | V6 v _ => v end.
Definition zone_of (a : Addr) : string := match a with V6 _ z => z | _ => "" end.

(** [Addr.Compare]: by length, then value, then zone. *)
Definition addr_ltb (a b : Addr) : bool :=
  if BitLen a =? BitLen b then
    if bits_of a =? bits_of b then bytes_ltb (chars (zone_of a)) (chars (zone_of b))
    else bits_of a <? bits_of b
  else BitLen a <? BitLen b.
Definition addr_leb (a b : Addr) : bool := negb (addr_ltb b a).

(** [Addr.Next]: the successor, the zero value past the last address. *)
Definition Next (a : Addr) : Addr :=
  match a with
  | Invalid => Invalid
  | V4 v => if v + 1 =? 2 ^ 32 then Invalid else V4 (v + 1)
  | V6 v z => if v + 1 =? 2 ^ 128 then Invalid else V6 (v + 1) z
  end.

(** [netip.Prefix]: an address and a length. *)
Record Prefix := mkPrefix { pAddr : Addr; Bits : Z }.
#[export] Instance Prefix_eq_dec : EqDecision Prefix.
Proof. solve_decision. Defined.

Definition host_mask (p : Prefix) : Z := 2 ^ (BitLen (pAddr p) - Bits p) - 1.

Definition without_zone (a : Addr) : Addr := match a with V6 v _ => V6 v "" | _ => a end.

(** The address with its host bits cleared. *)
Definition Masked (p : Prefix) : Prefix :=
  let n := BitLen (pAddr p) - Bits p in
  let clear v := Z.shiftl (Z.shiftr v n) n in
  mkPrefix (match pAddr p with Invalid => Invalid | V4 v => V4 (clear v) | V6 v _ => V6 (clear v) "" end) (Bits p).

Definition Contains (p : Prefix) (a : Addr) : bool :=
  if bool_decide (pAddr p = Invalid) || negb (bool_decide (zone_of a = "")) then false
  else if BitLen a =? 0 then false
  else (BitLen (pAddr p) =? BitLen a) &&
       (Z.shiftr (Z.lxor (bits_of a) (bits_of (pAddr p))) (BitLen a - Bits p) =? 0).

(** ** Text *)

Definition digit_value (c : ascii) : Z := Z.of_N (N_of_ascii c) - 48.

Fixpoint decimal (acc : Z) (l : list ascii) : Z :=
  match l with [] => acc | c :: l => decimal (acc * 10 + digit_value c) l end.

(** A decimal field without sign, blank or leading zero. *)
Definition field (l : list ascii) : option Z :=
  match l with
  | [] => None
  | c :: rest =>
      if forallb digit l && negb (bool_decide (c = "0"%char) && negb (bool_decide (rest = []))) then Some (decimal 0 l)
      else None
  end.

Definition octet (l : list ascii) : option Z :=
  match field l with Some v => if v <=? 255 then Some v else None | None => None end.

Definition parseIPv4 (l : list ascii) : option Addr :=
  match split_on "." l with
  | [a; b; c; d] =>
      match octet a, octet b, octet c, octet d with
      | Some a, Some b, Some c, Some d => Some (V4 (((a * 256 + b) * 256 + c) * 256 + d))
      | _, _, _, _ => None
      end
  | _ => None
  end.

(** The IPv6 text form. *)
Class IPv6Text := {
  parseIPv6 : list ascii -> option (Z * string);
  formatIPv6 : Z -> string -> list ascii }.

(** The first of [.], [:] and [%] decides. *)
Fixpoint first_mark (l : list ascii) : option ascii :=
  match l with
  | [] => None
  | c :: l => if bool_decide (c = "."%char) || bool_decide (c = ":"%char) || bool_decide (c = "%"%char)
              then Some c else first_mark l
  end.

Definition show_octet (n : Z) : list ascii :=
  let d k := ascii_of_N (Z.to_N (48 + k)) in
  if n <? 10 then [d n] else if n <? 100 then [d (n / 10); d (n mod 10)]
  else [d (n / 100); d (n / 10 mod 10); d (n mod 10)].

Section Text.
Context `{IPv6Text}.

Definition ParseAddr (s : string) : option Addr :=
  let l := chars s in
  match first_mark l with
  | Some c => if decide (c = "."%char) then parseIPv4 l
              else if decide (c = ":"%char) then (fun '(v, z) => V6 v z) <$> parseIPv6 l
              else None
  | None => None
  end.

(** [ParsePrefix]: the length after the last slash, no zone, in range. *)
Definition ParsePrefix (s : string) : option Prefix :=
  match cut "/" (rev (chars s)) with
  | (bits, Some addr) =>
      match ParseAddr (String.string_of_list_ascii (rev addr)), field (rev bits) with
      | Some a, Some n =>
          if bool_decide (zone_of a = "") && (n <=? BitLen a) then Some (mkPrefix a n) else None
      | _, _ => None
      end
  | _ => None
  end.

Definition show_addr (a : Addr) : list ascii :=
  match a with
  | Invalid => chars "invalid IP"
  | V4 v => (show_octet (v / 2 ^ 24) ++ "." :: show_octet (v / 2 ^ 16 mod 256) ++ "." ::
             show_octet (v / 2 ^ 8 mod 256) ++ "." :: show_octet (v mod 256))%list%char
  | V6 v z => formatIPv6 v z
  end.
Definition AddrString (a : Addr) : string := String.string_of_list_ascii (show_addr a).
Definition PrefixString (a : Addr) (bits : Z) : string :=
  AddrString a +:+ "/" +:+ String.string_of_list_ascii (show_octet bits).
End Text.

(** What a result of the parser is. *)
Definition addr_ok (a : Addr) : Prop :=
  match a with Invalid => False | V4 v => 0 <= v < 2 ^ 32 | V6 v _ => 0 <= v < 2 ^ 128 end.

Class IPv6Laws `{IPv6Text} := {
  parseIPv6_range : forall l v z, parseIPv6 l = Some (v, z) -> 0 <= v < 2 ^ 128;
  formatIPv6_mark : forall v z, 0 <= v < 2 ^ 128 -> first_mark (formatIPv6 v z) = Some ":"%char;
  parse_formatIPv6 : forall v z, 0 <= v < 2 ^ 128 -> parseIPv6 (formatIPv6 v z) = Some (v, z) }.

(** ** Order *)

Lemma addr_ltb_spec a b : addr_ltb a b = true <->
  BitLen a < BitLen b \/ (BitLen a = BitLen b /\
    (bits_of a < bits_of b \/ (bits_of a = bits_of b /\ bytes_ltb (chars (zone_of a)) (chars (zone_of b)) = true))).
Proof.
  unfold addr_ltb. destruct (Z.eqb_spec (BitLen a) (BitLen b)), (Z.eqb_spec (bits_of a) (bits_of b));
    rewrite ?Z.ltb_lt; intuition lia.
Qed.

Lemma V4_leb v w : addr_leb (V4 v) (V4 w) = (v <=? w).
Proof.
  unfold addr_leb, addr_ltb. cbn -[Z.leb Z.ltb Z.eqb].
  destruct (Z.eqb_spec w v), (Z.leb_spec v w); subst; try lia; cbn; try done;
    [destruct (Z.ltb_spec w v)..]; cbn; try done; lia.
Qed.

(** ** Printing and parsing IPv4 *)

Lemma split_on_app sep a b :
  sep ∉ a -> split_on sep (a ++ sep :: b) = a :: split_on sep b.
Proof.
  induction a as [|c a IH]; cbn [split_on app]; intros Hs.
  - by rewrite Ascii.eqb_refl.
  - rewrite not_elem_of_cons in Hs. destruct Hs as [Hc Hs].
    destruct (Ascii.eqb_spec c sep); [congruence|]. by rewrite IH.
Qed.

Lemma split_on_none sep a : sep ∉ a -> split_on sep a = [a].
Proof.
  induction a as [|c a IH]; cbn [split_on]; intros Hs; [done|].
  rewrite not_elem_of_cons in Hs. destruct Hs as [Hc Hs].
  destruct (Ascii.eqb_spec c sep); [congruence|]. by rewrite IH.
Qed.

(** Every octet prints to digits that parse back, by evaluation. *)
Lemma octet_show n : 0 <= n < 256 ->
  octet (show_octet n) = Some n /\ "."%char ∉ show_octet n /\ first_mark (show_octet n) = None.
Proof.
  intros Hn.
  assert (Hall : forall x, x ∈ (Z.of_nat <$> seq 0 256) ->
    octet (show_octet x) = Some x /\ "."%char ∉ show_octet x /\ first_mark (show_octet x) = None).
  { refine (Forall_decide _ _ _). vm_compute. reflexivity. }
  apply Hall. apply list_elem_of_fmap. exists (Z.to_nat n). rewrite elem_of_seq. lia.
Qed.

Lemma first_mark_app a b : first_mark a = None -> first_mark (a ++ b) = first_mark b.
Proof.
  induction a as [|c a IH]; [done|]. cbn [first_mark app]. by destruct (_ || _).
Qed.

Lemma ParseAddr_String `{IPv6Laws} a : addr_ok a -> ParseAddr (AddrString a) = Some a.
Proof.
  unfold ParseAddr, AddrString, chars. rewrite String.list_ascii_of_string_of_list_ascii.
  destruct a as [|v|v z]; cbn [addr_ok show_addr]; intros Hv; [done| |].
  - pose proof (Z.div_mod v (2 ^ 24) ltac:(done)). pose proof (Z.mod_pos_bound v (2 ^ 24) ltac:(done)).
    assert (Ha : 0 <= v / 2 ^ 24 < 256) by lia.
    destruct (octet_show _ Ha) as (Ha1 & Ha2 & Ha3).
    destruct (octet_show (v / 2 ^ 16 mod 256)) as (Hb1 & Hb2 & Hb3); [apply Z.mod_pos_bound; done|].
    destruct (octet_show (v / 2 ^ 8 mod 256)) as (Hc1 & Hc2 & Hc3); [apply Z.mod_pos_bound; done|].
    destruct (octet_show (v mod 256)) as (Hd1 & Hd2 & Hd3); [apply Z.mod_pos_bound; done|].
    rewrite first_mark_app by done. cbn [first_mark bool_decide orb].
    replace (bool_decide ("."%char = "."%char)) with true by done. cbn [orb].
    rewrite decide_True by done. unfold parseIPv4.
    rewrite !split_on_app by done. rewrite split_on_none by done.
    rewrite Ha1, Hb1, Hc1, Hd1. do 2 f_equal.
    replace (v / 2 ^ 24) with (v / 256 / 256 / 256) by (by rewrite !Z.div_div).
    replace (v / 2 ^ 16) with (v / 256 / 256) by (by rewrite !Z.div_div).
    change (2 ^ 8) with 256.
    pose proof (Z.div_mod v 256 ltac:(done)). pose proof (Z.div_mod (v / 256) 256 ltac:(done)).
    pose proof (Z.div_mod (v / 256 / 256) 256 ltac:(done)). lia.
  - rewrite formatIPv6_mark by done. rewrite decide_False by done. rewrite decide_True by done.
    by rewrite parse_formatIPv6.
Qed.

Lemma decimal_nonneg l : forallb digit l = true -> 0 <= decimal 0 l.
Proof.
  cut (forall acc, 0 <= acc -> forallb digit l = true -> 0 <= decimal acc l); [by intros H; apply H|].
  induction l as [|x l IH]; cbn [decimal forallb]; intros acc Hacc Hl; [done|].
  apply andb_prop in Hl as [Hx Hl]. apply IH; [|done]. unfold digit_value, digit, in_range_ascii in *.
  apply andb_prop in Hx as [Hx _]. apply N.leb_le in Hx. change (N_of_ascii "0") with 48%N in Hx. lia.
Qed.

Lemma parseIPv4_range l a : parseIPv4 l = Some a -> addr_ok a.
Proof.
  assert (Ho : forall f n, octet f = Some n -> 0 <= n <= 255).
  { intros f n Hf. unfold octet in Hf. destruct (field f) as [v|] eqn:E; [|done].
    destruct (Z.leb_spec v 255); [|done]. injection Hf as ->. split; [|done].
    unfold field in E. destruct f as [|c f]; [done|]. destruct (forallb digit (c :: f) && _) eqn:Hd; [|done].
    injection E as <-. apply andb_prop in Hd as [Hd _]. exact (decimal_nonneg (c :: f) Hd). }
  unfold parseIPv4. destruct (split_on "." l) as [|w1 [|w2 [|w3 [|w4 [|]]]]]; try done.
  destruct (octet w1) eqn:E1, (octet w2) eqn:E2, (octet w3) eqn:E3, (octet w4) eqn:E4; try done.
  apply Ho in E1, E2, E3, E4. intros [= <-]. cbn [addr_ok]. lia.
Qed.

Lemma ParseAddr_ok `{IPv6Laws} s a : ParseAddr s = Some a -> addr_ok a.
Proof.
  unfold ParseAddr. destruct (first_mark (chars s)) as [c|]; [|done].
  destruct (decide _); [apply parseIPv4_range|]. destruct (decide _); [|done].
  destruct (parseIPv6 (chars s)) as [[v z]|] eqn:E; [|done]. intros [= <-]. by eapply parseIPv6_range.
Qed.

(** ** Prefixes *)

Lemma shiftr_lxor_zero a b n : 0 <= a -> 0 <= b -> 0 <= n ->
  Z.shiftr (Z.lxor a b) n = 0 <-> a / 2 ^ n = b / 2 ^ n.
Proof.
  intros Ha Hb Hn. rewrite Z.shiftr_lxor, Z.lxor_eq_0_iff, !Z.shiftr_div_pow2 by done. done.
Qed.

(** Membership of a prefix, as division by the block size. *)
Lemma Contains_V4 v n w : 0 <= v -> 0 <= w -> n <= 32 ->
  Contains (mkPrefix (V4 v) n) (V4 w) = true <-> v / 2 ^ (32 - n) = w / 2 ^ (32 - n).
Proof.
  intros Hv Hw Hn. unfold Contains. cbn [pAddr Bits bits_of BitLen zone_of].
  rewrite bool_decide_eq_false_2, bool_decide_eq_true_2 by done.
  change (32 =? 0) with false. change (32 =? 32) with true. cbn [negb orb andb].
  rewrite Z.eqb_eq, shiftr_lxor_zero by lia. split; congruence.
Qed.

Lemma Masked_V4 v n : n <= 32 ->
  Masked (mkPrefix (V4 v) n) = mkPrefix (V4 (v / 2 ^ (32 - n) * 2 ^ (32 - n))) n.
Proof.
  intros Hn. unfold Masked. cbn -[Z.shiftr Z.shiftl Z.pow].
  by rewrite Z.shiftl_mul_pow2, Z.shiftr_div_pow2 by lia.
Qed.

Lemma ParsePrefix_ok `{IPv6Laws} s p : ParsePrefix s = Some p -> addr_ok (pAddr p) /\ 0 <= Bits p <= BitLen (pAddr p).
Proof.
  unfold ParsePrefix. destruct (cut "/" (rev (chars s))) as [bits [addr|]]; [|done].
  destruct (ParseAddr _) as [a|] eqn:Ea; [|done]. destruct (field (rev bits)) as [n|] eqn:En; [|done].
  destruct (bool_decide _ && (n <=? BitLen a)) eqn:E; [|done]. intros [= <-]. to_prop.
  split; [by eapply ParseAddr_ok|]. cbn. split; [|lia].
  unfold field in En. destruct (rev bits) as [|c f]; [done|]. destruct (forallb digit (c :: f) && _) eqn:Hd; [|done].
  injection En as <-. apply andb_prop in Hd as [Hd _]. exact (decimal_nonneg (c :: f) Hd).
Qed.

(** ** A small IPv6 text form for witnesses: a colon, 128 binary digits with
    the lowest first, the zone. *)
Fixpoint to_bits (n : nat) (v : Z) : list ascii :=
  match n with
  | O => []
  | S n => (if Z.odd v then "1" else "0")%char :: to_bits n (v / 2)
  end.

Fixpoint of_bits (l : list ascii) : Z :=
  match l with
  | [] => 0
  | c :: l => (if Ascii.eqb c "1" then 1 else 0) + 2 * of_bits l
  end.

Lemma of_to_bits n v : 0 <= v < 2 ^ Z.of_nat n -> of_bits (to_bits n v) = v.
Proof.
  revert v. induction n as [|n IH]; intros v Hv; cbn [to_bits of_bits].
  - change (2 ^ Z.of_nat 0) with 1 in Hv. lia.
  - assert (0 <= v / 2 < 2 ^ Z.of_nat n).
    { rewrite Nat2Z.inj_succ, Z.pow_succ_r in Hv by lia.
      split; [apply Z.div_pos; lia|apply Z.div_lt_upper_bound; lia]. }
    rewrite IH by done. pose proof (Zdiv2_odd_eqn v). rewrite Z.div2_div in *.
    destruct (Z.odd v); cbn; lia.
Qed.

Lemma of_bits_range l : 0 <= of_bits l < 2 ^ Z.of_nat (length l).
Proof.
  induction l as [|c l IH]; cbn [of_bits length]; [done|].
  rewrite Nat2Z.inj_succ, Z.pow_succ_r by lia. destruct (Ascii.eqb c "1"); lia.
Qed.

Lemma length_to_bits n v : length (to_bits n v) = n.
Proof. revert v. induction n as [|n IH]; intros v; cbn; [done|by rewrite IH]. Qed.

#[export] Instance bits_ipv6 : IPv6Text := {|
  parseIPv6 := fun l => match l with
                        | c :: l => Some (of_bits (take 128 l), String.string_of_list_ascii (drop 128 l))
                        | [] => None end;
  formatIPv6 := fun v z => (":" :: to_bits 128 v ++ chars z)%char%list |}.

Definition bits_laws : @IPv6Laws bits_ipv6.
Proof.
  split.
  - intros [|c l] v z; cbn -[take drop]; [done|]. intros [= <- _].
    pose proof (of_bits_range (take 128 l)) as [H1 H2]. split; [done|].
    eapply Z.lt_le_trans; [exact H2|]. apply Z.pow_le_mono_r; [done|].
    rewrite length_take. lia.
  - done.
  - intros v z Hv. cbn -[take drop to_bits].
    rewrite take_app_length', drop_app_length' by (by rewrite length_to_bits).
    rewrite of_to_bits by done. unfold chars. by rewrite String.string_of_list_ascii_of_string.
Qed.
