(* ===== verification/HostConfig.v ===== *)
(** The host network configuration and its validation:
    [src/internal/hostnetwork/config.go].  [Config] values are checked and
    normalised before they reach the journal or the kernel. *)
From S2P Require Import Prelude Release Netip.
From Stdlib Require Import Ascii.

Open Scope string_scope.
Open Scope Z_scope.

(** ** Data *)

Definition Bridge : string := "floatlab-lan".

Record IPv4 := mkIPv4 { Mode : string; Address : string; Netmask : string; Gateway : string }.
Record Bond := mkBond { BondName : string; BondMode : string; Members : list string }.
Record Config := mkConfig {
  Version : Z;
  ExcludedMACs : list string;
  Bonds : list Bond;
  ConfIPv4 : IPv4;
  DNSServers : list string;
  DefaultPoolID : string }.

#[export] Instance IPv4_eq_dec : EqDecision IPv4.
Proof. solve_decision. Defined.
#[export] Instance Bond_eq_dec : EqDecision Bond.
Proof. solve_decision. Defined.
#[export] Instance Config_eq_dec : EqDecision Config.
Proof. solve_decision. Defined.

Definition DefaultConfig : Config :=
  mkConfig 1 [] [] (mkIPv4 "dhcp" "" "" "") ["1.1.1.1"; "8.8.8.8"] "".

(** [Error]: an RPC error [network.<code>] with its message. *)
Record Error := RPCError { Code : string; Message : string }.
Definition invalid (m : string) : Error := RPCError "network.invalid" m.

Record Adapter := mkAdapter {
  AdName : string; AdMAC : string; PermanentMAC : string; Eligible : bool; Master : string; Up : bool }.
Record Live := mkLive {
  PrimaryAddresses : list string;
  Adapters : list Adapter;
  Addresses : list string;
  Gateways : list string;
  LiveDNS : list string;
  LiveBridgeMAC : string }.
Record Service := mkService { StackID : string; SvcAddress : string; PoolID : string }.
#[export] Instance Service_eq_dec : EqDecision Service.
Proof. solve_decision. Defined.

Record ApplyPayload := mkPayload { PRevision : string; PConfig : Config; Key : string; Actor : string }.

(** ** MAC addresses *)

Definition hex_value (c : ascii) : option Z :=
  let n := Z.of_N (N_of_ascii c) in
  if digit c then Some (n - 48)
  else if in_range_ascii "a" "f" c then Some (n - 87)
  else if in_range_ascii "A" "F" c then Some (n - 55)
  else None.

Definition hex_byte (l : list ascii) : option Z :=
  match l with
  | [a; b] => match hex_value a, hex_value b with Some a, Some b => Some (a * 16 + b) | _, _ => None end
  | _ => None
  end.

(** [net.ParseMAC], as far as it gives six bytes: pairs between colons or
    between dashes, or three groups of four digits between dots. *)
Definition parse_mac (l : list ascii) : option (list Z) :=
  let pairs sep := match split_on sep l with
                   | [_; _; _; _; _; _] as ws => mapM hex_byte ws
                   | _ => None end in
  match pairs ":"%char with
  | Some m => Some m
  | None =>
      match pairs "-"%char with
      | Some m => Some m
      | None =>
          match split_on "." l with
          | [[a; b; c; d]; [e; f; g; h]; [i; j; k; m]] =>
              mapM hex_byte [[a; b]; [c; d]; [e; f]; [g; h]; [i; j]; [k; m]]
          | _ => None
          end
      end
  end.

Definition hex_digit (n : Z) : ascii := ascii_of_N (Z.to_N (if n <? 10 then 48 + n else 87 + n)).

(** [HardwareAddr.String]: lower case, colons. *)
Fixpoint show_mac (m : list Z) : list ascii :=
  match m with
  | [] => []
  | [b] => [hex_digit (b / 16); hex_digit (b mod 16)]
  | b :: m => hex_digit (b / 16) :: hex_digit (b mod 16) :: ":"%char :: show_mac m
  end.

Definition MAC (value : string) : result string string :=
  match parse_mac (chars value) with
  | Some m =>
      if negb (Z.land (hd 0 m) 1 =? 0) || bool_decide (m = [0; 0; 0; 0; 0; 0])
      then Err ("invalid unicast Ethernet MAC " +:+ value)
      else Ok (String.string_of_list_ascii (show_mac m))
  | None => Err ("invalid unicast Ethernet MAC " +:+ value)
  end.

(** ** Address classes of [net/netip] *)

Definition Is4In6 (a : Addr) : bool := match a with V6 v _ => Z.shiftr v 32 =? 65535 | _ => false end.
Definition Unmap (a : Addr) : Addr := match a with V6 v _ => if Is4In6 a then V4 (Z.land v (2 ^ 32 - 1)) else a | _ => a end.

Definition IsLoopback (a : Addr) : bool :=
  match Unmap a with V4 v => Z.shiftr v 24 =? 127 | V6 v _ => v =? 1 | Invalid => false end.
Definition IsMulticast (a : Addr) : bool :=
  match Unmap a with V4 v => Z.shiftr v 28 =? 14 | V6 v _ => Z.shiftr v 120 =? 255 | Invalid => false end.
Definition IsLinkLocalUnicast (a : Addr) : bool :=
  match Unmap a with V4 v => Z.shiftr v 16 =? 43518 | V6 v _ => Z.shiftr v 118 =? 1018 | Invalid => false end.
Definition IsGlobalUnicast (a : Addr) : bool :=
  match a with
  | Invalid => false
  | V4 v => if (v =? 0) || (v =? 2 ^ 32 - 1) then false
            else negb (IsLoopback a) && negb (IsMulticast a) && negb (IsLinkLocalUnicast a)
  | V6 v z => negb (bool_decide (a = V6 0 "")) && negb (IsLoopback a) && negb (IsMulticast a) && negb (IsLinkLocalUnicast a)
  end.

(** [isBroadcast]: all host bits of an IPv4 address set, as 32-bit words. *)
Definition isBroadcast (ip : Addr) (bits : Z) : bool :=
  let value := bits_of ip in
  let hostmask := (2 ^ (32 - bits) - 1) mod 2 ^ 32 in
  Z.land value hostmask =? hostmask.

(** [net.IPMask.Size] of four bytes: the length of a contiguous mask. *)
Definition mask_ones (mask : Z) : option Z :=
  list_find (fun n => mask = 2 ^ 32 - 2 ^ (32 - n)) (Z.of_nat <$> seq 0 33) ≫= (fun '(_, n) => Some n).

Section Validate.
Context `{IPv6Text}.

(** [net.ParseIP(s).To4()]. *)
Definition To4 (s : string) : option Z :=
  match ParseAddr s with
  | Some (V4 v) => Some v
  | Some (V6 v z) => if bool_decide (z = "") && Is4In6 (V6 v z) then Some (Z.land v (2 ^ 32 - 1)) else None
  | _ => None
  end.

(** [IPv4.Prefix] *)
Definition Prefix_of (v : IPv4) : result string Prefix :=
  match ParseAddr (Address v) with
  | Some ip =>
      if negb (Is4 ip) || negb (IsGlobalUnicast ip) then Err "invalid static IPv4 address"
      else match To4 (Netmask v) with
           | None => Err "invalid IPv4 netmask"
           | Some mask =>
               match mask_ones mask with
               | None => Err "netmask must be contiguous /1 through /30"
               | Some ones =>
                   if (ones =? 0) || (30 <? ones) then Err "netmask must be contiguous /1 through /30"
                   else
                     let prefix := mkPrefix ip ones in
                     let base := bits_of (pAddr (Masked prefix)) in
                     let value := bits_of ip in
                     if (value =? base) || (value =? Z.lor base (2 ^ (32 - ones) - 1))
                     then Err "static address cannot be network or broadcast"
                     else Ok prefix
               end
           end
  | None => Err "invalid static IPv4 address"
  end.

(** [bondName]: [^[a-zA-Z][a-zA-Z0-9_-]{0,14}$] *)
Definition bondName (s : string) : bool :=
  match chars s with
  | c :: l => letter c && forallb (fun c => digit c || letter c || Ascii.eqb c "_" || Ascii.eqb c "-") l &&
              (length l <=? 14)%nat
  | [] => false
  end.

(** The loops over MAC addresses: each is normalised and must be new. *)
Fixpoint claim_macs (dup : string) (values : list string) (used : gset string) : result Error (list string * gset string) :=
  match values with
  | [] => Ok ([], used)
  | value :: values =>
      match MAC value with
      | Err e => Err (invalid e)
      | Ok mac =>
          if decide (mac ∈ used) then Err (invalid dup)
          else '(macs, used) ← claim_macs dup values ({[mac]} ∪ used); Ok (mac :: macs, used)
      end
  end.

Fixpoint check_bonds (bonds : list Bond) (names used : gset string) : result Error (list Bond * gset string) :=
  match bonds with
  | [] => Ok ([], used)
  | b :: bonds =>
      if negb (bondName (BondName b)) || bool_decide (BondName b = Bridge) || bool_decide (BondName b ∈ names) ||
         negb (bool_decide (BondMode b = "802.3ad")) || (length (Members b) <? 2)%nat
      then Err (invalid "bond requires a unique interface name, 802.3ad mode and at least two members")
      else
        '(members, used) ← claim_macs "bond members must be unique and cannot be excluded" (Members b) used;
        '(bonds, used) ← check_bonds bonds ({[BondName b]} ∪ names) used;
        Ok (mkBond (BondName b) (BondMode b) members :: bonds, used)
  end.

Definition check_ipv4 (v : IPv4) : result Error unit :=
  if decide (Mode v = "dhcp") then
    if bool_decide (Address v = "") && bool_decide (Netmask v = "") && bool_decide (Gateway v = "") then Ok tt
    else Err (invalid "DHCP cannot specify static addressing")
  else if decide (Mode v = "static") then
    match Prefix_of v with
    | Err e => Err (invalid e)
    | Ok prefix =>
        let bad := Err (invalid "gateway must be a different usable address in the static subnet") in
        match ParseAddr (Gateway v) with
        | None => bad
        | Some gw =>
            if negb (Is4 gw) || negb (IsGlobalUnicast gw) || negb (Contains prefix gw) ||
               bool_decide (gw = pAddr prefix) || bool_decide (gw = pAddr (Masked prefix)) || isBroadcast gw (Bits prefix)
            then bad else Ok tt
        end
    end
  else Err (invalid "ipv4.mode must be dhcp or static").

(** [Compatible]: some IPv4 address on the same subnet. *)
Definition Compatible (cidr : string) (addresses : list string) : bool :=
  match ParsePrefix cidr with
  | None => false
  | Some p => existsb (fun value => match ParsePrefix value with
                                    | Some host => Is4 (pAddr host) && bool_decide (Masked host = Masked p)
                                    | None => false end) addresses
  end.

Definition check_dns (value : string) : bool :=
  match ParseAddr value with Some ip => IsGlobalUnicast ip | None => false end.

(** [strings.ContainsAny(s, "\n\r\x00")] *)
Definition has_control (s : string) : bool :=
  existsb (fun c => let n := N_of_ascii c in (n =? 10)%N || (n =? 13)%N || (n =? 0)%N) (chars s).

Definition Validate (c : Config) : result Error Config :=
  if negb (Version c =? 1) then Err (invalid "unsupported network configuration version")
  else
    '(excluded, used) ← claim_macs "duplicate adapter MAC" (ExcludedMACs c) ∅;
    '(bonds, _) ← check_bonds (Bonds c) ∅ used;
    _ ← check_ipv4 (ConfIPv4 c);
    if negb (forallb check_dns (DNSServers c)) then Err (invalid "invalid DNS server")
    else if has_control (DefaultPoolID c) then Err (invalid "invalid default pool ID")
    else Ok (mkConfig (Version c) excluded bonds (ConfIPv4 c) (DNSServers c) (DefaultPoolID c)).
End Validate.

Open Scope list_scope.

(** ** MAC addresses are normalised *)

Definition byte (b : Z) : Prop := 0 <= b < 256.

Lemma hex_value_range c n : hex_value c = Some n -> 0 <= n < 16.
Proof.
  unfold hex_value, digit, in_range_ascii.
  change (N_of_ascii "0") with 48%N. change (N_of_ascii "9") with 57%N. change (N_of_ascii "a") with 97%N.
  change (N_of_ascii "f") with 102%N. change (N_of_ascii "A") with 65%N. change (N_of_ascii "F") with 70%N.
  repeat match goal with |- context [(?a <=? ?b)%N] => destruct (N.leb_spec a b) end; cbn [andb];
    intros [= <-]; lia.
Qed.

Lemma hex_byte_range l b : hex_byte l = Some b -> byte b.
Proof.
  unfold hex_byte, byte. destruct l as [|x [|y [|]]]; try done.
  destruct (hex_value x) eqn:Hx, (hex_value y) eqn:Hy; try done. intros [= <-].
  apply hex_value_range in Hx, Hy. lia.
Qed.

Lemma mapM_bytes ls m : mapM hex_byte ls = Some m -> Forall byte m /\ length m = length ls.
Proof.
  intros Hm. apply mapM_Some_1 in Hm. split; [|symmetry; by eapply Forall2_length].
  induction Hm as [|l b ls m Hb _ IH]; [done|].
  constructor; [by eapply hex_byte_range|done].
Qed.

Lemma parse_mac_bytes l m : parse_mac l = Some m -> Forall byte m /\ length m = 6%nat.
Proof.
  unfold parse_mac. intros Hm.
  destruct (split_on ":" l) as [|? [|? [|? [|? [|? [|? [|]]]]]]]; cbv zeta in Hm;
    try match type of Hm with context [match mapM hex_byte ?x with Some m => Some m | None => _ end] =>
      destruct (mapM hex_byte x) eqn:E1; [injection Hm as <-; by apply mapM_bytes in E1|] end;
    (destruct (split_on "-" l) as [|? [|? [|? [|? [|? [|? [|]]]]]]];
    try match type of Hm with context [match mapM hex_byte ?x with Some m => Some m | None => _ end] =>
      destruct (mapM hex_byte x) eqn:E2; [injection Hm as <-; by apply mapM_bytes in E2|] end);
    repeat match type of Hm with match ?x with _ => _ end = _ => destruct x; try done end;
    apply mapM_bytes in Hm; done.
Qed.

Lemma hex_byte_show b : byte b ->
  hex_byte [hex_digit (b / 16); hex_digit (b mod 16)] = Some b /\
  hex_digit (b / 16) <> ":"%char /\ hex_digit (b mod 16) <> ":"%char.
Proof.
  intros Hb.
  assert (Hall : forall x, x ∈ (Z.of_nat <$> seq 0 256) ->
    hex_byte [hex_digit (x / 16); hex_digit (x mod 16)] = Some x /\
    hex_digit (x / 16) <> ":"%char /\ hex_digit (x mod 16) <> ":"%char).
  { refine (Forall_decide _ _ _). vm_compute. reflexivity. }
  apply Hall. apply list_elem_of_fmap. exists (Z.to_nat b). rewrite elem_of_seq. unfold byte in Hb. lia.
Qed.

Lemma split_show_mac b c m : byte b ->
  split_on ":" (show_mac (b :: c :: m)) = [hex_digit (b / 16); hex_digit (b mod 16)] :: split_on ":" (show_mac (c :: m)).
Proof.
  intros Hb. destruct (hex_byte_show b Hb) as (_ & H1 & H2).
  change (show_mac (b :: c :: m)) with ([hex_digit (b / 16); hex_digit (b mod 16)] ++ ":"%char :: show_mac (c :: m)).
  rewrite split_on_app; [done|]. rewrite !elem_of_cons, elem_of_nil. intuition congruence.
Qed.

Lemma parse_show_mac m : Forall byte m -> length m = 6%nat -> parse_mac (show_mac m) = Some m.
Proof.
  intros Hb Hl. destruct m as [|a [|b [|c [|d [|e [|f [|]]]]]]]; try done. clear Hl.
  repeat match goal with H : Forall _ (_ :: _) |- _ => apply Forall_cons in H as [? H] end.
  unfold parse_mac. rewrite !split_show_mac by done.
  cbn [show_mac]. rewrite (split_on_none ":" [hex_digit (f / 16); hex_digit (f mod 16)]).
  - erewrite mapM_Some_2; [done|].
    repeat constructor; by apply hex_byte_show.
  - destruct (hex_byte_show f ltac:(done)) as (_ & Hf1 & Hf2). rewrite !elem_of_cons, elem_of_nil. intuition congruence.
Qed.

Lemma MAC_idem v mac : MAC v = Ok mac -> MAC mac = Ok mac.
Proof.
  unfold MAC. destruct (parse_mac (chars v)) as [m|] eqn:Hp; [|done].
  destruct (_ || _) eqn:Hm; [done|]. intros [= <-].
  apply parse_mac_bytes in Hp as [Hb Hl]. unfold chars.
  rewrite String.list_ascii_of_string_of_list_ascii, parse_show_mac by done. by rewrite Hm.
Qed.

(** ** The loops *)

Lemma claim_macs_ok dup vs used macs used' : claim_macs dup vs used = Ok (macs, used') ->
  NoDup macs /\ (forall m, m ∈ macs -> m ∉ used) /\ used' = list_to_set macs ∪ used /\
  length macs = length vs /\ forall dup', claim_macs dup' macs used = Ok (macs, used').
Proof.
  revert used macs used'. induction vs as [|v vs IH]; intros used macs used'; cbn [claim_macs].
  - intros [= <- <-]. split_and!; [constructor|by intros m ?%elem_of_nil|set_solver|done|done].
  - destruct (MAC v) as [mac|e] eqn:Hv; [|done]. destruct (decide (mac ∈ used)) as [|Hn]; [done|].
    destruct (claim_macs dup vs ({[mac]} ∪ used)) as [[macs0 used0]|e] eqn:E; [|done].
    cbn. intros [= <- <-]. apply IH in E as (H1 & H2 & H3 & H4 & H5).
    split_and!.
    + constructor; [|done]. intros Hin. specialize (H2 _ Hin). set_solver.
    + intros m [->|Hin]%elem_of_cons; [done|]. specialize (H2 _ Hin). set_solver.
    + rewrite H3. cbn [list_to_set]. set_solver.
    + cbn. by rewrite H4.
    + intros dup'. cbn [claim_macs]. rewrite (MAC_idem _ _ Hv). rewrite decide_False by done.
      by rewrite H5.
Qed.

Definition bond_macs (bonds : list Bond) : list string := concat (Members <$> bonds).

Lemma check_bonds_ok bonds names used bonds' used' : check_bonds bonds names used = Ok (bonds', used') ->
  NoDup (BondName <$> bonds') /\ (forall b, b ∈ bonds' -> BondName b ∉ names /\ BondName b <> Bridge /\
     BondMode b = "802.3ad" /\ (2 <= length (Members b))%nat) /\
  NoDup (bond_macs bonds') /\ (forall m, m ∈ bond_macs bonds' -> m ∉ used) /\
  check_bonds bonds' names used = Ok (bonds', used').
Proof.
  revert names used bonds' used'. induction bonds as [|b bonds IH]; intros names used bonds' used'; cbn [check_bonds].
  - intros [= <- <-]. split_and!; [by apply NoDup_nil|by intros ? ?%elem_of_nil|by apply NoDup_nil|by intros ? ?%elem_of_nil|done].
  - destruct (negb (bondName _) || _ || _ || _ || _) eqn:Hg; [done|].
    destruct (claim_macs _ (Members b) used) as [[ms used1]|e] eqn:Em; [|done]. cbn [mbind result_mbind].
    destruct (check_bonds bonds _ used1) as [[bs used2]|e] eqn:Eb; [|done]. cbn. intros [= <- <-].
    apply claim_macs_ok in Em as (Hm1 & Hm2 & Hm3 & Hm4 & Hm5).
    apply IH in Eb as (Hb1 & Hb2 & Hb3 & Hb4 & Hb5).
    pose proof (conj Hg I) as Hg'. to_prop. subst used1.
    assert (Hlen : (2 <= length (Members b))%nat) by (by apply Nat.ltb_ge).
    split_and!.
    + cbn. constructor; [|done]. intros (b' & Hn & Hin)%list_elem_of_fmap.
      destruct (Hb2 b' Hin) as (Hnn & _). set_solver.
    + intros b' [->|Hin]%elem_of_cons; cbn; [by rewrite Hm4|].
      destruct (Hb2 b' Hin) as (? & ? & ? & ?). split_and!; try done. set_solver.
    + cbn. apply NoDup_app. split_and!; try done. intros m Hin Hin'. apply (Hb4 m Hin'). set_solver.
    + cbn. intros m [Hin|Hin]%elem_of_app; [by apply Hm2|]. specialize (Hb4 m Hin). set_solver.
    + cbn [check_bonds BondName BondMode Members]. rewrite Hm4, (proj1 Hg'), Hm5. cbn [mbind result_mbind].
      by rewrite Hb5.
Qed.

(** ** Subnets *)

Lemma land_low v n : 0 <= n -> Z.land v (2 ^ n - 1) = v mod 2 ^ n.
Proof. intros Hn. rewrite <- Z.land_ones by done. f_equal. rewrite Z.ones_equiv. lia. Qed.

Lemma lor_block q n : 0 <= n -> Z.lor (q * 2 ^ n) (2 ^ n - 1) = q * 2 ^ n + (2 ^ n - 1).
Proof.
  intros Hn. pose proof (Z.add_lor_land (q * 2 ^ n) (2 ^ n - 1)) as Ha.
  rewrite land_low, Z.mod_mul in Ha by lia. lia.
Qed.

Lemma mask_ones_range m n : mask_ones m = Some n -> 0 <= n <= 32.
Proof.
  unfold mask_ones. destruct (list_find _ _) as [[i x]|] eqn:E; [|done]. intros [= <-].
  apply list_find_Some in E as (Hl & _ & _). rewrite list_lookup_fmap in Hl.
  destruct (seq 0 33 !! i) as [k|] eqn:Ek; [|done]. injection Hl as <-. apply lookup_seq in Ek. lia.
Qed.

(** Being neither the first nor the last address of a block. *)
Lemma usable_mod v n : 0 <= n -> v <> v / 2 ^ n * 2 ^ n -> v mod 2 ^ n <> 2 ^ n - 1 -> 0 < v mod 2 ^ n < 2 ^ n - 1.
Proof.
  intros Hn H1 H2. pose proof (Z.div_mod v (2 ^ n) ltac:(lia)). pose proof (Z.mod_pos_bound v (2 ^ n) ltac:(lia)). lia.
Qed.

Lemma Prefix_of_ok `{IPv6Laws} v p : Prefix_of v = Ok p ->
  exists a n, ParseAddr (Address v) = Some (V4 a) /\ p = mkPrefix (V4 a) n /\ 0 <= a < 2 ^ 32 /\ 1 <= n <= 30 /\
    0 < a mod 2 ^ (32 - n) < 2 ^ (32 - n) - 1.
Proof.
  unfold Prefix_of. destruct (ParseAddr (Address v)) as [ip|] eqn:Ha; [|done].
  destruct (negb (Is4 ip) || _) eqn:H4; [done|]. to_prop.
  destruct ip as [|a|]; [done| |done]. apply ParseAddr_ok in Ha as Hr. cbn [addr_ok] in Hr.
  destruct (To4 (Netmask v)) as [mask|]; [|done]. destruct (mask_ones mask) as [ones|] eqn:Hm; [|done].
  apply mask_ones_range in Hm. destruct ((ones =? 0) || (30 <? ones)) eqn:Ho; [done|]. to_prop.
  rewrite Masked_V4 by lia. cbn [pAddr bits_of].
  destruct ((a =? _) || _) eqn:Hb; [done|]. intros [= <-]. to_prop.
  exists a, ones. split_and!; try done; try lia; rewrite lor_block in * by lia;
    pose proof (Z.div_mod a (2 ^ (32 - ones)) ltac:(lia)); pose proof (Z.mod_pos_bound a (2 ^ (32 - ones)) ltac:(lia)); lia.
Qed.

Lemma Validate_idem `{IPv6Text} c c' : Validate c = Ok c' -> Validate c' = Ok c'.
Proof.
  unfold Validate. destruct (negb (Version c =? 1)) eqn:Hv; [done|].
  destruct (claim_macs "duplicate adapter MAC" (ExcludedMACs c) ∅) as [[ex used]|e] eqn:Eex; [|done].
  cbn [mbind result_mbind].
  destruct (check_bonds (Bonds c) ∅ used) as [[bs used2]|e] eqn:Ebs; [|done]. cbn [mbind result_mbind].
  destruct (check_ipv4 (ConfIPv4 c)) as [[]|e] eqn:E4; [|done]. cbn [mbind result_mbind].
  destruct (negb (forallb check_dns (DNSServers c))) eqn:Hd; [done|].
  destruct (has_control (DefaultPoolID c)) eqn:Hp; [done|]. intros [= <-].
  apply claim_macs_ok in Eex as (_ & _ & _ & _ & Hx5).
  apply check_bonds_ok in Ebs as (_ & _ & _ & _ & Hb5).
  cbn [Version ExcludedMACs Bonds ConfIPv4 DNSServers DefaultPoolID].
  rewrite Hv, Hx5. cbn [mbind result_mbind]. rewrite Hb5. cbn [mbind result_mbind].
  rewrite E4. cbn [mbind result_mbind]. by rewrite Hd, Hp.
Qed.

(** * Properties *)

(** What a static address block amounts to. *)
Definition static_ok `{IPv6Text} (v : IPv4) : Prop :=
  exists ip gw n, ParseAddr (Address v) = Some (V4 ip) /\ ParseAddr (Gateway v) = Some (V4 gw) /\ 1 <= n <= 30 /\
    let block := 2 ^ (32 - n) in
    ip / block = gw / block /\ ip <> gw /\
    0 < ip mod block < block - 1 /\ 0 < gw mod block < block - 1.

(** C39. A validated configuration is in normal form and usable: validating it
    again changes nothing; no adapter is claimed twice, neither excluded nor
    in two bonds; every bond has its own name, the supported mode and two
    members or more; and in static mode host and gateway are different usable
    addresses of one subnet. *)
Theorem Validate_sound `{IPv6Laws} (c c' : Config) (Hc : Validate c = Ok c') :
  Validate c' = Ok c' /\ NoDup (ExcludedMACs c' ++ bond_macs (Bonds c')) /\ NoDup (BondName <$> Bonds c') /\
  (forall b, b ∈ Bonds c' -> BondMode b = "802.3ad" /\ BondName b <> Bridge /\ (2 <= length (Members b))%nat) /\
  (Mode (ConfIPv4 c') = "static" -> static_ok (ConfIPv4 c')).
Proof.
  split; [by eapply Validate_idem|].
  revert Hc. unfold Validate. destruct (negb (Version c =? 1)) eqn:Hv; [done|].
  destruct (claim_macs "duplicate adapter MAC" (ExcludedMACs c) ∅) as [[ex used]|e] eqn:Eex; [|done].
  cbn [mbind result_mbind].
  destruct (check_bonds (Bonds c) ∅ used) as [[bs used2]|e] eqn:Ebs; [|done]. cbn [mbind result_mbind].
  destruct (check_ipv4 (ConfIPv4 c)) as [[]|e] eqn:E4; [|done]. cbn [mbind result_mbind].
  destruct (negb (forallb check_dns (DNSServers c))) eqn:Hd; [done|].
  destruct (has_control (DefaultPoolID c)) eqn:Hp; [done|]. intros [= <-].
  apply claim_macs_ok in Eex as (Hx1 & Hx2 & Hx3 & Hx4 & Hx5).
  apply check_bonds_ok in Ebs as (Hb1 & Hb2 & Hb3 & Hb4 & Hb5).
  cbn [Version ExcludedMACs Bonds ConfIPv4 DNSServers DefaultPoolID]. split_and!; try done.
  - apply NoDup_app. split_and!; try done. intros m Hin Hin'. apply (Hb4 m Hin'). set_solver.
  - intros b Hin. by destruct (Hb2 b Hin) as (_ & ? & ? & ?).
  - intros Hs. unfold check_ipv4 in E4. rewrite Hs, decide_False, decide_True in E4 by done.
    destruct (Prefix_of (ConfIPv4 c)) as [p|e] eqn:Hpre; [|done].
    apply Prefix_of_ok in Hpre as (a & n & Ha & -> & Har & Hn & Hu).
    rewrite Masked_V4 in E4 by lia. cbv zeta in E4. cbn [pAddr Bits] in E4.
    destruct (ParseAddr (Gateway (ConfIPv4 c))) as [gw|] eqn:Hg; [|done].
    destruct (_ || isBroadcast gw _) eqn:Hb; [done|]. to_prop.
    destruct gw as [|g|]; [done| |done]. apply ParseAddr_ok in Hg as Hgr. cbn [addr_ok] in Hgr.
    assert (Hq : a / 2 ^ (32 - n) = g / 2 ^ (32 - n)) by (apply Contains_V4; [lia..|done]).
    cbn [pAddr] in *.
    exists a, g, n. split; [done|]. split; [done|]. split; [done|]. split; [done|].
    split; [congruence|split; [exact Hu|]].
    + apply usable_mod; [lia|rewrite <- Hq; congruence|].
      match goal with H : isBroadcast _ _ = false |- _ => unfold isBroadcast in H; cbn [bits_of] in H;
        apply Z.eqb_neq in H; revert H end.
      rewrite (Z.mod_small (2 ^ (32 - n) - 1)); [rewrite land_low by lia; done|].
      split; [lia|]. assert (2 ^ (32 - n) <= 2 ^ 32) by (apply Z.pow_le_mono_r; lia). lia.
Qed.


(** A static configuration with a bond and an excluded adapter, its MAC
    addresses in three notations. *)
Definition example_config : Config :=
  mkConfig 1 ["02-00-00-00-00-0A"] [mkBond "bond0" "802.3ad" ["0200.0000.0001"; "02:00:00:00:00:02"]]
    (mkIPv4 "static" "192.0.2.10" "255.255.255.0" "192.0.2.1") ["9.9.9.9"] "pool".

Lemma Validate_sound_witness :
  is_ok (Validate example_config) = true /\ NoDup (BondName <$> Bonds example_config) /\
  exists c', Validate example_config = Ok c' /\ Validate c' = Ok c' /\ static_ok (ConfIPv4 c').
Proof.
  split; [vm_compute; reflexivity|]. split; [vm_compute; apply NoDup_singleton|].
  destruct (Validate example_config) as [c'|e] eqn:E; [|vm_compute in E; discriminate E].
  destruct (@Validate_sound bits_ipv6 bits_laws example_config c' E) as (Hi & _ & _ & _ & Hs).
  exists c'. split; [reflexivity|]. split; [exact Hi|]. apply Hs.
  vm_compute in E. injection E as <-. reflexivity.
Defined.
