(* ===== verification/Ipam.v ===== *)
(** Address pools and allocations: [src/internal/ipam] (pools.go, hosts.go,
    allocator.go), with the tables, constraints and triggers of
    [src/pkg/rqlite/migrations.go] and [src/pkg/config/migrations.go].

    The database runs each batch of statements as a transaction.  Between two
    database calls other clients may write ([interfere]), and a call may fail
    before or after its commit ([io]). *)
From S2P Require Import Prelude Release Netip HostConfig.
From Stdlib Require Import Ascii.

Open Scope string_scope.
Open Scope Z_scope.

(** ** Pools *)

Record Pool := mkPool {
  ID : string; Name : string; CIDR : string; StartIP : string; EndIP : string; Default : bool;
  NodeIDs : list string; MembershipResolved : bool; CreatedAt : Z; UpdatedAt : Z }.

Definition containsNode (nodes : list string) (node : string) : bool := bool_decide (node ∈ nodes).

Fixpoint members_loop (nodes : list string) (seen : gset string) : result string unit :=
  match nodes with
  | [] => Ok tt
  | node :: nodes =>
      if bool_decide (node = "") || bool_decide (node ∈ seen)
      then Err "ipam: member nodes must be nonempty and unique"
      else members_loop nodes ({[node]} ∪ seen)
  end.
Definition ValidateMembers (nodes : list string) : result string unit :=
  if bool_decide (nodes = []) then Err "ipam: at least one member node is required" else members_loop nodes ∅.

Definition Member (pool : Pool) (node : string) : bool := MembershipResolved pool && containsNode (NodeIDs pool) node.

(** [lastAddress], on 32-bit words: shifting a [uint32] by 32 gives zero. *)
Definition lastAddress (prefix : Prefix) : Addr :=
  let bits := 32 - Bits prefix in
  let ones := (Z.shiftl 1 bits mod 2 ^ 32 - 1) mod 2 ^ 32 in
  V4 (Z.lor (bits_of (pAddr prefix)) ones).

Section Pools.
Context `{IPv6Text}.

(** An address that does not parse is the zero value where the error is
    discarded. *)
Definition addr_or_zero (s : string) : Addr := default Invalid (ParseAddr s).

Definition ValidatePool (pool : Pool) : result string unit :=
  match ParsePrefix (CIDR pool) with
  | Some prefix =>
      if negb (Is4 (pAddr prefix)) || negb (bool_decide (prefix = Masked prefix))
      then Err "ipam: cidr must be a canonical IPv4 prefix"
      else match ParseAddr (StartIP pool), ParseAddr (EndIP pool) with
           | Some start, Some end_ =>
               if bool_decide (Name pool = "") || negb (Is4 start) || negb (Is4 end_) ||
                  negb (Contains prefix start) || negb (Contains prefix end_) || addr_ltb end_ start
               then Err "ipam: invalid pool range"
               else if bool_decide (start = pAddr prefix) || bool_decide (end_ = lastAddress prefix)
               then Err "ipam: range cannot contain network or broadcast address"
               else Ok tt
           | _, _ => Err "ipam: invalid pool range"
           end
  | None => Err "ipam: cidr must be a canonical IPv4 prefix"
  end.

(** [outsideRange] and [ValidateHostRange]: the hosts' own addresses. *)
Definition outsideRange (addresses : list string) (pool : Pool) : bool :=
  match ParseAddr (StartIP pool), ParseAddr (EndIP pool) with
  | Some start, Some end_ =>
      forallb (fun value =>
        match ParsePrefix value with
        | None => false
        | Some p => let ip := pAddr p in negb (Is4 ip && addr_leb start ip && addr_leb ip end_)
        end) addresses
  | _, _ => false
  end.

Definition ValidateHostRange (pool : Pool) (addresses gateways : list string) : result string unit :=
  if negb (outsideRange addresses pool) then Err "ipam: pool range includes a host LAN address"
  else if forallb (fun gateway => outsideRange [gateway +:+ "/32"] pool) gateways then Ok tt
  else Err "ipam: pool range includes a gateway".

(** What [net.settings.get] answers for a node: the live network and whether a
    change is outstanding. *)
Definition Eligible (host_status : string -> option (Live * bool)) (pool : Pool) (node : string) : result string unit :=
  if negb (Member pool node) then Err ("ipam: node " +:+ node +:+ " is not an eligible member of pool " +:+ Name pool)
  else match host_status node with
       | None => Err "host status"
       | Some (live, change) =>
           if (change : bool) then Err "ipam: node has an outstanding network change"
           else if negb (Compatible (CIDR pool) (PrimaryAddresses live))
           then Err ("ipam: pool " +:+ Name pool +:+ " does not match node LAN subnet")
           else ValidateHostRange pool (PrimaryAddresses live) (Gateways live)
       end.

Fixpoint eligible_all (host_status : string -> option (Live * bool)) (known : string -> bool) (pool : Pool)
    (nodes : list string) : result string unit :=
  match nodes with
  | [] => Ok tt
  | node :: nodes =>
      if negb (known node) then Err "node not found"
      else _ ← Eligible host_status pool node; eligible_all host_status known pool nodes
  end.

Definition ValidateHosts (host_status : string -> option (Live * bool)) (known : string -> bool) (pool : Pool) : result string unit :=
  _ ← ValidateMembers (NodeIDs pool);
    let pool := mkPool (ID pool) (Name pool) (CIDR pool) (StartIP pool) (EndIP pool) (Default pool) (NodeIDs pool)
                  true (CreatedAt pool) (UpdatedAt pool) in
    eligible_all host_status known pool (NodeIDs pool).
End Pools.

(** [SelectPool]: the first pool that is named, or is the host's default when
    no name is given, decides. *)
Fixpoint SelectPool (pools : list Pool) (name defaultID node : string) : result string Pool :=
  match pools with
  | [] => Err "ipam: no eligible named or host-default network pool"
  | pool :: pools =>
      if (negb (bool_decide (name = "")) && bool_decide (Name pool = name)) ||
         (bool_decide (name = "") && negb (bool_decide (defaultID = "")) && bool_decide (ID pool = defaultID))
      then if Member pool node then Ok pool else Err ("ipam: selected pool is not eligible for node " +:+ node)
      else SelectPool pools name defaultID node
  end.

(** ** Tables *)

Record PoolRow := mkPoolRow {
  pr_name : string; pr_cidr : string; pr_start : string; pr_end : string; pr_default : bool;
  pr_created : Z; pr_updated : Z }.
Record Range := mkRange { rg_start : Z; rg_end : Z; rg_owner : string }.
Record Alloc := mkAlloc { al_pool : string; al_stack : string; al_address : string; al_active : bool }.
Record Runtime := mkRuntime {
  rt_ip : option string; rt_pool : option string; rt_node : string; rt_deleted : bool }.
Record Reservation := mkReservation { rs_stack : string; rs_service : string; rs_address : string; rs_prefix : string }.

Record DB := mkDB {
  pools : gmap string PoolRow;
  pool_nodes : gset (string * string);
  scope : gmap string bool;
  ranges : gmap string Range;
  allocs : gmap string Alloc;
  runtime : gmap string Runtime;
  reservations : gmap string Reservation;
  outbox : list (string * string) }.

Definition set_pools x d := mkDB x (pool_nodes d) (scope d) (ranges d) (allocs d) (runtime d) (reservations d) (outbox d).
Definition set_nodes x d := mkDB (pools d) x (scope d) (ranges d) (allocs d) (runtime d) (reservations d) (outbox d).
Definition set_scope x d := mkDB (pools d) (pool_nodes d) x (ranges d) (allocs d) (runtime d) (reservations d) (outbox d).
Definition set_ranges x d := mkDB (pools d) (pool_nodes d) (scope d) x (allocs d) (runtime d) (reservations d) (outbox d).
Definition set_allocs x d := mkDB (pools d) (pool_nodes d) (scope d) (ranges d) x (runtime d) (reservations d) (outbox d).
Definition set_runtime x d := mkDB (pools d) (pool_nodes d) (scope d) (ranges d) (allocs d) x (reservations d) (outbox d).
Definition set_reservations x d := mkDB (pools d) (pool_nodes d) (scope d) (ranges d) (allocs d) (runtime d) x (outbox d).
Definition set_outbox x d := mkDB (pools d) (pool_nodes d) (scope d) (ranges d) (allocs d) (runtime d) (reservations d) x.

(** Some row satisfies a test. *)
Definition any {A} (f : string -> A -> bool) (t : gmap string A) : bool :=
  existsb (fun '(k, v) => f k v) (map_to_list t).

(** A statement: [None] when a constraint or a trigger aborts it. *)
Definition stmt := DB -> option DB.
Fixpoint batch (l : list stmt) : stmt := fun d =>
  match l with [] => Some d | s :: l => d' ← s d; batch l d' end.

(** *** Statements on pools *)

(** The overlap test of both triggers on [node_pool_ranges]. *)
Definition range_overlaps (id : string) (start end_ : Z) (d : DB) : bool :=
  any (fun k r => negb (bool_decide (k = id)) && (rg_start r <=? end_) && (start <=? rg_end r)) (ranges d).

Definition upsert_range (id : string) (start end_ : Z) (owner : string) : stmt := fun d =>
  if range_overlaps id start end_ d || (end_ <? start) then None
  else match ranges d !! id with
       | None => Some (set_ranges (<[id := mkRange start end_ owner]> (ranges d)) d)
       | Some old =>
           let start := Z.min (rg_start old) start in
           let end_ := Z.max (rg_end old) end_ in
           if negb (bool_decide (rg_owner old = owner)) || range_overlaps id start end_ d || (end_ <? start) then None
           else Some (set_ranges (<[id := mkRange start end_ owner]> (ranges d)) d)
       end.

(** The migration's insert: [ON CONFLICT(pool_id) DO NOTHING]. *)
Definition migrate_range (id : string) (start end_ : Z) (owner : string) : stmt := fun d =>
  if range_overlaps id start end_ d || (end_ <? start) then None
  else match ranges d !! id with
       | None => Some (set_ranges (<[id := mkRange start end_ owner]> (ranges d)) d)
       | Some _ => Some d
       end.

Definition upsert_pool (p : Pool) : stmt := fun d =>
  if any (fun k r => negb (bool_decide (k = ID p)) && bool_decide (pr_name r = Name p)) (pools d) then None
  else
    let created := match pools d !! ID p with Some r => pr_created r | None => CreatedAt p end in
    Some (set_pools (<[ID p := mkPoolRow (Name p) (CIDR p) (StartIP p) (EndIP p) (Default p) created (UpdatedAt p)]>
                       (pools d)) d).

Definition clear_nodes (id : string) : stmt := fun d =>
  Some (set_nodes (filter (fun x => x.1 <> id) (pool_nodes d)) d).
Definition resolve_scope (id : string) : stmt := fun d => Some (set_scope (<[id := true]> (scope d)) d).
Definition insert_node (id node : string) : stmt := fun d =>
  if decide ((id, node) ∈ pool_nodes d) then None else Some (set_nodes ({[(id, node)]} ∪ pool_nodes d) d).

Definition has_alloc (id : string) (d : DB) : bool := any (fun _ a => bool_decide (al_pool a = id)) (allocs d).
Definition delete_pool (id : string) : stmt := fun d =>
  if has_alloc id d then Some d else Some (set_pools (delete id (pools d)) d).
Definition delete_orphan_nodes (id : string) : stmt := fun d =>
  match pools d !! id with
  | Some _ => Some d
  | None => Some (set_nodes (filter (fun x => x.1 <> id) (pool_nodes d)) d) end.
Definition delete_orphan_scope (id : string) : stmt := fun d =>
  match pools d !! id with Some _ => Some d | None => Some (set_scope (delete id (scope d)) d) end.

(** *** Statements on allocations *)

Definition insert_alloc (id : string) (a : Alloc) : stmt := fun d =>
  if bool_decide (is_Some (allocs d !! id)) ||
     any (fun _ b => bool_decide (al_stack b = al_stack a) ||
                     (bool_decide (al_pool b = al_pool a) && bool_decide (al_address b = al_address a))) (allocs d)
  then None else Some (set_allocs (<[id := a]> (allocs d)) d).
Definition activate_alloc (stack : string) : stmt := fun d =>
  Some (set_allocs ((fun a => if decide (al_stack a = stack) then mkAlloc (al_pool a) (al_stack a) (al_address a) true else a)
                      <$> allocs d) d).
Definition announce_alloc (stack : string) : stmt := fun d =>
  let rows := filter (fun x => al_stack x.2 = stack) (map_to_list (allocs d)) in
  Some (set_outbox (outbox d ++ ((fun x => (al_stack x.2, al_address x.2)) <$> rows))%list d).
Definition delete_alloc (stack : string) : stmt := fun d =>
  Some (set_allocs (filter (fun x => al_stack x.2 <> stack) (allocs d)) d).
Definition clear_runtime (stack : string) : stmt := fun d =>
  Some (set_runtime (alter (fun r => mkRuntime None None (rt_node r) (rt_deleted r)) stack (runtime d)) d).

(** *** Statements on prefix reservations *)

Definition insert_reservation (id : string) (r : Reservation) : stmt := fun d =>
  if bool_decide (is_Some (reservations d !! id)) ||
     any (fun _ b => bool_decide (rs_address b = rs_address r)) (reservations d) then None
  else Some (set_reservations (<[id := r]> (reservations d)) d).
Definition delete_reservations (stack : string) (service : option string) : stmt := fun d =>
  let hit (r : Reservation) := bool_decide (rs_stack r = stack) &&
    match service with Some s => bool_decide (rs_service r = s) | None => true end in
  Some (set_reservations (filter (fun x => hit x.2 = false) (reservations d)) d).

(** ** The client's view: queries, transactions, other writers *)

Inductive outcome := Fine | LostBefore | LostAfter.

Class IpamEnv := {
  io : nat -> outcome;
  interfere : nat -> DB -> DB;
  newID : nat -> string;
  clock : nat -> Z }.

Record W := mkW { db : DB; tick : nat }.
Abbreviation cmd := (prog string W).

Section Client.
Context `{IPv6Text} `{IpamEnv}.

Definition query {A} (q : DB -> A) : cmd A := fun w =>
  let d := interfere (tick w) (db w) in
  (match io (tick w) with Fine => Ok (q d) | _ => Err "rqlite: query" end, mkW d (S (tick w))).

Definition Execute (s : stmt) : cmd unit := fun w =>
  let d := interfere (tick w) (db w) in
  match io (tick w), s d with
  | LostBefore, _ => (Err "rqlite: connection", mkW d (S (tick w)))
  | _, None => (Err "rqlite: execute error", mkW d (S (tick w)))
  | Fine, Some d' => (Ok tt, mkW d' (S (tick w)))
  | LostAfter, Some d' => (Err "rqlite: connection", mkW d' (S (tick w)))
  end.

Definition fresh : cmd string := fun w => (Ok (newID (tick w)), w).
Definition Now : cmd Z := fun w => (Ok (clock (tick w)), w).

(** [ListPools] *)
Definition row_le (a b : string * PoolRow) : Prop := bytes_ltb (chars (pr_name b.2)) (chars (pr_name a.2)) = false.
#[export] Instance row_le_dec : RelDecision row_le.
Proof. intros a b. unfold row_le. apply _. Defined.

Definition nodes_of (d : DB) (id : string) : list string :=
  (fun x => x.2) <$> filter (fun x => x.1 = id) (elements (pool_nodes d)).
Definition to_pool (d : DB) (x : string * PoolRow) : Pool :=
  let '(id, r) := x in
  mkPool id (pr_name r) (pr_cidr r) (pr_start r) (pr_end r) (pr_default r) (nodes_of d id)
    (default false (scope d !! id)) (pr_created r) (pr_updated r).
Definition list_pools (d : DB) : list Pool := to_pool d <$> merge_sort row_le (map_to_list (pools d)).
Definition ListPools : cmd (list Pool) := query list_pools.

(** The overlap test of [savePool]. *)
Definition overlaps (pool existing : Pool) : bool :=
  let shared := negb (MembershipResolved existing) || existsb (containsNode (NodeIDs existing)) (NodeIDs pool) in
  negb (bool_decide (ID existing = ID pool)) && shared &&
  addr_leb (addr_or_zero (StartIP pool)) (addr_or_zero (EndIP existing)) &&
  addr_leb (addr_or_zero (StartIP existing)) (addr_or_zero (EndIP pool)).

(** The hosts that run stacks with an address of the pool. *)
Definition active_hosts (id : string) (d : DB) : list string :=
  remove_dups ((fun x => rt_node x.2) <$>
    filter (fun x => rt_pool x.2 = Some id /\ is_Some (rt_ip x.2) /\ rt_deleted x.2 = false) (map_to_list (runtime d))).
Definition addresses_of (id : string) (d : DB) : list string :=
  (fun x => al_address x.2) <$> filter (fun x => al_pool x.2 = id) (map_to_list (allocs d)).

Definition in_new_range (pool : Pool) (value : string) : bool :=
  match ParsePrefix (CIDR pool), ParseAddr value with
  | Some wanted, Some address => Contains wanted address && addr_leb (addr_or_zero (StartIP pool)) address &&
                                 addr_leb address (addr_or_zero (EndIP pool))
  | _, _ => false
  end.

Definition save_batch (pool : Pool) (node : string) : stmt :=
  batch ((if decide (node = "") then []
          else [upsert_range (ID pool) (bits_of (addr_or_zero (StartIP pool))) (bits_of (addr_or_zero (EndIP pool))) node]) ++
         [upsert_pool pool; clear_nodes (ID pool); resolve_scope (ID pool)] ++
         (insert_node (ID pool) <$> NodeIDs pool))%list.

Definition savePool (pool : Pool) (node : string) : cmd Pool :=
  of_result (ValidateMembers (NodeIDs pool));;
  let pool := mkPool (ID pool) (Name pool) (CIDR pool) (StartIP pool) (EndIP pool) false (NodeIDs pool) true
                (CreatedAt pool) (UpdatedAt pool) in
  of_result (ValidatePool pool);;
  existing ← ListPools;
  if existsb (overlaps pool) existing then fail "ipam: pool overlaps"
  else
    (if decide (ID pool = "") then ret tt
     else
       hosts ← query (active_hosts (ID pool));
       if negb (forallb (containsNode (NodeIDs pool)) hosts)
       then fail "ipam: pool update would remove active allocation host"
       else
         addresses ← query (addresses_of (ID pool));
         if negb (forallb (in_new_range pool) addresses)
         then fail "ipam: pool update would exclude active allocation"
         else ret tt);;
    now ← Now;
    id ← fresh;
    let new := bool_decide (ID pool = "") in
    let pool := mkPool (if new then id else ID pool) (Name pool) (CIDR pool) (StartIP pool) (EndIP pool) false
                  (NodeIDs pool) true (if new then now else CreatedAt pool) now in
    Execute (save_batch pool node);;
    ret pool.

Definition SavePool (pool : Pool) : cmd Pool := savePool pool "".
Definition SaveNodePool (pool : Pool) (node : string) : cmd Pool :=
  if bool_decide (node = "") || negb (bool_decide (NodeIDs pool = [node]))
  then fail "ipam: node range requires one matching owner"
  else savePool pool node.

Definition delete_batch (id : string) : stmt := batch [delete_pool id; delete_orphan_nodes id; delete_orphan_scope id].
Definition DeletePool (id : string) : cmd unit :=
  used ← query (has_alloc id);
  if (used : bool) then fail "ipam: network pool has active allocations" else Execute (delete_batch id).

(** [AllocateIPv4]: the walk over the range; [None] would be running out of
    fuel before the end of the range. *)
Definition taken_of (id : string) (d : DB) : gset (option Addr) :=
  list_to_set (ParseAddr <$> addresses_of id d).

Fixpoint alloc_loop (fuel : nat) (pool : Pool) (stackID : string) (taken : gset (option Addr)) (address end_ : Addr)
    : cmd (option string) :=
  match fuel with
  | O => ret None
  | S fuel =>
      if negb (addr_leb address end_) then fail "ipam: pool exhausted"
      else if bool_decide (Some address ∈ taken) then alloc_loop fuel pool stackID taken (Next address) end_
      else
        id ← fresh;
        r ← attempt (Execute (insert_alloc id (mkAlloc (ID pool) stackID (AddrString address) false)));
        match r with
        | Ok _ => ret (Some (AddrString address))
        | Err _ => alloc_loop fuel pool stackID taken (Next address) end_
        end
  end.

Definition range_size (start end_ : Addr) : nat := Z.to_nat (bits_of end_ - bits_of start + 2).

Definition AllocateIPv4 (pool : Pool) (stackID : string) : cmd (option string) :=
  if negb (MembershipResolved pool) || bool_decide (NodeIDs pool = [])
  then fail "ipam: pool membership requires administrator correction"
  else
    of_result (ValidatePool pool);;
    taken ← query (taken_of (ID pool));
    let start := addr_or_zero (StartIP pool) in
    let end_ := addr_or_zero (EndIP pool) in
    alloc_loop (range_size start end_) pool stackID taken start end_.

Definition ActivateIPv4 (stackID : string) : cmd unit := Execute (batch [activate_alloc stackID; announce_alloc stackID]).
Definition ReleaseIPv4 (stackID : string) : cmd unit := Execute (batch [delete_alloc stackID; clear_runtime stackID]).

(** [Allocate]: the first free address of a prefix, with the fuel the number
    of reservations needs. *)
Fixpoint find_free (fuel : nat) (prefix : Prefix) (taken : gset Addr) (addr : Addr) : option (result string Addr) :=
  match fuel with
  | O => None
  | S fuel =>
      if negb (Contains prefix addr) then Some (Err "ipam: prefix is exhausted")
      else if bool_decide (addr ∈ taken) then find_free fuel prefix taken (Next addr)
      else Some (Ok addr)
  end.

Definition reserved_in (networkPrefix : string) (d : DB) : gset Addr :=
  list_to_set (omap (fun x => pAddr <$> ParsePrefix (rs_address x.2))
    (filter (fun x => rs_prefix x.2 = networkPrefix) (map_to_list (reservations d)))).

Definition Allocate (networkPrefix stackID service : string) : cmd (option string) :=
  match ParsePrefix networkPrefix with
  | None => fail "ipam: parse prefix"
  | Some prefix =>
      let prefix := Masked prefix in
      taken ← query (reserved_in networkPrefix);
      match find_free (S (size taken)) prefix taken (Next (pAddr prefix)) with
      | None => ret None
      | Some (Err e) => fail e
      | Some (Ok addr) =>
          let cidr := PrefixString addr (Bits prefix) in
          id ← fresh;
          Execute (insert_reservation id (mkReservation stackID service cidr networkPrefix));;
          ret (Some cidr)
      end
  end.

Definition Release (stackID service : string) : cmd unit := Execute (delete_reservations stackID (Some service)).
Definition ReleaseAll (stackID : string) : cmd unit := Execute (delete_reservations stackID None).
End Client.
