(* ===== verification/IpamSafety.v ===== *)
(** What the address manager of [Ipam.v] guarantees: usable ranges, disjoint
    reservations whatever the interleaving of clients, one owner per address. *)
From S2P Require Import Prelude Release Netip HostConfig Ipam.
From Stdlib Require Import Ascii.

Open Scope string_scope.
Open Scope list_scope.
Open Scope Z_scope.

(** ** Tables *)

Lemma any_true {A} (f : string -> A -> bool) (t : gmap string A) :
  any f t = true <-> exists k v, t !! k = Some v /\ f k v = true.
Proof.
  unfold any. rewrite existsb_exists. split.
  - intros ([k v] & Hin & Hf). exists k, v. split; [|done].
    by apply elem_of_map_to_list, list_elem_of_In.
  - intros (k & v & Hk & Hf). exists (k, v). split; [|done].
    by apply list_elem_of_In, elem_of_map_to_list.
Qed.

Lemma any_false {A} (f : string -> A -> bool) (t : gmap string A) :
  any f t = false <-> forall k v, t !! k = Some v -> f k v = false.
Proof.
  split.
  - intros Ha k v Hk. destruct (f k v) eqn:E; [|done].
    assert (any f t = true) by (apply any_true; eauto). congruence.
  - intros Hall. destruct (any f t) eqn:E; [|done].
    apply any_true in E as (k & v & Hk & Hf). rewrite (Hall k v Hk) in Hf. done.
Qed.

(** ** Node reservations *)

Definition apart (a b : Range) : Prop := rg_end a < rg_start b \/ rg_end b < rg_start a.

Definition ranges_ok (t : gmap string Range) : Prop :=
  (forall i r, t !! i = Some r -> rg_start r <= rg_end r) /\
  (forall i j r q, i <> j -> t !! i = Some r -> t !! j = Some q -> apart r q).

(** A reservation only grows, and never changes hands. *)
Definition keeps (t t' : gmap string Range) : Prop :=
  forall i r, t !! i = Some r -> exists q, t' !! i = Some q /\
    rg_owner q = rg_owner r /\ rg_start q <= rg_start r /\ rg_end r <= rg_end q.

Lemma keeps_refl t : keeps t t.
Proof. intros i r Hi. exists r. split_and!; try done; lia. Qed.

Lemma keeps_trans t1 t2 t3 : keeps t1 t2 -> keeps t2 t3 -> keeps t1 t3.
Proof.
  intros H1 H2 i r Hi. destruct (H1 i r Hi) as (q & Hq & ? & ? & ?).
  destruct (H2 i q Hq) as (p & Hp & ? & ? & ?). exists p. split_and!; try done; [congruence|lia..].
Qed.

Lemma range_overlaps_false id s e d : range_overlaps id s e d = false ->
  forall j q, j <> id -> ranges d !! j = Some q -> rg_end q < s \/ e < rg_start q.
Proof.
  unfold range_overlaps. rewrite any_false. intros Ho j q Hj Hq. specialize (Ho j q Hq).
  rewrite bool_decide_eq_false_2 in Ho by done. cbn in Ho.
  apply andb_false_iff in Ho as [Ho|Ho]; [right|left]; apply Z.leb_gt in Ho; lia.
Qed.

Lemma insert_range_ok d id s e o :
  ranges_ok (ranges d) -> range_overlaps id s e d = false -> s <= e ->
  ranges_ok (<[id := mkRange s e o]> (ranges d)).
Proof.
  intros [H1 H2] Ho Hse. pose proof (range_overlaps_false _ _ _ _ Ho) as Hap. split.
  - intros i r. destruct (decide (i = id)) as [->|Hi].
    + rewrite lookup_insert_eq. by intros [= <-].
    + rewrite lookup_insert_ne by done. apply H1.
  - intros i j r q Hij. destruct (decide (i = id)) as [->|Hi], (decide (j = id)) as [->|Hj]; [done|..].
    + rewrite lookup_insert_eq, lookup_insert_ne by done. intros [= <-] Hq.
      destruct (Hap j q Hj Hq); [right|left]; done.
    + rewrite lookup_insert_eq, lookup_insert_ne by done. intros Hr [= <-].
      destruct (Hap i r Hi Hr); [left|right]; done.
    + rewrite !lookup_insert_ne by done. by apply H2.
Qed.

Lemma insert_range_keeps (t : gmap string Range) id s e o :
  (forall r, t !! id = Some r -> rg_owner r = o /\ s <= rg_start r /\ rg_end r <= e) ->
  keeps t (<[id := mkRange s e o]> t).
Proof.
  intros Hr i r Hi. destruct (decide (i = id)) as [->|Hne].
  - rewrite lookup_insert_eq. eexists. split; [done|]. cbn. destruct (Hr r Hi) as (<- & ? & ?). done.
  - rewrite lookup_insert_ne by done. exists r. split_and!; try done; lia.
Qed.

(** What every statement owes the reservations. *)
Definition respects (s : stmt) : Prop := forall d d',
  s d = Some d' -> ranges_ok (ranges d) -> ranges_ok (ranges d') /\ keeps (ranges d) (ranges d').

Lemma respects_same (s : stmt) : (forall d d', s d = Some d' -> ranges d' = ranges d) -> respects s.
Proof. intros Hs d d' Hd Hok. rewrite (Hs d d' Hd). by split; [|apply keeps_refl]. Qed.

Lemma respects_batch l : Forall respects l -> respects (batch l).
Proof.
  induction 1 as [|s l Hs _ IH]; intros d d'; cbn [batch].
  - intros [= <-] Hok. by split; [|apply keeps_refl].
  - destruct (s d) as [d1|] eqn:E; cbn; [|done]. intros Hd Hok.
    destruct (Hs d d1 E Hok) as [Hok1 Hk1]. destruct (IH d1 d' Hd Hok1) as [? ?].
    split; [done|]. by eapply keeps_trans.
Qed.

Lemma upsert_range_respects id s e o : respects (upsert_range id s e o).
Proof.
  intros d d'. unfold upsert_range. destruct (range_overlaps id s e d || (e <? s)) eqn:E1; [done|]. to_prop.
  destruct (ranges d !! id) as [old|] eqn:Hid.
  - destruct (_ || _) eqn:E2; [done|]. to_prop. intros [= <-] Hok. cbn. split.
    + by apply insert_range_ok.
    + apply insert_range_keeps. intros r Hr. rewrite Hid in Hr. injection Hr as <-. split; [done|lia].
  - intros [= <-] Hok. cbn. split; [by apply insert_range_ok|].
    apply insert_range_keeps. intros r Hr. congruence.
Qed.

Lemma migrate_range_respects id s e o : respects (migrate_range id s e o).
Proof.
  intros d d'. unfold migrate_range. destruct (_ || _) eqn:E1; [done|]. to_prop.
  destruct (ranges d !! id) as [old|] eqn:Hid; intros [= <-] Hok; cbn.
  - by split; [|apply keeps_refl].
  - split; [by apply insert_range_ok|]. apply insert_range_keeps. intros r Hr. congruence.
Qed.

Create HintDb respects discriminated.
#[export] Hint Resolve upsert_range_respects migrate_range_respects respects_batch : respects.

(** The statements that leave the reservations alone. *)
Ltac untouched := apply respects_same; intros d d'; unfold upsert_pool, clear_nodes, resolve_scope, insert_node,
  delete_pool, delete_orphan_nodes, delete_orphan_scope, insert_alloc, activate_alloc, announce_alloc, delete_alloc,
  clear_runtime, insert_reservation, delete_reservations; intros Hd; repeat case_match; simplify_eq/=; done.

Lemma save_batch_respects `{IPv6Text} p node : respects (save_batch p node).
Proof.
  apply respects_batch. rewrite !Forall_app. split_and!.
  - destruct (decide _); [done|]. apply Forall_singleton. apply upsert_range_respects.
  - rewrite !Forall_cons. split_and!; [untouched..|done].
  - apply Forall_forall. intros s (n & -> & _)%list_elem_of_fmap. untouched.
Qed.

Lemma delete_batch_respects id : respects (delete_batch id).
Proof. apply respects_batch. rewrite !Forall_cons. split_and!; [untouched..|done]. Qed.

(** Every transaction the package can issue. *)
Inductive transaction `{IPv6Text} : stmt -> Prop :=
| tx_save p node : transaction (save_batch p node)
| tx_delete id : transaction (delete_batch id)
| tx_migrate l : transaction (batch ((fun x => migrate_range x.1.1.1 x.1.1.2 x.1.2 x.2) <$> l))
| tx_allocate id a : transaction (insert_alloc id a)
| tx_activate s : transaction (batch [activate_alloc s; announce_alloc s])
| tx_release s : transaction (batch [delete_alloc s; clear_runtime s])
| tx_reserve id r : transaction (insert_reservation id r)
| tx_unreserve s o : transaction (delete_reservations s o).

Lemma transaction_respects `{IPv6Text} s : transaction s -> respects s.
Proof.
  destruct 1; try untouched; auto using save_batch_respects, delete_batch_respects.
  - apply respects_batch, Forall_forall. intros s (x & -> & _)%list_elem_of_fmap. apply migrate_range_respects.
Qed.

Definition db_step `{IPv6Text} (d d' : DB) : Prop := exists s, transaction s /\ s d = Some d'.

(** ** Allocations *)

Definition allocs_ok (t : gmap string Alloc) : Prop :=
  forall i j a b, i <> j -> t !! i = Some a -> t !! j = Some b ->
    al_stack a <> al_stack b /\ ~ (al_pool a = al_pool b /\ al_address a = al_address b).

Lemma insert_alloc_ok id a d d' : insert_alloc id a d = Some d' -> allocs_ok (allocs d) ->
  allocs_ok (allocs d') /\ allocs d' = <[id := a]> (allocs d).
Proof.
  unfold insert_alloc. destruct (_ || _) eqn:E; [done|]. intros [= <-] Hok. cbn. split; [|done].
  apply orb_false_iff in E as [E1 E2]. apply bool_decide_eq_false in E1. rewrite any_false in E2.
  assert (Hb : forall j b, allocs d !! j = Some b -> al_stack b <> al_stack a /\ ~ (al_pool b = al_pool a /\ al_address b = al_address a)).
  { intros j b Hj. specialize (E2 j b Hj). apply orb_false_iff in E2 as [Ha Hc]. apply bool_decide_eq_false in Ha.
    split; [done|]. intros [? ?]. by rewrite !bool_decide_eq_true_2 in Hc. }
  intros i j x y Hij. destruct (decide (i = id)) as [->|Hi], (decide (j = id)) as [->|Hj]; [done|..].
  - rewrite lookup_insert_eq, lookup_insert_ne by done. intros [= <-] Hy.
    destruct (Hb j y Hy). naive_solver.
  - rewrite lookup_insert_eq, lookup_insert_ne by done. intros Hx [= <-]. by destruct (Hb i x Hx).
  - rewrite !lookup_insert_ne by done. by apply Hok.
Qed.

Lemma filter_allocs_ok (P : string * Alloc -> Prop) `{!forall x, Decision (P x)} t : allocs_ok t -> allocs_ok (filter P t).
Proof.
  intros Hok i j a b Hij Ha Hb. apply map_lookup_filter_Some in Ha as [Ha _], Hb as [Hb _]. by eapply (Hok i j).
Qed.

Lemma activate_allocs_ok s t :
  allocs_ok t -> allocs_ok ((fun a => if decide (al_stack a = s) then mkAlloc (al_pool a) (al_stack a) (al_address a) true else a) <$> t).
Proof.
  intros Hok i j a b Hij. rewrite !lookup_fmap.
  destruct (t !! i) as [x|] eqn:Hx, (t !! j) as [y|] eqn:Hy; cbn; try done.
  intros [= <-] [= <-]. destruct (Hok i j x y Hij Hx Hy). by do 2 case_decide.
Qed.

(** Statements that leave the allocations alone, and their batches. *)
Definition keeps_allocs (s : stmt) : Prop := forall d d', s d = Some d' -> allocs d' = allocs d.

Lemma keeps_allocs_batch l : Forall keeps_allocs l -> keeps_allocs (batch l).
Proof.
  induction 1 as [|s l Hs _ IH]; intros d d'; cbn [batch]; [by intros [= <-]|].
  destruct (s d) as [d1|] eqn:E; cbn; [|done]. intros Hd. by rewrite (IH d1 d' Hd), (Hs d d1 E).
Qed.

Ltac other_table := intros ? ?; unfold upsert_range, migrate_range, upsert_pool, clear_nodes, resolve_scope, insert_node,
  delete_pool, delete_orphan_nodes, delete_orphan_scope, insert_reservation, delete_reservations;
  intros ?; repeat case_match; simplify_eq/=; done.

Lemma transaction_allocs `{IPv6Text} s d d' :
  transaction s -> s d = Some d' -> allocs_ok (allocs d) -> allocs_ok (allocs d').
Proof.
  destruct 1 as [p node|id|l|id a|st|st|id r|st o]; intros Hd Hok.
  - assert (Hk : keeps_allocs (save_batch p node)).
    { apply keeps_allocs_batch. rewrite !Forall_app. split_and!.
      - destruct (decide _); [done|]. apply Forall_singleton. other_table.
      - rewrite !Forall_cons. split_and!; [other_table..|done].
      - apply Forall_forall. intros s (n & -> & _)%list_elem_of_fmap. other_table. }
    by rewrite (Hk d d' Hd).
  - assert (Hk : keeps_allocs (delete_batch id)).
    { apply keeps_allocs_batch. rewrite !Forall_cons. split_and!; [other_table..|done]. }
    by rewrite (Hk d d' Hd).
  - assert (Hk : keeps_allocs (batch ((fun x => migrate_range x.1.1.1 x.1.1.2 x.1.2 x.2) <$> l))).
    { apply keeps_allocs_batch, Forall_forall. intros s (x & -> & _)%list_elem_of_fmap. other_table. }
    by rewrite (Hk d d' Hd).
  - by eapply insert_alloc_ok.
  - cbn in Hd. injection Hd as <-. cbn. by apply activate_allocs_ok.
  - cbn in Hd. injection Hd as <-. cbn. by apply filter_allocs_ok.
  - unfold insert_reservation in Hd. case_match; [done|]. by injection Hd as <-.
  - injection Hd as <-. done.
Qed.

Definition db_ok (d : DB) : Prop := ranges_ok (ranges d) /\ allocs_ok (allocs d).

Lemma star_db_ok `{IPv6Text} d d' : star db_step d d' -> db_ok d -> db_ok d' /\ keeps (ranges d) (ranges d').
Proof.
  induction 1 as [d|d1 d2 d3 (s & Hs & Hd) _ IH]; intros Hok.
  - by split; [|apply keeps_refl].
  - destruct Hok as [Hr Ha]. destruct (transaction_respects s Hs d1 d2 Hd Hr) as [Hr2 Hk].
    destruct IH as [? ?]; [split; [done|by eapply transaction_allocs]|].
    split; [done|]. by eapply keeps_trans.
Qed.

(** ** Ranges *)

Lemma ones_word k : 0 <= k <= 32 -> (Z.shiftl 1 k mod 2 ^ 32 - 1) mod 2 ^ 32 = 2 ^ k - 1.
Proof.
  intros Hk. rewrite Z.shiftl_mul_pow2, Z.mul_1_l by lia.
  destruct (decide (k = 32)) as [->|Hne]; [done|].
  assert (2 ^ k < 2 ^ 32) by (apply Z.pow_lt_mono_r; lia).
  rewrite (Z.mod_small (2 ^ k)) by lia. apply Z.mod_small. lia.
Qed.

(** A validated pool is a block and a range of usable addresses in it. *)
Record pool_range `{IPv6Text} (p : Pool) (q k s e : Z) : Prop := {
  pg_cidr : ParsePrefix (CIDR p) = Some (mkPrefix (V4 (q * 2 ^ k)) (32 - k));
  pg_bits : 0 <= k <= 32;
  pg_start : ParseAddr (StartIP p) = Some (V4 s);
  pg_end : ParseAddr (EndIP p) = Some (V4 e);
  pg_range : q * 2 ^ k < s /\ s <= e /\ e < q * 2 ^ k + 2 ^ k - 1;
  pg_word : 0 <= s /\ e + 1 < 2 ^ 32 }.

Lemma lastAddress_block q k : 0 <= k <= 32 ->
  lastAddress (mkPrefix (V4 (q * 2 ^ k)) (32 - k)) = V4 (q * 2 ^ k + 2 ^ k - 1).
Proof.
  intros Hk. unfold lastAddress. cbn [pAddr Bits bits_of]. replace (32 - (32 - k)) with k by lia.
  rewrite ones_word, lor_block by lia. f_equal. lia.
Qed.

Lemma ValidatePool_range `{IPv6Laws} p : ValidatePool p = Ok tt -> exists q k s e, pool_range p q k s e.
Proof.
  unfold ValidatePool. destruct (ParsePrefix (CIDR p)) as [[[|b|] n]|] eqn:Hp; cbn [pAddr Is4 negb orb]; try done.
  destruct (negb _) eqn:Hm; [done|]. to_prop.
  apply ParsePrefix_ok in Hp as Hpo. cbn in Hpo. destruct Hpo as [Hb Hn].
  destruct (ParseAddr (StartIP p)) as [s|] eqn:Hs; [|done]. destruct (ParseAddr (EndIP p)) as [e|] eqn:He; [|done].
  destruct (bool_decide (Name p = "") || _ || _ || _ || _ || _) eqn:Hr; [done|]. to_prop.
  destruct s as [|s|]; [done| |done]. destruct e as [|e|]; [done| |done].
  destruct (_ || _) eqn:Hl; [done|]. intros _. to_prop.
  apply ParseAddr_ok in Hs as Hso, He as Heo. cbn [addr_ok] in Hso, Heo.
  pose (k := 32 - n). pose (q := b / 2 ^ k).
  assert (Hbq : b = q * 2 ^ k).
  { rewrite Masked_V4 in * by lia. unfold q, k; congruence. }
  repeat match goal with H : Contains _ _ = true |- _ => apply Contains_V4 in H; [|lia..] end.
  replace (32 - n) with k in * by done.
  match goal with H : addr_ltb (V4 e) (V4 s) = false |- _ => rename H into Hse end.
  assert (Hle : s <= e) by (apply Z.leb_le; rewrite <- V4_leb; unfold addr_leb; by rewrite Hse).
  assert (Hk : 0 <= k <= 32) by (unfold k; lia).
  replace n with (32 - k) in * by (unfold k; lia).
  rewrite Hbq, lastAddress_block in * by done. rewrite Z.div_mul in * by lia.
  pose proof (Z.div_mod s (2 ^ k) ltac:(lia)). pose proof (Z.mod_pos_bound s (2 ^ k) ltac:(lia)).
  pose proof (Z.div_mod e (2 ^ k) ltac:(lia)). pose proof (Z.mod_pos_bound e (2 ^ k) ltac:(lia)).
  exists q, k, s, e. split; try done.
  - assert (s <> q * 2 ^ k) by congruence. assert (e <> q * 2 ^ k + 2 ^ k - 1) by congruence. lia.
  - assert (e <> q * 2 ^ k + 2 ^ k - 1) by congruence.
    assert (q * 2 ^ k + 2 ^ k <= 2 ^ 32); [|lia].
    replace (2 ^ 32) with (2 ^ (32 - k) * 2 ^ k) by (rewrite <- Z.pow_add_r by lia; f_equal; lia).
    assert (q < 2 ^ (32 - k)); [|nia]. unfold q. apply Z.div_lt_upper_bound; [lia|].
    rewrite <- Z.pow_add_r by lia. replace (k + (32 - k)) with 32 by lia. lia.
Qed.

(** ** The allocation walk *)

Section Walk.
Context `{IPv6Laws} `{IpamEnv}.

(** Other clients only issue the package's transactions. *)
Definition fair : Prop := forall n d, allocs_ok (allocs d) -> allocs_ok (allocs (interfere n d)).

(** The row is in the table when the call returns. *)
Definition owns (pool stack text : string) (d : DB) : Prop :=
  exists id, allocs d !! id = Some (mkAlloc pool stack text false).

Lemma Execute_allocs s w :
  fair -> allocs_ok (allocs (db w)) -> (forall d d', s d = Some d' -> allocs_ok (allocs d) -> allocs_ok (allocs d')) ->
  post (Execute s) (fun r w' => allocs_ok (allocs (db w')) /\
    (r = Ok tt -> exists d, allocs_ok (allocs d) /\ s d = Some (db w'))) w.
Proof.
  intros Hf Hok Hs. unfold post, Execute.
  pose proof (Hf (tick w) (db w) Hok) as Hd. set (d := interfere (tick w) (db w)) in *.
  destruct (io (tick w)), (s d) as [d'|] eqn:E; cbn; (split; [by eauto|]); try done. intros _. by exists d.
Qed.

Lemma alloc_loop_spec fuel pool stack taken v e w :
  fair -> allocs_ok (allocs (db w)) -> 0 <= v -> v <= e + 1 -> e + 1 < 2 ^ 32 -> e - v + 1 < Z.of_nat fuel ->
  post (alloc_loop fuel pool stack taken (V4 v) (V4 e)) (fun r w' => allocs_ok (allocs (db w')) /\
    match r with
    | Ok None => False
    | Ok (Some text) => exists u, v <= u <= e /\ text = AddrString (V4 u) /\ Some (V4 u) ∉ taken /\
                                  owns (ID pool) stack text (db w')
    | Err m => m = "ipam: pool exhausted"
    end) w.
Proof.
  intros Hf. revert v w. induction fuel as [|fuel IH]; intros v w Hok Hv Hve He Hfu; [lia|].
  cbn [alloc_loop]. rewrite V4_leb. destruct (Z.leb_spec v e) as [Hle|]; cbn [negb]; [|by split].
  assert (Hnext : Next (V4 v) = V4 (v + 1)).
  { unfold Next. destruct (Z.eqb_spec (v + 1) (2 ^ 32)); [lia|done]. }
  assert (Hrec : forall w', allocs_ok (allocs (db w')) ->
    post (alloc_loop fuel pool stack taken (V4 (v + 1)) (V4 e)) (fun r w' => allocs_ok (allocs (db w')) /\
    match r with
    | Ok None => False
    | Ok (Some text) => exists u, v <= u <= e /\ text = AddrString (V4 u) /\ Some (V4 u) ∉ taken /\
                                  owns (ID pool) stack text (db w')
    | Err m => m = "ipam: pool exhausted"
    end) w').
  { intros w' Hok'. eapply post_mono; [apply IH; [done|lia..]|].
    intros [[text|]|m] w2 [? Hr]; (split; [done|]); try done.
    destruct Hr as (u & ? & ? & ? & ?). exists u. split_and!; try done; lia. }
  rewrite Hnext. destruct (bool_decide (Some (V4 v) ∈ taken)) eqn:Ht; [by apply Hrec|]. to_prop.
  apply post_bind. unfold fresh, post at 1. cbn [fst snd].
  apply post_bind, post_attempt. eapply post_mono; [apply Execute_allocs; [done..|]|].
  { intros d d' Hd Hd'. by eapply insert_alloc_ok. }
  intros r w2 [Hok2 Hr]. destruct r as [[]|m]; [|by apply Hrec].
  unfold ret, post. cbn. split; [done|]. exists v. split_and!; try done; try lia.
  destruct (Hr eq_refl) as (d & Hd & Hs). apply insert_alloc_ok in Hs as [_ Hs]; [|done].
  eexists. by rewrite Hs, lookup_insert_eq.
Qed.

(** No other client writes and no call fails; new identifiers are new. *)
Definition quiet : Prop := (forall n, io n = Fine) /\ (forall n d, interfere n d = d).

Lemma insert_alloc_free id pool stack v d :
  allocs d !! id = None -> (forall i a, allocs d !! i = Some a -> al_stack a <> stack) ->
  addr_ok (V4 v) -> Some (V4 v) ∉ taken_of pool d ->
  insert_alloc id (mkAlloc pool stack (AddrString (V4 v)) false) d =
    Some (set_allocs (<[id := mkAlloc pool stack (AddrString (V4 v)) false]> (allocs d)) d).
Proof.
  intros Hid Hst Hv Ht. unfold insert_alloc.
  rewrite bool_decide_eq_false_2 by (rewrite Hid; by intros [? ?]). cbn [orb].
  match goal with |- context [any ?f ?t] => assert (any f t = false) as -> end; [|done].
  apply any_false. intros k b Hk. cbn [al_stack al_pool al_address].
  rewrite bool_decide_eq_false_2 by (by eapply Hst). cbn [orb].
  apply andb_false_iff. destruct (decide (al_pool b = pool)) as [Hp|Hp].
  2: { left. by apply bool_decide_eq_false_2. }
  right. apply bool_decide_eq_false_2. intros Ha. apply Ht. unfold taken_of.
  apply elem_of_list_to_set, list_elem_of_fmap. exists (al_address b).
  split; [rewrite Ha; symmetry; by apply ParseAddr_String|].
  unfold addresses_of. apply list_elem_of_fmap. exists (k, b). split; [done|].
  apply list_elem_of_filter. split; [done|by apply elem_of_map_to_list].
Qed.

Lemma alloc_loop_quiet fuel pool stack v e w :
  quiet -> (forall n, allocs (db w) !! newID n = None) ->
  (forall i a, allocs (db w) !! i = Some a -> al_stack a <> stack) ->
  0 <= v -> v <= e + 1 -> e + 1 < 2 ^ 32 -> e - v + 1 < Z.of_nat fuel ->
  post (alloc_loop fuel pool stack (taken_of (ID pool) (db w)) (V4 v) (V4 e)) (fun r w' =>
    match r with
    | Ok None => False
    | Ok (Some text) => exists u, v <= u <= e /\ text = AddrString (V4 u) /\ Some (V4 u) ∉ taken_of (ID pool) (db w) /\
        (forall x, v <= x < u -> Some (V4 x) ∈ taken_of (ID pool) (db w))
    | Err m => forall x, v <= x <= e -> Some (V4 x) ∈ taken_of (ID pool) (db w)
    end) w.
Proof.
  intros [Hio Hint] Hid Hst. revert v. induction fuel as [|fuel IH]; intros v Hv Hve He Hfu; [lia|].
  cbn [alloc_loop]. rewrite V4_leb. destruct (Z.leb_spec v e) as [Hle|]; cbn [negb].
  2: { unfold fail, post. cbn. intros. lia. }
  assert (Hnext : Next (V4 v) = V4 (v + 1)).
  { unfold Next. destruct (Z.eqb_spec (v + 1) (2 ^ 32)); [lia|done]. }
  rewrite Hnext. destruct (bool_decide (Some (V4 v) ∈ _)) eqn:Ht; to_prop.
  - eapply post_mono; [apply IH; lia|]. intros [[text|]|m] w2 Hr; try done.
    + destruct Hr as (u & ? & ? & ? & Hx). exists u. split_and!; try done; try lia.
      intros x Hxr. destruct (decide (x = v)) as [->|]; [done|]. apply Hx. lia.
    + intros x Hxr. destruct (decide (x = v)) as [->|]; [done|]. apply Hr. lia.
  - apply post_bind. unfold fresh, post at 1. cbn [fst snd].
    apply post_bind, post_attempt. unfold post at 1, Execute. rewrite Hio, Hint.
    rewrite insert_alloc_free by (done || (cbn; lia)). cbn [fst snd].
    unfold ret, post. cbn. exists v. split_and!; try done; try lia.
Qed.
End Walk.

(** ** Saving a pool *)

Lemma batch_app l1 l2 d : batch (l1 ++ l2) d = batch l1 d ≫= batch l2.
Proof.
  revert d. induction l1 as [|s l1 IH]; intros d; cbn [batch app]; [done|].
  destruct (s d) as [d1|]; cbn; [apply IH|done].
Qed.

(** Sharing a node means disjoint ranges. *)
Definition rows_apart `{IPv6Text} (r q : PoolRow) : Prop :=
  addr_leb (addr_or_zero (pr_start r)) (addr_or_zero (pr_end q)) &&
  addr_leb (addr_or_zero (pr_start q)) (addr_or_zero (pr_end r)) = false.
Definition pools_apart `{IPv6Text} (d : DB) : Prop :=
  forall i j r q n, i <> j -> pools d !! i = Some r -> pools d !! j = Some q ->
    (i, n) ∈ pool_nodes d -> (j, n) ∈ pool_nodes d -> rows_apart r q.

Lemma rows_apart_sym `{IPv6Text} r q : rows_apart r q -> rows_apart q r.
Proof. unfold rows_apart. by rewrite andb_comm. Qed.

Lemma insert_nodes_spec id l d d' : batch (insert_node id <$> l) d = Some d' ->
  pools d' = pools d /\ forall i n, (i, n) ∈ pool_nodes d' <-> (i, n) ∈ pool_nodes d \/ (i = id /\ n ∈ l).
Proof.
  revert d. induction l as [|x l IH]; intros d; cbn [fmap list_fmap batch].
  - intros [= <-]. split; [done|]. intros i n. rewrite elem_of_nil. tauto.
  - intros Hd. destruct (insert_node id x d) as [d1|] eqn:E; [|done]. cbn [mbind option_bind] in Hd.
    unfold insert_node in E. destruct (decide ((id, x) ∈ pool_nodes d)) as [|Hnot]; [done|]. injection E as <-.
    apply IH in Hd as [Hp Hn]. split; [by rewrite Hp|]. intros i n. rewrite Hn. cbn [pool_nodes set_nodes].
    rewrite elem_of_union, elem_of_singleton, elem_of_cons. split.
    + intros [[[= -> ->]|?]|[-> ?]]; tauto.
    + intros [?|[-> [->|?]]]; tauto.
Qed.

Lemma upsert_range_frame id x y o d d' : upsert_range id x y o d = Some d' ->
  pools d' = pools d /\ pool_nodes d' = pool_nodes d.
Proof. unfold upsert_range. intros Hd. repeat case_match; by simplify_eq/=. Qed.

Lemma save_batch_spec `{IPv6Text} p node d d' : save_batch p node d = Some d' ->
  (exists row, pools d' = <[ID p := row]> (pools d) /\ pr_start row = StartIP p /\ pr_end row = EndIP p) /\
  forall i n, (i, n) ∈ pool_nodes d' <-> (i <> ID p /\ (i, n) ∈ pool_nodes d) \/ (i = ID p /\ n ∈ NodeIDs p).
Proof.
  unfold save_batch. rewrite batch_app. intros Hd.
  match type of Hd with (batch ?l d ≫= _) = _ => destruct (batch l d) as [d1|] eqn:E1; [|done] end. cbn [mbind option_bind] in Hd.
  assert (Hd1 : pools d1 = pools d /\ pool_nodes d1 = pool_nodes d).
  { destruct (decide (node = "")); [by injection E1 as <-|]. cbn [batch] in E1.
    destruct (upsert_range _ _ _ _ d) as [d2|] eqn:E; [|discriminate E1]. injection E1 as <-.
    by eapply upsert_range_frame. }
  destruct Hd1 as [Hp1 Hn1]. rewrite batch_app in Hd.
  destruct (batch [upsert_pool p; clear_nodes (ID p); resolve_scope (ID p)] d1) as [d2|] eqn:E2; [|discriminate Hd].
  cbn [mbind option_bind] in Hd. apply insert_nodes_spec in Hd as [Hp Hn].
  cbn [batch] in E2. unfold upsert_pool in E2. destruct (any _ _); [discriminate E2|]. cbn in E2. injection E2 as <-.
  cbn in Hp, Hn. split.
  - rewrite Hp1 in Hp. eexists. split; [exact Hp|done].
  - intros i n. rewrite Hn. unfold clear_nodes. cbn. rewrite Hn1, elem_of_filter. done.
Qed.

Lemma elem_of_nodes_of d id n : n ∈ nodes_of d id <-> (id, n) ∈ pool_nodes d.
Proof.
  unfold nodes_of. rewrite list_elem_of_fmap. setoid_rewrite list_elem_of_filter. setoid_rewrite elem_of_elements.
  split.
  - intros ([i m] & -> & Hi & Hin). cbn in *. by subst.
  - intros Hin. exists (id, n). done.
Qed.

Lemma list_pools_elem d id r : pools d !! id = Some r -> to_pool d (id, r) ∈ list_pools d.
Proof.
  intros Hid. unfold list_pools. apply list_elem_of_fmap. exists (id, r). split; [done|].
  rewrite merge_sort_Permutation. by apply elem_of_map_to_list.
Qed.

Lemma overlaps_false `{IPv6Text} p d id r n : existsb (overlaps p) (list_pools d) = false ->
  pools d !! id = Some r -> id <> ID p -> n ∈ NodeIDs p -> (id, n) ∈ pool_nodes d ->
  addr_leb (addr_or_zero (StartIP p)) (addr_or_zero (pr_end r)) &&
  addr_leb (addr_or_zero (pr_start r)) (addr_or_zero (EndIP p)) = false.
Proof.
  intros Ho Hid Hne Hn Hin.
  assert (Hf : overlaps p (to_pool d (id, r)) = false).
  { destruct (overlaps _ _) eqn:E; [|done].
    assert (existsb (overlaps p) (list_pools d) = true); [|congruence].
    apply existsb_exists. exists (to_pool d (id, r)). split; [|done].
    by apply list_elem_of_In, list_pools_elem. }
  unfold overlaps in Hf. cbn [to_pool ID StartIP EndIP MembershipResolved NodeIDs] in Hf.
  rewrite bool_decide_eq_false_2 in Hf by done. cbn [negb andb] in Hf.
  assert (Hsh : existsb (containsNode (nodes_of d id)) (NodeIDs p) = true).
  { apply existsb_exists. exists n. split; [by apply list_elem_of_In|].
    unfold containsNode. apply bool_decide_eq_true. by apply elem_of_nodes_of. }
  rewrite Hsh, orb_true_r in Hf. exact Hf.
Qed.

Section Save.
Context `{IPv6Laws} `{IpamEnv}.

Lemma save_apart p node d d' :
  save_batch p node d = Some d' -> pools_apart d ->
  (forall id r n, pools d !! id = Some r -> id <> ID p -> n ∈ NodeIDs p -> (id, n) ∈ pool_nodes d ->
    addr_leb (addr_or_zero (StartIP p)) (addr_or_zero (pr_end r)) &&
    addr_leb (addr_or_zero (pr_start r)) (addr_or_zero (EndIP p)) = false) ->
  pools_apart d'.
Proof.
  intros Hb Hap Hov. apply save_batch_spec in Hb as [(row & Hp & Hs & He) Hn].
  intros i j r q n Hij. rewrite Hp, !Hn.
  destruct (decide (i = ID p)) as [->|Hi], (decide (j = ID p)) as [->|Hj]; [done|..].
  - rewrite lookup_insert_eq, lookup_insert_ne by done. intros [= <-] Hq [[? _]|[_ Hin]]; [done|].
    intros [[_ Hjn]|[? _]]; [|done]. unfold rows_apart. rewrite Hs, He. by eapply Hov.
  - rewrite lookup_insert_eq, lookup_insert_ne by done. intros Hr [= <-] [[_ Hin]|[? _]]; [|done].
    intros [[? _]|[_ Hjn]]; [done|]. apply rows_apart_sym. unfold rows_apart. rewrite Hs, He. by eapply Hov.
  - rewrite !lookup_insert_ne by done. intros Hr Hq [[_ H1']|[? _]] [[_ H2']|[? _]]; try done.
    by eapply (Hap i j).
Qed.

Lemma savePool_apart p node w :
  quiet -> pools (db w) !! "" = None -> (forall n, pools (db w) !! newID n = None) -> pools_apart (db w) ->
  post (savePool p node) (fun r w' => pools_apart (db w') /\ (is_ok r = false -> db w' = db w)) w.
Proof.
  intros [Hio Hint] Hempty Hnew Hap. unfold savePool.
  apply post_bind. unfold of_result at 1, post at 1. cbn [fst snd].
  destruct (ValidateMembers (NodeIDs p)) as [[]|m]; [|by split].
  apply post_bind. unfold of_result at 1, post at 1. cbn [fst snd].
  match goal with |- context [ValidatePool ?x] => set (p1 := x) end.
  destruct (ValidatePool p1) as [[]|m]; [|by split].
  apply post_bind. unfold ListPools, query, post at 1. rewrite Hio, Hint. cbn [fst snd].
  destruct (existsb (overlaps p1) (list_pools (db w))) eqn:Hov; [by split|].
  apply post_bind. eapply (post_mono _ (fun r w' => db w' = db w)).
  { destruct (decide (ID p1 = "")); [done|].
    apply post_bind. unfold query, post at 1. rewrite Hio, Hint. cbn [fst snd db].
    destruct (negb _); [done|].
    apply post_bind. unfold query, post at 1. rewrite Hio, Hint. cbn [fst snd db].
    by destruct (negb _). }
  intros r w1 Hdb. destruct r as [[]|m]; [|by rewrite Hdb].
  apply post_bind. unfold Now, post at 1. cbn [fst snd].
  apply post_bind. unfold fresh, post at 1. cbn [fst snd].
  match goal with |- context [save_batch ?x node] => set (p2 := x) end.
  apply post_bind. unfold Execute, post at 1. rewrite Hio, Hint, Hdb. cbn [fst snd].
  destruct (save_batch p2 node (db w)) as [d'|] eqn:Hb; cbn [fst snd].
  2: { cbn. by split. }
  unfold ret, post. cbn. split; [|done]. eapply save_apart; [exact Hb|done|].
  intros id r n Hid Hne Hn Hin. eapply (overlaps_false p1); try done.
  cbn [ID p1]. intros ->. cbn [ID p2] in Hne. cbn [ID p1] in Hid.
  destruct (bool_decide (ID p = "")) eqn:E; cbn [ID p1] in *; rewrite E in Hne; [|done].
  to_prop. rewrite E in Hid. congruence.
Qed.
End Save.

(** ** The walk of [Allocate] *)

Lemma bits_Next a : Next a = Invalid \/ bits_of (Next a) = bits_of a + 1.
Proof. destruct a as [|v|v z]; cbn [Next]; [by left|..]; destruct (_ =? _); by auto. Qed.

Lemma find_free_spec prefix taken fuel a :
  (size (filter (fun x => (bits_of a <= bits_of x)%Z) taken) < fuel)%nat ->
  exists r n, find_free fuel prefix taken a = Some r /\ (n < fuel)%nat /\
    (forall m, (m < n)%nat -> Contains prefix (Nat.iter m Next a) = true /\ Nat.iter m Next a ∈ taken) /\
    match r with
    | Ok x => x = Nat.iter n Next a /\ Contains prefix x = true /\ x ∉ taken
    | Err _ => Contains prefix (Nat.iter n Next a) = false
    end.
Proof.
  revert a. induction fuel as [|fuel IH]; intros a Hf; [lia|]. cbn [find_free].
  destruct (Contains prefix a) eqn:Hc; cbn [negb].
  2: { eexists _, 0%nat. split_and!; try done; [lia|intros; lia]. }
  destruct (bool_decide (a ∈ taken)) eqn:Ht; to_prop.
  2: { eexists _, 0%nat. split_and!; try done; [lia|intros; lia]. }
  destruct (bits_Next a) as [Hn|Hn].
  { destruct fuel as [|fuel].
    { assert (a ∈ filter (fun x => (bits_of a <= bits_of x)%Z) taken) as Hin by (apply elem_of_filter; split; [lia|done]).
      assert (size (filter (fun x => (bits_of a <= bits_of x)%Z) taken) = 0%nat) as Hz by lia.
      apply size_empty_inv in Hz. set_solver. }
    assert (Hci : Contains prefix (Next a) = false).
    { rewrite Hn. unfold Contains. destruct (_ || _); done. }
    cbn [find_free]. rewrite Hci. cbn [negb]. eexists _, 1%nat. split_and!; try done; [lia|].
    intros m Hm. replace m with 0%nat by lia. done. }
  destruct (IH (Next a)) as (r & n & Hr & Hlt & Hall & Hres).
  { assert (filter (fun x => (bits_of (Next a) <= bits_of x)%Z) taken ⊂ filter (fun x => (bits_of a <= bits_of x)%Z) taken) as Hsub.
    { split.
      - intros x. rewrite !elem_of_filter. intros [? ?]. split; [lia|done].
      - intros Hsup. assert (a ∈ filter (fun x => (bits_of (Next a) <= bits_of x)%Z) taken) as Ha.
        { apply Hsup, elem_of_filter. split; [lia|done]. }
        apply elem_of_filter in Ha as [? _]. lia. }
    apply subset_size in Hsub. lia. }
  exists r, (S n). split_and!; [done|lia|..].
  - intros m Hm. destruct m as [|m]; [done|]. rewrite Nat.iter_succ_r. apply Hall. lia.
  - by rewrite Nat.iter_succ_r.
Qed.

(** ** Members and hosts *)

Lemma members_loop_ok l seen : members_loop l seen = Ok tt -> NoDup l /\ forall x, x ∈ l -> x ∉ seen.
Proof.
  revert seen. induction l as [|x l IH]; intros seen; cbn [members_loop].
  - intros _. split; [by apply NoDup_nil|]. by intros ? ?%elem_of_nil.
  - destruct (_ || _) eqn:E; [done|]. to_prop. intros Hl. apply IH in Hl as [Hn Hs]. split.
    + constructor; [|done]. intros Hin. specialize (Hs x Hin). set_solver.
    + intros y [->|Hin]%elem_of_cons; [done|]. specialize (Hs y Hin). set_solver.
Qed.

Lemma ValidateMembers_ok l : ValidateMembers l = Ok tt -> l <> [] /\ NoDup l.
Proof.
  unfold ValidateMembers. destruct (bool_decide (l = [])) eqn:E; [done|]. to_prop.
  intros [? _]%members_loop_ok. done.
Qed.

Lemma outsideRange_ok `{IPv6Text} l pool text prefix v s e :
  outsideRange l pool = true -> text ∈ l -> ParsePrefix text = Some prefix -> pAddr prefix = V4 v ->
  ParseAddr (StartIP pool) = Some (V4 s) -> ParseAddr (EndIP pool) = Some (V4 e) -> ~ s <= v <= e.
Proof.
  intros Ho Hin Hp Hv Hs He. unfold outsideRange in Ho. rewrite Hs, He in Ho.
  rewrite forallb_forall in Ho. specialize (Ho text (proj1 (list_elem_of_In _ _) Hin)).
  rewrite Hp in Ho. cbv zeta in Ho. rewrite Hv in Ho. cbn [Is4 andb] in Ho. rewrite !V4_leb in Ho.
  intros [H1 H2]. apply Z.leb_le in H1, H2. by rewrite H1, H2 in Ho.
Qed.

Lemma ValidateHostRange_ok `{IPv6Text} pool addresses gateways text prefix v s e :
  ValidateHostRange pool addresses gateways = Ok tt ->
  text ∈ addresses \/ (exists g, g ∈ gateways /\ text = g +:+ "/32") ->
  ParsePrefix text = Some prefix -> pAddr prefix = V4 v ->
  ParseAddr (StartIP pool) = Some (V4 s) -> ParseAddr (EndIP pool) = Some (V4 e) -> ~ s <= v <= e.
Proof.
  unfold ValidateHostRange. destruct (negb (outsideRange addresses pool)) eqn:Ha; [done|]. to_prop.
  destruct (forallb _ gateways) eqn:Hg; [|done]. intros _ [Hin|(g & Hin & ->)] Hp Hv Hs He.
  - by eapply outsideRange_ok.
  - rewrite forallb_forall in Hg. specialize (Hg g (proj1 (list_elem_of_In _ _) Hin)).
    eapply outsideRange_ok; [exact Hg|by apply list_elem_of_singleton|done..].
Qed.

(** * Properties *)

(** A validated pool is a range of usable host addresses of its subnet:
    every address from the first to the last is inside the subnet and is
    neither its network nor its broadcast address, and the range stays inside
    32 bits. *)
Theorem ValidatePool_usable `{IPv6Laws} (p : Pool) (Hp : ValidatePool p = Ok tt) :
  exists prefix s e, ParsePrefix (CIDR p) = Some prefix /\ ParseAddr (StartIP p) = Some (V4 s) /\
    ParseAddr (EndIP p) = Some (V4 e) /\ s <= e /\ e + 1 < 2 ^ 32 /\
    forall a, s <= a <= e -> Contains prefix (V4 a) = true /\ V4 a <> pAddr (Masked prefix) /\ V4 a <> lastAddress prefix.
Proof.
  destruct (ValidatePool_range p Hp) as (q & k & s & e & [Hc Hk Hs He Hr Hw]).
  exists (mkPrefix (V4 (q * 2 ^ k)) (32 - k)), s, e. split_and!; try done; try lia.
  intros a Ha. assert (Hq : 0 <= q * 2 ^ k).
  { apply ParsePrefix_ok in Hc as [Hc _]. cbn in Hc. lia. }
  assert (Hdiv : a / 2 ^ k = q) by (symmetry; apply (Z.div_unique _ _ _ (a - q * 2 ^ k)); lia).
  split_and!.
  - apply Contains_V4; try lia. replace (32 - (32 - k)) with k by lia. rewrite Hdiv. apply Z.div_mul. lia.
  - rewrite Masked_V4 by lia. cbn [pAddr]. replace (32 - (32 - k)) with k by lia.
    rewrite Z.div_mul by lia. intros [= ->]. lia.
  - rewrite lastAddress_block by done. intros [= ->]. lia.
Qed.

(** C37. Reservations under any interleaving: in every state any clients can
    reach by the package's transactions, in any order, no two pools hold
    overlapping node ranges and no two allocations share a stack or an address
    of a pool; and a range once reserved stays reserved to the same node, at
    least as large, whatever is saved or deleted. *)
Theorem reservations_hold `{IPv6Text} (d d' : DB) (Hs : star db_step d d') (Hd : db_ok d) :
  db_ok d' /\ keeps (ranges d) (ranges d').
Proof. by apply star_db_ok. Qed.

(** C38. [AllocateIPv4] with other clients at work and calls that may fail
    anywhere: it always ends, an address it returns lies in the pool's range
    and is recorded as the stack's pending allocation, and no address of the
    pool ever has two owners. *)
Theorem AllocateIPv4_contract `{IPv6Laws} `{IpamEnv} (pool : Pool) (stack : string) (w : W)
  (Hf : fair) (Hok : allocs_ok (allocs (db w))) :
  let '(r, w') := AllocateIPv4 pool stack w in
  allocs_ok (allocs (db w')) /\
  match r with
  | Ok None => False
  | Ok (Some text) => owns (ID pool) stack text (db w') /\
      exists s e u, ParseAddr (StartIP pool) = Some (V4 s) /\ ParseAddr (EndIP pool) = Some (V4 e) /\
        s <= u <= e /\ ParseAddr text = Some (V4 u)
  | Err _ => True
  end.
Proof.
  cut (post (AllocateIPv4 pool stack) (fun r w' => allocs_ok (allocs (db w')) /\
    match r with
    | Ok None => False
    | Ok (Some text) => owns (ID pool) stack text (db w') /\
        exists s e u, ParseAddr (StartIP pool) = Some (V4 s) /\ ParseAddr (EndIP pool) = Some (V4 e) /\
          s <= u <= e /\ ParseAddr text = Some (V4 u)
    | Err _ => True
    end) w); [unfold post; by destruct (AllocateIPv4 pool stack w)|].
  unfold AllocateIPv4. destruct (_ || _); [by split|]. apply post_bind. unfold of_result, post at 1. cbn [fst snd].
  destruct (ValidatePool pool) as [[]|m] eqn:Hv; [|by split].
  destruct (ValidatePool_range pool Hv) as (q & k & s & e & [Hc Hk Hs He Hr Hw]).
  apply post_bind. unfold query, post at 1. cbn [fst snd].
  assert (Hok1 : allocs_ok (allocs (interfere (tick w) (db w)))) by (by apply Hf).
  destruct (io (tick w)); [|by split..].
  unfold addr_or_zero, range_size. rewrite Hs, He. cbn [default from_option id bits_of].
  eapply post_mono; [apply alloc_loop_spec; [done|done|lia..]|].
  intros [[text|]|m] w' [Hok' Hr']; (split; [done|]); try done.
  destruct Hr' as (u & Hu & -> & _ & Ho). split; [done|]. exists s, e, u. split_and!; try done; try lia.
  apply ParseAddr_String. cbn. lia.
Qed.

(** Undisturbed, [AllocateIPv4] gives a stack that has no allocation the
    lowest free address of the range, and fails only when every address of
    the range is taken. *)
Theorem AllocateIPv4_least `{IPv6Laws} `{IpamEnv} (pool : Pool) (stack : string) (w : W)
  (Hq : quiet) (Hid : forall n, allocs (db w) !! newID n = None)
  (Hst : forall i a, allocs (db w) !! i = Some a -> al_stack a <> stack)
  (Hp : ValidatePool pool = Ok tt) (Hm : MembershipResolved pool = true /\ NodeIDs pool <> []) :
  exists s e, ParseAddr (StartIP pool) = Some (V4 s) /\ ParseAddr (EndIP pool) = Some (V4 e) /\
  match (AllocateIPv4 pool stack w).1 with
  | Ok None => False
  | Ok (Some text) => exists u, s <= u <= e /\ ParseAddr text = Some (V4 u) /\
      Some (V4 u) ∉ taken_of (ID pool) (db w) /\ forall x, s <= x < u -> Some (V4 x) ∈ taken_of (ID pool) (db w)
  | Err _ => forall x, s <= x <= e -> Some (V4 x) ∈ taken_of (ID pool) (db w)
  end.
Proof.
  destruct (ValidatePool_range pool Hp) as (q & k & s & e & [Hc Hk Hs He Hr Hw]).
  exists s, e. split; [done|]. split; [done|]. destruct Hm as [Hm1 Hm2].
  cut (post (AllocateIPv4 pool stack) (fun r _ => match r with
    | Ok None => False
    | Ok (Some text) => exists u, s <= u <= e /\ ParseAddr text = Some (V4 u) /\
        Some (V4 u) ∉ taken_of (ID pool) (db w) /\ forall x, s <= x < u -> Some (V4 x) ∈ taken_of (ID pool) (db w)
    | Err _ => forall x, s <= x <= e -> Some (V4 x) ∈ taken_of (ID pool) (db w)
    end) w); [unfold post; by destruct (AllocateIPv4 pool stack w)|].
  unfold AllocateIPv4. rewrite Hm1, bool_decide_eq_false_2 by done. cbn [negb orb].
  apply post_bind. unfold of_result, post at 1. cbn [fst snd]. rewrite Hp.
  apply post_bind. unfold query, post at 1. cbn [fst snd]. rewrite (proj1 Hq), (proj2 Hq).
  unfold addr_or_zero, range_size. rewrite Hs, He. cbn [default from_option id bits_of].
  eapply post_mono; [apply (alloc_loop_quiet _ pool stack s e (mkW (db w) (S (tick w)))); [done|done|done|lia..]|].
  intros [[text|]|m] w' Hr'; try done.
  destruct Hr' as (u & Hu & -> & Hn & Hall). exists u. split_and!; try done; try lia.
  apply ParseAddr_String. cbn. lia.
Qed.

(** [SavePool] and [SaveNodePool], undisturbed, never let two pools that
    share a node overlap; a refused save changes nothing. *)
Theorem savePool_disjoint `{IPv6Laws} `{IpamEnv} (p : Pool) (node : string) (w : W)
  (Hq : quiet) (Hempty : pools (db w) !! "" = None) (Hnew : forall n, pools (db w) !! newID n = None)
  (Hap : pools_apart (db w)) :
  let '(r, w') := savePool p node w in pools_apart (db w') /\ (is_ok r = false -> db w' = db w).
Proof.
  pose proof (savePool_apart p node w Hq Hempty Hnew Hap) as Hp. unfold post in Hp.
  by destruct (savePool p node w).
Qed.

(** C40. The walk of [Allocate] through a prefix ends after at most one step
    per reservation and one more: it stops at the first address that is not
    reserved, or reports exhaustion when it leaves the prefix having met
    reserved addresses only. *)
Theorem Allocate_walk (prefix : Prefix) (taken : gset Addr) :
  exists r n, find_free (S (size taken)) prefix taken (Next (pAddr prefix)) = Some r /\ (n <= size taken)%nat /\
    (forall m, (m < n)%nat -> Contains prefix (Nat.iter m Next (Next (pAddr prefix))) = true /\
                             Nat.iter m Next (Next (pAddr prefix)) ∈ taken) /\
    match r with
    | Ok x => x = Nat.iter n Next (Next (pAddr prefix)) /\ Contains prefix x = true /\ x ∉ taken
    | Err _ => Contains prefix (Nat.iter n Next (Next (pAddr prefix))) = false
    end.
Proof.
  destruct (find_free_spec prefix taken (S (size taken)) (Next (pAddr prefix))) as (r & n & ? & ? & ? & ?).
  { apply Nat.lt_succ_r, subseteq_size. intros x. by intros [_ ?]%elem_of_filter. }
  exists r, n. split_and!; try done. lia.
Qed.

(** The transaction of [DeletePool], whenever it commits: a pool with
    allocations stays with its members, a pool without them goes with
    them; allocations and node reservations are never touched. *)
Theorem DeletePool_guarded (id : string) (d : DB) :
  exists d', delete_batch id d = Some d' /\ allocs d' = allocs d /\ ranges d' = ranges d /\
    (has_alloc id d = true -> pools d' = pools d /\
       (is_Some (pools d !! id) -> pool_nodes d' = pool_nodes d /\ scope d' = scope d)) /\
    (has_alloc id d = false -> pools d' = delete id (pools d) /\ scope d' = delete id (scope d) /\
       forall i n, (i, n) ∈ pool_nodes d' <-> i <> id /\ (i, n) ∈ pool_nodes d).
Proof.
  unfold delete_batch. cbn [batch]. unfold delete_pool. destruct (has_alloc id d) eqn:Ha; cbn [mbind option_bind].
  - unfold delete_orphan_nodes, delete_orphan_scope.
    destruct (pools d !! id) eqn:Hid; cbn; rewrite ?Hid; eexists; (split; [done|]); split_and!; try done.
  - unfold delete_orphan_nodes, delete_orphan_scope. cbn. rewrite lookup_delete_eq. cbn. rewrite lookup_delete_eq.
    eexists. split; [done|]. split_and!; try done. intros _. split_and!; try done.
    intros i n. cbn. by rewrite elem_of_filter.
Qed.

(** A pool accepted for its hosts is safe on each of them: the members are
    known, distinct and at least one; each has no change outstanding and a LAN
    address in the pool's subnet; and no LAN address or gateway of a member
    lies in the pool's range. *)
Theorem ValidateHosts_sound `{IPv6Text} (host_status : string -> option (Live * bool)) (known : string -> bool)
  (pool : Pool) (Hv : ValidateHosts host_status known pool = Ok tt) :
  NodeIDs pool <> [] /\ NoDup (NodeIDs pool) /\
  forall node, node ∈ NodeIDs pool -> known node = true /\ exists live, host_status node = Some (live, false) /\
    Compatible (CIDR pool) (PrimaryAddresses live) = true /\
    forall text prefix v s e, text ∈ PrimaryAddresses live \/ (exists g, g ∈ Gateways live /\ text = g +:+ "/32") ->
      ParsePrefix text = Some prefix -> pAddr prefix = V4 v ->
      ParseAddr (StartIP pool) = Some (V4 s) -> ParseAddr (EndIP pool) = Some (V4 e) -> ~ s <= v <= e.
Proof.
  revert Hv. unfold ValidateHosts. destruct (ValidateMembers (NodeIDs pool)) as [[]|m] eqn:Hm; [|done].
  apply ValidateMembers_ok in Hm as [Hne Hnd]. cbn [mbind result_mbind].
  match goal with |- context [eligible_all _ _ ?p _] => set (pool1 := p) end. cbn [NodeIDs].
  intros Hv. split; [done|]. split; [done|].
  assert (Hgen : forall l, eligible_all host_status known pool1 l = Ok tt -> forall node, node ∈ l ->
    known node = true /\ Eligible host_status pool1 node = Ok tt).
  { induction l as [|x l IH]; cbn [eligible_all]; intros Hl node; [by intros ?%elem_of_nil|].
    destruct (known x) eqn:Hk; [|done]. cbn [negb] in Hl.
    destruct (Eligible host_status pool1 x) as [[]|e] eqn:He; [|done]. cbn [mbind result_mbind] in Hl.
    intros [->|Hin]%elem_of_cons; [done|]. by apply IH. }
  intros node Hin. destruct (Hgen _ Hv node Hin) as [Hk He]. split; [done|].
  unfold Eligible in He. destruct (negb (Member pool1 node)); [done|].
  destruct (host_status node) as [[live []]|]; [done| |done].
  destruct (Compatible (CIDR pool1) (PrimaryAddresses live)) eqn:Hc; [|done]. cbn [negb] in He.
  exists live. split; [done|]. split; [done|]. intros text prefix v s e Ht Hp Hpv Hs Hend.
  by apply (ValidateHostRange_ok pool1 _ _ text prefix v s e He).
Qed.

(** * Witnesses *)

Definition calm : IpamEnv := {|
  io := fun _ => Fine; interfere := fun _ d => d;
  newID := fun n => String.String "i" (String.string_of_list_ascii (repeat "d"%char n)); clock := Z.of_nat |}.

Definition apps : Pool := mkPool "p1" "apps" "192.0.2.0/24" "192.0.2.10" "192.0.2.12" false ["a"] true 0 0.
Definition apps_row : PoolRow := mkPoolRow "apps" "192.0.2.0/24" "192.0.2.10" "192.0.2.12" false 0 0.
Definition example_db : DB :=
  mkDB {[ "p1" := apps_row ]} {[ ("p1", "a") ]} {[ "p1" := true ]} {[ "p1" := mkRange 3221225994 3221225996 "a" ]}
    {[ "x" := mkAlloc "p1" "other" "192.0.2.10" true ]} ∅ ∅ [].
Definition example_world : W := mkW example_db 0.

Lemma singleton_allocs_ok i (a : Alloc) : allocs_ok {[ i := a ]}.
Proof. intros j k x y Hjk [<- _]%lookup_singleton_Some [<- _]%lookup_singleton_Some. done. Qed.

Lemma singleton_ranges_ok i r : rg_start r <= rg_end r -> ranges_ok {[ i := r ]}.
Proof.
  intros Hr. split.
  - by intros j x [_ <-]%lookup_singleton_Some.
  - intros j k x y Hjk [<- _]%lookup_singleton_Some [<- _]%lookup_singleton_Some. done.
Qed.

Lemma calm_quiet : @quiet calm.
Proof. by split. Qed.

Lemma ValidatePool_usable_witness :
  ValidatePool apps = Ok tt /\ exists prefix s e, ParsePrefix (CIDR apps) = Some prefix /\
    ParseAddr (StartIP apps) = Some (V4 s) /\ ParseAddr (EndIP apps) = Some (V4 e) /\ s <= e.
Proof.
  assert (Hv : ValidatePool apps = Ok tt) by (vm_compute; reflexivity). split; [exact Hv|].
  destruct (@ValidatePool_usable bits_ipv6 bits_laws apps Hv) as (prefix & s & e & Hp & Hs & He & Hle & _).
  exists prefix, s, e. split; [exact Hp|]. split; [exact Hs|]. split; [exact He|exact Hle].
Defined.

Lemma reservations_hold_witness :
  exists d', star db_step example_db d' /\ db_ok d' /\ keeps (ranges example_db) (ranges d') /\ d' <> example_db.
Proof.
  assert (Hs : delete_alloc "other" example_db = Some (set_allocs ∅ example_db)) by (vm_compute; reflexivity).
  exists (set_allocs ∅ example_db).
  assert (Hstar : star db_step example_db (set_allocs ∅ example_db)).
  { apply star_one. exists (batch [delete_alloc "other"; clear_runtime "other"]). split; [apply tx_release|].
    vm_compute. reflexivity. }
  assert (Hok : db_ok example_db) by (split; [apply singleton_ranges_ok; done|apply singleton_allocs_ok]).
  split; [exact Hstar|]. destruct (@reservations_hold bits_ipv6 _ _ Hstar Hok) as [H1 H2].
  split; [exact H1|]. split; [exact H2|].
  intros E. assert (E' : allocs (set_allocs ∅ example_db) !! "x" = allocs example_db !! "x") by (by rewrite E).
  vm_compute in E'. discriminate E'.
Defined.

Lemma AllocateIPv4_contract_witness :
  allocs_ok (allocs (db example_world)) /\
  allocs_ok (allocs (db (@AllocateIPv4 bits_ipv6 calm apps "app" example_world).2)) /\
  (@AllocateIPv4 bits_ipv6 calm apps "app" example_world).1 = Ok (Some "192.0.2.11").
Proof.
  assert (Hok : allocs_ok (allocs (db example_world))) by apply singleton_allocs_ok.
  split; [exact Hok|].
  assert (Hf : @fair calm) by (intros n d Hd; exact Hd).
  pose proof (@AllocateIPv4_contract bits_ipv6 bits_laws calm apps "app" example_world Hf Hok) as Hc.
  assert (Hr : (@AllocateIPv4 bits_ipv6 calm apps "app" example_world).1 = Ok (Some "192.0.2.11")) by (vm_compute; reflexivity).
  split; [|exact Hr]. destruct (@AllocateIPv4 bits_ipv6 calm apps "app" example_world) as [r w']. exact (proj1 Hc).
Defined.

Lemma AllocateIPv4_least_witness :
  exists s e, ParseAddr (StartIP apps) = Some (V4 s) /\ ParseAddr (EndIP apps) = Some (V4 e) /\
    (@AllocateIPv4 bits_ipv6 calm apps "app" example_world).1 = Ok (Some "192.0.2.11").
Proof.
  assert (Hid : forall n, allocs (db example_world) !! @newID calm n = None).
  { intros n. unfold example_world, example_db. cbn [db allocs pools]. apply lookup_singleton_ne. discriminate. }
  assert (Hst : forall i a, allocs (db example_world) !! i = Some a -> al_stack a <> "app").
  { intros i a Hi. unfold example_world, example_db in Hi. cbn [db allocs] in Hi.
    apply lookup_singleton_Some in Hi as [_ <-]. discriminate. }
  assert (Hv : ValidatePool apps = Ok tt) by (vm_compute; reflexivity).
  assert (Hm : MembershipResolved apps = true /\ NodeIDs apps <> []) by (by split).
  destruct (@AllocateIPv4_least bits_ipv6 bits_laws calm apps "app" example_world calm_quiet Hid Hst Hv Hm)
    as (s & e & Hs & He & _).
  exists s, e. split; [exact Hs|]. split; [exact He|]. vm_compute. reflexivity.
Defined.

Lemma savePool_disjoint_witness :
  pools_apart example_db /\
  is_ok (@savePool bits_ipv6 calm (mkPool "" "web" "192.0.2.0/24" "192.0.2.20" "192.0.2.30" false ["a"; "b"] false 0 0) "" example_world).1 = true /\
  pools_apart (db (@savePool bits_ipv6 calm (mkPool "" "web" "192.0.2.0/24" "192.0.2.20" "192.0.2.30" false ["a"; "b"] false 0 0) "" example_world).2).
Proof.
  assert (Hap : pools_apart example_db).
  { intros i j r q n Hij. unfold example_db. cbn [pools].
    intros [<- _]%lookup_singleton_Some [<- _]%lookup_singleton_Some. done. }
  split; [exact Hap|]. split; [vm_compute; reflexivity|].
  assert (He : pools (db example_world) !! "" = None) by (vm_compute; reflexivity).
  assert (Hn : forall n, pools (db example_world) !! @newID calm n = None).
  { intros n. unfold example_world, example_db. cbn [db allocs pools]. apply lookup_singleton_ne. discriminate. }
  pose proof (@savePool_disjoint bits_ipv6 bits_laws calm
    (mkPool "" "web" "192.0.2.0/24" "192.0.2.20" "192.0.2.30" false ["a"; "b"] false 0 0) "" example_world
    calm_quiet He Hn Hap) as Hs.
  destruct (@savePool bits_ipv6 calm _ "" example_world) as [r w']. exact (proj1 Hs).
Defined.

Definition example_host (node : string) : option (Live * bool) :=
  Some (mkLive ["192.0.2.5/24"] [] ["192.0.2.5/24"] ["192.0.2.1"] [] "", false).

Lemma ValidateHosts_sound_witness :
  ValidateHosts example_host (fun _ => true) apps = Ok tt /\ NodeIDs apps <> [] /\ NoDup (NodeIDs apps).
Proof.
  assert (Hv : ValidateHosts example_host (fun _ => true) apps = Ok tt) by (vm_compute; reflexivity).
  split; [exact Hv|].
  destruct (@ValidateHosts_sound bits_ipv6 example_host (fun _ => true) apps Hv) as (H1 & H2 & _).
  split; [exact H1|exact H2].
Defined.
