(* ===== verification/HostNetwork.v ===== *)
(** The host network manager: [src/internal/hostnetwork/manager.go].

    A change of the network configuration is journalled, applied, and kept
    only when it is confirmed before its deadline.  The durable world is the
    journal, [network.toml] and the kernel's configuration; every state it
    passes through is recorded, since power may fail in any of them.  What the
    kernel, the disk and the clock do is decided by an oracle per step. *)
From S2P Require Import Prelude Release Netip HostConfig Update.

Open Scope string_scope.
Open Scope Z_scope.

(** ** Data *)

Record Change := mkChange {
  ID : string; State : string; Deadline : Z; ChError : string; Candidate : Config; Previous : Config;
  ChKey : string; ChActor : string; RequestHash : string }.

Record diskState := mkDisk {
  HasConfirmed : bool;
  Startup : option Config;
  BootID : string;
  Confirmed : Config;
  BridgeMAC : string;
  Services : gmap string Service;
  Pending : string;
  NeedsConfig : bool;
  Changes : gmap string Change }.

Definition initial_state : diskState := mkDisk false None "" DefaultConfig "" ∅ "" false ∅.

Definition set_State x c := mkChange (ID c) x (Deadline c) (ChError c) (Candidate c) (Previous c) (ChKey c) (ChActor c) (RequestHash c).
Definition set_Deadline x c := mkChange (ID c) (State c) x (ChError c) (Candidate c) (Previous c) (ChKey c) (ChActor c) (RequestHash c).
Definition set_ChError x c := mkChange (ID c) (State c) (Deadline c) x (Candidate c) (Previous c) (ChKey c) (ChActor c) (RequestHash c).

Definition set_Startup x s := mkDisk (HasConfirmed s) x (BootID s) (Confirmed s) (BridgeMAC s) (Services s) (Pending s) (NeedsConfig s) (Changes s).
Definition set_Confirmed x s := mkDisk (HasConfirmed s) (Startup s) (BootID s) x (BridgeMAC s) (Services s) (Pending s) (NeedsConfig s) (Changes s).
Definition set_BridgeMAC x s := mkDisk (HasConfirmed s) (Startup s) (BootID s) (Confirmed s) x (Services s) (Pending s) (NeedsConfig s) (Changes s).
Definition set_Services x s := mkDisk (HasConfirmed s) (Startup s) (BootID s) (Confirmed s) (BridgeMAC s) x (Pending s) (NeedsConfig s) (Changes s).
Definition set_Pending x s := mkDisk (HasConfirmed s) (Startup s) (BootID s) (Confirmed s) (BridgeMAC s) (Services s) x (NeedsConfig s) (Changes s).
Definition set_NeedsConfig x s := mkDisk (HasConfirmed s) (Startup s) (BootID s) (Confirmed s) (BridgeMAC s) (Services s) (Pending s) x (Changes s).
Definition set_Changes x s := mkDisk (HasConfirmed s) (Startup s) (BootID s) (Confirmed s) (BridgeMAC s) (Services s) (Pending s) (NeedsConfig s) x.
Definition set_BootID x s := mkDisk (HasConfirmed s) (Startup s) x (Confirmed s) (BridgeMAC s) (Services s) (Pending s) (NeedsConfig s) (Changes s).
Definition set_HasConfirmed x s := mkDisk x (Startup s) (BootID s) (Confirmed s) (BridgeMAC s) (Services s) (Pending s) (NeedsConfig s) (Changes s).
Definition put_change id c s := set_Changes (<[id := c]> (Changes s)) s.

(** Looking up a missing key of a Go map gives the zero value. *)
Definition zero_config : Config := mkConfig 0 [] [] (mkIPv4 "" "" "" "") [] "".
Definition zero_change : Change := mkChange "" "" 0 "" zero_config zero_config "" "" "".
Definition zero_service : Service := mkService "" "" "".
Definition service_at (id : string) (services : gmap string Service) : Service := default zero_service (services !! id).
Definition change_at (id : string) (s : diskState) : Change := default zero_change (Changes s !! id).

(** [network.toml]: missing, unreadable, not decodable, or decoded over the
    defaults. *)
Inductive source := Missing | ReadError | BadToml | Toml (c : Config).

(** What survives a crash.  The kernel's configuration is unknown after a
    failed application. *)
Record Disk := mkDurable { journal : file diskState; config_file : source; kernel : option Config; armed : gset string }.

Record W := mkW { disk : Disk; past : list Disk; tick : nat }.

Inductive err := Rpc (e : Error) | Plain (m : string).
Definition conflict (m : string) : err := Rpc (RPCError "network.conflict" m).
Definition not_found (m : string) : err := Rpc (RPCError "network.not_found" m).
Definition bad_request (m : string) : err := Rpc (invalid m).
Definition err_text (e : err) : string := match e with Rpc e => Message e | Plain m => m end.

Abbreviation cmd := (prog err W).

(** ** The oracle *)
Class HostEnv := {
  lock_ok : nat -> bool;
  write_ok : nat -> wstep -> bool;
  live_answer : nat -> result string Live;
  apply_answer : nat -> option string;
  arm_answer : nat -> option string;
  cancel_answer : nat -> option string;
  service_answer : nat -> Service -> bool -> option string;
  map_order : nat -> list (string * Service) -> list (string * Service);
  map_order_perm : forall n l, map_order n l ≡ₚ l;
  archive_answer : nat -> option string;
  boot_id : nat -> option string;
  clock : nat -> Z;
  new_id : nat -> string;
  patience : nat -> nat;
  Revision : Config -> string }.

Section Manager.
Context `{IPv6Text} `{HostEnv}.

(** Every step moves to a durable state, which is recorded. *)
Definition record (d : Disk) (w : W) : W := mkW d (d :: past w) (S (tick w)).

Definition effect {A} (f : nat -> Disk -> result err A * Disk) : cmd A := fun w =>
  let '(r, d) := f (tick w) (disk w) in (r, record d w).

Definition answer_of (o : option string) : result err unit :=
  match o with None => Ok tt | Some m => Err (Plain m) end.

(** [atomicWrite] is the same sequence of calls as [WriteFile]. *)
Definition save (s : diskState) : cmd unit := effect (fun n d =>
  let '(ok, j) := WriteFile (write_ok n) s (journal d) in
  (if ok then Ok tt else Err (Plain "write journal"), mkDurable j (config_file d) (kernel d) (armed d))).

Definition writeConfig (c : Config) : cmd unit := effect (fun n d =>
  let '(ok, j) := WriteFile (write_ok n) c Absent in
  (if ok then Ok tt else Err (Plain "write network.toml"),
   mkDurable (journal d) (match j with Content c => Toml c | _ => config_file d end) (kernel d) (armed d))).

Definition Apply (previous c : Config) : cmd unit := effect (fun n d =>
  (answer_of (apply_answer n),
   mkDurable (journal d) (config_file d) (match apply_answer n with None => Some c | Some _ => None end) (armed d))).
Definition Arm (id : string) : cmd unit := effect (fun n d =>
  (answer_of (arm_answer n),
   mkDurable (journal d) (config_file d) (kernel d) (match arm_answer n with None => {[id]} ∪ armed d | Some _ => armed d end))).
Definition Cancel (id : string) : cmd unit := effect (fun n d =>
  (answer_of (cancel_answer n),
   mkDurable (journal d) (config_file d) (kernel d) (match cancel_answer n with None => armed d ∖ {[id]} | Some _ => armed d end))).
Definition SetAddress (service : Service) (add : bool) : cmd unit := effect (fun n d => (answer_of (service_answer n service add), d)).
Definition ArchiveLegacy : cmd unit := effect (fun n d => (answer_of (archive_answer n), d)).
Definition LiveNow : cmd Live := effect (fun n d =>
  (match live_answer n with Ok l => Ok l | Err m => Err (Plain m) end, d)).
Definition Now : cmd Z := effect (fun n d => (Ok (clock n), d)).
Definition NewID : cmd string := effect (fun n d => (Ok (new_id n), d)).
Definition ReadBootID : cmd string := effect (fun n d =>
  (match boot_id n with Some b => Ok b | None => Err (Plain "boot_id") end, d)).

(** [locked]: the exclusive lock, then the journal; a missing one is the
    initial state. *)
Definition locked {A} (fn : diskState -> cmd A) : cmd A := fun w =>
  if negb (lock_ok (tick w)) then (Err (Plain "lock"), w)
  else match journal (disk w) with
       | Absent => fn initial_state w
       | Unreadable => (Err (Plain "network journal"), w)
       | Content s => fn s w
       end.

(** [snapshot]: reads without the lock; a missing journal is an error. *)
Definition snapshot : cmd diskState := fun w =>
  (match journal (disk w) with Content s => Ok s | _ => Err (Plain "read journal") end, w).

(** ** Services *)

Definition contains (values : list string) (want : string) : bool := bool_decide (want ∈ values).

Definition parseService (s : Service) : result err Prefix :=
  let bad := Err (bad_request "invalid service address or ownership") in
  match ParsePrefix (SvcAddress s) with
  | None => bad
  | Some p =>
      if negb (Is4 (pAddr p)) || negb (IsGlobalUnicast (pAddr p)) || (Bits p <? 1) || (30 <? Bits p) ||
         bool_decide (pAddr p = pAddr (Masked p)) || isBroadcast (pAddr p) (Bits p) ||
         bool_decide (StackID s = "") || bool_decide (PoolID s = "")
      then bad else Ok p
  end.

Fixpoint validate_loop (prefix : Prefix) (gateway : string) (services : list Service) : result err unit :=
  match services with
  | [] => Ok tt
  | service :: services =>
      p ← parseService service;
      if negb (bool_decide (Masked prefix = Masked p)) || bool_decide (pAddr prefix = pAddr p) ||
         bool_decide (gateway = AddrString (pAddr p))
      then Err (conflict "configuration would invalidate active service addresses")
      else validate_loop prefix gateway services
  end.

Definition validateServices (c : Config) (services : gmap string Service) : result err unit :=
  if negb (bool_decide (Mode (ConfIPv4 c) = "static")) then Ok tt
  else
    let prefix := match Prefix_of (ConfIPv4 c) with Ok p => p | Err _ => mkPrefix Invalid 0 end in
    validate_loop prefix (Gateway (ConfIPv4 c)) ((map_to_list services).*2).

Definition primaryAddresses (addresses : list string) (services : gmap string Service) : list string :=
  filter (fun value => forallb (fun s => negb (bool_decide (SvcAddress s = value))) ((map_to_list services).*2) = true) addresses.

Definition services_fit (l : Live) (services : gmap string Service) : bool :=
  forallb (fun s => Compatible (SvcAddress s) (primaryAddresses (Addresses l) services)) ((map_to_list services).*2).

(** [verifyServices]: polls until the lease fits or patience runs out. *)
Fixpoint verify_loop (polls : nat) (services : gmap string Service) : cmd unit :=
  l ← LiveNow;
  if services_fit l services then ret tt
  else match polls with
       | O => fail (Plain "DHCP lease is incompatible with active service pools")
       | S polls => verify_loop polls services
       end.
Definition verifyServices (services : gmap string Service) : cmd unit := fun w =>
  if decide (services = ∅) then (Ok tt, w) else verify_loop (patience (tick w)) services w.

Definition verify_dhcp (c : Config) (services : gmap string Service) : cmd unit :=
  if decide (Mode (ConfIPv4 c) = "dhcp") then verifyServices services else ret tt.

(** ** Start-up *)

(** The configuration [Initialize] starts from. *)
Definition load_config (s : diskState) : cmd Config := fun w =>
  match config_file (disk w) with
  | Toml c0 =>
      match Validate c0 with
      | Ok c => (Ok c, w)
      | Err e => if HasConfirmed s then (Ok (Confirmed s), w)
                 else (Err (Plain "invalid network.toml without confirmed fallback"), w)
      end
  | BadToml => if HasConfirmed s then (Ok (Confirmed s), w)
               else (Err (Plain "invalid network.toml without confirmed fallback"), w)
  | ReadError => if HasConfirmed s then (Ok DefaultConfig, w) else (Err (Plain "read network.toml"), w)
  | Missing => (ArchiveLegacy;; ret DefaultConfig) w
  end.

Definition validated (c : Config) : cmd Config :=
  of_result (match Validate c with Ok c => Ok c | Err e => Err (Rpc e) end).

(** The first eligible adapter that is not excluded owns the bridge. *)
Definition choose_bridge (l : Live) (c : Config) : option string :=
  PermanentMAC <$> head (filter (fun a => Eligible a && negb (contains (ExcludedMACs c) (PermanentMAC a)) = true) (Adapters l)).

Definition Initialize : cmd unit := locked (fun s =>
  c ← load_config s;
  let '(c, s) := if NeedsConfig s then (Confirmed s, set_NeedsConfig false s) else (c, s) in
  bootID ← ReadBootID;
  let s := if decide (BootID s = bootID) then s else set_BootID bootID (set_Services ∅ s) in
  let previous := Confirmed s in
  let '(previous, c) := match Startup s with
    | Some st => (st, if HasConfirmed s then Confirmed s else c)
    | None => (previous, c) end in
  let recovering := Pending s in
  let '(previous, c) := if decide (recovering = "") then (previous, c)
                        else (Candidate (change_at recovering s), Confirmed s) in
  c ← validated c;
  l ← LiveNow;
  s ← (if decide (BridgeMAC s = "") then
         match choose_bridge l c with
         | Some mac => if decide (mac = "") then fail (Plain "no eligible Ethernet adapter for LAN bridge")
                       else ret (set_BridgeMAC mac s)
         | None => fail (Plain "no eligible Ethernet adapter for LAN bridge")
         end
       else ret s);
  of_result (validateServices c (Services s));;
  let s := set_Startup (Some c) s in
  save s;;
  Apply previous c;;
  verify_dhcp c (Services s);;
  let s := if decide (recovering = "") then s
           else set_Pending "" (put_change recovering
             (set_ChError "unconfirmed change recovered on startup" (set_State "rolled_back" (change_at recovering s))) s) in
  let s := set_NeedsConfig true (set_Startup None (set_HasConfirmed true (set_Confirmed c s))) in
  save s;;
  writeConfig c;;
  save (set_NeedsConfig false s)).

(** ** Changes *)

Definition Get (id : string) : cmd Change :=
  s ← snapshot;
  match Changes s !! id with Some c => ret c | None => fail (not_found "network change not found") end.

Definition find_request (key actor : string) (s : diskState) : option Change :=
  snd <$> head (filter (fun x => ChKey x.2 = key /\ ChActor x.2 = actor) (map_to_list (Changes s))).

(** [Submit] up to the launch of [apply]: [true] means it runs next. *)
Definition Submit (p : ApplyPayload) : cmd (Change * bool) := locked (fun s =>
  if bool_decide (Key p = "") || (255 <? String.length (Key p))%nat || bool_decide (Actor p = "")
  then fail (bad_request "idempotency key and authenticated actor required")
  else
    config ← validated (PConfig p);
    let hash := PRevision p +:+ ":" +:+ Revision config in
    match find_request (Key p) (Actor p) s with
    | Some c => if negb (bool_decide (RequestHash c = hash))
                then fail (conflict "idempotency key already used for another request")
                else ret (c, false)
    | None =>
        if negb (bool_decide (Pending s = "")) then fail (conflict "a network change is outstanding")
        else if negb (bool_decide (PRevision p = Revision (Confirmed s))) then fail (conflict "stale network revision")
        else
          of_result (validateServices config (Services s));;
          l ← LiveNow;
          let eligible := PermanentMAC <$> filter (fun a => Eligible a = true) (Adapters l) in
          if negb (forallb (fun b => forallb (contains eligible) (Members b)) (Bonds config))
          then fail (bad_request "bond member is not an available Ethernet adapter")
          else if forallb (contains (ExcludedMACs config)) eligible
          then fail (bad_request "configuration must retain an Ethernet uplink")
          else
            id ← NewID;
            let c := mkChange id "applying" 0 "" config (Confirmed s) (Key p) (Actor p) hash in
            save (put_change id c (set_Pending id s));;
            ret (c, true)
    end).

Definition microsecond (t : Z) : Z := t - t mod 1000.

(** [restore]: the kernel first, then the file, then the journal. *)
Definition restore (s : diskState) (id reason : string) : cmd unit :=
  let c := change_at id s in
  r ← attempt (Apply (Candidate c) (Previous c);; verify_dhcp (Previous c) (Services s));
  match r with
  | Err e =>
      attempt (save (put_change id (set_ChError (reason +:+ ": rollback failed: " +:+ err_text e) (set_State "failed" c)) s));;
      fail e
  | Ok _ =>
      writeConfig (Previous c);;
      let s := set_Confirmed (Previous c) s in
      let c := set_State "rolled_back" c in
      let c := if decide (ChError c = "") then set_ChError reason c else c in
      save (set_Pending "" (put_change id c s));;
      attempt (Cancel id);; ret tt
  end.

Definition apply (id : string) : cmd unit := locked (fun s =>
  if negb (bool_decide (Pending s = id)) then ret tt
  else
    now ← Now;
    let c := set_Deadline (microsecond (now + 60000000000)) (change_at id s) in
    let s := put_change id c s in
    save s;;
    r ← attempt (Arm id);
    match r with
    | Err e =>
        save (set_Pending "" (put_change id (set_ChError ("cannot arm rollback: " +:+ err_text e) (set_State "failed" c)) s))
    | Ok _ =>
        r ← attempt (Apply (Previous c) (Candidate c);; verify_dhcp (Candidate c) (Services s));
        match r with
        | Err e =>
            restore (put_change id (set_ChError (err_text e) c) s) id "apply failed"
        | Ok _ =>
            now ← Now;
            if negb (now <? Deadline c) then restore s id "confirmation deadline expired during apply"
            else save (put_change id (set_State "awaiting_confirmation" c) s)
        end
    end).

Definition Confirm (id : string) : cmd Change :=
  locked (fun s =>
    match Changes s !! id with
    | None => fail (not_found "network change not found")
    | Some c =>
        if decide (State c = "confirmed") then ret tt
        else if negb (bool_decide (Pending s = id)) || negb (bool_decide (State c = "awaiting_confirmation"))
        then fail (conflict "change cannot be confirmed")
        else
          now ← Now;
          if negb (now <? Deadline c) then
            restore s id "confirmation deadline expired";;
            fail (conflict "confirmation deadline expired")
          else
            let s := set_Pending "" (put_change id (set_State "confirmed" c)
                       (set_NeedsConfig true (set_Confirmed (Candidate c) s))) in
            save s;;
            writeConfig (Candidate c);;
            save (set_NeedsConfig false s);;
            attempt (Cancel id);; ret tt
    end);;
  Get id.

Definition Rollback (id : string) (expiredOnly : bool) : cmd Change :=
  locked (fun s =>
    match Changes s !! id with
    | None => fail (not_found "network change not found")
    | Some c =>
        if negb (bool_decide (Pending s = id)) then
          (if bool_decide (State c = "rolled_back") || bool_decide (State c = "confirmed") then ret tt
           else fail (conflict "change is not pending"))
        else
          now ← Now;
          if expiredOnly && (now <? Deadline c) then fail (conflict "rollback timer fired before deadline")
          else restore s id "network change not confirmed"
    end);;
  Get id.

Definition Retry (p : ApplyPayload) : cmd (option Change) :=
  config ← validated (PConfig p);
  s ← snapshot;
  let hash := PRevision p +:+ ":" +:+ Revision config in
  match find_request (Key p) (Actor p) s with
  | Some c => if negb (bool_decide (RequestHash c = hash))
              then fail (conflict "idempotency key already used for another request")
              else ret (Some c)
  | None => ret None
  end.

(** ** Service addresses *)

Definition SetService (service : Service) (add : bool) : cmd unit := locked (fun s =>
  if negb add && bool_decide (Services s !! StackID service = None) then ret tt
  else if negb (bool_decide (Pending s = "")) then fail (conflict "network configuration change outstanding")
  else
    of_result (parseService service);;
    if add then
      l ← LiveNow;
      if negb (Compatible (SvcAddress service) (primaryAddresses (Addresses l) (Services s)))
      then fail (conflict "service address is incompatible with LAN subnet")
      else
        of_result (validateServices (Confirmed s) {[StackID service := service]});;
        if existsb (fun x => negb (bool_decide (x.1 = StackID service)) && bool_decide (SvcAddress x.2 = SvcAddress service))
             (map_to_list (Services s))
        then fail (conflict "service address already owned")
        else if match Services s !! StackID service with Some old => negb (bool_decide (old = service)) | None => false end
        then fail (conflict "stack already owns another address")
        else
          save (set_Services (<[StackID service := service]> (Services s)) s);;
          SetAddress service true
    else
      match Services s !! StackID service with
      | None => ret tt
      | Some existing =>
          if negb (bool_decide (existing = service)) then fail (conflict "service ownership mismatch")
          else
            SetAddress existing false;;
            save (set_Services (delete (StackID service) (Services s)) s)
      end).

Definition MigrateDefault (poolID : string) : cmd unit := locked (fun s =>
  if negb (bool_decide (Pending s = "")) then fail (conflict "network change outstanding")
  else if negb (bool_decide (DefaultPoolID (Confirmed s) = "")) then ret tt
  else
    let c := Confirmed s in
    let c := mkConfig (Version c) (ExcludedMACs c) (Bonds c) (ConfIPv4 c) (DNSServers c) poolID in
    let s := set_NeedsConfig true (set_Confirmed c s) in
    save s;;
    writeConfig c;;
    save (set_NeedsConfig false s)).

(** The wanted services of [SyncServices], checked one by one. *)
Fixpoint collect_services (services : list Service) (fits : Service -> bool) (wanted : gmap string Service)
    (addresses : gset string) : result err (gmap string Service) :=
  match services with
  | [] => Ok wanted
  | service :: services =>
      _ ← parseService service;
      if bool_decide (is_Some (wanted !! StackID service)) || bool_decide (SvcAddress service ∈ addresses)
      then Err (bad_request "duplicate service ownership")
      else if negb (fits service) then Err (conflict "service subnet is not compatible")
      else collect_services services fits (<[StackID service := service]> wanted) ({[SvcAddress service]} ∪ addresses)
  end.

Fixpoint remove_services (todo : list (string * Service)) (wanted : gmap string Service) (s : diskState) : cmd diskState :=
  match todo with
  | [] => ret s
  | (id, service) :: todo =>
      if bool_decide (service_at id wanted = service) then remove_services todo wanted s
      else
        SetAddress service false;;
        let s := set_Services (delete id (Services s)) s in
        save s;;
        remove_services todo wanted s
  end.

Fixpoint add_services (todo : list (string * Service)) (live : list string) (s : diskState) : cmd unit :=
  match todo with
  | [] => ret tt
  | (id, service) :: todo =>
      if bool_decide (service_at id (Services s) = service) && contains live (SvcAddress service) then add_services todo live s
      else
        let s := set_Services (<[id := service]> (Services s)) s in
        save s;;
        SetAddress service true;;
        add_services todo live s
  end.

(** Go visits the entries of a map in an order of its own. *)
Definition ranged (services : gmap string Service) : cmd (list (string * Service)) := fun w =>
  (Ok (map_order (tick w) (map_to_list services)), w).

Definition SyncServices (services : list Service) : cmd unit := locked (fun s =>
  if negb (bool_decide (Pending s = "")) then fail (conflict "network change outstanding")
  else
    l ← LiveNow;
    let fits v := Compatible (SvcAddress v) (primaryAddresses (Addresses l) (Services s)) in
    wanted ← of_result (collect_services services fits ∅ ∅);
    of_result (validateServices (Confirmed s) wanted);;
    old ← ranged (Services s);
    s ← remove_services old wanted s;
    todo ← ranged wanted;
    add_services todo (Addresses l) s).
End Manager.
