(* ===== verification/HostNetSafety.v ===== *)
(** The commit protocol of [HostNetwork.v]: the journal's invariant at every
    moment of every history, who may change the confirmed configuration, and
    recovery at start-up. *)
From S2P Require Import Prelude Release Netip HostConfig Update HostNetwork.

Open Scope string_scope.
Open Scope Z_scope.

(** ** The journal's invariant *)

Definition open_states : list string := ["applying"; "awaiting_confirmation"; "failed"].
Definition closed_states : list string := ["rolled_back"; "confirmed"; "failed"].

Definition valid `{IPv6Text} (c : Config) : Prop := Validate c = Ok c.

Record J `{IPv6Text} (s : diskState) : Prop := {
  j_pending : Pending s <> "" -> exists c, Changes s !! Pending s = Some c /\ State c ∈ open_states /\
                                           Previous c = Confirmed s /\ valid (Candidate c);
  j_closed : forall id c, Changes s !! id = Some c -> id <> Pending s -> State c ∈ closed_states;
  j_keys : forall i j c d, i <> j -> Changes s !! i = Some c -> Changes s !! j = Some d ->
                           ~ (ChKey c = ChKey d /\ ChActor c = ChActor d);
  j_named : Changes s !! "" = None;
  j_valid : valid (Confirmed s) }.

(** The state an operation would read. *)
Definition view (d : Disk) : option diskState :=
  match journal d with Content s => Some s | Absent => Some initial_state | Unreadable => None end.

Section Safe.
Context `{IPv6Text} `{HostEnv}.
(** [R]: the configurations that may be confirmed. *)
Context (R : Config -> Prop).

Definition I (s : diskState) : Prop := J s /\ R (Confirmed s).
Definition good_disk (d : Disk) : Prop := forall s, view d = Some s -> I s.
Definition good (w : W) : Prop := good_disk (disk w) /\ Forall good_disk (past w).

(** [safe m]: [m] keeps the invariant at every step. *)
Definition safe {A} (m : cmd A) : Prop := forall w, good w -> good (m w).2.

Lemma safe_ret {A} (a : A) : safe (ret a).
Proof. by intros w. Qed.
Lemma safe_fail {A} e : safe (fail e : cmd A).
Proof. by intros w. Qed.
Lemma safe_of_result {A} r : safe (of_result r : cmd A).
Proof. by intros w. Qed.
Lemma safe_bind {A B} (m : cmd A) (k : A -> cmd B) : safe m -> (forall a, safe (k a)) -> safe (m ≫= k).
Proof.
  intros Hm Hk w Hw. unfold mbind, prog_mbind, bind. specialize (Hm w Hw).
  destruct (m w) as [[a|e] w']; [by apply Hk|done].
Qed.
Lemma safe_attempt {A} (m : cmd A) : safe m -> safe (attempt m).
Proof. intros Hm w Hw. unfold attempt. specialize (Hm w Hw). by destruct (m w). Qed.

Lemma safe_effect {A} (f : nat -> Disk -> result err A * Disk) :
  (forall n d, good_disk d -> good_disk (f n d).2) -> safe (effect f).
Proof.
  intros Hf w [Hd Hp]. unfold effect. specialize (Hf (tick w) (disk w) Hd).
  destruct (f (tick w) (disk w)) as [r d]. split; [done|]. by constructor.
Qed.

Lemma safe_quiet {A} (f : nat -> Disk -> result err A * Disk) :
  (forall n d, journal (f n d).2 = journal d) -> safe (effect f).
Proof. intros Hf. apply safe_effect. intros n d Hd s. unfold view. rewrite Hf. apply Hd. Qed.

Lemma safe_save s : I s -> safe (save s).
Proof.
  intros Hs. apply safe_effect. intros n d Hd.
  destruct (WriteFile_cases (write_ok n) s (journal d)) as (b & ap & E & _). rewrite E. cbn [snd].
  intros s'. unfold view. cbn [journal]. destruct ap; [by intros [= <-]|]. apply Hd.
Qed.

Lemma safe_writeConfig c : safe (writeConfig c).
Proof. apply safe_quiet. intros n d. by destruct (WriteFile (write_ok n) c Absent). Qed.
Lemma safe_Apply p c : safe (Apply p c).
Proof. by apply safe_quiet. Qed.
Lemma safe_Arm i : safe (Arm i).
Proof. by apply safe_quiet. Qed.
Lemma safe_Cancel i : safe (Cancel i).
Proof. by apply safe_quiet. Qed.
Lemma safe_ranged vs : safe (ranged vs).
Proof. intros w Hw. exact Hw. Qed.
Lemma safe_SetAddress v add : safe (SetAddress v add).
Proof. by apply safe_quiet. Qed.
Lemma safe_ArchiveLegacy : safe ArchiveLegacy.
Proof. by apply safe_quiet. Qed.
Lemma safe_LiveNow : safe LiveNow.
Proof. by apply safe_quiet. Qed.
Lemma safe_Now : safe Now.
Proof. by apply safe_quiet. Qed.
Lemma safe_NewID : safe NewID.
Proof. by apply safe_quiet. Qed.
Lemma safe_ReadBootID : safe ReadBootID.
Proof. by apply safe_quiet. Qed.
End Safe.

Create HintDb safe discriminated.
#[export] Hint Resolve safe_ret safe_fail safe_of_result safe_attempt safe_writeConfig safe_Apply safe_Arm safe_Cancel
  safe_ranged safe_SetAddress safe_ArchiveLegacy safe_LiveNow safe_Now safe_NewID safe_ReadBootID : safe.

(** Walks through a program; what is left are the journal writes. *)
Ltac walk := repeat first
  [ progress intros
  | solve [auto with safe]
  | apply safe_bind
  | apply safe_attempt
  | match goal with
    | |- safe _ (match ?x with _ => _ end) => destruct x eqn:?
    | |- safe _ (let '(_, _) := ?x in _) => destruct x eqn:?
    end ].

Section Programs.
Context `{IPv6Text} `{HostEnv}.
Context (R : Config -> Prop).

Lemma safe_locked {A} (fn : diskState -> cmd A) : (forall s, I R s -> safe R (fn s)) -> safe R (locked fn).
Proof.
  intros Hfn w Hw. unfold locked. destruct (negb (lock_ok (tick w))); [done|].
  pose proof (proj1 Hw) as Hd. unfold good_disk, view in Hd.
  destruct (journal (disk w)) as [| |s]; [|done|]; (apply Hfn; [by apply Hd|done]).
Qed.

Lemma safe_verify_loop n services : safe R (verify_loop n services).
Proof. induction n as [|n IH]; cbn [verify_loop]; walk. Qed.

Lemma safe_verify c services : safe R (verify_dhcp c services).
Proof.
  unfold verify_dhcp. destruct (decide _); [|auto with safe].
  intros w Hw. unfold verifyServices. destruct (decide _); [done|]. by apply safe_verify_loop.
Qed.

(** ** Updates that keep the invariant *)

(** The pending change, while it is open. *)
Record pending_is (s : diskState) (id : string) (c : Change) : Prop := {
  pi_id : id <> "" /\ Pending s = id;
  pi_at : Changes s !! id = Some c;
  pi_open : State c ∈ open_states;
  pi_prev : Previous c = Confirmed s;
  pi_valid : valid (Candidate c) }.

Lemma J_pending s : J s -> Pending s <> "" -> pending_is s (Pending s) (change_at (Pending s) s).
Proof.
  intros HJ Hp. destruct (j_pending _ HJ Hp) as (c & Hc & ? & ? & ?).
  unfold change_at. rewrite Hc. by split.
Qed.

(** The pending change is rewritten and stays open. *)
Lemma J_keep_open s id c c' :
  J s -> pending_is s id c -> State c' ∈ open_states -> Previous c' = Previous c -> Candidate c' = Candidate c ->
  ChKey c' = ChKey c -> ChActor c' = ChActor c ->
  J (put_change id c' s) /\ pending_is (put_change id c' s) id c'.
Proof.
  intros [H1 H2 H3 Hn H4] [[Hi Hp] Ha Ho Hpr Hv] Hs Hpr' Hc' Hk Hact.
  assert (Hpi : pending_is (put_change id c' s) id c').
  { split; cbn; try done; [by rewrite lookup_insert_eq|congruence|congruence]. }
  split; [|done]. split; cbn.
  - intros _. exists c'. rewrite Hp, lookup_insert_eq. split_and!; try done; congruence.
  - intros i x Hx Hne. rewrite lookup_insert_ne in Hx by congruence. by eapply H2.
  - intros i j x y Hij Hx Hy.
    destruct (decide (i = id)) as [->|?], (decide (j = id)) as [->|?]; [done|..];
      rewrite ?lookup_insert_eq, ?lookup_insert_ne in * by done; simplify_eq;
      rewrite ?Hk, ?Hact; (eapply H3; [exact Hij|eassumption|eassumption]).
  - by rewrite lookup_insert_ne.
  - done.
Qed.

(** The pending change is closed; [c1] is confirmed. *)
Lemma J_close s id c c' c1 :
  J s -> pending_is s id c -> State c' ∈ closed_states -> ChKey c' = ChKey c -> ChActor c' = ChActor c -> valid c1 ->
  J (set_Pending "" (put_change id c' (set_Confirmed c1 s))).
Proof.
  intros [H1 H2 H3 Hn H4] [[Hi Hp] Ha Ho Hpr Hv] Hs Hk Hact Hc1. split; cbn.
  - done.
  - intros i x Hx _. destruct (decide (i = id)) as [->|Hne].
    + rewrite lookup_insert_eq in Hx. by injection Hx as <-.
    + rewrite lookup_insert_ne in Hx by done. eapply H2; [done|congruence].
  - intros i j x y Hij Hx Hy.
    destruct (decide (i = id)) as [->|?], (decide (j = id)) as [->|?]; [done|..];
      rewrite ?lookup_insert_eq, ?lookup_insert_ne in * by done; simplify_eq;
      rewrite ?Hk, ?Hact; (eapply H3; [exact Hij|eassumption|eassumption]).
  - by rewrite lookup_insert_ne.
  - done.
Qed.

(** Only the fields the invariant reads matter. *)
Lemma J_frame s s' :
  Pending s' = Pending s -> Changes s' = Changes s -> Confirmed s' = Confirmed s -> J s -> J s'.
Proof. intros Hp Hc Hf [H1 H2 H3 Hn H4]. split; rewrite ?Hp, ?Hc, ?Hf; done. Qed.

Lemma I_frame s s' :
  Pending s' = Pending s -> Changes s' = Changes s -> Confirmed s' = Confirmed s -> I R s -> I R s'.
Proof. intros Hp Hc Hf [HJ HR]. split; [by eapply J_frame|by rewrite Hf]. Qed.

Lemma open_not_closed x : x ∈ open_states -> x ∈ closed_states -> x = "failed".
Proof.
  unfold open_states, closed_states. rewrite !elem_of_cons, !elem_of_nil.
  intros [->|[->|[->|[]]]]; intuition discriminate.
Qed.

(** ** The operations *)

Lemma safe_restore s id c reason : I R s -> pending_is s id c -> safe R (restore s id reason).
Proof.
  intros [HJ HR] Hp. unfold restore. unfold change_at. rewrite (pi_at _ _ _ Hp).
  change (default zero_change (Some c)) with c.
  apply safe_bind; [walk; auto using safe_verify|]. intros [[]|e].
  - apply safe_bind; [auto with safe|]. intros [].
    apply safe_bind; [|intros []; walk]. apply safe_save.
    assert (Hprev : Previous c = Confirmed s) by apply Hp.
    split; cbn; [|by rewrite Hprev].
    apply (J_close s id c); try done.
    + destruct (decide _); cbn; unfold closed_states; set_solver.
    + by destruct (decide _).
    + by destruct (decide _).
    + rewrite Hprev. apply HJ.
  - walk. apply safe_save. split; [|done].
    apply (J_keep_open s id c); try done. unfold open_states. cbn. set_solver.
Qed.

Lemma safe_apply i : i <> "" -> safe R (apply i).
Proof.
  intros Hi. unfold apply. apply safe_locked. intros s [HJ HR].
  destruct (negb (bool_decide (Pending s = i))) eqn:Hp; [auto with safe|]. to_prop. subst i.
  pose proof (J_pending s HJ Hi) as Hpi. set (c0 := change_at (Pending s) s) in *.
  apply safe_bind; [auto with safe|]. intros now. cbv zeta.
  set (c := set_Deadline _ c0). set (id := Pending s) in *.
  destruct (J_keep_open s id c0 c HJ Hpi) as [HJ1 Hp1]; try done; [apply Hpi|].
  set (s1 := put_change id c s) in *.
  assert (HI1 : I R s1) by (by split).
  apply safe_bind; [by apply safe_save|]. intros [].
  apply safe_bind; [auto with safe|]. intros [[]|e].
  - apply safe_bind; [walk; auto using safe_verify|]. intros [[]|e].
    + apply safe_bind; [auto with safe|]. intros now2.
      destruct (negb _); [by eapply safe_restore|].
      apply safe_save. split; [|done]. apply (J_keep_open s1 id c); try done. unfold open_states. cbn. set_solver.
    + destruct (J_keep_open s1 id c (set_ChError (err_text e) c) HJ1 Hp1) as [HJ2 Hp2]; try done; [apply Hp1|].
      eapply safe_restore; [split; [exact HJ2|done]|exact Hp2].
  - apply safe_save. split; [|done].
    apply (J_frame (set_Pending "" (put_change id
      (set_ChError ("cannot arm rollback: " +:+ err_text e) (set_State "failed" c)) (set_Confirmed (Confirmed s1) s1)))); try done.
    apply (J_close s1 id c); try done; [unfold closed_states; cbn; set_solver|apply HJ].
Qed.

Lemma safe_Get i : safe R (Get i).
Proof. unfold Get. apply safe_bind; [by intros w|]. intros s. walk. Qed.

(** [Confirm] commits a candidate only from [awaiting_confirmation] and before
    its deadline, read from the clock as the first step under the lock. *)
Lemma good_Confirm i w :
  good R w ->
  (forall s c, view (disk w) = Some s -> Changes s !! i = Some c -> Pending s = i ->
     State c = "awaiting_confirmation" -> clock (tick w) < Deadline c -> R (Candidate c)) ->
  good R (Confirm i w).2.
Proof.
  intros Hw HR. unfold Confirm.
  match goal with |- good _ ((?m ≫= _) _).2 => assert (Hm : good R (m w).2) end.
  2: { unfold mbind, prog_mbind, bind. destruct (locked _ w) as [[a|e] w']; [by apply safe_Get|done]. }
  unfold locked. destruct (negb (lock_ok (tick w))); [done|].
  assert (Hbody : forall s, view (disk w) = Some s -> good R
    ((match Changes s !! i with
      | None => fail (not_found "network change not found")
      | Some c =>
          if decide (State c = "confirmed") then ret tt
          else if negb (bool_decide (Pending s = i)) || negb (bool_decide (State c = "awaiting_confirmation"))
          then fail (conflict "change cannot be confirmed")
          else
            now ← Now;
            if negb (now <? Deadline c) then
              restore s i "confirmation deadline expired";;
              fail (conflict "confirmation deadline expired")
            else
              let s := set_Pending "" (put_change i (set_State "confirmed" c)
                         (set_NeedsConfig true (set_Confirmed (Candidate c) s))) in
              save s;;
              writeConfig (Candidate c);;
              save (set_NeedsConfig false s);;
              attempt (Cancel i);; ret tt
      end : cmd unit) w).2).
  { intros s Hv. pose proof (proj1 Hw s Hv) as HI. pose proof HI as [HJ HRs].
    destruct (Changes s !! i) as [c|] eqn:Hc; [|done].
    destruct (decide (State c = "confirmed")); [done|].
    destruct (_ || _) eqn:Hp; [done|]. to_prop.
    assert (Hi : i <> "") by (intros ->; pose proof (j_named _ HJ); congruence).
    assert (Hpi : pending_is s i c).
    { pose proof (J_pending s HJ) as HP.
      assert (Hps : Pending s = i) by done. rewrite Hps in HP. specialize (HP Hi). unfold change_at in HP. rewrite Hc in HP. exact HP. }
    unfold mbind at 1, prog_mbind at 1, bind at 1, Now, effect. cbn [fst snd].
    set (w1 := record (disk w) w).
    assert (Hw1 : good R w1) by (destruct Hw; split; [done|by constructor]). clearbody w1.
    destruct (clock (tick w) <? Deadline c) eqn:Hclk; cbn [negb].
    - apply Z.ltb_lt in Hclk.
      assert (Hfin : I R (set_Pending "" (put_change i (set_State "confirmed" c)
                         (set_NeedsConfig true (set_Confirmed (Candidate c) s))))).
      { split; [|cbn; by eapply HR].
        eapply (J_frame (set_Pending "" (put_change i (set_State "confirmed" c) (set_Confirmed (Candidate c) s)))); try done.
        apply (J_close s i c); try done; [unfold closed_states; cbn; set_solver|apply Hpi]. }
      revert w1 Hw1. cbv zeta.
      match goal with |- forall w1, _ -> good R (?m w1).2 => assert (Hs : safe R m) end; [|auto].
      apply safe_bind; [by apply safe_save|]. intros []. apply safe_bind; [auto with safe|]. intros [].
      apply safe_bind; [apply safe_save; eapply I_frame; [| | |exact Hfin]; done|]. intros []. walk.
    - revert w1 Hw1. match goal with |- forall w1, _ -> good R (?m w1).2 => assert (Hs : safe R m) end; [|auto].
      apply safe_bind; [by eapply safe_restore|]. intros []. auto with safe. }
  unfold view in Hbody. destruct (journal (disk w)) as [| |s]; [by apply Hbody|done|by apply Hbody].
Qed.

Lemma safe_Rollback i expired : safe R (Rollback i expired).
Proof.
  unfold Rollback. apply safe_bind; [|intros []; apply safe_Get].
  apply safe_locked. intros s HI. pose proof HI as [HJ _].
  destruct (Changes s !! i) as [c|] eqn:Hc; [|auto with safe].
  destruct (negb (bool_decide (Pending s = i))) eqn:Hp; [walk|]. to_prop. subst i.
  assert (Hi : Pending s <> "") by (intros E; pose proof (j_named _ HJ); congruence).
  apply safe_bind; [auto with safe|]. intros now. destruct (_ && _); [auto with safe|].
  eapply safe_restore; [done|by apply J_pending].
Qed.

Lemma find_request_None k a s : find_request k a s = None ->
  forall i c, Changes s !! i = Some c -> ~ (ChKey c = k /\ ChActor c = a).
Proof.
  unfold find_request. intros Hf i c Hc Hka.
  destruct (filter _ (map_to_list (Changes s))) as [|x l] eqn:E; [|done].
  assert (Hin : (i, c) ∈ filter (fun x => ChKey x.2 = k /\ ChActor x.2 = a) (map_to_list (Changes s))).
  { apply list_elem_of_filter. split; [done|by apply elem_of_map_to_list]. }
  rewrite E in Hin. by apply elem_of_nil in Hin.
Qed.

(** A new pending change. *)
Lemma J_open s i c :
  J s -> Pending s = "" -> i <> "" -> State c = "applying" -> Previous c = Confirmed s -> valid (Candidate c) ->
  (forall j d, Changes s !! j = Some d -> ~ (ChKey d = ChKey c /\ ChActor d = ChActor c)) ->
  J (put_change i c (set_Pending i s)).
Proof.
  intros [H1 H2 H3 Hn H4] Hp Hi Hs Hpr Hv Hfresh. split; cbn.
  - intros _. exists c. rewrite lookup_insert_eq, Hs. split_and!; try done. unfold open_states. set_solver.
  - intros j x Hx Hne. rewrite lookup_insert_ne in Hx by congruence. eapply H2; [done|].
    rewrite Hp. intros ->. congruence.
  - intros j k x y Hjk Hx Hy.
    destruct (decide (j = i)) as [->|?], (decide (k = i)) as [->|?]; [done|..];
      rewrite ?lookup_insert_eq, ?lookup_insert_ne in * by done; simplify_eq.
    + intros [? ?]. eapply Hfresh; [exact Hy|by split].
    + by eapply Hfresh.
    + eapply H3; [exact Hjk|eassumption|eassumption].
  - by rewrite lookup_insert_ne.
  - done.
Qed.

Lemma safe_Submit p : (forall n, new_id n <> "") -> safe R (Submit p).
Proof.
  intros Hid. apply safe_locked. intros s HI. pose proof HI as [HJ HRs].
  destruct (_ || _); [auto with safe|].
  intros w Hw. unfold mbind at 1, prog_mbind at 1, bind at 1, validated at 1, of_result at 1.
  destruct (Validate (PConfig p)) as [config|e] eqn:Hv; [|done]. cbn [fst snd].
  revert w Hw. match goal with |- forall w, _ -> good R (?m w).2 => change (safe R m) end. cbv zeta.
  destruct (find_request (Key p) (Actor p) s) as [c|] eqn:Hf; [walk|].
  destruct (negb (bool_decide (Pending s = ""))) eqn:Hp; [auto with safe|]. to_prop.
  destruct (negb _); [auto with safe|].
  apply safe_bind; [auto with safe|]. intros []. apply safe_bind; [auto with safe|]. intros l.
  destruct (negb _); [auto with safe|]. destruct (forallb _ _); [auto with safe|].
  intros w Hw. unfold mbind at 1, prog_mbind at 1, bind at 1, NewID, effect. cbn [fst snd].
  assert (Hw1 : good R (record (disk w) w)) by (destruct Hw; split; [done|by constructor]).
  revert Hw1. generalize (record (disk w) w). intros w1 Hw1. revert w1 Hw1.
  match goal with |- forall w, _ -> good R (?m w).2 => change (safe R m) end.
  apply safe_bind; [|intros []; auto with safe]. apply safe_save. split; [|done].
  apply J_open; cbn; try done.
  - by eapply Validate_idem.
  - intros j d Hd. by eapply find_request_None.
Qed.

Lemma safe_SetService v add : safe R (SetService v add).
Proof.
  apply safe_locked. intros s HI.
  destruct (_ && _); [auto with safe|]. destruct (negb _); [auto with safe|].
  walk; apply safe_save; by apply (I_frame s).
Qed.

Lemma I_services s x : I R s -> I R (set_Services x s).
Proof. by apply I_frame. Qed.

Lemma safe_SyncServices vs : safe R (SyncServices vs).
Proof.
  apply safe_locked. intros s HI. destruct (negb _); [auto with safe|].
  apply safe_bind; [auto with safe|]. intros l. cbv zeta. apply safe_bind; [auto with safe|]. intros wanted.
  apply safe_bind; [auto with safe|]. intros []. apply safe_bind; [auto with safe|]. intros old.
  assert (Hadd : forall todo live s, I R s -> safe R (add_services todo live s)).
  { clear s HI. induction todo as [|[i v] todo IH]; intros live s HI; cbn [add_services]; [auto with safe|].
    destruct (_ && _); [by apply IH|]. cbv zeta. pose proof (I_services s (<[i:=v]> (Services s)) HI) as HI'.
    apply safe_bind; [by apply safe_save|]. intros []. apply safe_bind; [auto with safe|]. intros []. by apply IH. }
  (* the state after the removals keeps the invariant *)
  assert (Hrem : forall todo s, I R s -> forall k, (forall s', I R s' -> safe R (k s')) ->
    safe R (remove_services todo wanted s ≫= (k : diskState -> cmd unit))).
  { clear s HI. induction todo as [|[i v] todo IH]; intros s HI k Hk; cbn [remove_services].
    - intros w Hw. by apply Hk.
    - destruct (bool_decide _); [by apply IH|]. cbv zeta.
      pose proof (I_services s (delete i (Services s)) HI) as HI'.
      intros w Hw. unfold mbind, prog_mbind.
      match goal with |- good R (bind (bind ?a (fun _ => bind ?b (fun _ => ?c))) ?k w).2 =>
        replace (bind (bind a (fun _ => bind b (fun _ => c))) k w) with (bind a (fun _ => bind b (fun _ => bind c k)) w) end.
      2: { unfold bind. destruct (SetAddress v false w) as [[?|?] w1]; [|done]. by destruct (save _ w1) as [[?|?] w2]. }
      revert w Hw. match goal with |- forall w, _ -> good R (?m w).2 => change (safe R m) end.
      apply safe_bind; [auto with safe|]. intros []. apply safe_bind; [by apply safe_save|]. intros [].
      by apply IH. }
  apply Hrem; [done|]. intros s' Hs'. apply safe_bind; [auto with safe|]. intros todo. by apply Hadd.
Qed.

(** ** The operations that may confirm another configuration *)

Definition with_pool (pool : string) (c : Config) : Config :=
  mkConfig (Version c) (ExcludedMACs c) (Bonds c) (ConfIPv4 c) (DNSServers c) pool.

Lemma valid_with_pool pool c : has_control pool = false -> valid c -> valid (with_pool pool c).
Proof.
  unfold valid, Validate. cbn [Version ExcludedMACs Bonds ConfIPv4 DNSServers DefaultPoolID with_pool].
  intros Hp. destruct (negb (Version c =? 1)); [done|].
  destruct (claim_macs _ (ExcludedMACs c) ∅) as [[ex used]|e]; [|done]. cbn [mbind result_mbind].
  destruct (check_bonds (Bonds c) ∅ used) as [[bs used2]|e]; [|done]. cbn [mbind result_mbind].
  destruct (check_ipv4 (ConfIPv4 c)) as [[]|e]; [|done]. cbn [mbind result_mbind].
  destruct (negb _); [done|]. rewrite Hp. destruct (has_control (DefaultPoolID c)); [done|].
  intros Heq. injection Heq as Heq. destruct c. cbn in *. injection Heq as -> ->. done.
Qed.

(** A closed journal confirms another valid configuration. *)
Lemma J_confirm s c b : J s -> Pending s = "" -> valid c -> J (set_NeedsConfig b (set_Confirmed c s)).
Proof. intros [H1 H2 H3 Hn H4] Hp Hc. split; cbn; try done. Qed.

(** The body of [locked] at the state it reads. *)
Lemma good_locked {A} (fn : diskState -> cmd A) w : good R w ->
  (forall s, view (disk w) = Some s -> good R (fn s w).2) -> good R (locked fn w).2.
Proof.
  intros Hw Hfn. unfold locked. destruct (negb (lock_ok (tick w))); [done|].
  unfold view in Hfn. destruct (journal (disk w)); [by apply Hfn|done|by apply Hfn].
Qed.

Lemma good_MigrateDefault pool w : has_control pool = false -> good R w ->
  (forall s, view (disk w) = Some s -> Pending s = "" -> DefaultPoolID (Confirmed s) = "" -> R (with_pool pool (Confirmed s))) ->
  good R (MigrateDefault pool w).2.
Proof.
  intros Hc Hw HR. apply good_locked; [done|]. intros s Hv. pose proof (proj1 Hw s Hv) as [HJ HRs].
  destruct (negb (bool_decide (Pending s = ""))) eqn:Hp; [done|].
  destruct (negb (bool_decide (DefaultPoolID (Confirmed s) = ""))) eqn:Hd; [done|]. to_prop. cbv zeta.
  fold (with_pool pool (Confirmed s)).
  assert (Hnew : forall b, I R (set_NeedsConfig b (set_Confirmed (with_pool pool (Confirmed s)) s))).
  { intros b. split; [|cbn; by apply HR]. apply J_confirm; [done..|]. apply valid_with_pool; [done|apply HJ]. }
  revert w Hw Hv HR. intros w Hw _ _.
  match goal with |- good _ (?m w).2 => assert (Hm : safe R m) end; [|by apply Hm].
  apply safe_bind; [apply safe_save, Hnew|]. intros []. apply safe_bind; [auto with safe|]. intros [].
  apply safe_save, (I_frame (set_NeedsConfig true (set_Confirmed (with_pool pool (Confirmed s)) s))); try done.
Qed.

(** What [Initialize] writes at its end. *)
Lemma J_initialized s c b : J s -> valid c -> forall pend, pend = Pending s ->
  J (set_NeedsConfig b (set_Startup None (set_HasConfirmed true (set_Confirmed c
      (if decide (pend = "") then s else set_Pending "" (put_change pend
         (set_ChError "unconfirmed change recovered on startup" (set_State "rolled_back" (change_at pend s))) s)))))).
Proof.
  intros HJ Hc pend ->. destruct (decide (Pending s = "")) as [Hp|Hp].
  - apply (J_frame (set_NeedsConfig b (set_Confirmed c s))); try done. by apply J_confirm.
  - pose proof (J_pending s HJ Hp) as Hpi.
    apply (J_frame (set_Pending "" (put_change (Pending s)
      (set_ChError "unconfirmed change recovered on startup" (set_State "rolled_back" (change_at (Pending s) s)))
      (set_Confirmed c s)))); try done.
    apply (J_close s (Pending s) (change_at (Pending s) s)); try done. unfold closed_states. cbn. set_solver.
Qed.

(** The validated configuration, as a fact about the program. *)
Lemma safe_validated {B} c (k : Config -> cmd B) :
  (forall c', Validate c = Ok c' -> safe R (k c')) -> safe R (validated c ≫= k).
Proof.
  intros Hk w Hw. unfold mbind, prog_mbind, bind, validated, of_result.
  destruct (Validate c) as [c'|e] eqn:E; [|done]. by apply Hk.
Qed.

Lemma safe_load_config s : safe R (load_config s).
Proof.
  intros w Hw. unfold load_config. destruct (config_file (disk w)) as [| | |c].
  - revert w Hw. match goal with |- forall w, _ -> good R (?m w).2 => change (safe R m) end. walk.
  - by destruct (HasConfirmed s).
  - by destruct (HasConfirmed s).
  - destruct (Validate c); [done|]. by destruct (HasConfirmed s).
Qed.

(** The configuration a start-up goes for, given the one it read: the confirmed
    one while a change, a start or an unwritten file is outstanding. *)
Definition picked (s : diskState) (c : Config) : Config :=
  if decide (Pending s = "") then
    match Startup s with Some _ => if HasConfirmed s then Confirmed s else c | None => c end
  else Confirmed s.
Definition chosen (s : diskState) (c : Config) : Config := picked s (if NeedsConfig s then Confirmed s else c).

Lemma good_Initialize w : good R w ->
  (forall s c0 w1 c, view (disk w) = Some s -> load_config s w = (Ok c0, w1) -> Validate (chosen s c0) = Ok c -> R c) ->
  good R (Initialize w).2.
Proof.
  intros Hgood Hadopt. apply good_locked; [done|].
  intros s Hview. pose proof (proj1 Hgood s Hview) as HI. cbv beta.
  pose proof (safe_load_config s w Hgood) as Hw1. unfold mbind at 1, prog_mbind at 1, bind at 1.
  destruct (load_config s w) as [[c0|e] w1] eqn:Hload; [|done]. cbn [snd] in Hw1.
  assert (Hpick : forall c, Validate (chosen s c0) = Ok c -> R c) by (intros c; by apply (Hadopt s c0 w1)).
  clear Hadopt Hload Hview Hgood w. revert w1 Hw1.
  match goal with |- forall w1, _ -> good R (?m w1).2 => change (safe R m) end.
  assert (Hpair : exists c1 s1, (if NeedsConfig s then (Confirmed s, set_NeedsConfig false s) else (c0, s)) = (c1, s1) /\
    I R s1 /\ forall c, Validate (picked s1 c1) = Ok c -> R c).
  { unfold chosen in Hpick. destruct (NeedsConfig s); eexists _, _; (split; [done|]); (split; [|exact Hpick]); [by apply (I_frame s)|done]. }
  destruct Hpair as (c1 & s1 & -> & HI1 & Hpick1). clear s HI c0 Hpick. rename s1 into s, HI1 into HI.
  apply safe_bind; [auto with safe|]. intros boot. cbv zeta.
  assert (HI2 : I R (if decide (BootID s = boot) then s else set_BootID boot (set_Services ∅ s)) /\
    forall c, Validate (picked (if decide (BootID s = boot) then s else set_BootID boot (set_Services ∅ s)) c1) = Ok c -> R c).
  { destruct (decide _); [done|]. split; [by apply (I_frame s)|exact Hpick1]. }
  revert HI2. generalize (if decide (BootID s = boot) then s else set_BootID boot (set_Services ∅ s)).
  clear s HI Hpick1. intros s [HI Hpick].
  destruct (match Startup s with Some st => _ | None => _ end) as [prev1 c2] eqn:E1.
  destruct (if decide (Pending s = "") then _ else _) as [prev2 c3] eqn:E2.
  assert (Hc3 : c3 = picked s c1).
  { unfold picked. destruct (decide (Pending s = "")); [|by injection E2]. injection E2 as _ <-.
    destruct (Startup s); [by injection E1|by injection E1]. }
  apply safe_validated. intros c Hval. assert (HRc : R c) by (apply Hpick; by rewrite <- Hc3).
  assert (Hc : valid c) by (unfold valid; by eapply Validate_idem).
  apply safe_bind; [auto with safe|]. intros l.
  assert (Hk : forall s', I R s' -> Pending s' = Pending s -> safe R (
    of_result (validateServices c (Services s'));;
    let s0 := set_Startup (Some c) s' in
    save s0;;
    Apply prev2 c;;
    verify_dhcp c (Services s0);;
    let s1 := if decide (Pending s = "") then s0
           else set_Pending "" (put_change (Pending s)
             (set_ChError "unconfirmed change recovered on startup" (set_State "rolled_back" (change_at (Pending s) s0))) s0) in
    let s2 := set_NeedsConfig true (set_Startup None (set_HasConfirmed true (set_Confirmed c s1))) in
    save s2;;
    writeConfig c;;
    save (set_NeedsConfig false s2))).
  { intros s' HI' Hpend. cbv zeta.
    assert (HI0 : I R (set_Startup (Some c) s')) by (by apply (I_frame s')).
    apply safe_bind; [auto with safe|]. intros []. apply safe_bind; [by apply safe_save|]. intros [].
    apply safe_bind; [auto with safe|]. intros []. apply safe_bind; [apply safe_verify|]. intros [].
    pose proof (fun b => J_initialized (set_Startup (Some c) s') c b (proj1 HI0) Hc (Pending s) (eq_sym Hpend)) as HJ.
    apply safe_bind; [apply safe_save; split; [apply HJ|exact HRc]|]. intros [].
    apply safe_bind; [auto with safe|]. intros []. apply safe_save. split; [|exact HRc].
    eapply J_frame; [| | |exact (HJ true)]; done. }
  destruct (decide (BridgeMAC s = "")) as [Hb|Hb].
  - destruct (choose_bridge l c) as [mac|]; [|by intros w Hw].
    destruct (decide (mac = "")); [by intros w Hw|].
    intros w Hw. apply Hk; [by apply (I_frame s)|done|done].
  - intros w Hw. apply Hk; [done|done|done].
Qed.
Lemma safe_Initialize : (forall c, R c) -> safe R Initialize.
Proof. intros HR w Hw. by apply good_Initialize. Qed.
End Programs.

(** ** Histories *)

Section Histories.
Context `{IPv6Text}.

(** The operations other programs can start. *)
Inductive service_op `{HostEnv} : cmd unit -> Prop :=
| so_init : service_op Initialize
| so_submit p : service_op (Submit p;; ret tt)
| so_apply i : i <> "" -> service_op (apply i)
| so_confirm i : service_op (Confirm i;; ret tt)
| so_rollback i expired : service_op (Rollback i expired;; ret tt)
| so_service v add : service_op (SetService v add)
| so_sync vs : service_op (SyncServices vs)
| so_migrate pool : has_control pool = false -> service_op (MigrateDefault pool).

(** Every durable state a program passes through. *)
Definition visited `{HostEnv} {A} (m : cmd A) (d : Disk) : list Disk :=
  let w := (m (mkW d [] 0)).2 in disk w :: past w.

(** Operations one after the other, each cut short anywhere or run to its end,
    each with its own oracle; in between the kernel may lose its
    configuration, timers may go, and [network.toml] may be edited. *)
Inductive reach : Disk -> Prop :=
| reach_fresh d : journal d = Absent -> reach d
| reach_op (En : HostEnv) m d d' :
    (forall n, new_id n <> "") -> service_op m -> reach d -> d' ∈ visited m d -> reach d'
| reach_edit d d' : reach d -> journal d' = journal d -> reach d'.

Lemma DefaultConfig_valid : valid DefaultConfig.
Proof. reflexivity. Qed.

Lemma J_initial : J initial_state.
Proof.
  split; cbn; try done.
Qed.

Lemma good_visited (R : Config -> Prop) `{HostEnv} {A} (m : cmd A) d d' :
  good R (m (mkW d [] 0)).2 -> d' ∈ visited m d -> good_disk R d'.
Proof.
  intros [Hd Hp] [->|Hin]%elem_of_cons; [done|]. rewrite Forall_forall in Hp. by apply Hp.
Qed.

Lemma good_start (R : Config -> Prop) d : good_disk R d -> good R (mkW d [] 0).
Proof. by split. Qed.

Lemma safe_forget `{HostEnv} R {A} (m : cmd A) : safe R m -> safe R (m;; ret tt).
Proof. intros Hm. apply safe_bind; [done|]. auto with safe. Qed.

Lemma good_forget `{HostEnv} R {A} (m : cmd A) w : good R (m w).2 -> good R ((m;; ret tt) w).2.
Proof. unfold mbind, prog_mbind, bind. by destruct (m w) as [[a|e] w']. Qed.

Lemma service_op_good `{HostEnv} m d : (forall n, new_id n <> "") -> service_op m ->
  good_disk (fun _ => True) d -> good (fun _ => True) (m (mkW d [] 0)).2.
Proof.
  intros Hid Hm Hd. apply good_start in Hd. destruct Hm as [|p|i Hi|i|i expired|v add|vs|pool Hp].
  - by apply safe_Initialize.
  - by apply safe_forget; [apply safe_Submit|].
  - by apply safe_apply.
  - apply good_forget. by apply good_Confirm.
  - by apply safe_forget; [apply safe_Rollback|].
  - by apply safe_SetService.
  - by apply safe_SyncServices.
  - by apply good_MigrateDefault.
Qed.

Lemma reach_good d : reach d -> good_disk (fun _ => True) d.
Proof.
  induction 1 as [d Hj|En m d d' Hid Hm _ IH Hin|d d' _ IH Hj].
  - intros s. unfold view. rewrite Hj. intros [= <-]. split; [apply J_initial|done].
  - eapply good_visited; [|exact Hin]. by apply service_op_good.
  - intros s. unfold view. rewrite Hj. apply IH.
Qed.
End Histories.

(** ** A start-up where nothing goes wrong *)

Class Cooperative (En : HostEnv) : Prop := {
  co_lock : forall n, lock_ok n = true;
  co_write : forall n c, write_ok n c = true;
  co_live : forall n, exists l, live_answer n = Ok l;
  co_apply : forall n, apply_answer n = None;
  co_archive : forall n, archive_answer n = None;
  co_boot : forall n, is_Some (boot_id n) }.

Section Coop.
Context `{IPv6Text} `{Cooperative}.

Lemma journal_save_coop s w : save s w =
  (Ok tt, record (mkDurable (Content s) (config_file (disk w)) (kernel (disk w)) (armed (disk w))) w).
Proof. unfold save, effect, WriteFile. by rewrite !co_write. Qed.
Lemma writeConfig_coop c w : writeConfig c w =
  (Ok tt, record (mkDurable (journal (disk w)) (Toml c) (kernel (disk w)) (armed (disk w))) w).
Proof. unfold writeConfig, effect, WriteFile. by rewrite !co_write. Qed.
Lemma Apply_coop p c w : Apply p c w =
  (Ok tt, record (mkDurable (journal (disk w)) (config_file (disk w)) (Some c) (armed (disk w))) w).
Proof. unfold Apply, effect. by rewrite !co_apply. Qed.

Lemma load_coop s w : HasConfirmed s = true -> exists c w', load_config s w = (Ok c, w') /\ disk w' = disk w.
Proof.
  intros Hh. unfold load_config. rewrite Hh. destruct (config_file (disk w)) as [| | |c].
  - unfold mbind, prog_mbind, bind, ArchiveLegacy, effect. rewrite co_archive. cbn. by eexists _, _.
  - by eexists _, _.
  - by eexists _, _.
  - destruct (Validate c); by eexists _, _.
Qed.

Lemma bind_ok {A B} (m : cmd A) (k : A -> cmd B) w a w' : m w = (Ok a, w') -> (m ≫= k) w = k a w'.
Proof. intros E. unfold mbind, prog_mbind, bind. by rewrite E. Qed.

Ltac step_ok tac := erewrite bind_ok; [|tac]; cbv beta.

Lemma Initialize_coop d s b :
  journal d = Content s -> HasConfirmed s = true -> J s -> Pending s <> "" -> BridgeMAC s <> "" ->
  (forall n, boot_id n = Some b) -> b <> BootID s ->
  exists w' s', Initialize (mkW d [] 0) = (Ok tt, w') /\ journal (disk w') = Content s' /\
    Confirmed s' = Confirmed s /\ Pending s' = "" /\ kernel (disk w') = Some (Confirmed s) /\
    config_file (disk w') = Toml (Confirmed s) /\
    exists c', Changes s' !! Pending s = Some c' /\ State c' = "rolled_back".
Proof.
  intros Hj Hh HJ Hp Hmac Hboot Hb. unfold Initialize, locked. rewrite co_lock. cbn [negb disk tick]. rewrite Hj.
  destruct (load_coop s (mkW d [] 0) Hh) as (c0 & w1 & Hl & Hd1). step_ok ltac:(exact Hl).
  assert (Hs1 : exists c1 s1, (if NeedsConfig s then (Confirmed s, set_NeedsConfig false s) else (c0, s)) = (c1, s1) /\
    Confirmed s1 = Confirmed s /\ Pending s1 = Pending s /\ HasConfirmed s1 = true /\ BootID s1 = BootID s /\
    BridgeMAC s1 = BridgeMAC s).
  { destruct (NeedsConfig s); eexists _, _; (split; [done|]); by split_and!. }
  destruct Hs1 as (c1 & s1 & -> & Hc1 & Hp1 & Hh1 & Hb1 & Hm1).
  step_ok ltac:(unfold ReadBootID, effect; rewrite Hboot; reflexivity). cbv zeta.
  rewrite decide_False by congruence.
  set (s2 := set_BootID b (set_Services ∅ s1)).
  destruct (match Startup s2 with Some st => _ | None => _ end) as [prev1 c2].
  change (Pending s2) with (Pending s1). rewrite Hp1, decide_False by done.
  change (Confirmed s2) with (Confirmed s1). rewrite Hc1.
  step_ok ltac:(unfold validated, of_result; rewrite (j_valid _ HJ); reflexivity).
  match goal with |- context [(LiveNow ≫= _) ?w] => destruct (co_live (tick w)) as [l Hlive] end.
  step_ok ltac:(unfold LiveNow, effect; rewrite Hlive; reflexivity).
  change (BridgeMAC s2) with (BridgeMAC s1). rewrite decide_False by congruence.
  step_ok ltac:(reflexivity).
  assert (Hv : validateServices (Confirmed s) (Services s2) = Ok tt).
  { unfold validateServices. cbn [Services s2 set_BootID set_Services]. rewrite map_to_list_empty. by destruct (negb _). }
  step_ok ltac:(unfold of_result; rewrite Hv; reflexivity).
  step_ok ltac:(apply journal_save_coop). step_ok ltac:(apply Apply_coop).
  assert (Hdhcp : forall w, verify_dhcp (Confirmed s) (Services (set_Startup (Some (Confirmed s)) s2)) w = (Ok tt, w)).
  { intros w. unfold verify_dhcp, verifyServices. by destruct (decide _). }
  step_ok ltac:(apply Hdhcp). step_ok ltac:(apply journal_save_coop). step_ok ltac:(apply writeConfig_coop). rewrite journal_save_coop.
  destruct (decide (Pending s = "")) as [|Hne]; [done|].
  eexists _, _. split; [reflexivity|]. split; [reflexivity|]. cbn. split_and!; try done.
  eexists. split; [apply lookup_insert_eq|done].
Qed.
End Coop.

(** What a start-up may take from [network.toml]. *)
Definition file_gives `{IPv6Text} (d : Disk) (c : Config) : Prop :=
  match config_file d with
  | Toml c0 => Validate c0 = Ok c
  | Missing | ReadError => c = DefaultConfig
  | BadToml => False
  end.

Lemma adopts `{IPv6Text} `{HostEnv} (d : Disk) s c0 w1 c : J s -> load_config s (mkW d [] 0) = (Ok c0, w1) -> Validate (chosen s c0) = Ok c ->
  c = Confirmed s \/ (Pending s = "" /\ NeedsConfig s = false /\ (HasConfirmed s = true -> Startup s = None) /\ file_gives d c).
Proof.
  intros HJ Hl Hc. assert (Hold : Validate (Confirmed s) = Ok c -> c = Confirmed s) by (rewrite (j_valid _ HJ); by intros [= ->]).
  assert (Hread : c0 = Confirmed s \/ (Validate c0 = Ok c0 /\ file_gives d c0)).
  { revert Hl. unfold load_config, file_gives. cbn [disk]. destruct (config_file d) as [| | |c'].
    - unfold mbind, prog_mbind, bind, ArchiveLegacy, effect. cbn. destruct (archive_answer 0); [done|]. intros [= <- _]. by right.
    - destruct (HasConfirmed s); [|done]. intros [= <- _]. by right.
    - destruct (HasConfirmed s); [|done]. intros [= <- _]. by left.
    - destruct (Validate c') as [c1|] eqn:E; [intros [= <- _]; right; split; [by eapply Validate_idem|done]|].
      destruct (HasConfirmed s); [|done]. intros [= <- _]. by left. }
  assert (Hfile : Validate c0 = Ok c -> c = Confirmed s \/ file_gives d c).
  { destruct Hread as [->|[Hv Hf]]; [left; auto|]. rewrite Hv. intros [= <-]. by right. }
  revert Hc. unfold chosen, picked. destruct (decide (Pending s = "")) as [Hp|_]; [|left; auto].
  destruct (NeedsConfig s); [destruct (Startup s) as [st|]; [destruct (HasConfirmed s)|]; left; auto|].
  destruct (Startup s) as [st|]; [destruct (HasConfirmed s); [left; auto|]|];
    (intros [Hx|Hx]%Hfile; [by left|right; by split_and!]).
Qed.

(** * Properties *)

(** C9. The journal at every moment: in every durable state of every history
    (operations in any order, cut short anywhere, any failures of disk, kernel
    and timers, reboots in between) at most one change is open, it starts from
    the confirmed configuration and has a valid candidate; every other change
    is closed; no two changes carry the same request identity; and the
    confirmed configuration is valid. *)
Theorem journal_invariant `{IPv6Text} (d : Disk) (s : diskState) (Hr : reach d) (Hs : journal d = Content s) :
  (Pending s <> "" -> exists c, Changes s !! Pending s = Some c /\ State c ∈ open_states /\
     Previous c = Confirmed s /\ Validate (Candidate c) = Ok (Candidate c)) /\
  (forall i c, Changes s !! i = Some c -> i <> Pending s -> State c ∈ closed_states) /\
  (forall i j c e, i <> j -> Changes s !! i = Some c -> Changes s !! j = Some e ->
     ~ (ChKey c = ChKey e /\ ChActor c = ChActor e)) /\
  Validate (Confirmed s) = Ok (Confirmed s).
Proof.
  assert (Hv : view d = Some s) by (unfold view; by rewrite Hs).
  destruct (reach_good d Hr s Hv) as [[H1 H2 H3 _ H4] _]. by split_and!.
Qed.

(** C7. Only a timely confirmation commits a submitted change, whatever
    fails and wherever an operation is cut short.  While a change is submitted,
    applied or rolled back, or services come and go, no durable state shows
    another confirmed configuration.  [Confirm] shows another one only for the
    candidate of the pending change it names, awaiting confirmation, before its
    deadline.  A start-up shows another one only when no change is pending, no
    earlier start-up was interrupted and the file is up to date, and then it is
    what [network.toml] says, or the default without a readable file: never a
    candidate that was not confirmed.  The migration of the default pool changes
    nothing but an empty default pool, and not while a change is pending. *)
Theorem only_confirm_commits `{IPv6Text} (En : HostEnv) (d : Disk) (s0 : diskState)
  (Hr : reach d) (Hs0 : view d = Some s0) (Hid : forall n, new_id n <> "") :
  (forall m, (exists p, m = (Submit p;; ret tt)) \/ (exists i, i <> "" /\ m = apply i) \/
             (exists i b, m = (Rollback i b;; ret tt)) \/ (exists v b, m = SetService v b) \/ (exists vs, m = SyncServices vs) ->
   forall d' s, d' ∈ visited m d -> view d' = Some s -> Confirmed s = Confirmed s0) /\
  (forall i d' s, d' ∈ visited (Confirm i) d -> view d' = Some s ->
     Confirmed s = Confirmed s0 \/
     exists c, Changes s0 !! i = Some c /\ Pending s0 = i /\ State c = "awaiting_confirmation" /\
               clock 0 < Deadline c /\ Confirmed s = Candidate c) /\
  (forall d' s, d' ∈ visited Initialize d -> view d' = Some s ->
     Confirmed s = Confirmed s0 \/
     (Pending s0 = "" /\ NeedsConfig s0 = false /\ (HasConfirmed s0 = true -> Startup s0 = None) /\ file_gives d (Confirmed s))) /\
  (forall pool d' s, has_control pool = false -> d' ∈ visited (MigrateDefault pool) d -> view d' = Some s ->
     Confirmed s = Confirmed s0 \/
     (Pending s0 = "" /\ DefaultPoolID (Confirmed s0) = "" /\ Confirmed s = with_pool pool (Confirmed s0))).
Proof.
  destruct (reach_good d Hr s0 Hs0) as [HJ _].
  assert (Hgood : forall R : Config -> Prop, R (Confirmed s0) -> good R (mkW d [] 0)).
  { intros R HR. apply good_start. intros s1 Hv1. rewrite Hs0 in Hv1. injection Hv1 as <-. by split. }
  assert (Hvis : forall (R : Config -> Prop) A (m : cmd A) d' s, good R (m (mkW d [] 0)).2 -> d' ∈ visited m d -> view d' = Some s ->
    R (Confirmed s)).
  { intros R A m d' s Hg Hin Hv. by apply (good_visited R m d d' Hg Hin s Hv). }
  split; [|split; [|split]].
  - intros m Hm d' s Hin Hj. assert (Hm' : safe (fun c => c = Confirmed s0) m).
    { destruct Hm as [[p ->]|[(i & Hi & ->)|[(i & b & ->)|[(v & b & ->)|[vs ->]]]]].
      - by apply safe_forget, safe_Submit.
      - by apply safe_apply.
      - by apply safe_forget, safe_Rollback.
      - by apply safe_SetService.
      - by apply safe_SyncServices. }
    exact (Hvis _ _ m d' s (Hm' _ (Hgood (fun c => c = Confirmed s0) eq_refl)) Hin Hj).
  - intros i d' s Hin Hj.
    apply (Hvis (fun x => x = Confirmed s0 \/ exists c, Changes s0 !! i = Some c /\ Pending s0 = i /\
      State c = "awaiting_confirmation" /\ clock 0 < Deadline c /\ x = Candidate c) _ (Confirm i) d'); [|done..].
    apply good_Confirm; [by apply Hgood; left|]. cbn [disk tick]. intros s1 c Hv1 Hc Hp Hst Hclk.
    rewrite Hs0 in Hv1. injection Hv1 as <-. right. by exists c.
  - intros d' s Hin Hj.
    apply (Hvis (fun x => x = Confirmed s0 \/ (Pending s0 = "" /\ NeedsConfig s0 = false /\ (HasConfirmed s0 = true -> Startup s0 = None) /\
      file_gives d x)) _ Initialize d'); [|done..].
    apply good_Initialize; [by apply Hgood; left|]. cbn [disk]. intros s1 c0 w1 c Hv1 Hl Hc.
    rewrite Hs0 in Hv1. injection Hv1 as <-. by eapply adopts.
  - intros pool d' s Hpool Hin Hj.
    apply (Hvis (fun x => x = Confirmed s0 \/ (Pending s0 = "" /\ DefaultPoolID (Confirmed s0) = "" /\ x = with_pool pool (Confirmed s0)))
      _ (MigrateDefault pool) d'); [|done..].
    apply good_MigrateDefault; [done|by apply Hgood; left|]. cbn [disk]. intros s1 Hv1 Hp Hd.
    rewrite Hs0 in Hv1. injection Hv1 as <-. by right.
Qed.

(** C8. A boot undoes what was not confirmed: from any state a history can
    leave with a change pending, one start-up after a reboot in which disk and
    kernel behave ends with the previous configuration confirmed, running and
    in [network.toml], nothing pending, and the change recorded as rolled
    back. *)
Theorem Initialize_recovers `{IPv6Text} (En : HostEnv) (Co : Cooperative En) (d : Disk) (s : diskState) (b : string)
  (Hr : reach d) (Hs : journal d = Content s) (Hh : HasConfirmed s = true) (Hp : Pending s <> "")
  (Hmac : BridgeMAC s <> "") (Hb : forall n, boot_id n = Some b) (Hnew : b <> BootID s) :
  exists w' s', Initialize (mkW d [] 0) = (Ok tt, w') /\ journal (disk w') = Content s' /\
    Confirmed s' = Confirmed s /\ Pending s' = "" /\ kernel (disk w') = Some (Confirmed s) /\
    config_file (disk w') = Toml (Confirmed s) /\
    exists c', Changes s' !! Pending s = Some c' /\ State c' = "rolled_back".
Proof.
  assert (Hv : view d = Some s) by (unfold view; by rewrite Hs).
  destruct (reach_good d Hr s Hv) as [HJ _]. by eapply Initialize_coop.
Qed.

(** A retried request is answered from the journal: the change recorded
    for the same key and actor when the request is the same, a conflict when
    it differs; nothing is written and nothing is applied twice. *)
Theorem Submit_retry `{IPv6Text} (En : HostEnv) (d : Disk) (s : diskState) (i : string) (c : Change) (p : ApplyPayload)
  (config : Config)
  (Hr : reach d) (Hs : journal d = Content s) (Hc : Changes s !! i = Some c) (Hl : lock_ok 0 = true)
  (Hk : ChKey c = Key p /\ ChActor c = Actor p) (Hkey : Key p <> "" /\ (String.length (Key p) <= 255)%nat /\ Actor p <> "")
  (Hv : Validate (PConfig p) = Ok config) :
  Submit p (mkW d [] 0) =
    (if decide (RequestHash c = PRevision p +:+ ":" +:+ Revision config) then Ok (c, false)
     else Err (conflict "idempotency key already used for another request"), mkW d [] 0).
Proof.
  assert (Hview : view d = Some s) by (unfold view; by rewrite Hs).
  destruct (reach_good d Hr s Hview) as [[_ _ Hkeys _ _] _].
  assert (Hf : find_request (Key p) (Actor p) s = Some c).
  { unfold find_request. destruct Hk as [Hk1 Hk2].
    assert (Hin : (i, c) ∈ filter (fun x => ChKey x.2 = Key p /\ ChActor x.2 = Actor p) (map_to_list (Changes s))).
    { apply list_elem_of_filter. split; [by split|by apply elem_of_map_to_list]. }
    destruct (filter _ (map_to_list (Changes s))) as [|[j e] l] eqn:E; [by apply elem_of_nil in Hin|].
    assert (Hj : (j, e) ∈ filter (fun x => ChKey x.2 = Key p /\ ChActor x.2 = Actor p) (map_to_list (Changes s))).
    { rewrite E. apply elem_of_cons. by left. }
    apply list_elem_of_filter in Hj as [[He1 He2] Hj]. apply elem_of_map_to_list in Hj. cbn in *.
    f_equal. destruct (decide (i = j)) as [->|Hij]; [congruence|].
    exfalso. eapply (Hkeys i j); [done|exact Hc|exact Hj|]. split; congruence. }
  destruct Hkey as (Hk1 & Hk2 & Hk3).
  unfold Submit, locked. cbn [tick disk]. rewrite Hl. cbn [negb]. rewrite Hs.
  rewrite (bool_decide_eq_false_2 _ Hk1), (bool_decide_eq_false_2 _ Hk3), (proj2 (Nat.ltb_ge _ _) Hk2). cbn [orb].
  erewrite bind_ok; [|unfold validated, of_result; rewrite Hv; reflexivity]. cbv zeta. rewrite Hf.
  destruct (decide _) as [Hh|Hh].
  - by rewrite bool_decide_eq_true_2.
  - by rewrite bool_decide_eq_false_2.
Qed.

(** * Witnesses *)

Definition card : Adapter := mkAdapter "eth0" "02:00:00:00:00:01" "02:00:00:00:00:01" true "" true.
Definition host_env (boot : string) : HostEnv := {|
  lock_ok := fun _ => true; write_ok := fun _ _ => true;
  live_answer := fun _ => Ok (mkLive ["192.0.2.5/24"] [card] ["192.0.2.5/24"] ["192.0.2.1"] [] "");
  apply_answer := fun _ => None; arm_answer := fun _ => None; cancel_answer := fun _ => None;
  service_answer := fun _ _ _ => None; map_order := fun _ l => l; map_order_perm := fun _ l => reflexivity l; archive_answer := fun _ => None; boot_id := fun _ => Some boot;
  clock := fun n => Z.of_nat n * 1000000; new_id := fun _ => "change"; patience := fun _ => 0%nat;
  Revision := DefaultPoolID |}.

Definition final {A} (m : cmd A) (d : Disk) : Disk := disk (m (mkW d [] 0)).2.

Definition example_payload : ApplyPayload := mkPayload "" example_config "key" "admin".
Definition blank : Disk := mkDurable Absent Missing None ∅.
Definition booted : Disk := final (@Initialize bits_ipv6 (host_env "b1")) blank.
Definition submitted_env : HostEnv := {|
  lock_ok := fun _ => true; write_ok := fun _ _ => true;
  live_answer := fun _ => Ok (mkLive [] [card; mkAdapter "eth1" "" "02:00:00:00:00:02" true "" true] [] [] [] "");
  apply_answer := fun _ => None; arm_answer := fun _ => None; cancel_answer := fun _ => None;
  service_answer := fun _ _ _ => None; map_order := fun _ l => l; map_order_perm := fun _ l => reflexivity l; archive_answer := fun _ => None; boot_id := fun _ => Some "b1";
  clock := fun n => Z.of_nat n * 1000000; new_id := fun _ => "change"; patience := fun _ => 0%nat;
  Revision := DefaultPoolID |}.
Definition submitted : Disk := final (@Submit bits_ipv6 submitted_env example_payload;; ret tt) booted.
Definition awaiting : Disk := final (@apply bits_ipv6 submitted_env "change") submitted.

Lemma final_visited `{HostEnv} {A} (m : cmd A) d : final m d ∈ visited m d.
Proof. apply elem_of_cons. by left. Qed.

Lemma reach_awaiting : reach awaiting.
Proof.
  eapply (reach_op submitted_env); [done|apply (so_apply "change"); done| |apply final_visited].
  eapply (reach_op submitted_env); [done|apply so_submit| |apply final_visited].
  eapply (reach_op (host_env "b1")); [done|apply so_init| |apply final_visited].
  by apply reach_fresh.
Qed.

Definition awaiting_state : diskState := match journal awaiting with Content s => s | _ => initial_state end.

Lemma awaiting_journal : journal awaiting = Content awaiting_state /\ Pending awaiting_state = "change" /\
  State (change_at "change" awaiting_state) = "awaiting_confirmation" /\ HasConfirmed awaiting_state = true /\
  BridgeMAC awaiting_state <> "".
Proof. vm_compute. done. Qed.

Lemma host_cooperative boot : Cooperative (host_env boot).
Proof. split; try done; intros n; by eexists. Qed.

(** The environment in which only the third step's write fails. *)
Definition full_disk_env : HostEnv := {|
  lock_ok := fun _ => true; write_ok := fun n _ => negb (n =? 2)%nat;
  live_answer := @live_answer submitted_env; apply_answer := fun _ => None; arm_answer := fun _ => None;
  cancel_answer := fun _ => None; service_answer := fun _ _ _ => None; map_order := fun _ l => l;
  map_order_perm := fun _ l => reflexivity l; archive_answer := fun _ => None; boot_id := fun _ => Some "b1";
  clock := fun n => Z.of_nat n * 1000000; new_id := fun _ => "change"; patience := fun _ => 0%nat;
  Revision := DefaultPoolID |}.
Definition half_rolled_back : Disk := final (@Rollback bits_ipv6 full_disk_env "change" false) awaiting.
Definition confirmed_after : Disk := final (@Confirm bits_ipv6 submitted_env "change") half_rolled_back.

Lemma reach_confirmed_after : reach confirmed_after.
Proof.
  eapply (reach_op submitted_env); [done|apply (so_confirm "change")| |].
  - eapply (reach_op full_disk_env); [done|apply (so_rollback "change" false)|exact reach_awaiting|].
    vm_compute. left.
  - vm_compute. left.
Qed.

(** A finding: when [network.toml] cannot be written after the kernel was
    rolled back, the change still awaits confirmation, and confirming it then
    records the candidate as the confirmed configuration although the kernel
    runs the previous one. *)
Theorem failed_rollback_can_confirm : exists d s c, reach d /\ journal d = Content s /\ Changes s !! "change" = Some c /\
  State c = "confirmed" /\ Confirmed s = Candidate c /\ kernel d = Some (Previous c) /\ Previous c <> Candidate c.
Proof.
  exists confirmed_after, (match journal confirmed_after with Content s => s | _ => initial_state end),
    (change_at "change" (match journal confirmed_after with Content s => s | _ => initial_state end)).
  split; [exact reach_confirmed_after|]. vm_compute. repeat split. discriminate.
Qed.

Lemma journal_invariant_witness : exists c, Changes awaiting_state !! "change" = Some c /\ State c ∈ open_states /\
  Previous c = Confirmed awaiting_state.
Proof.
  destruct awaiting_journal as (Hj & Hp & _).
  destruct (journal_invariant awaiting awaiting_state reach_awaiting Hj) as (Ho & _).
  destruct Ho as (c & Hc & Hs & Hprev & _); [rewrite Hp; discriminate|]. exists c. rewrite Hp in Hc.
  exact (conj Hc (conj Hs Hprev)).
Defined.

Lemma awaiting_view : view awaiting = Some awaiting_state.
Proof. unfold view. by rewrite (proj1 awaiting_journal). Qed.

(** A change awaits confirmation: neither its rollback nor a start-up after a
    reboot makes its candidate the confirmed configuration. *)
Lemma only_confirm_commits_witness :
  (forall d' s, d' ∈ @visited submitted_env _ (@Rollback bits_ipv6 submitted_env "change" false;; ret tt) awaiting ->
     view d' = Some s -> Confirmed s = Confirmed awaiting_state) /\
  (forall d' s, d' ∈ @visited (host_env "b2") _ (@Initialize bits_ipv6 (host_env "b2")) awaiting ->
     view d' = Some s -> Confirmed s = Confirmed awaiting_state).
Proof.
  split.
  - refine (proj1 (only_confirm_commits submitted_env awaiting awaiting_state reach_awaiting awaiting_view _) _ _).
    + intros n. discriminate.
    + right. right. left. exists "change", false. reflexivity.
  - intros d' s Hin Hv. destruct awaiting_journal as (_ & Hp & _).
    destruct (proj1 (proj2 (proj2 (only_confirm_commits (host_env "b2") awaiting awaiting_state reach_awaiting awaiting_view
      ltac:(intros n; discriminate)))) d' s Hin Hv) as [Hx|[Hx _]]; [exact Hx|]. congruence.
Defined.

Lemma Initialize_recovers_witness : exists w' s', @Initialize bits_ipv6 (host_env "b2") (mkW awaiting [] 0) = (Ok tt, w') /\
  journal (disk w') = Content s' /\ Confirmed s' = Confirmed awaiting_state /\ Pending s' = "".
Proof.
  destruct awaiting_journal as (Hj & Hp & _ & Hh & Hm).
  destruct (Initialize_recovers (host_env "b2") (host_cooperative "b2") awaiting awaiting_state "b2" reach_awaiting Hj Hh)
    as (w' & s' & H1 & H2 & H3 & H4 & _).
  - rewrite Hp. discriminate.
  - exact Hm.
  - intros n. reflexivity.
  - vm_compute. discriminate.
  - exists w', s'. exact (conj H1 (conj H2 (conj H3 H4))).
Defined.

Lemma Submit_retry_witness : exists c, @Submit bits_ipv6 submitted_env example_payload (mkW awaiting [] 0) =
  (Ok (c, false), mkW awaiting [] 0).
Proof.
  destruct awaiting_journal as (Hj & _).
  exists (change_at "change" awaiting_state).
  rewrite (Submit_retry submitted_env awaiting awaiting_state "change" (change_at "change" awaiting_state)
    example_payload (match Validate example_config with Ok c => c | Err _ => example_config end) reach_awaiting Hj).
  - vm_compute. reflexivity.
  - vm_compute. reflexivity.
  - reflexivity.
  - vm_compute. split; reflexivity.
  - split_and!; [discriminate|vm_compute; lia|discriminate].
  - vm_compute. reflexivity.
Defined.
