(* ===== verification/MgmtUpdate.v ===== *)
(** The management upgrade transaction: [src/internal/managementupdate/manager.go].

    The world holds the journal [management.json], the history directory, the
    host updater's journal, the update lock, the manager's [running] flag and
    the status object the transaction goroutine works on.  Every journal write
    and backend call is recorded in a trace; what they answer is decided by an
    environment that may depend on everything that happened before. *)
From S2P Require Import Prelude Timestamp Release Update.
From Stdlib Require Import Ascii.

Open Scope string_scope.

(** ** Data *)

Record Request := mkRequest {
  r_Upstream : string;
  r_SkipDryRun : bool;
  r_OperationID : string;
  r_Release : string;
  r_Actor : string;
  r_IdempotencyKey : string }.

Record Dataset := mkDataset { Name : string; GUID : string }.

Record Manifest := mkManifest {
  Version : string;
  Architecture : string;
  RequiredHost : string * string;
  Images : gmap string string;
  RQLiteSources : list string;
  RQLiteVersion : string }.

(** The fields of [Status] that backend calls fill in. *)
Record Captured := mkCaptured {
  SourceRelease : string;
  TheManifest : Manifest;
  PreviousCompose : string;
  CandidateCompose : string;
  Datasets : list Dataset;
  Policies : gmap string string }.

Definition empty_manifest : Manifest := mkManifest "" "" ("", "") ∅ [] "".
Definition empty_captured : Captured := mkCaptured "" empty_manifest "" "" [] ∅.

Record Status := mkStatus {
  Upstream : string;
  SkipDryRun : bool;
  OperationID : string;
  Actor : string;
  Phase : string;
  State : string;
  TargetRelease : string;
  StError : string;
  RollbackError : string;
  StartedAt : Z;
  UpdatedAt : Z;
  Capture : Captured;
  Snapshot : string;
  Authorized : bool;
  ActionKeys : gmap string string;
  ProductionChanged : bool;
  CleanupState : string }.

Definition idle_status : Status :=
  mkStatus "" false "" "" "idle" "idle" "" "" "" 0 0 empty_captured "" false ∅ false "".

(** Field updates. *)
Definition set_Phase (p : string) (s : Status) : Status :=
  mkStatus (Upstream s) (SkipDryRun s) (OperationID s) (Actor s) p (State s) (TargetRelease s) (StError s)
    (RollbackError s) (StartedAt s) (UpdatedAt s) (Capture s) (Snapshot s) (Authorized s) (ActionKeys s)
    (ProductionChanged s) (CleanupState s).
Definition set_State (x : string) (s : Status) : Status :=
  mkStatus (Upstream s) (SkipDryRun s) (OperationID s) (Actor s) (Phase s) x (TargetRelease s) (StError s)
    (RollbackError s) (StartedAt s) (UpdatedAt s) (Capture s) (Snapshot s) (Authorized s) (ActionKeys s)
    (ProductionChanged s) (CleanupState s).
Definition set_Error (x : string) (s : Status) : Status :=
  mkStatus (Upstream s) (SkipDryRun s) (OperationID s) (Actor s) (Phase s) (State s) (TargetRelease s) x
    (RollbackError s) (StartedAt s) (UpdatedAt s) (Capture s) (Snapshot s) (Authorized s) (ActionKeys s)
    (ProductionChanged s) (CleanupState s).
Definition set_RollbackError (x : string) (s : Status) : Status :=
  mkStatus (Upstream s) (SkipDryRun s) (OperationID s) (Actor s) (Phase s) (State s) (TargetRelease s) (StError s)
    x (StartedAt s) (UpdatedAt s) (Capture s) (Snapshot s) (Authorized s) (ActionKeys s)
    (ProductionChanged s) (CleanupState s).
Definition set_UpdatedAt (x : Z) (s : Status) : Status :=
  mkStatus (Upstream s) (SkipDryRun s) (OperationID s) (Actor s) (Phase s) (State s) (TargetRelease s) (StError s)
    (RollbackError s) (StartedAt s) x (Capture s) (Snapshot s) (Authorized s) (ActionKeys s)
    (ProductionChanged s) (CleanupState s).
Definition set_Capture (x : Captured) (s : Status) : Status :=
  mkStatus (Upstream s) (SkipDryRun s) (OperationID s) (Actor s) (Phase s) (State s) (TargetRelease s) (StError s)
    (RollbackError s) (StartedAt s) (UpdatedAt s) x (Snapshot s) (Authorized s) (ActionKeys s)
    (ProductionChanged s) (CleanupState s).
Definition set_Snapshot (x : string) (s : Status) : Status :=
  mkStatus (Upstream s) (SkipDryRun s) (OperationID s) (Actor s) (Phase s) (State s) (TargetRelease s) (StError s)
    (RollbackError s) (StartedAt s) (UpdatedAt s) (Capture s) x (Authorized s) (ActionKeys s)
    (ProductionChanged s) (CleanupState s).
Definition set_Authorized (x : bool) (s : Status) : Status :=
  mkStatus (Upstream s) (SkipDryRun s) (OperationID s) (Actor s) (Phase s) (State s) (TargetRelease s) (StError s)
    (RollbackError s) (StartedAt s) (UpdatedAt s) (Capture s) (Snapshot s) x (ActionKeys s)
    (ProductionChanged s) (CleanupState s).
Definition set_ActionKeys (x : gmap string string) (s : Status) : Status :=
  mkStatus (Upstream s) (SkipDryRun s) (OperationID s) (Actor s) (Phase s) (State s) (TargetRelease s) (StError s)
    (RollbackError s) (StartedAt s) (UpdatedAt s) (Capture s) (Snapshot s) (Authorized s) x
    (ProductionChanged s) (CleanupState s).
Definition set_ProductionChanged (x : bool) (s : Status) : Status :=
  mkStatus (Upstream s) (SkipDryRun s) (OperationID s) (Actor s) (Phase s) (State s) (TargetRelease s) (StError s)
    (RollbackError s) (StartedAt s) (UpdatedAt s) (Capture s) (Snapshot s) (Authorized s) (ActionKeys s)
    x (CleanupState s).
Definition set_CleanupState (x : string) (s : Status) : Status :=
  mkStatus (Upstream s) (SkipDryRun s) (OperationID s) (Actor s) (Phase s) (State s) (TargetRelease s) (StError s)
    (RollbackError s) (StartedAt s) (UpdatedAt s) (Capture s) (Snapshot s) (Authorized s) (ActionKeys s)
    (ProductionChanged s) x.

(** The methods of [Backend]; [ReleaseImages] is the extra call made when the
    backend is the system one. *)
Inductive op := Prepare | Preflight | Fence | TakeSnapshot | Install | Healthy | Restore | Authorize | Cleanup
              | ReleaseImages.
#[export] Instance op_eq_dec : EqDecision op.
Proof. solve_decision. Defined.

Inductive Error :=
| ErrNotFound
| ErrInvalid (what : string)
| ErrText (what : string).
Definition err_text (e : Error) : string :=
  match e with
  | ErrNotFound => "operation not found"
  | ErrInvalid w => "invalid update request: " +:+ w
  | ErrText w => w
  end.

(** What was done, latest first: a backend call on a status and whether it
    succeeded; a journal write, whether it reported success and whether the
    new content is in place; the same for a history file. *)
Inductive event :=
| ECall (o : op) (s : Status) (ok : bool)
| ESave (s : Status) (ok applied : bool)
| EHistory (name : string) (s : Status) (ok applied : bool).

Record W := mkW {
  journal : file Status;
  history : gmap string (file Status);
  host : file string;
  lock : bool;
  running : bool;
  cur : Status;
  trace : list event }.

Definition set_cur (s : Status) (w : W) : W :=
  mkW (journal w) (history w) (host w) (lock w) (running w) s (trace w).
Definition set_running (b : bool) (w : W) : W :=
  mkW (journal w) (history w) (host w) (lock w) b (cur w) (trace w).
Definition set_lock (b : bool) (w : W) : W :=
  mkW (journal w) (history w) (host w) b (running w) (cur w) (trace w).
Definition set_journal (f : file Status) (e : event) (w : W) : W :=
  mkW f (history w) (host w) (lock w) (running w) (cur w) (e :: trace w).
Definition set_history (n : string) (f : file Status) (e : event) (w : W) : W :=
  mkW (journal w) (<[n := f]> (history w)) (host w) (lock w) (running w) (cur w) (e :: trace w).
Definition log (e : event) (w : W) : W :=
  mkW (journal w) (history w) (host w) (lock w) (running w) (cur w) (e :: trace w).

(** ** The environment

    [answer] is what a backend call returns on a status and what it leaves in
    the captured fields; [write] says which system calls of a journal write
    succeed; [now] is the clock; [open_lock] says whether the lock file can be
    opened.  All may depend on the past. *)
Class Env := {
  answer : op -> Status -> list event -> option string * Captured;
  write : list event -> wstep -> bool;
  now : list event -> Z;
  open_lock : list event -> bool;
  is_linux : bool }.

Abbreviation cmd := (prog Error W).

Definition terminal (s : Status) : bool :=
  bool_decide (State s = "idle") || bool_decide (State s = "succeeded") ||
  bool_decide (State s = "failed") || bool_decide (State s = "rolled_back").

Definition update (f : Status -> Status) : cmd unit := modify (fun w => set_cur (f (cur w)) w).
Definition current : cmd Status := fun w => (Ok (cur w), w).
Definition get_running : cmd bool := fun w => (Ok (running w), w).

Section Manager.
Context `{Semver} `{Env}.

(** [m.save(s)] for the status object of the transaction. *)
Definition save : cmd unit := fun w =>
  let s := set_UpdatedAt (now (trace w)) (cur w) in
  let '(ok, f) := WriteFile (write (trace w)) s (journal w) in
  let applied := match WriteFile (write (trace w)) tt Unreadable with (_, Content _) => true | _ => false end in
  let w := set_journal f (ESave s ok applied) (set_cur s w) in
  (if ok then Ok tt else Err (ErrText "write management.json"), w).

(** A backend call on a given status: its answer, its captured fields. *)
Definition call (o : op) (s : Status) : cmd Captured := fun w =>
  let '(e, c) := answer o s (trace w) in
  (match e with None => Ok c | Some m => Err (ErrText m) end,
   log (ECall o s (match e with None => true | Some _ => false end)) w).

(** On the transaction's own status the captured fields stay in the object,
    also when the call fails. *)
Definition backend (o : op) : cmd unit := fun w =>
  let '(e, c) := answer o (cur w) (trace w) in
  (match e with None => Ok tt | Some m => Err (ErrText m) end,
   set_cur (set_Capture c (cur w)) (log (ECall o (cur w) (match e with None => true | Some _ => false end)) w)).

(** [read] and [Status]: a missing journal is the idle status. *)
Definition read (id : string) : cmd Status := fun w =>
  (match journal w with
   | Absent => if negb (bool_decide (id = "")) then Err ErrNotFound else Ok idle_status
   | Unreadable => Err (ErrText "read management.json")
   | Content s =>
       if negb (bool_decide (id = "")) && negb (bool_decide (OperationID s = id)) then Err ErrNotFound else Ok s
   end, w).

(** [WriteJSON] of a history file. *)
Definition write_history (name : string) (s : Status) : cmd unit := fun w =>
  let '(ok, f) := WriteFile (write (trace w)) s (default Absent (history w !! name)) in
  let applied := match WriteFile (write (trace w)) tt Unreadable with (_, Content _) => true | _ => false end in
  (if ok then Ok tt else Err (ErrText "write history"), set_history name f (EHistory name s ok applied) w).

Definition acquire : cmd unit := fun w =>
  match Acquire (open_lock (trace w)) (lock w) with
  | None => (Err (ErrText "another update transaction is active"), w)
  | Some b => (Ok tt, set_lock b w)
  end.
Definition unlock : cmd unit := modify (set_lock false).

(** [step]: the phase is written ahead of the call. *)
Definition step (phase : string) (o : op) : cmd unit :=
  update (set_Phase phase);;
  save;;
  err ← attempt (backend o);
  saveErr ← attempt save;
  of_result (match err with Ok _ => saveErr | Err e => Err e end).

Definition rollback : cmd unit :=
  update (set_State "recovering");;
  update (set_Authorized false);;
  r ← attempt (step "restoring" Restore);
  match r with
  | Err e =>
      update (set_State "recovery_failed");;
      update (set_RollbackError (err_text e));;
      attempt save;; fail e
  | Ok _ =>
      r ← attempt (step "verifying_previous" Healthy);
      match r with
      | Err e =>
          update (set_State "recovery_failed");;
          update (set_RollbackError (err_text e));;
          attempt save;; fail e
      | Ok _ =>
          update (set_Authorized true);;
          step "authorizing_previous" Authorize;;
          update (set_State "rolled_back");;
          update (set_Phase "rolled_back");;
          update (set_RollbackError "");;
          save
      end
  end.

(** [os.ReadDir]: entries in file name order. *)
Definition entry_le (a b : string * file Status) : Prop := bytes_ltb (chars b.1) (chars a.1) = false.
#[export] Instance entry_le_dec : RelDecision entry_le.
Proof. intros a b. unfold entry_le. apply _. Defined.

Definition has_suffix (s suffix : list ascii) : bool := has_prefix (rev s) (rev suffix).

Fixpoint prune_entries (entries : list (string * file Status)) : cmd unit :=
  match entries with
  | [] => ret tt
  | (name, f) :: entries =>
      if negb (has_suffix (chars name) (chars ".json")) then prune_entries entries
      else match f with
      | Absent | Unreadable => fail (ErrText "read history")
      | Content s =>
          if negb (operationID (OperationID s)) || negb (bool_decide (name = OperationID s +:+ ".json"))
          then fail (ErrText "invalid historical operation identity")
          else
            c ← call Cleanup s;
            let s := set_Capture c s in
            c ← (if is_linux then call ReleaseImages s else ret c);
            let s := set_Capture c s in
            let m := TheManifest c in
            let c := mkCaptured (SourceRelease c)
              (mkManifest (Version m) (Architecture m) (RequiredHost m) ∅ (RQLiteSources m) (RQLiteVersion m))
              "" "" (Datasets c) (Policies c) in
            write_history name (set_Snapshot "" (set_Capture c s));;
            prune_entries entries
      end
  end.

Definition PruneHistory : cmd unit :=
  s ← read "";
  if negb (bool_decide (State s = "succeeded")) || bool_decide (Snapshot s = "") then ret tt
  else
    w ← get;
    prune_entries (merge_sort entry_le (map_to_list (history w))).

(** The loop of [execute]: [true] when every step succeeded. *)
Definition steps : list (string * op) :=
  [("prepare", Prepare); ("preflight", Preflight); ("fencing", Fence); ("snapshot", TakeSnapshot);
   ("installing", Install); ("checking", Healthy)].

Fixpoint run_steps (todo : list (string * op)) : cmd bool :=
  match todo with
  | [] => ret true
  | (name, fn) :: todo =>
      s ← current;
      if bool_decide (name = "preflight") && SkipDryRun s then run_steps todo
      else
        (if decide (name = "snapshot") then update (fun s => set_Snapshot ("floatlab-update-" +:+ OperationID s) s) else ret tt);;
        (if decide (name = "installing") then update (set_ProductionChanged true) else ret tt);;
        r ← attempt (step name fn);
        match r with
        | Err e =>
            update (set_Error (err_text e));;
            s ← current;
            if bool_decide (Phase s = "prepare") || bool_decide (Phase s = "preflight") then
              update (set_State "failed");;
              attempt (backend Cleanup);;
              attempt save;;
              ret false
            else attempt rollback;; ret false
        | Ok _ =>
            if decide (name = "preflight") then
              c ← attempt (backend Cleanup);
              match c with
              | Err e =>
                  update (set_Error ("preflight resource cleanup: " +:+ err_text e));;
                  update (set_State "failed");;
                  attempt save;;
                  ret false
              | Ok _ => run_steps todo
              end
            else run_steps todo
        end
  end.

Definition execute : cmd unit :=
  done ← run_steps steps;
  if negb done then ret tt
  else
    update (set_Authorized true);;
    r ← attempt (step "authorizing" Authorize);
    match r with
    | Err e =>
        update (set_Error (err_text e));;
        attempt rollback;; ret tt
    | Ok _ =>
        update (set_State "succeeded");;
        update (set_Phase "committed");;
        attempt save;;
        p ← attempt PruneHistory;
        match p with
        | Ok _ => ret tt
        | Err e =>
            update (set_Error ("committed; previous resource cleanup pending: " +:+ err_text e));;
            attempt save;; ret tt
        end
    end.

(** A deferred unlock: the body's outcome is returned after it. *)
Definition with_lock {A} (body : cmd A) : cmd A :=
  acquire;;
  r ← attempt body;
  unlock;;
  of_result r.

Definition orElse (a b : string) : string := if decide (a = "") then b else a.

(** [Recover], run before any core-stack startup. *)
Definition Recover : cmd unit :=
  with_lock (
    s ← read "";
    update (fun _ => s);;
    if terminal s then ret tt
    else if decide (Phase s = "cleaning") then
      call Cleanup (set_Snapshot "" s);;
      update (set_State (orElse (CleanupState s) "succeeded"));;
      update (set_Phase "cleaned");;
      save
    else if Authorized s then
      backend Authorize;;
      (if decide (State s = "recovering") then
        update (set_State "rolled_back");;
        update (set_Phase "rolled_back");;
        update (set_RollbackError "")
      else
        update (set_State "succeeded");;
        update (set_Phase "committed"));;
      save
    else if bool_decide (Phase s = "prepare") || bool_decide (Phase s = "preflight") then
      update (set_State "failed");;
      update (set_Error "interrupted before production changes");;
      backend Cleanup;;
      save
    else rollback).

(** [hostAvailable]: the host updater's journal must be settled. *)
Definition hostAvailable : cmd unit := fun w =>
  (match host w with
   | Absent => Ok tt
   | Unreadable => Err (ErrText "read host.json")
   | Content st =>
       if bool_decide (st ∈ [""; "committed"; "recovered"; "failed"]) then Ok tt
       else Err (ErrText ("host update " +:+ st +:+ " blocks management updates"))
   end, w).

(** Runs [m] and releases the update lock when it fails. *)
Definition unlock_on_error {A} (m : cmd A) : cmd A :=
  r ← attempt m;
  match r with Ok a => ret a | Err e => unlock;; fail e end.

Definition same_request (s : Status) (r : Request) : bool :=
  bool_decide (TargetRelease s = r_Release r) &&
  bool_decide (Repository (Upstream s) = Repository (r_Upstream r)) &&
  Bool.eqb (SkipDryRun s) (r_SkipDryRun r).

Definition valid_request (r : Request) : bool :=
  operationID (r_OperationID r) && negb (bool_decide (r_Actor r = "")) &&
  (String.length (r_Actor r) <=? 256)%nat && validRelease (r_Release r).

(** The status a new transaction starts from. *)
Definition new_status (r : Request) (t : Z) : Status :=
  mkStatus (r_Upstream r) (r_SkipDryRun r) (r_OperationID r) (r_Actor r) "prepare" "running" (r_Release r) "" ""
    t 0 empty_captured "" false ∅ false "".

(** [Start] up to the launch of the transaction: [true] in the answer means
    the goroutine runs [background execute] next. *)
Definition Start (r : Request) : cmd (Status * bool) :=
  if negb (valid_request r) then fail (ErrInvalid "valid operation_id, actor and official manage-v release required")
  else if negb (ValidateUpstream (r_Upstream r)) then fail (ErrInvalid "upstream must be a GitHub owner/repo")
  else
    old ← read "";
    if decide (OperationID old = r_OperationID r) then
      (if negb (same_request old r)
       then fail (ErrText "operation ID already used for another release or update options")
       else ret (old, false))
    else
      w ← get;
      match default Absent (history w !! (r_OperationID r +:+ ".json")) with
      | Content previous =>
          if negb (same_request previous r)
          then fail (ErrText "operation ID already used for another release or update options")
          else ret (previous, false)
      | Unreadable => fail (ErrText "read history")
      | Absent =>
          if running w || negb (terminal old) then fail (ErrText "management recovery is pending")
          else
            acquire;;
            unlock_on_error (
              hostAvailable;;
              (if decide (OperationID old = "") then ret tt
               else write_history (OperationID old +:+ ".json") old);;
              w ← get;
              update (fun _ => new_status r (now (trace w)));;
              save);;
            modify (set_running true);;
            s ← current;
            ret (s, true)
      end.

(** The goroutine: the transaction, then [running] cleared and the lock
    released by the deferred calls. *)
Definition background (body : cmd unit) : cmd unit :=
  attempt body;; modify (set_running false);; unlock.

Definition Rollback (id : string) : cmd Status :=
  active ← get_running;
  if (active : bool) then fail (ErrText "transaction active")
  else with_lock (
    s ← read id;
    if decide (Snapshot s = "") then fail (ErrText "no retained rollback checkpoint")
    else
      update (fun _ => s);;
      rollback;;
      current).

Definition CleanupOperation (id : string) : cmd Status :=
  with_lock (
    s ← read id;
    if negb (terminal s) then fail (ErrText "cannot clean up a pending transaction")
    else
      update (fun _ => s);;
      call Cleanup (set_Snapshot "" s);;
      PruneHistory;;
      save;;
      current).

(** [requestAction]: the synchronous part; [true] means [action_work] runs in
    the background. *)
Definition requestAction (r : Request) (action : string) : cmd (Status * bool) :=
  if negb (operationID (r_OperationID r)) || (bool_decide (r_IdempotencyKey r = "") ||
       (255 <? String.length (r_IdempotencyKey r))%nat) || bool_decide (r_Actor r = "")
  then fail (ErrText "valid operation_id, idempotency_key and actor required")
  else
    s ← read (r_OperationID r);
    if decide (default "" (ActionKeys s !! action) = r_IdempotencyKey r) then ret (s, false)
    else
      active ← get_running;
      if (active : bool) || negb (terminal s) then fail (ErrText "transaction active or recovery pending")
      else
        hostAvailable;;
        acquire;;
        unlock_on_error (
          if bool_decide (action = "rollback") && bool_decide (Snapshot s = "")
          then fail (ErrText "no retained rollback checkpoint")
          else
            update (fun _ => s);;
            update (fun s => set_ActionKeys (<[action := r_IdempotencyKey r]> (ActionKeys s)) s);;
            (if decide (action = "cleanup") then update (fun s => set_CleanupState (State s) s) else ret tt);;
            update (set_State "running");;
            update (set_Phase "restoring");;
            (if decide (action = "rollback") then update (set_Authorized false) else ret tt);;
            (if decide (action = "cleanup") then update (set_Phase "cleaning") else ret tt);;
            save);;
        modify (set_running true);;
        s ← current;
        ret (s, true).

Definition action_work (action : string) : cmd unit :=
  if decide (action = "rollback") then attempt rollback;; ret tt
  else
    s ← current;
    c ← attempt (call Cleanup (set_Snapshot "" s));
    (match c with
     | Err e => update (set_Error (err_text e));; update (set_State "failed")
     | Ok _ =>
         update (fun s => set_State (orElse (CleanupState s) "succeeded") s);;
         update (set_Phase "cleaned")
     end);;
    attempt save;;
    s ← current;
    if decide (State s = "succeeded") then attempt PruneHistory;; ret tt else ret tt.
End Manager.

(** The journal as the manager reads it for itself. *)
Lemma read_current w :
  read "" w = (match journal w with
               | Absent => Ok idle_status
               | Unreadable => Err (ErrText "read management.json")
               | Content s => Ok s
               end, w).
Proof. unfold read. by destruct (journal w). Qed.
