(* ===== verification/MgmtSafety.v ===== *)
(** Crash safety of the management transaction of [MgmtUpdate.v]: what the
    durable journal promises at every moment of [execute], [rollback] and
    [Recover], under any behaviour of the backend and of the disk, and what a
    final undisturbed [Recover] makes of any interrupted history. *)
From S2P Require Import Prelude Release Update MgmtUpdate.

Open Scope string_scope.
Open Scope list_scope.

(** ** Histories *)

Definition is_prep (p : string) : Prop := p = "prepare" \/ p = "preflight".
#[export] Instance is_prep_dec p : Decision (is_prep p).
Proof. unfold is_prep. apply _. Defined.

(** Calls that act on production. *)
Definition touching (o : op) : bool :=
  match o with Fence | TakeSnapshot | Install | Restore => true | _ => false end.

Definition touched (tr : list event) : Prop :=
  exists o s b, ECall o s b ∈ tr /\ touching o = true.

(** [o1] succeeded in phase [p] after [o0] had succeeded. *)
Definition done_after (o0 : op) (o1 : op) (p : string) (tr : list event) : Prop :=
  exists (l1 : list event) (s : Status) (l2 : list event) (s0 : Status), tr = l1 ++ ECall o1 s true :: l2 /\ Phase s = p /\ ECall o0 s0 true ∈ l2.

(** The candidate was installed and then found healthy. *)
Definition verified : list event -> Prop := done_after Install Healthy "checking".
(** The checkpoint was restored and then found healthy. *)
Definition restored : list event -> Prop := done_after Restore Healthy "verifying_previous".

(** The status a crash leaves in the journal. *)
Fixpoint last_saved (tr : list event) : option Status :=
  match tr with
  | [] => None
  | ESave s _ true :: _ => Some s
  | _ :: tr => last_saved tr
  end.

Definition undoing (st : string) : bool :=
  bool_decide (st = "recovering") || bool_decide (st = "rolled_back").

Definition known_states : list string :=
  ["running"; "recovering"; "recovery_failed"; "failed"; "succeeded"; "rolled_back"].

(** What a durable status [s] means, given the past [tr]. *)
Record saved_ok (s : Status) (tr : list event) : Prop := {
  so_prep : is_prep (Phase s) -> ~ touched tr;
  so_auth : Authorized s = true -> if undoing (State s) then restored tr else verified tr;
  so_done : State s = "succeeded" \/ State s = "rolled_back" -> Authorized s = true;
  so_failed : State s = "failed" -> is_prep (Phase s);
  so_known : State s ∈ known_states;
  so_phase : Phase s <> "cleaning" }.

Definition Inv (tr : list event) : Prop :=
  match last_saved tr with Some s => saved_ok s tr | None => ~ touched tr end.

(** The invariant held at every moment of the past. *)
Inductive Good : list event -> Prop :=
| Good_nil : Good []
| Good_cons e tr : Good tr -> Inv (e :: tr) -> Good (e :: tr).

Definition wf (w : W) : Prop :=
  Good (trace w) /\
  match last_saved (trace w) with Some s => journal w = Content s | None => True end.

Definition ext (w w' : W) : Prop := exists l, trace w' = l ++ trace w.

(** The control fields the invariant reads. *)
Definition ctl (s : Status) : string * string * bool := (Phase s, State s, Authorized s).

(** ** Monotonicity *)

Lemma ext_refl w : ext w w.
Proof. by exists []. Qed.
Lemma ext_trans w1 w2 w3 : ext w1 w2 -> ext w2 w3 -> ext w1 w3.
Proof. unfold ext. intros [l Hl] [m Hm]. exists (m ++ l). by rewrite Hm, Hl, app_assoc. Qed.
#[local] Hint Resolve ext_refl : core.

Lemma done_after_app o0 o1 p l tr : done_after o0 o1 p tr -> done_after o0 o1 p (l ++ tr).
Proof.
  intros (l1 & s & l2 & s0 & -> & Hp & Hin). exists (l ++ l1), s, l2, s0.
  by rewrite app_assoc.
Qed.

Lemma touched_cons e tr : touched (e :: tr) <-> (exists o s b, e = ECall o s b /\ touching o = true) \/ touched tr.
Proof.
  unfold touched. setoid_rewrite elem_of_cons. split.
  - intros (o & s & b & [H|H] & Ht); [left|right]; eauto 8.
  - intros [(o & s & b & -> & Ht)|(o & s & b & H & Ht)]; eauto 8.
Qed.

Lemma touched_app l tr : touched tr -> touched (l ++ tr).
Proof. intros (o & s & b & H & Ht). exists o, s, b. split; [|done]. apply elem_of_app. by right. Qed.

Lemma Good_app l tr : Good (l ++ tr) -> Good tr.
Proof. induction l as [|e l IH]; [done|]. inversion 1; auto. Qed.

Lemma Good_Inv tr : Good tr -> Inv tr.
Proof. destruct 1; [|done]. intros (o & s & b & H & _). by apply elem_of_nil in H. Qed.

Lemma saved_ok_ctl s s' tr : ctl s = ctl s' -> saved_ok s tr -> saved_ok s' tr.
Proof.
  unfold ctl. intros [= Hp Hs Ha] [H1 H2 H3 H4 H5 H6].
  split; rewrite <- ?Hp, <- ?Hs, <- ?Ha; done.
Qed.

(** A step that does not act on production keeps every promise. *)
Definition quiet (e : event) : Prop :=
  match e with ECall o _ _ => touching o = false | _ => True end.

Lemma untouched_quiet e tr : quiet e -> ~ touched tr -> ~ touched (e :: tr).
Proof. intros Hq Ht. rewrite touched_cons. intros [(o & s & b & -> & H)|H]; [|done]. simpl in Hq. congruence. Qed.

Lemma auth_mono (s : Status) l tr :
  (if undoing (State s) then restored tr else verified tr) ->
  if undoing (State s) then restored (l ++ tr) else verified (l ++ tr).
Proof. destruct (undoing _); apply done_after_app. Qed.

Lemma saved_ok_quiet s e tr : quiet e \/ ~ is_prep (Phase s) -> saved_ok s tr -> saved_ok s (e :: tr).
Proof.
  intros Hq [H1 H2 H3 H4 H5 H6]. split; try done.
  - intros Hp. destruct Hq as [Hq|Hq]; [|done]. by apply untouched_quiet; auto.
  - intros Ha. by apply (auth_mono s [e]), H2.
Qed.

Lemma Inv_quiet e tr :
  (match e with ESave _ _ true => False | _ => True end) -> quiet e -> Inv tr -> Inv (e :: tr).
Proof.
  intros He Hq. unfold Inv. replace (last_saved (e :: tr)) with (last_saved tr)
    by (destruct e as [| ? ? []|]; done).
  destruct (last_saved tr); intros H; [by apply saved_ok_quiet; auto|by apply untouched_quiet].
Qed.

Lemma Inv_touching o s b tr s0 :
  last_saved tr = Some s0 -> ~ is_prep (Phase s0) -> Inv tr -> Inv (ECall o s b :: tr).
Proof.
  unfold Inv. simpl. intros -> Hp H. by apply saved_ok_quiet; auto.
Qed.

(** ** The primitive steps *)

Section Safety.
Context `{Semver} `{Env}.

Lemma save_spec w :
  wf w -> saved_ok (cur w) (trace w) ->
  post save (fun r w' =>
    wf w' /\ ctl (cur w') = ctl (cur w) /\ cur w' = set_UpdatedAt (now (trace w)) (cur w) /\
    saved_ok (cur w') (trace w') /\
    (exists ok ap, trace w' = ESave (cur w') ok ap :: trace w) /\
    (is_ok r = true -> last_saved (trace w') = Some (cur w'))) w.
Proof.
  intros [HG Hj] Hok. unfold post, save.
  set (s := set_UpdatedAt (now (trace w)) (cur w)).
  destruct (WriteFile_cases (write (trace w)) s (journal w)) as (b & ap & -> & -> & Hap).
  assert (Hs : saved_ok s (trace w)) by (by apply (saved_ok_ctl (cur w))).
  assert (HI : Inv (ESave s b ap :: trace w)).
  { destruct ap; [|by apply Inv_quiet, Good_Inv].
    unfold Inv. cbn [last_saved]. apply saved_ok_quiet; [by left|done]. }
  cbn. split; [split|split; [done|split; [done|split; [|split; [by eauto|]]]]].
  - by constructor.
  - destruct ap; [done|]. exact Hj.
  - apply saved_ok_quiet; [by left|done].
  - intros Hb. rewrite Hap; [done|]. by destruct b.
Qed.

Lemma backend_spec o w :
  wf w -> (touching o = true -> exists s, last_saved (trace w) = Some s /\ ~ is_prep (Phase s)) ->
  post (backend o) (fun r w' =>
    wf w' /\ ctl (cur w') = ctl (cur w) /\ (exists c, cur w' = set_Capture c (cur w)) /\
    trace w' = ECall o (cur w) (is_ok r) :: trace w) w.
Proof.
  intros [HG Hj] Ht. unfold post, backend. destruct (answer o (cur w) (trace w)) as [e c]. cbn.
  assert (HI : forall b, Inv (ECall o (cur w) b :: trace w)).
  { intros b. destruct (touching o) eqn:Ho; [|by apply Inv_quiet, Good_Inv].
    destruct (Ht eq_refl) as (s & Hs & Hp). eapply Inv_touching; eauto using Good_Inv. }
  split; [split; [by constructor|done]|]. split; [done|]. split; [eauto|]. by destruct e.
Qed.

(** The call [o] returned success in phase [p] somewhere between [w] and [w']. *)
Definition called (o : op) (p : string) (w w' : W) : Prop :=
  exists (l1 : list event) (s : Status) (l2 : list event),
    trace w' = l1 ++ ECall o s true :: l2 ++ trace w /\ Phase s = p.

Lemma called_done o0 o1 p w w' s0 :
  called o1 p w w' -> ECall o0 s0 true ∈ trace w -> done_after o0 o1 p (trace w').
Proof.
  intros (l1 & s & l2 & -> & Hp) Hin. exists l1, s, (l2 ++ trace w), s0.
  split_and!; [done..|]. apply elem_of_app. by right.
Qed.

Lemma called_elem o p w w' : called o p w w' -> exists s, ECall o s true ∈ trace w'.
Proof.
  intros (l1 & s & l2 & -> & _). exists s. apply elem_of_app. right. apply elem_of_cons. by left.
Qed.

Lemma step_spec p o w :
  wf w -> saved_ok (set_Phase p (cur w)) (trace w) -> (touching o = true -> ~ is_prep p) ->
  post (step p o) (fun r w' =>
    wf w' /\ ctl (cur w') = (p, State (cur w), Authorized (cur w)) /\ ext w w' /\
    saved_ok (cur w') (trace w') /\ (is_ok r = true -> called o p w w')) w.
Proof.
  intros Hwf Hok Ht. unfold step. apply post_bind. unfold update, modify, post at 1. cbn [fst snd].
  set (w0 := set_cur (set_Phase p (cur w)) w).
  assert (Hw0 : trace w0 = trace w /\ cur w0 = set_Phase p (cur w)) by done.
  apply post_bind. eapply post_mono; [apply (save_spec w0); [exact Hwf|exact Hok]|].
  intros r1 w1 (Hwf1 & Hc1 & Hcur1 & Hok1 & (ok & ap & Htr1) & Hls).
  assert (He1 : ext w w1) by (exists [ESave (cur w1) ok ap]; by rewrite Htr1).
  destruct r1 as [[]|e]; cycle 1.
  { cbn. split_and!; try done. }
  apply post_bind, post_attempt.
  assert (Hph1 : Phase (cur w1) = p) by (by rewrite Hcur1).
  eapply post_mono; [apply (backend_spec o w1); [done|]|].
  { intros Ho. exists (cur w1). split; [by apply Hls|]. rewrite Hph1. by apply Ht. }
  intros r2 w2 (Hwf2 & Hc2 & (c & Hcur2) & Htr2).
  assert (Hok2 : saved_ok (cur w2) (trace w2)).
  { apply (saved_ok_ctl (cur w1)); [done|]. rewrite Htr2. apply saved_ok_quiet; [|done].
    destruct (touching o) eqn:Ho; [right|by left]. rewrite Hph1. by apply Ht. }
  apply post_bind, post_attempt.
  eapply post_mono; [apply (save_spec w2); done|].
  intros r3 w3 (Hwf3 & Hc3 & Hcur3 & Hok3 & (ok3 & ap3 & Htr3) & _).
  unfold post, of_result. cbn. split; [done|]. split; [rewrite Hc3, Hc2, Hc1; done|].
  split; [|split; [done|]].
  - exists [ESave (cur w3) ok3 ap3; ECall o (cur w1) (is_ok r2); ESave (cur w1) ok ap].
    by rewrite Htr3, Htr2, Htr1.
  - intros Hr. destruct r2; [|done].
    exists [ESave (cur w3) ok3 ap3], (cur w1), [ESave (cur w1) ok ap].
    by rewrite Htr3, Htr2, Htr1.
Qed.

(** Side conditions on the control fields, by evaluation. *)
Lemma saved_ok_plain s tr :
  Authorized s = false -> State s ∈ ["running"; "recovering"; "recovery_failed"] -> Phase s <> "cleaning" ->
  (is_prep (Phase s) -> ~ touched tr) -> saved_ok s tr.
Proof.
  intros Ha Hs Hc Hp.
  assert (Hs' : State s = "running" \/ State s = "recovering" \/ State s = "recovery_failed").
  { repeat (apply elem_of_cons in Hs as [Hs|Hs]); eauto. by apply elem_of_nil in Hs. }
  split; try done.
  - congruence.
  - intros [E|E]; rewrite E in Hs'; intuition congruence.
  - intros E; rewrite E in Hs'; intuition congruence.
  - unfold known_states. set_solver.
Qed.

Lemma rollback_tail_spec e w :
  wf w -> Authorized (cur w) = false -> Phase (cur w) <> "cleaning" -> ~ is_prep (Phase (cur w)) ->
  post (update (set_State "recovery_failed");; update (set_RollbackError (err_text e));; attempt save;;
        (fail e : cmd unit))
    (fun r w' => wf w' /\ ext w w') w.
Proof.
  intros Hwf Ha Hc Hp. do 2 (apply post_bind; unfold update, modify, post at 1; cbn [fst snd]).
  apply post_bind, post_attempt. eapply post_mono; [apply save_spec; [exact Hwf|]|].
  - apply saved_ok_plain; cbn; [done|set_solver|done|done].
  - intros r w' (Hwf' & _ & _ & _ & (ok & ap & Htr) & _). cbn. split; [done|].
    by exists [ESave (cur w') ok ap].
Qed.

Ltac not_prep := first [intros [E|E]; discriminate E | intros E; discriminate E].

Lemma rollback_spec w :
  wf w -> post rollback (fun r w' => wf w' /\ ext w w') w.
Proof.
  intros Hwf. unfold rollback. do 2 (apply post_bind; unfold update, modify, post at 1; cbn [fst snd]).
  apply post_bind, post_attempt.
  eapply post_mono; [apply step_spec; [exact Hwf| |intros _; not_prep]|].
  { apply saved_ok_plain; cbn; [done|set_solver|not_prep|intros [E|E]; discriminate E]. }
  intros r1 w1 (Hwf1 & Hc1 & He1 & Hok1 & Hr1). cbn [cur set_cur State Authorized set_State set_Authorized] in Hc1.
  injection Hc1 as Hp1 Hs1 Ha1. destruct r1 as [[]|e]; cycle 1.
  { eapply post_mono; [apply rollback_tail_spec; rewrite ?Hp1; [done..|not_prep|not_prep]|].
    intros r w' [? ?]. split; [done|]. by eapply ext_trans. }
  destruct (called_elem _ _ _ _ (Hr1 eq_refl)) as [sr Hsr].
  apply post_bind, post_attempt.
  eapply post_mono; [apply step_spec; [exact Hwf1| |intros _; not_prep]|].
  { apply saved_ok_plain; cbn; [by rewrite Ha1|rewrite Hs1; set_solver|not_prep|intros [E|E]; discriminate E]. }
  intros r2 w2 (Hwf2 & Hc2 & He2 & Hok2 & Hr2).
  injection Hc2 as Hp2 Hs2 Ha2. rewrite Hs1 in Hs2. rewrite Ha1 in Ha2.
  destruct r2 as [[]|e]; cycle 1.
  { eapply post_mono; [apply rollback_tail_spec; rewrite ?Hp2; [done..|not_prep|not_prep]|].
    intros r w' [? ?]. split; [done|]. eapply ext_trans; [exact He1|]. by eapply ext_trans. }
  assert (Hrest : restored (trace w2)) by (eapply called_done; eauto).
  apply post_bind; unfold update, modify, post at 1; cbn [fst snd].
  apply post_bind. eapply post_mono; [apply step_spec; [exact Hwf2| |discriminate]|].
  { split; cbn; rewrite ?Hs2; try done; try (intros [E|E]; discriminate E); try (intros E; discriminate E).
    - unfold known_states. set_solver. }
  intros r3 w3 (Hwf3 & Hc3 & He3 & Hok3 & Hr3).
  injection Hc3 as Hp3 Hs3 Ha3. cbn in Hs3, Ha3. rewrite Hs2 in Hs3.
  assert (He : ext w w3) by (eapply ext_trans; [exact He1|]; by eapply ext_trans).
  destruct r3 as [[]|e]; [|by cbn].
  do 3 (apply post_bind; unfold update, modify, post at 1; cbn [fst snd]).
  eapply post_mono; [apply save_spec; [exact Hwf3|]|].
  - split; cbn; try done; try (intros [E|E]; discriminate E); try (intros E; discriminate E).
    + intros _. destruct He3 as [l ->]. by apply done_after_app.
    + unfold known_states. set_solver.
  - intros r w' (Hwf' & _ & _ & _ & (ok & ap & Htr) & _). split; [done|].
    eapply ext_trans; [exact He|]. by exists [ESave (cur w') ok ap].
Qed.

Ltac upd := apply post_bind; unfold update, modify, post at 1; cbn [fst snd].

(** The end of every failed path: one more journal write. *)
Lemma finish_spec {A} (a : A) w :
  wf w -> saved_ok (cur w) (trace w) ->
  post (attempt save;; (ret a : cmd A)) (fun r w' => wf w' /\ ext w w' /\ r = Ok a) w.
Proof.
  intros Hwf Hok. apply post_bind, post_attempt.
  eapply post_mono; [by apply save_spec|].
  intros r w' (Hwf' & _ & _ & _ & (ok & ap & Htr) & _). cbn. split_and!; try done.
  by exists [ESave (cur w') ok ap].
Qed.

Lemma saved_ok_failed s tr :
  State s = "failed" -> Authorized s = false -> is_prep (Phase s) -> ~ touched tr -> saved_ok s tr.
Proof.
  intros Hs Ha Hp Ht. split; try done; try congruence.
  - intros [E|E]; congruence.
  - rewrite Hs. unfold known_states. set_solver.
  - destruct Hp as [-> | ->]; done.
Qed.

(** Discarding the outcome of the rollback. *)
Lemma rollback_discard {A} (a : A) w :
  wf w -> post (attempt rollback;; (ret a : cmd A)) (fun r w' => wf w' /\ ext w w' /\ r = Ok a) w.
Proof.
  intros Hwf. apply post_bind, post_attempt. eapply post_mono; [by apply rollback_spec|].
  intros r w' [? ?]. by cbn.
Qed.

(** A step of [execute] failed. *)
Lemma step_failed_spec e w :
  wf w -> Authorized (cur w) = false -> Phase (cur w) <> "cleaning" ->
  (is_prep (Phase (cur w)) -> ~ touched (trace w)) ->
  post (update (set_Error (err_text e));;
        s ← current;
        if bool_decide (Phase s = "prepare") || bool_decide (Phase s = "preflight") then
          update (set_State "failed");;
          attempt (backend Cleanup);;
          attempt save;;
          (ret false : cmd bool)
        else attempt rollback;; ret false)
    (fun r w' => wf w' /\ ext w w' /\ r = Ok false) w.
Proof.
  intros Hwf Ha Hc Hp. upd. apply post_bind. unfold current, post at 1. cbn [fst snd].
  destruct (bool_decide _ || bool_decide _) eqn:Hb;
    [|by apply (rollback_discard false (set_cur (set_Error (err_text e) (cur w)) w))].
  assert (Hprep : is_prep (Phase (cur w))).
  { apply orb_true_iff in Hb as [Hb|Hb]; apply bool_decide_eq_true in Hb; [by left|by right]. }
  upd. apply post_bind, post_attempt.
  eapply post_mono; [by apply (backend_spec Cleanup (set_cur (set_State "failed" (set_Error (err_text e) (cur w))) w))|].
  intros r w1 (Hwf1 & Hc1 & (c & Hcur1) & Htr1).
  eapply post_mono; [apply finish_spec; [done|]|].
  - rewrite Hcur1, Htr1. apply saved_ok_failed; [done|exact Ha|exact Hprep|]. by apply untouched_quiet, Hp.
  - intros r' w' (? & [l Hl] & ?). split_and!; try done.
    exists (l ++ [ECall Cleanup (set_State "failed" (set_Error (err_text e) (cur w))) (is_ok r)]).
    by rewrite Hl, Htr1, <- app_assoc.
Qed.

Lemma prep_cleanup_failed_spec e w :
  wf w -> Authorized (cur w) = false -> is_prep (Phase (cur w)) -> ~ touched (trace w) ->
  post (update (set_Error ("preflight resource cleanup: " +:+ err_text e));;
        update (set_State "failed");;
        attempt save;;
        (ret false : cmd bool)) (fun r w' => wf w' /\ ext w w' /\ r = Ok false) w.
Proof.
  intros Hwf Ha Hp Ht. do 2 upd. eapply post_mono; [apply finish_spec; [exact Hwf|by apply saved_ok_failed]|done].
Qed.

Lemma run_cons name fn todo Q w :
  wf w -> State (cur w) = "running" -> Authorized (cur w) = false -> name <> "cleaning" ->
  (is_prep name -> ~ touched (trace w)) -> (touching fn = true -> ~ is_prep name) ->
  (forall w', wf w' -> ext w w' -> Q (Ok false) w') ->
  (forall w', wf w' -> State (cur w') = "running" -> Authorized (cur w') = false -> ext w w' ->
     (is_prep name -> ~ touched (trace w')) -> (name <> "preflight" -> called fn name w w') ->
     post (run_steps todo) Q w') ->
  post (run_steps ((name, fn) :: todo)) Q w.
Proof.
  intros Hwf Hst Ha Hc Hun Ht Qf Qs. cbn [run_steps].
  apply post_bind. unfold current, post at 1. cbn [fst snd].
  destruct (bool_decide (name = "preflight") && SkipDryRun (cur w)) eqn:Hskip.
  { to_prop. subst. by apply Qs. }
  set (Pre := fun w0 : W => wf w0 /\ trace w0 = trace w /\
    State (cur w0) = "running" /\ Authorized (cur w0) = false).
  assert (HPre : Pre w) by done.
  apply post_bind.
  eapply (post_mono _ (fun r w0 => r = Ok tt /\ Pre w0)).
  { destruct (decide (name = "snapshot")); (split; [done|split; [exact Hwf|split_and!; done]]). }
  intros r0 w0 [-> (Hwf0 & Htr0 & Hst0 & Ha0)]. clear HPre.
  apply post_bind.
  eapply (post_mono _ (fun r w0 => r = Ok tt /\ Pre w0)).
  { destruct (decide (name = "installing")); (split; [done|split; [exact Hwf0|split_and!; done]]). }
  clear w0 Hwf0 Htr0 Hst0 Ha0. intros r1 w0 [-> (Hwf0 & Htr0 & Hst0 & Ha0)].
  apply post_bind, post_attempt.
  eapply post_mono; [apply step_spec; [done| |done]|].
  { apply saved_ok_plain; cbn; [done|rewrite Hst0; set_solver|done|by rewrite Htr0]. }
  intros r2 w2 (Hwf2 & Hc2 & He2 & Hok2 & Hr2). injection Hc2 as Hp2 Hs2 Ha2.
  assert (Hext : ext w w2) by (unfold ext in *; by rewrite <- Htr0).
  assert (Hun2 : is_prep name -> ~ touched (trace w2)) by (intros Hn; apply (so_prep _ _ Hok2); by rewrite Hp2).
  rewrite Hst0 in Hs2. rewrite Ha0 in Ha2.
  destruct r2 as [[]|e]; cycle 1.
  { eapply post_mono; [apply (step_failed_spec e w2); rewrite ?Hp2; done|].
    intros r w' (? & ? & ->). apply Qf; [done|]. by eapply ext_trans. }
  assert (Hcalled : called fn name w w2) by (unfold called in *; rewrite <- Htr0; by apply Hr2).
  destruct (decide (name = "preflight")) as [Hpre|Hpre]; [|by apply Qs].
  assert (is_prep name) by (by right).
  apply post_bind, post_attempt. eapply post_mono; [by apply backend_spec|].
  intros r3 w3 (Hwf3 & Hc3 & (c & Hcur3) & Htr3). injection Hc3 as Hp3 Hs3 Ha3.
  rewrite Hs2 in Hs3. rewrite Ha2 in Ha3. rewrite Hp2 in Hp3.
  assert (Hext3 : ext w w3).
  { eapply ext_trans; [exact Hext|]. exists [ECall Cleanup (cur w2) (is_ok r3)]. done. }
  assert (Hun3 : ~ touched (trace w3)) by (rewrite Htr3; apply untouched_quiet; [done|by apply Hun2]).
  destruct r3 as [[]|e]; [apply Qs; try done; by intros|].
  eapply post_mono; [apply prep_cleanup_failed_spec; try done; by rewrite Hp3|].
  intros r w' (? & ? & ->). apply Qf; [done|]. by eapply ext_trans.
Qed.

Lemma quiet_log e w :
  quiet e -> (match e with ESave _ _ true => False | _ => True end) -> wf w -> wf (log e w).
Proof.
  intros Hq He [HG Hj]. split; [by constructor; [|apply Inv_quiet, Good_Inv]|].
  cbn. by destruct e as [| ? ? []|].
Qed.

(** Pruning touches neither the journal nor the transaction's status. *)
Lemma prune_entries_spec l w :
  wf w -> post (prune_entries l) (fun _ w' => wf w' /\ ext w w' /\ cur w' = cur w) w.
Proof.
  revert w. induction l as [|[name f] l IH]; intros w Hwf; cbn [prune_entries]; [by cbn|].
  destruct (negb _); [by apply IH|]. destruct f as [| |s]; [by cbn..|].
  destruct (negb _ || negb _); [by cbn|].
  apply post_bind. unfold call at 1, post at 1.
  destruct (answer Cleanup s (trace w)) as [e c]. cbn [fst snd].
  pose proof (quiet_log (ECall Cleanup s (match e with None => true | Some _ => false end)) w
    eq_refl I Hwf) as Hwf1.
  set (w1 := log _ w) in *.
  assert (He1 : ext w w1) by (eexists [_]; reflexivity).
  assert (Hc1 : cur w1 = cur w) by done. clearbody w1.
  destruct e as [e|]; [by cbn|]. apply post_bind.
  eapply (post_mono _ (fun _ w2 => wf w2 /\ ext w w2 /\ cur w2 = cur w)).
  { destruct is_linux; [|by cbn]. unfold call, post.
    destruct (answer ReleaseImages (set_Capture c s) (trace w1)) as [e c']. cbn [fst snd].
    split; [by apply quiet_log|]. split; [|done]. eapply ext_trans; [exact He1|by eexists [_]]. }
  intros r w2 (Hwf2 & He2 & Hc2). destruct r as [c2|e]; [|done].
  apply post_bind. unfold write_history, post at 1.
  destruct (WriteFile (write (trace w2)) _ _) as [ok f'] eqn:E. cbn [fst snd].
  match goal with |- context [set_history name f' ?e w2] => set (ev := e) end.
  pose proof (quiet_log ev w2 I I Hwf2) as [HG3 Hj3].
  assert (He3 : ext w (set_history name f' ev w2)) by (eapply ext_trans; [exact He2|by eexists [_]]).
  destruct ok; cbn; [|done].
  eapply post_mono; [by apply IH|]. intros r w' (? & ? & ->). split_and!; try done.
  by eapply ext_trans.
Qed.

Lemma PruneHistory_spec w :
  wf w -> post PruneHistory (fun _ w' => wf w' /\ ext w w' /\ cur w' = cur w) w.
Proof.
  intros Hwf. unfold PruneHistory. apply post_bind. unfold post at 1. rewrite read_current.
  destruct (journal w) as [| |s]; cbn [fst snd]; [|done|].
  all: match goal with |- post (if ?b then _ else _) _ _ => destruct b end; [by cbn|].
  all: apply post_bind; unfold get, post at 1; cbn [fst snd]; by apply prune_entries_spec.
Qed.

Lemma execute_spec w :
  wf w -> State (cur w) = "running" -> Authorized (cur w) = false -> ~ touched (trace w) ->
  post execute (fun _ w' => wf w' /\ ext w w') w.
Proof.
  intros Hwf Hst Ha Hun. unfold execute. apply post_bind.
  eapply (post_mono _ (fun r w' => wf w' /\ ext w w' /\
    (r = Ok true -> State (cur w') = "running" /\ verified (trace w')))).
  { unfold steps.
    apply run_cons; try done. intros w1 Hwf1 Hs1 Ha1 He1 Hu1 _.
    apply run_cons; try done; [intros _; apply Hu1; by left|intros w' ? ?; split; [done|split; [by eapply ext_trans|done]]|].
    intros w2 Hwf2 Hs2 Ha2 He2 _ _. eassert (He02 : ext w w2) by (by eapply ext_trans).
    apply run_cons; try done; [intros [E|E]; discriminate E|intros _ [E|E]; discriminate E
      |intros w' ? ?; split; [done|split; [by eapply ext_trans|done]]|].
    intros w3 Hwf3 Hs3 Ha3 He3 _ _. eassert (He03 : ext w w3) by (by eapply ext_trans).
    apply run_cons; try done; [intros [E|E]; discriminate E|intros _ [E|E]; discriminate E
      |intros w' ? ?; split; [done|split; [by eapply ext_trans|done]]|].
    intros w4 Hwf4 Hs4 Ha4 He4 _ _. eassert (He04 : ext w w4) by (by eapply ext_trans).
    apply run_cons; try done; [intros [E|E]; discriminate E|intros _ [E|E]; discriminate E
      |intros w' ? ?; split; [done|split; [by eapply ext_trans|done]]|].
    intros w5 Hwf5 Hs5 Ha5 He5 _ Hi. eassert (He05 : ext w w5) by (by eapply ext_trans).
    destruct (called_elem _ _ _ _ (Hi ltac:(done))) as [si Hsi].
    apply run_cons; try done; [intros [E|E]; discriminate E
      |intros w' ? ?; split; [done|split; [by eapply ext_trans|done]]|].
    intros w6 Hwf6 Hs6 Ha6 He6 _ Hh. cbn. split; [done|split; [by eapply ext_trans|]].
    intros _. split; [done|]. eapply called_done; [by apply Hh|exact Hsi]. }
  intros r w1 (Hwf1 & He1 & Hr1). destruct r as [[]|e]; [|by cbn|by cbn].
  destruct Hr1 as [Hs1 Hv1]; [done|]. cbn [negb]. upd.
  apply post_bind, post_attempt.
  eapply post_mono; [apply step_spec; [exact Hwf1| |discriminate]|].
  { split; cbn; rewrite ?Hs1; try done; try (intros [E|E]; discriminate E); try (intros E; discriminate E).
    unfold known_states. set_solver. }
  intros r w2 (Hwf2 & Hc2 & He2 & Hok2 & _). injection Hc2 as Hp2 Hs2 Ha2. cbn in Hs2, Ha2.
  assert (He02 : ext w w2) by (by eapply ext_trans).
  destruct r as [[]|e]; cycle 1.
  { upd. eapply post_mono; [by apply rollback_discard|].
    intros r w' (? & ? & _). split; [done|]. by eapply ext_trans. }
  do 2 upd. apply post_bind, post_attempt.
  eapply post_mono; [apply save_spec; [exact Hwf2|]|].
  { split; cbn; try done; try (intros [E|E]; discriminate E); try (intros E; discriminate E).
    - intros _. destruct He2 as [l ->]. by apply done_after_app.
    - unfold known_states. set_solver. }
  intros r3 w3 (Hwf3 & Hc3 & Hcur3 & Hok3 & (ok & ap & Htr3) & _). cbn in Htr3.
  assert (He03 : ext w w3) by (eapply ext_trans; [exact He02|by eexists [_]]).
  apply post_bind, post_attempt. eapply post_mono; [by apply PruneHistory_spec|].
  intros r4 w4 (Hwf4 & He4 & Hcur4). assert (He04 : ext w w4) by (by eapply ext_trans).
  destruct r4 as [[]|e]; [by cbn|]. upd.
  eapply post_mono; [apply finish_spec; [exact Hwf4|]|].
  { apply (saved_ok_ctl (cur w3)); [by rewrite Hcur4|]. cbn.
    destruct He4 as [l ->]. cbn in Hcur4.
    assert (Hnp : ~ is_prep (Phase (cur w3))) by (injection Hc3 as -> _ _; intros [E|E]; discriminate E).
    clear -Hok3 Hnp. induction l as [|e' l IH]; [done|]. apply saved_ok_quiet; [by right|done]. }
  intros r w' (? & ? & _). split; [done|]. by eapply ext_trans.
Qed.

Lemma wf_saved_ok w s : wf w -> last_saved (trace w) = Some s -> saved_ok s (trace w) /\ journal w = Content s.
Proof.
  intros [HG Hj] Hs. rewrite Hs in Hj. pose proof (Good_Inv _ HG) as HI. unfold Inv in HI. by rewrite Hs in HI.
Qed.

Lemma ext_save w w' ok ap : trace w' = ESave (cur w') ok ap :: trace w -> ext w w'.
Proof. intros Htr. exists [ESave (cur w') ok ap]. exact Htr. Qed.

(** [Recover] on a world whose journal is the last durable status. *)
Lemma recover_body_spec s w :
  wf w -> last_saved (trace w) = Some s -> cur w = s ->
  post (if terminal s then ret tt
        else if decide (Phase s = "cleaning") then
          call Cleanup (set_Snapshot "" s);;
          update (set_State (orElse (CleanupState s) "succeeded"));;
          update (set_Phase "cleaned");;
          save
        else if Authorized s then
          backend Authorize;;
          (if decide (State s = "recovering") then
            update (set_State "rolled_back");;
            update (set_Phase "rolled_back");;
            update (set_RollbackError "")
          else
            update (set_State "succeeded");;
            update (set_Phase "committed"));;
          save
        else if bool_decide (Phase s = "prepare") || bool_decide (Phase s = "preflight") then
          update (set_State "failed");;
          update (set_Error "interrupted before production changes");;
          backend Cleanup;;
          save
        else rollback) (fun _ w' => wf w' /\ ext w w') w.
Proof.
  intros Hwf Hs Hc. destruct (wf_saved_ok _ _ Hwf Hs) as [Hok Hj].
  destruct (terminal s) eqn:Hterm; [by cbn|].
  destruct (decide (Phase s = "cleaning")) as [E|_]; [by destruct (so_phase _ _ Hok)|].
  destruct (Authorized s) eqn:Ha.
  - pose proof (so_auth _ _ Hok Ha) as Hauth.
    apply post_bind. eapply post_mono; [by apply backend_spec|].
    intros r w1 (Hwf1 & Hc1 & (c & Hcur1) & Htr1).
    assert (He1 : ext w w1) by (rewrite Hc in Htr1; by eexists [_]).
    destruct r as [[]|e]; [|done]. apply post_bind.
    eapply (post_mono _ (fun r w2 => r = Ok tt /\ wf w2 /\ ext w w2 /\ saved_ok (cur w2) (trace w2))).
    { destruct (decide (State s = "recovering")) as [E|E].
      - do 2 upd. (split; [done|split; [exact Hwf1|split; [exact He1|]]]).
        unfold undoing in Hauth. rewrite E in Hauth.
        split; cbn; rewrite ?Hcur1, ?Hc; try done; try (intros [E'|E']; discriminate E'); try (intros E'; discriminate E').
        + intros _. rewrite Htr1. by apply (done_after_app _ _ _ [_]).
        + unfold known_states. set_solver.
      - upd. (split; [done|split; [exact Hwf1|split; [exact He1|]]]).
        assert (Hu : undoing (State s) = false).
        { unfold undoing. rewrite (bool_decide_eq_false_2 _ E). apply bool_decide_eq_false_2.
          intros E'. unfold terminal in Hterm. rewrite E' in Hterm. done. }
        rewrite Hu in Hauth.
        split; cbn; rewrite ?Hcur1, ?Hc; try done; try (intros [E'|E']; discriminate E'); try (intros E'; discriminate E').
        + intros _. rewrite Htr1. by apply (done_after_app _ _ _ [_]).
        + unfold known_states. set_solver. }
    intros r w2 (-> & Hwf2 & He2 & Hok2).
    eapply post_mono; [by apply save_spec|].
    intros r w' (? & _ & _ & _ & (ok & ap & Htr) & _). split; [done|].
    eapply ext_trans; [exact He2|by eapply ext_save].
  - destruct (bool_decide (Phase s = "prepare") || bool_decide (Phase s = "preflight")) eqn:Hb; [|by apply rollback_spec].
    assert (Hp : is_prep (Phase s)).
    { apply orb_true_iff in Hb as [Hb|Hb]; apply bool_decide_eq_true in Hb; [by left|by right]. }
    pose proof (so_prep _ _ Hok Hp) as Hun. do 2 upd.
    apply post_bind. eapply post_mono; [apply backend_spec; [exact Hwf|done]|].
    intros r w1 (Hwf1 & Hc1 & (c & Hcur1) & Htr1).
    assert (He1 : ext w w1) by (by eexists [_]).
    destruct r as [[]|e]; [|done].
    eapply post_mono; [apply save_spec; [done|]|].
    { rewrite Hcur1, Htr1. apply saved_ok_failed; cbn; rewrite ?Hc; try done. by apply untouched_quiet. }
    intros r w' (? & _ & _ & _ & (ok & ap & Htr) & _). split; [done|].
    eapply ext_trans; [exact He1|by eapply ext_save].
Qed.

Lemma Recover_spec s w :
  wf w -> last_saved (trace w) = Some s -> post Recover (fun _ w' => wf w' /\ ext w w') w.
Proof.
  intros Hwf Hs. destruct (wf_saved_ok _ _ Hwf Hs) as [Hok Hj].
  unfold Recover, with_lock. apply post_bind. unfold acquire, post at 1.
  destruct (Acquire _ (lock w)) as [b|]; cbn [fst snd]; [|by cbn].
  apply post_bind, post_attempt. apply post_bind. unfold post at 1. rewrite read_current.
  cbn [journal set_lock]. rewrite Hj. cbn [fst snd]. upd.
  eapply post_mono; [apply (recover_body_spec s); [exact Hwf|exact Hs|done]|].
  intros r w' [? ?]. apply post_bind. unfold unlock, modify, post at 1. cbn [fst snd]. by cbn.
Qed.

(** ** The start of a transaction *)

Lemma write_history_spec name s w :
  wf w -> post (write_history name s) (fun _ w' =>
    wf w' /\ cur w' = cur w /\ journal w' = journal w /\
    (exists ok ap, trace w' = EHistory name s ok ap :: trace w) /\ lock w' = lock w /\ host w' = host w /\
    running w' = running w) w.
Proof.
  intros Hwf. unfold write_history, post.
  destruct (WriteFile (write (trace w)) s _) as [ok f']. cbn [fst snd].
  match goal with |- context [set_history name f' ?e w] => pose proof (quiet_log e w I I Hwf) as Hwf' end.
  split; [exact Hwf'|]. split_and!; try done. by eexists _, _.
Qed.

(** The world when a transaction has just been launched. *)
Definition launched (r : Request) (w : W) : Prop :=
  wf w /\ last_saved (trace w) = Some (cur w) /\ ~ touched (trace w) /\
  exists t t', cur w = set_UpdatedAt t' (new_status r t).

Lemma Start_launched r s w0 w :
  trace w0 = [] -> Start r w0 = (Ok (s, true), w) -> launched r w.
Proof.
  intros Hnil Hs. assert (Hwf0 : wf w0) by (split; rewrite Hnil; [constructor|done]).
  cut (post (Start r) (fun x w' => forall s, x = Ok (s, true) -> launched r w') w0).
  { intros Hp. unfold post in Hp. rewrite Hs in Hp. by eapply Hp. }
  clear Hs. unfold Start.
  destruct (negb (valid_request r)); [by cbn|]. destruct (negb (ValidateUpstream _)); [by cbn|].
  apply post_bind. unfold post at 1. rewrite read_current. cbn [fst snd].
  destruct (match journal w0 with Absent => Ok idle_status | Unreadable => Err _ | Content s0 => Ok s0 end)
    as [old|e]; [|by cbn].
  destruct (decide (OperationID old = r_OperationID r)) as [_|_]; [by destruct (negb _); cbn|].
  apply post_bind. unfold get, post at 1. cbn [fst snd].
  destruct (default Absent _) as [| |previous]; [|by cbn|by destruct (negb _); cbn].
  destruct (running w0 || negb (terminal old)); [by cbn|].
  apply post_bind. unfold acquire, post at 1. destruct (Acquire _ (lock w0)) as [b|]; cbn [fst snd]; [|by cbn].
  set (w1 := set_lock b w0). apply post_bind.
  eapply (post_mono _ (fun x w' => x = Ok tt -> launched r w')).
  2: { intros x w' Hx. destruct x as [[]|e]; [|by intros].
       do 2 (apply post_bind; unfold modify, current, post at 1; cbn [fst snd]). intros st _. exact (Hx eq_refl). }
  unfold unlock_on_error. apply post_bind, post_attempt.
  eapply (post_mono _ (fun x w' => x = Ok tt -> launched r w')).
  2: { intros x w' Hx. destruct x as [[]|e]; [by auto|by cbn]. }
  apply post_bind. unfold hostAvailable, post at 1.
  destruct (match host w1 with Absent => Ok tt | Unreadable => Err _ | Content st => _ end) as [[]|e];
    cbn [fst snd]; [|by intros].
  apply post_bind.
  eapply (post_mono _ (fun x w2 => wf w2 /\ ~ touched (trace w2))).
  { assert (Hun : ~ touched (trace w1)).
    { cbn. rewrite Hnil. intros (o & st & b' & H' & _). by apply elem_of_nil in H'. }
    destruct (decide (OperationID old = "")) as [_|_]; [by cbn|].
    eapply post_mono; [by apply (write_history_spec _ _ w1)|].
    intros x w2 (Hwf2 & _ & _ & (ok & ap & Htr) & _). split; [done|]. rewrite Htr. by apply untouched_quiet. }
  intros x w2 [Hwf2 Hun]. destruct x as [[]|e]; [|by intros].
  apply post_bind. unfold get, post at 1. cbn [fst snd]. upd.
  eapply post_mono; [apply save_spec; [exact Hwf2|]|].
  { apply saved_ok_plain; cbn; [done|set_solver|done|done]. }
  intros x w3 (Hwf3 & _ & Hcur3 & _ & (ok & ap & Htr) & Hls) ->.
  split; [done|]. split; [by apply Hls|]. split; [|eexists _, _; exact Hcur3].
  rewrite Htr. by apply untouched_quiet.
Qed.
End Safety.

(** ** Lifetimes

    A machine that may lose power at any event: a transaction launched by
    [Start] runs [execute]; after a crash the next boot runs [Recover] on the
    journal as it is on disk, and may itself be cut short.  Each boot has its
    own environment: disk, backend and clock may behave differently. *)

(** What a crash at [w] leaves for the next boot. *)
Definition rebooted (tr : list event) (w : W) : Prop :=
  trace w = tr /\ lock w = false /\ running w = false /\
  match last_saved tr with Some s => journal w = Content s | None => False end.

Inductive lifetime : list event -> Prop :=
| life_execute (Sv : Semver) (En : Env) r s w0 w l l' :
    trace w0 = [] -> Start r w0 = (Ok (s, true), w) ->
    trace (execute w).2 = l ++ l' ++ trace w -> lifetime (l' ++ trace w)
| life_recover (En : Env) tr w l l' :
    lifetime tr -> rebooted tr w ->
    trace (Recover w).2 = l ++ l' ++ tr -> lifetime (l' ++ tr).

Lemma last_saved_app l tr s : last_saved tr = Some s -> exists s', last_saved (l ++ tr) = Some s'.
Proof.
  intros Hs. induction l as [|e l IH]; [by exists s|]. destruct e as [| ? ? []|]; cbn; by eauto.
Qed.

Lemma lifetime_Good tr : lifetime tr -> Good tr /\ exists s, last_saved tr = Some s.
Proof.
  induction 1 as [Sv En r s w0 w l l' Hnil Hst Htr|En tr w l l' _ [HG [s Hs]] (Ht & Hl & Hr & Hj) Htr].
  - destruct (Start_launched _ _ _ _ Hnil Hst) as (Hwf & Hls & Hun & t & t' & Hcur).
    split; [|by eapply last_saved_app].
    assert (Hp : post execute (fun _ w' => wf w' /\ ext w w') w) by (apply execute_spec; rewrite ?Hcur; done).
    destruct Hp as [[HG _] _]. rewrite Htr in HG. by eapply Good_app.
  - split; [|by eapply last_saved_app].
    assert (Hwf : wf w) by (split; rewrite Ht; [done|by rewrite Hs in *]).
    assert (Hp : post Recover (fun _ w' => wf w' /\ ext w w') w) by (eapply Recover_spec; [done|by rewrite Ht]).
    destruct Hp as [[HG' _] _]. rewrite Htr in HG'. by eapply Good_app.
Qed.

(** ** A boot where nothing goes wrong *)

Class Cooperative (En : Env) : Prop := {
  answers : forall o s tr, fst (answer o s tr) = None;
  writes : forall tr c, write tr c = true;
  opens : forall tr, open_lock tr = true }.

Section Coop.
Context `{Cooperative}.

Lemma save_coop w :
  save w = let s := set_UpdatedAt (now (trace w)) (cur w) in
           (Ok tt, set_journal (Content s) (ESave s true true) (set_cur s w)).
Proof.
  unfold save, WriteFile. by rewrite !writes.
Qed.

Lemma backend_coop o w :
  exists c, backend o w = (Ok tt, set_cur (set_Capture c (cur w)) (log (ECall o (cur w) true) w)).
Proof.
  unfold backend. pose proof (answers o (cur w) (trace w)) as Ha.
  destruct (answer o (cur w) (trace w)) as [e c]. cbn in Ha. subst e. by exists c.
Qed.

Lemma step_coop p o w :
  exists w', step p o w = (Ok tt, w') /\ ctl (cur w') = (p, State (cur w), Authorized (cur w)) /\
    journal w' = Content (cur w') /\ lock w' = lock w.
Proof.
  unfold step, mbind, prog_mbind, bind, update, modify, attempt. rewrite save_coop. cbn.
  match goal with |- context [backend o ?w1] => destruct (backend_coop o w1) as [c ->] end.
  rewrite save_coop. cbn. eexists. split; [reflexivity|]. done.
Qed.

Lemma rollback_coop w :
  exists w' s', rollback w = (Ok tt, w') /\ journal w' = Content s' /\ State s' = "rolled_back".
Proof.
  unfold rollback, mbind, prog_mbind, bind, update, modify, attempt.
  match goal with |- context [step "restoring" Restore ?w1] =>
    destruct (step_coop "restoring" Restore w1) as (w1' & -> & _ & _ & _) end.
  match goal with |- context [step "verifying_previous" Healthy ?w1] =>
    destruct (step_coop "verifying_previous" Healthy w1) as (w2' & -> & _ & _ & _) end.
  match goal with |- context [step "authorizing_previous" Authorize ?w1] =>
    destruct (step_coop "authorizing_previous" Authorize w1) as (w3' & -> & _ & _ & _) end.
  rewrite save_coop. by eexists _, _.
Qed.

Lemma recover_coop w s :
  lock w = false -> journal w = Content s -> Phase s <> "cleaning" ->
  exists w' s', Recover w = (Ok tt, w') /\ journal w' = Content s' /\ terminal s' = true.
Proof.
  intros Hl Hj Hph. unfold Recover, with_lock, mbind, prog_mbind, bind, acquire, attempt, of_result.
  rewrite Hl, opens. cbn [Acquire negb]. rewrite read_current. cbn [journal set_lock]. rewrite Hj. cbn [fst snd].
  unfold update at 1, modify. destruct (terminal s) eqn:Hterm.
  { cbn. eexists _, s. split; [reflexivity|]. done. }
  destruct (decide (Phase s = "cleaning")); [done|].
  destruct (Authorized s).
  { match goal with |- context [backend Authorize ?w1] => destruct (backend_coop Authorize w1) as [c ->] end.
    destruct (decide (State s = "recovering")); unfold update, modify; rewrite save_coop; cbn;
      eexists _, _; (split; [reflexivity|]); done. }
  destruct (_ || _).
  { unfold update, modify.
    match goal with |- context [backend Cleanup ?w1] => destruct (backend_coop Cleanup w1) as [c ->] end.
    rewrite save_coop; cbn; eexists _, _; (split; [reflexivity|]); done. }
  match goal with |- context [rollback ?w1] => destruct (rollback_coop w1) as (w' & s' & -> & Hj' & Hs') end.
  cbn. eexists _, s'. split; [reflexivity|]. split; [done|]. unfold terminal. by rewrite Hs'.
Qed.
End Coop.

(** * Properties *)

(** The environment of the witnesses: every call succeeds. *)
Definition calm : Env := {|
  answer := fun _ s _ => (None, Capture s); write := fun _ _ => true;
  now := fun tr => Z.of_nat (length tr); open_lock := fun _ => true; is_linux := true |}.
#[export] Instance calm_cooperative : Cooperative calm.
Proof. by split. Qed.

Definition example_request : Request := mkRequest "" false "op1" "manage-v2.0.0" "admin" "".
Definition empty_world : W := mkW Absent ∅ Absent false false idle_status [].

(** The trace of [execute] in [calm], and what is left of it when the power
    fails after [n] of its events. *)
Definition example_start := @Start major_semver calm example_request empty_world.
Definition example_trace (n : nat) : list event :=
  let tr := trace (@execute calm example_start.2).2 in drop (length tr - 1 - n) tr.

(** C2. What the journal promises, at every instant of every lifetime of a
    transaction: any number of crashes, at any event of [execute] or of
    [Recover], with the disk and the backend failing at will.  A durable
    status exists; in a preparation phase production was never touched;
    authorization means the candidate was installed and found healthy, or,
    when the transaction is being undone, that the checkpoint was restored and
    found healthy; success and rollback are authorized; failure is only
    recorded before production; and every call that acts on production was
    announced in the journal first. *)
Theorem lifetime_promises (tr : list event) (H : lifetime tr) :
  exists s, last_saved tr = Some s /\
    (is_prep (Phase s) -> ~ touched tr) /\
    (Authorized s = true -> if undoing (State s) then restored tr else verified tr) /\
    (State s = "succeeded" \/ State s = "rolled_back" -> Authorized s = true) /\
    (State s = "failed" -> is_prep (Phase s)) /\
    forall l1 o s1 b l2, tr = l1 ++ ECall o s1 b :: l2 -> touching o = true ->
      exists s0, last_saved l2 = Some s0 /\ ~ is_prep (Phase s0).
Proof.
  destruct (lifetime_Good _ H) as [HG [s Hs]].
  pose proof (Good_Inv _ HG) as HI. unfold Inv in HI. rewrite Hs in HI. destruct HI as [H1 H2 H3 H4 _ _].
  exists s. split_and!; try done. intros l1 o s1 b l2 Htr Ho. rewrite Htr in HG.
  apply Good_app in HG. inversion HG as [|? ? HG2 HI]; subst. unfold Inv in HI. cbn in HI.
  assert (Ht : touched (ECall o s1 b :: l2)) by (apply touched_cons; left; eauto).
  destruct (last_saved l2) as [s0|] eqn:Hl; [|done]. exists s0. split; [done|].
  intros Hp. by apply (so_prep _ _ HI).
Qed.

(** C1. Whatever happened before, one boot where the backend and the disk
    behave settles the transaction: [Recover] succeeds, the journal is
    terminal, and the outcome is the honest one: [succeeded] only with a
    candidate installed and found healthy, [rolled_back] only with the
    checkpoint restored and found healthy, [failed] only with production never
    touched. *)
Theorem Recover_settles (En : Env) (C : Cooperative En) (tr : list event) (w : W)
  (H : lifetime tr) (Hw : rebooted tr w) :
  exists w' s, Recover w = (Ok tt, w') /\ journal w' = Content s /\ terminal s = true /\
    ((State s = "succeeded" /\ verified (trace w')) \/
     (State s = "rolled_back" /\ restored (trace w')) \/
     (State s = "failed" /\ ~ touched (trace w'))).
Proof.
  destruct (lifetime_Good _ H) as [HG [s Hs]]. destruct Hw as (Ht & Hl & _ & Hj). rewrite Hs in Hj.
  assert (Hwf : wf w) by (split; rewrite Ht; [done|by rewrite Hs]).
  destruct (wf_saved_ok w s Hwf) as [Hok _]; [by rewrite Ht|].
  destruct (recover_coop w s Hl Hj (so_phase _ _ Hok)) as (w' & s' & Hr & Hj' & Hterm).
  assert (Hp : post Recover (fun _ w' => wf w' /\ ext w w') w) by (eapply Recover_spec; [done|by rewrite Ht]).
  unfold post in Hp. rewrite Hr in Hp. destruct Hp as [Hwf' [l Hl']]. cbn in Hwf', Hl'.
  destruct (last_saved_app l (trace w) s) as [s2 Hs2]; [by rewrite Ht|]. rewrite <- Hl' in Hs2.
  destruct (wf_saved_ok _ _ Hwf' Hs2) as [[H1 H2 H3 H4 H5 _] Hj2].
  rewrite Hj' in Hj2. injection Hj2 as <-.
  exists w', s'. split_and!; try done. unfold terminal in Hterm.
  assert (Hcase : State s' = "succeeded" \/ State s' = "rolled_back" \/ State s' = "failed").
  { unfold known_states in H5. rewrite !elem_of_cons in H5.
    destruct H5 as [E|[E|[E|[E|[E|[E|E]]]]]]; try (by apply elem_of_nil in E);
      rewrite E in Hterm; try done; eauto. }
  destruct Hcase as [E|[E|E]].
  - left. split; [done|]. specialize (H2 (H3 (or_introl E))). by rewrite E in H2.
  - right; left. split; [done|]. specialize (H2 (H3 (or_intror E))). by rewrite E in H2.
  - right; right. eauto.
Qed.

(** The power fails while the candidate is being installed. *)
Lemma example_lifetime : lifetime (example_trace 14).
Proof.
  pose (tr := trace (@execute calm example_start.2).2).
  refine (eq_rect (take 14 (drop 9 tr) ++ trace example_start.2) lifetime
    (life_execute major_semver calm example_request (match example_start.1 with Ok (s, _) => s | Err _ => idle_status end)
      empty_world example_start.2 (take 9 tr) (take 14 (drop 9 tr)) eq_refl _ _) (example_trace 14) _).
  - vm_compute. reflexivity.
  - vm_compute. reflexivity.
  - vm_compute. reflexivity.
Qed.

Definition example_boot : W :=
  let tr := example_trace 14 in
  mkW (match last_saved tr with Some s => Content s | None => Absent end) ∅ Absent false false idle_status tr.

Lemma lifetime_promises_witness :
  lifetime (example_trace 14) /\
  (exists s, last_saved (example_trace 14) = Some s /\ Phase s = "installing") /\
  exists s, last_saved (example_trace 14) = Some s /\ (State s = "failed" -> is_prep (Phase s)).
Proof.
  split; [exact example_lifetime|]. split; [eexists; by split; vm_compute|].
  destruct (lifetime_promises (example_trace 14) example_lifetime) as (s & Hs & _ & _ & _ & Hf & _).
  exists s. split; [exact Hs|exact Hf].
Defined.

Lemma Recover_settles_witness :
  lifetime (example_trace 14) /\ rebooted (example_trace 14) example_boot /\
  exists w' s, @Recover calm example_boot = (Ok tt, w') /\ journal w' = Content s /\
    State s = "rolled_back" /\ restored (trace w').
Proof.
  assert (Hb : rebooted (example_trace 14) example_boot) by (split_and!; vm_compute; reflexivity).
  split; [exact example_lifetime|]. split; [exact Hb|].
  destruct (Recover_settles calm calm_cooperative (example_trace 14) example_boot example_lifetime Hb)
    as (w' & s & Hr & Hj & _ & Hcase).
  assert (Hs : match (@Recover calm example_boot).2.(journal) with Content s => State s = "rolled_back" | _ => False end)
    by (vm_compute; reflexivity).
  rewrite Hr in Hs. cbn [snd] in Hs. rewrite Hj in Hs.
  exists w', s. split; [exact Hr|]. split; [exact Hj|]. split; [exact Hs|].
  destruct Hcase as [[E _]|[[_ Hre]|[E _]]];
    [rewrite Hs in E; discriminate E|exact Hre|rewrite Hs in E; discriminate E].
Defined.
