(* ===== verification/MgmtRequests.v ===== *)
(** What the entry points of [MgmtUpdate.v] promise to their callers: which
    requests launch a transaction, how the update lock excludes operations
    from each other, and what pruning the history may touch. *)
From S2P Require Import Prelude Release Update MgmtUpdate.

Open Scope string_scope.
Open Scope list_scope.

Section Requests.
Context `{Semver} `{Env}.

(** ** Frames: what the primitives leave alone *)

(** The flags other goroutines look at. *)
Definition flags (w : W) : bool * bool := (lock w, running w).

Definition is_call (e : event) : bool := match e with ECall _ _ _ => true | _ => false end.

Lemma save_frame w :
  post save (fun r w' => flags w' = flags w /\ history w' = history w /\ host w' = host w /\
    (exists ok ap, trace w' = ESave (cur w') ok ap :: trace w) /\
    cur w' = set_UpdatedAt (now (trace w)) (cur w) /\
    (r = Ok tt -> journal w' = Content (cur w'))) w.
Proof.
  unfold post, save. set (s := set_UpdatedAt _ _).
  pose proof (@WriteFile_content Status (write (trace w)) s (journal w)) as Hc.
  destruct (WriteFile (write (trace w)) s (journal w)) as [ok f]. cbn [fst snd].
  split_and!; try done; [by eexists _, _|]. intros Hr. cbn. apply Hc. by destruct ok.
Qed.

Lemma write_history_frame name s w :
  post (write_history name s) (fun r w' => flags w' = flags w /\ journal w' = journal w /\ host w' = host w /\
    cur w' = cur w /\ (exists ok ap, trace w' = EHistory name s ok ap :: trace w) /\
    (r = Ok tt -> history w' !! name = Some (Content s)) /\
    (forall n, n <> name -> history w' !! n = history w !! n)) w.
Proof.
  unfold post, write_history.
  pose proof (@WriteFile_content Status (write (trace w)) s (default Absent (history w !! name))) as Hc.
  destruct (WriteFile (write (trace w)) s (default Absent (history w !! name))) as [ok f]. cbn [fst snd].
  split_and!; try done; [by eexists _, _| |].
  - intros Hr. cbn. rewrite lookup_insert_eq. f_equal. apply Hc. by destruct ok.
  - intros n Hn. cbn. by rewrite lookup_insert_ne.
Qed.

(** ** Launching *)

(** The conditions under which a new transaction may start. *)
Definition old_status (w : W) (s : Status) : Prop :=
  (journal w = Absent /\ s = idle_status) \/ journal w = Content s.
Definition host_settled (w : W) : Prop :=
  host w = Absent \/ exists st, host w = Content st /\ st ∈ [""; "committed"; "recovered"; "failed"].

Record may_launch (r : Request) (old : Status) (w : W) : Prop := {
  ml_request : valid_request r = true /\ ValidateUpstream (r_Upstream r) = true;
  ml_old : old_status w old;
  ml_fresh : OperationID old <> r_OperationID r /\
             default Absent (history w !! (r_OperationID r +:+ ".json")) = Absent;
  ml_terminal : terminal old = true;
  ml_idle : running w = false /\ lock w = false;
  ml_host : host_settled w }.

(** What a launch leaves behind. *)
Record launch_done (r : Request) (old s : Status) (w w' : W) : Prop := {
  ld_status : exists t t', s = set_UpdatedAt t' (new_status r t);
  ld_journal : journal w' = Content s;
  ld_flags : running w' = true /\ lock w' = true;
  ld_archived : OperationID old <> "" -> history w' !! (OperationID old +:+ ".json") = Some (Content old);
  ld_quiet : exists l : list event, trace w' = l ++ trace w /\ existsb is_call l = false }.

Lemma hostAvailable_settled w : hostAvailable w = (Ok tt, w) -> host_settled w.
Proof.
  unfold hostAvailable, host_settled. destruct (host w) as [| |st]; intros Hh; [by left|done|].
  injection Hh as Hh. right. exists st. split; [done|]. destruct (bool_decide _) eqn:E; [by apply bool_decide_eq_true in E|done].
Qed.

Lemma hostAvailable_pure w : (hostAvailable w).2 = w.
Proof. done. Qed.

Lemma valid_request_id r : valid_request r = true -> r_OperationID r <> "".
Proof. intros Hv E. unfold valid_request in Hv. by rewrite E in Hv. Qed.

(** The archive and the first journal write, under the lock. *)
Lemma launch_body_spec r old w :
  post (unlock_on_error (
          hostAvailable;;
          (if decide (OperationID old = "") then ret tt
           else write_history (OperationID old +:+ ".json") old);;
          w ← get;
          update (fun _ => new_status r (now (trace w)));;
          save))
    (fun x w' => match x with
     | Ok _ => host_settled w /\ flags w' = flags w /\
         (exists t t', cur w' = set_UpdatedAt t' (new_status r t)) /\ journal w' = Content (cur w') /\
         (OperationID old <> "" -> history w' !! (OperationID old +:+ ".json") = Some (Content old)) /\
         exists l : list event, trace w' = l ++ trace w /\ existsb is_call l = false
     | Err _ => flags w' = (false, running w)
     end) w.
Proof.
  unfold unlock_on_error. apply post_bind, post_attempt.
  eapply (post_mono _ (fun x w' => flags w' = flags w /\ (x = Ok tt -> host_settled w /\
    (exists t t', cur w' = set_UpdatedAt t' (new_status r t)) /\ journal w' = Content (cur w') /\
    (OperationID old <> "" -> history w' !! (OperationID old +:+ ".json") = Some (Content old)) /\
    exists l : list event, trace w' = l ++ trace w /\ existsb is_call l = false))).
  2: { intros x w' [Hf Hx]. destruct x as [[]|e].
       - cbn. destruct (Hx eq_refl) as (? & ? & ? & ? & ?). by split_and!.
       - apply post_bind. unfold unlock, modify, post at 1. cbn. injection Hf as Hl Hr.
         unfold flags. cbn. by rewrite Hr. }
  apply post_bind. unfold post at 1. rewrite hostAvailable_pure.
  destruct (hostAvailable w) as [[[]|e] w1] eqn:Hh; cbn [fst]; [|done].
  assert (w1 = w) as -> by (by pose proof (hostAvailable_pure w) as Hp; rewrite Hh in Hp).
  apply hostAvailable_settled in Hh. apply post_bind.
  eapply (post_mono _ (fun x w2 => flags w2 = flags w /\
    (exists l : list event, trace w2 = l ++ trace w /\ existsb is_call l = false) /\
    (x = Ok tt -> OperationID old <> "" -> history w2 !! (OperationID old +:+ ".json") = Some (Content old)))).
  { destruct (decide (OperationID old = "")) as [E|E].
    - cbn. split; [done|]. split; [by exists []|done].
    - eapply post_mono; [apply write_history_frame|].
      intros x w2 (Hf & _ & _ & _ & (ok & ap & Ht) & Ha & _). split; [done|]. split; [by eexists [_]|auto]. }
  intros x w2 (Hf2 & (l & Htr & Hl) & Ha2). destruct x as [[]|e]; [|done].
  apply post_bind. unfold get, post at 1. cbn [fst snd].
  apply post_bind. unfold update, modify, post at 1. cbn [fst snd].
  eapply post_mono; [apply save_frame|]. intros x w3 (Hf3 & Hh3 & _ & (ok & ap & Ht3) & Hc3 & Hj3).
  split; [by rewrite Hf3|]. intros Hx. split; [done|].
  split; [eexists _, _; exact Hc3|]. split; [by apply Hj3|]. split; [rewrite Hh3; by apply Ha2|].
  exists (ESave (cur w3) ok ap :: l). rewrite Ht3. cbn. by rewrite Htr.
Qed.

(** A repeated request answers with the recorded status. *)
Lemma repeat_spec r old (w : W) :
  post ((if negb (same_request old r)
        then fail (ErrText "operation ID already used for another release or update options")
        else ret (old, false)) : cmd (Status * bool))
    (fun x w' => w' = w /\ forall s b, x = Ok (s, b) -> b = false /\ s = old /\ same_request s r = true) w.
Proof.
  destruct (same_request old r) eqn:E; cbn; (split; [done|]); [|done].
  by intros s b [= <- <-].
Qed.

(** ** Exclusion *)

Lemma with_lock_spec {A} (body : cmd A) w :
  if lock w then is_ok (with_lock body w).1 = false /\ (with_lock body w).2 = w
  else lock (with_lock body w).2 = false.
Proof.
  unfold with_lock, mbind, prog_mbind, bind, acquire, Acquire.
  destruct (lock w) eqn:E, (open_lock (trace w)); cbn; try done.
  unfold attempt. by destruct (body (set_lock true w)).
Qed.

Lemma Rollback_spec id w :
  if lock w then (Rollback id w).2 = w else lock (Rollback id w).2 = false.
Proof.
  assert (exists body : cmd Status, Rollback id w =
    if running w then (Err (ErrText "transaction active"), w) else with_lock body w) as [body ->].
  { eexists. unfold Rollback, mbind, prog_mbind, bind at 1, get_running. by destruct (running w). }
  pose proof (with_lock_spec body w) as Hl.
  destruct (running w), (lock w) eqn:E; cbn; try done. by destruct Hl.
Qed.

Lemma Start_locked r w : lock w = true -> (Start r w).2 = w.
Proof.
  intros Hl. unfold Start.
  destruct (negb (valid_request r)); [done|]. destruct (negb (ValidateUpstream _)); [done|].
  unfold mbind, prog_mbind, bind at 1. unfold read.
  destruct (match journal w with Absent => _ | Unreadable => _ | Content s => _ end) as [old|e]; [|done].
  destruct (decide _); [by destruct (negb _)|]. unfold bind at 1, get.
  destruct (default Absent _); [|done|by destruct (negb _)].
  destruct (running w || negb (terminal old)); [done|].
  unfold bind at 1, acquire, Acquire. rewrite Hl. by destruct (negb _).
Qed.

Lemma requestAction_locked r a w : lock w = true -> (requestAction r a w).2 = w.
Proof.
  intros Hl. unfold requestAction. destruct (_ || _); [done|].
  unfold mbind, prog_mbind, bind at 1. unfold read.
  destruct (match journal w with Absent => _ | Unreadable => _ | Content s => _ end) as [s|e]; [|done].
  destruct (decide _); [done|]. unfold bind at 1, get_running.
  destruct (_ || _); [done|]. unfold bind at 1, hostAvailable.
  destruct (match host w with Absent => _ | Unreadable => _ | Content st => _ end) as [[]|e]; [|done].
  unfold bind at 1, acquire, Acquire. rewrite Hl. by destruct (negb _).
Qed.

(** ** Pruning *)

Definition erased (name : string) (s : Status) : Prop :=
  name = OperationID s +:+ ".json" /\ operationID (OperationID s) = true /\ Snapshot s = "" /\
  Images (TheManifest (Capture s)) = ∅ /\ PreviousCompose (Capture s) = "" /\ CandidateCompose (Capture s) = "".

(** What pruning does: backend calls on the status of a history file, then the
    file rewritten without its rollback resources. *)
Definition prune_event (e : event) : Prop :=
  match e with
  | ECall o s _ => (o = Cleanup \/ (o = ReleaseImages /\ is_linux = true)) /\ operationID (OperationID s) = true
  | EHistory name s _ _ => erased name s
  | ESave _ _ _ => False
  end.

Definition pruned (w w' : W) : Prop :=
  journal w' = journal w /\ flags w' = flags w /\ cur w' = cur w /\ host w' = host w /\
  exists l : list event, trace w' = l ++ trace w /\ Forall prune_event l.

Lemma pruned_refl w : pruned w w.
Proof. unfold pruned. split_and!; try done. by exists []. Qed.

Lemma pruned_trans w1 w2 w3 : pruned w1 w2 -> pruned w2 w3 -> pruned w1 w3.
Proof.
  intros (? & ? & ? & ? & l & Hl & Fl) (? & ? & ? & ? & m & Hm & Fm).
  split_and!; try congruence. exists (m ++ l). split; [by rewrite Hm, Hl, app_assoc|].
  by apply Forall_app.
Qed.

Lemma pruned_log e w : prune_event e -> pruned w (log e w).
Proof. intros He. split_and!; try done. exists [e]. by split; [|constructor]. Qed.

Lemma prune_entries_pruned l w : post (prune_entries l) (fun _ w' => pruned w w') w.
Proof.
  revert w. induction l as [|[name f] l IH]; intros w; cbn [prune_entries]; [apply pruned_refl|].
  destruct (negb _); [apply IH|]. destruct f as [| |s]; [apply pruned_refl..|].
  destruct (negb (operationID _) || _) eqn:Hid; [apply pruned_refl|]. to_prop.
  apply post_bind. unfold call at 1, post at 1.
  destruct (answer Cleanup s (trace w)) as [e c]. cbn [fst snd].
  match goal with |- context [log ?e w] => pose proof (pruned_log e w) as Hw1; set (w1 := log e w) in * end.
  assert (Hpe : prune_event (ECall Cleanup s match e with None => true | Some _ => false end)) by (split; [by left|done]).
  specialize (Hw1 Hpe). destruct e as [e|]; [done|].
  apply post_bind.
  eapply (post_mono _ (fun _ w2 => pruned w w2)).
  { destruct is_linux eqn:Hlin; [|done]. unfold call, post.
    destruct (answer ReleaseImages (set_Capture c s) (trace w1)) as [e c']. cbn [fst snd].
    eapply pruned_trans; [exact Hw1|]. apply pruned_log. by split; [right|]. }
  intros r w2 Hw2. destruct r as [c2|e]; [|done].
  apply post_bind. unfold post at 1, write_history.
  match goal with |- context [WriteFile ?ok ?d ?old] => destruct (WriteFile ok d old) as [ok2 f2] end. cbn [fst snd].
  match goal with |- context [set_history name f2 ?e w2] => set (w3 := set_history name f2 e w2) end.
  assert (Hw3 : pruned w w3).
  { eapply pruned_trans; [exact Hw2|]. split_and!; try done. eexists [_]. split; [done|].
    constructor; [|done]. by split_and!. }
  clearbody w3. destruct ok2; [|exact Hw3].
  eapply post_mono; [apply IH|]. intros r3 w' Hw'. by eapply pruned_trans.
Qed.

Lemma PruneHistory_eq w : PruneHistory w =
  match journal w with
  | Absent => (Ok tt, w)
  | Unreadable => (Err (ErrText "read management.json"), w)
  | Content s => if negb (bool_decide (State s = "succeeded")) || bool_decide (Snapshot s = "") then (Ok tt, w)
                 else prune_entries (merge_sort entry_le (map_to_list (history w))) w
  end.
Proof.
  unfold PruneHistory, mbind, prog_mbind, bind at 1. rewrite read_current.
  destruct (journal w); try done. by destruct (_ || _).
Qed.

Lemma PruneHistory_pruned w : (PruneHistory w).2 = w \/
  (pruned w (PruneHistory w).2 /\ exists s, journal w = Content s /\ State s = "succeeded" /\ Snapshot s <> "").
Proof.
  rewrite PruneHistory_eq. destruct (journal w) as [| |s]; [by left..|].
  destruct (negb (bool_decide (State s = "succeeded")) || bool_decide (Snapshot s = "")) eqn:E; [by left|].
  to_prop. right. split; [|by eauto]. apply prune_entries_pruned.
Qed.

(** * Properties *)

(** [Start]: a transaction is launched exactly under the conditions of
    [may_launch] and leaves behind what [launch_done] says (the previous
    journal archived, the new one durable, the lock and the running flag
    taken, no backend called); a repeated operation ID with the same options
    is answered from the journal or the history and changes nothing; an error
    changes neither the lock nor the running flag. *)
Theorem Start_contract r w :
  let '(x, w') := Start r w in
  match x with
  | Ok (s, true) => exists old, may_launch r old w /\ launch_done r old s w w'
  | Ok (s, false) => w' = w /\ same_request s r = true /\
      ((journal w = Content s /\ OperationID s = r_OperationID r) \/
       history w !! (r_OperationID r +:+ ".json") = Some (Content s))
  | Err _ => flags w' = flags w
  end.
Proof.
  cut (post (Start r) (fun x w' => match x with
    | Ok (s, true) => exists old, may_launch r old w /\ launch_done r old s w w'
    | Ok (s, false) => w' = w /\ same_request s r = true /\
        ((journal w = Content s /\ OperationID s = r_OperationID r) \/
         history w !! (r_OperationID r +:+ ".json") = Some (Content s))
    | Err _ => flags w' = flags w end) w).
  { unfold post. by destruct (Start r w) as [[[s []]|e] w']. }
  unfold Start.
  destruct (negb (valid_request r)) eqn:Hv; [done|]. destruct (negb (ValidateUpstream _)) eqn:Hu; [done|]. to_prop.
  pose proof (valid_request_id r Hv) as Hid.
  apply post_bind. unfold post at 1, read. cbn [fst snd].
  destruct (match journal w with Absent => _ | Unreadable => _ | Content s => _ end) as [old|e] eqn:Hread; [|done].
  assert (Hold : old_status w old).
  { unfold old_status. destruct (journal w); [left; by injection Hread as <-|done|right; by injection Hread as <-]. }
  destruct (decide (OperationID old = r_OperationID r)) as [E|Hne].
  { eapply post_mono; [apply repeat_spec|]. intros x w' [-> Hx]. destruct x as [[s b]|e]; [|done].
    destruct (Hx s b eq_refl) as (-> & -> & ?). split_and!; try done. left. split; [|done].
    destruct Hold as [[_ ->]|]; [by destruct Hid|done]. }
  apply post_bind. unfold get, post at 1. cbn [fst snd].
  destruct (default Absent (history w !! (r_OperationID r +:+ ".json"))) as [| |previous] eqn:Hhist; [|done|].
  2: { eapply post_mono; [apply repeat_spec|]. intros x w' [-> Hx]. destruct x as [[s b]|e]; [|done].
       destruct (Hx s b eq_refl) as (-> & -> & ?). split_and!; try done. right.
       by destruct (history w !! _) as [f|]; simplify_eq/=. }
  destruct (running w || negb (terminal old)) eqn:Hrt; [done|]. to_prop.
  apply post_bind. unfold acquire, post at 1, Acquire.
  destruct (negb (open_lock (trace w))); [by cbn|]. destruct (lock w) eqn:Hlock; [by cbn|]. cbn [fst snd].
  apply post_bind. eapply post_mono; [apply launch_body_spec|].
  intros x w2. destruct x as [[]|e].
  - intros (Hh & Hf & Ht & Hj & Ha & l & Htr & Hl). injection Hf as Hlk Hrn. cbn in Hlk.
    do 2 (apply post_bind; unfold modify, current, post at 1; cbn [fst snd]).
    exists old. split; [split; try done|split; cbn; try done; by eauto].
  - intros Hf. cbn. unfold flags in *. cbn in Hf. by rewrite Hf, Hlock.
Qed.

(** The update lock: while it is held, no operation of the manager
    changes anything; the synchronous operations hold it only while they run,
    and the transaction goroutine gives it back, with the running flag, when
    it ends. *)
Theorem lock_excludes w :
  (lock w = true ->
    (forall r, (Start r w).2 = w) /\ (forall r a, (requestAction r a w).2 = w) /\ (forall id, (Rollback id w).2 = w) /\
    (forall id, (CleanupOperation id w).2 = w) /\ (Recover w).2 = w) /\
  (lock w = false ->
    (forall id, lock (Rollback id w).2 = false) /\ (forall id, lock (CleanupOperation id w).2 = false) /\
    lock (Recover w).2 = false) /\
  (forall body, flags (background body w).2 = (false, false)).
Proof.
  assert (Hr := fun id => Rollback_spec id w).
  assert (Hc := fun id => with_lock_spec (s ← read id;
    if negb (terminal s) then fail (ErrText "cannot clean up a pending transaction")
    else update (fun _ => s);; call Cleanup (set_Snapshot "" s);; PruneHistory;; save;; current) w).
  assert (Hv : if lock w then is_ok (Recover w).1 = false /\ (Recover w).2 = w else lock (Recover w).2 = false)
    by apply with_lock_spec.
  split_and!.
  - intros Hl. rewrite Hl in *.
    split_and!; [intros; by apply Start_locked|intros; by apply requestAction_locked|exact Hr|apply Hc|apply Hv].
  - intros Hl. rewrite Hl in *. by split_and!.
  - intros body. unfold background, mbind, prog_mbind, bind, attempt, modify, unlock.
    by destruct (body w).
Qed.

(** [PruneHistory] acts only when the journal holds a committed
    transaction that keeps its own rollback point.  It then only cleans up
    and erases history files whose name is their operation ID; journal, lock
    and current status stay. *)
Theorem PruneHistory_contract w (Hw : (PruneHistory w).2 <> w) :
  pruned w (PruneHistory w).2 /\ exists s, journal w = Content s /\ State s = "succeeded" /\ Snapshot s <> "".
Proof. by destruct (PruneHistory_pruned w). Qed.
End Requests.

(** A committed transaction with one older operation in the history. *)
Definition quiet_env : Env := {|
  answer := fun _ s _ => (None, Capture s); write := fun _ _ => true; now := fun _ => 0%Z; open_lock := fun _ => true; is_linux := true |}.
Definition prune_world : W :=
  let old := mkStatus "" false "op0" "admin" "committed" "succeeded" "manage-v1.0.0" "" "" 0 0 empty_captured
    "floatlab-update-op0" true ∅ true "" in
  let s := mkStatus "" false "op1" "admin" "committed" "succeeded" "manage-v2.0.0" "" "" 0 0 empty_captured
    "floatlab-update-op1" true ∅ true "" in
  mkW (Content s) {[ "op0.json" := Content old; "notes.txt" := Unreadable ]} Absent false false s [].

Lemma PruneHistory_contract_witness :
  length (trace (@PruneHistory quiet_env prune_world).2) = 3 /\
  exists s, journal prune_world = Content s /\ State s = "succeeded".
Proof.
  assert (Hl : length (trace (@PruneHistory quiet_env prune_world).2) = 3) by (vm_compute; reflexivity).
  split; [exact Hl|].
  destruct (@PruneHistory_contract quiet_env prune_world) as [_ (s & Hj & Hs & _)].
  - intros E. rewrite E in Hl. vm_compute in Hl. discriminate Hl.
  - exists s. split; [exact Hj|exact Hs].
Defined.
