(* ===== verification/GoStrings.v ===== *)
(** The functions of Go's [strings] and [path/filepath] packages that the host
    updater uses, on byte lists. *)
From S2P Require Import Prelude Timestamp Release.
From Stdlib Require Import Ascii.

Open Scope string_scope.
Open Scope list_scope.

Abbreviation str := String.string_of_list_ascii.

(** [strings.TrimPrefix], [TrimSuffix], [HasSuffix]. *)
Definition TrimPrefix (s p : string) : string :=
  if has_prefix (chars s) (chars p) then str (drop (length (chars p)) (chars s)) else s.
Definition HasSuffix (s p : string) : bool := has_prefix (rev (chars s)) (rev (chars p)).
Definition TrimSuffix (s p : string) : string :=
  if HasSuffix s p then str (take (length (chars s) - length (chars p)) (chars s)) else s.

(** [strings.Contains], [strings.ContainsAny] on an ASCII set. *)
Fixpoint contains_from (s p : list ascii) : bool :=
  has_prefix s p || match s with [] => false | _ :: s => contains_from s p end.
Definition Contains (s p : string) : bool := contains_from (chars s) (chars p).
Definition ContainsAny (s set : string) : bool :=
  existsb (fun c => existsb (Ascii.eqb c) (chars set)) (chars s).

(** The length of the space that [s] starts with: ASCII spaces, and the UTF-8
    encodings of U+0085, U+00A0, U+1680, U+2000 to U+200A, U+2028, U+2029,
    U+202F, U+205F and U+3000. *)
Definition space_length (s : list ascii) : nat :=
  match map N_of_ascii s with
  | c :: l =>
      if ((9 <=? c) && (c <=? 13) || (c =? 32))%N then 1
      else match c, l with
           | 194%N, c :: _ => if ((c =? 133) || (c =? 160))%N then 2 else 0
           | 225%N, 154%N :: 128%N :: _ => 3
           | 226%N, 128%N :: c :: _ =>
               if ((128 <=? c) && (c <=? 138) || (c =? 168) || (c =? 169) || (c =? 175))%N then 3 else 0
           | 226%N, 129%N :: 159%N :: _ => 3
           | 227%N, 128%N :: 128%N :: _ => 3
           | _, _ => 0
           end
  | [] => 0
  end.

(** [strings.Fields]: the maximal runs without space; [skip] counts the bytes
    of a space already recognized, [word] is the current run, reversed. *)
Fixpoint fields_from (s : list ascii) (skip : nat) (word : list ascii) : list (list ascii) :=
  let flush := match word with [] => [] | _ => [rev word] end in
  match s with
  | [] => flush
  | c :: s' =>
      match skip with
      | S skip => fields_from s' skip []
      | O => match space_length s with
             | O => fields_from s' O (c :: word)
             | S n => flush ++ fields_from s' n []
             end
      end
  end.
Definition Fields (s : string) : list string := map str (fields_from (chars s) 0 []).

(** [strings.TrimSpace]: the text without the spaces it starts and ends with;
    [all_space] with the bytes still to skip of a space already recognized. *)
Fixpoint all_space (s : list ascii) (skip : nat) : bool :=
  match s with
  | [] => true
  | _ :: s' => match skip with
               | S skip => all_space s' skip
               | O => match space_length s with O => false | S n => all_space s' n end
               end
  end.
Fixpoint trim_left (s : list ascii) (skip : nat) : list ascii :=
  match s with
  | [] => []
  | _ :: s' => match skip with
               | S skip => trim_left s' skip
               | O => match space_length s with O => s | S n => trim_left s' n end
               end
  end.
Fixpoint trim_right (s : list ascii) : list ascii :=
  if all_space s 0 then [] else match s with [] => [] | c :: s => c :: trim_right s end.
Definition TrimSpace (s : string) : string := str (trim_right (trim_left (chars s) 0)).

(** [strings.ToLower] on ASCII text. *)
Definition lower (c : ascii) : ascii :=
  if in_range_ascii "A" "Z" c then ascii_of_N (N_of_ascii c + 32) else c.
Definition ToLower (s : string) : string := str (map lower (chars s)).

(** [strings.HasPrefix]; [strings.Split] on a newline. *)
Definition HasPrefix (s p : string) : bool := has_prefix (chars s) (chars p).
Definition Lines (s : string) : list string := map str (split_on (ascii_of_N 10) (chars s)).

(** [strconv.ParseUint] in base 10 to 64 bits. *)
Definition ParseUint (s : string) : option Z :=
  let l := chars s in
  if bool_decide (l = []) || negb (forallb digit l) then None
  else
    let n := fold_left (fun n c => (10 * n + (Z.of_N (N_of_ascii c) - 48))%Z) l 0%Z in
    if (n <? 2 ^ 64)%Z then Some n else None.

(** [strings.Join]. *)
Fixpoint Join (l : list string) (sep : string) : string :=
  match l with
  | [] => ""
  | [s] => s
  | s :: l => s +:+ sep +:+ Join l sep
  end.

(** [filepath.Clean] on Unix: empty and [.] components go, [..] removes the
    component before it, and leading [..] stay only on relative paths. *)
Definition clean_step (rooted : bool) (out : list (list ascii)) (c : list ascii) : list (list ascii) :=
  if bool_decide (c = []) || bool_decide (c = ["."%char]) then out
  else if bool_decide (c = ["."; "."]%char) then
    match out with
    | d :: out' => if bool_decide (d = ["."; "."]%char) then c :: out else out'
    | [] => if rooted then out else [c]
    end
  else c :: out.
Definition Clean (path : string) : string :=
  if decide (path = "") then "."
  else
    let rooted := has_prefix (chars path) ["/"%char] in
    let out := rev (fold_left (clean_step rooted) (split_on "/" (chars path)) []) in
    let body := Join (map str out) "/" in
    if rooted then "/" +:+ body else if decide (body = "") then "." else body.

Example Fields_ex : Fields "  a b=c	d  " = ["a"; "b=c"; "d"].
Proof. reflexivity. Qed.
Example Clean_ex : map Clean ["/a/./b//../c/"; "../../x"; "a/.."; "/.."; "/nix/store/x/init"] =
  ["/a/c"; "../../x"; "."; "/"; "/nix/store/x/init"].
Proof. reflexivity. Qed.

(** A suffix is recognised and removed. *)
Lemma HasSuffix_app s p : HasSuffix (s +:+ p) p = true.
Proof. unfold HasSuffix. rewrite chars_app, rev_app_distr. apply has_prefix_app. by eexists. Qed.
Lemma TrimSuffix_app s p : TrimSuffix (s +:+ p) p = s.
Proof.
  unfold TrimSuffix. rewrite HasSuffix_app, chars_app, length_app, Nat.add_sub, take_app_length.
  apply String.string_of_list_ascii_of_string.
Qed.

(** ** Fields of joined words *)

Local Open Scope nat_scope.

(** No space starts inside the word. *)
Definition solid (w : list ascii) : Prop := w <> [] /\ forall u v, w = u ++ v -> v <> [] -> space_length v = 0.

Lemma space_length_app u r : space_length u <> 0 -> space_length (u ++ r) <> 0.
Proof.
  unfold space_length. rewrite map_app. destruct (map N_of_ascii u) as [|a [|b [|c l]]]; cbn; try done;
    repeat case_match; try done.
Qed.

Lemma space_length_space u r : u <> [] -> space_length (u ++ " "%char :: r) <> 0 -> space_length u <> 0.
Proof.
  intros Hu. assert (Hm : map N_of_ascii u <> []) by (by destruct u).
  unfold space_length. rewrite map_app. cbn [map]. change (N_of_ascii " ") with 32%N.
  destruct (map N_of_ascii u) as [|a [|b [|c l]]]; [done|..]; cbn; repeat case_match; try done.
Qed.

Lemma solid_tail c w : w <> [] -> solid (c :: w) -> solid w.
Proof. intros Hw [_ Hs]. split; [done|]. intros u v ->. by apply (Hs (c :: u)). Qed.
Lemma solid_head c w : solid (c :: w) -> space_length (c :: w) = 0.
Proof. intros [_ Hs]. by apply (Hs []). Qed.

Lemma fields_solid w word : solid w -> fields_from w 0 word = [rev word ++ w].
Proof.
  revert word. induction w as [|c w IH]; intros word Hs; [by destruct Hs|]. cbn [fields_from].
  rewrite (solid_head _ _ Hs). destruct w as [|c' w].
  - reflexivity.
  - rewrite IH by (by eapply solid_tail). cbn [rev]. by rewrite <- app_assoc.
Qed.
Lemma fields_solid_space w r word : solid w ->
  fields_from (w ++ " "%char :: r) 0 word = (rev word ++ w) :: fields_from r 0 [].
Proof.
  revert word. induction w as [|c w IH]; intros word Hs; [by destruct Hs|]. cbn [fields_from app].
  assert (Hz : space_length (c :: w ++ " "%char :: r) = 0).
  { destruct (space_length (c :: w ++ " "%char :: r)) eqn:E; [done|]. exfalso.
    apply (space_length_space (c :: w) r); [done|by rewrite <- app_comm_cons, E|by apply solid_head]. }
  rewrite Hz. destruct w as [|c' w].
  - reflexivity.
  - rewrite IH by (by eapply solid_tail). cbn [rev]. by rewrite <- app_assoc.
Qed.

Lemma Fields_Join words : Forall (fun w => solid (chars w)) words -> Fields (Join words " ") = words.
Proof.
  intros Hs. induction Hs as [|w words Hw Hs IH]; [done|]. unfold Fields in *.
  assert (Hstr : str (chars w) = w) by apply String.string_of_list_ascii_of_string.
  destruct words as [|w' words].
  - cbn [Join]. rewrite fields_solid by done. cbn. by rewrite Hstr.
  - change (Join (w :: w' :: words) " ") with (w +:+ (" " +:+ Join (w' :: words) " ")).
    rewrite !chars_app. cbn [chars]. change (chars " ") with [" "%char]. cbn [app].
    rewrite fields_solid_space by done. cbn [map rev app]. by rewrite Hstr, IH.
Qed.

Lemma fields_from_solid s skip word : skip = 0 \/ word = [] ->
  (forall u v, rev word = u ++ v -> v <> [] -> space_length (v ++ s) = 0) ->
  Forall solid (fields_from s skip word).
Proof.
  assert (Hflush : forall word s, (forall u v, rev word = u ++ v -> v <> [] -> space_length (v ++ s) = 0) ->
    Forall solid (match word with [] => [] | _ => [rev word] end)).
  { intros wd s' Hw. destruct wd as [|c wd]; [done|]. constructor; [|done]. split; [by destruct (rev wd) eqn:?; cbn; rewrite ?Heql|].
    intros u v E Hv. specialize (Hw u v E Hv). destruct (decide (space_length v = 0)) as [|Hn]; [done|].
    by apply (space_length_app v s') in Hn. }
  revert skip word. induction s as [|c s IH]; intros skip word Hsw Hw; cbn [fields_from].
  - by apply (Hflush word []).
  - destruct skip as [|skip].
    + destruct (space_length (c :: s)) eqn:E.
      * apply IH; [by left|]. cbn [rev]. intros u v Hr Hv.
        destruct (exists_last Hv) as (v' & x & ->). rewrite app_assoc in Hr. apply app_inj_tail in Hr as [Hr <-].
        rewrite <- app_assoc. cbn [app]. destruct v' as [|y v']; [done|]. by eapply Hw.
      * apply Forall_app. split; [by eapply Hflush|]. apply IH; [by right|]. intros u v Hr Hv; symmetry in Hr; by apply app_eq_nil in Hr as [_ ->].
    + destruct Hsw as [Hsw|Hsw]; [done|subst word]. apply IH; [by right|]. intros u v Hr Hv; symmetry in Hr; by apply app_eq_nil in Hr as [_ ->].
Qed.
Lemma Fields_solid s : Forall (fun w => solid (chars w)) (Fields s).
Proof.
  unfold Fields. apply Forall_fmap. eapply Forall_impl; [apply (fields_from_solid (chars s) 0 []); [by left|intros u v Hr Hv; symmetry in Hr; by apply app_eq_nil in Hr as [_ ->]]|].
  intros w Hw. cbn. by rewrite String.list_ascii_of_string_of_list_ascii.
Qed.

(** Visible ASCII characters start no space. *)
Definition plain (c : ascii) : bool := (33 <=? N_of_ascii c)%N && (N_of_ascii c <? 128)%N.
Lemma plain_no_space c l : plain c = true -> space_length (c :: l) = 0.
Proof.
  unfold plain, space_length. cbn [map]. intros [H1%N.leb_le H2%N.ltb_lt]%andb_true_iff.
  replace ((9 <=? N_of_ascii c) && (N_of_ascii c <=? 13) || (N_of_ascii c =? 32))%N with false.
  - repeat case_match; try done; lia.
  - symmetry. apply orb_false_iff. split; [apply andb_false_iff; right; apply N.leb_gt; lia|apply N.eqb_neq; lia].
Qed.
Lemma solid_app u w : forallb plain u = true -> u ++ w <> [] -> (w = [] \/ solid w) -> solid (u ++ w).
Proof.
  intros Hu Hne Hw. split; [done|]. intros a b E Hb. revert a E. induction u as [|c u IH]; intros a E; cbn in E.
  - destruct Hw as [->|[_ Hw]]; [symmetry in E; by apply app_eq_nil in E as [_ ->]|by eapply Hw].
  - cbn in Hu. apply andb_true_iff in Hu as [Hc Hu]. destruct a as [|x a]; cbn in E.
    + subst b. by apply plain_no_space.
    + injection E as -> E. destruct u as [|y u].
      * destruct w as [|z w]; [symmetry in E; by apply app_eq_nil in E as [_ ->]|]. by apply (IH eq_refl ltac:(done) a).
      * by apply (IH Hu ltac:(done) a).
Qed.
Lemma solid_plain u : forallb plain u = true -> u <> [] -> solid u.
Proof. intros Hu Hne. rewrite <- (app_nil_r u). apply solid_app; [done|by rewrite app_nil_r|by left]. Qed.
