(* ===== verification/CoreStack.v ===== *)
(** The compose file of the four management services, as the Linux backend of
    the management updater edits it: [composeDocument], [services],
    [setEnvironment], [noRestart], [verifyManagementBinds] of
    [src/internal/managementupdate/linux.go] and [composeImages] of
    [retention.go].  The YAML library is a parameter. *)
From S2P Require Import Prelude Timestamp Release GoStrings.
From Stdlib Require Import Ascii.

Open Scope string_scope.

(** ** Documents *)

(** What the YAML library decodes into [any]; a scalar that is neither a
    string nor a Boolean is kept as its text. *)
Inductive Value :=
| VNull
| VBool (b : bool)
| VScalar (text : string)
| VStr (s : string)
| VList (l : list Value)
| VMap (m : gmap string Value).

#[export] Instance Value_eq_dec : EqDecision Value.
Proof.
  refine (fix go (v w : Value) :=
    let r : EqDecision Value := go in
    match v, w with
    | VNull, VNull => left eq_refl
    | VBool a, VBool b => cast_if (decide (a = b))
    | VScalar a, VScalar b => cast_if (decide (a = b))
    | VStr a, VStr b => cast_if (decide (a = b))
    | VList a, VList b => cast_if (decide (a = b))
    | VMap a, VMap b => cast_if (decide (a = b))
    | _, _ => right _
    end); clear r go; abstract congruence.
Defined.

Abbreviation object := (gmap string Value).

(** [gopkg.in/yaml.v3]. *)
Class YAML := {
  Unmarshal : string -> option Value;
  Marshal : Value -> option string }.

(** What is written reads back. *)
Class YAMLLaws `{YAML} := {
  Unmarshal_Marshal v b : Marshal v = Some b -> Unmarshal b = Some v }.

Definition as_object (v : Value) : option object := match v with VMap m => Some m | _ => None end.
Definition as_string (v : Value) : option string := match v with VStr s => Some s | _ => None end.

Definition service_names : list string := ["floatlab-control"; "rqlite"; "victoria-metrics"; "victoria-logs"].

Definition services_of (doc : object) : option object := doc !! "services" ≫= as_object.

(** [services]: of a document with four services, all of them mappings. *)
Definition services (doc : object) : gmap string object := omap as_object (default ∅ (services_of doc)).

(** An edit of every service in place. *)
Definition edit_services (f : string -> object -> object) (doc : object) : object :=
  match services_of doc with
  | Some ss => <["services" := VMap (map_imap (fun name v => Some match v with VMap m => VMap (f name m) | _ => v end) ss)]> doc
  | None => doc
  end.

(** [service["restart"] = policy] *)
Definition set_restart (policy : string) (service : object) : object := <["restart" := VStr policy]> service.

(** [setEnvironment] *)
Definition setEnvironment (key value : string) (service : object) : object :=
  let env := default ∅ (service !! "environment" ≫= as_object) in
  <["environment" := VMap (<[key := VStr value]> env)]> service.

Section Documents.
Context `{YAML}.

Definition composeDocument (b : string) : result string object :=
  match Unmarshal b with
  | Some (VMap doc) =>
      match services_of doc with
      | Some ss =>
          if negb (bool_decide (size ss = 4%nat)) then Err "expected exactly four management services"
          else if forallb (fun name => bool_decide (is_Some (ss !! name ≫= as_object))) service_names then Ok doc
          else Err "missing service"
      | None => Err "expected exactly four management services"
      end
  | Some VNull => Err "expected exactly four management services"
  | _ => Err "yaml"
  end.

Definition marshal (doc : object) : result string string :=
  match Marshal (VMap doc) with Some b => Ok b | None => Err "yaml" end.

(** [noRestart] *)
Definition noRestart (b : string) : result string string :=
  match composeDocument b with
  | Err e => Err e
  | Ok doc => marshal (edit_services (fun _ => set_restart "no") doc)
  end.

(** A service's image, as [composeImages] and [freezeDefinitions] require it. *)
Definition image_of (service : object) : option string :=
  match service !! "image" ≫= as_string with Some "" => None | o => o end.

(** [composeImages]; the order of Go's map is [order]. *)
Definition composeImages (order : list string -> list string) (b : string) : result string (list string) :=
  if decide (b = "") then Ok []
  else match composeDocument b with
  | Err e => Err e
  | Ok doc =>
      match mapM (fun name => services doc !! name ≫= image_of) (order service_names) with
      | Some refs => Ok refs
      | None => Err "missing retained image reference"
      end
  end.

(** ** The state binds *)

Definition managementDataset : string := "floatlab/system/management".

(** The source and destination of a volume. *)
Definition volume_ends (volume : Value) : string * string :=
  match volume with
  | VStr v =>
      match split_on ":" (chars v) with
      | source :: destination :: _ => (str source, str destination)
      | _ => ("", "")
      end
  | VMap v => (default "" (v !! "source" ≫= as_string), default "" (v !! "target" ≫= as_string))
  | _ => ("", "")
  end.

Fixpoint bind_found (target expected : string) (volumes : list Value) (found : bool) : result string bool :=
  match volumes with
  | [] => Ok found
  | v :: volumes =>
      let '(source, destination) := volume_ends v in
      if decide (destination = target) then
        (if decide (source = expected) then bind_found target expected volumes true
         else Err "management service state must bind its dataset")
      else bind_found target expected volumes found
  end.

Definition state_binds : list (string * string) :=
  [("rqlite", "/rqlite/file"); ("victoria-metrics", "/victoria-metrics-data");
   ("victoria-logs", "/victoria-logs-data"); ("floatlab-control", "/var/lib/floatlab/raft")].

Definition expected_bind (name : string) : string :=
  "/" +:+ managementDataset +:+ "/" +:+ (if decide (name = "floatlab-control") then "raft" else name).

Fixpoint verify_binds (doc : object) (todo : list (string * string)) : result string unit :=
  match todo with
  | [] => Ok tt
  | (name, target) :: todo =>
      match default ∅ (services doc !! name) !! "volumes" with
      | Some (VList volumes) =>
          match bind_found target (expected_bind name) volumes false with
          | Err e => Err e
          | Ok false => Err "management service state bind missing"
          | Ok true => verify_binds doc todo
          end
      | _ => Err "management service has no persistent state bind"
      end
  end.
Definition verifyManagementBinds (doc : object) : result string unit := verify_binds doc state_binds.
End Documents.

(** ** Lemmas *)

Lemma services_of_edit f doc : services_of (edit_services f doc) =
  (fun ss => map_imap (fun name v => Some match v with VMap m => VMap (f name m) | _ => v end) ss) <$> services_of doc.
Proof.
  unfold edit_services. destruct (services_of doc) as [ss|] eqn:E; [|by rewrite E].
  unfold services_of at 1. by rewrite lookup_insert_eq.
Qed.

Lemma services_edit f doc name : services (edit_services f doc) !! name = f name <$> services doc !! name.
Proof.
  unfold services. rewrite services_of_edit. destruct (services_of doc) as [ss|]; [|by rewrite !lookup_omap].
  cbn. rewrite !lookup_omap, map_lookup_imap. by destruct (ss !! name) as [[]|].
Qed.

Lemma edit_services_comp f g doc : edit_services f (edit_services g doc) = edit_services (fun name s => f name (g name s)) doc.
Proof.
  pose proof (services_of_edit g doc) as Hg. unfold edit_services at 1. rewrite Hg.
  unfold edit_services. destruct (services_of doc) as [ss|] eqn:E; [|done]. cbn.
  rewrite insert_insert_eq. f_equal. f_equal. apply map_eq. intros name. rewrite !map_lookup_imap.
  by destruct (ss !! name) as [[]|].
Qed.

Lemma set_restart_set p q s : set_restart p (set_restart q s) = set_restart p s.
Proof. apply insert_insert_eq. Qed.

Section Facts.
Context `{YAMLLaws}.

Lemma composeDocument_services b doc : composeDocument b = Ok doc -> dom (services doc) = (list_to_set service_names : gset string).
Proof.
  unfold composeDocument. destruct (Unmarshal b) as [[| | | | |d]|]; try done.
  destruct (services_of d) as [ss|] eqn:Es; [|done]. case_bool_decide as Hsz; [|done]. cbn [negb].
  destruct (forallb _ _) eqn:Hf; [|done]. intros [= ->].
  assert (Hall : forall n, n ∈ service_names -> is_Some (ss !! n ≫= as_object)) by (by apply (Forall_decide (fun n => is_Some (ss !! n ≫= as_object)))).
  assert (Hdom : dom ss = (list_to_set service_names : gset string)).
  { symmetry. apply (set_subseteq_size_eq (list_to_set service_names : gset string)).
    - intros n Hn%elem_of_list_to_set. apply elem_of_dom. destruct (Hall n Hn) as [m Hm].
      destruct (ss !! n); [done|discriminate].
    - rewrite size_dom, Hsz. vm_compute. lia. }
  unfold services. rewrite Es. change (default ∅ (Some ss)) with ss. apply set_eq. intros n. rewrite elem_of_dom, lookup_omap. split.
  - intros [m Hm]. rewrite <- Hdom. apply elem_of_dom. destruct (ss !! n); [done|discriminate].
  - intros Hn%elem_of_list_to_set. exact (Hall n Hn).
Qed.

(** An edited document is one that can be read. *)
Lemma composeDocument_edit b doc f b' : composeDocument b = Ok doc -> marshal (edit_services f doc) = Ok b' ->
  composeDocument b' = Ok (edit_services f doc).
Proof.
  unfold marshal. intros Hd. destruct (Marshal _) as [b0|] eqn:Em; [|done]. intros [= ->].
  apply Unmarshal_Marshal in Em. revert Hd. unfold composeDocument. rewrite Em.
  destruct (Unmarshal b) as [[| | | | |d]|]; try done.
  destruct (services_of d) as [ss|] eqn:Es; [|done]. case_bool_decide as Hsz; [|done]. cbn [negb].
  destruct (forallb _ _) eqn:Hf; [|done]. intros [= ->]. rewrite services_of_edit, Es. cbn [fmap option_fmap option_map].
  set (ss' := map_imap _ ss).
  assert (Hl : forall n, ss' !! n ≫= as_object = f n <$> (ss !! n ≫= as_object)).
  { intros n. unfold ss'. rewrite map_lookup_imap. by destruct (ss !! n) as [[]|]. }
  assert (Hdom : dom ss' = dom ss).
  { apply set_eq. intros n. rewrite !elem_of_dom. unfold ss'. rewrite map_lookup_imap. destruct (ss !! n); cbn; split; intros []; eauto. }
  rewrite <- (size_dom ss'), Hdom, size_dom. rewrite bool_decide_eq_true_2 by done. cbn [negb].
  replace (forallb _ _) with true; [done|]. symmetry. apply forallb_forall. intros n Hn.
  rewrite forallb_forall in Hf. specialize (Hf n Hn). apply bool_decide_eq_true in Hf. apply bool_decide_eq_true.
  rewrite Hl. by apply fmap_is_Some.
Qed.

(** [noRestart] rewrites the restart policies and nothing else. *)
Lemma noRestart_spec b b' : noRestart b = Ok b' -> exists doc,
  composeDocument b = Ok doc /\ composeDocument b' = Ok (edit_services (fun _ => set_restart "no") doc).
Proof.
  unfold noRestart. destruct (composeDocument b) as [doc|] eqn:E; [|done]. intros Hm.
  exists doc. split; [done|]. exact (composeDocument_edit b doc _ b' E Hm).
Qed.
End Facts.

Lemma edit_services_id f doc : (forall name svc, services doc !! name = Some svc -> f name svc = svc) -> edit_services f doc = doc.
Proof.
  intros Hf. unfold edit_services. destruct (services_of doc) as [ss|] eqn:E; [|done].
  assert (Hd : doc !! "services" = Some (VMap ss)).
  { unfold services_of in E. destruct (doc !! "services") as [[]|]; cbn in E; simplify_eq; done. }
  apply insert_id. rewrite Hd. do 2 f_equal. apply map_eq. intros name. rewrite map_lookup_imap.
  destruct (ss !! name) as [v|] eqn:En; [|done]. cbn. f_equal. destruct v as [| | | | |m]; try done. f_equal. symmetry. apply Hf.
  unfold services. rewrite E. change (default ∅ (Some ss)) with ss. by rewrite lookup_omap, En.
Qed.

(** Suppressing restarts is reversible: the suppressed compose file can be
    read, has every service's restart switched off, and giving every service
    the policy it had before yields the original document again. *)
Theorem suppression_reversible `{YAMLLaws} (b b' : string) (doc : object) (policy : string -> string)
  (Hread : composeDocument b = Ok doc) (Hno : noRestart b = Ok b')
  (Hpolicy : forall name svc, services doc !! name = Some svc -> svc !! "restart" = Some (VStr (policy name))) :
  exists doc', composeDocument b' = Ok doc' /\
    (forall name svc, services doc' !! name = Some svc -> svc !! "restart" = Some (VStr "no")) /\
    dom (services doc') = dom (services doc) /\
    edit_services (fun name => set_restart (policy name)) doc' = doc.
Proof.
  destruct (noRestart_spec b b' Hno) as (d & Hd & Hd'). rewrite Hread in Hd. injection Hd as <-.
  eexists. split; [exact Hd'|]. split_and!.
  - intros name svc. rewrite services_edit. intros (svc0 & _ & ->)%fmap_Some_1. apply lookup_insert_eq.
  - apply set_eq. intros name. by rewrite !elem_of_dom, services_edit, fmap_is_Some.
  - rewrite edit_services_comp. apply edit_services_id. intros name svc Hs. rewrite set_restart_set.
    apply insert_id. by apply Hpolicy.
Qed.

(** *** A concrete library and file *)

Definition sample_doc (policy : string) : object :=
  {["services" := VMap (list_to_map (map (fun n => (n, VMap {["image" := VStr ("img-" +:+ n); "restart" := VStr policy]})) service_names))]}.
Definition sample_yaml : YAML := {|
  Unmarshal b := if decide (b = "always") then Some (VMap (sample_doc "always"))
                 else if decide (b = "no") then Some (VMap (sample_doc "no")) else None;
  Marshal v := if decide (v = VMap (sample_doc "always")) then Some "always"
               else if decide (v = VMap (sample_doc "no")) then Some "no" else None |}.
Lemma sample_laws : @YAMLLaws sample_yaml.
Proof.
  constructor. intros v b. cbn. destruct (decide _) as [->|]; [intros [= <-]; reflexivity|].
  destruct (decide _) as [->|]; [intros [= <-]; reflexivity|done].
Qed.

Lemma suppression_reversible_witness : exists doc',
  @composeDocument sample_yaml "no" = Ok doc' /\
  (forall name svc, services doc' !! name = Some svc -> svc !! "restart" = Some (VStr "no")) /\
  dom (services doc') = dom (services (sample_doc "always")) /\
  edit_services (fun name => set_restart "always") doc' = sample_doc "always".
Proof.
  apply (@suppression_reversible sample_yaml sample_laws "always" "no" (sample_doc "always") (fun _ => "always")).
  - vm_compute. reflexivity.
  - vm_compute. reflexivity.
  - intros name svc Hs.
    assert (Hall : map_Forall (fun _ (svc : object) => svc !! "restart" = Some (VStr "always")) (services (sample_doc "always")))
      by (apply (bool_decide_eq_true_1 _); vm_compute; reflexivity).
    exact (Hall name svc Hs).
Defined.
