(* ===== verification/MgmtLinux.v ===== *)
(** The Linux backend of the management updater:
    [src/internal/managementupdate/linux.go] and [retention.go].

    The programs are the code's sequences of commands, file writes and waits,
    with the argument vectors of the code.  What a command prints and whether
    it succeeds is decided by an environment that may depend on everything
    that happened before; every command, write, removal and wait is recorded in
    a trace, latest first.  The files the backend writes are part of the state;
    JSON answers are given in decoded form. *)
From S2P Require Import Prelude Timestamp Release Update GoStrings CoreStack MgmtUpdate.
From stdpp Require Import pretty.
From Stdlib Require Import Ascii.

Open Scope string_scope.
Open Scope list_scope.

Definition composePath : string := "/floatlab/system/docker-compose.yml".
Definition activationDir : string := "/run/floatlab/activation".
Definition blocked : string := activationDir +:+ "/blocked".

Inductive event :=
| ERun (argv : list string) (out : string) (err : option string)
| EWrite (path data : string) (ok : bool)
| ECheckpoint (id : string) (s : Status) (ok : bool)
| ERemove (path : string) (ok : bool)
| EQuiesce (err : option string)
| EFetch (url : string) (ok : bool)
| EWait (nanos : Z).

(** [checkpoints]: the files [management-os-<id>.json] by their identity. *)
Record W := mkW { files : gmap string (file string); checkpoints : gmap string (file Status); st : Status; trace : list event }.
Definition set_files (f : gmap string (file string)) (w : W) : W := mkW f (checkpoints w) (st w) (trace w).
Definition set_checkpoints (c : gmap string (file Status)) (w : W) : W := mkW (files w) c (st w) (trace w).
Definition set_st (s : Status) (w : W) : W := mkW (files w) (checkpoints w) s (trace w).
Definition log (e : event) (w : W) : W := mkW (files w) (checkpoints w) (st w) (e :: trace w).

Abbreviation cmd := (prog string W).

Class Linux := {
  Dir : string;
  (** what a command prints, and its error *)
  reply : list string -> list event -> string * option string;
  write : list event -> wstep -> bool;
  remove_ok : string -> list event -> bool;
  mkdir_ok : list event -> bool;
  (** the stamps the management controllers leave when they have drained *)
  drained : string -> list event -> option string;
  quiesce : option (list event -> option string);
  cancelled : list event -> bool;
  now : list event -> Z;
  (** the order in which a Go map is ranged over *)
  shuffle : list event -> list string -> list string;
  fetch_manifest : string -> list event -> option Manifest;
  (** the rqlite of a lab node answers over HTTP *)
  lab_read : string -> list event -> option (result string string);
  release_info : string -> option (string * Z);
  build_version : string -> option string;
  peer_count : string -> option nat;
  restart_policy : string -> option (string * Z);
  sandbox : string -> option (string * string);
  journals : list event -> option (list (string * option Status)) }.

Definition path_in `{Linux} (name : string) : string := Dir +:+ "/" +:+ name.

(** [strings.Fields] has one element; prefixes of dataset names. *)
Definition under (root name : string) : bool := bool_decide (name = root) || HasPrefix name (root +:+ "/").

Definition hex_digit (c : ascii) : bool := in_range_ascii "0" "9" c || in_range_ascii "a" "f" c.
(** [^sha256:[a-f0-9]{64}$] *)
Definition image_identity (s : string) : bool :=
  HasPrefix s "sha256:" &&
  let h := chars (TrimPrefix s "sha256:") in (length h =? 64)%nat && forallb hex_digit h.

Section Backend.
Context `{Semver} `{YAML} `{Linux}.

(** ** Primitives *)

Definition get_st : cmd Status := fun w => (Ok (st w), w).
Definition modify_st (f : Status -> Status) : cmd unit := modify (fun w => set_st (f (st w)) w).
Definition modify_capture (f : Captured -> Captured) : cmd unit := modify_st (fun s => set_Capture (f (Capture s)) s).

(** [run]: the trimmed output. *)
Definition run (argv : list string) : cmd string := fun w =>
  let '(out, err) := reply argv (trace w) in
  (match err with None => Ok (TrimSpace out) | Some e => Err e end, log (ERun argv out err) w).
Definition run_ (argv : list string) : cmd unit := run argv;; ret tt.

Definition write_file (path data : string) : cmd unit := fun w =>
  let '(ok, f) := WriteFile (write (trace w)) data (default Absent (files w !! path)) in
  (if ok then Ok tt else Err "write", set_files (<[path := f]> (files w)) (log (EWrite path data ok) w)).

Definition read_file (path : string) : cmd string := fun w =>
  (match default Absent (files w !! path) with Content b => Ok b | _ => Err "read" end, w).

(** [os.Remove] of a file that may be missing. *)
Definition remove (path : string) : cmd unit := fun w =>
  match default Absent (files w !! path) with
  | Absent => (Ok tt, w)
  | _ => let ok := remove_ok path (trace w) in
         (if ok then Ok tt else Err "remove",
          set_files (if ok then <[path := Absent]> (files w) else files w) (log (ERemove path ok) w))
  end.
(** The same for a stamp of the controllers. *)
Definition remove_stamp (name : string) : cmd unit := fun w =>
  let ok := remove_ok name (trace w) in (if ok then Ok tt else Err "remove", log (ERemove name ok) w).

Definition wait (nanos : Z) : cmd unit := modify (log (EWait nanos)).
Definition check (b : bool) (e : string) : cmd unit := if b then ret tt else fail e.

(** What an assignment stores when the call fails. *)
Definition or_zero {A} (z : A) (r : result string A) : A := match r with Ok a => a | Err _ => z end.

Fixpoint each {A} (f : A -> cmd unit) (l : list A) : cmd unit :=
  match l with [] => ret tt | x :: l => f x;; each f l end.

(** ** Commands *)

Definition project_label : string := "label=com.docker.compose.project=floatlab-system".
Definition ps (flag : string) : list string := ["docker"; "ps"; flag; "--filter"; project_label].
Definition ps_service (flag name : string) : list string :=
  ps flag ++ ["--filter"; "label=com.docker.compose.service=" +:+ name].
Definition compose_argv (path project : string) (args : list string) : list string :=
  ["docker"; "compose"; "-p"; project; "-f"; path] ++ args.
Definition compose (path project : string) (args : list string) : cmd unit := run_ (compose_argv path project args).
Definition up : cmd unit :=
  compose composePath "floatlab-system" ["up"; "-d"; "--pull"; "never"; "--wait"; "--wait-timeout"; "300"].
Definition stop : cmd unit := compose composePath "floatlab-system" ["stop"; "--timeout"; "60"].
Definition zget (property name : string) : list string := ["zfs"; "get"; "-H"; "-o"; "value"; property; name].

(** [controlID]: the error is ignored, what was printed is not. *)
Definition controlID : cmd string := fun w =>
  let argv := ps_service "-q" "floatlab-control" in
  let '(out, err) := reply argv (trace w) in (Ok (TrimSpace out), log (ERun argv out err) w).

(** ** Releases *)

(** [^[a-zA-Z0-9./:_-]+@sha256:[a-f0-9]{64}$] *)
Definition digest (s : string) : bool :=
  match split_on "@" (chars s) with
  | [name; hash] =>
      negb (bool_decide (name = [])) && image_identity (str hash) &&
      forallb (fun c => digit c || letter c || bool_decide (c ∈ chars "./:_-")) name
  | _ => false
  end.

(** [Manifest.Validate]; [host] is this build's version. *)
Definition Manifest_Validate (host : string) (m : Manifest) (tag : string) : bool :=
  validRelease tag && bool_decide (Version m = TrimPrefix tag "manage-v") && bool_decide (Architecture m = "amd64") &&
  match Release.Contains (mkRange (RequiredHost m).1 (RequiredHost m).2) host with Ok b => b | Err _ => false end &&
  bool_decide (size (Images m) = 4%nat) && negb (bool_decide (RQLiteSources m = [])) &&
  forallb (fun service => digest (default "" (Images m !! service))) service_names &&
  match Parse (RQLiteVersion m) with Ok _ => true | Err _ => false end &&
  forallb (fun v => match Parse v with Ok _ => true | Err _ => false end) (RQLiteSources m).

Definition validateRQLiteSource (m : Manifest) (version : string) : bool :=
  bool_decide (TrimPrefix version "v" ∈ RQLiteSources m).

(** ** The installed stack *)

Definition validateBaseline (info : string) : result string string :=
  match release_info info with
  | Some (version, protocol) =>
      if negb (protocol =? 1)%Z then Err "management baseline does not support safe update protocol 1"
      else match Parse version with Ok _ => Ok version | Err _ => Err "invalid baseline version" end
  | None => Err "json"
  end.

Fixpoint dataset_rows (rows : list string) : option (list Dataset) :=
  match rows with
  | [] => Some []
  | line :: rows =>
      match Fields line with
      | [name; guid] => if under managementDataset name then cons (mkDataset name guid) <$> dataset_rows rows else None
      | _ => None
      end
  end.

Definition datasets : cmd (list Dataset) :=
  raw ← run ["zfs"; "list"; "-H"; "-r"; "-t"; "filesystem"; "-o"; "name,guid"; managementDataset];
  match dataset_rows (Lines raw) with
  | None => fail "invalid management dataset membership"
  | Some out => if (length out <? 5)%nat then fail "management hierarchy adoption incomplete" else ret out
  end.

Fixpoint props_of (rows : list string) : option (gmap string string) :=
  match rows with
  | [] => Some ∅
  | line :: rows =>
      match Fields line with
      | [k; v] => (fun m => match m !! k with Some _ => m | None => <[k := v]> m end) <$> props_of rows
      | _ => None
      end
  end.

Definition verifyDatasetProperties (l : list Dataset) : cmd unit :=
  each (fun ds =>
    raw ← run ["zfs"; "get"; "-H"; "-o"; "property,value"; "mountpoint,canmount"; Name ds];
    match props_of (Lines raw) with
    | None => fail "invalid management mount properties"
    | Some props =>
        check (bool_decide (default "" (props !! "mountpoint") = "/" +:+ Name ds) &&
               bool_decide (default "" (props !! "canmount") = "on")) "mount properties"
    end) l.

Definition verifyMountedDataset (ds : Dataset) : cmd unit :=
  raw ← run ["findmnt"; "-n"; "-o"; "SOURCE,FSTYPE"; "--mountpoint"; "/" +:+ Name ds];
  check (bool_decide (Fields raw = [Name ds; "zfs"])) "not mounted from its expected ZFS dataset".

Definition verifyMountedDatasets (l : list Dataset) : cmd unit :=
  check (negb (bool_decide (l = []))) "management dataset inventory missing";;
  verifyDatasetProperties l;;
  each verifyMountedDataset l.

(** The restart policy of a container as compose writes it. *)
Definition policy_text (name : string) (count : Z) : option string :=
  if bool_decide (name ∈ ["no"; "always"; "unless-stopped"]) then Some name
  else if decide (name = "on-failure") then Some (if (0 <? count)%Z then name +:+ ":" +:+ pretty count else name)
  else None.

(** One service of [freezeDefinitions]: its image is retained under a tag of
    its own, its policy recorded. *)
Definition freeze_service (doc : object) (name : string) : cmd object :=
  match services doc !! name with
  | None => fail "missing service"
  | Some svc =>
      check (bool_decide (is_Some (image_of svc))) "missing original image";;
      containerIDs ← run (ps_service "-aq" name);
      match Fields containerIDs with
      | [id] =>
          imageID ← run ["docker"; "inspect"; "--format"; "{{.Image}}"; id];
          check (image_identity imageID) "invalid installed image identity";;
          let retained := "floatlab-rollback/" +:+ name +:+ ":" +:+ TrimPrefix imageID "sha256:" in
          run ["docker"; "tag"; imageID; retained];;
          let doc := edit_services (fun n s => if decide (n = name) then <["image" := VStr retained]> s else s) doc in
          rawPolicy ← run ["docker"; "inspect"; "--format"; "{{json .HostConfig.RestartPolicy}}"; id];
          match restart_policy rawPolicy with
          | None => fail "json"
          | Some (policy, count) =>
              match policy_text policy count with
              | None => fail "unsupported installed restart policy"
              | Some text =>
                  modify_capture (fun c => mkCaptured (SourceRelease c) (TheManifest c) (PreviousCompose c) (CandidateCompose c)
                    (Datasets c) (<[name := text]> (Policies c)));;
                  ret doc
              end
          end
      | _ => fail "expected exactly one installed container"
      end
  end.
Fixpoint freeze_services (doc : object) (names : list string) : cmd object :=
  match names with
  | [] => ret doc
  | name :: names => doc ← freeze_service doc name; freeze_services doc names
  end.
Definition freezeDefinitions (doc : object) : cmd object :=
  modify_capture (fun c => mkCaptured (SourceRelease c) (TheManifest c) (PreviousCompose c) (CandidateCompose c) (Datasets c) ∅);;
  w ← get;
  freeze_services doc (shuffle (trace w) service_names).

Definition capture : cmd unit :=
  id ← controlID;
  info ← run ["docker"; "exec"; id; "/usr/local/bin/floatlab-control"; "--release-info"];
  version ← of_result (validateBaseline info);
  modify_capture (fun c => mkCaptured ("manage-v" +:+ version) (TheManifest c) (PreviousCompose c) (CandidateCompose c) (Datasets c) (Policies c));;
  b ← read_file composePath;
  modify_capture (fun c => mkCaptured (SourceRelease c) (TheManifest c) b (CandidateCompose c) (Datasets c) (Policies c));;
  doc ← of_result (composeDocument b);
  doc ← freezeDefinitions doc;
  let previous := marshal doc in
  modify_capture (fun c => mkCaptured (SourceRelease c) (TheManifest c) (or_zero "" previous) (CandidateCompose c) (Datasets c) (Policies c));;
  of_result previous;;
  found ← attempt datasets;
  modify_capture (fun c => mkCaptured (SourceRelease c) (TheManifest c) (PreviousCompose c) (CandidateCompose c) (or_zero [] found) (Policies c));;
  l ← of_result found;
  verifyMountedDatasets l;;
  of_result (verifyManagementBinds doc).

(** ** Preparing *)

Definition rqliteRead (path : string) : cmd string := fun w =>
  match lab_read path (trace w) with
  | Some r => (r, w)
  | None => (id ← controlID; run ["docker"; "exec"; id; "wget"; "-qO-"; "http://rqlite:4001" +:+ path]) w
  end.

Definition fetchManifest (url : string) : cmd Manifest := fun w =>
  (match fetch_manifest url (trace w) with Some m => Ok m | None => Err "fetch" end,
   log (EFetch url (match fetch_manifest url (trace w) with Some _ => true | None => false end)) w).

Definition pull (image : string) : cmd unit :=
  run ["docker"; "pull"; "--platform"; "linux/amd64"; image];;
  info ← run ["docker"; "image"; "inspect"; "--format"; "{{.Architecture}} {{.Os}}"; image];
  check (bool_decide (info = "amd64 linux")) "image platform mismatch".

(** The candidate's document: the release's images, started once. *)
Definition candidate (images : gmap string string) (target : string) (doc : object) : object :=
  edit_services (fun name service =>
    let service := set_restart "no" (<["image" := VStr (default "" (images !! name))]> service) in
    if decide (name = "floatlab-control")
    then setEnvironment "FLOATLAB_UPDATE_RELEASE" target (setEnvironment "FLOATLAB_ACTIVATION_DIR" activationDir service)
    else service) doc.

(** [Prepare] *)
Definition PrepareRelease (host : string) : cmd unit :=
  s ← get_st;
  check (ValidateUpstream (Upstream s)) "upstream";;
  m ← fetchManifest ("https://github.com/" +:+ Repository (Upstream s) +:+ "/releases/download/" +:+ TargetRelease s +:+ "/manage-manifest.json");
  modify_capture (fun c => mkCaptured (SourceRelease c) m (PreviousCompose c) (CandidateCompose c) (Datasets c) (Policies c));;
  check (Manifest_Validate host m (TargetRelease s)) "invalid release";;
  capture;;
  health ← run ["zpool"; "list"; "-H"; "-o"; "health"; "floatlab"];
  check (bool_decide (TrimSpace health = "ONLINE")) "pool is not ONLINE";;
  available ← run ["zfs"; "get"; "-Hp"; "-o"; "value"; "available"; managementDataset];
  check (match ParseUint (TrimSpace available) with Some n => negb (n <? 2 * 2 ^ 30)%Z | None => false end)
    "at least 2 GiB free pool capacity required";;
  status ← rqliteRead "/status";
  (match build_version status with
   | None => fail "json"
   | Some version => check (validateRQLiteSource m version) "rqlite source has no tested transition"
   end);;
  nodes ← rqliteRead "/nodes";
  check (bool_decide (peer_count nodes = Some 1%nat)) "management updates require standalone rqlite";;
  w ← get;
  each (fun name => pull (default "" (Images m !! name))) (shuffle (trace w) (elements (dom (Images m))));;
  s ← get_st;
  doc ← of_result (composeDocument (PreviousCompose (Capture s)));
  let b := marshal (candidate (Images m) (TargetRelease s) doc) in
  modify_capture (fun c => mkCaptured (SourceRelease c) (TheManifest c) (PreviousCompose c) (or_zero "" b) (Datasets c) (Policies c));;
  of_result b;;
  ret tt.

(** ** Fencing *)

Definition stopped : cmd unit :=
  ids ← run (ps "-q");
  check (bool_decide (TrimSpace ids = "")) "management writers still running".

(** A container's restart policy is switched off, and seen to be off. *)
Definition suppress (id : string) : cmd unit :=
  run ["docker"; "update"; "--restart=no"; id];;
  policy ← run ["docker"; "inspect"; "--format"; "{{.HostConfig.RestartPolicy.Name}}"; id];
  check (bool_decide (policy = "no")) "restart suppression not verified".

Definition suppressAndStop : cmd unit :=
  s ← get_st;
  write_file blocked (OperationID s);;
  write_file (path_in "management-blocked") (OperationID s);;
  run ["systemctl"; "mask"; "--runtime"; "floatlab-core-stack.service"];;
  suppressed ← of_result (noRestart (PreviousCompose (Capture s)));
  write_file composePath suppressed;;
  ids ← run (ps "-aq");
  each suppress (Fields ids);;
  stop;;
  stopped.

(** The wait for the controllers; it polls every 200 ms for a minute. *)
Definition stamped (id name : string) (past : list event) : bool := bool_decide (drained name past = Some id).
Fixpoint drain (fuel : nat) (deadline : Z) (id : string) : cmd unit :=
  match fuel with
  | O => fail "out of fuel"
  | S fuel =>
      w ← get;
      if stamped id "controllers-drained" (trace w) && stamped id "api-drained" (trace w) then ret tt
      else if (deadline <? now (trace w))%Z then fail "management controllers did not drain"
      else if cancelled (trace w) then fail "context canceled"
      else wait 200000000;; drain fuel deadline id
  end.
Definition drain_fuel : nat := 302.

Definition FenceBackend : cmd unit :=
  s ← get_st;
  w ← get;
  check (mkdir_ok (trace w)) "mkdir";;
  each remove_stamp ["controllers-drained"; "api-drained"];;
  write_file blocked (OperationID s);;
  id ← controlID;
  (if decide (id = "") then ret tt
   else w ← get; drain drain_fuel (now (trace w) + 60000000000)%Z (OperationID s));;
  (match quiesce with
   | None => ret tt
   | Some q => fun w => (match q (trace w) with None => Ok tt | Some e => Err e end, log (EQuiesce (q (trace w))) w)
   end);;
  suppressAndStop.

(** ** Snapshots *)

Definition take_snapshot (name : string) (hold : bool) : cmd unit :=
  run ["zfs"; "snapshot"; "-r"; managementDataset +:+ "@" +:+ name];;
  s ← get_st;
  if hold then each (fun ds => run_ ["zfs"; "hold"; "floatlab-update"; Name ds +:+ "@" +:+ name]) (Datasets (Capture s))
  else ret tt.

(** [Snapshot] *)
Definition SnapshotBackend : cmd unit :=
  stopped;;
  actual ← datasets;
  modify_capture (fun c => mkCaptured (SourceRelease c) (TheManifest c) (PreviousCompose c) (CandidateCompose c) actual (Policies c));;
  modify_st (fun s => set_Snapshot ("floatlab-update-" +:+ OperationID s) s);;
  s ← get_st;
  take_snapshot (MgmtUpdate.Snapshot s) true.

Definition InstallBackend : cmd unit :=
  s ← get_st;
  verifyMountedDatasets (Datasets (Capture s));;
  write_file composePath (CandidateCompose (Capture s));;
  up.

(** ** Health *)

(** The images that must be running: the candidate's while it is checked, the
    retained ones otherwise. *)
Definition expected_images (s : Status) : result string (gmap string string) :=
  if decide (Phase s = "checking") then Ok (Images (TheManifest (Capture s)))
  else match composeDocument (PreviousCompose (Capture s)) with
       | Err e => Err e
       | Ok doc => Ok (omap (fun svc : object => svc !! "image" ≫= as_string) (services doc))
       end.

Definition verify_image (name ref : string) : cmd unit :=
  ids ← run (ps_service "-q" name);
  match Fields ids with
  | [id] =>
      actual ← run ["docker"; "inspect"; "--format"; "{{.Image}}"; id];
      expected ← run ["docker"; "image"; "inspect"; "--format"; "{{.Id}}"; ref];
      check (bool_decide (actual = expected)) "running image differs from authorized release"
  | _ => fail "expected one running service"
  end.
Definition verifyRunningImages : cmd unit :=
  s ← get_st;
  images ← of_result (expected_images s);
  w ← get;
  each (fun name => verify_image name (default "" (images !! name))) (shuffle (trace w) (elements (dom images))).

Definition expected_release (s : Status) : string :=
  if decide (Phase s = "checking") then Version (TheManifest (Capture s)) else TrimPrefix (SourceRelease (Capture s)) "manage-v".

Definition self_test (id expected : string) : list string :=
  ["docker"; "exec"; id; "/usr/local/bin/floatlab-control"; "--self-test"; "--expected-release=" +:+ expected;
   "--rqlite-url=http://rqlite:4001"; "--vlogs-url=http://victoria-logs:9428"; "--vmetrics-url=http://victoria-metrics:8428"].

(** One check of the running stack. *)
Definition probe : cmd unit :=
  s ← get_st;
  id ← controlID;
  run (self_test id (expected_release s));;
  verifyRunningImages.

(** The loop: every five seconds, until the stack has been sound for a minute
    or five minutes are over. *)
Fixpoint readiness (fuel : nat) (deadline : Z) (stable : option Z) : cmd unit :=
  match fuel with
  | O => fail "out of fuel"
  | S fuel =>
      r ← attempt probe;
      w ← get;
      let t := now (trace w) in
      let stable := match r with Ok _ => Some (default t stable) | Err _ => None end in
      if bool_decide (is_Some stable) && (60000000000 <=? t - default t stable)%Z then ret tt
      else if cancelled (trace w) || (deadline <=? t)%Z then fail "management readiness deadline"
      else
        wait 5000000000;;
        w ← get;
        if cancelled (trace w) || (deadline <=? now (trace w))%Z then fail "management readiness deadline"
        else readiness fuel deadline stable
  end.
Definition readiness_fuel : nat := 62.

Definition HealthyBackend : cmd unit :=
  w ← get;
  readiness readiness_fuel (now (trace w) + 300000000000)%Z None.

(** ** Restoring *)

Definition mounted (ds : Dataset) : cmd string := run (zget "mounted" (Name ds)).

Definition unmount (ds : Dataset) : cmd unit :=
  m ← mounted ds;
  if decide (m = "yes") then verifyMountedDataset ds;; run_ ["zfs"; "unmount"; Name ds]
  else if decide (m = "no") then ret tt else fail "unknown mount state".
Definition remount (ds : Dataset) : cmd unit :=
  m ← mounted ds;
  if decide (m = "no") then run_ ["zfs"; "mount"; Name ds]
  else if decide (m = "yes") then ret tt else fail "unknown mount state".
Definition rollback_argv (ds snapshot : string) : list string := ["zfs"; "rollback"; ds +:+ "@" +:+ snapshot].

Definition restoreDatasets : cmd unit :=
  s ← get_st;
  let l := Datasets (Capture s) in
  verifyDatasetProperties l;;
  compose composePath "floatlab-system" ["rm"; "-f"];;
  each (fun ds => r ← attempt (run (zget "guid" (Name ds +:+ "@" +:+ MgmtUpdate.Snapshot s)));
                  match r with
                  | Ok guid => check (negb (bool_decide (TrimSpace guid = ""))) "rollback snapshot unavailable"
                  | Err _ => fail "rollback snapshot unavailable"
                  end) l;;
  each unmount (rev l);;
  each (fun ds => m ← mounted ds; check (bool_decide (m = "no")) "management dataset remains mounted before rollback") l;;
  each (fun ds => run_ (rollback_argv (Name ds) (MgmtUpdate.Snapshot s))) (rev l);;
  each remount l.

#[export] Instance Dataset_eq_dec : EqDecision Dataset.
Proof. solve_decision. Defined.

Definition RestoreBackend : cmd unit :=
  suppressAndStop;;
  s ← get_st;
  (if ProductionChanged s then
     check (negb (bool_decide (MgmtUpdate.Snapshot s = ""))) "rollback snapshot identity missing";;
     actual ← datasets;
     check (bool_decide (actual = Datasets (Capture s))) "dataset membership or identity changed; manual recovery required";;
     restoreDatasets
   else ret tt);;
  b ← of_result (noRestart (PreviousCompose (Capture s)));
  write_file composePath b;;
  verifyMountedDatasets (Datasets (Capture s));;
  r ← attempt up;
  match r with
  | Ok _ => ret tt
  | Err e => attempt stop;; fail e
  end.

(** ** Authorizing *)

Definition set_policy (name policy : string) : cmd unit :=
  ids ← run (ps_service "-aq" name);
  each (fun id => run_ ["docker"; "update"; "--restart=" +:+ policy; id]) (Fields ids).

Definition AuthorizeBackend : cmd unit :=
  s ← get_st;
  check (Authorized s) "startup not authorized";;
  let policies := Policies (Capture s) in
  b ← read_file composePath;
  doc ← of_result (composeDocument b);
  b ← of_result (marshal (edit_services (fun name => set_restart (default "" (policies !! name))) doc));
  write_file composePath b;;
  w ← get;
  each (fun name => set_policy name (default "" (policies !! name))) (shuffle (trace w) (elements (dom policies)));;
  remove blocked;;
  remove (path_in "management-blocked");;
  run_ ["systemctl"; "unmask"; "--runtime"; "floatlab-core-stack.service"].

(** ** Cleanup *)

Definition tests_root : string := "floatlab/system/update-tests/".
(** [^floatlab_[a-f0-9]{10}$] *)
Definition sandbox_table (s : string) : bool :=
  HasPrefix s "floatlab_" && let h := chars (TrimPrefix s "floatlab_") in (length h =? 10)%nat && forallb hex_digit h.

(** Removes a resource if it is found. *)
Definition drop (inspect removal : list string) : cmd unit :=
  r ← attempt (run inspect);
  match r with Ok _ => run_ removal | Err _ => ret tt end.

Definition name_ge (a b : string) : Prop := bytes_ltb (chars a) (chars b) = false.
#[local] Instance name_ge_dec : RelDecision name_ge.
Proof. intros a b. unfold name_ge. apply _. Defined.

Definition cleanup_sandbox (id : string) : cmd unit :=
  let project := "floatlab-test-" +:+ ToLower id in
  w ← get;
  (match default Absent (files w !! path_in (id +:+ "/preflight.yml")) with
   | Absent => ret tt
   | _ => compose (path_in (id +:+ "/preflight.yml")) project ["down"; "--timeout"; "30"]
   end);;
  w ← get;
  (match default Absent (files w !! path_in (id +:+ "/sandbox.json")) with
   | Content b =>
       match sandbox b with
       | None => fail "json"
       | Some (network, table) =>
           check (bool_decide (network = project +:+ "-isolated") && sandbox_table table) "invalid sandbox cleanup identity";;
           drop ["docker"; "network"; "inspect"; network] ["docker"; "network"; "rm"; network];;
           drop ["nft"; "list"; "table"; "inet"; table] ["nft"; "delete"; "table"; "inet"; table]
       end
   | _ => ret tt
   end).

Definition cleanup_clones (id : string) : cmd unit :=
  r ← attempt (run ["zfs"; "list"; "-H"; "-r"; "-t"; "filesystem"; "-o"; "name"; tests_root +:+ id]);
  match r with
  | Err _ => ret tt
  | Ok raw =>
      each (fun name => check (under (tests_root +:+ id) name) "unexpected clone ownership";; run_ ["zfs"; "destroy"; name])
        (merge_sort name_ge (Fields raw))
  end.

Definition destroy_snapshot (name : string) : list string := ["zfs"; "destroy"; "-r"; managementDataset +:+ "@" +:+ name].

Definition CleanupBackend : cmd unit :=
  s ← get_st;
  check (operationID (OperationID s)) "invalid operation ownership";;
  cleanup_sandbox (OperationID s);;
  cleanup_clones (OperationID s);;
  each (fun name =>
    if decide (name = "") then ret tt
    else if decide (name = MgmtUpdate.Snapshot s) then
      run ["zfs"; "release"; "-r"; "floatlab-update"; managementDataset +:+ "@" +:+ name];;
      run_ (destroy_snapshot name)
    else attempt (run (destroy_snapshot name));; ret tt)
    ["floatlab-preflight-" +:+ OperationID s; MgmtUpdate.Snapshot s].

(** ** Retained images: [releaseImages] *)

Definition owned_image (ref : string) : bool :=
  existsb (fun name =>
    let p := "floatlab-rollback/" +:+ name +:+ ":" in
    HasPrefix ref p && let h := chars (TrimPrefix ref p) in (length h =? 64)%nat && forallb hex_digit h) service_names.
Definition image_hash (ref : string) : string := "sha256:" +:+ str (List.last (split_on ":" (chars ref)) []).

Definition image_id (ref : string) : cmd string := run ["docker"; "image"; "inspect"; "--format"; "{{.Id}}"; ref].

Definition protect (b : string) (protected : list string) : cmd (list string) :=
  w ← get;
  refs ← of_result (composeImages (shuffle (trace w)) b);
  (fix go (refs : list string) (protected : list string) : cmd (list string) :=
     match refs with
     | [] => ret protected
     | ref :: refs => id ← image_id ref; go refs (id :: protected)
     end) refs protected.

Definition journal_name (name : string) : bool :=
  bool_decide (name = "management.json") || (HasPrefix name "management-os-" && HasSuffix name ".json").

Fixpoint protect_journals (entries : list (string * option Status)) (protected : list string) : cmd (list string) :=
  match entries with
  | [] => ret protected
  | (name, s) :: entries =>
      if negb (journal_name name) then protect_journals entries protected
      else match s with
      | None => fail "read journal"
      | Some retained =>
          protected ← protect (PreviousCompose (Capture retained)) protected;
          protected ← protect (CandidateCompose (Capture retained)) protected;
          protect_journals entries protected
      end
  end.

Definition release_image (protected : list string) (ref : string) : cmd unit :=
  if negb (owned_image ref) then ret tt
  else
    let id := image_hash ref in
    if decide (id ∈ protected) then ret tt
    else
      containers ← run ["docker"; "ps"; "-aq"; "--filter"; "ancestor=" +:+ id];
      if negb (bool_decide (TrimSpace containers = "")) then ret tt
      else
        actual ← attempt (image_id ref);
        match actual with
        | Err _ => ret tt
        | Ok actual => check (bool_decide (actual = id)) "retained image tag identity changed";; run_ ["docker"; "image"; "rm"; ref]
        end.

Definition releaseImages (obsolete : Status) : cmd unit :=
  w ← get;
  candidates ← of_result (composeImages (shuffle (trace w)) (PreviousCompose (Capture obsolete)));
  b ← read_file composePath;
  protected ← protect b [];
  w ← get;
  match journals (trace w) with
  | None => fail "read directory"
  | Some entries =>
      protected ← protect_journals entries protected;
      each (release_image protected) candidates
  end.
End Backend.
