(* ===== verification/MgmtLinuxSafety.v ===== *)
(** What the Linux backend of the management updater promises: the order in
    which a checkpoint is restored and production is opened again, what cleanup
    may destroy, how long a stack must have been sound, and that its waits
    end. *)
From S2P Require Import Prelude TraceLogic Timestamp Release Update GoStrings CoreStack MgmtUpdate MgmtLinux.
From Stdlib Require Import Ascii.

Open Scope string_scope.
Open Scope list_scope.

(** ** What the commands do *)

Definition zfs_verb (argv : list string) : string := match argv with "zfs" :: v :: _ => v | _ => "" end.
Definition compose_verb (argv : list string) : string :=
  match argv with "docker" :: "compose" :: _ :: _ :: _ :: _ :: v :: _ => v | _ => "" end.

(** Commands that change management data or where it is mounted. *)
Definition touches_data (argv : list string) : bool :=
  bool_decide (zfs_verb argv ∈ ["unmount"; "mount"; "rollback"; "snapshot"; "destroy"]).
Definition starts (argv : list string) : bool := bool_decide (compose_verb argv = "up").
Definition up_argv : list string :=
  compose_argv composePath "floatlab-system" ["up"; "-d"; "--pull"; "never"; "--wait"; "--wait-timeout"; "300"].

Definition shows_stopped (e : event) : Prop :=
  exists out, e = ERun (ps "-q") out None /\ TrimSpace (TrimSpace out) = "".

(** The stack was seen without a running container, and not started since. *)
Fixpoint quiet (l : list event) : Prop :=
  match l with
  | [] => False
  | e :: l => (match e with ERun argv _ _ => starts argv = false | _ => True end) /\ (shows_stopped e \/ quiet l)
  end.

(** The dataset was seen mounted at its mountpoint, and no command has touched
    management data since. *)
Definition findmnt_argv (ds : Dataset) : list string := ["findmnt"; "-n"; "-o"; "SOURCE,FSTYPE"; "--mountpoint"; "/" +:+ Name ds].
Definition shows_mounted (ds : Dataset) (e : event) : Prop :=
  exists out, e = ERun (findmnt_argv ds) out None /\ Fields (TrimSpace out) = [Name ds; "zfs"].
Fixpoint in_place (ds : Dataset) (l : list event) : Prop :=
  match l with
  | [] => False
  | e :: l => (match e with ERun argv _ _ => touches_data argv = false | _ => True end) /\ (shows_mounted ds e \/ in_place ds l)
  end.

Definition ran (argv : list string) (l : list event) : Prop := exists out, ERun argv out None ∈ l.
Definition answered (argv : list string) (answer : string) (l : list event) : Prop :=
  exists out, TrimSpace out = answer /\ ERun argv out None ∈ l.

#[export] Instance growing_ran argv : Growing (ran argv).
Proof. intros l l' [out Ho]. exists out. apply elem_of_app. by right. Qed.
#[export] Instance growing_answered argv a : Growing (answered argv a).
Proof. intros l l' (out & Ht & Ho). exists out. split; [done|]. apply elem_of_app. by right. Qed.
#[export] Instance growing_all {A} (D : A -> list event -> Prop) (L : list A) `{!forall x, Growing (D x)} :
  Growing (fun l => forall x, x ∈ L -> D x l).
Proof. intros l l' Ha x Hx. apply grows. by apply Ha. Qed.
#[export] Instance growing_imp (F : Prop) (D : list event -> Prop) `{!Growing D} : Growing (fun l => F -> D l).
Proof. intros l l' Ha HF. apply grows. by apply Ha. Qed.

Lemma elem_of_rev {A} (x : A) l : x ∈ rev l <-> x ∈ l.
Proof. rewrite !list_elem_of_In. symmetry. apply in_rev. Qed.

(** ** Primitives, whatever is allowed *)

(** An invariant of the status the operation works on and of the checkpoint
    files, which the backend leaves alone. *)
Abbreviation invariant := (Status -> gmap string (file Status) -> Prop).
Definition inv_st (J : invariant) (w : W) : Prop := J (st w) (checkpoints w).
Definition fixed (s : Status) (cs : gmap string (file Status)) : invariant := fun s' c => s' = s /\ c = cs.

Section Primitives.
Context `{Linux} (allowed : event -> list event -> Prop) (J : invariant) (base : list event).
Abbreviation orderly := (TraceLogic.orderly (E:=string) trace allowed (inv_st J) base).

Lemma orderly_command argv (P : list event -> Prop) (Q : string -> list event -> Prop) :
  (forall l out err, P l -> allowed (ERun argv out err) l) ->
  (forall l out, P l -> Q (TrimSpace out) (ERun argv out None :: l)) -> orderly P (run argv) Q.
Proof.
  intros Ha HQ. unfold run. apply orderly_event.
  - intros w Hw. unfold inv_st in *. by destruct (reply argv (trace w)).
  - intros w l _ Ht HP. destruct (reply argv (trace w)) as [out err]. exists (ERun argv out err).
    split_and!; [done|by apply Ha|]. cbn. destruct err; [done|by apply HQ].
Qed.
Lemma orderly_command_ argv (P : list event -> Prop) (Q : list event -> Prop) :
  (forall l out err, P l -> allowed (ERun argv out err) l) ->
  (forall l out, P l -> Q (ERun argv out None :: l)) -> orderly P (run_ argv) (fun _ => Q).
Proof.
  intros Ha HQ. unfold run_. eapply orderly_seq; [by apply (orderly_command argv P (fun _ => Q))|].
  intros a. by apply orderly_ret.
Qed.

Lemma orderly_check b e P : orderly P (check b e) (fun _ l => P l /\ b = true).
Proof. unfold check. destruct b; [by apply orderly_ret|apply orderly_fail]. Qed.
Lemma orderly_result {A} (r : result string A) P : orderly P (of_result r) (fun a l => P l /\ r = Ok a).
Proof. destruct r; [by apply orderly_ret|apply orderly_fail]. Qed.

Lemma orderly_st {B} (k : Status -> cmd B) P Q : (forall s c, J s c -> orderly P (k s) Q) -> orderly P (get_st ≫= k) Q.
Proof. intros Hk w l Hv Ht Ho HP. by apply (Hk (st w) _ Hv w l). Qed.
Lemma orderly_modify f (P Q : list event -> Prop) : (forall s c, J s c -> J (f s) c) -> (forall l, P l -> Q l) -> orderly P (modify_st f) (fun _ => Q).
Proof. intros Hf HQ. apply orderly_silent; [intros w Hw; by apply Hf|]. intros w. split; [done|]. cbn. auto. Qed.

Lemma orderly_write path data (P Q : list event -> Prop) : (forall l ok, P l -> allowed (EWrite path data ok) l) ->
  (forall l, P l -> Q (EWrite path data true :: l)) -> orderly P (write_file path data) (fun _ => Q).
Proof.
  intros Ha HQ. unfold write_file. apply orderly_event.
  - intros w Hw. unfold inv_st in *. by destruct (WriteFile _ _ _).
  - intros w l _ Ht HP. destruct (WriteFile _ _ _) as [ok f]. exists (EWrite path data ok).
    split_and!; [done|by apply Ha|]. cbn. destruct ok; [by apply HQ|done].
Qed.
(** Loops: what each round establishes, and what every round keeps. *)
Lemma orderly_each {A} (f : A -> cmd unit) (L : list A) (P : list event -> Prop) (D : A -> list event -> Prop)
  `{!forall x, Growing (D x)} :
  (forall x, x ∈ L -> orderly P (f x) (fun _ l => P l /\ D x l)) ->
  orderly P (each f L) (fun _ l => P l /\ forall x, x ∈ L -> D x l).
Proof.
  induction L as [|x L IH]; intros Hf; cbn [each].
  - apply orderly_ret. intros l HP. split; [done|]. intros x Hx. by apply elem_of_nil in Hx.
  - eapply orderly_seq; [apply Hf, elem_of_cons; by left|]. intros u.
    eapply orderly_pre; [|eapply orderly_post; [|apply (orderly_frame _ P (D x) (fun _ l => P l /\ forall y, y ∈ L -> D y l))]].
    + by intros l [HP HD]; exact (conj HD HP).
    + intros u' l [HD [HP Hall]]. split; [done|]. intros y [->|Hy]%elem_of_cons; [done|by apply Hall].
    + apply IH. intros y Hy. apply Hf, elem_of_cons. by right.
Qed.
Lemma orderly_each_keep {A} (f : A -> cmd unit) (L : list A) (P : list event -> Prop) :
  (forall x, x ∈ L -> orderly P (f x) (fun _ => P)) -> orderly P (each f L) (fun _ => P).
Proof.
  intros Hf. eapply orderly_post; [|apply (orderly_each f L P (fun _ _ => True))].
  - by intros u l [HP _].
  - intros x Hx. eapply orderly_post; [|by apply Hf]. done.
Qed.

End Primitives.
Arguments orderly_command {_ allowed J base} argv P Q.
Arguments orderly_command_ {_ allowed J base} argv P Q.
Arguments orderly_check {allowed J base} b e P.
Arguments orderly_result {allowed J base A} r P.
Arguments orderly_st {allowed J base B} k P Q.
Arguments orderly_modify {allowed J base} f P Q.
Arguments orderly_write {_ allowed J base} path data P Q.
Arguments orderly_each {allowed J base A} f L P D {_}.
Arguments orderly_each_keep {allowed J base A} f L P.

(** ** Programs whose events are all permitted *)

Section Tame.
Context `{Semver} `{YAML} `{Linux} (allowed : event -> list event -> Prop) (J : invariant) (base : list event).
Context (P : list event -> Prop) `{!Growing P}.

(** Every command and write the program makes is allowed where [P] holds. *)
Definition tame {A} (m : cmd A) : Prop := TraceLogic.orderly trace allowed (inv_st J) base P m (fun _ => P).

Lemma tame_ret {A} (a : A) : tame (ret a).
Proof. by apply orderly_ret. Qed.
Lemma tame_fail {A} e : tame (fail e : cmd A).
Proof. apply orderly_fail. Qed.
Lemma tame_bind {A B} (m : cmd A) (k : A -> cmd B) : tame m -> (forall a, tame (k a)) -> tame (m ≫= k).
Proof. intros Hm Hk. by eapply orderly_seq. Qed.
Lemma tame_get {B} (k : W -> cmd B) : (forall w, tame (k w)) -> tame (get ≫= k).
Proof. intros Hk. apply orderly_get. intros w _. apply Hk. Qed.
Lemma tame_st {B} (k : Status -> cmd B) : (forall s c, J s c -> tame (k s)) -> tame (get_st ≫= k).
Proof. intros Hk. apply orderly_st. intros s c Hs. by eapply Hk. Qed.
Lemma tame_check b e : tame (check b e).
Proof. eapply orderly_post; [|apply orderly_check]. by intros u l [? _]. Qed.
Lemma tame_result {A} (r : result string A) : tame (of_result r).
Proof. eapply orderly_post; [|apply orderly_result]. by intros u l [? _]. Qed.
Lemma tame_modify f : (forall s c, J s c -> J (f s) c) -> tame (modify_st f).
Proof. intros Hf. by apply orderly_modify. Qed.
Lemma tame_attempt {A} (m : cmd A) : tame m -> tame (attempt m).
Proof.
  intros Hm w l Hv Ht Ho HP. apply post_attempt. eapply post_mono; [by apply (Hm w l)|].
  intros r w' (Hv' & l' & Ht' & Ho' & _). split; [done|]. exists l'. split_and!; [done|done|]. by apply grows.
Qed.
Lemma tame_each {A} (f : A -> cmd unit) L : (forall x, tame (f x)) -> tame (each f L).
Proof. intros Hf. apply orderly_each_keep. intros x _. apply Hf. Qed.
Lemma tame_run argv : (forall l out err, P l -> allowed (ERun argv out err) l) -> tame (run argv).
Proof. intros Ha. apply orderly_command; [done|]. intros l out HP. by apply (grows l [_]). Qed.
Lemma tame_run_ argv : (forall l out err, P l -> allowed (ERun argv out err) l) -> tame (run_ argv).
Proof. intros Ha. apply tame_bind; [by apply tame_run|]. intros a. apply tame_ret. Qed.
Lemma tame_controlID : (forall l out err, P l -> allowed (ERun (ps_service "-q" "floatlab-control") out err) l) -> tame controlID.
Proof.
  intros Ha. unfold controlID. apply orderly_event; [intros w Hw; unfold inv_st in *; by destruct (reply _ _)|].
  intros w l _ _ HP. destruct (reply _ _) as [out err]. eexists. split_and!; [done|by apply Ha|]. by apply (grows l [_]).
Qed.
Lemma tame_write path data : (forall l ok, P l -> allowed (EWrite path data ok) l) -> tame (write_file path data).
Proof. intros Ha. apply orderly_write; [done|]. intros l HP. by apply (grows l [_]). Qed.
Lemma tame_read path : tame (read_file path).
Proof.
  apply orderly_silent; [done|]. intros w. split; [done|]. unfold read_file. cbn. by destruct (default Absent _).
Qed.
Lemma tame_stamp name : (forall l ok, P l -> allowed (ERemove name ok) l) -> tame (remove_stamp name).
Proof.
  intros Ha. apply orderly_event; [done|]. intros w l _ _ HP. eexists. split_and!; [done|by apply Ha|].
  cbn. destruct (remove_ok _ _); [|done]. by apply (grows l [_]).
Qed.
Lemma tame_remove path : (forall l ok, P l -> allowed (ERemove path ok) l) -> tame (remove path).
Proof.
  intros Ha w l Hv Ht Ho HP. unfold post, remove.
  destruct (default Absent _); [split; [done|by exists []]|..]; (split; [exact Hv|]);
    exists [ERemove path (remove_ok path (trace w))]; cbn [trace log set_files snd fst app]; (split_and!; [by rewrite Ht|constructor; auto|]);
    cbn; destruct (remove_ok _ _); [by apply (grows l [_])|done|by apply (grows l [_])|done].
Qed.
Lemma tame_wait n : (forall l, P l -> allowed (EWait n) l) -> tame (wait n).
Proof. intros Ha. apply orderly_event; [done|]. intros w l _ _ HP. exists (EWait n). split_and!; [done|by apply Ha|]. by apply (grows l [_]). Qed.
Lemma tame_drain fuel deadline id : (forall n l, P l -> allowed (EWait n) l) -> tame (drain fuel deadline id).
Proof.
  intros Ha. induction fuel as [|fuel IH]; cbn [drain]; [apply tame_fail|]. apply tame_get. intros w.
  destruct (_ && _); [apply tame_ret|]. destruct (_ <? _)%Z; [apply tame_fail|]. destruct (cancelled _); [apply tame_fail|].
  apply tame_bind; [apply tame_wait; intros; by apply Ha|]. intros u. exact IH.
Qed.

(** The readiness loop, where every command and wait is allowed. *)
Lemma tame_probe : (forall l argv out err, P l -> allowed (ERun argv out err) l) -> tame probe.
Proof.
  intros Ha. unfold probe. apply tame_st. intros s c _. apply tame_bind; [apply tame_controlID; auto|]. intros id.
  apply tame_bind; [apply tame_run; auto|]. intros u. apply tame_st. intros s' c' _. apply tame_bind; [apply tame_result|].
  intros images. apply tame_get. intros w. apply tame_each. intros name. unfold verify_image.
  apply tame_bind; [apply tame_run; auto|]. intros ids. destruct (Fields ids) as [|i []]; [apply tame_fail| |apply tame_fail].
  apply tame_bind; [apply tame_run; auto|]. intros a. apply tame_bind; [apply tame_run; auto|]. intros b. apply tame_check.
Qed.
Lemma tame_readiness fuel deadline stable : (forall l argv out err, P l -> allowed (ERun argv out err) l) ->
  (forall n l, P l -> allowed (EWait n) l) -> tame (readiness fuel deadline stable).
Proof.
  intros Ha Hw. revert stable. induction fuel as [|fuel IH]; intros stable; cbn [readiness]; [apply tame_fail|].
  apply tame_bind; [by apply tame_attempt, tame_probe|]. intros r. apply tame_get. intros w. cbv zeta.
  destruct (_ && _); [apply tame_ret|]. destruct (_ || _); [apply tame_fail|].
  apply tame_bind; [apply tame_wait; intros; by apply Hw|]. intros u. apply tame_get. intros w'. destruct (_ || _); [apply tame_fail|apply IH].
Qed.
End Tame.

Create HintDb tame.
#[export] Hint Resolve tame_ret tame_fail tame_bind tame_get tame_check tame_result tame_attempt tame_each tame_run tame_run_
  tame_controlID tame_write tame_read tame_stamp tame_wait tame_drain : tame.

Section Order.
Context `{Semver} `{YAML} `{Linux} (s : Status).

(** Both startup gates name the operation. *)
Definition gated (l : list event) : Prop :=
  EWrite blocked (OperationID s) true ∈ l /\ EWrite (path_in "management-blocked") (OperationID s) true ∈ l.
#[local] Instance growing_gated : Growing gated.
Proof. intros l l' [? ?]. split; by apply (growing_elem _ l l'). Qed.

Definition snapshot_of (ds : Dataset) : string := Name ds +:+ "@" +:+ MgmtUpdate.Snapshot s.
Definition snapshot_found (ds : Dataset) (l : list event) : Prop := exists guid, guid <> "" /\ answered (zget "guid" (snapshot_of ds)) guid l.
Definition rolled_back (ds : Dataset) : list event -> Prop := ran (rollback_argv (Name ds) (MgmtUpdate.Snapshot s)).
(** The pool was seen to have exactly these datasets. *)
Definition list_argv : list string := ["zfs"; "list"; "-H"; "-r"; "-t"; "filesystem"; "-o"; "name,guid"; managementDataset].
Definition listed (found : list Dataset) (l : list event) : Prop := exists out,
  ERun list_argv out None ∈ l /\ dataset_rows (Lines (TrimSpace out)) = Some found.
(** The pool still has the datasets of the checkpoint. *)
Definition same_members : list event -> Prop := listed (Datasets (Capture s)).

(** Everything known before the first dataset is rolled back. *)
Definition ready_to_roll (l : list event) : Prop :=
  same_members l /\
  (forall ds, ds ∈ Datasets (Capture s) -> snapshot_found ds l) /\
  (forall ds, ds ∈ Datasets (Capture s) -> answered (zget "mounted" (Name ds)) "no" l).
Definition all_rolled_back (l : list event) : Prop := forall ds, ds ∈ Datasets (Capture s) -> rolled_back ds l.
(** Every dataset of the checkpoint is mounted where it belongs. *)
Definition all_in_place (l : list event) : Prop := forall ds, ds ∈ Datasets (Capture s) -> in_place ds l.

(** The condition each event of a restore needs. *)
Definition allowed (e : event) (past : list event) : Prop :=
  match e with
  | ERun argv _ _ =>
      (touches_data argv = true -> gated past /\ quiet past) /\
      (zfs_verb argv = "destroy" -> False) /\
      (zfs_verb argv = "rollback" ->
         ready_to_roll past /\ exists ds, ds ∈ Datasets (Capture s) /\ argv = rollback_argv (Name ds) (MgmtUpdate.Snapshot s)) /\
      (starts argv = true -> gated past /\ quiet past /\ all_in_place past /\ (ProductionChanged s = true -> all_rolled_back past))
  | EWrite path data _ =>
      path = blocked \/ path = path_in "management-blocked" \/
      (path = composePath /\ Ok data = noRestart (PreviousCompose (Capture s)))
  | ERemove _ _ => False
  | _ => True
  end.

Variables (cs : gmap string (file Status)) (base : list event).
Abbreviation orderly := (TraceLogic.orderly (E:=string) trace allowed (inv_st (fixed s cs)) base).

(** A command of the kind that only looks, or stops something. *)
Definition harmless (argv : list string) : bool :=
  negb (touches_data argv) && negb (starts argv).
Lemma harmless_allowed argv out err l : harmless argv = true -> allowed (ERun argv out err) l.
Proof.
  unfold harmless, touches_data, starts. intros Hh. to_prop. cbn. unfold touches_data, starts. split_and!.
  - intros Ht. to_prop. done.
  - intros Ht. rewrite Ht in *. set_solver.
  - intros Ht. rewrite Ht in *. set_solver.
  - intros Ht. by to_prop.
Qed.

Lemma quiet_cons e l : (match e with ERun argv _ _ => starts argv = false | _ => True end) -> quiet l -> quiet (e :: l).
Proof. intros He Hq. split; [done|by right]. Qed.

(** Predicates that looking at the system keeps. *)
Definition Kept (P : list event -> Prop) : Prop :=
  forall argv out l, harmless argv = true -> P l -> P (ERun argv out None :: l).
Lemma kept_growing P `{!Growing P} : Kept P.
Proof. intros argv out l _ HP. by apply (grows l [_]). Qed.
Lemma kept_quiet : Kept quiet.
Proof. intros argv out l Hh. unfold harmless in Hh. to_prop. by apply quiet_cons. Qed.
Lemma kept_in_place ds : Kept (in_place ds).
Proof. intros argv out l Hh Hp. unfold harmless in Hh. to_prop. split; [done|by right]. Qed.
Lemma kept_and P Q : Kept P -> Kept Q -> Kept (fun l => P l /\ Q l).
Proof. intros HP HQ argv out l Hh [? ?]. split; [by apply HP|by apply HQ]. Qed.

Lemma orderly_look argv P : harmless argv = true -> Kept P ->
  orderly P (run argv) (fun a l => P l /\ answered argv a l).
Proof.
  intros Hh Hk. apply orderly_command.
  - intros. by apply harmless_allowed.
  - intros l out HP. split; [by apply Hk|]. exists out. split; [done|]. apply elem_of_cons. by left.
Qed.
Lemma orderly_look_ argv P : harmless argv = true -> Kept P -> orderly P (run_ argv) (fun _ l => P l /\ ran argv l).
Proof.
  intros Hh Hk. apply (orderly_command_ argv P (fun l => P l /\ ran argv l)).
  - intros. by apply harmless_allowed.
  - intros l out HP. split; [by apply Hk|]. exists out. apply elem_of_cons. by left.
Qed.

(** *** The writers are stopped *)

#[local] Instance growing_same : Growing same_members.
Proof. intros l l' (out & Ho & Hd). exists out. split; [apply elem_of_app; by right|done]. Qed.

Lemma orderly_keep argv P : harmless argv = true -> Kept P -> orderly P (run argv) (fun _ => P).
Proof. intros Hh Hk. eapply orderly_post; [|by apply orderly_look]. by intros a l [? _]. Qed.
Lemma orderly_keep_ argv P : harmless argv = true -> Kept P -> orderly P (run_ argv) (fun _ => P).
Proof. intros Hh Hk. eapply orderly_post; [|by apply orderly_look_]. by intros a l [? _]. Qed.
Lemma kept_true : Kept (fun _ => True).
Proof. done. Qed.

Lemma orderly_stopped : orderly (fun _ => True) stopped (fun _ => quiet).
Proof.
  unfold stopped. eapply (orderly_seq _ _ _ (fun a l => TrimSpace a = "" -> quiet l)).
  - apply orderly_command; [intros; by apply harmless_allowed|]. intros l out _ Ht. split; [done|left]. by exists out.
  - intros a. eapply orderly_post; [|apply orderly_check]. intros u l [Hq Hb]. to_prop. by apply Hq.
Qed.

Lemma orderly_suppress id : orderly (fun _ => True) (suppress id) (fun _ _ => True).
Proof.
  unfold suppress. eapply orderly_seq; [by apply (orderly_keep _ (fun _ => True))|]. intros u1.
  eapply orderly_seq; [by apply (orderly_keep _ (fun _ => True))|]. intros u2.
  eapply orderly_post; [|apply orderly_check]. done.
Qed.

Lemma orderly_halt : orderly (fun _ => True)
  (run ["systemctl"; "mask"; "--runtime"; "floatlab-core-stack.service"];;
   suppressed ← of_result (noRestart (PreviousCompose (Capture s)));
   write_file composePath suppressed;;
   ids ← run (ps "-aq");
   each suppress (Fields ids);;
   stop;;
   stopped) (fun _ => quiet).
Proof.
  eapply orderly_seq; [by apply (orderly_keep _ (fun _ => True))|]. intros u1.
  eapply orderly_seq; [apply orderly_result|]. intros data.
  eapply (orderly_seq _ _ _ (fun _ _ => True)).
  { apply (orderly_write _ _ _ (fun _ => True)); [|done]. intros l ok [_ Hr]. right; right. by split. }
  intros u2. eapply orderly_seq; [by apply (orderly_keep _ (fun _ => True))|]. intros ids.
  eapply orderly_seq; [apply (orderly_each_keep _ _ (fun _ => True)); intros; apply orderly_suppress|]. intros u3.
  eapply orderly_seq; [by apply (orderly_keep_ _ (fun _ => True))|]. intros u4. apply orderly_stopped.
Qed.

Lemma orderly_suppressAndStop : orderly (fun _ => True) suppressAndStop (fun _ l => gated l /\ quiet l).
Proof.
  unfold suppressAndStop. apply orderly_st; intros ? ? [-> _].
  eapply orderly_bind; [apply _|apply (orderly_write _ _ _ (elem_of (EWrite blocked (OperationID s) true))); intros; [by left|apply elem_of_cons; by left]|]. intros u1.
  eapply orderly_bind; [apply _|apply (orderly_write _ _ _ (elem_of (EWrite (path_in "management-blocked") (OperationID s) true))); intros; [right; by left|apply elem_of_cons; by left]|]. intros u2.
  eapply orderly_pre; [|apply (orderly_frame _ (fun _ => True) gated (fun _ => quiet)), orderly_halt].
  intros l [[_ Hw1] Hw2]. by split.
Qed.

(** *** The checkpoint is rolled back *)

(** The writers are stopped, the gates closed and the datasets those of the
    checkpoint. *)
Definition safe (l : list event) : Prop := (gated l /\ same_members l) /\ quiet l.
Lemma kept_safe : Kept safe.
Proof. apply kept_and; [apply kept_growing; apply _|apply kept_quiet]. Qed.
Lemma safe_cons e l : (match e with ERun argv _ _ => starts argv = false | _ => True end) -> safe l -> safe (e :: l).
Proof. intros He [Hg Hq]. split; [by apply (growing_and _ _ growing_gated growing_same l [_])|by apply quiet_cons]. Qed.

(** A command on the data that is neither a rollback nor a destruction. *)
Lemma orderly_data argv P : touches_data argv = true -> starts argv = false ->
  zfs_verb argv <> "destroy" -> zfs_verb argv <> "rollback" -> (forall l, P l -> safe l) ->
  orderly P (run_ argv) (fun _ => safe).
Proof.
  intros Hd Hs Hnd Hnr HP. apply orderly_command_.
  - intros l out err Hl. apply HP in Hl as [[? ?] ?]. cbn. split_and!; try done. by rewrite Hs.
  - intros l out Hl. apply safe_cons; [done|by apply HP].
Qed.

Lemma orderly_properties l P : Kept P -> orderly P (verifyDatasetProperties l) (fun _ => P).
Proof.
  intros Hk. unfold verifyDatasetProperties. apply orderly_each_keep. intros ds _.
  eapply orderly_seq; [by apply (orderly_keep _ P)|]. intros raw. destruct (props_of _); [|apply orderly_fail].
  eapply orderly_post; [|apply orderly_check]. by intros u l' [? _].
Qed.
Lemma orderly_mounted_dataset ds P : Kept P -> orderly P (verifyMountedDataset ds) (fun _ => P).
Proof.
  intros Hk. unfold verifyMountedDataset. eapply orderly_seq; [by apply (orderly_keep _ P)|]. intros raw.
  eapply orderly_post; [|apply orderly_check]. by intros u l' [? _].
Qed.
Lemma orderly_mount_seen ds P : Kept P -> orderly P (verifyMountedDataset ds) (fun _ l => P l /\ in_place ds l).
Proof.
  intros Hk. unfold verifyMountedDataset. fold (findmnt_argv ds).
  eapply (orderly_seq _ _ _ (fun a l => P l /\ (Fields a = [Name ds; "zfs"] -> in_place ds l))).
  - apply orderly_command; [intros; by apply harmless_allowed|]. intros l out HP. split; [by apply Hk|]. intros Hf. split; [done|]. left. by exists out.
  - intros raw. eapply orderly_post; [|apply orderly_check]. intros u l' [[? Hi] Hb]. to_prop. auto.
Qed.
Lemma orderly_each_seen l P : Kept P ->
  orderly P (each verifyMountedDataset l) (fun _ past => P past /\ forall ds, ds ∈ l -> in_place ds past).
Proof.
  revert P. induction l as [|ds l IH]; intros P Hk; cbn [each].
  - apply orderly_ret. intros past HP. split; [done|]. intros ds Hd. by apply elem_of_nil in Hd.
  - eapply orderly_seq; [by apply orderly_mount_seen|]. intros u. eapply orderly_post; [|apply IH, kept_and, kept_in_place; exact Hk].
    intros v past [[HP Hd] Hl]. split; [done|]. intros x [->|Hx]%elem_of_cons; auto.
Qed.
Lemma orderly_mounts_seen l P : Kept P ->
  orderly P (verifyMountedDatasets l) (fun _ past => P past /\ forall ds, ds ∈ l -> in_place ds past).
Proof.
  intros Hk. unfold verifyMountedDatasets. eapply (orderly_seq _ _ _ (fun _ => P)).
  { eapply orderly_post; [|apply orderly_check]. by intros u l' [? _]. }
  intros u1. eapply orderly_seq; [by apply orderly_properties|]. intros u2. by apply orderly_each_seen.
Qed.
Lemma orderly_mounted_datasets l P : Kept P -> orderly P (verifyMountedDatasets l) (fun _ => P).
Proof.
  intros Hk. unfold verifyMountedDatasets. eapply (orderly_seq _ _ _ (fun _ => P)).
  { eapply orderly_post; [|apply orderly_check]. by intros u l' [? _]. }
  intros u1. eapply orderly_seq; [by apply orderly_properties|]. intros u2.
  apply orderly_each_keep. intros ds _. by apply orderly_mounted_dataset.
Qed.

Lemma orderly_unmount ds : orderly safe (unmount ds) (fun _ => safe).
Proof.
  unfold unmount. eapply orderly_seq; [apply (orderly_keep _ safe); [done|apply kept_safe]|]. intros m.
  destruct (decide _).
  - eapply orderly_seq; [apply orderly_mounted_dataset, kept_safe|]. intros u. by apply orderly_data.
  - destruct (decide _); [by apply orderly_ret|apply orderly_fail].
Qed.
Lemma orderly_remount ds : orderly safe (remount ds) (fun _ => safe).
Proof.
  unfold remount. eapply orderly_seq; [apply (orderly_keep _ safe); [done|apply kept_safe]|]. intros m.
  destruct (decide _); [by apply orderly_data|]. destruct (decide _); [by apply orderly_ret|apply orderly_fail].
Qed.

Lemma orderly_find ds : orderly safe
  (r ← attempt (run (zget "guid" (Name ds +:+ "@" +:+ MgmtUpdate.Snapshot s)));
   match r with
   | Ok guid => check (negb (bool_decide (TrimSpace guid = ""))) "rollback snapshot unavailable"
   | Err _ => fail "rollback snapshot unavailable"
   end) (fun _ l => safe l /\ snapshot_found ds l).
Proof.
  eapply orderly_seq; [apply orderly_attempt, orderly_look; [done|apply kept_safe]|]. intros [guid|e]; [|apply orderly_fail].
  eapply orderly_post; [|apply orderly_check]. intros u l [[Hs Ha] Hb]. to_prop. split; [done|]. exists guid. split; [|done].
  intros ->. by apply Hb.
Qed.
Lemma orderly_seen_unmounted ds : orderly safe
  (m ← mounted ds; check (bool_decide (m = "no")) "management dataset remains mounted before rollback")
  (fun _ l => safe l /\ answered (zget "mounted" (Name ds)) "no" l).
Proof.
  eapply orderly_seq; [apply orderly_look; [done|apply kept_safe]|]. intros m.
  eapply orderly_post; [|apply orderly_check]. intros u l [[Hs Ha] Hb]. to_prop. by subst.
Qed.

#[local] Instance growing_found ds : Growing (snapshot_found ds).
Proof. intros l l' (g & Hg & Ha). exists g. split; [done|]. by apply grows. Qed.
#[local] Instance growing_rolled ds : Growing (rolled_back ds).
Proof. apply _. Qed.

Lemma orderly_roll ds : ds ∈ Datasets (Capture s) -> orderly (fun l => ready_to_roll l /\ safe l)
  (run_ (rollback_argv (Name ds) (MgmtUpdate.Snapshot s))) (fun _ l => (ready_to_roll l /\ safe l) /\ rolled_back ds l).
Proof.
  intros Hds. apply (orderly_command_ _ _ (fun l => (ready_to_roll l /\ safe l) /\ rolled_back ds l)).
  - intros l out err [Hr [[Hg Hm] Hq]]. cbn. split_and!; [done|done| |done]. intros _. split; [done|]. by exists ds.
  - intros l out [[Hr1 [Hr2 Hr3]] Hs]. split; [split; [|by apply safe_cons]|].
    + split_and!; [apply Hs || by apply (grows l [_])|intros d Hd; apply (grows l [_]); by apply Hr2|intros d Hd; apply (grows l [_]); by apply Hr3].
    + exists out. apply elem_of_cons. by left.
Qed.

Lemma orderly_restoreDatasets :
  orderly safe restoreDatasets (fun _ l => safe l /\ all_rolled_back l).
Proof.
  unfold restoreDatasets. apply orderly_st; intros s' ? [-> _]. cbv zeta.
  eapply orderly_seq; [apply orderly_properties, kept_safe|]. intros u1.
  eapply orderly_seq; [by apply (orderly_keep_ _ safe), kept_safe|]. intros u2.
  eapply orderly_seq; [apply (orderly_each _ _ safe snapshot_found); intros ds _; exact (orderly_find ds)|]. intros u3.
  set (found := fun l => forall ds, ds ∈ Datasets (Capture s) -> snapshot_found ds l).
  eapply (orderly_seq _ _ _ (fun _ l => found l /\ safe l)).
  { eapply orderly_pre; [|apply orderly_frame; [apply _|apply orderly_each_keep; intros ds _; apply orderly_unmount]].
    intros l [? ?]. by split. }
  intros u4.
  eapply (orderly_seq _ _ _ (fun _ l => found l /\ safe l /\ forall ds, ds ∈ Datasets (Capture s) -> answered (zget "mounted" (Name ds)) "no" l)).
  { apply orderly_frame; [apply _|]. apply (orderly_each _ _ safe (fun ds => answered (zget "mounted" (Name ds)) "no")). intros ds _. exact (orderly_seen_unmounted ds). }
  intros u5.
  eapply (orderly_seq _ _ _ (fun _ l => (ready_to_roll l /\ safe l) /\ forall ds, ds ∈ rev (Datasets (Capture s)) -> rolled_back ds l)).
  { eapply orderly_pre; [|apply (orderly_each _ _ (fun l => ready_to_roll l /\ safe l) rolled_back)].
    - intros l (Hf & Hs & Hm). split; [|done]. split_and!; [apply Hs|done|done].
    - intros ds Hds. by apply orderly_roll, elem_of_rev. }
  intros u6. eapply (orderly_pre _ (fun l => all_rolled_back l /\ safe l)).
  { intros l [[_ Hs] Hr]. split; [|done]. intros ds Hds. by apply Hr, elem_of_rev. }
  eapply orderly_post; [|apply orderly_frame; [apply _|apply orderly_each_keep; intros ds _; apply orderly_remount]].
  by intros u l [? ?].
Qed.

(** *** The previous stack is started *)

(** What is known when the restored stack may start. *)
Definition startable (l : list event) : Prop :=
  gated l /\ quiet l /\ (ProductionChanged s = true -> all_rolled_back l).
Definition compose_restored (l : list event) : Prop :=
  exists data, noRestart (PreviousCompose (Capture s)) = Ok data /\ EWrite composePath data true ∈ l.
#[local] Instance growing_composed : Growing compose_restored.
Proof. intros l l' (d & Hd & He). exists d. split; [done|]. apply elem_of_app. by right. Qed.
#[local] Instance growing_all_rolled : Growing all_rolled_back.
Proof. apply _. Qed.
Lemma startable_cons e l : (match e with ERun argv _ _ => starts argv = false | _ => True end) -> startable l -> startable (e :: l).
Proof.
  intros He (? & ? & Hr). split_and!; [by apply (grows l [_])|by apply quiet_cons|].
  intros Hp. apply (grows l [_]). by apply Hr.
Qed.
Lemma kept_startable : Kept startable.
Proof. intros argv out l Hh. unfold harmless in Hh. to_prop. by apply startable_cons. Qed.

(** The run ended with the start of the previous stack. *)
Definition started (l : list event) : Prop :=
  exists out past, l = ERun up_argv out None :: past /\ startable past /\ compose_restored past /\ all_in_place past.

Lemma orderly_datasets P : Kept P -> orderly P datasets (fun a l => P l /\ listed a l).
Proof.
  intros Hk. unfold datasets. eapply orderly_seq; [by apply orderly_look|]. intros raw.
  destruct (dataset_rows _) eqn:Ed; [|apply orderly_fail]. destruct (_ <? _)%nat; [apply orderly_fail|].
  apply orderly_ret. intros l' [HP (out & Ho & Hin)]. split; [done|]. exists out. by rewrite Ho.
Qed.

Lemma orderly_restore_data :
  orderly (fun l => gated l /\ quiet l)
    (if ProductionChanged s then
       check (negb (bool_decide (MgmtUpdate.Snapshot s = ""))) "rollback snapshot identity missing";;
       actual ← datasets;
       check (bool_decide (actual = Datasets (Capture s))) "dataset membership or identity changed; manual recovery required";;
       restoreDatasets
     else ret tt) (fun _ => startable).
Proof.
  destruct (ProductionChanged s) eqn:Ep.
  2:{ apply orderly_ret. intros l [? ?]. split_and!; [done|done|]. congruence. }
  eapply (orderly_seq _ _ _ (fun _ l => gated l /\ quiet l)).
  { eapply orderly_post; [|apply orderly_check]. by intros u l [? _]. }
  intros u1. eapply orderly_seq; [apply orderly_datasets, kept_and; [apply kept_growing, _|apply kept_quiet]|]. intros actual.
  eapply orderly_seq; [apply orderly_check|]. intros u2. eapply orderly_pre; [|eapply orderly_post; [|apply orderly_restoreDatasets]].
  - intros l [[[Hg Hq] Hl] Hb]. to_prop. subst. by split.
  - intros u l [[[Hg _] Hq] Hr]. by split_and!.
Qed.

Lemma orderly_RestoreBackend : orderly (fun _ => True) RestoreBackend (fun _ => started).
Proof.
  unfold RestoreBackend. eapply orderly_seq; [apply orderly_suppressAndStop|]. intros u1. apply orderly_st; intros ? ? [-> _].
  eapply orderly_seq; [apply orderly_restore_data|]. intros u2.
  eapply orderly_seq; [apply orderly_result|]. intros data.
  eapply (orderly_seq _ _ _ (fun _ l => startable l /\ compose_restored l)).
  { apply orderly_write.
    - intros l ok [_ Hd]. right; right. by split.
    - intros l [Hs Hd]. split; [by apply startable_cons|]. exists data. split; [done|]. apply elem_of_cons. by left. }
  intros u3. assert (Hk : Kept (fun l => startable l /\ compose_restored l))
    by (apply kept_and; [apply kept_startable|apply kept_growing, _]).
  eapply orderly_seq; [by apply orderly_mounts_seen|]. intros u4.
  eapply (orderly_seq _ _ _ (fun r l => match r with Ok _ => started l | Err _ => True end)).
  { apply orderly_attempt. apply (orderly_command_ up_argv _ started).
    - intros l out err [[(Hg & Hq & Hr) _] Hp]. cbn. split_and!; done.
    - intros l out [[Hs Hc] Hp]. by exists out, l. }
  intros [u5|e]; [by apply orderly_ret|]. eapply (orderly_seq _ _ _ (fun _ _ => True)); [|intros; apply orderly_fail].
  eapply orderly_post; [|apply orderly_attempt, (orderly_keep_ _ (fun _ => True))]; done.
Qed.
End Order.

(** What a restore does to the status it works on: nothing. *)
Lemma restore_keeps_status `{Semver} `{YAML} `{Linux} (w : W) : st (RestoreBackend w).2 = st w.
Proof.
  destruct (RestoreBackend w) as [r w'] eqn:E.
  by destruct (orderly_run _ _ _ _ (fun _ => started (st w)) _ _ _ (orderly_RestoreBackend (st w) (checkpoints w) (trace w)) (conj eq_refl eq_refl) E)
    as ([Hst _] & _).
Qed.

(** C12. Restoring a checkpoint keeps the order that protects the data,
    whatever the commands answer: no dataset is unmounted, rolled back or
    mounted unless both startup gates name the operation and the stack was
    seen without a running container since it was last started; no dataset is
    rolled back before the pool was seen to have exactly the checkpoint's
    datasets, every one of their snapshots was found and every one was seen
    unmounted; only the checkpoint's snapshots are rolled back to and nothing
    is destroyed; the gates are never opened; the stack is started only after
    every dataset was rolled back (where production had been changed), with
    every dataset of the checkpoint seen mounted at its mountpoint since the
    last command on management data, and from the compose file of the
    checkpoint with restarts switched off; and success means that it was
    started. *)
Theorem restore_ordered `{Semver} `{YAML} `{Linux} (w : W) :
  let '(r, w') := RestoreBackend w in
  st w' = st w /\ exists l, trace w' = l ++ trace w /\ Ordered (allowed (st w)) l /\
    (r = Ok tt -> exists out past, l = ERun up_argv out None :: past /\
       gated (st w) past /\ quiet past /\ (ProductionChanged (st w) = true -> all_rolled_back (st w) past) /\
       compose_restored (st w) past /\ all_in_place (st w) past).
Proof.
  destruct (RestoreBackend w) as [r w'] eqn:E.
  destruct (orderly_run _ _ _ _ (fun _ => started (st w)) _ _ _ (orderly_RestoreBackend (st w) (checkpoints w) (trace w)) (conj eq_refl eq_refl) E)
    as ([Hst _] & l & Ht & Ho & HQ).
  split; [done|]. exists l. split_and!; [done|done|]. intros ->. destruct HQ as (out & past & -> & (? & ? & ?) & ? & ?).
  exists out, past. by split_and!.
Qed.

(** ** Opening production again *)

Section Authorize.
Context `{Semver} `{YAML} `{Linux} (s : Status).

Definition policy_of (name : string) : string := default "" (Policies (Capture s) !! name).

(** The compose file restarts as it did before the update. *)
Definition compose_authorized (l : list event) : Prop := exists b0 doc b,
  composeDocument b0 = Ok doc /\ marshal (edit_services (fun name => set_restart (policy_of name)) doc) = Ok b /\
  EWrite composePath b true ∈ l.
(** Every container of the service was given its policy. *)
Definition policy_set (name : string) (l : list event) : Prop := exists ids,
  answered (ps_service "-aq" name) ids l /\
  forall id, id ∈ Fields ids -> ran ["docker"; "update"; "--restart=" +:+ policy_of name; id] l.
Definition policies_set (l : list event) : Prop := forall name, name ∈ dom (Policies (Capture s)) -> policy_set name l.

(** The condition each event needs. *)
Definition allowed_authorize (e : event) (past : list event) : Prop :=
  Authorized s = true /\
  match e with
  | ERun argv _ _ => touches_data argv = false /\ starts argv = false /\
      (argv = ["systemctl"; "unmask"; "--runtime"; "floatlab-core-stack.service"] -> compose_authorized past /\ policies_set past)
  | EWrite path _ _ => path = composePath
  | ERemove path _ => (path = blocked \/ path = path_in "management-blocked") /\ compose_authorized past /\ policies_set past
  | _ => False
  end.

Variables (cs : gmap string (file Status)) (base : list event).
Abbreviation orderly := (TraceLogic.orderly (E:=string) trace allowed_authorize (inv_st (fixed s cs)) base).

#[local] Instance growing_policy name : Growing (policy_set name).
Proof.
  intros l l' (ids & Ha & Hr). exists ids. split; [by apply grows|]. intros id Hid. apply grows. by apply Hr.
Qed.
#[local] Instance growing_policies : Growing policies_set.
Proof. intros l l' Hp name Hn. apply grows. by apply Hp. Qed.
#[local] Instance growing_authorized : Growing compose_authorized.
Proof. intros l l' (b0 & doc & b & ? & ? & ?). exists b0, doc, b. split_and!; [done|done|]. apply elem_of_app. by right. Qed.

Definition open_ready (l : list event) : Prop := compose_authorized l /\ policies_set l.

Lemma orderly_set_policy (P : list event -> Prop) `{!Growing P} name : (forall l, P l -> Authorized s = true) ->
  orderly P (set_policy name (policy_of name)) (fun _ l => P l /\ policy_set name l).
Proof.
  intros HP. unfold set_policy. eapply orderly_bind; [done| |].
  { apply (orderly_command _ P (fun a l => answered (ps_service "-aq" name) a l)).
    - intros l out err Hl. split; [by eapply HP|]. split_and!; done.
    - intros l out Hl. exists out. split; [done|]. apply elem_of_cons. by left. }
  intros ids. eapply orderly_post; [|apply (orderly_each _ _ (fun l => P l /\ answered (ps_service "-aq" name) ids l)
    (fun id => ran ["docker"; "update"; "--restart=" +:+ policy_of name; id]))].
  - intros u l [[? ?] ?]. split; [done|]. by exists ids.
  - intros id _. apply (orderly_command_ _ _ (fun l => (P l /\ answered (ps_service "-aq" name) ids l) /\ ran ["docker"; "update"; "--restart=" +:+ policy_of name; id] l)).
    + intros l out err [Hl _]. split; [by eapply HP|]. split_and!; done.
    + intros l out [Hl Ha]. split; [split; by apply (grows l [_])|]. exists out. apply elem_of_cons. by left.
Qed.

Lemma orderly_remove path P : (path = blocked \/ path = path_in "management-blocked") -> (forall l, P l -> Authorized s = true /\ open_ready l) ->
  Growing P -> orderly P (remove path) (fun _ => P).
Proof.
  intros Hpath HP Hg w l Hv Ht Ho Hl. unfold post, remove. destruct (default Absent _); [split; [done|by exists []]| |].
  all: split; [done|]; exists [ERemove path (remove_ok path (trace w))]; split_and!; [cbn; by rewrite Ht| |].
  all: try (cbn; destruct (remove_ok _ _); [by apply (grows l [_])|done]).
  all: constructor; [done|]; destruct (HP l Hl) as [? []]; cbn; by split_and!.
Qed.

Lemma orderly_AuthorizeBackend (total : forall tr l, shuffle tr l ≡ₚ l) :
  orderly (fun _ => True) AuthorizeBackend (fun _ => open_ready).
Proof.
  unfold AuthorizeBackend. apply orderly_st; intros ? ? [-> _].
  eapply orderly_seq; [apply orderly_check|]. intros u1.
  set (A := fun _ : list event => Authorized s = true). assert (HgA : Growing A) by (intros l l' Ha; exact Ha). eapply (orderly_pre _ A); [by intros l [_ ?]|].
  intros w l Hv. revert w l Hv. cbv zeta. change (orderly A
    (b ← read_file composePath;
     doc ← of_result (composeDocument b);
     b ← of_result (marshal (edit_services (fun name => set_restart (policy_of name)) doc));
     write_file composePath b;;
     w ← get;
     each (fun name => set_policy name (policy_of name)) (shuffle (trace w) (elements (dom (Policies (Capture s)))));;
     remove blocked;;
     remove (path_in "management-blocked");;
     run_ ["systemctl"; "unmask"; "--runtime"; "floatlab-core-stack.service"]) (fun _ => open_ready)).
  eapply (orderly_seq _ _ _ (fun _ => A)).
  { apply orderly_silent; [done|]. intros w. split; [done|]. unfold read_file. cbn. by destruct (default Absent _). }
  intros b0. eapply orderly_seq; [apply orderly_result|]. intros doc.
  eapply orderly_seq; [apply orderly_result|]. intros b.
  eapply (orderly_seq _ _ _ (fun _ l => A l /\ compose_authorized l)).
  { apply orderly_write.
    - intros l ok [[Ha _] _]. by split.
    - intros l [[Ha Hd] Hb]. split; [done|]. exists b0, doc, b. split_and!; [done|done|]. apply elem_of_cons. by left. }
  intros u2. apply orderly_get. intros w Hw.
  eapply (orderly_seq _ _ _ (fun _ l => A l /\ open_ready l)).
  { eapply orderly_post; [|apply (orderly_each _ _ (fun l => A l /\ compose_authorized l) policy_set)].
    - intros u l [[Ha Hc] Hall]. split; [done|split; [done|]]. intros name Hn. apply Hall.
      rewrite (total (trace w)). by apply elem_of_elements.
    - intros name _. apply (orderly_set_policy (fun l => A l /\ compose_authorized l)); by intros l [? _]. }
  intros u3. assert (Growing (fun l => A l /\ open_ready l)) by (apply growing_and; [done|apply growing_and; apply _]).
  eapply orderly_seq; [apply (orderly_remove _ (fun l => A l /\ open_ready l)); [by left|done|done]|]. intros u4.
  eapply orderly_seq; [apply (orderly_remove _ (fun l => A l /\ open_ready l)); [by right|done|done]|]. intros u5.
  apply orderly_command_.
  - intros l out err [Ha Hr]. split; [done|]. by split_and!.
  - intros l out [_ [Hc Hp]]. split; by apply (grows l [_]).
Qed.
End Authorize.

(** Production is opened last: nothing happens for a status that is not
    authorized; a startup gate is removed, and the service unmasked, only
    after the compose file was written with the recorded restart policies and
    every container listed for every service was given its policy; and nothing
    is started, mounted or destroyed. *)
Theorem authorize_opens_last `{Semver} `{YAML} `{Linux} (w : W) (total : forall tr l, shuffle tr l ≡ₚ l) :
  let '(r, w') := AuthorizeBackend w in
  st w' = st w /\ exists l, trace w' = l ++ trace w /\ Ordered (allowed_authorize (st w)) l /\
    (Authorized (st w) = false -> w' = w /\ r <> Ok tt) /\
    (r = Ok tt -> open_ready (st w) l).
Proof.
  destruct (AuthorizeBackend w) as [r w'] eqn:E.
  destruct (orderly_run _ _ _ _ (fun _ => open_ready (st w)) _ _ _ (orderly_AuthorizeBackend (st w) (checkpoints w) (trace w) total) (conj eq_refl eq_refl) E)
    as ([Hst _] & l & Ht & Ho & HQ).
  split; [done|]. exists l. split_and!; [done|done| |].
  - intros Ha. revert E. unfold AuthorizeBackend, get_st, mbind, prog_mbind, bind, check. rewrite Ha. cbn. by intros [= <- <-].
  - by intros ->.
Qed.

(** ** What cleanup may destroy *)

Section Cleanup.
Context `{Semver} `{YAML} `{Linux} (s : Status).

Definition cleanup_snapshots : list string := ["floatlab-preflight-" +:+ OperationID s; MgmtUpdate.Snapshot s].

(** The datasets an operation's cleanup may destroy. *)
Definition disposable (argv : list string) : Prop :=
  (exists name, argv = ["zfs"; "destroy"; name] /\ under (tests_root +:+ OperationID s) name = true) \/
  (exists name, argv = destroy_snapshot name /\ name ∈ cleanup_snapshots /\ name <> "").
Definition allowed_cleanup (e : event) (past : list event) : Prop :=
  match e with
  | ERun argv _ _ =>
      operationID (OperationID s) = true /\ starts argv = false /\
      (touches_data argv = true -> disposable argv) /\
      (zfs_verb argv = "release" -> argv = ["zfs"; "release"; "-r"; "floatlab-update"; managementDataset +:+ "@" +:+ MgmtUpdate.Snapshot s] /\
         MgmtUpdate.Snapshot s <> "")
  | _ => False
  end.

Variables (cs : gmap string (file Status)) (base : list event).
Abbreviation orderly := (TraceLogic.orderly (E:=string) trace allowed_cleanup (inv_st (fixed s cs)) base).

Definition owned (_ : list event) : Prop := operationID (OperationID s) = true.

Lemma orderly_owned argv : starts argv = false -> (touches_data argv = true -> disposable argv) ->
  (zfs_verb argv = "release" -> argv = ["zfs"; "release"; "-r"; "floatlab-update"; managementDataset +:+ "@" +:+ MgmtUpdate.Snapshot s] /\
     MgmtUpdate.Snapshot s <> "") -> orderly owned (run argv) (fun _ => owned).
Proof. intros Hs Hd Hr. apply orderly_command; [|done]. intros l out err Ho. by split_and!. Qed.
Lemma orderly_owned_ argv : starts argv = false -> (touches_data argv = true -> disposable argv) ->
  (zfs_verb argv = "release" -> argv = ["zfs"; "release"; "-r"; "floatlab-update"; managementDataset +:+ "@" +:+ MgmtUpdate.Snapshot s] /\
     MgmtUpdate.Snapshot s <> "") -> orderly owned (run_ argv) (fun _ => owned).
Proof. intros. unfold run_. eapply orderly_seq; [by apply orderly_owned|]. intros a. by apply orderly_ret. Qed.
Lemma orderly_tried {A} (m : cmd A) : orderly owned m (fun _ => owned) -> orderly owned (attempt m) (fun _ => owned).
Proof.
  intros Hm w l Hv Ht Ho HP. apply post_attempt. eapply post_mono; [by apply (Hm w l)|].
  intros r w' (Hv' & l' & Ht' & Ho' & _). split; [done|]. by exists l'.
Qed.
Lemma orderly_owned_check b e : orderly owned (check b e) (fun _ l => owned l /\ b = true).
Proof. apply orderly_check. Qed.

Lemma orderly_drop inspect removal : harmless inspect = true -> zfs_verb inspect = "" ->
  harmless removal = true -> zfs_verb removal = "" -> orderly owned (drop inspect removal) (fun _ => owned).
Proof.
  intros Hi Hvi Hr Hvr. unfold harmless in *. to_prop. unfold drop.
  eapply orderly_seq; [apply orderly_tried, orderly_owned; congruence|]. intros [a|e]; [|by apply orderly_ret].
  apply orderly_owned_; congruence.
Qed.

Lemma orderly_cleanup_sandbox : orderly owned (cleanup_sandbox (OperationID s)) (fun _ => owned).
Proof.
  unfold cleanup_sandbox. cbv zeta. apply orderly_get. intros w _. eapply (orderly_seq _ _ _ (fun _ => owned)).
  { destruct (default Absent _); [by apply orderly_ret|by apply orderly_owned_..]. }
  intros u1. apply orderly_get. intros w' _. destruct (default Absent _) as [| |b]; [by apply orderly_ret..|].
  destruct (sandbox b) as [[network table]|]; [|apply orderly_fail].
  eapply (orderly_seq _ _ _ (fun _ => owned)); [eapply orderly_post; [|apply orderly_owned_check]; by intros u l [? _]|]. intros u2.
  eapply orderly_seq; [by apply orderly_drop|]. intros u3. by apply orderly_drop.
Qed.
Lemma orderly_cleanup_clones : orderly owned (cleanup_clones (OperationID s)) (fun _ => owned).
Proof.
  unfold cleanup_clones. eapply orderly_seq; [by apply orderly_tried, orderly_owned|]. intros [raw|e]; [|by apply orderly_ret].
  apply orderly_each_keep. intros name _. eapply orderly_seq; [apply orderly_owned_check|]. intros u.
  eapply orderly_pre; [|apply (orderly_conj _ _ _ _ _ (under (tests_root +:+ OperationID s) name = true) owned)].
  - by intros l [? ?].
  - intros Hu. apply orderly_owned_; [done| |done]. intros _. left. by exists name.
Qed.

Lemma orderly_destroy name : name ∈ cleanup_snapshots -> name <> "" -> orderly owned (run (destroy_snapshot name)) (fun _ => owned).
Proof. intros Hn Hne. apply orderly_owned; [done| |done]. intros _. right. by exists name. Qed.

Lemma orderly_CleanupBackend : orderly (fun _ => True) CleanupBackend (fun _ => owned).
Proof.
  unfold CleanupBackend. apply orderly_st; intros ? ? [-> _].
  eapply orderly_seq; [apply orderly_check|]. intros u1. eapply (orderly_pre _ owned); [by intros l [_ ?]|].
  eapply orderly_seq; [apply orderly_cleanup_sandbox|]. intros u2.
  eapply orderly_seq; [apply orderly_cleanup_clones|]. intros u3.
  apply orderly_each_keep. intros name Hn. destruct (decide (name = "")) as [|Hne]; [by apply orderly_ret|].
  destruct (decide (name = MgmtUpdate.Snapshot s)) as [->|Hs].
  - eapply orderly_seq; [apply orderly_owned; done|]. intros u4.
    unfold run_. eapply orderly_seq; [by apply orderly_destroy|]. intros u5. by apply orderly_ret.
  - eapply orderly_seq; [apply orderly_tried; by apply orderly_destroy|]. intros r. by apply orderly_ret.
Qed.
End Cleanup.

(** Cleanup destroys only what the operation owns: whatever the commands
    answer and whatever the listing of the test datasets contains, every
    destroyed dataset is below the operation's own test datasets, every
    destroyed snapshot is its preflight snapshot or the checkpoint the status
    names, only that checkpoint's hold is released, and nothing is rolled
    back, unmounted or started.  In particular a status without a checkpoint
    destroys no checkpoint. *)
Theorem cleanup_scope `{Semver} `{YAML} `{Linux} (w : W) :
  let '(r, w') := CleanupBackend w in
  st w' = st w /\ exists l, trace w' = l ++ trace w /\ Ordered (allowed_cleanup (st w)) l /\
    (operationID (OperationID (st w)) = false -> l = [] /\ r <> Ok tt) /\
    forall argv out err, ERun argv out err ∈ l -> touches_data argv = true -> disposable (st w) argv.
Proof.
  destruct (CleanupBackend w) as [r w'] eqn:E.
  destruct (orderly_run _ _ _ _ (fun _ => owned (st w)) _ _ _ (orderly_CleanupBackend (st w) (checkpoints w) (trace w)) (conj eq_refl eq_refl) E)
    as ([Hst _] & l & Ht & Ho & HQ).
  split; [done|]. exists l. split_and!; [done|done| |].
  - intros Ha. revert E. unfold CleanupBackend, get_st, mbind, prog_mbind, bind, check. rewrite Ha. cbn. intros [= <- <-].
    split; [|done]. apply (app_inv_tail (trace w)). by rewrite <- Ht.
  - intros argv out err Hin Hd. apply list_elem_of_split in Hin as (l1 & l2 & ->).
    destruct (Ordered_elem _ _ _ _ Ho) as (_ & _ & Hdisp & _). by apply Hdisp.
Qed.

(** ** Waiting *)

(** The clock does not run backwards, and a wait takes at least its time. *)
Class Clock (En : Linux) : Prop := {
  now_mono : forall e tr, (now tr <= now (e :: tr))%Z;
  now_wait : forall d tr, (now tr + d <= now (EWait d :: tr))%Z }.

(** Only additions to the trace. *)
Definition extends (w w' : W) : Prop := exists l, trace w' = l ++ trace w.

Section Waits.
Context `{Semver} `{YAML} {En : Linux}.

Lemma now_later `{!Clock En} l tr : (now tr <= now (l ++ tr))%Z.
Proof. induction l as [|e l IH]; cbn; [lia|]. pose proof (now_mono e (l ++ tr)). lia. Qed.

(** What [drain] ends in: never in its fuel when that is enough, and in
    success only when both stamps name the operation. *)
Lemma drain_spec `{!Clock En} n deadline id w : (deadline < now (trace w) + 200000000 * Z.of_nat n)%Z ->
  post (drain (S n) deadline id) (fun r w' => r <> Err "out of fuel" /\
    (r = Ok tt -> stamped id "controllers-drained" (trace w') = true /\ stamped id "api-drained" (trace w') = true)) w.
Proof.
  revert w. induction n as [|n IH]; intros w Hf; unfold post; cbn [drain];
    change ((get ≫= ?k) w) with (k w w); cbv beta;
    (destruct (stamped id "controllers-drained" (trace w) && stamped id "api-drained" (trace w)) eqn:Es;
      [to_prop; cbn; by split|]);
    (destruct (Z.ltb_spec deadline (now (trace w))) as [Hlt|Hlt]; [by cbn|]); [lia|].
  destruct (cancelled (trace w)); [by cbn|].
  change ((wait 200000000;; drain (S n) deadline id) w) with (drain (S n) deadline id (log (EWait 200000000) w)).
  apply IH. cbn [trace log]. pose proof (now_wait 200000000 (trace w)). lia.
Qed.

(** A run of successful probes, five seconds apart. *)
Inductive sound_run : W -> W -> Prop :=
| sound_one w w' : probe w = (Ok tt, w') -> sound_run w w'
| sound_more w w1 w2 : probe w = (Ok tt, w1) -> sound_run (log (EWait 5000000000) w1) w2 -> sound_run w w2.

(** [t] is when the current run of successful probes had its first answer. *)
Definition since (t : Z) (w : W) : Prop := exists w0 w1, probe w0 = (Ok tt, w1) /\ now (trace w1) = t /\
  forall w', sound_run w w' -> sound_run w0 w'.

Lemma readiness_spec n deadline stable w : (forall t, stable = Some t -> since t w) ->
  post (readiness n deadline stable) (fun r w' => r = Ok tt -> exists w0 w1,
    probe w0 = (Ok tt, w1) /\ sound_run w0 w' /\ (60000000000 <= now (trace w') - now (trace w1))%Z) w.
Proof.
  revert stable w. induction n as [|n IH]; intros stable w Hs; [done|].
  cbn [readiness]. apply post_bind, post_attempt. destruct (probe w) as [r w1] eqn:Ep. unfold post at 1. rewrite Ep. cbn [fst snd].
  unfold post at 1. change ((get ≫= ?k) w1) with (k w1 w1). cbv beta zeta. destruct r as [[]|e].
  - set (t0 := default (now (trace w1)) stable).
    assert (Ht : since t0 (log (EWait 5000000000) w1) /\ exists w0 w2, probe w0 = (Ok tt, w2) /\ now (trace w2) = t0 /\ sound_run w0 w1).
    { destruct stable as [t|]; cbn in t0; subst t0.
      - destruct (Hs t eq_refl) as (w0 & w2 & Hp & Hn & Hc). split.
        + exists w0, w2. split_and!; [done|done|]. intros w' Hr. apply Hc. by eapply sound_more.
        + exists w0, w2. split_and!; [done|done|]. by apply Hc, sound_one.
      - split; exists w, w1; split_and!; try done.
        + intros w' Hr. by eapply sound_more.
        + by apply sound_one. }
    destruct Ht as [Hnext (w0 & w2 & Hp & Hn & Hr)]. cbn [is_Some]. rewrite bool_decide_eq_true_2 by eauto.
    change (default (now (trace w1)) (Some t0)) with t0. cbn [andb].
    destruct (Z.leb_spec 60000000000 (now (trace w1) - t0)) as [Hle|_].
    + cbn. intros _. exists w0, w2. split_and!; [done|done|lia].
    + destruct (_ || _); [done|]. change ((wait ?d;; ?m) w1) with (m (log (EWait d) w1)).
      change ((get ≫= ?k) (log ?e w1)) with (k (log e w1) (log e w1)). cbv beta. destruct (_ || _); [done|].
      apply IH. by intros t [= <-].
  - rewrite bool_decide_eq_false_2 by (intros []; done). cbn [andb]. destruct (_ || _); [done|].
    change ((wait ?d;; ?m) w1) with (m (log (EWait d) w1)).
    change ((get ≫= ?k) (log ?e w1)) with (k (log e w1) (log e w1)). cbv beta. destruct (_ || _); [done|]. by apply IH.
Qed.

(** A probe only adds to the trace. *)
Lemma probe_extends w : extends w (probe w).2.
Proof.
  destruct (probe w) as [r w'] eqn:E. cbn [snd].
  assert (Hm : tame (fun _ _ => True) (fun _ _ => True) (trace w) (fun _ => True) probe) by by apply tame_probe.
  destruct (orderly_run _ _ _ _ (fun _ _ => True) _ _ _ Hm I E) as (_ & l & Hl & _). by exists l.
Qed.

Lemma readiness_ends `{!Clock En} n deadline stable w : (deadline <= now (trace w) + 5000000000 * Z.of_nat n)%Z ->
  (readiness (S n) deadline stable w).1 <> Err "out of fuel".
Proof.
  revert stable w. induction n as [|n IH]; intros stable w Hf; cbn [readiness];
    change ((attempt probe ≫= ?k) w) with (k (probe w).1 (probe w).2) || idtac;
    unfold attempt, mbind at 1, prog_mbind, bind at 1; destruct (probe w) as [r w1] eqn:Ep;
    pose proof (probe_extends w) as [l Hl]; rewrite Ep in Hl; cbn [snd] in Hl;
    pose proof (now_later l (trace w)) as Hn; rewrite <- Hl in Hn;
    change ((get ≫= ?k) w1) with (k w1 w1); cbv beta zeta; destruct (_ && _); [done| |done|].
  - rewrite (proj2 (Z.leb_le _ _)) by lia. by rewrite orb_true_r.
  - destruct (_ || _); [done|]. change ((wait ?d;; ?m) w1) with (m (log (EWait d) w1)).
    change ((get ≫= ?k) (log ?e w1)) with (k (log e w1) (log e w1)). cbv beta. destruct (_ || _); [done|]. apply IH.
    cbn [trace log]. pose proof (now_wait 5000000000 (trace w1)). lia.
Qed.
End Waits.

(** A stack is found healthy only after a minute of success: the check
    ends within its five minutes, and succeeds only if an unbroken run of
    successful probes, five seconds apart, lasted at least sixty seconds from
    its first answer. *)
Theorem healthy_minute `{Semver} `{YAML} {En : Linux} `{!Clock En} (w : W) :
  let '(r, w') := HealthyBackend w in
  r <> Err "out of fuel" /\
  (r = Ok tt -> exists w0 w1, probe w0 = (Ok tt, w1) /\ sound_run w0 w' /\
     (60000000000 <= now (trace w') - now (trace w1))%Z).
Proof.
  unfold HealthyBackend. change ((get ≫= ?k) w) with (k w w). cbv beta.
  pose proof (readiness_ends 61 (now (trace w) + 300000000000)%Z None w ltac:(lia)) as He.
  pose proof (readiness_spec readiness_fuel (now (trace w) + 300000000000)%Z None w ltac:(done)) as Hs.
  unfold readiness_fuel in *. unfold post in Hs. destruct (readiness 62 _ _ w) as [r w']. by split.
Qed.

(** The controllers are waited for, but not for ever: the poll before
    fencing ends within its minute, and succeeds only when both stamps of the
    management controllers name the operation. *)
Theorem drain_waits `{Semver} `{YAML} {En : Linux} `{!Clock En} (id : string) (w : W) :
  let '(r, w') := drain drain_fuel (now (trace w) + 60000000000) id w in
  r <> Err "out of fuel" /\
  (r = Ok tt -> stamped id "controllers-drained" (trace w') = true /\ stamped id "api-drained" (trace w') = true).
Proof.
  pose proof (drain_spec 301 (now (trace w) + 60000000000) id w ltac:(lia)) as Hs. unfold post in Hs.
  unfold drain_fuel. by destruct (drain 302 _ id w).
Qed.

(** ** A concrete system

    Five management datasets, all commands obeyed; what is mounted follows from
    the commands recorded; the clock is the time waited. *)

Definition rig_datasets : list Dataset :=
  map (fun c => mkDataset (managementDataset +:+ c) "1") [""; "/raft"; "/rqlite"; "/victoria-logs"; "/victoria-metrics"].
Fixpoint rig_mounted (ds : string) (tr : list event) : string :=
  match tr with
  | [] => "yes"
  | ERun argv _ _ :: tr =>
      if decide (argv = ["zfs"; "unmount"; ds]) then "no"
      else if decide (argv = ["zfs"; "mount"; ds]) then "yes" else rig_mounted ds tr
  | _ :: tr => rig_mounted ds tr
  end.
Definition newline : string := String.String (ascii_of_nat 10) "".
Definition rig_reply (argv : list string) (tr : list event) : string :=
  match argv with
  | ["zfs"; "get"; "-H"; "-o"; "value"; p; ds] => if decide (p = "mounted") then rig_mounted ds tr else "1"
  | ["zfs"; "get"; "-H"; "-o"; _; _; ds] => "mountpoint /" +:+ ds +:+ newline +:+ "canmount on"
  | "zfs" :: "list" :: _ => Join (map (fun d => Name d +:+ " " +:+ GUID d) rig_datasets) newline
  | ["findmnt"; _; _; _; _; path] => TrimPrefix path "/" +:+ " zfs"
  | _ => ""
  end.
Fixpoint rig_clock (tr : list event) : Z :=
  match tr with [] => 0 | EWait d :: tr => Z.max 0 d + rig_clock tr | _ :: tr => rig_clock tr end.
Definition rig : Linux := {|
  Dir := "/floatlab/system/updates"; reply argv tr := (rig_reply argv tr, None); write _ _ := true; remove_ok _ _ := true;
  mkdir_ok _ := true; drained _ _ := Some "op1"; quiesce := None; cancelled _ := false; now := rig_clock; shuffle _ l := l;
  fetch_manifest _ _ := None; lab_read _ _ := None; release_info _ := None; build_version _ := None; peer_count _ := None;
  restart_policy _ := None; sandbox _ := None; journals _ := None |}.
#[export] Instance rig_laws : Clock rig.
Proof. split; [intros e tr; cbn; destruct e; lia|intros d tr; cbn; lia]. Qed.

Definition rig_status (phase : string) : Status :=
  set_Authorized true (set_ProductionChanged true (set_Snapshot "floatlab-update-op1" (set_Phase phase
    (set_Capture (mkCaptured "manage-v1.0.0" empty_manifest "always" "always" rig_datasets (list_to_map (map (fun n => (n, "always")) service_names)))
      (mkStatus "" false "op1" "" "" "" "" "" "" 0 0 empty_captured "" false ∅ false ""))))).
Definition rig_world (phase : string) : W := mkW ∅ ∅ (rig_status phase) [].

(** On this system a checkpoint is restored, and production opened after it. *)
Example rig_restores : (@RestoreBackend sample_yaml rig (rig_world "restoring")).1 = Ok tt.
Proof. vm_compute. reflexivity. Qed.
Example rig_authorizes :
  (@AuthorizeBackend sample_yaml rig (@RestoreBackend sample_yaml rig (rig_world "restoring")).2).1 = Ok tt.
Proof. vm_compute. reflexivity. Qed.

Lemma authorize_opens_last_witness : exists l,
  trace (@AuthorizeBackend sample_yaml rig (@RestoreBackend sample_yaml rig (rig_world "restoring")).2).2 =
    l ++ trace (@RestoreBackend sample_yaml rig (rig_world "restoring")).2 /\
  @open_ready sample_yaml (rig_status "restoring") l.
Proof.
  pose proof (@authorize_opens_last major_semver sample_yaml rig (@RestoreBackend sample_yaml rig (rig_world "restoring")).2
    (fun tr l => Permutation_refl l)) as Ha.
  pose proof rig_authorizes as Hok.
  pose proof (@restore_keeps_status major_semver sample_yaml rig (rig_world "restoring")) as Hst.
  destruct (@RestoreBackend sample_yaml rig (rig_world "restoring")) as [r0 w0]. cbn [snd fst] in *.
  destruct (@AuthorizeBackend sample_yaml rig w0) as [r w']. destruct Ha as [_ (l & Ht & _ & _ & Ho)].
  exists l. split; [exact Ht|]. rewrite Hst in Ho. exact (Ho Hok).
Defined.

Lemma healthy_minute_witness : exists w0 w1,
  @probe sample_yaml rig w0 = (Ok tt, w1) /\
  @sound_run sample_yaml rig w0 (@HealthyBackend sample_yaml rig (rig_world "checking")).2 /\
  (60000000000 <= @now rig (trace (@HealthyBackend sample_yaml rig (rig_world "checking")).2) - @now rig (trace w1))%Z.
Proof.
  pose proof (@healthy_minute major_semver sample_yaml rig rig_laws (rig_world "checking")) as Hh.
  assert (Hok : (@HealthyBackend sample_yaml rig (rig_world "checking")).1 = Ok tt) by (vm_compute; reflexivity).
  destruct (@HealthyBackend sample_yaml rig (rig_world "checking")) as [r w']. exact (proj2 Hh Hok).
Defined.

Lemma drain_waits_witness : let '(r, w') := @drain rig drain_fuel 60000000000 "op1" (rig_world "fencing") in
  r = Ok tt /\ @stamped rig "op1" "api-drained" (trace w') = true.
Proof.
  pose proof (@drain_waits major_semver sample_yaml rig rig_laws "op1" (rig_world "fencing")) as Hd.
  change (@now rig (trace (rig_world "fencing")) + 60000000000)%Z with 60000000000%Z in Hd.
  assert (Hok : (@drain rig drain_fuel 60000000000 "op1" (rig_world "fencing")).1 = Ok tt) by (vm_compute; reflexivity).
  destruct (@drain rig drain_fuel 60000000000 "op1" (rig_world "fencing")) as [r w']. split; [exact Hok|].
  exact (proj2 (proj2 Hd Hok)).
Defined.
