(* ===== verification/MgmtCheckpoint.v ===== *)
(** The checkpoint of management that a host upgrade takes and restores: the
    checkpoint methods of [src/internal/managementupdate/manager.go] on the
    Linux backend of [MgmtLinux.v].  The host updater calls them while it holds
    the shared update lock; the file [management-os-<id>.json] is all that a
    restarted host knows of a checkpoint. *)
From S2P Require Import Prelude TraceLogic Timestamp Release Update GoStrings CoreStack MgmtUpdate MgmtLinux MgmtLinuxSafety.
From Stdlib Require Import Ascii.

Open Scope string_scope.
Open Scope list_scope.

Section Checkpoints.
Context `{Semver} `{YAML} `{Linux}.

(** [WriteJSON] of the status. *)
Definition write_checkpoint (id : string) : cmd unit := fun w =>
  let '(ok, f) := WriteFile (write (trace w)) (st w) (default Absent (checkpoints w !! id)) in
  (if ok then Ok tt else Err "write checkpoint", set_checkpoints (<[id := f]> (checkpoints w)) (log (ECheckpoint id (st w) ok) w)).

(** [checkpoint]: the status of the file becomes the one worked on. *)
Definition not_exist : string := "file does not exist".
Definition checkpoint (id : string) : cmd unit := fun w =>
  if negb (operationID id) then (Err "invalid operation ID", w)
  else match default Absent (checkpoints w !! id) with
       | Absent => (Err not_exist, w)
       | Unreadable => (Err "read checkpoint", w)
       | Content s => (Ok tt, set_st s w)
       end.

Definition fresh_status (id : string) : Status := set_Phase "fencing" (set_State "os_checkpoint"
  (mkStatus "" false id "" "" "" "" "" "" 0 0 empty_captured "" false ∅ false "")).

Definition Checkpoint (id : string) : cmd unit :=
  check (operationID id) "invalid operation ID";;
  modify_st (fun _ => fresh_status id);;
  capture;;
  write_checkpoint id;;
  FenceBackend;;
  modify_st (set_Snapshot ("floatlab-update-" +:+ id));;
  write_checkpoint id;;
  SnapshotBackend;;
  modify_st (fun s => set_Phase "checkpoint_ready" (set_ProductionChanged true s));;
  write_checkpoint id.

(** The durable authorization, then its effects. *)
Definition authorize (id : string) : cmd unit :=
  modify_st (set_Authorized true);;
  write_checkpoint id;;
  AuthorizeBackend.

Definition RestoreCheckpoint (id : string) : cmd unit :=
  checkpoint id;;
  RestoreBackend;;
  HealthyBackend;;
  authorize id.

Definition ReleaseCheckpoint (id : string) : cmd unit := checkpoint id;; authorize id.

Definition StartCheckpointTrial (id : string) : cmd unit :=
  checkpoint id;;
  write_file blocked id;;
  s ← get_st;
  verifyMountedDatasets (Datasets (Capture s));;
  b ← of_result (noRestart (PreviousCompose (Capture s)));
  write_file composePath b;;
  up.

Definition CheckpointHealthy (id : string) : cmd unit := checkpoint id;; HealthyBackend.
Definition ActivateCheckpointControllers (id : string) : cmd unit := checkpoint id;; remove blocked.
Definition StopCheckpoint (id : string) : cmd unit := checkpoint id;; FenceBackend.

(** Removing the file and flushing its directory; [remove_ok] of the
    directory's name tells whether it can be opened and flushed. *)
Definition checkpoint_path (id : string) : string := path_in ("management-os-" +:+ id +:+ ".json").
Definition remove_checkpoint (id : string) : cmd unit := fun w =>
  let ok := remove_ok (checkpoint_path id) (trace w) in
  (if ok then Ok tt else Err "remove",
   set_checkpoints (if ok then <[id := Absent]> (checkpoints w) else checkpoints w) (log (ERemove (checkpoint_path id) ok) w)).
Definition sync_dir : cmd unit := fun w =>
  let ok := remove_ok Dir (trace w) in (if ok then Ok tt else Err "sync", w).
Definition CleanupCheckpoint (id : string) : cmd unit :=
  r ← attempt (checkpoint id);
  match r with
  | Err e => if decide (e = not_exist) then ret tt else fail e
  | Ok _ =>
      CleanupBackend;;
      remove_checkpoint id;;
      sync_dir
  end.

Definition ValidateCheckpointHost (required : string -> option HostRange) (version : string) : cmd unit :=
  id ← controlID;
  info ← run ["docker"; "exec"; id; "/usr/local/bin/floatlab-control"; "--release-info"];
  match required info with
  | None => fail "json"
  | Some range =>
      match Release.Contains range version with
      | Err _ => fail "version"
      | Ok ok => check ok "installed management is incompatible with target host"
      end
  end.
End Checkpoints.

(** * Properties *)

(** ** Taking a checkpoint *)

(** Commands that disturb the running management, its data or its snapshots. *)
Definition acts (argv : list string) : bool :=
  touches_data argv || starts argv || bool_decide (zfs_verb argv = "hold") || bool_decide (compose_verb argv = "stop") ||
  match argv with "systemctl" :: _ => true | "docker" :: "update" :: _ => true | _ => false end.
(** Those a checkpoint never makes. *)
Definition destructive (argv : list string) : bool :=
  starts argv || bool_decide (zfs_verb argv ∈ ["unmount"; "mount"; "rollback"; "destroy"; "release"]).

(** Setting the status and reading it back. *)
Lemma orderly_set_get (allowed : event -> list event -> Prop) (J : invariant) base {B} f (k : Status -> cmd B) P Q :
  (forall s c, J s c -> J (f s) c) -> (forall s c, J s c -> TraceLogic.orderly trace allowed (inv_st J) base P (k (f s)) Q) ->
  TraceLogic.orderly trace allowed (inv_st J) base P (modify_st f;; s ← get_st; k s) Q.
Proof. intros Hf Hk w l Hv Ht Ho HP. exact (Hk (st w) _ Hv (set_st (f (st w)) w) l (Hf _ _ Hv) Ht Ho HP). Qed.

Section Taking.
Context `{Semver} `{YAML} `{Linux} (id : string).

(** A durable file says that the checkpoint was begun; that it has a snapshot;
    that it is ready. *)
Definition recorded (F : Status -> Prop) (l : list event) : Prop :=
  exists s, ECheckpoint id s true ∈ l /\ OperationID s = id /\ F s.
Definition begun : list event -> Prop := recorded (fun _ => True).
Definition named (s : Status) : Prop := MgmtUpdate.Snapshot s = "floatlab-update-" +:+ id.
Definition gated_by (l : list event) : Prop :=
  EWrite blocked id true ∈ l /\ EWrite (path_in "management-blocked") id true ∈ l.
Definition snapshot_argv : list string := ["zfs"; "snapshot"; "-r"; managementDataset +:+ "@floatlab-update-" +:+ id].

Definition allowed_taking (e : event) (past : list event) : Prop :=
  match e with
  | ERun argv _ _ =>
      (acts argv = true -> begun past) /\ destructive argv = false /\
      (zfs_verb argv = "snapshot" -> argv = snapshot_argv /\ quiet past /\ gated_by past /\ recorded named past)
  | EWrite _ _ _ | ERemove _ _ => begun past
  | _ => True
  end.

Variable base : list event.
Abbreviation mine := (inv_st (fun s _ => OperationID s = id)).
Abbreviation orderly := (TraceLogic.orderly (E:=string) trace allowed_taking mine base).
Abbreviation calm P := (tame allowed_taking (fun s _ => OperationID s = id) base P).

#[export] Instance growing_recorded F : Growing (recorded F).
Proof. intros l l' (s & Hin & Hs). exists s. split; [apply elem_of_app; by right|done]. Qed.
#[export] Instance growing_gated_by : Growing gated_by.
Proof. intros l l' [? ?]. split; by apply (growing_elem _ l l'). Qed.

(** A command that is allowed by its form alone, or once the file is there. *)
Ltac by_form := intros; cbn [allowed_taking]; split_and!;
  [try (intros Hc; vm_compute in Hc; discriminate); try done; try (intros _; by eauto)|vm_compute; reflexivity|intros Hc; discriminate Hc].

Section Any.
Context (J : invariant) (HJ : forall x s c, J s c -> J (set_Capture x s) c) (P : list event -> Prop) `{!Growing P}.
Abbreviation calmly := (tame allowed_taking J base P).

Lemma calm_properties l : calmly (verifyDatasetProperties l).
Proof.
  apply tame_each. intros ds. apply tame_bind; [apply tame_run; [done|by_form]|]. intros raw.
  destruct (props_of _); auto with tame.
Qed.
Lemma calm_mounted l : calmly (verifyMountedDatasets l).
Proof.
  apply tame_bind; [auto with tame|]. intros u1. apply tame_bind; [apply calm_properties|]. intros u2.
  apply tame_each. intros ds. apply tame_bind; [apply tame_run; [done|by_form]|]. auto with tame.
Qed.
Lemma calm_datasets : calmly datasets.
Proof.
  apply tame_bind; [apply tame_run; [done|by_form]|]. intros raw. destruct (dataset_rows _); [|auto with tame].
  destruct (_ <? _)%nat; auto with tame.
Qed.
Lemma calm_freeze doc names : calmly (freeze_services doc names).
Proof.
  revert doc. induction names as [|name names IH]; intros doc; cbn [freeze_services]; [auto with tame|].
  apply tame_bind; [|intros d; apply IH]. unfold freeze_service. destruct (services doc !! name) as [svc|]; [|auto with tame].
  apply tame_bind; [auto with tame|]. intros u1. apply tame_bind; [apply tame_run; [done|by_form]|]. intros ids.
  destruct (Fields ids) as [|i []]; [auto with tame| |auto with tame].
  apply tame_bind; [apply tame_run; [done|by_form]|]. intros image. apply tame_bind; [auto with tame|]. intros u2.
  cbv zeta. apply tame_bind; [apply tame_run; [done|by_form]|]. intros u3.
  apply tame_bind; [apply tame_run; [done|by_form]|]. intros raw. destruct (restart_policy raw) as [[policy count]|]; [|auto with tame].
  destruct (policy_text policy count); [|auto with tame]. apply tame_bind; [apply tame_modify; intros; by apply HJ|]. auto with tame.
Qed.
Lemma calm_capture : calmly capture.
Proof.
  unfold capture. apply tame_bind; [apply tame_controlID; [done|by_form]|]. intros i.
  apply tame_bind; [apply tame_run; [done|by_form]|]. intros info. apply tame_bind; [auto with tame|]. intros version.
  apply tame_bind; [apply tame_modify; intros; by apply HJ|]. intros u1. apply tame_bind; [auto with tame|]. intros b.
  apply tame_bind; [apply tame_modify; intros; by apply HJ|]. intros u2. apply tame_bind; [auto with tame|]. intros doc.
  apply tame_bind.
  { unfold freezeDefinitions. apply tame_bind; [apply tame_modify; intros; by apply HJ|]. intros u3. apply tame_get. intros w. apply calm_freeze. }
  intros doc'. cbv zeta. apply tame_bind; [apply tame_modify; intros; by apply HJ|]. intros u3. apply tame_bind; [auto with tame|]. intros u4.
  apply tame_bind; [apply tame_attempt, calm_datasets; done|]. intros found. apply tame_bind; [apply tame_modify; intros; by apply HJ|]. intros u5.
  apply tame_bind; [auto with tame|]. intros l. apply tame_bind; [apply calm_mounted|]. auto with tame.
Qed.
End Any.

Lemma orderly_write_checkpoint F P : (forall s, OperationID s = id -> F s) ->
  orderly P (write_checkpoint id) (fun _ => recorded F).
Proof.
  intros HF. unfold write_checkpoint. apply orderly_event.
  - intros w Hw. unfold inv_st in *. by destruct (WriteFile _ _ _).
  - intros w l Hw _ HP. destruct (WriteFile _ _ _) as [ok f]. exists (ECheckpoint id (st w) ok).
    split_and!; [done|done|]. cbn. destruct ok; [|done]. exists (st w). split; [apply elem_of_cons; by left|]. auto.
Qed.

Lemma orderly_record f F P : (forall s, OperationID s = id -> OperationID (f s) = id /\ F (f s)) ->
  orderly P (modify_st f;; write_checkpoint id) (fun _ => recorded F).
Proof.
  intros Hf w l Hv Ht Ho HP. destruct (Hf _ Hv) as [Hid HF].
  unfold post. change ((modify_st f;; write_checkpoint id) w) with (write_checkpoint id (set_st (f (st w)) w)).
  unfold write_checkpoint. cbn [trace set_st st checkpoints]. destruct (WriteFile _ _ _) as [ok c]. cbn. split; [done|].
  exists [ECheckpoint id (f (st w)) ok]. cbn. split_and!; [by rewrite Ht|by constructor|]. destruct ok; [|done].
  exists (f (st w)). split; [apply elem_of_cons; by left|done].
Qed.

Lemma orderly_gate : orderly begun suppressAndStop (fun _ l => begun l /\ gated_by l).
Proof.
  unfold suppressAndStop. apply orderly_st. intros s c Hs. rewrite Hs.
  eapply orderly_bind; [apply _|apply (orderly_write _ _ _ (elem_of (EWrite blocked id true))); [done|]; intros; apply elem_of_cons; by left|].
  intros u1. eapply orderly_bind; [apply _|apply (orderly_write _ _ _ (elem_of (EWrite (path_in "management-blocked") id true)));
    [by intros l ok [? _]|]; intros; apply elem_of_cons; by left|].
  intros u2. set (P := fun l => begun l /\ gated_by l). assert (HP : Growing P) by apply _.
  eapply (orderly_pre _ P); [intros l [[? ?] ?]; by split; [|split]|]. change (calm P
    (run ["systemctl"; "mask"; "--runtime"; "floatlab-core-stack.service"];;
     suppressed ← of_result (noRestart (PreviousCompose (Capture s)));
     write_file composePath suppressed;;
     ids ← run (ps "-aq");
     each suppress (Fields ids);;
     stop;;
     stopped)).
  assert (Hb : forall l, P l -> begun l) by by intros l [? _].
  apply tame_bind; [apply tame_run; [done|by_form]|]. intros u3. apply tame_bind; [auto with tame|]. intros data.
  apply tame_bind; [apply tame_write; [done|]; intros; by apply Hb|]. intros u4.
  apply tame_bind; [apply tame_run; [done|by_form]|]. intros ids. apply tame_bind.
  { apply tame_each. intros i. apply tame_bind; [apply tame_run; [done|by_form]|]. intros u5.
    apply tame_bind; [apply tame_run; [done|by_form]|]. auto with tame. }
  intros u5. apply tame_bind; [apply tame_run_; [done|by_form]|]. intros u6.
  apply tame_bind; [apply tame_run; [done|by_form]|]. auto with tame.
Qed.

Lemma orderly_fence : orderly begun FenceBackend (fun _ l => begun l /\ gated_by l).
Proof.
  unfold FenceBackend. apply orderly_st. intros s c Hs. apply orderly_get. intros w _.
  eapply (orderly_seq _ _ _ (fun _ => begun)); [apply tame_check|]. intros u1.
  eapply (orderly_seq _ _ _ (fun _ => begun)); [apply tame_each; intros n; by apply tame_stamp; [apply _|]|]. intros u2.
  eapply (orderly_seq _ _ _ (fun _ => begun)); [by apply tame_write; [apply _|]|]. intros u3.
  eapply (orderly_seq _ _ _ (fun _ => begun)); [apply tame_controlID; [apply _|by_form]|]. intros i.
  eapply (orderly_seq _ _ _ (fun _ => begun)).
  { destruct (decide _); [by apply orderly_ret|]. apply orderly_get. intros w' _. by apply tame_drain; [apply _|]. }
  intros u4. eapply (orderly_seq _ _ _ (fun _ => begun)); [|intros u5; apply orderly_gate].
  destruct quiesce as [q|]; [|by apply orderly_ret]. apply orderly_event; [done|]. intros w' l _ _ Hb.
  exists (EQuiesce (q (trace w'))). split_and!; [done|done|]. cbn. destruct (q _); [done|]. by apply (grows l [_]).
Qed.

Lemma orderly_snapshot : orderly (fun l => gated_by l /\ recorded named l) SnapshotBackend
  (fun _ l => ran snapshot_argv l).
Proof.
  unfold SnapshotBackend. set (G := fun l => gated_by l /\ recorded named l). assert (HG : Growing G) by apply _.
  assert (HGb : forall l, G l -> begun l) by (intros l [_ (s & ? & ? & _)]; by exists s).
  assert (Hlook : forall argv, harmless argv = true -> acts argv = false -> destructive argv = false -> zfs_verb argv <> "snapshot" ->
    orderly (fun l => G l /\ quiet l) (run argv) (fun _ l => G l /\ quiet l)).
  { intros argv Hh Ha Hd Hs. apply orderly_command.
    - intros l out err _. cbn. split_and!; [congruence|done|done].
    - intros l out [Hg Hq]. split; [by apply (grows l [_])|]. unfold harmless in Hh. to_prop. by apply quiet_cons. }
  eapply (orderly_seq _ _ _ (fun _ l => G l /\ quiet l)).
  { unfold stopped. eapply (orderly_seq _ _ _ (fun a l => G l /\ (TrimSpace a = "" -> quiet l))).
    - apply orderly_command; [by_form|]. intros l out Hg. split; [by apply (grows l [_])|]. intros Ht. split; [done|left]. by exists out.
    - intros a. eapply orderly_post; [|apply orderly_check]. intros u l [[Hg Hq] Hb]. to_prop. split; [done|by apply Hq]. }
  intros u1. eapply (orderly_seq _ _ _ (fun _ l => G l /\ quiet l)).
  { unfold datasets. eapply orderly_seq; [by apply Hlook|]. intros raw. destruct (dataset_rows _); [|apply orderly_fail].
    destruct (_ <? _)%nat; [apply orderly_fail|by apply orderly_ret]. }
  intros found. eapply (orderly_seq _ _ _ (fun _ l => G l /\ quiet l)); [by apply orderly_modify|]. intros u2.
  apply orderly_set_get; [by intros s c <-|]. intros s c Hs. cbn [set_Snapshot MgmtUpdate.Snapshot]. rewrite Hs. unfold take_snapshot.
  eapply (orderly_seq _ _ _ (fun _ l => begun l /\ ran snapshot_argv l)).
  { apply (orderly_command snapshot_argv).
    - intros l out err [Hg Hq]. cbn. split_and!; [intros _; by apply HGb|done|]. intros _. destruct Hg. by split_and!.
    - intros l out [Hg Hq]. split; [apply (grows l [_]); by apply HGb|]. exists out. apply elem_of_cons. by left. }
  intros u3. apply orderly_st. intros s' c' Hs'.
  eapply orderly_post; [|apply (tame_each _ _ _ (fun l => begun l /\ ran snapshot_argv l))].
  - by intros u l [_ ?].
  - intros ds. apply tame_run_; [apply _|]. intros l out err [? _]. by_form.
Qed.

Lemma orderly_Checkpoint : orderly (fun _ => True) (Checkpoint id)
  (fun _ l => ran snapshot_argv l /\ recorded (fun s => ProductionChanged s = true /\ Phase s = "checkpoint_ready") l).
Proof.
  unfold Checkpoint. eapply (orderly_seq _ _ _ (fun _ _ => True)); [eapply orderly_post; [|apply orderly_check]; done|]. intros u1.
  eapply (orderly_seq _ _ _ (fun _ _ => True)); [by apply orderly_modify|]. intros u2.
  eapply (orderly_seq _ _ _ (fun _ _ => True)); [apply (calm_capture (fun s _ => OperationID s = id) ltac:(done) (fun _ => True))|]. intros u3.
  eapply (orderly_seq _ _ _ (fun _ => begun)); [by apply orderly_write_checkpoint|]. intros u4.
  eapply orderly_seq; [apply orderly_fence|]. intros u5.
  apply orderly_assoc. eapply (orderly_seq _ _ _ (fun _ l => gated_by l /\ recorded named l)).
  { eapply orderly_pre; [|apply orderly_frame; [apply _|apply orderly_record]]; [by intros l [? ?]|].
    intros s Hs. split; [exact Hs|reflexivity]. }
  intros u6. eapply orderly_seq; [apply orderly_snapshot|]. intros u7.
  eapply (orderly_pre _ (fun l => ran snapshot_argv l /\ True)); [by intros l|].
  apply orderly_frame; [apply _|apply orderly_record].
  intros s Hs. by split_and!.
Qed.
End Taking.

(** Taking a checkpoint: until the checkpoint's file is durable nothing
    that runs is disturbed; the snapshot is taken only of a stack seen stopped
    since it last ran, with both startup gates naming the operation and a
    durable file naming the snapshot; nothing is started, mounted, rolled back
    or destroyed; and success means that the snapshot was taken and that a
    durable file says so. *)
Theorem checkpoint_ordered `{Semver} `{YAML} `{Linux} (id : string) (w : W) :
  let '(r, w') := Checkpoint id w in
  exists l, trace w' = l ++ trace w /\ Ordered (allowed_taking id) l /\
    (r = Ok tt -> ran (snapshot_argv id) l /\
       recorded id (fun s => ProductionChanged s = true /\ Phase s = "checkpoint_ready") l).
Proof.
  destruct (Checkpoint id w) as [r w'] eqn:E. unfold Checkpoint in E. destruct (operationID id) eqn:Hid.
  2:{ cbn in E. injection E as <- <-. exists []. split_and!; [done|constructor|done]. }
  set (w0 := set_st (fresh_status id) w).
  assert (E0 : Checkpoint id w0 = (r, w')) by (unfold Checkpoint; rewrite Hid; exact E).
  destruct (orderly_run _ _ _ _ _ _ _ _ (orderly_Checkpoint id (trace w0)) eq_refl E0) as (_ & l & Ht & Ho & HQ).
  exists l. split_and!; [done|done|]. by intros ->.
Qed.

(** ** Restoring one *)

Section Restoring.
Context `{Semver} `{YAML} `{Linux}.

Definition no_removal (l : list event) : Prop := forall path ok, ERemove path ok ∉ l.

Lemma no_removal_app l1 l2 : no_removal l1 -> no_removal l2 -> no_removal (l1 ++ l2).
Proof. intros H1' H2' p ok [Hin|Hin]%elem_of_app; [by eapply H1'|by eapply H2']. Qed.

(** A backend operation that removes no file and leaves the checkpoints. *)
Definition removes_nothing (m : cmd unit) : Prop := forall w,
  checkpoints (m w).2 = checkpoints w /\ st (m w).2 = st w /\ exists l, trace (m w).2 = l ++ trace w /\ no_removal l.


Lemma allowed_no_removal s l : Ordered (allowed s) l -> no_removal l.
Proof.
  intros Ho p ok Hin. apply list_elem_of_split in Hin as (l1 & l2 & ->). exact (Ordered_elem _ _ _ _ Ho).
Qed.
Lemma restore_removes_nothing : removes_nothing RestoreBackend.
Proof.
  intros w. destruct (RestoreBackend w) as [r w'] eqn:E.
  destruct (orderly_run _ _ _ _ _ _ _ _ (orderly_RestoreBackend (st w) (checkpoints w) (trace w)) (conj eq_refl eq_refl) E)
    as ([Hst Hc] & l & Ht & Ho & _).
  split_and!; [done|done|]. exists l. split; [done|by eapply allowed_no_removal].
Qed.
Lemma healthy_removes_nothing : removes_nothing HealthyBackend.
Proof.
  intros w. destruct (HealthyBackend w) as [r w'] eqn:E.
  set (keeps := fun (e : event) (_ : list event) => match e with ERemove _ _ => False | _ => True end).
  assert (Hm : tame keeps (fixed (st w) (checkpoints w)) (trace w) (fun _ => True) HealthyBackend).
  { apply tame_get. intros w0. by apply tame_readiness. }
  destruct (orderly_run _ _ _ _ _ _ _ _ Hm (conj eq_refl eq_refl) E) as ([Hst Hc] & l & Ht & Ho & _).
  split_and!; [done|done|]. exists l. split; [done|]. intros p ok Hin. apply list_elem_of_split in Hin as (l1 & l2 & ->).
  exact (Ordered_elem _ _ _ _ Ho).
Qed.
End Restoring.

Lemma authorize_extends `{Semver} `{YAML} `{Linux} w : exists l, trace (AuthorizeBackend w).2 = l ++ trace w.
Proof.
  destruct (AuthorizeBackend w) as [r w'] eqn:E.
  assert (Hm : tame (fun _ _ => True) (fun _ _ => True) (trace w) (fun _ => True) AuthorizeBackend).
  { unfold AuthorizeBackend. apply tame_st. intros s c _. apply tame_bind; [apply tame_check|]. intros u1. cbv zeta.
    apply tame_bind; [apply tame_read|]. intros b. apply tame_bind; [apply tame_result|]. intros doc.
    apply tame_bind; [apply tame_result|]. intros b'. apply tame_bind; [by apply tame_write|]. intros u2. apply tame_get. intros w0.
    apply tame_bind; [|intros u3; apply tame_bind; [by apply tame_remove|intros u4; apply tame_bind; [by apply tame_remove|intros u5; by apply tame_run_]]].
    apply tame_each. intros name. apply tame_bind; [by apply tame_run|]. intros ids. apply tame_each. intros i. by apply tame_run_. }
  destruct (orderly_run _ _ _ _ _ _ _ _ Hm I E) as (_ & l & Ht & _). by exists l.
Qed.

(** The stages a restore has passed when it opens production. *)
Definition restored_and_healthy `{Semver} `{YAML} `{Linux} (s : Status) (w w3 : W) : Prop :=
  exists w2, RestoreBackend (set_st s w) = (Ok tt, w2) /\ HealthyBackend w2 = (Ok tt, w3).

(** Restoring a checkpoint opens production last: without a readable
    checkpoint file nothing happens at all; otherwise either no startup gate is
    removed, or the checkpoint was restored, then found healthy, then the
    authorization was made durable in the checkpoint's file before the backend
    acted on it; and only that is success. *)
Theorem restore_checkpoint_contract `{Semver} `{YAML} `{Linux} (id : string) (w : W) :
  let '(r, w') := RestoreCheckpoint id w in
  match (if operationID id then default Absent (checkpoints w !! id) else Absent) with
  | Content s =>
      exists l, trace w' = l ++ trace w /\
        ((no_removal l /\ r <> Ok tt) \/
         exists w3 w4, restored_and_healthy s w w3 /\ write_checkpoint id (set_st (set_Authorized true (st w3)) w3) = (Ok tt, w4) /\
           checkpoints w4 !! id = Some (Content (set_Authorized true s)) /\ AuthorizeBackend w4 = (r, w'))
  | _ => w' = w /\ r <> Ok tt
  end.
Proof.
  unfold RestoreCheckpoint. rewrite bind_run. unfold checkpoint. destruct (operationID id); [|done]. cbn [negb].
  destruct (default Absent (checkpoints w !! id)) as [| |s] eqn:Ec; [done|done|]. set (w1 := set_st s w). rewrite bind_run.
  destruct (restore_removes_nothing w1) as (Hc2 & Hs2 & l2 & Ht2 & Hn2).
  destruct (RestoreBackend w1) as [[[]|e] w2] eqn:E2; cbn [snd] in *.
  2:{ exists l2. split; [done|]. by left. }
  rewrite bind_run. destruct (healthy_removes_nothing w2) as (Hc3 & Hs3 & l3 & Ht3 & Hn3).
  destruct (HealthyBackend w2) as [[[]|e] w3] eqn:E3; cbn [snd] in *.
  2:{ exists (l3 ++ l2). split; [by rewrite Ht3, Ht2, app_assoc|]. left. split; [by apply no_removal_app|done]. }
  unfold authorize. rewrite bind_run. change (modify_st (set_Authorized true) w3) with (Ok (E:=string) tt, set_st (set_Authorized true (st w3)) w3).
  cbv iota beta. set (w3' := set_st (set_Authorized true (st w3)) w3). rewrite bind_run.
  destruct (write_checkpoint id w3') as [r4 w4] eqn:E4. pose proof E4 as E4'. unfold write_checkpoint in E4'.
  pose proof (WriteFile_content (write (trace w3')) (st w3') (default Absent (checkpoints w3' !! id))) as Hw.
  destruct (WriteFile _ _ _) as [ok f]. injection E4' as Hr4 Hw4. destruct ok; cbn [fst snd] in Hw.
  - subst r4. destruct (AuthorizeBackend w4) as [r w'] eqn:E5. 
    assert (Hx : exists l, trace w' = l ++ trace w).
    { destruct (authorize_extends w4) as [l4 Ht4]. rewrite E5, <- Hw4 in Ht4. cbn in Ht4.
      exists (l4 ++ ECheckpoint id (st w3') true :: l3 ++ l2). rewrite Ht4, Ht3, Ht2. cbn. rewrite <- !app_assoc. cbn. by rewrite <- !app_assoc. }
    destruct Hx as [l Hl]. exists l. split; [done|]. right. exists w3, w4. split_and!; [by exists w2|done| |done].
    rewrite <- Hw4. cbn. rewrite lookup_insert_eq, (Hw eq_refl). cbn. by rewrite Hs3, Hs2.
  - subst r4. cbn iota. rewrite <- Hw4. exists (ECheckpoint id (st w3') false :: l3 ++ l2).
    split; [cbn; by rewrite Ht3, Ht2, app_assoc|]. left. split; [|done].
    intros p ok [Hin|Hin]%elem_of_cons; [done|]. exact (no_removal_app _ _ Hn3 Hn2 _ _ Hin).
Qed.

(** ** A checkpoint that left no file *)

Lemma capture_keeps_checkpoints `{Semver} `{YAML} `{Linux} w : checkpoints (capture w).2 = checkpoints w.
Proof.
  destruct (capture w) as [r w'] eqn:E.
  pose proof (calm_capture "" (trace w) (fun _ c => c = checkpoints w) ltac:(done) (fun _ => True)) as Hm.
  by destruct (orderly_run _ _ _ _ _ _ _ _ Hm eq_refl E) as (Hc & _).
Qed.

(** C14. A checkpoint that fails while it captures the running system leaves no
    file; from then on every restore of that checkpoint fails and changes
    nothing, although management was never touched: the host updater that calls
    it can never finish its recovery. *)
Theorem missing_checkpoint_wedges `{Semver} `{YAML} `{Linux} (id : string) (w : W)
  (Habsent : default Absent (checkpoints w !! id) = Absent)
  (Hfail : is_ok (capture (set_st (fresh_status id) w)).1 = false) :
  let w1 := (Checkpoint id w).2 in
  is_ok (Checkpoint id w).1 = false /\
  (exists e, RestoreCheckpoint id w1 = (Err e, w1)) /\ default Absent (checkpoints w1 !! id) = Absent.
Proof.
  cbv zeta. unfold Checkpoint. rewrite !bind_run. unfold check. destruct (operationID id) eqn:Hid.
  - change (ret tt w) with (Ok (E:=string) tt, w). cbv iota beta. rewrite !bind_run.
    change (modify_st (fun _ => fresh_status id) w) with (Ok (E:=string) tt, set_st (fresh_status id) w). cbv iota beta.
    rewrite !bind_run. pose proof (capture_keeps_checkpoints (set_st (fresh_status id) w)) as Hc.
    destruct (capture (set_st (fresh_status id) w)) as [[[]|e] w1]; [done|]. cbn [snd fst] in *. cbn in Hc.
    split_and!; [done| |by rewrite Hc]. exists not_exist. unfold RestoreCheckpoint. rewrite bind_run. unfold checkpoint.
    rewrite Hid. cbn [negb]. by rewrite Hc, Habsent.
  - cbn [fail fst snd]. split_and!; [done| |done]. eexists. unfold RestoreCheckpoint. rewrite bind_run. unfold checkpoint. by rewrite Hid.
Qed.

(** On the sample system the controller does not answer [--release-info] with
    a version, so that capturing fails. *)
Lemma missing_checkpoint_wedges_witness :
  let w1 := (@Checkpoint major_semver sample_yaml rig "op1" (rig_world "")).2 in
  exists e, @RestoreCheckpoint sample_yaml rig "op1" w1 = (Err e, w1).
Proof.
  exact (proj1 (proj2 (@missing_checkpoint_wedges major_semver sample_yaml rig "op1" (rig_world "")
    ltac:(reflexivity) ltac:(vm_compute; reflexivity)))).
Defined.
