(* ===== verification/MgmtSandbox.v ===== *)
(** The sandbox in which a candidate release is tried before production is
    touched: [Preflight] of [src/internal/managementupdate/sandbox.go], and the
    manager's [PreflightCheckpoint].  The candidate runs on clones of the
    management datasets, in a Compose project and an internal network of its
    own, behind a firewall table. *)
From S2P Require Import Prelude TraceLogic Timestamp Release Update GoStrings CoreStack MgmtUpdate MgmtLinux MgmtLinuxSafety MgmtCheckpoint.
From stdpp Require Import pretty.
From Stdlib Require Import Ascii.

Open Scope string_scope.
Open Scope list_scope.

(** What the sandbox needs of the host besides commands: files that are only
    read, random bytes in hexadecimal, a listening probe, and the encoding of
    flat JSON objects. *)
Class SandboxHost := {
  meminfo : list event -> option string;
  workloads_exist : list event -> option bool;
  appliance_node : list event -> option string;
  secret : list event -> option string;
  listen : list event -> option string;
  parse_ip : string -> bool;
  json_object : list (string * string) -> string }.

(** ** Memory *)

Definition sandboxServiceMemory : Z := 384 * 2 ^ 20.

Fixpoint check_memory (rows : list string) : result string unit :=
  match rows with
  | [] => Err "MemAvailable unavailable; refusing to risk production memory"
  | line :: rows =>
      match Fields line with
      | [name; amount; unit] =>
          if bool_decide (name = "MemAvailable:") && bool_decide (unit = "kB") then
            match ParseUint amount with
            | None => Err "parse"
            | Some available =>
                if (available <? (4 * sandboxServiceMemory + 512 * 2 ^ 20) / 1024)%Z
                then Err "preflight needs 1536 MiB sandbox memory plus 512 MiB host headroom" else Ok tt
            end
          else check_memory rows
      | _ => check_memory rows
      end
  end.
Definition checkSandboxMemory (text : string) : result string unit := check_memory (Lines text).

(** ** The project *)

Definition quoted (s : string) : string := let q := String.String (ascii_of_nat 34) "" in q +:+ s +:+ q.
(** [sandboxFirewallRules], on names that need no escapes. *)
Definition sandboxFirewallRules (table bridge : string) : string :=
  GoStrings.Join ["table inet " +:+ table +:+ " {"; " chain input {"; "  type filter hook input priority -200; policy accept;";
     "  iifname " +:+ quoted bridge +:+ " drop"; " }"; " chain forward {";
     "  type filter hook forward priority -200; policy accept;";
     "  iifname " +:+ quoted bridge +:+ " oifname != " +:+ quoted bridge +:+ " drop"; " }"; "}"; ""] newline.

Definition obj (l : list (string * Value)) : Value := VMap (list_to_map l).
Definition strs (l : list string) : Value := VList (VStr <$> l).
Definition bind_mount (source target : string) (extra : list (string * Value)) : Value :=
  obj ([("type", VStr "bind"); ("source", VStr source); ("target", VStr target)] ++ extra).

(** What every service of the sandbox has. *)
Definition sandbox_service (image : string) (own : list (string * Value)) : object :=
  list_to_map (own ++
    [("image", VStr image); ("restart", VStr "no"); ("networks", strs ["sandbox"]); ("dns", strs ["127.0.0.1"]);
     ("cap_drop", strs ["ALL"]); ("security_opt", strs ["no-new-privileges:true"]); ("pids_limit", VScalar "256");
     ("mem_limit", VScalar (pretty sandboxServiceMemory)); ("memswap_limit", VScalar (pretty sandboxServiceMemory));
     ("environment", obj [("GOMEMLIMIT", VStr "288MiB")]); ("cpus", VScalar "1");
     ("sysctls", obj [("net.ipv6.conf.all.disable_ipv6", VStr "1")])]).

(** [sandboxCompose]; [directory] holds the identity and the workload copy. *)
Definition sandbox_services (s : Status) (root directory nodeID : string) : list (string * object) :=
  let image := fun name => default "" (Images (TheManifest (Capture s)) !! name) in
  let own := fun name target => bind_mount ("/" +:+ root +:+ "/" +:+ name) target [] in
  [("rqlite", sandbox_service (image "rqlite")
      [("command", strs ["-node-id=" +:+ nodeID; "-raft-addr=rqlite:4002"; "-raft-adv-addr=rqlite:4002"]);
       ("volumes", VList [own "rqlite" "/rqlite/file"]);
       ("healthcheck", obj [("test", strs ["CMD-SHELL"; "wget -qO- http://localhost:4001/readyz"]); ("interval", VStr "2s");
                            ("timeout", VStr "5s"); ("retries", VScalar "60")])]);
   ("victoria-metrics", sandbox_service (image "victoria-metrics")
      [("command", strs ["-storageDataPath=/victoria-metrics-data"; "-retentionPeriod=90d"; "-memory.allowedBytes=96MiB"]);
       ("volumes", VList [own "victoria-metrics" "/victoria-metrics-data"])]);
   ("victoria-logs", sandbox_service (image "victoria-logs")
      [("command", strs ["-storageDataPath=/victoria-logs-data"; "-retentionPeriod=30d"; "-memory.allowedBytes=96MiB"]);
       ("volumes", VList [own "victoria-logs" "/victoria-logs-data"])]);
   ("floatlab-control", sandbox_service (image "floatlab-control")
      [("user", VStr "0:0");
       ("depends_on", obj [("rqlite", obj [("condition", VStr "service_healthy")]);
                           ("victoria-metrics", obj [("condition", VStr "service_started")]);
                           ("victoria-logs", obj [("condition", VStr "service_started")])]);
       ("command", strs ["--preflight"; "--workload-db=/var/lib/floatlab/workloads/local.sqlite"; "--listen=:8080";
          "--rqlite-url=http://rqlite:4001"; "--raft-id=" +:+ nodeID; "--raft-bind=0.0.0.0:7000";
          "--raft-advertise=floatlab-control:7000"; "--raft-data=/var/lib/floatlab/raft";
          "--vlogs-url=http://victoria-logs:9428"; "--vmetrics-url=http://victoria-metrics:8428";
          "--host-node-id=" +:+ nodeID; "--host-socket=/run/preflight/hostd.sock"]);
       ("environment", obj [("GOMEMLIMIT", VStr "288MiB"); ("FLOATLAB_APPLIANCE_CONFIG", VStr "/config/appliance.json");
                            ("FLOATLAB_UPDATE_RELEASE", VStr (TargetRelease s))]);
       ("volumes", VList [own "raft" "/var/lib/floatlab/raft";
          bind_mount (directory +:+ "/appliance.json") "/config/appliance.json" [("read_only", VBool true)];
          bind_mount "/run/floatlab/preflight" "/run/preflight" [("read_only", VBool true)];
          bind_mount (directory +:+ "/workloads") "/var/lib/floatlab/workloads" []])])].
Definition sandboxCompose (s : Status) (root directory nodeID network : string) : object :=
  list_to_map [("services", VMap (VMap <$> list_to_map (sandbox_services s root directory nodeID)));
    ("networks", obj [("sandbox", obj [("external", VBool true); ("name", VStr network)])])].

(** ** The trial *)

Section Preflight.
Context `{Semver} `{YAML} `{Linux} `{SandboxHost}.

Definition of_env {A} (f : list event -> option A) (e : string) : cmd A := fun w =>
  (match f (trace w) with Some a => Ok a | None => Err e end, w).
Definition test_project (id : string) : string := "floatlab-test-" +:+ ToLower id.
Definition test_network (id : string) : string := test_project id +:+ "-isolated".
Definition test_directory (id : string) : string := path_in id.
Definition test_compose (id : string) : string := test_directory id +:+ "/preflight.yml".
Definition rules_path (id : string) : string := test_directory id +:+ "/isolation.nft".
Definition workload_copy (id : string) : string := test_directory id +:+ "/workloads/local.sqlite".
(** Names drawn from the first five random bytes. *)
Definition bridge_name (hex : string) : string := "ft" +:+ str (take 10 (chars hex)).
Definition table_name (hex : string) : string := "floatlab_" +:+ str (take 10 (chars hex)).

Definition network_create (id hex : string) : list string :=
  ["docker"; "network"; "create"; "--internal"; "--driver"; "bridge"; "--opt";
   "com.docker.network.bridge.name=" +:+ bridge_name hex; "--ipv6=false"; test_network id].
Definition network_rm (id : string) : list string := ["docker"; "network"; "rm"; test_network id].
Definition nft_load (id : string) : list string := ["nft"; "-f"; rules_path id].
Definition nft_list (hex : string) : list string := ["nft"; "list"; "table"; "inet"; table_name hex].
Definition nft_delete (hex : string) : list string := ["nft"; "delete"; "table"; "inet"; table_name hex].
Definition test_up (id : string) : list string :=
  compose_argv (test_compose id) (test_project id) ["up"; "-d"; "--pull"; "never"].

(** [strings.ReplaceAll(path, "'", "''")] *)
Definition sql_quoted (s : string) : string := str (flat_map (fun c => if Ascii.eqb c "'" then [c; c] else [c]) (chars s)).

Definition clone_dataset (s : Status) (ds : Dataset) : cmd unit :=
  let target := tests_root +:+ OperationID s +:+ TrimPrefix (Name ds) managementDataset in
  run_ ["zfs"; "clone"; "-o"; "mountpoint=/" +:+ target; Name ds +:+ "@floatlab-preflight-" +:+ OperationID s; target].

Definition test_argv (s : Status) (id hostProbe persistence : string) : list string :=
  ["docker"; "exec"; id; "/usr/local/bin/floatlab-control"; "--self-test"; "--isolation-test";
   "--isolation-probe=" +:+ hostProbe; "--self-test-token=" +:+ OperationID s; "--self-test-persistence=" +:+ persistence;
   "--expected-release=" +:+ Version (TheManifest (Capture s)); "--host-socket=/run/preflight/hostd.sock";
   "--rqlite-url=http://rqlite:4001"; "--vlogs-url=http://victoria-logs:9428"; "--vmetrics-url=http://victoria-metrics:8428"].

(** [runTests]: every three seconds until the deadline. *)
Fixpoint runTests (fuel : nat) (deadline : Z) (s : Status) (hostProbe persistence : string) : cmd unit :=
  match fuel with
  | O => fail "out of fuel"
  | S fuel =>
      ids ← attempt (run ["docker"; "ps"; "-q"; "--filter"; "label=com.docker.compose.project=" +:+ test_project (OperationID s);
                          "--filter"; "label=com.docker.compose.service=floatlab-control"]);
      r ← (match ids with
           | Ok ids => if decide (TrimSpace ids = "") then ret (Err "candidate control container is not running")
                       else attempt (run (test_argv s (TrimSpace ids) hostProbe persistence))
           | Err e => ret (Err e)
           end);
      match r with
      | Ok _ => ret tt
      | Err e =>
          w ← get;
          if cancelled (trace w) || (deadline <=? now (trace w))%Z then fail "preflight failed"
          else
            wait 3000000000;;
            w ← get;
            if cancelled (trace w) || (deadline <=? now (trace w))%Z then fail "preflight failed"
            else runTests fuel deadline s hostProbe persistence
      end
  end.
Definition tests_fuel : nat := 102.

(** [net.JoinHostPort] *)
Definition join_host_port (host port : string) : string :=
  if GoStrings.Contains host ":" then "[" +:+ host +:+ "]:" +:+ port else host +:+ ":" +:+ port.

(** From the creation of the network on, under the deferred clean-up. *)
Definition confined (deadline : Z) (s : Status) (node hex : string) : cmd unit :=
  let id := OperationID s in
  run (network_create id hex);;
  port ← of_env listen "listen";
  gateway ← attempt (run ["docker"; "network"; "inspect"; "--format"; "{{(index .IPAM.Config 0).Gateway}}"; test_network id]);
  gateway ← (match gateway with
             | Ok g => if parse_ip g then ret g else fail "sandbox gateway unavailable"
             | Err _ => fail "sandbox gateway unavailable"
             end);
  let hostProbe := join_host_port gateway port in
  write_file (rules_path id) (sandboxFirewallRules (table_name hex) (bridge_name hex));;
  run (nft_load id);;
  run (nft_list hex);;
  b ← of_result (marshal (sandboxCompose s (tests_root +:+ id) (test_directory id) node (test_network id)));
  write_file (test_compose id) b;;
  run (test_up id);;
  runTests tests_fuel deadline s hostProbe "write";;
  MgmtLinux.compose (test_compose id) (test_project id) ["stop"; "--timeout"; "30"];;
  run (test_up id);;
  runTests tests_fuel deadline s hostProbe "verify".

(** The first error stays the result. *)
Definition keep (so_far r : result string unit) : result string unit := match so_far with Ok _ => r | Err e => Err e end.
Definition teardown (id hex : string) (outcome : result string unit) : cmd unit :=
  w ← get;
  so_far ← (match default Absent (files w !! test_compose id) with
            | Absent => ret outcome
            | _ => r ← attempt (MgmtLinux.compose (test_compose id) (test_project id) ["down"; "--timeout"; "20"]); ret (keep outcome r)
            end);
  r ← attempt (run_ (network_rm id));
  let so_far := keep so_far r in
  r ← attempt (run_ (nft_delete hex));
  of_result (keep so_far r).

(** Everything before the deferred clean-up is installed. *)
Definition prepare_sandbox (s : Status) : cmd (string * string) :=
  let id := OperationID s in
  text ← of_env meminfo "meminfo";
  of_result (checkSandboxMemory text);;
  take_snapshot ("floatlab-preflight-" +:+ id) false;;
  r ← attempt (run ["zfs"; "create"; "-p"; "-o"; "mountpoint=none"; "floatlab/system/update-tests"]);
  (match r with
   | Ok _ => ret tt
   | Err e => c ← attempt (run ["zfs"; "list"; "floatlab/system/update-tests"]);
              match c with Ok _ => ret tt | Err _ => fail e end
   end);;
  each (clone_dataset s) (Datasets (Capture s));;
  w ← get;
  check (mkdir_ok (trace w)) "mkdir";;
  MgmtLinux.remove (workload_copy id);;
  live ← of_env workloads_exist "stat";
  (if live : bool then
     run_ ["sqlite3"; "-readonly"; "/floatlab/system/workloads/local.sqlite"; "VACUUM INTO '" +:+ sql_quoted (workload_copy id) +:+ "'"]
   else ret tt);;
  node ← of_env appliance_node "invalid appliance identity";
  check (negb (bool_decide (node = ""))) "invalid appliance identity";;
  hex ← of_env secret "random";
  write_file (test_directory id +:+ "/appliance.json")
    (json_object [("jwt_secret", hex); ("node_id", node); ("node_name", "preflight")]);;
  write_file (test_directory id +:+ "/sandbox.json") (json_object [("network", test_network id); ("table", table_name hex)]);;
  ret (node, hex).

Definition PreflightBackend : cmd unit :=
  w ← get;
  let deadline := (now (trace w) + 300000000000)%Z in
  s ← get_st;
  names ← prepare_sandbox s;
  r ← attempt (confined deadline s names.1 names.2);
  teardown (OperationID s) names.2 r.

(** [PreflightCheckpoint]: the installed release is tried as if it were the
    candidate, and what the trial made is removed whatever its outcome. *)
Definition PreflightCheckpoint (id : string) : cmd unit :=
  check (operationID id) "invalid operation ID";;
  modify_st (fun _ => mkStatus "" false id "" "" "" "" "" "" 0 0 empty_captured "" false ∅ false "");;
  capture;;
  s ← get_st;
  doc ← of_result (composeDocument (PreviousCompose (Capture s)));
  modify_capture (fun c =>
    let m := TheManifest c in
    mkCaptured (SourceRelease c)
      (mkManifest (Version m) (Architecture m) (RequiredHost m) (omap (fun svc : object => svc !! "image" ≫= as_string) (services doc))
         (RQLiteSources m) (RQLiteVersion m))
      (PreviousCompose c) (CandidateCompose c) (Datasets c) (Policies c));;
  e ← attempt PreflightBackend;
  c ← attempt CleanupBackend;
  of_result (match e with Ok _ => c | Err m => Err (match c with Ok _ => m | Err n => m +:+ newline +:+ n end) end).
End Preflight.

(** * Properties *)

(** Commands on the running management or on the units that start it. *)
Definition on_production (argv : list string) : bool :=
  match argv with
  | "systemctl" :: _ => true
  | "docker" :: "update" :: _ => true
  | "docker" :: "compose" :: "-p" :: p :: _ => bool_decide (p = "floatlab-system")
  | _ => false
  end.

Lemma test_project_ne id : test_project id <> "floatlab-system".
Proof. unfold test_project. intros He. apply (f_equal (fun s => take 10 (chars s))) in He. by rewrite chars_app in He. Qed.

Section Trial.
Context `{Semver} `{YAML} `{Linux} `{SandboxHost} (s : Status).
Abbreviation id := (OperationID s).

(** The network is internal, and its traffic was filtered and seen filtered. *)
Definition isolated (l : list event) : Prop := exists hex,
  ran (network_create id hex) l /\
  EWrite (rules_path id) (sandboxFirewallRules (table_name hex) (bridge_name hex)) true ∈ l /\
  ran (nft_load id) l /\ ran (nft_list hex) l.
(** The project is the sandbox's. *)
Definition composed (l : list event) : Prop := exists node b,
  marshal (sandboxCompose s (tests_root +:+ id) (test_directory id) node (test_network id)) = Ok b /\
  EWrite (test_compose id) b true ∈ l.
(** What a later clean-up needs to know is on disk. *)
Definition identified (hex : string) (l : list event) : Prop :=
  EWrite (test_directory id +:+ "/sandbox.json") (json_object [("network", test_network id); ("table", table_name hex)]) true ∈ l.

Definition preflight_snapshot : list string := ["zfs"; "snapshot"; "-r"; managementDataset +:+ "@floatlab-preflight-" +:+ id].

Definition allowed_trial (e : event) (past : list event) : Prop :=
  match e with
  | ERun argv _ _ =>
      on_production argv = false /\
      (touches_data argv = true -> argv = preflight_snapshot) /\
      (zfs_verb argv = "clone" -> exists t, last argv = Some (tests_root +:+ id +:+ t)) /\
      (starts argv = true -> argv = test_up id /\ isolated past /\ composed past) /\
      (forall hex, argv = network_create id hex -> identified hex past)
  | EWrite path _ _ => HasPrefix path (test_directory id +:+ "/") = true
  | ERemove path _ => path = workload_copy id
  | _ => True
  end.

Variables (cs : gmap string (file Status)) (base : list event).
Abbreviation orderly := (TraceLogic.orderly (E:=string) trace allowed_trial (inv_st (fixed s cs)) base).
Abbreviation calm := (tame allowed_trial (fixed s cs) base).

#[export] Instance growing_isolated : Growing isolated.
Proof.
  intros l l' (hex & H1' & H2' & H3' & H4'). exists hex. split_and!; [by apply grows|apply elem_of_app; by right|by apply grows|by apply grows].
Qed.
#[export] Instance growing_trial_composed : Growing composed.
Proof. intros l l' (node & b & Hb & Hin). exists node, b. split; [done|apply elem_of_app; by right]. Qed.
#[export] Instance growing_identified hex : Growing (identified hex).
Proof. intros l l' Hin. apply elem_of_app. by right. Qed.

(** A command of no concern to the trial's rules. *)
Definition plain_argv (argv : list string) : bool :=
  negb (on_production argv) && negb (touches_data argv) && negb (starts argv) && negb (bool_decide (zfs_verb argv = "clone")) &&
  match argv with "docker" :: "network" :: "create" :: _ => false | _ => true end.
Lemma plain_allowed argv out err l : plain_argv argv = true -> allowed_trial (ERun argv out err) l.
Proof.
  unfold plain_argv. intros Hp. to_prop. cbn. split_and!; [done|congruence|done|congruence|]. by intros hex ->.
Qed.
Lemma plain_compose id' verb args : verb <> "up" -> plain_argv (compose_argv (test_compose id') (test_project id') (verb :: args)) = true.
Proof.
  intros Hv. unfold plain_argv. cbn. rewrite bool_decide_eq_false_2 by apply test_project_ne.
  unfold starts. cbn. by rewrite bool_decide_eq_false_2.
Qed.

Section Calm.
Context (P : list event -> Prop) `{!Growing P}.
Lemma calm_run argv : plain_argv argv = true -> calm P (run argv).
Proof. intros Hp. apply tame_run; [done|]. intros. by apply plain_allowed. Qed.
Lemma calm_run_ argv : plain_argv argv = true -> calm P (run_ argv).
Proof. intros Hp. apply tame_run_; [done|]. intros. by apply plain_allowed. Qed.
Lemma calm_env {A} (f : list event -> option A) e : calm P (of_env f e).
Proof. apply orderly_silent; [done|]. intros w. split; [done|]. unfold of_env. cbn. by destruct (f (trace w)). Qed.
Lemma calm_tests fuel deadline probe persistence : calm P (runTests fuel deadline s probe persistence).
Proof.
  induction fuel as [|fuel IH]; cbn [runTests]; [apply tame_fail|].
  apply tame_bind; [by apply tame_attempt, calm_run|]. intros ids. apply tame_bind.
  { destruct ids as [ids|e]; [|apply tame_ret]. destruct (decide _); [apply tame_ret|]. by apply tame_attempt, calm_run. }
  intros [a|e]; [apply tame_ret|]. apply tame_get. intros w. destruct (_ || _); [apply tame_fail|].
  apply tame_bind; [by apply tame_wait|]. intros u. apply tame_get. intros w'. destruct (_ || _); [apply tame_fail|apply IH].
Qed.
End Calm.

Lemma HasPrefix_app a b : HasPrefix (a +:+ b) a = true.
Proof. unfold HasPrefix. rewrite chars_app. apply has_prefix_app. eauto. Qed.
Lemma HasPrefix_app2 a b c : HasPrefix (a +:+ b +:+ c) (a +:+ b) = true.
Proof. unfold HasPrefix. rewrite !chars_app, app_assoc. apply has_prefix_app. eauto. Qed.

Lemma orderly_trial_write path data P (Q : list event -> Prop) : HasPrefix path (test_directory id +:+ "/") = true ->
  (forall l, P l -> Q (EWrite path data true :: l)) -> orderly P (write_file path data) (fun _ => Q).
Proof. intros Hp HQ. by apply orderly_write. Qed.

Lemma orderly_prepare : orderly (fun _ => True) (prepare_sandbox s) (fun names => identified names.2).
Proof.
  unfold prepare_sandbox. cbv zeta. set (T := fun _ : list event => True).
  assert (Hr : forall argv, plain_argv argv = true -> calm T (run argv)) by (intros; by apply calm_run).
  eapply (orderly_seq _ _ _ (fun _ => T)); [by apply calm_env|]. intros text.
  eapply (orderly_seq _ _ _ (fun _ => T)); [by apply tame_result|]. intros u1.
  eapply (orderly_seq _ _ _ (fun _ => T)).
  { unfold take_snapshot. eapply (orderly_seq _ _ _ (fun _ => T)).
    - apply tame_run; [apply _|]. intros l out err _. cbn. split_and!; [done|done|done|done|]. by intros hex [=].
    - intros a. apply tame_st. intros s' c _. apply tame_ret. }
  intros u2. eapply (orderly_seq _ _ _ (fun _ => T)); [by apply tame_attempt, Hr|]. intros r.
  eapply (orderly_seq _ _ _ (fun _ => T)).
  { destruct r as [a|e]; [apply tame_ret|]. apply tame_bind; [by apply tame_attempt, Hr|]. intros [a|e']; [apply tame_ret|apply tame_fail]. }
  intros u3. eapply (orderly_seq _ _ _ (fun _ => T)).
  { apply tame_each. intros ds. unfold clone_dataset. cbv zeta. apply tame_run_; [apply _|]. intros l out err _. cbn. split_and!; try done.
    intros _. by eexists. }
  intros u4. apply orderly_get. intros w _.
  eapply (orderly_seq _ _ _ (fun _ => T)); [by apply tame_check|]. intros u5.
  eapply (orderly_seq _ _ _ (fun _ => T)); [by apply tame_remove; [apply _|]|]. intros u6.
  eapply (orderly_seq _ _ _ (fun _ => T)); [by apply calm_env|]. intros live.
  eapply (orderly_seq _ _ _ (fun _ => T)); [destruct live; [by apply calm_run_|apply tame_ret]|]. intros u7.
  eapply (orderly_seq _ _ _ (fun _ => T)); [by apply calm_env|]. intros node.
  eapply (orderly_seq _ _ _ (fun _ => T)); [by apply tame_check|]. intros u8.
  eapply (orderly_seq _ _ _ (fun _ => T)); [by apply calm_env|]. intros hex.
  eapply (orderly_seq _ _ _ (fun _ => T)); [by apply orderly_trial_write; [exact (HasPrefix_app2 (test_directory id) "/" "appliance.json")|]|]. intros u9.
  eapply (orderly_seq _ _ _ (fun _ => identified hex)).
  { apply orderly_trial_write; [exact (HasPrefix_app2 (test_directory id) "/" "sandbox.json")|]. intros l _. apply elem_of_cons. by left. }
  intros u10. by apply orderly_ret.
Qed.

(** A first look at the network's name does not create it. *)
Lemma orderly_up P : (forall l, P l -> isolated l /\ composed l) -> Growing P -> calm P (run (test_up id)).
Proof.
  intros HP Hg. apply tame_run; [done|]. intros l out err Hl. cbn.
  split_and!; [|done|done|by intros _; split; [|apply HP]|by intros hex [=]].
  by rewrite bool_decide_eq_false_2 by apply test_project_ne.
Qed.

Lemma orderly_confined deadline node hex : orderly (identified hex) (confined deadline s node hex) (fun _ _ => True).
Proof.
  unfold confined. cbv zeta.
  eapply (orderly_bind _ _ _ (fun _ => ran (network_create id hex))); [apply _| |].
  { apply orderly_command.
    - intros l out err Hi. cbn. split_and!; [done|done|done|done|].
      intros hex' [= He]. unfold identified, table_name in *.
      change (str (take 10 (chars hex)) = str (take 10 (chars hex'))) in He. by rewrite <- He.
    - intros l out _. exists out. apply elem_of_cons. by left. }
  intros u1. eapply (orderly_pre _ (ran (network_create id hex))); [by intros l [_ ?]|].
  eapply (orderly_seq _ _ _ (fun _ => ran (network_create id hex))); [apply calm_env|]. intros port.
  eapply (orderly_seq _ _ _ (fun _ => ran (network_create id hex))); [apply tame_attempt; [apply _|by apply calm_run; [apply _|]]|]. intros g.
  eapply (orderly_seq _ _ _ (fun _ => ran (network_create id hex))).
  { destruct g as [g|e]; [|apply tame_fail]. destruct (parse_ip g); [apply tame_ret|apply tame_fail]. }
  intros gateway. eapply (orderly_bind _ _ _ (fun _ => elem_of (EWrite (rules_path id) (sandboxFirewallRules (table_name hex) (bridge_name hex)) true))); [apply _| |].
  { apply orderly_trial_write; [exact (HasPrefix_app2 (test_directory id) "/" "isolation.nft")|]. intros l _. apply elem_of_cons. by left. }
  intros u2. eapply (orderly_bind _ _ _ (fun _ => ran (nft_load id))); [apply _| |].
  { apply orderly_command; [intros; by apply plain_allowed|]. intros l out _. exists out. apply elem_of_cons. by left. }
  intros u3. eapply (orderly_bind _ _ _ (fun _ => ran (nft_list hex))); [apply _| |].
  { apply orderly_command; [intros; by apply plain_allowed|]. intros l out _. exists out. apply elem_of_cons. by left. }
  intros u4. eapply (orderly_pre _ isolated); [by intros l [[[? ?] ?] ?]; exists hex|].
  eapply orderly_seq; [apply orderly_result|]. intros b.
  eapply (orderly_seq _ _ _ (fun _ l => isolated l /\ composed l)).
  { apply orderly_trial_write; [exact (HasPrefix_app2 (test_directory id) "/" "preflight.yml")|]. intros l [Hi Hb]. split; [by apply (grows l [_])|].
    exists node, b. split; [done|]. apply elem_of_cons. by left. }
  intros u5. set (P := fun l => isolated l /\ composed l). assert (Hg : Growing P) by apply _.
  eapply (orderly_seq _ _ _ (fun _ => P)); [by apply orderly_up|]. intros u6.
  eapply (orderly_seq _ _ _ (fun _ => P)); [by apply calm_tests|]. intros u7.
  eapply (orderly_seq _ _ _ (fun _ => P)); [apply calm_run_; [done|by apply plain_compose]|]. intros u8.
  eapply (orderly_seq _ _ _ (fun _ => P)); [by apply orderly_up|]. intros u9.
  eapply orderly_post; [|by apply (calm_tests P)]. done.
Qed.

Lemma orderly_teardown hex outcome P : Growing P -> calm P (teardown id hex outcome).
Proof.
  intros Hg. unfold teardown. apply tame_get. intros w. apply tame_bind.
  { destruct (default Absent _); [apply tame_ret|..]; (apply tame_bind; [apply tame_attempt; [exact Hg|]; apply calm_run_; [exact Hg|by apply plain_compose]|];
      intros r; apply tame_ret). }
  intros so_far. apply tame_bind; [by apply tame_attempt; [exact Hg|]; apply calm_run_|]. intros r. cbv zeta.
  apply tame_bind; [by apply tame_attempt; [exact Hg|]; apply calm_run_|]. intros r'. apply tame_result.
Qed.

Lemma orderly_PreflightBackend : orderly (fun _ => True) PreflightBackend (fun _ _ => True).
Proof.
  unfold PreflightBackend. apply orderly_get. intros w _. cbv zeta. apply orderly_st. intros s' c [-> _].
  eapply orderly_seq; [apply orderly_prepare|]. intros [node hex]. cbn [fst snd].
  eapply (orderly_seq _ _ _ (fun _ _ => True)).
  { eapply orderly_post; [|apply orderly_attempt, orderly_confined]. done. }
  intros r. by apply (orderly_teardown hex r (fun _ => True)).
Qed.

(** ** What a trial leaves behind *)

Definition test_down : list string := compose_argv (test_compose id) (test_project id) ["down"; "--timeout"; "20"].
Definition tried (argv : list string) (l : list event) : Prop := exists out err, ERun argv out err ∈ l.
Definition compose_present (w : W) : Prop := default Absent (files w !! test_compose id) <> Absent.

(** [m] records only events that satisfy [ok], keeps the compose file where it
    is there ([b]: it is known to be there), and starts the project only where
    it is there. *)
Section Leaves.
Context (ok : event -> Prop).
Definition leaves (b : bool) {A} (m : cmd A) : Prop := forall w, (b = true -> compose_present w) ->
  exists l, trace (m w).2 = l ++ trace w /\ Forall ok l /\ (tried (test_up id) l -> compose_present (m w).2) /\
    (compose_present w -> compose_present (m w).2).

Lemma leaves_silent {A} b (m : cmd A) : (forall w, trace (m w).2 = trace w /\ files (m w).2 = files w) -> leaves b m.
Proof.
  intros Hm w _. destruct (Hm w) as [Ht Hf]. exists []. split_and!; [done|constructor| |].
  - intros (o & e & Hin). by apply elem_of_nil in Hin.
  - unfold compose_present. by rewrite Hf.
Qed.
Lemma leaves_bind {A B} b (m : cmd A) (k : A -> cmd B) : leaves b m -> (forall a, leaves b (k a)) -> leaves b (m ≫= k).
Proof.
  intros Hm Hk w Hb. destruct (Hm w Hb) as (l & Ht & Hl & Hs & Hp). unfold mbind, prog_mbind, bind.
  destruct (m w) as [[a|e] w1]; cbn in *; [|by exists l].
  destruct (Hk a w1 ltac:(auto)) as (l2 & Ht2 & Hl2 & Hs2 & Hp2). exists (l2 ++ l). split_and!.
  - by rewrite Ht2, Ht, app_assoc.
  - by apply Forall_app.
  - intros (o & e & [Hin|Hin]%elem_of_app); [apply Hs2; by exists o, e|apply Hp2, Hs; by exists o, e].
  - auto.
Qed.
Lemma leaves_attempt {A} b (m : cmd A) : leaves b m -> leaves b (attempt m).
Proof. intros Hm w Hb. destruct (Hm w Hb) as (l & Hl). unfold attempt. by destruct (m w); exists l. Qed.
Lemma leaves_run b argv : (forall out err, ok (ERun argv out err)) -> (argv = test_up id -> b = true) -> leaves b (run argv).
Proof.
  intros Hok Hup w Hb. unfold run. destruct (reply argv (trace w)) as [out err]. cbn. exists [ERun argv out err]. split_and!; [done|by repeat constructor| |done].
  intros (o & e & Hin%list_elem_of_singleton). injection Hin as Ha _ _. by apply Hb, Hup.
Qed.
Lemma leaves_wait b n : ok (EWait n) -> leaves b (wait n).
Proof.
  intros Hok w _. exists [EWait n]. split_and!; [done|by repeat constructor| |done].
  by intros (o & e & Hin%list_elem_of_singleton).
Qed.
Lemma write_leaves path data w : (forall r, ok (EWrite path data r)) ->
  exists r l, write_file path data w = (r, set_files (files (write_file path data w).2) (log l w)) /\ ok l /\
    (r = Ok tt -> path = test_compose id -> compose_present (write_file path data w).2) /\
    (compose_present w -> compose_present (write_file path data w).2) /\ forall o e, l <> ERun (test_up id) o e.
Proof.
  intros Hok. unfold write_file.
  destruct (WriteFile_cases (write (trace w)) data (default Absent (files w !! path))) as (b & ap & -> & _ & Hb). cbn.
  eexists _, (EWrite path data b). split_and!; [done|done| | |done].
  - intros Hr ->. unfold compose_present. cbn. rewrite lookup_insert_eq. cbn. destruct b; [|done]. by rewrite Hb.
  - unfold compose_present. cbn. destruct (decide (path = test_compose id)) as [->|Hne].
    + rewrite lookup_insert_eq. by destruct ap.
    + by rewrite lookup_insert_ne.
Qed.
Lemma leaves_write b path data : (forall r, ok (EWrite path data r)) -> leaves b (write_file path data).
Proof.
  intros Hok w _. destruct (write_leaves path data w Hok) as (r & e & Hr & He & _ & Hp & Hn). exists [e]. split_and!; [by rewrite Hr|by repeat constructor| |done].
  intros (o & e' & Hin%list_elem_of_singleton). by specialize (Hn o e'); rewrite Hin in Hn.
Qed.
(** From the writing of the compose file on it is there. *)
Lemma leaves_composed {B} b data (k : unit -> cmd B) : (forall r, ok (EWrite (test_compose id) data r)) ->
  (forall u, leaves true (k u)) -> leaves b (write_file (test_compose id) data ≫= k).
Proof.
  intros Hok Hk w _. destruct (write_leaves (test_compose id) data w Hok) as (r & e & Hr & He & Hw & Hp & Hn).
  unfold mbind, prog_mbind, bind. rewrite Hr in *. cbn [fst snd files set_files] in *. destruct r as [[]|m].
  - set (w1 := set_files _ _) in *. destruct (Hk tt w1) as (l & Ht & Hl & Hs & Hp2); [intros _; by apply Hw|].
    exists (l ++ [e]). split_and!; [by rewrite Ht, <- app_assoc|by apply Forall_app; split; [|repeat constructor]| |auto].
    intros (o & e' & [Hin|Hin%list_elem_of_singleton]%elem_of_app); [apply Hs; by exists o, e'|by specialize (Hn o e'); rewrite Hin in Hn].
  - exists [e]. split_and!; [done|by repeat constructor| |done].
    intros (o & e' & Hin%list_elem_of_singleton). by specialize (Hn o e'); rewrite Hin in Hn.
Qed.
Lemma leaves_remove b path : (forall r, ok (ERemove path r)) -> path <> test_compose id -> leaves b (MgmtLinux.remove path).
Proof.
  intros Hok Hne w _. pose proof (leaves_silent false (ret tt : cmd unit) ltac:(done)) as Hnone.
  assert (Hone : forall r f, (f = files w \/ f = <[path := Absent]> (files w)) -> exists l, trace (set_files f (log (ERemove path r) w)) = l ++ trace w /\ Forall ok l /\
    (tried (test_up id) l -> compose_present (set_files f (log (ERemove path r) w))) /\ (compose_present w -> compose_present (set_files f (log (ERemove path r) w)))).
  { intros r f Hf. exists [ERemove path r]. split_and!; [done|by repeat constructor|by intros (o & e' & Hin%list_elem_of_singleton)|].
    unfold compose_present. cbn. destruct Hf as [->| ->]; [done|]. by rewrite lookup_insert_ne. }
  unfold MgmtLinux.remove. destruct (default Absent (files w !! path)); cbn; [by apply (Hnone w)|..]; apply Hone; destruct (remove_ok _ _); auto.
Qed.
Lemma leaves_each {A} b (f : A -> cmd unit) l : (forall x, leaves b (f x)) -> leaves b (each f l).
Proof. intros Hf. induction l as [|x l IH]; [by apply leaves_silent|]. apply leaves_bind; [done|]. by intros _. Qed.
End Leaves.

(** Every event but the creation of another network, and before there is one
    not the start of the project either. *)
Definition names_network (hex : option string) (e : event) : Prop :=
  (forall h out err, e = ERun (network_create id h) out err -> match hex with Some x => bridge_name h = bridge_name x | None => False end) /\
  (hex = None -> forall out err, e <> ERun (test_up id) out err).
Ltac other_event := intros; split; [by intros ? ? ? [=]|by intros ? ? ? [=]].
Lemma workload_not_compose : workload_copy id <> test_compose id.
Proof.
  unfold workload_copy, test_compose. intros He%(f_equal chars). rewrite !chars_app in He. by apply app_inv_head in He.
Qed.

Ltac leaving := repeat first
  [ progress intros | apply leaves_bind | apply leaves_attempt | apply leaves_each
  | apply leaves_write; [other_event] | apply leaves_remove; [other_event|exact workload_not_compose]
  | apply leaves_run; [other_event|by intros [=]]
  | progress unfold run_, take_snapshot, clone_dataset, check, of_env, of_result, MgmtLinux.compose
  | match goal with |- leaves _ _ (match ?x with _ => _ end) => destruct x end
  | apply leaves_silent; intros ?; by repeat (unfold ret, fail, get, get_st; cbn; match goal with |- context [match ?x with _ => _ end] => destruct x | _ => idtac end) ].

Lemma leaves_prepare : leaves (names_network None) false (prepare_sandbox s).
Proof. unfold prepare_sandbox. cbv zeta. leaving. Qed.
Lemma leaves_tests ok fuel deadline probe persistence b : (forall argv out err, argv <> test_up id -> (forall h, argv <> network_create id h) -> ok (ERun argv out err)) ->
  (forall n, ok (EWait n)) -> leaves ok b (runTests fuel deadline s probe persistence).
Proof.
  intros Hr Hw. induction fuel as [|fuel IH]; cbn [runTests]; [by apply leaves_silent|].
  assert (Hrun : forall argv, argv <> test_up id -> (forall h, argv <> network_create id h) -> leaves ok b (run argv)).
  { intros argv Hu Hn. apply leaves_run; [intros out err; by apply Hr|done]. }
  apply leaves_bind; [by apply leaves_attempt, Hrun|]. intros ids. apply leaves_bind.
  { destruct ids as [ids|e]; [|by apply leaves_silent]. destruct (decide _); [by apply leaves_silent|by apply leaves_attempt, Hrun]. }
  intros [r|e]; [by apply leaves_silent|]. apply leaves_bind; [by apply leaves_silent|]. intros w.
  destruct (_ || _); [by apply leaves_silent|]. apply leaves_bind; [by apply leaves_wait|]. intros u.
  apply leaves_bind; [by apply leaves_silent|]. intros w'. by destruct (_ || _); [apply leaves_silent|].
Qed.
Lemma same_network h hex : network_create id h = network_create id hex -> bridge_name h = bridge_name hex.
Proof.
  intros [= He]. unfold bridge_name. change (str (take 10 (chars h)) = str (take 10 (chars hex))) in He. by rewrite He.
Qed.
Lemma leaves_confined deadline node hex : leaves (names_network (Some hex)) false (confined deadline s node hex).
Proof.
  unfold confined. cbv zeta.
  assert (Hup : leaves (names_network (Some hex)) true (run (test_up id))) by (apply leaves_run; [|done]; split; [by intros ? ? ? [=]|done]).
  assert (Htests : forall p v, leaves (names_network (Some hex)) true (runTests tests_fuel deadline s p v)).
  { intros p v. apply leaves_tests; [|other_event]. intros argv out err _ Hn. split; [|done].
    intros h o e [= Ha _ _]. by destruct (Hn h). }
  apply leaves_bind; [|intros u].
  { apply leaves_run; [|by intros [=]]. intros out err. split; [|done]. intros h o e He.
    exact (same_network h hex (eq_sym (f_equal (fun x => match x with ERun a _ _ => a | _ => [] end) He))). }
  apply leaves_bind; [leaving|intros port]. apply leaves_bind; [leaving|intros g]. apply leaves_bind; [leaving|intros gateway].
  do 3 (apply leaves_bind; [leaving|intros ?]). apply leaves_bind; [leaving|intros b].
  apply leaves_composed; [other_event|]. intros v. apply leaves_bind; [done|intros ?]. apply leaves_bind; [done|intros ?].
  apply leaves_bind; [leaving|intros ?]. by apply leaves_bind.
Qed.

(** The deferred clean-up records its commands whatever they answer. *)
Lemma attempt_run_ argv w : exists r out err, attempt (run_ argv) w = (Ok r, log (ERun argv out err) w).
Proof.
  unfold attempt, run_, run, mbind, prog_mbind, bind. destruct (reply argv (trace w)) as [out [err|]]; by eexists _, _, _.
Qed.
Lemma teardown_records hex outcome w : exists pre o1 e1 o2 e2,
  trace (teardown id hex outcome w).2 = ERun (nft_delete hex) o2 e2 :: ERun (network_rm id) o1 e1 :: pre ++ trace w /\
  ((pre = [] /\ ~ compose_present w) \/ exists o e, pre = [ERun test_down o e]).
Proof.
  unfold teardown, compose_present. unfold mbind at 1, prog_mbind at 1, bind at 1. cbn [get].
  set (close := fun so_far => r ← attempt (run_ (network_rm id)); let so_far := keep so_far r in
    r ← attempt (run_ (nft_delete hex)); of_result (keep so_far r)).
  assert (Hclose : forall so_far w1, exists o1 e1 o2 e2,
    trace (close so_far w1).2 = ERun (nft_delete hex) o2 e2 :: ERun (network_rm id) o1 e1 :: trace w1).
  { intros so_far w1. unfold close, mbind, prog_mbind, bind. destruct (attempt_run_ (network_rm id) w1) as (r1 & o1 & e1 & ->).
    destruct (attempt_run_ (nft_delete hex) (log (ERun (network_rm id) o1 e1) w1)) as (r2 & o2 & e2 & ->). by exists o1, e1, o2, e2. }
  unfold MgmtLinux.compose. fold test_down. destruct (default Absent (files w !! test_compose id)) eqn:Hf.
  - destruct (Hclose outcome w) as (o1 & e1 & o2 & e2 & Ht). exists [], o1, e1, o2, e2. split; [exact Ht|]. left. by split; [|intros Hn].
  - destruct (attempt_run_ test_down w) as (r & o & e & Hd). destruct (Hclose (keep outcome r) (log (ERun test_down o e) w)) as (o1 & e1 & o2 & e2 & Ht).
    exists [ERun test_down o e], o1, e1, o2, e2. split; [|right; by exists o, e]. revert Ht. unfold mbind, prog_mbind, bind. by rewrite Hd.
  - destruct (attempt_run_ test_down w) as (r & o & e & Hd). destruct (Hclose (keep outcome r) (log (ERun test_down o e) w)) as (o1 & e1 & o2 & e2 & Ht).
    exists [ERun test_down o e], o1, e1, o2, e2. split; [|right; by exists o, e]. revert Ht. unfold mbind, prog_mbind, bind. by rewrite Hd.
Qed.

(** Whatever was brought up is taken down later ([l] is latest first). *)
Definition torn_down (l : list event) : Prop := forall l1 l2 argv out err, l = l1 ++ ERun argv out err :: l2 ->
  (argv = test_up id -> tried test_down l1) /\
  (forall hex, argv = network_create id hex -> tried (network_rm id) l1 /\ tried (nft_delete hex) l1).

Lemma cut_app {A} (a b l1 l2 : list A) x : a ++ b = l1 ++ x :: l2 ->
  (exists k, a = l1 ++ x :: k) \/ exists k, l1 = a ++ k /\ b = k ++ x :: l2.
Proof.
  revert l1. induction a as [|y a IH]; intros l1 Hl; [right; by exists l1|]. destruct l1 as [|z l1]; injection Hl as -> Hl.
  - left. by exists a.
  - destruct (IH l1 Hl) as [(k & ->)|(k & -> & Hk)]; [left; by exists k|right; by exists k].
Qed.
Lemma tried_app argv a b : tried argv a -> tried argv (a ++ b).
Proof. intros (o & e & Hin). exists o, e. apply elem_of_app. by left. Qed.
Lemma tried_after argv a b : tried argv b -> tried argv (a ++ b).
Proof. intros (o & e & Hin). exists o, e. apply elem_of_app. by right. Qed.
Lemma Forall_torn_down l : Forall (names_network None) l -> torn_down l.
Proof.
  intros Hl l1 l2 argv out err ->. apply Forall_app in Hl as [_ [[H1' H2'] _]%Forall_cons].
  split; [intros ->; by destruct (H2' eq_refl out err)|intros hex ->; by destruct (H1' hex out err)].
Qed.
Lemma torn_down_trial hex pre o1 e1 o2 e2 l : Forall (names_network (Some hex)) l ->
  (pre = [] /\ ~ tried (test_up id) l \/ exists o e, pre = [ERun test_down o e]) ->
  torn_down (ERun (nft_delete hex) o2 e2 :: ERun (network_rm id) o1 e1 :: pre ++ l).
Proof.
  intros Hl Hpre l1 l2 argv out err Hcut. change (([ERun (nft_delete hex) o2 e2; ERun (network_rm id) o1 e1] ++ pre) ++ l = l1 ++ ERun argv out err :: l2) in Hcut.
  destruct (cut_app _ _ _ _ _ Hcut) as [(k & Hin)|(k & -> & ->)].
  - assert (Hne : argv <> test_up id /\ forall h, argv <> network_create id h).
    { assert (Hin' : ERun argv out err ∈ l1 ++ ERun argv out err :: k) by (apply elem_of_app; right; apply elem_of_cons; by left).
      rewrite <- Hin in Hin'. clear Hin. rename Hin' into Hin. cbn in Hin. do 2 (apply elem_of_cons in Hin as [[= -> _ _]|Hin]; [done|]).
      destruct Hpre as [[-> _]|(o & e & ->)]; [by apply elem_of_nil in Hin|apply list_elem_of_singleton in Hin as [= -> _ _]]. done. }
    split; [by intros ->; destruct Hne|intros h ->; by destruct (proj2 Hne h)].
  - split.
    + intros ->. apply tried_app. destruct Hpre as [[_ Hn]|(o & e & ->)].
      * destruct Hn. exists out, err. apply elem_of_app. right. apply elem_of_cons. by left.
      * exists o, e. do 2 (apply elem_of_cons; right). apply elem_of_cons. by left.
    + intros h ->. split; apply tried_app.
      * exists o1, e1. apply elem_of_cons. right. apply elem_of_cons. by left.
      * apply Forall_app in Hl as [_ [[Hh _] _]%Forall_cons]. specialize (Hh h out err eq_refl).
        exists o2, e2. apply elem_of_cons. left. unfold nft_delete, table_name, bridge_name in *.
        injection Hh as Hh. change (str (take 10 (chars h)) = str (take 10 (chars hex))) in Hh. by rewrite Hh.
Qed.
Lemma torn_down_app l l' : torn_down l -> Forall (names_network None) l' -> torn_down (l ++ l').
Proof.
  intros Hl Hl' l1 l2 argv out err Hcut. destruct (cut_app _ _ _ _ _ Hcut) as [(k & ->)|(k & -> & ->)].
  - by apply (Hl l1 k argv out err).
  - destruct (Forall_torn_down _ Hl' k l2 argv out err eq_refl) as [Hu Hn].
    split; [intros E; apply tried_after, Hu, E|]. intros hex E. destruct (Hn hex E). by split; apply tried_after.
Qed.

Lemma PreflightBackend_torn_down w : st w = s ->
  exists l, trace (PreflightBackend w).2 = l ++ trace w /\ torn_down l.
Proof.
  intros Hst. unfold PreflightBackend. unfold mbind, prog_mbind, bind, get, get_st. cbn [fst snd]. rewrite Hst.
  destruct (leaves_prepare w ltac:(done)) as (lp & Htp & Hlp & _ & _). destruct (prepare_sandbox s w) as [[[node hex]|e] w1]; cbn in Htp.
  2: { exists lp. split; [done|]. by apply Forall_torn_down. }
  cbn [fst snd]. set (deadline := (now (trace w) + 300000000000)%Z).
  destruct (leaves_confined deadline node hex w1 ltac:(done)) as (lc & Htc & Hlc & Hup & _).
  unfold attempt. destruct (confined deadline s node hex w1) as [r w2]. cbn in Htc, Hup.
  destruct (teardown_records hex r w2) as (pre & o1 & e1 & o2 & e2 & Ht & Hpre).
  exists ((ERun (nft_delete hex) o2 e2 :: ERun (network_rm id) o1 e1 :: pre ++ lc) ++ lp). split.
  - rewrite Ht, Htc, Htp. cbn. by rewrite <- !app_assoc.
  - apply torn_down_app; [|done]. apply torn_down_trial; [done|]. destruct Hpre as [[-> Hn]|Hpre]; [left|by right].
    split; [done|]. by intros Hs%Hup.
Qed.
End Trial.


(** ** The project of the sandbox *)

(** Where a bind mount of the sandbox may come from. *)
Definition confined_source (root directory source : string) : Prop :=
  HasPrefix source ("/" +:+ root +:+ "/") = true \/ HasPrefix source (directory +:+ "/") = true \/
  source = "/run/floatlab/preflight".

Lemma sandbox_services_of s root directory nodeID network :
  services (sandboxCompose s root directory nodeID network) = list_to_map (sandbox_services s root directory nodeID).
Proof.
  unfold services. replace (services_of (sandboxCompose s root directory nodeID network)) with
    (Some (VMap <$> list_to_map (sandbox_services s root directory nodeID) : object)) by reflexivity.
  change (default ∅ (Some ?x)) with x. apply map_eq. intros n. rewrite lookup_omap, lookup_fmap.
  by destruct (_ !! n).
Qed.
Lemma own_confined root directory name target : exists m source,
  bind_mount ("/" +:+ root +:+ "/" +:+ name) target [] = VMap m /\ m !! "type" = Some (VStr "bind") /\
  m !! "source" = Some (VStr source) /\ confined_source root directory source.
Proof.
  eexists _, _. split_and!; [reflexivity..|]. left. unfold HasPrefix. rewrite !chars_app. apply has_prefix_app.
  exists (chars name). by rewrite <- !app_assoc.
Qed.

(** The candidate is confined: every service of the sandbox project never
    restarts, drops all capabilities, has the sandbox network and a memory
    limit, and every volume is a bind mount of the operation's clones, of its
    own directory, or of the preflight socket directory; and the project's only
    network is the given external one. *)
Theorem sandbox_confined (s : Status) (root directory nodeID network name : string) (svc : object)
  (Hs : services (sandboxCompose s root directory nodeID network) !! name = Some svc) :
  svc !! "restart" = Some (VStr "no") /\ svc !! "networks" = Some (strs ["sandbox"]) /\ svc !! "cap_drop" = Some (strs ["ALL"]) /\
  svc !! "mem_limit" = Some (VScalar "402653184") /\
  (exists volumes, svc !! "volumes" = Some (VList volumes) /\
    forall v, v ∈ volumes -> exists m source, v = VMap m /\ m !! "type" = Some (VStr "bind") /\ m !! "source" = Some (VStr source) /\
      confined_source root directory source) /\
  sandboxCompose s root directory nodeID network !! "networks" =
    Some (obj [("sandbox", obj [("external", VBool true); ("name", VStr network)])]).
Proof.
  rewrite sandbox_services_of in Hs. apply elem_of_list_to_map_2 in Hs.
  assert (Hn : sandboxCompose s root directory nodeID network !! "networks" =
    Some (obj [("sandbox", obj [("external", VBool true); ("name", VStr network)])])) by reflexivity.
  unfold sandbox_services in Hs. cbv zeta in Hs. rewrite !elem_of_cons in Hs.
  destruct Hs as [[= -> ->]|[[= -> ->]|[[= -> ->]|[[= -> ->]|Hs]]]]; [..|by apply elem_of_nil in Hs].
  all: split_and!; [reflexivity|reflexivity|reflexivity|vm_compute; reflexivity| |exact Hn].
  all: eexists; split; [reflexivity|]; intros v Hv; rewrite !elem_of_cons in Hv.
  1-3: destruct Hv as [->|Hv]; [|by apply elem_of_nil in Hv]; apply own_confined.
  destruct Hv as [->|[->|[->|[->|Hv]]]]; [apply own_confined|..|by apply elem_of_nil in Hv].
  - eexists _, _. split_and!; [reflexivity..|]. right; left. exact (HasPrefix_app2 directory "/" "appliance.json").
  - eexists _, _. split_and!; [reflexivity..|]. by right; right.
  - eexists _, _. split_and!; [reflexivity..|]. right; left. exact (HasPrefix_app2 directory "/" "workloads").
Qed.

Lemma sandbox_confined_witness : exists svc,
  services (sandboxCompose (rig_status "preflight") "floatlab/system/update-tests/op1" "/d" "n1" "net") !! "rqlite" = Some svc /\
  svc !! "restart" = Some (VStr "no").
Proof.
  eexists. split; [reflexivity|].
  exact (proj1 (sandbox_confined (rig_status "preflight") "floatlab/system/update-tests/op1" "/d" "n1" "net" "rqlite" _ eq_refl)).
Defined.
