(* ===== verification/HostManifest.v ===== *)
(** Host releases and requests: [src/internal/hostupgrade/manifest.go], the
    image payload of [src/internal/installer/storage.go] and the trial token of
    [src/internal/hostupgrade/guard.go]. *)
From S2P Require Import Prelude Timestamp Release Update Netip HostConfig GoStrings.
From Stdlib Require Import Ascii.

Open Scope string_scope.
Open Scope Z_scope.

(** ** Data *)

(** [installer.Payload]; sizes are 64-bit integers. *)
Record Payload := mkPayload {
  Version : string; ISOVersion : string; ManageVersion : string; Init : string;
  RootBytes : Z; Files : gmap string string; Bytes : Z }.

Record Engine := mkEngine { Docker : string; Containerd : string; Driver : string; DataRoot : string }.
#[export] Instance Engine_eq_dec : EqDecision Engine.
Proof. solve_decision. Defined.

Record Manifest := mkManifest {
  ImagePayload : Payload;
  Architecture : string;
  RecoveryProtocol : Z;
  Bootloader : string;
  PoolCompatibility : string;
  ImageEngine : Engine;
  QualifiedSources : list string;
  InstalledHostID : string }.

Definition MVersion (m : Manifest) : string := Version (ImagePayload m).
Definition empty_manifest : Manifest :=
  mkManifest (mkPayload "" "" "" "" 0 ∅ 0) "" 0 "" "" (mkEngine "" "" "" "") [] "".

Record Request := mkRequest {
  rq_Upstream : string; rq_SkipDryRun : bool; rq_OperationID : string; rq_Release : string;
  rq_Actor : string; rq_IdempotencyKey : string }.

(** ** Payloads *)

(** [^[A-Za-z0-9][A-Za-z0-9._-]*$] *)
Definition version_syntax (s : string) : bool :=
  match chars s with
  | c :: l => (digit c || letter c) && forallb repo_char l
  | [] => false
  end.

Definition hex_string (s : string) : bool :=
  forallb (fun c => match hex_value c with Some _ => true | None => false end) (chars s) &&
  Nat.even (String.length s).

Definition valid_file (name hash : string) : bool :=
  negb (has_prefix (chars name) (chars "/") || negb (bool_decide (Clean name = name)) || bool_decide (name = ".") ||
        has_prefix (chars name) (chars "../") ||
        ContainsAny name (String "032" (String "010" (String "013" "'" +:+ String "034" ";"))) ||
        negb (String.length hash =? 64)%nat) && hex_string hash.

(** Space, tab, newline, return, quotes, semicolon, dollar, backquote, backslash. *)
Definition init_forbidden : string :=
  String "032" (String "009" (String "010" (String "013" ("'" +:+ String "034" ";$`\")))).

Definition required_files (p : Payload) : list string :=
  ["floatlab-root.tar.gz"; "zfsbootmenu.EFI"] ++
  (if decide (ManageVersion p = "") then []
   else ["docker-compose.yml"; "images.json"; "images/floatlab-control.tar"; "images/rqlite.tar";
         "images/victoria-metrics.tar"; "images/victoria-logs.tar"]).

Definition Payload_Validate (p : Payload) : bool :=
  if (Bytes p <=? 0) || (RootBytes p <=? 0) || negb (version_syntax (Version p)) ||
     bool_decide (Version p = "current") || bool_decide (Version p = "live") || bool_decide (Version p = "next") ||
     negb (has_prefix (chars (Init p)) (chars "/nix/store/")) || negb (bool_decide (Clean (Init p) = Init p)) ||
     negb (HasSuffix (Init p) "/init") || ContainsAny (Init p) init_forbidden
  then false
  else forallb (fun x => valid_file x.1 x.2) (map_to_list (Files p)) &&
       forallb (fun name => bool_decide (is_Some (Files p !! name))) (required_files p).

Section Releases.
Context `{Semver}.

(** [Manifest.Validate]: [true] for no error. *)
Definition Manifest_Validate (m : Manifest) : bool :=
  Payload_Validate (ImagePayload m) &&
  is_ok (Parse (MVersion m)) &&
  negb (negb (bool_decide (Architecture m = "amd64")) || negb (RecoveryProtocol m =? 1) ||
        bool_decide (Bootloader m = "") || negb (bool_decide (PoolCompatibility m = "openzfs-2.3-linux"))) &&
  negb ((Z.shiftl 1 40 <? RootBytes (ImagePayload m)) || (Z.shiftl 1 40 <? Bytes (ImagePayload m))) &&
  negb (bool_decide (Docker (ImageEngine m) = "") || bool_decide (Containerd (ImageEngine m) = "") ||
        negb (bool_decide (Driver (ImageEngine m) = "zfs")) ||
        negb (bool_decide (DataRoot (ImageEngine m) = "/floatlab/system/docker"))) &&
  forallb (fun source => is_ok (Parse source)) (QualifiedSources m).

Inductive TransitionError := BadSource | BadTarget | EngineDrift | BootloaderChange | NotQualified.

Definition file_hash (m : Manifest) (name : string) : string := default "" (Files (ImagePayload m) !! name).

Definition ValidateTransition (source target : Manifest) (actual : Engine) : result TransitionError unit :=
  if negb (Manifest_Validate source) then Err BadSource
  else if negb (Manifest_Validate target) then Err BadTarget
  else if negb (bool_decide (ImageEngine source = actual)) then Err EngineDrift
  else if negb (bool_decide (Bootloader source = Bootloader target)) ||
          negb (bool_decide (file_hash source "zfsbootmenu.EFI" = file_hash target "zfsbootmenu.EFI")) ||
          negb (bool_decide (PoolCompatibility source = PoolCompatibility target))
  then Err BootloaderChange
  else if bool_decide (MVersion source ∈ QualifiedSources target) then Ok tt
  else Err NotQualified.

Definition Request_Validate (r : Request) : bool :=
  ValidateUpstream (rq_Upstream r) &&
  negb (negb (operationID (rq_OperationID r)) || bool_decide (rq_Actor r = "") ||
        (256 <? String.length (rq_Actor r))%nat) &&
  has_prefix (chars (rq_Release r)) (chars "host-v") &&
  is_ok (Parse (TrimPrefix (rq_Release r) "host-v")).

(** [releaseVersion]: the version of an OS dataset name, when it is one. *)
Definition releaseVersion (name : string) : option string :=
  let v := TrimPrefix name "floatlab/os/" in
  if Request_Validate (mkRequest "" false "cleanup" ("host-v" +:+ v) "hostd" "") then Some v else None.
End Releases.

(** ** The trial token *)

Fixpoint token_loop (parts : list string) (token : string) : option string :=
  match parts with
  | [] => Some token
  | part :: parts =>
      if has_prefix (chars part) (chars "floatlab.trial=") then
        if negb (bool_decide (token = "")) then None
        else
          let token := TrimPrefix part "floatlab.trial=" in
          if negb (operationID token) then None else token_loop parts token
      else token_loop parts token
  end.
Definition TrialToken (cmdline : string) : option string := token_loop (Fields cmdline) "".

(** The command line [Stage] gives the trial boot. *)
Definition trial_cmdline (init hostID operation : string) : string :=
  "init=" +:+ init +:+ " console=ttyS0,115200n8 spl.spl_hostid=0x" +:+ hostID +:+
  " floatlab.installed=1 floatlab.trial=" +:+ operation.
