(* ===== verification/HostBoot.v ===== *)
(** The boot datasets of a host: [Promote], [FinalizeCommit], [RestoreBoot] and
    [Cleanup] of [src/internal/hostupgrade/linux.go].

    The programs are the sequences of [zfs] and [zpool] commands of the code.
    The tools themselves are a parameter: the class [Host] gives the state of
    the pool as it can be observed and runs one command; [HostLaws] states what
    the manual pages promise of each command.  Every state of the pool is
    recorded, since power may fail after any command. *)
From S2P Require Import Prelude Timestamp Release Update Netip HostConfig GoStrings HostManifest.
From Stdlib Require Import Ascii.

Open Scope string_scope.

(** ** The pool *)

(** Properties of a dataset; the property ["origin"] is set on clones. *)
Abbreviation props := (gmap string string).

(** Datasets and snapshots by name, and the boot dataset of the pool.  Values
    carry no surrounding space: [output] trims what the commands print. *)
Record View := mkView { datasets : gmap string props; bootfs : string }.

Inductive hostcmd :=
| ZExists (ds : string)
| ZGet (key ds : string)
| ZListOS
| ZClone (set : list (string * string)) (snapshot ds : string)
| ZDestroy (ds : string)
| ZRename (a b : string)
| ZSet (set : list (string * string)) (ds : string)
| ZBootfs (ds : string)
| RemoveFile (path : string)
| GuardMessage (operation state : string).

Definition mutating (c : hostcmd) : bool :=
  match c with ZClone _ _ _ | ZDestroy _ | ZRename _ _ | ZSet _ _ | ZBootfs _ => true | _ => false end.

(** [a]'s snapshots and children. *)
Definition below (a n : string) : bool :=
  has_prefix (chars n) (chars (a +:+ "@")) || has_prefix (chars n) (chars (a +:+ "/")).
Definition leaf (v : View) (a : string) : Prop := forall n, is_Some (datasets v !! n) -> below a n = false.
Definition has_origin (o : string) (d : props) : Prop := d !! "origin" = Some o.
Definition set_props (set : list (string * string)) (d : props) : props :=
  fold_left (fun d kv => <[kv.1 := kv.2]> d) set d.

(** What a command does when it takes effect.  A boot dataset that is renamed
    may or may not stay the boot dataset; renaming a dataset that has
    descendants is left unspecified. *)
Inductive heffect : hostcmd -> View -> View -> Prop :=
| he_clone set snap ds v :
    datasets v !! ds = None -> is_Some (datasets v !! snap) ->
    heffect (ZClone set snap ds) v (mkView (<[ds := <["origin" := snap]> (set_props set ∅)]> (datasets v)) (bootfs v))
| he_destroy ds v :
    is_Some (datasets v !! ds) -> leaf v ds ->
    (forall n d, datasets v !! n = Some d -> ~ has_origin ds d) ->
    heffect (ZDestroy ds) v (mkView (delete ds (datasets v)) (bootfs v))
| he_rename a b d v bf :
    datasets v !! a = Some d -> datasets v !! b = None -> leaf v a ->
    bf = bootfs v \/ (bootfs v = a /\ bf = b) ->
    heffect (ZRename a b) v (mkView (<[b := d]> (delete a (datasets v))) bf)
| he_rename_tree a b v v' :
    ~ leaf v a -> datasets v !! b = None -> heffect (ZRename a b) v v'
| he_set set ds d v :
    datasets v !! ds = Some d ->
    heffect (ZSet set ds) v (mkView (<[ds := set_props set d]> (datasets v)) (bootfs v))
| he_bootfs ds v :
    is_Some (datasets v !! ds) -> heffect (ZBootfs ds) v (mkView (datasets v) ds).

(** The direct children of [floatlab/os] and the dataset itself. *)
Definition os_member (n : string) : Prop :=
  n = "floatlab/os" \/ exists c, n = "floatlab/os/" +:+ c /\ c <> "" /\ "/"%char ∉ chars c /\ "@"%char ∉ chars c.

Definition answers (c : hostcmd) (v : View) (out : string) : Prop :=
  match c with
  | ZExists ds => is_Some (datasets v !! ds)
  | ZGet key ds => exists d, datasets v !! ds = Some d /\ out = default "-" (d !! key)
  | ZListOS => forall n, n ∈ Fields out <-> os_member n /\ is_Some (datasets v !! n)
  | _ => True
  end.

Class Host (P : Type) := {
  view : P -> View;
  execute : hostcmd -> P -> result string string * P }.

(** A command changes nothing or has its effect, whatever it reports; it has
    had its effect, or answered the truth, when it reports success. *)
Class HostLaws (P : Type) `{Host P} := {
  h_effect c p : view (execute c p).2 = view p \/ (mutating c = true /\ heffect c (view p) (view (execute c p).2));
  h_done c p out : (execute c p).1 = Ok out -> mutating c = true -> heffect c (view p) (view (execute c p).2);
  h_answer c p out : (execute c p).1 = Ok out -> answers c (view p) out }.

(** ** Programs *)

Definition os (a : string) : string := "floatlab/os/" +:+ a.

(** What the operations read of the journal's status. *)
Record BootStatus := mkBoot {
  b_OperationID : string; b_State : string; b_Manifest : Manifest; b_Source : Manifest }.

Definition target_of (s : BootStatus) : string := os (MVersion (b_Manifest s)) +:+ "@base".
Definition source_of (s : BootStatus) : string := os (MVersion (b_Source s)) +:+ "@base".

Section Boot.
Context {P : Type} `{Host P}.

Record W := mkW { pool : P; past : list P }.
Abbreviation cmd := (prog string W).

Definition run (c : hostcmd) : cmd string := fun w =>
  let '(r, p) := execute c (pool w) in (r, mkW p (p :: past w)).

(** [exists]: a command that fails counts as no. *)
Definition exists_ (ds : string) : cmd bool :=
  r ← attempt (run (ZExists ds)); ret (is_ok r).
Definition property (key ds : string) : cmd string := run (ZGet key ds).
Definition run_ (c : hostcmd) : cmd unit := run c;; ret tt.

(** [^[0-9a-f]{8}$] *)
Definition host_identity (s : string) : bool :=
  (String.length s =? 8)%nat &&
  forallb (fun c => in_range_ascii "0" "9" c || in_range_ascii "a" "f" c) (chars s).

Definition boot_flags (extra : list (string * string)) : list (string * string) :=
  [("mountpoint", "legacy"); ("canmount", "noauto"); ("readonly", "on"); ("org.zfsbootmenu:active", "on")] ++ extra.

Definition source_props (s : BootStatus) (identity : string) : list (string * string) :=
  [("org.floatlab:host-id", identity); ("org.floatlab:version", MVersion (b_Source s));
   ("org.floatlab:init", Init (ImagePayload (b_Source s)));
   ("org.zfsbootmenu:commandline", "init=" +:+ Init (ImagePayload (b_Source s)) +:+
      " console=ttyS0,115200n8 spl.spl_hostid=0x" +:+ identity +:+ " floatlab.installed=1");
   ("org.zfsbootmenu:rootprefix", "root=zfs:")].

(** The recovery alias must be the source's: another one is destroyed when the
    updater owns it. *)
Definition drop_foreign_recovery (source : string) : cmd unit :=
  has ← exists_ (os "recovery");
  if (has : bool) then
    origin ← property "origin" (os "recovery");
    if decide (origin = source) then ret tt
    else
      owner ← attempt (property "org.floatlab:update" (os "recovery"));
      match owner with
      | Ok owner => if operationID owner then run_ (ZDestroy (os "recovery")) else fail "foreign recovery boot dataset"
      | Err _ => fail "foreign recovery boot dataset"
      end
  else ret tt.

Definition keep_recovery (s : BootStatus) : cmd unit :=
  has ← exists_ (os "recovery");
  if (has : bool) then ret tt
  else run_ (ZClone (boot_flags [("org.floatlab:update", b_OperationID s)]) (source_of s) (os "recovery")).

(** The committed alias becomes [previous]; an older [previous] is retired. *)
Definition retire_current (s : BootStatus) : cmd unit :=
  has ← exists_ (os "current");
  if (has : bool) then
    origin ← attempt (property "origin" (os "current"));
    if negb (bool_decide (origin = Ok (source_of s))) then fail "current boot origin changed during promotion"
    else
      prev ← exists_ (os "previous");
      (if (prev : bool) then
         owner ← attempt (property "org.floatlab:update" (os "previous"));
         match owner with
         | Ok owner =>
             if bool_decide (owner = "-") || bool_decide (owner = "") then fail "foreign previous boot dataset"
             else run_ (ZRename (os "previous") (os ("retired-" +:+ b_OperationID s)))
         | Err _ => fail "foreign previous boot dataset"
         end
       else ret tt);;
      run_ (ZSet [("org.floatlab:update", b_OperationID s)] (os "current"));;
      run_ (ZRename (os "current") (os "previous"))
  else ret tt.

Definition Promote (s : BootStatus) : cmd unit :=
  current ← attempt (property "origin" (os "current"));
  if bool_decide (current = Ok (target_of s)) then run_ (ZBootfs (os "current"))
  else
    drop_foreign_recovery (source_of s);;
    keep_recovery s;;
    let identity := InstalledHostID (b_Source s) in
    if negb (host_identity identity) then fail "invalid source boot identity"
    else
      run_ (ZSet (source_props s identity) (os "recovery"));;
      run_ (ZBootfs (os "recovery"));;
      retire_current s;;
      origin ← attempt (property "origin" (os "next"));
      if negb (bool_decide (origin = Ok (target_of s))) then fail "next boot origin mismatch"
      else
        run_ (ZRename (os "next") (os "current"));;
        run_ (ZBootfs (os "current")).

(** The trial token leaves the committed command line. *)
Definition without_token (cmdline : string) : string :=
  Join (filter (fun part => has_prefix (chars part) (chars "floatlab.trial=") = false) (Fields cmdline)) " ".

Definition WriteGuardMessage (operation state : string) : cmd unit :=
  if operationID operation then run_ (GuardMessage operation state) else fail "invalid operation id".

Definition FinalizeCommit (s : BootStatus) : cmd unit :=
  origin ← attempt (property "origin" (os "current"));
  if negb (bool_decide (origin = Ok (target_of s))) then fail "committed boot origin mismatch"
  else
    cmdline ← property "org.zfsbootmenu:commandline" (os "current");
    run_ (ZSet [("org.zfsbootmenu:commandline", without_token cmdline)] (os "current"));;
    WriteGuardMessage (b_OperationID s) "committed".

(** The first of the aliases cloned from the source becomes [current]. *)
Fixpoint restore_alias (source : string) (aliases : list string) : cmd unit :=
  match aliases with
  | [] => fail "known-good boot alias unavailable; management remains stopped"
  | alias :: aliases =>
      has ← exists_ (os alias);
      if (has : bool) then
        origin ← property "origin" (os alias);
        if decide (origin = source) then
          run_ (ZRename (os alias) (os "current"));;
          run_ (ZBootfs (os "current"))
        else restore_alias source aliases
      else restore_alias source aliases
  end.

Definition RestoreBoot (s : BootStatus) : cmd unit :=
  let source := source_of s in
  has ← exists_ (os "current");
  if (has : bool) then
    origin ← property "origin" (os "current");
    if decide (origin = source) then run_ (ZBootfs (os "current"))
    else if negb (bool_decide (origin = target_of s)) then fail "unexpected current boot origin"
    else
      recovery ← attempt (property "origin" (os "recovery"));
      if negb (bool_decide (recovery = Ok source)) then fail "source recovery alias unavailable"
      else
        run_ (ZBootfs (os "recovery"));;
        next ← exists_ (os "next");
        if (next : bool) then fail "cannot restore current while next is occupied"
        else
          run_ (ZRename (os "current") (os "next"));;
          restore_alias source ["previous"; "recovery"]
  else restore_alias source ["previous"; "recovery"].

(** ** Cleanup *)

Definition retired_name (s : BootStatus) (name : string) : bool :=
  let retired := TrimPrefix name "floatlab/os/retired-" in
  negb (bool_decide (retired = name)) && operationID retired && bool_decide (b_State s = "committed").

Fixpoint cleanup_aliases (s : BootStatus) (names : list string) : cmd unit :=
  match names with
  | [] => ret tt
  | name :: names =>
      let undone := bool_decide (name = os "next") &&
        (bool_decide (b_State s = "recovered") || bool_decide (b_State s = "failed")) in
      if negb (retired_name s name || undone) then cleanup_aliases s names
      else
        owner ← property "org.floatlab:update" name;
        if negb (operationID owner) then fail "foreign retired boot alias"
        else if bool_decide (name = os "next") && negb (bool_decide (owner = b_OperationID s))
        then fail "next boot belongs to another operation"
        else run_ (ZDestroy name);; cleanup_aliases s names
  end.

Definition aliases : list string := ["current"; "previous"; "next"; "live"; "recovery"].

Fixpoint protected_of (names : list string) (protected : list string) : cmd (list string) :=
  match names with
  | [] => ret protected
  | alias :: names =>
      has ← exists_ (os alias);
      if (has : bool) then
        origin ← property "origin" (os alias);
        protected_of names (TrimSuffix origin "@base" :: protected)
      else protected_of names protected
  end.

Definition remove_download (owner file : string) : cmd unit :=
  run_ (RemoveFile ("/floatlab/system/updates/" +:+ owner +:+ "/" +:+ file)).

Fixpoint cleanup_versions `{Semver} (s : BootStatus) (protected names : list string) : cmd unit :=
  match names with
  | [] => ret tt
  | name :: names =>
      if bool_decide (name ∈ protected) || bool_decide (name = "floatlab/os") then cleanup_versions s protected names
      else
        owner ← property "org.floatlab:update" name;
        if negb (operationID owner) then cleanup_versions s protected names
        else if bool_decide (name = os "next") || bool_decide (name = os "recovery") then cleanup_versions s protected names
        else if Contains (TrimPrefix name "floatlab/os/") "/" then cleanup_versions s protected names
        else match releaseVersion name with
        | None => cleanup_versions s protected names
        | Some _ =>
            has ← exists_ (name +:+ "@base");
            (if (has : bool) then run_ (ZDestroy (name +:+ "@base")) else ret tt);;
            run_ (ZDestroy name);;
            (if negb (bool_decide (owner = b_OperationID s)) && operationID owner then
               remove_download owner "floatlab-root.tar.gz";;
               remove_download owner "floatlab-root.tar.gz.partial"
             else ret tt);;
            cleanup_versions s protected names
        end
  end.

Definition CleanupBoot `{Semver} (s : BootStatus) : cmd unit :=
  rows ← run ZListOS;
  cleanup_aliases s (Fields rows);;
  protected ← protected_of aliases [];
  names ← run ZListOS;
  cleanup_versions s protected (Fields names).
End Boot.
