(* ===== verification/HostBootSafety.v ===== *)
(** Boot safety of the dataset operations of [HostBoot.v]: after every single
    command, of any number of interrupted promotions and restorations, the pool
    boots a dataset of the source or of the target release, and the source
    release stays bootable; an undisturbed promotion or restoration then
    finishes the job from wherever the others stopped. *)
From S2P Require Import Prelude Timestamp Release Update Netip HostConfig GoStrings HostManifest HostBoot.
From Stdlib Require Import Ascii.

Open Scope string_scope.

(** ** Names *)

Ltac os_ne := unfold os; cbn; discriminate.
Ltac maps := repeat first
  [ rewrite lookup_insert_eq | rewrite lookup_delete_eq
  | rewrite lookup_insert_ne by os_ne | rewrite lookup_delete_ne by os_ne ].

Definition owner_of (d : props) : string := default "-" (d !! "org.floatlab:update").

Lemma set_props_other set d k : Forall (fun kv => kv.1 <> k) set -> set_props set d !! k = d !! k.
Proof.
  unfold set_props. revert d. induction set as [|[k' x] set IH]; intros d Hf; [done|].
  inversion_clear Hf as [|? ? Hk Hf']. cbn in *. rewrite IH by done. by rewrite lookup_insert_ne.
Qed.

(** ** Reasoning about the programs *)

Section Reasoning.
Context {P : Type} `{HostLaws P}.

(** Commands succeed when they can. *)
Class Cooperative : Prop := {
  co_done c p : mutating c = true -> (exists v, heffect c (view p) v) -> is_ok (execute c p).1 = true;
  co_get key ds p : is_Some (datasets (view p) !! ds) -> is_ok (execute (ZGet key ds) p).1 = true;
  co_guard op st p : is_ok (execute (GuardMessage op st) p).1 = true }.

(** In this run [zfs list] fails only for a missing dataset.  The code takes
    every failure for absence; what a run without this can do is in
    [HostBootAlways.v]. *)
Class TrueExists : Prop := te_exists ds p : is_ok (execute (ZExists ds) p).1 = false -> datasets (view p) !! ds = None.
Context `{TrueExists}.

(** [I] holds in every state the pool passes through; [E] holds when a program
    fails.  When [E] is "some command did not cooperate", a triple is a total
    correctness statement for cooperating hosts. *)
Context (I : View -> Prop) (E : Prop) (HE : ~ Cooperative -> E).

Definition triple {A} (Pre : View -> Prop) (m : prog string W A) (Q : A -> View -> Prop) : Prop :=
  forall w, Pre (view (pool w)) -> Forall (fun p => I (view p)) (past w) ->
    Forall (fun p => I (view p)) (past (m w).2) /\
    match (m w).1 with
    | Ok a => Q a (view (pool (m w).2))
    | Err _ => I (view (pool (m w).2)) /\ E
    end.

Lemma hoare_ret {A} (a : A) Pre Q : (forall v, Pre v -> Q a v) -> triple Pre (ret a) Q.
Proof. intros Hq w Hp Hf. split; [done|by apply Hq]. Qed.

Lemma hoare_bind {A B} (m : prog string W A) (k : A -> prog string W B) Pre R Q :
  triple Pre m R -> (forall a, triple (R a) (k a) Q) -> triple Pre (m ≫= k) Q.
Proof.
  intros Hm Hk w Hp Hf. unfold mbind, prog_mbind, bind. destruct (Hm w Hp Hf) as [Hf' Hr].
  destruct (m w) as [[a|e] w']; cbn in *; [by apply Hk|done].
Qed.

Lemma hoare_pre {A} (m : prog string W A) (Pre Pre' : View -> Prop) Q :
  (forall v, Pre' v -> Pre v) -> triple Pre m Q -> triple Pre' m Q.
Proof. intros Hi Hm w Hp Hf. by apply Hm; auto. Qed.

Lemma hoare_fail {A} e Pre (Q : A -> View -> Prop) :
  (forall v, Pre v -> I v /\ E) -> triple Pre (fail e) Q.
Proof. intros Hp w Hw' Hf. split; [done|by apply Hp]. Qed.

(** A fact known of the state at hand can be used to choose the rest. *)
Lemma hoare_case {A} (m : prog string W A) (Pre : View -> Prop) Q :
  (forall v, Pre v -> triple (fun v' => v' = v) m Q) -> triple Pre m Q.
Proof. intros Hm w Hp Hf. by eapply Hm. Qed.

Lemma hoare_if {A} (b : bool) (m1 m2 : prog string W A) Pre Q :
  (b = true -> triple Pre m1 Q) -> (b = false -> triple Pre m2 Q) -> triple Pre (if b then m1 else m2) Q.
Proof. destruct b; auto. Qed.

(** A query: the state does not change. *)
Lemma run_query c w : mutating c = false -> view (pool (run c w).2) = view (pool w) /\
  past (run c w).2 = pool (run c w).2 :: past w /\ (run c w).1 = (execute c (pool w)).1.
Proof.
  intros Hm. unfold run. destruct (h_effect c (pool w)) as [Hv|[Hc _]]; [|congruence].
  destruct (execute c (pool w)) as [r p]. done.
Qed.

Lemma hoare_exists ds (Pre : View -> Prop) : (forall v, Pre v -> I v) ->
  triple Pre (exists_ ds) (fun b v => Pre v /\ (if b : bool then is_Some (datasets v !! ds) else datasets v !! ds = None)).
Proof.
  intros Hi w Hp Hf. unfold exists_, mbind, prog_mbind, bind, attempt. 
  destruct (run_query (ZExists ds) w eq_refl) as (Hv & Hpast & Hr).
  pose proof (h_answer (ZExists ds) (pool w)) as Ha. pose proof (te_exists ds (pool w)) as Ht.
  destruct (run (ZExists ds) w) as [r w']. cbn in *. rewrite Hpast. split.
  - constructor; [rewrite Hv; auto|done].
  - rewrite Hv. split; [done|]. rewrite <- Hr in Ha, Ht. destruct r; cbn in *; eauto.
Qed.

(** A property read, and one whose failure is a value. *)
Lemma hoare_property key ds (Pre : View -> Prop) : (forall v, Pre v -> I v /\ is_Some (datasets v !! ds)) ->
  triple Pre (property key ds) (fun out v => Pre v /\ exists d, datasets v !! ds = Some d /\ out = default "-" (d !! key)).
Proof.
  intros Hi w Hp Hf. unfold property. destruct (Hi _ Hp) as [HI Hs].
  destruct (run_query (ZGet key ds) w eq_refl) as (Hv & Hpast & Hr).
  pose proof (h_answer (ZGet key ds) (pool w)) as Ha.
  assert (Hc : Cooperative -> is_ok (run (ZGet key ds) w).1 = true) by (intros Hc; rewrite Hr; by apply co_get).
  destruct (run (ZGet key ds) w) as [r w']. cbn in *. rewrite Hpast, Hv, <- Hr in *. split.
  - constructor; [by rewrite Hv|done].
  - destruct r as [out|e]; [by eauto|]. split; [done|]. apply HE. intros HC. by specialize (Hc HC).
Qed.

Lemma hoare_try_property key ds (Pre : View -> Prop) : (forall v, Pre v -> I v) ->
  triple Pre (attempt (property key ds)) (fun r v => Pre v /\
    match r with
    | Ok out => exists d, datasets v !! ds = Some d /\ out = default "-" (d !! key)
    | Err _ => Cooperative -> datasets v !! ds = None
    end).
Proof.
  intros Hi w Hp Hf. unfold property, attempt.
  destruct (run_query (ZGet key ds) w eq_refl) as (Hv & Hpast & Hr).
  pose proof (h_answer (ZGet key ds) (pool w)) as Ha.
  assert (Hc : Cooperative -> is_Some (datasets (view (pool w)) !! ds) -> is_ok (run (ZGet key ds) w).1 = true)
    by (intros Hc ?; rewrite Hr; by apply co_get).
  destruct (run (ZGet key ds) w) as [r w']. cbn in *. rewrite Hpast, Hv, <- Hr in *. split.
  - constructor; [rewrite Hv; auto|done].
  - split; [done|]. destruct r as [out|e]; [by eauto|]. intros HC.
    destruct (datasets (view (pool w)) !! ds) eqn:Hds; [|done]. assert (is_ok (@Err string string e) = true) by eauto. done.
Qed.

(** A command that keeps the invariant when it takes effect, and can. *)
Lemma hoare_run c (Pre : View -> Prop) (Q : View -> Prop) : mutating c = true ->
  (forall v, Pre v -> I v) ->
  (forall v, Pre v -> exists v', heffect c v v') ->
  (forall v v', Pre v -> heffect c v v' -> I v' /\ Q v') ->
  triple Pre (run_ c) (fun _ v => Q v).
Proof.
  intros Hm Hi Hen Hstep w Hp Hf. unfold run_, mbind, prog_mbind, bind, run.
  pose proof (h_effect c (pool w)) as He. pose proof (h_done c (pool w)) as Hd.
  assert (Hc : Cooperative -> is_ok (execute c (pool w)).1 = true) by (intros HC; by apply co_done; auto).
  destruct (execute c (pool w)) as [r p]. cbn in *.
  assert (HI : I (view p)).
  { destruct He as [->|[_ He]]; [by apply Hi|]. by apply (Hstep _ _ Hp He). }
  destruct r as [out|e]; cbn.
  - split; [by constructor|]. by apply (Hstep _ _ Hp (Hd _ eq_refl Hm)).
  - split; [by constructor|]. split; [done|]. apply HE. intros HC. by specialize (Hc HC).
Qed.
End Reasoning.

Section Safety.
Context {P : Type} `{HostLaws P} (s : BootStatus).

Definition source := source_of s.
Definition target := target_of s.

Definition at_ (v : View) (a o : string) : Prop :=
  exists d, datasets v !! os a = Some d /\ has_origin o d.
Definition gone (v : View) (a : string) : Prop := datasets v !! os a = None.

(** How far a promotion has come. *)
Inductive stage (v : View) : Prop :=
| before : at_ v "current" source -> at_ v "next" target ->
    bootfs v = os "current" \/ (bootfs v = os "recovery" /\ at_ v "recovery" source) -> stage v
| swapping : gone v "current" -> at_ v "previous" source -> at_ v "next" target ->
    at_ v "recovery" source -> bootfs v = os "recovery" -> stage v
| promoted : at_ v "current" target -> at_ v "previous" source -> gone v "next" ->
    at_ v "recovery" source -> bootfs v = os "current" \/ bootfs v = os "recovery" -> stage v.

Definition os_aliases : list string := ["current"; "previous"; "next"; "recovery"].

(** What the operations may rely on: the aliases have no descendants, the
    source release's snapshot is there, no clone hangs off an alias, and the
    aliases that may be replaced belong to the updater. *)
Record usable (v : View) : Prop := {
  u_leaf : Forall (fun a => leaf v (os a)) os_aliases;
  u_source : is_Some (datasets v !! source);
  u_clones : forall n d, datasets v !! n = Some d -> ~ has_origin (os "recovery") d;
  u_recovery : forall d, datasets v !! os "recovery" = Some d -> has_origin source d \/
    (exists o, has_origin o d) /\ operationID (owner_of d) = true;
  u_previous : forall d, datasets v !! os "previous" = Some d -> owner_of d <> "-" /\ owner_of d <> "";
  u_retired : at_ v "current" source -> gone v "previous" \/ gone v ("retired-" +:+ b_OperationID s) }.

Definition Inv (v : View) : Prop := usable v /\ stage v.

(** The releases differ, the operation is named, and the source image says
    which host it is installed on. *)
Record well_named : Prop := {
  wn_ne : source <> target;
  wn_op : operationID (b_OperationID s) = true;
  wn_host : host_identity (InstalledHostID (b_Source s)) = true }.

Context `{!TrueExists (P := P)} (Hw : well_named).
#[local] Abbreviation hoare := (triple Inv (~ Cooperative (P := P))).

(** ** What each command does to the invariant *)

Lemma leaf_insert m bf0 a k d bf : leaf (mkView m bf0) a -> below a k = false -> leaf (mkView (<[k := d]> m) bf) a.
Proof.
  intros Hl Hk n. cbn. destruct (decide (n = k)) as [->|Hn]; [done|]. rewrite lookup_insert_ne by done. apply Hl.
Qed.
Lemma leaf_delete v a k bf : leaf v a -> leaf (mkView (delete k (datasets v)) bf) a.
Proof. intros Hl n. cbn. intros [Hn Hs]%lookup_delete_is_Some. by apply Hl. Qed.
Lemma leaf_alias v a : Forall (fun a => leaf v (os a)) os_aliases -> a ∈ os_aliases -> leaf v (os a).
Proof. rewrite Forall_forall. auto. Qed.

Lemma has_origin_set o set d : Forall (fun kv => kv.1 <> "origin") set -> has_origin o (set_props set d) <-> has_origin o d.
Proof. intros Hf. unfold has_origin. by rewrite set_props_other. Qed.
Lemma owner_set set d : Forall (fun kv => kv.1 <> "org.floatlab:update") set -> owner_of (set_props set d) = owner_of d.
Proof. intros Hf. unfold owner_of. by rewrite set_props_other. Qed.

Lemma heffect_rename a b v v' : heffect (ZRename a b) v v' -> leaf v a ->
  exists d bf, datasets v !! a = Some d /\ datasets v !! b = None /\ v' = mkView (<[b := d]> (delete a (datasets v))) bf /\
    (bf = bootfs v \/ (bootfs v = a /\ bf = b)).
Proof. intros He Hl. inversion He; subst; [|done]. eauto 10. Qed.

(** The boot dataset moves to [current], or to [recovery] when that is the
    source's. *)
Lemma Inv_boot_current v v' : Inv v -> heffect (ZBootfs (os "current")) v v' ->
  Inv v' /\ datasets v' = datasets v /\ bootfs v' = os "current".
Proof.
  intros [HU Hst] He. inversion He as [| | | | |? ? [d Hd]]; subst. split; [|done]. split; [by destruct HU|].
  destruct Hst as [Hc Hn _|Hg _ _ _ _|Hc Hp Hn Hr _].
  - apply before; auto.
  - unfold gone in Hg. congruence.
  - apply promoted; auto.
Qed.
Lemma Inv_boot_recovery v v' : Inv v -> at_ v "recovery" source -> heffect (ZBootfs (os "recovery")) v v' ->
  Inv v' /\ datasets v' = datasets v /\ bootfs v' = os "recovery".
Proof.
  intros [HU Hst] Hr He. inversion He as [| | | | |? ? _]; subst. split; [|done]. split; [by destruct HU|].
  destruct Hst as [Hc Hn _|Hg Hp Hn _ _|Hc Hp Hn _ _].
  - apply before; auto.
  - by apply swapping.
  - apply promoted; auto.
Qed.

(** A dataset keeps its role when the properties set do not say otherwise. *)
Definition same_roles (v v' : View) : Prop :=
  bootfs v' = bootfs v /\ (forall a o, at_ v' a o <-> at_ v a o) /\ (forall a, gone v' a <-> gone v a).
Lemma stage_same v v' : same_roles v v' -> stage v -> stage v'.
Proof.
  intros (Hb & Ha & Hg) [U1 U2 U3|U1 U2 U3 U4 U5|U1 U2 U3 U4 U5];
    [apply before|apply swapping|apply promoted]; rewrite ?Hb, ?Ha, ?Hg; done.
Qed.
Lemma Inv_set a set v v' : a = "current" \/ (a = "recovery" /\ Forall (fun kv => kv.1 <> "org.floatlab:update") set) ->
  Forall (fun kv => kv.1 <> "origin") set -> Inv v -> heffect (ZSet set (os a)) v v' -> Inv v' /\ same_roles v v'.
Proof.
  intros Ha Hset [HU Hst] He. inversion He as [| | | |? ? d ? Hd|]; subst.
  assert (Hsame : same_roles v (mkView (<[os a := set_props set d]> (datasets v)) (bootfs v))).
  { split_and!; [done| |].
    - intros b o. unfold at_. cbn. destruct (decide (os b = os a)) as [->|Hne].
      + rewrite lookup_insert_eq, Hd. split; intros (e & [= <-] & Ho); eexists; split; try done; by apply (has_origin_set o set d).
      + by rewrite lookup_insert_ne.
    - intros b. unfold gone. cbn. destruct (decide (os b = os a)) as [->|Hne];
        [rewrite lookup_insert_eq, Hd; done|by rewrite lookup_insert_ne]. }
  split; [|done]. split; [|by eapply stage_same].
  destruct HU as [U1 U2 U3 U4 U5 U6]. destruct Hsame as (_ & Hat & Hgone). split.
  - rewrite Forall_forall in *. intros b Hb n. cbn. destruct (decide (n = os a)) as [->|Hne].
    + intros _. by eapply U1; [|rewrite Hd].
    + rewrite lookup_insert_ne by done. by apply U1.
  - cbn. destruct (decide (source = os a)) as [->|Hne]; [by rewrite lookup_insert_eq|by rewrite lookup_insert_ne].
  - intros n e. cbn. destruct (decide (n = os a)) as [->|Hne]; [|rewrite lookup_insert_ne by done; apply U3].
    rewrite lookup_insert_eq. intros [= <-]. rewrite has_origin_set by done. by eapply U3.
  - intros e. cbn. destruct (decide (os "recovery" = os a)) as [E|Hne]; [|rewrite lookup_insert_ne by done; apply U4].
    destruct Ha as [->|[-> Hown]]; [by unfold os in E; cbn in E|]. rewrite lookup_insert_eq. intros [= <-].
    setoid_rewrite has_origin_set; [|done..]. rewrite owner_set by done. by apply U4.
  - intros e. cbn. destruct Ha as [->|[-> _]]; maps; apply U5.
  - by rewrite !Hgone, Hat.
Qed.

(** The source snapshot's name has an ["@"], dataset names have none. *)
Lemma source_not_os b : "@"%char ∉ chars b -> source <> os b.
Proof.
  intros Hb E. apply (f_equal chars) in E. unfold source, source_of, os in E. rewrite !chars_app in E.
  assert (Hin : "@"%char ∈ (chars "floatlab/os/" ++ chars b)%list).
  { rewrite <- E, !elem_of_app. right. by left. }
  apply elem_of_app in Hin as [Hin|Hin]; [|done].
  by apply (bool_decide_eq_true_2 _) in Hin.
Qed.
Lemma source_not_alias a : a ∈ os_aliases -> source <> os a.
Proof.
  intros Ha. apply source_not_os. revert a Ha. by apply (Forall_decide (fun a => "@"%char ∉ chars a)).
Qed.
Lemma retired_no_at : operationID (b_OperationID s) = true -> "@"%char ∉ chars ("retired-" +:+ b_OperationID s).
Proof.
  intros Hop. rewrite chars_app. intros [Hin|Hin]%elem_of_app; [by apply (bool_decide_eq_true_2 _) in Hin|].
  revert Hop Hin. unfold operationID. destruct (chars (b_OperationID s)) as [|c l]; [done|].
  intros Hop [Hc|Hin]%elem_of_cons; to_prop; [by subst c|].
  match goal with X : forallb _ l = true |- _ => rewrite forallb_forall in X; specialize (X "@"%char) end.
  apply list_elem_of_In in Hin. intuition discriminate.
Qed.

Lemma Inv_clone op v v' : operationID op = true -> Inv v -> gone v "recovery" ->
  heffect (ZClone (boot_flags [("org.floatlab:update", op)]) source (os "recovery")) v v' ->
  Inv v' /\ at_ v' "recovery" source.
Proof.
  intros Hop [HU Hst] Hg He. inversion He; subst.
  assert (Hr : forall d bf, has_origin source d -> at_ (mkView (<[os "recovery" := d]> (datasets v)) bf) "recovery" source).
  { intros d bf Hd. exists d. cbn. by rewrite lookup_insert_eq. }
  set (d := <["origin":=source]> _). assert (Hd : has_origin source d) by apply lookup_insert_eq.
  split; [|by apply Hr]. destruct HU as [U1 U2 U3 U4 U5 U6]. split.
  - split; cbn.
    + rewrite Forall_forall in *. intros b Hb. apply (leaf_insert _ (bootfs v)); [by apply U1|].
      unfold os_aliases in Hb. rewrite !elem_of_cons in Hb.
      by destruct Hb as [->|[->|[->|[->|Hb%elem_of_nil]]]].
    + rewrite lookup_insert_ne; [done|]. symmetry. apply source_not_alias. by repeat constructor.
    + intros n e. destruct (decide (n = os "recovery")) as [->|Hne]; [|rewrite lookup_insert_ne by done; apply U3].
      rewrite lookup_insert_eq. intros [= <-] E. unfold has_origin in E. rewrite lookup_insert_eq in E. apply (inj Some) in E.
      eapply source_not_alias; [|exact E]. by repeat constructor.
    + intros e. rewrite lookup_insert_eq. intros [= <-]. by left.
    + intros e. maps. apply U5.
    + unfold at_, gone in *. cbn. maps. done.
  - unfold gone in Hg. destruct Hst as [S1 S2 S3|S1 S2 S3 S4 S5|S1 S2 S3 S4 S5].
    + apply before; [| |destruct S3 as [S3|[_ (e & E & _)]]; [by left|congruence]];
        unfold at_ in *; cbn; maps; done.
    + destruct S4 as (e & E & _); congruence.
    + destruct S4 as (e & E & _); congruence.
Qed.

Lemma Inv_destroy o v v' : Inv v -> at_ v "recovery" o -> o <> source ->
  heffect (ZDestroy (os "recovery")) v v' -> Inv v' /\ gone v' "recovery".
Proof.
  intros [HU Hst] (e & E & Ho) Hne He. inversion He; subst.
  split; [|by apply lookup_delete_eq]. destruct HU as [U1 U2 U3 U4 U5 U6].
  assert (Hns : ~ at_ v "recovery" source).
  { intros (e' & E' & Ho'). rewrite E in E'. injection E' as <-. unfold has_origin in *. congruence. }
  split.
  - split; cbn.
    + rewrite Forall_forall in *. intros b Hb. by apply leaf_delete, U1.
    + rewrite lookup_delete_ne; [done|]. symmetry. apply source_not_alias. by repeat constructor.
    + intros n x [_ Hx]%lookup_delete_Some. by eapply U3.
    + intros x. by rewrite lookup_delete_eq.
    + intros x. maps. apply U5.
    + unfold at_, gone in *. cbn. maps. done.
  - destruct Hst as [S1 S2 S3|S1 S2 S3 S4 S5|S1 S2 S3 S4 S5]; [|done..].
    apply before; [| |destruct S3 as [S3|[_ S3]]; [by left|done]]; unfold at_ in *; cbn; maps; done.
Qed.

(** A rename between two names that are not the source snapshot. *)
Lemma usable_rename a b d bf v :
  usable v -> datasets v !! os a = Some d -> a ∈ os_aliases -> source <> os b ->
  Forall (fun c => below (os c) (os b) = false) os_aliases ->
  (b = "recovery" -> has_origin source d) ->
  (b = "previous" -> owner_of d <> "-" /\ owner_of d <> "") ->
  (at_ (mkView (<[os b := d]> (delete (os a) (datasets v))) bf) "current" source ->
   gone (mkView (<[os b := d]> (delete (os a) (datasets v))) bf) "previous" \/
   gone (mkView (<[os b := d]> (delete (os a) (datasets v))) bf) ("retired-" +:+ b_OperationID s)) ->
  usable (mkView (<[os b := d]> (delete (os a) (datasets v))) bf).
Proof.
  intros [U1 U2 U3 U4 U5 U6] Hd Ha Hs Hbelow Hrec Hprev Hret. split; cbn; [| | | | |done].
  - rewrite Forall_forall in *. intros c Hc. apply (leaf_insert _ bf); [|by apply Hbelow].
    by apply leaf_delete, U1.
  - rewrite lookup_insert_ne by done. rewrite lookup_delete_ne; [done|]. symmetry. by apply source_not_alias.
  - intros n x. destruct (decide (n = os b)) as [->|Hn].
    + rewrite lookup_insert_eq. intros [= <-]. by eapply U3.
    + rewrite lookup_insert_ne by done. intros [_ Hx]%lookup_delete_Some. by eapply U3.
  - intros x. destruct (decide (os "recovery" = os b)) as [E|Hn].
    + rewrite E, lookup_insert_eq. intros [= <-]. left. apply Hrec. by apply (inj (String.append "floatlab/os/")).
    + rewrite lookup_insert_ne by done. intros [_ Hx]%lookup_delete_Some. by apply U4.
  - intros x. destruct (decide (os "previous" = os b)) as [E|Hn].
    + rewrite E, lookup_insert_eq. intros [= <-]. apply Hprev. by apply (inj (String.append "floatlab/os/")).
    + rewrite lookup_insert_ne by done. intros [_ Hx]%lookup_delete_Some. by apply U5.
Qed.

Ltac renamed He :=
  let d := fresh "d" in let bf := fresh "bf" in let E := fresh "E" in let E' := fresh "E'" in let Hbf := fresh "Hbf" in
  apply heffect_rename in He as (d & bf & E & E' & -> & Hbf); [|by eapply leaf_alias; [|repeat constructor]].
Ltac roles := unfold at_, gone in *; cbn; maps; eauto.
Ltac rename_usable := eapply usable_rename; try done;
  [by repeat constructor|apply source_not_alias; by repeat constructor|by repeat constructor|..].

Definition at_source_boot (v : View) : Prop :=
  Inv v /\ at_ v "recovery" source /\ bootfs v = os "recovery".

(** An older [previous] is put aside. *)
Lemma Inv_retire v v' : at_source_boot v -> at_ v "current" source ->
  heffect (ZRename (os "previous") (os ("retired-" +:+ b_OperationID s))) v v' ->
  Inv v' /\ at_ v' "recovery" source /\ at_ v' "current" source /\ bootfs v' = os "recovery" /\ gone v' "previous".
Proof.
  intros ([HU Hst] & Hr & Hb) Hc He. pose proof HU as [U1 U2 U3 U4 U5 U6]. renamed He.
  assert (Hbf' : bf = os "recovery") by (destruct Hbf as [->|[Hx _]]; [done|rewrite Hb in Hx; os_ne]).
  assert (Hg : gone (mkView (<[os ("retired-" +:+ b_OperationID s) := d]> (delete (os "previous") (datasets v))) bf) "previous") by roles.
  subst bf. split_and!; try done; [|roles|roles]. split.
  - eapply usable_rename; try done; [by repeat constructor| | |intros _; left; exact Hg].
    + apply source_not_os, retired_no_at, Hw.
    + by repeat constructor.
  - destruct Hst as [S1 S2 S3|S1 S2 S3 S4 S5|S1 S2 S3 S4 S5].
    + apply before; [roles|roles|right; split; [done|roles]].
    + destruct Hc as (e & Hc & _). unfold gone in S1. congruence.
    + destruct Hc as (e & Hc & Ho), S1 as (e' & Hc' & Ho'). rewrite Hc in Hc'. injection Hc' as <-.
      destruct Hw as [Hne _ _]. unfold has_origin in *. congruence.
Qed.

Definition swapped (v : View) : Prop :=
  Inv v /\ gone v "current" /\ at_ v "previous" source /\ at_ v "next" target /\ at_ v "recovery" source /\
  bootfs v = os "recovery".
Definition done_promoting (v : View) : Prop := Inv v /\ at_ v "current" target /\ at_ v "previous" source.
Definition done_restoring (v : View) : Prop := Inv v /\ at_ v "current" source /\ at_ v "next" target.

(** The committed alias becomes [previous], under the updater's name. *)
Lemma Inv_swap v v' : at_source_boot v -> gone v "previous" ->
  (forall d, datasets v !! os "current" = Some d -> owner_of d <> "-" /\ owner_of d <> "") ->
  at_ v "current" source -> heffect (ZRename (os "current") (os "previous")) v v' -> swapped v'.
Proof.
  intros ([HU Hst] & Hr & Hb) Hg Hown Hc He. pose proof HU as [U1 U2 U3 U4 U5 U6]. renamed He.
  assert (Hbf' : bf = os "recovery") by (destruct Hbf as [->|[Hx _]]; [done|rewrite Hb in Hx; os_ne]). subst bf.
  assert (Hn : at_ v "next" target).
  { destruct Hst as [S1 S2 S3|S1 S2 S3 S4 S5|S1 S2 S3 S4 S5]; [done|done|].
    destruct S2 as (x & Hx & _). unfold gone in Hg. congruence. }
  assert (Hsw : gone (mkView (<[os "previous" := d]> (delete (os "current") (datasets v))) (os "recovery")) "current") by roles.
  assert (Hprev : at_ (mkView (<[os "previous" := d]> (delete (os "current") (datasets v))) (os "recovery")) "previous" source).
  { destruct Hc as (x & Hx & Ho). rewrite E in Hx. injection Hx as <-. exists d. cbn. by rewrite lookup_insert_eq. }
  split; [split|split_and!; try done; roles].
  - rename_usable; [by intros _; apply Hown|].
    intros (x & Hx & _). unfold gone in Hsw. congruence.
  - apply swapping; try done; roles.
Qed.

Lemma Inv_take_next v v' : swapped v -> heffect (ZRename (os "next") (os "current")) v v' -> done_promoting v'.
Proof.
  intros ([HU _] & Hg & Hp & Hn & Hr & Hb) He. pose proof HU as [U1 U2 U3 U4 U5 U6]. renamed He.
  assert (Hbf' : bf = os "recovery") by (destruct Hbf as [->|[Hx _]]; [done|rewrite Hb in Hx; os_ne]). subst bf.
  assert (Hc : at_ (mkView (<[os "current" := d]> (delete (os "next") (datasets v))) (os "recovery")) "current" target).
  { destruct Hn as (x & Hx & Ho). rewrite E in Hx. injection Hx as <-. exists d. cbn. by rewrite lookup_insert_eq. }
  split; [split|split; [done|roles]].
  - rename_usable. intros (x & Hx & Ho). destruct Hc as (y & Hy & Ho'). rewrite Hx in Hy. injection Hy as <-.
    destruct Hw as [Hne _ _]. unfold has_origin in *. congruence.
  - apply promoted; try done; try roles.
Qed.

(** Undoing a promotion: the new alias goes back to [next]. *)
Lemma Inv_put_back v v' : at_source_boot v -> at_ v "current" target ->
  heffect (ZRename (os "current") (os "next")) v v' -> swapped v'.
Proof.
  intros ([HU Hst] & Hr & Hb) Hc He. pose proof HU as [U1 U2 U3 U4 U5 U6]. renamed He.
  assert (Hbf' : bf = os "recovery") by (destruct Hbf as [->|[Hx _]]; [done|rewrite Hb in Hx; os_ne]). subst bf.
  assert (Hp : at_ v "previous" source).
  { destruct Hst as [S1 S2 S3|S1 S2 S3 S4 S5|S1 S2 S3 S4 S5]; [|done|done].
    destruct Hc as (x & Hx & Ho), S1 as (y & Hy & Ho'). rewrite Hx in Hy. injection Hy as <-.
    destruct Hw as [Hne _ _]. unfold has_origin in *. congruence. }
  assert (Hg : gone (mkView (<[os "next" := d]> (delete (os "current") (datasets v))) (os "recovery")) "current") by roles.
  assert (Hn : at_ (mkView (<[os "next" := d]> (delete (os "current") (datasets v))) (os "recovery")) "next" target).
  { destruct Hc as (x & Hx & Ho). rewrite E in Hx. injection Hx as <-. exists d. cbn. by rewrite lookup_insert_eq. }
  split; [split|split_and!; try done; roles].
  - rename_usable. intros (x & Hx & _). unfold gone in Hg. congruence.
  - apply swapping; try done; roles.
Qed.

Lemma Inv_restore v v' : swapped v -> heffect (ZRename (os "previous") (os "current")) v v' -> done_restoring v'.
Proof.
  intros ([HU _] & Hg & Hp & Hn & Hr & Hb) He. pose proof HU as [U1 U2 U3 U4 U5 U6]. renamed He.
  assert (Hbf' : bf = os "recovery") by (destruct Hbf as [->|[Hx _]]; [done|rewrite Hb in Hx; os_ne]). subst bf.
  assert (Hc : at_ (mkView (<[os "current" := d]> (delete (os "previous") (datasets v))) (os "recovery")) "current" source).
  { destruct Hp as (x & Hx & Ho). rewrite E in Hx. injection Hx as <-. exists d. cbn. by rewrite lookup_insert_eq. }
  split; [split|split; [done|roles]].
  - rename_usable. intros _. left. roles.
  - apply before; [done|roles|right; split; [done|roles]].
Qed.

(** ** The programs *)

Lemma at_unique v a o1 o2 : at_ v a o1 -> at_ v a o2 -> o1 = o2.
Proof.
  intros (x & Hx & Ho) (y & Hy & Ho'). rewrite Hx in Hy. injection Hy as <-. unfold has_origin in *. congruence.
Qed.
Lemma at_not_gone v a o : at_ v a o -> gone v a -> False.
Proof. intros (x & Hx & _) Hg. unfold gone in Hg. congruence. Qed.

(** What the answer to a question for the origin says. *)
Lemma origin_is v a d x : datasets v !! os a = Some d -> os x +:+ "@base" = default "-" (d !! "origin") -> at_ v a (os x +:+ "@base").
Proof.
  intros Hd Ho. exists d. split; [done|]. unfold has_origin. destruct (d !! "origin"); cbn in Ho; [by rewrite Ho|done].
Qed.
Lemma origin_of v a d o : datasets v !! os a = Some d -> at_ v a o -> default "-" (d !! "origin") = o.
Proof. intros Hd (x & Hx & Ho). rewrite Hd in Hx. injection Hx as <-. unfold has_origin in Ho. by rewrite Ho. Qed.

Lemma op_is_owner : "-" <> b_OperationID s /\ "" <> b_OperationID s.
Proof. destruct Hw as [_ Hop _]. split; intros E; by rewrite <- E in Hop. Qed.

(** Once the promoted alias was not seen, it is not there, or commands fail. *)
Definition unpromoted (v : View) : Prop := at_ v "current" target -> ~ Cooperative.

Lemma enabled_rename a b v : Inv v -> a ∈ os_aliases -> is_Some (datasets v !! os a) -> gone v b ->
  exists v', heffect (ZRename (os a) (os b)) v v'.
Proof.
  intros [[Hl _ _ _ _ _] _] Ha [d Hd] Hg. eexists. eapply he_rename; [done|done|by eapply leaf_alias|by left].
Qed.

Definition ready_to_retire (v : View) : Prop :=
  Inv v /\ at_ v "recovery" source /\ at_ v "current" source /\ bootfs v = os "recovery".

Lemma hoare_retire_previous (prev : bool) :
  hoare (fun v => ready_to_retire v /\ (if prev then is_Some (datasets v !! os "previous") else gone v "previous"))
    (if prev then
       owner ← attempt (property "org.floatlab:update" (os "previous"));
       match owner with
       | Ok owner =>
           if bool_decide (owner = "-") || bool_decide (owner = "") then fail "foreign previous boot dataset"
           else run_ (ZRename (os "previous") (os ("retired-" +:+ b_OperationID s)))
       | Err _ => fail "foreign previous boot dataset"
       end
     else ret tt)
    (fun _ v => ready_to_retire v /\ gone v "previous").
Proof.
  destruct prev; [|by apply hoare_ret].
  eapply hoare_bind; [apply hoare_try_property; by intros v [[HI _] _]|].
  intros [owner|e].
  - apply hoare_if.
    + intros Hb. apply hoare_fail. intros v [[(HI & _) _] (d & Hd & ->)]. split; [done|]. exfalso.
      destruct (u_previous _ (proj1 HI) d Hd) as [U1 U2]. fold (owner_of d) in Hb.
      apply orb_true_iff in Hb as [Hb|Hb]; by apply bool_decide_eq_true in Hb.
    + intros _. apply (hoare_run _ _ (fun x => x)); [done|by intros v [[[HI _] _] _]| |].
      * intros v [[(HI & Hr & Hc & Hb) Hp] _]. apply enabled_rename; [done|by repeat constructor|done|].
        destruct (u_retired _ (proj1 HI) Hc) as [Hg|Hg]; [|done]. unfold gone in Hg. rewrite Hg in Hp. by destruct Hp.
      * intros v v' [[(HI & Hr & Hc & Hb) Hp] _] He.
        destruct (Inv_retire v v' (conj HI (conj Hr Hb)) Hc He) as (V1 & V2 & V3 & V4 & V5).
        split; [done|]. split; [|done]. by split_and!.
  - apply hoare_fail. intros v [[(HI & _) Hp] Hgone]. split; [done|]. intros HC. specialize (Hgone HC).
    rewrite Hgone in Hp. by destruct Hp.
Qed.

Lemma hoare_retire_current :
  hoare (fun v => at_source_boot v /\ unpromoted v) (retire_current s) (fun _ v => swapped v).
Proof.
  unfold retire_current. eapply hoare_bind; [apply hoare_exists; by intros v [[HI _] _]|]. intros [|].
  2: { apply hoare_ret. intros v [[(HI & Hr & Hb) _] Hg]. destruct (proj2 HI) as [S1 S2 S3|S1 S2 S3 S4 S5|S1 S2 S3 S4 S5].
       - by destruct (at_not_gone _ _ _ S1).
       - by split_and!.
       - by destruct (at_not_gone _ _ _ S1). }
  eapply hoare_bind; [apply hoare_try_property; by intros v [[[HI _] _] _]|]. intros origin. apply hoare_if.
  - intros Hne. apply hoare_fail. intros v [[[(HI & Hr & Hb) Hun] Hs] Ho]. split; [done|]. intros HC.
    apply negb_true_iff, bool_decide_eq_false in Hne. destruct origin as [out|e].
    + destruct Ho as (d & Hd & ->). destruct (proj2 HI) as [S1 S2 S3|S1 S2 S3 S4 S5|S1 S2 S3 S4 S5].
      * apply Hne. f_equal. by eapply origin_of.
      * unfold gone in S1. congruence.
      * by apply Hun.
    + specialize (Ho HC). rewrite Ho in Hs. by destruct Hs.
  - intros Heq. apply negb_false_iff, bool_decide_eq_true in Heq. subst origin.
    eapply hoare_bind.
    { eapply hoare_pre; [|apply (hoare_exists Inv _ (os "previous") ready_to_retire); by intros v (HI & _)].
      intros v [[[(HI & Hr & Hb) Hun] Hs] (d & Hd & Ho)]. split_and!; try done. by eapply origin_is. }
    intros prev. eapply hoare_bind; [apply hoare_retire_previous|]. intros [].
    eapply hoare_bind.
    { apply (hoare_run Inv _ (fun x => x) _ _ (fun v => ready_to_retire v /\ gone v "previous" /\
        forall d, datasets v !! os "current" = Some d -> owner_of d <> "-" /\ owner_of d <> "")); [done|by intros v [(HI & _) _]| |].
      - intros v [(HI & Hr & (d & Hd & Ho) & Hb) Hg]. eexists. by apply he_set.
      - intros v v' [(HI & Hr & Hc & Hb) Hg] He. pose proof He as He0.
        apply Inv_set in He; [|by left|by repeat constructor|done].
        destruct He as [HI' (Hb' & Hat & Hgo)]. split; [done|]. split; [split_and!; rewrite ?Hb', ?Hat; done|].
        split; [by apply Hgo|]. inversion He0; subst. cbn. intros d'. rewrite lookup_insert_eq. intros [= <-].
        unfold owner_of. cbn. rewrite lookup_insert_eq. cbn. destruct op_is_owner. by split. }
    intros []. apply (hoare_run _ _ (fun x => x)); [done|by intros v [(HI & _) _]| |].
    + intros v [(HI & Hr & (d & Hd & Ho) & Hb) [Hg _]]. apply enabled_rename; [done|by repeat constructor|by rewrite Hd|done].
    + intros v v' [(HI & Hr & Hc & Hb) [Hg Hown]] He.
      assert (Hsw : swapped v') by (eapply Inv_swap; try done). split; [by destruct Hsw|done].
Qed.

Definition unpromoted_inv (v : View) : Prop := Inv v /\ unpromoted v.

Lemma hoare_drop_recovery :
  hoare unpromoted_inv (drop_foreign_recovery (source_of s))
    (fun _ v => unpromoted_inv v /\ (gone v "recovery" \/ at_ v "recovery" source)).
Proof.
  unfold drop_foreign_recovery. eapply hoare_bind; [apply hoare_exists; by intros v [HI _]|]. intros [|].
  2: { apply hoare_ret. intros v [HI Hg]. split; [done|]. by left. }
  eapply hoare_bind; [apply (hoare_property _ _ (fun x => x)); by intros v [[HI _] Hs]|]. intros origin.
  destruct (decide (origin = source_of s)) as [->|Hne].
  { apply hoare_ret. intros v [[HI _] (d & Hd & Ho)]. split; [done|]. right. by eapply origin_is. }
  eapply hoare_bind; [apply hoare_try_property; by intros v [[[HI _] _] _]|].
  assert (Howned : forall v d, Inv v -> datasets v !! os "recovery" = Some d -> origin = default "-" (d !! "origin") ->
    operationID (owner_of d) = true /\ exists o, at_ v "recovery" o /\ o <> source).
  { intros v d HI Hd Ho. destruct (u_recovery _ (proj1 HI) d Hd) as [Hs|[(o & Ho') Hown]].
    - exfalso. apply Hne. unfold has_origin in Hs. by rewrite Ho, Hs.
    - split; [done|]. exists o. split; [by exists d|]. intros ->. apply Hne. unfold has_origin in Ho'. by rewrite Ho, Ho'. }
  intros [owner|e].
  - apply hoare_if.
    + intros Hop. apply (hoare_run _ _ (fun x => x)); [done|by intros v [[[[HI _] _] _] _]| |].
      * intros v [[[[HI _] _] (d & Hd & Ho)] _]. eexists. apply he_destroy; [by rewrite Hd| |].
        -- eapply leaf_alias; [by destruct HI as [[] _]|by repeat constructor].
        -- by destruct HI as [[] _].
      * intros v v' [[[[HI Hun] _] (d & Hd & Ho)] _] He. destruct (Howned v d HI Hd Ho) as (_ & o & Ha & Hno).
        pose proof He as He0. apply (Inv_destroy o) in He as [HI' Hg]; [|done..]. split; [done|].
        split; [|by left]. split; [done|]. inversion He0; subst. intros (x & Hx & Hox). apply Hun.
        exists x. split; [|done]. revert Hx. cbn. by maps.
    + intros Hop. apply hoare_fail. intros v [[[[HI Hun] _] (d & Hd & Ho)] (d' & Hd' & ->)]. split; [done|].
      rewrite Hd in Hd'. injection Hd' as <-. destruct (Howned v d HI Hd Ho) as (Hop' & _).
      unfold owner_of in Hop'. congruence.
  - apply hoare_fail. intros v [[[[HI _] _] (d & Hd & _)] Hgone]. split; [done|]. intros HC.
    specialize (Hgone HC). congruence.
Qed.

Lemma hoare_keep_recovery :
  hoare (fun v => unpromoted_inv v /\ (gone v "recovery" \/ at_ v "recovery" source)) (keep_recovery s)
    (fun _ v => unpromoted_inv v /\ at_ v "recovery" source).
Proof.
  unfold keep_recovery. eapply hoare_bind; [apply hoare_exists; by intros v [[HI _] _]|]. intros [|].
  - apply hoare_ret. intros v [[HI [Hg|Ha]] [d Hd]]; [unfold gone in Hg; congruence|done].
  - apply (hoare_run _ _ (fun x => x)); [done|by intros v [[[HI _] _] _]| |].
    + intros v [[[HI _] _] Hg]. eexists. apply he_clone; [done|by destruct HI as [[] _]].
    + intros v v' [[[HI Hun] _] Hg] He. pose proof He as He0. destruct Hw as [Hne Hop Hhost].
      apply Inv_clone in He as [HI' Ha]; [|done..]. split; [done|]. split; [|done]. split; [done|].
      inversion He0; subst. intros (x & Hx & Ho). apply Hun. exists x. split; [|done]. revert Hx. cbn. by maps.
Qed.

Lemma hoare_boot_current (Pre Q : View -> Prop) :
  (forall v, Pre v -> Inv v /\ is_Some (datasets v !! os "current")) ->
  (forall v v', Pre v -> Inv v' -> datasets v' = datasets v -> bootfs v' = os "current" -> Q v') ->
  hoare Pre (run_ (ZBootfs (os "current"))) (fun _ v => Q v).
Proof.
  intros HP HQ. apply (hoare_run _ _ (fun x => x)); [done|by intros v [HI _]%HP| |].
  - intros v [HI Hc]%HP. eexists. by apply he_bootfs.
  - intros v v' Hp He. apply Inv_boot_current in He as (HI' & Hd & Hb); [|by apply HP]. split; [done|]. by eapply HQ.
Qed.

Lemma at_same v v' a o : datasets v' = datasets v -> at_ v a o -> at_ v' a o.
Proof. intros Hd (x & Hx & Ho). exists x. by rewrite Hd. Qed.

Lemma hoare_Promote : hoare Inv (Promote s) (fun _ v => done_promoting v /\ bootfs v = os "current").
Proof.
  unfold Promote. eapply hoare_bind; [by apply hoare_try_property|]. intros current. apply hoare_if.
  - intros ->%bool_decide_eq_true. apply hoare_boot_current.
    + intros v [HI (d & Hd & _)]. by rewrite Hd.
    + intros v v' [HI (d & Hd & Ho)] HI' Hdat Hb.
      assert (Hc : at_ v "current" target) by (by eapply origin_is). split; [|done]. split_and!; [done|by eapply at_same|].
      eapply at_same; [done|]. destruct (proj2 HI) as [S1 S2 S3|S1 S2 S3 S4 S5|S1 S2 S3 S4 S5]; [|done|done].
      destruct Hw as [Hn _ _]. exfalso. exact (Hn (at_unique _ _ _ _ S1 Hc)).
  - intros Hne%bool_decide_eq_false. eapply hoare_bind.
    { eapply hoare_pre; [|apply hoare_drop_recovery]. intros v [HI Hc]. split; [done|]. intros Ht HC.
      destruct current as [out|e].
      - destruct Hc as (d & Hd & ->). apply Hne. f_equal. by eapply origin_of.
      - by destruct (at_not_gone _ _ _ Ht (Hc HC)). }
    intros []. eapply hoare_bind; [apply hoare_keep_recovery|]. intros []. cbv zeta.
    rewrite (wn_host Hw). cbn [negb].
    eapply hoare_bind.
    { apply (hoare_run Inv _ (fun x => x) _ _ (fun v => unpromoted_inv v /\ at_ v "recovery" source)); [done|by intros v [[HI _] _]| |].
      - intros v [_ (d & Hd & _)]. eexists. by apply he_set.
      - intros v v' [[HI Hun] Ha] He. apply Inv_set in He; [|right; split; [done|by repeat constructor]|by repeat constructor|done].
        destruct He as [HI' (Hb' & Hat & Hgo)]. unfold unpromoted_inv, unpromoted. by rewrite !Hat. }
    intros []. eapply hoare_bind.
    { apply (hoare_run Inv _ (fun x => x) _ _ (fun v => at_source_boot v /\ unpromoted v)); [done|by intros v [[HI _] _]| |].
      - intros v [_ (d & Hd & _)]. eexists. apply he_bootfs. by rewrite Hd.
      - intros v v' [[HI Hun] Ha] He. apply Inv_boot_recovery in He as (HI' & Hd & Hb); [|done..].
        split; [done|]. split; [split_and!; [done|by eapply at_same|done]|]. intros Ht. apply Hun. by eapply at_same. }
    intros []. eapply hoare_bind; [apply hoare_retire_current|]. intros [].
    eapply hoare_bind; [apply hoare_try_property; by intros v [HI _]|]. intros origin. apply hoare_if.
    + intros Ho. apply negb_true_iff, bool_decide_eq_false in Ho. apply hoare_fail.
      intros v [(HI & _ & _ & Hn & _) Hr]. split; [done|]. intros HC. destruct origin as [out|e].
      * destruct Hr as (d & Hd & ->). apply Ho. f_equal. by eapply origin_of.
      * by destruct (at_not_gone _ _ _ Hn (Hr HC)).
    + intros _. eapply hoare_bind.
      { apply (hoare_run Inv _ (fun x => x) _ _ done_promoting); [done|by intros v [(HI & _) _]| |].
        - intros v [(HI & Hg & _ & (d & Hd & _) & _) _]. apply enabled_rename; [done|by repeat constructor|by rewrite Hd|done].
        - intros v v' [Hs _] He. assert (Hd : done_promoting v') by (by eapply Inv_take_next). split; [by destruct Hd|done]. }
      intros []. apply hoare_boot_current.
      * intros v (HI & (d & Hd & _) & _). by rewrite Hd.
      * intros v v' (HI & Hc & Hp) HI' Hdat Hb. split; [|done]. split_and!; [done|by eapply at_same..].
Qed.

Lemma hoare_restore_alias :
  hoare swapped (restore_alias (source_of s) ["previous"; "recovery"])
    (fun _ v => done_restoring v /\ bootfs v = os "current").
Proof.
  cbn [restore_alias]. eapply hoare_bind; [apply hoare_exists; by intros v [HI _]|]. intros [|].
  2: { intros w [(HI & Hg & Hp & _) Hn]. by destruct (at_not_gone _ _ _ Hp Hn). }
  eapply hoare_bind; [apply (hoare_property _ _ (fun x => x)); by intros v [[HI _] Hs]|]. intros origin.
  destruct (decide (origin = source_of s)) as [->|Hne].
  2: { intros w [[(HI & Hg & Hp & _) _] (d & Hd & Ho)]. exfalso. apply Hne. rewrite Ho. by eapply origin_of. }
  eapply hoare_bind.
  { apply (hoare_run Inv _ (fun x => x) _ _ done_restoring); [done|by intros v [[[HI _] _] _]| |].
    - intros v [[(HI & Hg & (d & Hd & _) & _) _] _]. apply enabled_rename; [done|by repeat constructor|by rewrite Hd|done].
    - intros v v' [[Hs _] _] He. assert (Hd : done_restoring v') by (by eapply Inv_restore). split; [by destruct Hd|done]. }
  intros []. apply hoare_boot_current.
  - intros v (HI & (d & Hd & _) & _). by rewrite Hd.
  - intros v v' (HI & Hc & Hp) HI' Hdat Hb. split; [|done]. split_and!; [done|by eapply at_same..].
Qed.

Lemma hoare_RestoreBoot : hoare Inv (RestoreBoot s) (fun _ v => done_restoring v /\ bootfs v = os "current").
Proof.
  unfold RestoreBoot. cbv zeta. eapply hoare_bind; [by apply hoare_exists|]. intros [|].
  2: { eapply hoare_pre; [|apply hoare_restore_alias]. intros v [HI Hg].
       destruct (proj2 HI) as [S1 S2 S3|S1 S2 S3 S4 S5|S1 S2 S3 S4 S5]; [|by split_and!|];
         by destruct (at_not_gone _ _ _ S1). }
  eapply hoare_bind; [by apply hoare_property|]. intros origin.
  destruct (decide (origin = source_of s)) as [->|Hne].
  { apply hoare_boot_current; [by intros v [[HI Hs] _]|].
    intros v v' [[HI Hs] (d & Hd & Ho)] HI' Hdat Hb.
    assert (Hc : at_ v "current" source) by (by eapply origin_is). split; [|done]. split_and!; [done|by eapply at_same|].
    eapply at_same; [done|]. destruct (proj2 HI) as [S1 S2 S3|S1 S2 S3 S4 S5|S1 S2 S3 S4 S5]; [done|done|].
    destruct Hw as [Hn _ _]. exfalso. exact (Hn (at_unique _ _ _ _ Hc S1)). }
  assert (Hstage : forall v d, Inv v -> datasets v !! os "current" = Some d -> origin = default "-" (d !! "origin") ->
    at_ v "current" target /\ at_ v "recovery" source /\ gone v "next").
  { intros v d HI Hd Ho. destruct (proj2 HI) as [S1 S2 S3|S1 S2 S3 S4 S5|S1 S2 S3 S4 S5]; [|unfold gone in S1; congruence|done].
    exfalso. apply Hne. rewrite Ho. by eapply origin_of. }
  apply hoare_if.
  { intros Ht. apply negb_true_iff, bool_decide_eq_false in Ht. intros w [[HI Hs] (d & Hd & Ho)].
    destruct (Hstage _ _ HI Hd Ho) as (Hc & _). exfalso. apply Ht. rewrite Ho. by eapply origin_of. }
  intros Ht. apply negb_false_iff, bool_decide_eq_true in Ht.
  eapply hoare_bind; [apply hoare_try_property; by intros v [[HI _] _]|]. intros recovery. apply hoare_if.
  { intros Hr. apply negb_true_iff, bool_decide_eq_false in Hr. apply hoare_fail.
    intros v [[[HI Hs] (d & Hd & Ho)] Ha]. split; [done|]. intros HC. destruct (Hstage _ _ HI Hd Ho) as (_ & Hrec & _).
    destruct recovery as [out|e].
    - destruct Ha as (x & Hx & ->). apply Hr. f_equal. by eapply origin_of.
    - by destruct (at_not_gone _ _ _ Hrec (Ha HC)). }
  intros _. eapply hoare_bind.
  { apply (hoare_run Inv _ (fun x => x) _ _ (fun v => at_source_boot v /\ at_ v "current" target /\ gone v "next")); [done|by intros v [[[HI _] _] _]| |].
    - intros v [[[HI Hs] (d & Hd & Ho)] _]. destruct (Hstage _ _ HI Hd Ho) as (_ & (x & Hx & _) & _).
      eexists. apply he_bootfs. by rewrite Hx.
    - intros v v' [[[HI Hs] (d & Hd & Ho)] _] He. destruct (Hstage _ _ HI Hd Ho) as (Hc & Hrec & Hn).
      apply Inv_boot_recovery in He as (HI' & Hdat & Hb); [|done..]. split; [done|].
      split; [split_and!; [done|by eapply at_same|done]|]. split; [by eapply at_same|]. unfold gone in *. by rewrite Hdat. }
  intros []. eapply hoare_bind; [apply hoare_exists; by intros v [[HI _] _]|]. intros [|].
  { intros w [(_ & _ & Hn) [x Hx]]. unfold gone in Hn. congruence. }
  apply (hoare_bind _ _ _ _ _ (fun _ => swapped)); [|intros []; apply hoare_restore_alias].
  apply (hoare_run _ _ (fun x => x)); [done|by intros v [[[HI _] _] _]| |].
  - intros v [[[HI _] [(d & Hd & _) Hn]] _]. apply enabled_rename; [done|by repeat constructor|by rewrite Hd|done].
  - intros v v' [[Hb [Hc Hn]] _] He. assert (Hsw : swapped v') by (by eapply Inv_put_back). split; [by destruct Hsw|done].
Qed.

(** Nothing else touches the roles: the trial token leaves the command line. *)
Lemma hoare_FinalizeCommit : hoare (fun v => Inv v /\ at_ v "current" target) (FinalizeCommit s)
  (fun _ v => Inv v /\ at_ v "current" target).
Proof.
  unfold FinalizeCommit. eapply hoare_bind; [apply hoare_try_property; by intros v [HI _]|]. intros origin. apply hoare_if.
  { intros Hr. apply negb_true_iff, bool_decide_eq_false in Hr. apply hoare_fail.
    intros v [[HI Hc] Ha]. split; [done|]. intros HC. destruct origin as [out|e].
    - destruct Ha as (x & Hx & ->). apply Hr. f_equal. by eapply origin_of.
    - by destruct (at_not_gone _ _ _ Hc (Ha HC)). }
  intros _. eapply hoare_bind; [apply (hoare_property _ _ (fun x => x)); intros v [[HI (d & Hd & _)] _]; by rewrite Hd|]. intros cmdline.
  eapply hoare_bind.
  { apply (hoare_run Inv _ (fun x => x) _ _ (fun v => Inv v /\ at_ v "current" target)); [done|by intros v [[[HI _] _] _]| |].
    - intros v [[[HI (d & Hd & _)] _] _]. eexists. by apply he_set.
    - intros v v' [[[HI Hc] _] _] He. apply Inv_set in He; [|by left|by repeat constructor|done].
      destruct He as [HI' (_ & Hat & _)]. by rewrite Hat. }
  intros []. unfold WriteGuardMessage. rewrite (wn_op Hw).
  intros w [HI Hc] Hf. unfold run_, mbind, prog_mbind, bind.
  destruct (run_query (GuardMessage (b_OperationID s) "committed") w eq_refl) as (Hv & Hpast & Hr).
  assert (Hco : Cooperative -> is_ok (run (GuardMessage (b_OperationID s) "committed") w).1 = true)
    by (intros HC; rewrite Hr; by apply co_guard).
  destruct (run _ w) as [r w']. cbn in *.
  destruct r; cbn; rewrite Hpast; (split; [constructor; [by rewrite Hv|done]|]); rewrite Hv; [done|].
  split; [done|]. intros HC. by specialize (Hco HC).
Qed.
End Safety.

(** ** Histories *)

Definition visited {P : Type} `{Host P} (m : prog string W unit) (p : P) : list P :=
  let w := (m (mkW p [])).2 in pool w :: past w.

(** The operations a pending update runs on the pool; the commit is finished
    only after a promotion. *)
Inductive boot_op {P : Type} `{Host P} (s : BootStatus) (v : View) : prog string W unit -> Prop :=
| bo_promote : boot_op s v (Promote s)
| bo_restore : boot_op s v (RestoreBoot s)
| bo_finalize : at_ v "current" (target s) -> boot_op s v (FinalizeCommit s).

(** Any number of operations in any order, each stopped after any command, on
    hosts that may fail at will; with [told], [zfs list] never failed for a
    dataset that was there. *)
Inductive boot_history (told : bool) (s : BootStatus) (v0 : View) : View -> Prop :=
| bh_start : boot_history told s v0 v0
| bh_op (P : Type) (Ho : Host P) (L : HostLaws P) m (p p' : P) :
    (told = true -> TrueExists (P := P)) ->
    boot_history told s v0 (view p) -> boot_op s (view p) m -> p' ∈ visited m p -> boot_history told s v0 (view p').

(** The state [Stage] leaves: the running release is [current] and boots, the
    new one is [next]. *)
Definition staged (s : BootStatus) (v : View) : Prop :=
  usable s v /\ at_ v "current" (source s) /\ at_ v "next" (target s) /\ bootfs v = os "current".

Lemma history_Inv s v0 v : well_named s -> staged s v0 -> boot_history true s v0 v -> Inv s v.
Proof.
  intros Hw (HU & Hc & Hn & Hb). induction 1 as [|P Ho L m p p' Te _ IH Hop Hin]; [|specialize (Te eq_refl)].
  { split; [done|]. apply before; auto. }
  assert (Hm : triple (Inv s) (~ Cooperative (P := P)) (fun v => v = view p) m (fun _ v => Inv s v)).
  { assert (Hmono : forall Q : View -> Prop, (forall v, Q v -> Inv s v) -> forall Pre, Pre (view p) ->
      triple (Inv s) (~ Cooperative (P := P)) Pre m (fun _ v => Q v) -> triple (Inv s) (~ Cooperative (P := P)) (fun v => v = view p) m (fun _ v => Inv s v)).
    { intros Q HQ Pre Hpre Hh w Hv Hf. rewrite <- Hv in Hpre. destruct (Hh w Hpre Hf) as [Hf' Hr]. split; [done|]. destruct (m w).1; auto. }
    destruct Hop as [| |Ha].
    - eapply Hmono; [|exact IH|by apply hoare_Promote]. by intros ? [(HI & _) _].
    - eapply Hmono; [|exact IH|by apply hoare_RestoreBoot]. by intros ? [(HI & _) _].
    - apply (Hmono (fun v => Inv s v /\ at_ v "current" (target s)) ltac:(by intros ? [HI _])
        (fun v => Inv s v /\ at_ v "current" (target s)) (conj IH Ha)). by apply hoare_FinalizeCommit. }
  destruct (Hm (mkW p []) eq_refl ltac:(constructor)) as [Hf Hr]. unfold visited in Hin.
  apply elem_of_cons in Hin as [->|Hin].
  - destruct (m (mkW p [])).1; [done|by destruct Hr].
  - rewrite Forall_forall in Hf. by apply Hf.
Qed.

(** ** A concrete host *)

(** A host that does what can be done. *)
#[export] Instance leaf_dec v a : Decision (leaf v a).
Proof.
  refine (cast_if (decide (map_Forall (fun n _ => below a n = false) (datasets v)))).
  - abstract (intros n [d Hd]; by eapply (m n d)).
  - abstract (intros Hl; apply n; intros k d Hd; apply Hl; by eexists).
Defined.
Definition no_clone_of (v : View) (ds : string) : bool :=
  bool_decide (map_Forall (fun _ (d : props) => d !! "origin" <> Some ds) (datasets v)).

Definition os_member_b (n : string) : bool :=
  bool_decide (n = "floatlab/os") ||
  (has_prefix (chars n) (chars "floatlab/os/") &&
   let c := drop 12 (chars n) in
   negb (bool_decide (c = [])) && negb (bool_decide ("/"%char ∈ c)) && negb (bool_decide ("@"%char ∈ c))).
Definition listing (v : View) : string := Join (filter (fun n => os_member_b n = true) (map_to_list (datasets v)).*1) " ".
Definition listing_ok (v : View) (out : string) : bool :=
  forallb (fun n => os_member_b n && bool_decide (is_Some (datasets v !! n))) (Fields out) &&
  forallb (fun n => negb (os_member_b n) || bool_decide (n ∈ Fields out)) (map_to_list (datasets v)).*1.

Definition effect_of (c : hostcmd) (v : View) : option View :=
  match c with
  | ZClone set snap ds =>
      if bool_decide (datasets v !! ds = None) && bool_decide (is_Some (datasets v !! snap))
      then Some (mkView (<[ds := <["origin" := snap]> (set_props set ∅)]> (datasets v)) (bootfs v)) else None
  | ZDestroy ds =>
      if bool_decide (is_Some (datasets v !! ds)) && bool_decide (leaf v ds) && no_clone_of v ds
      then Some (mkView (delete ds (datasets v)) (bootfs v)) else None
  | ZRename a b =>
      if negb (bool_decide (datasets v !! b = None)) then None
      else if negb (bool_decide (leaf v a)) then Some v
      else match datasets v !! a with
           | Some d => Some (mkView (<[b := d]> (delete a (datasets v))) (if decide (bootfs v = a) then b else bootfs v))
           | None => None
           end
  | ZSet set ds =>
      match datasets v !! ds with
      | Some d => Some (mkView (<[ds := set_props set d]> (datasets v)) (bootfs v))
      | None => None
      end
  | ZBootfs ds => if bool_decide (is_Some (datasets v !! ds)) then Some (mkView (datasets v) ds) else None
  | _ => None
  end.

#[export] Instance tame_host : Host View := {
  view v := v;
  execute c v :=
    match c with
    | ZExists ds => (if bool_decide (is_Some (datasets v !! ds)) then Ok "" else Err "no such dataset", v)
    | ZGet key ds => (match datasets v !! ds with Some d => Ok (default "-" (d !! key)) | None => Err "no such dataset" end, v)
    | ZListOS => (if listing_ok v (listing v) then Ok (listing v) else Err "zfs list", v)
    | RemoveFile _ | GuardMessage _ _ => (Ok "", v)
    | _ => match effect_of c v with Some v' => (Ok "", v') | None => (Err "refused", v) end
    end }.

Lemma effect_of_sound c v v' : effect_of c v = Some v' -> heffect c v v'.
Proof.
  destruct c as [| | |set snap ds|ds|a b|set ds|ds| |]; cbn; intros He; try done.
  - destruct (_ && _) eqn:E; [|done]. injection He as <-. to_prop. by apply he_clone.
  - destruct (_ && _ && _) eqn:E; [|done]. injection He as <-. to_prop. apply he_destroy; [done..|].
    intros n d Hd. by match goal with X : no_clone_of _ _ = true |- _ => apply bool_decide_eq_true in X; apply (X n d) end.
  - destruct (negb (bool_decide (datasets v !! b = None))) eqn:Hb; [done|]. to_prop.
    destruct (negb (bool_decide (leaf v a))) eqn:Hl; to_prop; [by apply he_rename_tree|].
    destruct (datasets v !! a) as [d|] eqn:Ha; [|done]. injection He as <-. apply he_rename; try done.
    case_decide; auto.
  - destruct (datasets v !! ds) as [d|] eqn:Hd; [|done]. injection He as <-. by apply he_set.
  - destruct (bool_decide _) eqn:E; [|done]. injection He as <-. to_prop. by apply he_bootfs.
Qed.
Lemma effect_of_complete c v v' : heffect c v v' -> is_Some (effect_of c v).
Proof.
  destruct 1 as [set snap ds v Hn Hs|ds v Hs Hl Hc|a b d v bf Ha Hb Hl Hbf|a b v v' Hl Hb|set ds d v Hd|ds v Hs]; cbn.
  - by rewrite !bool_decide_eq_true_2.
  - rewrite !bool_decide_eq_true_2 by done. unfold no_clone_of. rewrite bool_decide_eq_true_2; [done|]. intros n d. apply Hc.
  - rewrite !bool_decide_eq_true_2 by done. by rewrite Ha.
  - rewrite bool_decide_eq_true_2, bool_decide_eq_false_2 by done. by eexists.
  - by rewrite Hd.
  - by rewrite bool_decide_eq_true_2.
Qed.

Lemma os_member_b_spec n : os_member_b n = true <-> os_member n.
Proof.
  unfold os_member_b, os_member. rewrite orb_true_iff, bool_decide_eq_true, andb_true_iff. cbv zeta.
  rewrite !andb_true_iff, !negb_true_iff, !bool_decide_eq_false. split; (intros [Hn|Hn]; [by left|right]).
  - destruct Hn as [[r Hr]%has_prefix_app [[H1 H2] H3]]. exists (str r).
    assert (Hc : chars (str r) = r) by apply String.list_ascii_of_string_of_list_ascii.
    rewrite Hr in H1, H2, H3. cbn in H1, H2, H3. rewrite Hc. split_and!; [|intros E; rewrite E in Hc; by rewrite <- Hc in H1|done|done].
    apply chars_inj. by rewrite chars_app, Hc.
  - destruct Hn as (c & -> & Hc & H1 & H2). rewrite chars_app. split; [apply has_prefix_app; by exists (chars c)|].
    cbn. split_and!; [|done|done]. intros E. apply Hc, chars_inj. done.
Qed.

Lemma tame_mutating c v : mutating c = true ->
  execute c v = match effect_of c v with Some v' => (Ok "", v') | None => (Err "refused", v) end.
Proof. by destruct c. Qed.
Lemma tame_query c v : mutating c = false -> (execute c v).2 = v.
Proof. by destruct c. Qed.

#[export] Instance tame_laws : HostLaws View.
Proof.
  split.
  - intros c v. destruct (mutating c) eqn:Hm; [|left; by apply tame_query]. rewrite tame_mutating by done.
    destruct (effect_of c v) eqn:E; [|by left]. right. split; [done|]. by apply effect_of_sound.
  - intros c v out Ho Hm. rewrite tame_mutating in * by done.
    destruct (effect_of c v) eqn:E; [|done]. by apply effect_of_sound.
  - intros c v out Ho. destruct c; cbn in *; try done.
    + destruct (bool_decide _) eqn:E; [|done]. by to_prop.
    + destruct (datasets v !! ds) as [d|]; [|done]. apply Ok_inj in Ho as <-. eauto.
    + destruct (listing_ok v (listing v)) eqn:E; [|done]. apply Ok_inj in Ho as <-. unfold listing_ok in E.
      apply andb_true_iff in E as [E1 E2]. rewrite forallb_forall in E1, E2. intros n. rewrite <- os_member_b_spec. split.
      * intros Hn. apply list_elem_of_In, E1, andb_true_iff in Hn as [Hn Hd]. by to_prop.
      * intros [Hn [d Hd]]. specialize (E2 n). rewrite Hn in E2. cbn in E2. eapply bool_decide_eq_true_1, E2.
        apply list_elem_of_In, list_elem_of_fmap. exists (n, d). split; [done|]. by apply elem_of_map_to_list.
Qed.

#[export] Instance tame_exists : TrueExists (P := View).
Proof. intros ds v. cbn. destruct (bool_decide _) eqn:E; [done|]. to_prop. intros _. by destruct (datasets v !! ds) eqn:?; [destruct E|]. Qed.

Lemma tame_cooperative : Cooperative (P := View).
Proof.
  split.
  - intros c v Hm [v' He]. apply effect_of_complete in He as [x Hx]. cbn in Hx. rewrite tame_mutating by done. by rewrite Hx.
  - intros key ds v [d Hd]. cbn in *. by rewrite Hd.
  - done.
Qed.

Definition example_release (v id : string) : Manifest :=
  mkManifest (mkPayload v "" "" ("/nix/store/" +:+ v +:+ "/init") 1 ∅ 1) "amd64" 1 "zbm" "openzfs-2.3-linux"
    (mkEngine "28" "2" "zfs" "/floatlab/system/docker") [] id.
Definition example_boot : BootStatus :=
  mkBoot "op-1" "committing" (example_release "2.0.0" "") (example_release "1.0.0" "0a1b2c3d").
Definition clone_of (snap owner : string) : props := {["origin" := snap; "org.floatlab:update" := owner]}.
Definition example_pool : View := mkView (list_to_map
  [("floatlab/os", ∅); (os "1.0.0", {["org.floatlab:update" := "op-0"]}); (os "1.0.0@base", ∅);
   (os "2.0.0", {["org.floatlab:update" := "op-1"]}); (os "2.0.0@base", ∅);
   (os "current", clone_of (os "1.0.0@base") "op-0"); (os "next", clone_of (os "2.0.0@base") "op-1");
   (os "0.9.0", {["org.floatlab:update" := "op-x"]}); (os "0.9.0@base", ∅);
   (os "previous", clone_of (os "0.9.0@base") "op-x")]) (os "current").

Lemma example_named : well_named example_boot.
Proof. split; vm_compute; done. Qed.
Lemma example_current : at_ example_pool "current" (source example_boot).
Proof. exists (clone_of (os "1.0.0@base") "op-0"). unfold has_origin. split; apply (bool_decide_eq_true_1 _); vm_compute; reflexivity. Qed.
Lemma example_next : at_ example_pool "next" (target example_boot).
Proof. exists (clone_of (os "2.0.0@base") "op-1"). unfold has_origin. split; apply (bool_decide_eq_true_1 _); vm_compute; reflexivity. Qed.
Lemma example_usable : usable example_boot example_pool.
Proof.
  split.
  - unfold os_aliases. rewrite !Forall_cons. split_and!; [..|by apply Forall_nil];
      apply (bool_decide_eq_true_1 _); vm_compute; reflexivity.
  - exists ∅. vm_compute. reflexivity.
  - intros n d Hd Ho. assert (Hf : no_clone_of example_pool (os "recovery") = true) by (vm_compute; reflexivity).
    apply bool_decide_eq_true in Hf. exact (Hf n d Hd Ho).
  - intros d Hd. assert (Hn : datasets example_pool !! os "recovery" = None) by (vm_compute; reflexivity). congruence.
  - intros d Hd. assert (Ho : owner_of <$> (datasets example_pool !! os "previous") = Some "op-x") by (vm_compute; reflexivity).
    rewrite Hd in Ho. cbn in Ho. apply (inj Some) in Ho. rewrite Ho. split; discriminate.
  - intros _. right. vm_compute. reflexivity.
Qed.
Lemma example_staged : staged example_boot example_pool.
Proof. exact (conj example_usable (conj example_current (conj example_next eq_refl))). Qed.
