(* ===== verification/HostBootAlways.v ===== *)
(** What the boot datasets of [HostBoot.v] keep on any host, also on one whose
    [zfs list] fails for a dataset that is there, which the code takes for
    absence; and what such a failure can cost. *)
From S2P Require Import Prelude Timestamp Release Update Netip HostConfig GoStrings HostManifest HostBoot HostBootSafety.
From Stdlib Require Import Ascii.

Open Scope string_scope.

Section Always.
Context {P : Type} `{HostLaws P} (s : BootStatus) (Hw : well_named s).
Abbreviation source := (HostBootSafety.source s).
Abbreviation target := (HostBootSafety.target s).

(** Where the two releases are, whatever [recovery] is and whatever boots. *)
Inductive place (v : View) : Prop :=
| p_before : at_ v "current" source -> at_ v "next" target -> place v
| p_swapping : gone v "current" -> at_ v "previous" source -> at_ v "next" target -> place v
| p_promoted : at_ v "current" target -> at_ v "previous" source -> gone v "next" -> place v.
Definition placed (v : View) : Prop := Forall (fun a => leaf v (os a)) os_aliases /\ place v.

Abbreviation hoare := (triple placed True).

(** ** Commands on any host *)

Lemma ask ds (Pre : View -> Prop) : (forall v, Pre v -> placed v) ->
  hoare Pre (exists_ ds) (fun b v => Pre v /\ (b = true -> is_Some (datasets v !! ds))).
Proof.
  intros Hi w Hp Hf. unfold exists_, mbind, prog_mbind, bind, attempt.
  destruct (run_query (ZExists ds) w eq_refl) as (Hv & Hpast & Hr).
  pose proof (h_answer (ZExists ds) (pool w)) as Ha.
  destruct (run (ZExists ds) w) as [r w']. cbn in *. rewrite Hpast. split.
  - constructor; [rewrite Hv; auto|done].
  - rewrite Hv. split; [done|]. rewrite <- Hr in Ha. destruct r; cbn in *; [eauto|done].
Qed.

(** What a property that was read says. *)
Definition reads (key ds out : string) (v : View) : Prop := exists d, datasets v !! ds = Some d /\ out = default "-" (d !! key).

Lemma look key ds (Pre : View -> Prop) : (forall v, Pre v -> placed v) ->
  hoare Pre (property key ds) (fun out v => Pre v /\ reads key ds out v).
Proof.
  intros Hi w Hp Hf. unfold property. destruct (run_query (ZGet key ds) w eq_refl) as (Hv & Hpast & Hr).
  pose proof (h_answer (ZGet key ds) (pool w)) as Ha. destruct (run (ZGet key ds) w) as [r w']. cbn in *.
  rewrite Hpast, Hv, <- Hr in *. split; [constructor; [rewrite Hv; auto|done]|].
  destruct r as [out|e]; [|auto]. split; [done|]. by apply Ha.
Qed.
Lemma try_look key ds (Pre : View -> Prop) : (forall v, Pre v -> placed v) ->
  hoare Pre (attempt (property key ds)) (fun r v => Pre v /\ forall out, r = Ok out -> reads key ds out v).
Proof.
  intros Hi w Hp Hf. destruct (look key ds Pre Hi w Hp Hf) as [Hpast Hr]. unfold attempt.
  pose proof (run_query (ZGet key ds) w eq_refl) as (Hv & _). unfold property in *.
  destruct (run (ZGet key ds) w) as [[out|e] w']. all: cbn in *; split; [done|].
  - destruct Hr as [HP Hd]. split; [done|]. by intros ? [= ->].
  - rewrite Hv. by split.
Qed.
Lemma act c (Pre Q : View -> Prop) : mutating c = true -> (forall v, Pre v -> placed v) ->
  (forall v v', Pre v -> heffect c v v' -> placed v' /\ Q v') -> hoare Pre (run_ c) (fun _ v => Q v).
Proof.
  intros Hm Hi Hstep w Hp Hf. unfold run_, mbind, prog_mbind, bind, run.
  pose proof (h_effect c (pool w)) as He. pose proof (h_done c (pool w)) as Hd.
  destruct (execute c (pool w)) as [r p]. cbn in *.
  assert (HI : placed (view p)).
  { destruct He as [->|[_ He]]; [by apply Hi|]. by apply (Hstep _ _ Hp He). }
  destruct r as [out|e]; cbn; (split; [by constructor|]); [|done].
  by apply (Hstep _ _ Hp (Hd _ eq_refl Hm)).
Qed.
Lemma stop {A} e Pre (Q : A -> View -> Prop) : (forall v, Pre v -> placed v) -> hoare Pre (fail e) Q.
Proof. intros Hi. apply hoare_fail. intros v Hp. split; [by apply Hi|done]. Qed.

(** ** What each command does *)

Lemma placed_agree v v' : (forall a, a ∈ os_aliases -> leaf v (os a) -> leaf v' (os a)) ->
  (forall a o, a ∈ ["current"; "previous"; "next"] -> at_ v a o -> at_ v' a o) ->
  (forall a, a ∈ ["current"; "next"] -> gone v a -> gone v' a) -> placed v -> placed v'.
Proof.
  intros Hl Ha Hg [HL Hp]. split.
  - rewrite Forall_forall in *. intros a Hin. by apply Hl, HL.
  - destruct Hp as [S1 S2|S1 S2 S3|S1 S2 S3];
      [apply p_before|apply p_swapping|apply p_promoted]; ((apply Ha; [repeat constructor|done]) || (apply Hg; [repeat constructor|done])).
Qed.

Lemma placed_bootfs ds v v' : placed v -> heffect (ZBootfs ds) v v' -> placed v' /\ datasets v' = datasets v.
Proof. intros Hp He. inversion He; subst. split; [|done]. by apply (placed_agree v). Qed.

Lemma placed_set a set v v' : a ∈ os_aliases -> Forall (fun kv => kv.1 <> "origin") set -> placed v ->
  heffect (ZSet set (os a)) v v' -> placed v' /\ forall b o, at_ v b o -> at_ v' b o.
Proof.
  intros Ha Hset Hp He. inversion He as [| | | |? ? d ? Hd|]; subst.
  assert (Hat : forall b o, at_ v b o -> at_ (mkView (<[os a := set_props set d]> (datasets v)) (bootfs v)) b o).
  { intros b o (e & E & Ho). unfold at_. cbn. destruct (decide (os b = os a)) as [Eb|Hne].
    - rewrite Eb in *. rewrite lookup_insert_eq. rewrite Hd in E. injection E as <-. eexists. split; [done|]. by apply has_origin_set.
    - rewrite lookup_insert_ne by done. by exists e. }
  split; [|done]. apply (placed_agree v); [|by auto| |done].
  - intros b Hb Hl n. cbn. destruct (decide (n = os a)) as [->|Hne]; [intros _; by apply Hl; rewrite Hd|].
    rewrite lookup_insert_ne by done. apply Hl.
  - intros b _. unfold gone. cbn. destruct (decide (os b = os a)) as [->|Hne]; [congruence|by rewrite lookup_insert_ne].
Qed.

Lemma leaf_renamed a b d bf v c : below (os c) (os b) = false -> leaf v (os c) ->
  leaf (mkView (<[os b := d]> (delete (os a) (datasets v))) bf) (os c).
Proof. intros Hb Hl. apply (leaf_insert _ bf); [|done]. by apply leaf_delete. Qed.

Ltac alias := by repeat constructor.
Ltac renaming HL He := let d := fresh "d" in let bf := fresh "bf" in let E := fresh "E" in let E' := fresh "E'" in
  apply heffect_rename in He as (d & bf & E & E' & -> & _); [|by eapply leaf_alias; [exact HL|alias]].
Ltac keep_leaf HL := rewrite Forall_forall in *; intros ? ?; apply leaf_renamed; [|by apply HL];
  unfold os_aliases in *; by set_unfold; destruct_or?; subst.
Ltac roles := unfold at_, gone in *; cbn; maps; eauto.

(** The recovery alias comes and goes. *)
Lemma placed_recovery c v v' : (exists set snap, c = ZClone set snap (os "recovery")) \/ c = ZDestroy (os "recovery") ->
  placed v -> heffect c v v' -> placed v'.
Proof.
  intros [(set & snap & ->)| ->] Hp He; inversion He; subst; (apply (placed_agree v); [| | |done]).
  - intros a Ha Hl. apply (leaf_insert _ (bootfs v)); [done|].
    unfold os_aliases in Ha. set_unfold. by destruct_or?; subst.
  - intros a o Ha. set_unfold. by destruct_or?; subst; roles.
  - intros a Ha. set_unfold. by destruct_or?; subst; roles.
  - intros a _ Hl. by apply leaf_delete.
  - intros a o Ha. set_unfold. by destruct_or?; subst; roles.
  - intros a Ha. set_unfold. by destruct_or?; subst; roles.
Qed.

Lemma place_source v : place v -> at_ v "current" source -> at_ v "next" target.
Proof.
  intros [S1 S2|S1 S2 S3|S1 S2 S3] Hc; [done|done|].
  destruct Hw as [Hne _ _]. exfalso. exact (Hne (at_unique _ _ _ _ Hc S1)).
Qed.
Lemma place_absent v : place v -> gone v "current" -> at_ v "previous" source /\ at_ v "next" target.
Proof. intros [S1 S2|S1 S2 S3|S1 S2 S3] Hg; [by destruct (at_not_gone _ _ _ S1)|done|by destruct (at_not_gone _ _ _ S1)]. Qed.
Lemma at_renamed v a b d bf o : datasets v !! os a = Some d -> at_ v a o -> at_ (mkView (<[os b := d]> (delete (os a) (datasets v))) bf) b o.
Proof. intros Hd (x & Hx & Ho). rewrite Hd in Hx. injection Hx as <-. exists d. cbn. by rewrite lookup_insert_eq. Qed.
Lemma gone_renamed v a b d bf : os a <> os b -> gone (mkView (<[os b := d]> (delete (os a) (datasets v))) bf) a.
Proof. intros Hn. unfold gone. cbn. rewrite lookup_insert_ne by done. apply lookup_delete_eq. Qed.

Lemma placed_retire v v' : placed v -> at_ v "current" source ->
  heffect (ZRename (os "previous") (os ("retired-" +:+ b_OperationID s))) v v' -> placed v' /\ at_ v' "current" source.
Proof.
  intros [HL Hp] Hc He. pose proof (place_source v Hp Hc) as Hn. renaming HL He. split; [split|roles].
  - keep_leaf HL.
  - apply p_before; roles.
Qed.
Lemma placed_swap v v' : placed v -> at_ v "current" source -> heffect (ZRename (os "current") (os "previous")) v v' -> placed v'.
Proof.
  intros [HL Hp] Hc He. pose proof (place_source v Hp Hc) as Hn. renaming HL He. split; [keep_leaf HL|].
  apply p_swapping; [by apply gone_renamed; os_ne|by apply at_renamed|roles].
Qed.
Lemma placed_take_next v v' : placed v -> heffect (ZRename (os "next") (os "current")) v v' -> placed v'.
Proof.
  intros [HL Hp] He. renaming HL He. destruct (place_absent v Hp E') as [Hs Hn]. split; [keep_leaf HL|].
  apply p_promoted; [by apply at_renamed|roles|by apply gone_renamed; os_ne].
Qed.
Lemma placed_put_back v v' : placed v -> heffect (ZRename (os "current") (os "next")) v v' -> placed v'.
Proof.
  intros [HL Hp] He. renaming HL He. split; [keep_leaf HL|]. destruct Hp as [S1 S2|S1 S2 S3|S1 S2 S3].
  - by destruct (at_not_gone _ _ _ S2).
  - unfold gone in S1. congruence.
  - apply p_swapping; [by apply gone_renamed; os_ne|roles|by apply at_renamed].
Qed.
(** [previous], or [recovery] when it is the source's, becomes [current]. *)
Lemma placed_restore a v v' : a ∈ ["previous"; "recovery"] -> placed v -> at_ v a source ->
  heffect (ZRename (os a) (os "current")) v v' -> placed v'.
Proof.
  intros Ha [HL Hp] Hs He. set_unfold.
  assert (Hos : a ∈ os_aliases) by (destruct_or?; subst; alias).
  apply heffect_rename in He as (d & bf & E & E' & -> & _); [|by eapply leaf_alias].
  destruct (place_absent v Hp E') as [_ Hn]. split; [keep_leaf HL|].
  apply p_before; [by apply at_renamed|]. destruct_or?; subst; roles.
Qed.

(** ** The operations *)

Lemma always_bootfs ds (Pre : View -> Prop) : (forall v, Pre v -> placed v) -> hoare Pre (run_ (ZBootfs ds)) (fun _ => placed).
Proof. intros Hi. apply act; [done|done|]. intros v v' Hp He. apply placed_bootfs in He as [? _]; [done|by apply Hi]. Qed.

Lemma always_drop : hoare placed (drop_foreign_recovery (source_of s)) (fun _ => placed).
Proof.
  unfold drop_foreign_recovery. eapply hoare_bind; [by apply ask|]. intros [|]; [|apply hoare_ret; by intros v [? _]].
  eapply hoare_bind; [apply look; by intros v [? _]|]. intros origin. destruct (decide _); [apply hoare_ret; by intros v [[? _] _]|].
  eapply hoare_bind; [apply try_look; by intros v [[? _] _]|]. intros [owner|e]; [|apply stop; by intros v [[[? _] _] _]].
  destruct (operationID owner); [|apply stop; by intros v [[[? _] _] _]].
  apply act; [done|by intros v [[[? _] _] _]|]. intros v v' [[[Hp _] _] _] He. assert (placed v') by (eapply placed_recovery; eauto). done.
Qed.
Lemma always_keep : hoare placed (keep_recovery s) (fun _ => placed).
Proof.
  unfold keep_recovery. eapply hoare_bind; [by apply ask|]. intros [|]; [apply hoare_ret; by intros v [? _]|].
  apply act; [done|by intros v [? _]|]. intros v v' [Hp _] He. assert (placed v') by (eapply placed_recovery; [left; by do 2 eexists|done..]). done.
Qed.

Lemma source_reads a v : reads "origin" (os a) (source_of s) v -> at_ v a source.
Proof. intros (d & Hd & Ho). by eapply origin_is. Qed.

Definition here (v : View) : Prop := placed v /\ at_ v "current" source.
Lemma always_put_aside (prev : bool) : hoare here
  (if prev then
     owner ← attempt (property "org.floatlab:update" (os "previous"));
     match owner with
     | Ok owner =>
         if bool_decide (owner = "-") || bool_decide (owner = "") then fail "foreign previous boot dataset"
         else run_ (ZRename (os "previous") (os ("retired-" +:+ b_OperationID s)))
     | Err _ => fail "foreign previous boot dataset"
     end
   else ret tt) (fun _ => here).
Proof.
  destruct prev; [|by apply hoare_ret]. eapply hoare_bind; [apply try_look; by intros v [? _]|].
  intros [owner|e]; [|apply stop; by intros v [[? _] _]]. destruct (_ || _); [apply stop; by intros v [[? _] _]|].
  apply act; [done|by intros v [[? _] _]|]. intros v v' [[Hp Hc] _] He.
  destruct (placed_retire v v' Hp Hc He) as [Hp' Hc']. by split_and!.
Qed.

Lemma always_retire : hoare placed (retire_current s) (fun _ => placed).
Proof.
  unfold retire_current. eapply hoare_bind; [by apply ask|]. intros [|]; [|apply hoare_ret; by intros v [? _]].
  eapply hoare_bind; [apply try_look; by intros v [? _]|]. intros origin. apply hoare_if.
  { intros _. apply stop. by intros v [[? _] _]. }
  intros ->%negb_false_iff%bool_decide_eq_true. apply (hoare_pre _ _ _ here).
  { intros v [[Hp _] Ho]. split; [done|]. by apply source_reads, Ho. }
  eapply hoare_bind; [apply ask; by intros v [? _]|]. intros prev. apply (hoare_pre _ _ _ here); [by intros v [? _]|].
  eapply hoare_bind; [apply always_put_aside|]. intros []. apply (hoare_bind _ _ _ _ _ (fun _ => here)).
  - apply act; [done|by intros v [? _]|]. intros v v' [Hp Hc] He.
    apply placed_set in He as [Hp' Hat]; [|by repeat constructor|by repeat constructor|done]. split; [done|]. split; auto.
  - intros []. apply act; [done|by intros v [? _]|]. intros v v' [Hp Hc] He.
    assert (placed v') by (by eapply placed_swap). done.
Qed.

Lemma always_Promote : hoare placed (Promote s) (fun _ => placed).
Proof.
  unfold Promote. eapply hoare_bind; [by apply try_look|]. intros current.
  apply (hoare_pre _ _ _ placed); [by intros v [? _]|]. destruct (bool_decide _); [by apply always_bootfs|].
  eapply hoare_bind; [apply always_drop|]. intros []. eapply hoare_bind; [apply always_keep|]. intros []. cbv zeta.
  destruct (negb _); [by apply stop|]. apply (hoare_bind _ _ _ _ _ (fun _ => placed)).
  { apply act; [done|done|]. intros v v' Hp He.
    apply placed_set in He as [Hp' _]; [done|by repeat constructor|by repeat constructor|done]. }
  intros []. eapply hoare_bind; [by apply always_bootfs|]. intros []. eapply hoare_bind; [apply always_retire|]. intros [].
  eapply hoare_bind; [by apply try_look|]. intros origin. apply (hoare_pre _ _ _ placed); [by intros v [? _]|].
  destruct (negb _); [by apply stop|]. apply (hoare_bind _ _ _ _ _ (fun _ => placed)); [|intros []; by apply always_bootfs].
  apply act; [done|done|]. intros v v' Hp He. assert (placed v') by (by eapply placed_take_next). done.
Qed.

Lemma always_restore_alias aliases : Forall (fun a => a ∈ ["previous"; "recovery"]) aliases ->
  hoare placed (restore_alias (source_of s) aliases) (fun _ => placed).
Proof.
  induction 1 as [|a aliases Ha _ IH]; cbn [restore_alias]; [by apply stop|].
  eapply hoare_bind; [by apply ask|]. intros [|]; [|eapply hoare_pre; [|exact IH]; by intros v [? _]].
  eapply hoare_bind; [apply look; by intros v [? _]|]. intros origin.
  destruct (decide (origin = source_of s)) as [->|_]; [|eapply hoare_pre; [|exact IH]; by intros v [[? _] _]].
  apply (hoare_bind _ _ _ _ _ (fun _ => placed)); [|intros []; by apply always_bootfs].
  apply act; [done|by intros v [[? _] _]|]. intros v v' [[Hp _] Ho] He.
  assert (placed v') by (eapply placed_restore; [done..| |done]; by apply source_reads). done.
Qed.

Lemma always_RestoreBoot : hoare placed (RestoreBoot s) (fun _ => placed).
Proof.
  assert (Hrest : hoare placed (restore_alias (source_of s) ["previous"; "recovery"]) (fun _ => placed)).
  { apply always_restore_alias. by repeat constructor. }
  unfold RestoreBoot. cbv zeta. eapply hoare_bind; [by apply ask|]. intros [|]; [|eapply hoare_pre; [|exact Hrest]; by intros v [? _]].
  eapply hoare_bind; [apply look; by intros v [? _]|]. intros origin. apply (hoare_pre _ _ _ placed); [by intros v [[? _] _]|].
  destruct (decide _); [by apply always_bootfs|]. destruct (negb _); [by apply stop|].
  eapply hoare_bind; [by apply try_look|]. intros recovery. apply (hoare_pre _ _ _ placed); [by intros v [? _]|].
  destruct (negb _); [by apply stop|]. eapply hoare_bind; [by apply always_bootfs|]. intros [].
  eapply hoare_bind; [by apply ask|]. intros next. apply (hoare_pre _ _ _ placed); [by intros v [? _]|].
  destruct next; [by apply stop|]. apply (hoare_bind _ _ _ _ _ (fun _ => placed)); [|by intros []].
  apply act; [done|done|]. intros v v' Hp He. assert (placed v') by (by eapply placed_put_back). done.
Qed.

Lemma always_FinalizeCommit : hoare placed (FinalizeCommit s) (fun _ => placed).
Proof.
  unfold FinalizeCommit. eapply hoare_bind; [by apply try_look|]. intros origin. apply (hoare_pre _ _ _ placed); [by intros v [? _]|].
  destruct (negb _); [by apply stop|]. eapply hoare_bind; [by apply look|]. intros cmdline.
  apply (hoare_bind _ _ _ _ _ (fun _ => placed)).
  { apply act; [done|by intros v [? _]|]. intros v v' [Hp _] He.
    apply placed_set in He as [Hp' _]; [done|by repeat constructor|by repeat constructor|done]. }
  intros []. unfold WriteGuardMessage. rewrite (wn_op _ Hw). intros w Hp Hf. unfold run_, mbind, prog_mbind, bind.
  destruct (run_query (GuardMessage (b_OperationID s) "committed") w eq_refl) as (Hv & Hpast & _).
  destruct (run _ w) as [r w']. cbn in *.
  destruct r; cbn; rewrite Hpast; (split; [constructor; [by rewrite Hv|done]|]); by rewrite Hv.
Qed.
End Always.

Lemma history_placed told s v0 v : well_named s -> staged s v0 -> boot_history told s v0 v -> placed s v.
Proof.
  intros Hw (HU & Hc & Hn & _). induction 1 as [|P Ho L m p p' _ _ IH Hop Hin].
  { split; [by destruct HU|]. by apply p_before. }
  assert (Hm : triple (placed s) True (placed s) m (fun _ => placed s)).
  { destruct Hop; [by apply always_Promote|by apply always_RestoreBoot|by apply always_FinalizeCommit]. }
  destruct (Hm (mkW p []) IH ltac:(constructor)) as [Hf Hr]. unfold visited in Hin.
  apply elem_of_cons in Hin as [->|Hin].
  - destruct (m (mkW p [])).1; [done|by destruct Hr].
  - rewrite Forall_forall in Hf. by apply Hf.
Qed.

(** ** One answer that fails *)

(** The host of the examples, whose first [zfs list] fails when the flag is up. *)
Definition busy_execute (c : hostcmd) (p : View * bool) : result string string * (View * bool) :=
  match c, p.2 with
  | ZExists _, true => (Err "cannot open: pool I/O is currently suspended", (p.1, false))
  | _, _ => let '(r, v) := @execute View tame_host c p.1 in (r, (v, p.2))
  end.
#[export] Instance busy_host : Host (View * bool) := {| view := fst; execute := busy_execute |}.
Lemma busy_cases c p : busy_execute c p = (Err "cannot open: pool I/O is currently suspended", (p.1, false)) \/
  ((busy_execute c p).1 = (@execute View tame_host c p.1).1 /\ (busy_execute c p).2.1 = (@execute View tame_host c p.1).2).
Proof. destruct p as [v b]. unfold busy_execute. destruct c; cbn [fst snd]; try destruct b; try (by left); right; by destruct (execute _ v). Qed.
#[export] Instance busy_laws : HostLaws (View * bool).
Proof.
  split.
  - intros c p. change (execute c p) with (busy_execute c p). destruct (busy_cases c p) as [->|[_ Hv]]; [by left|].
    change (view (busy_execute c p).2) with ((busy_execute c p).2.1). rewrite Hv. exact (h_effect (P := View) c p.1).
  - intros c p out. change (execute c p) with (busy_execute c p). destruct (busy_cases c p) as [->|[Hr Hv]]; [done|].
    change (view (busy_execute c p).2) with ((busy_execute c p).2.1). rewrite Hv, Hr. exact (h_done (P := View) c p.1 out).
  - intros c p out. change (execute c p) with (busy_execute c p). destruct (busy_cases c p) as [->|[Hr _]]; [done|].
    rewrite Hr. exact (h_answer (P := View) c p.1 out).
Qed.

(** An earlier update left [recovery] to the release before the source. *)
Definition stale_pool : View :=
  mkView (<[os "recovery" := clone_of (os "0.9.0@base") "op-x"]> (datasets example_pool)) (os "current").
Lemma stale_staged : staged example_boot stale_pool.
Proof.
  assert (Hat : forall a o, os a <> os "recovery" -> at_ example_pool a o -> at_ stale_pool a o).
  { intros a o Hne (d & Hd & Ho). exists d. split; [|done]. unfold stale_pool. cbn [datasets]. by rewrite lookup_insert_ne. }
  split; [|split_and!; [by apply Hat, example_current|by apply Hat, example_next|done]]. split.
  - unfold os_aliases. rewrite !Forall_cons. split_and!; [..|by apply Forall_nil];
      apply (bool_decide_eq_true_1 _); vm_compute; reflexivity.
  - exists ∅. vm_compute. reflexivity.
  - intros n d Hd Ho. assert (Hf : no_clone_of stale_pool (os "recovery") = true) by (vm_compute; reflexivity).
    apply bool_decide_eq_true in Hf. exact (Hf n d Hd Ho).
  - intros d. unfold stale_pool. cbn [datasets]. rewrite lookup_insert_eq. intros [= <-]. right.
    split; [exists (os "0.9.0@base"); unfold has_origin, clone_of; apply (bool_decide_eq_true_1 _)|]; vm_compute; reflexivity.
  - intros d Hd. assert (Ho : owner_of <$> (datasets stale_pool !! os "previous") = Some "op-x") by (vm_compute; reflexivity).
    rewrite Hd in Ho. cbn in Ho. apply (inj Some) in Ho. rewrite Ho. split; discriminate.
  - intros _. right. vm_compute. reflexivity.
Qed.

(** The states of a promotion whose first question fails, latest first. *)
Definition doubted : list (View * bool) := visited (Promote example_boot) (stale_pool, true).
Lemma doubted_history k : (k < length doubted)%nat -> boot_history false example_boot stale_pool (nth k doubted (stale_pool, true)).1.
Proof.
  intros Hk. apply (bh_op false example_boot stale_pool (View * bool) busy_host busy_laws (Promote example_boot) (stale_pool, true)
    (nth k doubted (stale_pool, true))); [discriminate|apply bh_start|apply bo_promote|].
  apply list_elem_of_In, nth_In, Hk.
Qed.

(** * Properties *)

(** C5. A bootable host at every moment, whatever boot operations run, however
    often the power fails between two commands and whatever commands fail: the
    running release can always be booted, from [current] or [previous]; and as
    long as no [zfs list] failed for a dataset that was there, the pool's boot
    dataset exists and is a clone of the running release or of the new one.
    The condition is needed: a single such failure, which [Linux.exists] takes
    for absence, can leave the pool booting a release that is neither. *)
Theorem boot_target_survives (s : BootStatus) (v0 : View) (Hw : well_named s) (Hst : staged s v0) :
  (forall v, boot_history false s v0 v -> exists a, a ∈ ["current"; "previous"] /\ at_ v a (source_of s)) /\
  (forall v, boot_history true s v0 v ->
    exists d, datasets v !! bootfs v = Some d /\ (has_origin (source_of s) d \/ has_origin (target_of s) d)) /\
  exists v d, boot_history false example_boot stale_pool v /\ datasets v !! bootfs v = Some d /\
    ~ has_origin (source_of example_boot) d /\ ~ has_origin (target_of example_boot) d.
Proof.
  split; [|split].
  - intros v Hh. destruct (history_placed false s v0 v Hw Hst Hh) as [_ [S1 _|_ S2 _|_ S2 _]];
      [exists "current"|exists "previous"..]; (split; [by repeat constructor|done]).
  - intros v Hh. destruct (history_Inv s v0 v Hw Hst Hh) as [_ [(d & Hd & Ho) _ S3|_ _ _ (d & Hd & Ho) S5|(c & Hc & Hco) _ _ (d & Hd & Ho) S5]].
    + destruct S3 as [->|[-> (d' & Hd' & Ho')]]; [by exists d; auto|by exists d'; auto].
    + rewrite S5. by exists d; auto.
    + destruct S5 as [->| ->]; [by exists c; auto|by exists d; auto].
  - assert (Hh := doubted_history 5). set (v := (nth 5 doubted (stale_pool, true)).1) in *.
    assert (Ho : (fun d => d !! "origin") <$> (datasets v !! bootfs v) = Some (Some (os "0.9.0@base"))) by (vm_compute; reflexivity).
    destruct (datasets v !! bootfs v) as [d|] eqn:Hd; [|done]. apply (inj Some) in Ho. exists v, d.
    split; [apply Hh; vm_compute; lia|]. split; [done|]. unfold has_origin. rewrite Ho. split; discriminate.
Qed.

(** C6. Interrupted work can be finished in either direction: from wherever a
    history stopped in which no [zfs list] failed for a dataset that was there,
    a promotion in which that holds too and commands succeed when they can ends
    with the new release current, booting, and the old one [previous]; such a
    restoration ends with the old release current and booting, and the new one
    back at [next].  After one such failure this is lost: there is a history
    after which every [RestoreBoot] is refused, on a host that does whatever
    can be done. *)
Theorem boot_converges (s : BootStatus) (v0 : View) (Hw : well_named s) (Hst : staged s v0) :
  (forall (P : Type) (Ho : Host P) (L : HostLaws P) (Te : TrueExists (P := P)) (Hc : Cooperative (P := P)) (p : P),
    boot_history true s v0 (view p) ->
    (exists w, Promote s (mkW p []) = (Ok tt, w) /\ bootfs (view (pool w)) = os "current" /\
       at_ (view (pool w)) "current" (target_of s) /\ at_ (view (pool w)) "previous" (source_of s)) /\
    (exists w, RestoreBoot s (mkW p []) = (Ok tt, w) /\ bootfs (view (pool w)) = os "current" /\
       at_ (view (pool w)) "current" (source_of s) /\ at_ (view (pool w)) "next" (target_of s))) /\
  exists p : View, boot_history false example_boot stale_pool (view p) /\ is_ok (RestoreBoot example_boot (mkW p [])).1 = false.
Proof.
  split.
  - intros P Ho L Te Hc p Hh. pose proof (history_Inv s v0 _ Hw Hst Hh) as HI.
    destruct (hoare_Promote s Hw (mkW p []) HI ltac:(constructor)) as [_ Hp].
    destruct (hoare_RestoreBoot s Hw (mkW p []) HI ltac:(constructor)) as [_ Hr]. split.
    + destruct (Promote s (mkW p [])) as [[[]|e] w]; cbn in Hp; [|by destruct Hp].
      destruct Hp as [(_ & Ha & Hb) Hbf]. by exists w.
    + destruct (RestoreBoot s (mkW p [])) as [[[]|e] w]; cbn in Hr; [|by destruct Hr].
      destruct Hr as [(_ & Ha & Hb) Hbf]. by exists w.
  - exists (nth 0 doubted (stale_pool, true)).1. split; [apply (doubted_history 0); vm_compute; lia|]. vm_compute. reflexivity.
Qed.

(** * Witnesses *)

(** The power fails between the two renames of a promotion. *)
Definition interrupted : View := nth 3 (visited (Promote example_boot) example_pool) example_pool.
Lemma interrupted_history told : boot_history told example_boot example_pool (view interrupted).
Proof.
  apply (bh_op told example_boot example_pool View tame_host tame_laws (Promote example_boot) example_pool interrupted).
  - intros _. exact tame_exists.
  - apply bh_start.
  - apply bo_promote.
  - unfold interrupted. apply list_elem_of_In, nth_In. vm_compute. lia.
Qed.

Lemma boot_target_survives_witness :
  datasets interrupted !! os "current" = None /\
  exists a, a ∈ ["current"; "previous"] /\ at_ (view interrupted) a (source_of example_boot).
Proof.
  split; [vm_compute; reflexivity|].
  exact (proj1 (boot_target_survives example_boot example_pool example_named example_staged) (view interrupted) (interrupted_history false)).
Defined.

Lemma boot_converges_witness :
  exists w, RestoreBoot example_boot (mkW interrupted []) = (Ok tt, w) /\ bootfs (view (pool w)) = os "current".
Proof.
  destruct (proj1 (boot_converges example_boot example_pool example_named example_staged) View tame_host tame_laws tame_exists tame_cooperative
    interrupted (interrupted_history true)) as [_ (w & H1 & H2 & _)].
  exists w. exact (conj H1 H2).
Defined.
