(* ===== verification/HostBootCleanup.v ===== *)
(** What the cleanup of [HostBoot.v] may destroy, and the trial token on the
    kernel command line: from [Stage]'s command line through [TrialToken] to
    the token's removal in [FinalizeCommit]. *)
From S2P Require Import Prelude Timestamp Release Update Netip HostConfig GoStrings HostManifest HostBoot HostBootSafety.
From Stdlib Require Import Ascii.

Open Scope string_scope.

(** ** Steps of programs whose errors need no explanation *)

Section Steps.
Context {P : Type} `{HostLaws P} (I : View -> Prop).

Lemma step_query c (Pre : View -> Prop) : mutating c = false -> (forall v, Pre v -> I v) ->
  triple I True Pre (run c) (fun out v => Pre v /\ answers c v out).
Proof.
  intros Hm Hi w Hp Hf. destruct (run_query c w Hm) as (Hv & Hpast & Hr).
  pose proof (h_answer c (pool w)) as Ha.
  destruct (run c w) as [r w']. cbn in *. rewrite Hpast, Hv, <- Hr in *.
  split; [constructor; [rewrite Hv; auto|done]|]. destruct r; [by eauto|]. auto.
Qed.

Lemma step_run c (Pre Q : View -> Prop) :
  (forall v, Pre v -> I v) -> (mutating c = false -> forall v, Pre v -> Q v) ->
  (forall v v', Pre v -> heffect c v v' -> I v' /\ Q v') ->
  triple I True Pre (run_ c) (fun _ v => Q v).
Proof.
  intros Hi Hq Hstep w Hp Hf. unfold run_, mbind, prog_mbind, bind, run.
  pose proof (h_effect c (pool w)) as He. pose proof (h_done c (pool w)) as Hd.
  destruct (execute c (pool w)) as [r p]. cbn in *.
  assert (HI : I (view p)).
  { destruct He as [->|[_ He]]; [by apply Hi|]. by apply (Hstep _ _ Hp He). }
  destruct r as [out|e]; cbn; (split; [by constructor|]); [|done].
  destruct (mutating c) eqn:Hm; [by apply (Hstep _ _ Hp (Hd _ eq_refl eq_refl))|].
  destruct He as [->|[Hc _]]; [by apply Hq|done].
Qed.

Lemma step_exists ds (Pre : View -> Prop) : (forall v, Pre v -> I v) ->
  triple I True Pre (exists_ ds) (fun _ v => Pre v).
Proof.
  intros Hi w Hp Hf. unfold exists_, mbind, prog_mbind, bind, attempt.
  destruct (run_query (ZExists ds) w eq_refl) as (Hv & Hpast & Hr).
  destruct (run (ZExists ds) w) as [r w']. cbn in *. rewrite Hpast, Hv in *.
  split; [constructor; [rewrite Hv; auto|done]|done].
Qed.
End Steps.

(** ** Cleanup *)

Section Cleanup.
Context `{Semver} {P : Type} `{HostLaws P} (s : BootStatus) (v0 : View).

Definition undone : bool := bool_decide (b_State s = "recovered") || bool_decide (b_State s = "failed").
(** The aliases that always stay, and [next] while the update is not undone. *)
Definition kept (a : string) : Prop := a ∈ aliases /\ (a = "next" -> undone = false).
Definition owned (n : string) : Prop := exists d, datasets v0 !! n = Some d /\ operationID (owner_of d) = true.

Record Keeps (v : View) : Prop := {
  k_sub : datasets v ⊆ datasets v0;
  k_bootfs : bootfs v = bootfs v0;
  k_alias : forall a d, kept a -> datasets v0 !! os a = Some d -> datasets v !! os a = Some d;
  k_origin : forall a d o, kept a -> datasets v0 !! os a = Some d -> has_origin o d ->
    is_Some (datasets v0 !! o) -> is_Some (datasets v !! o);
  k_gone : forall n, is_Some (datasets v0 !! n) -> datasets v !! n = None ->
    owned n \/ exists m, n = m +:+ "@base" /\ owned m }.

Lemma Keeps_start : Keeps v0.
Proof. split; try done. intros n [d Hd] Hn. congruence. Qed.

Lemma Keeps_destroy ds v v' : Keeps v -> heffect (ZDestroy ds) v v' ->
  (forall a, kept a -> ds <> os a) -> (owned ds \/ exists m, ds = m +:+ "@base" /\ owned m) -> Keeps v'.
Proof.
  intros [K1 K2 K3 K4 K5] He Hne Hown. inversion He as [|? ? Hds Hl Hc| | | |]; subst. split; cbn.
  - etrans; [apply delete_subseteq|done].
  - done.
  - intros a d Ha Hd. rewrite lookup_delete_ne by auto. by eapply K3.
  - intros a d o Ha Hd Ho Hs. rewrite lookup_delete_ne; [by eapply K4|]. intros <-.
    eapply (Hc (os a)); [by eapply K3|exact Ho].
  - intros n Hn. destruct (decide (n = ds)) as [->|Hnd]; [done|]. rewrite lookup_delete_ne by done. by apply K5.
Qed.

Lemma owned_of v n d : Keeps v -> datasets v !! n = Some d -> operationID (owner_of d) = true -> owned n.
Proof. intros K Hd Ho. exists d. split; [|done]. eapply lookup_weaken; [done|apply K]. Qed.

(** The names the two passes destroy are no kept aliases. *)
Lemma retired_not_alias n a : retired_name s n = true -> a ∈ aliases -> n <> os a.
Proof.
  unfold retired_name. intros Hr Ha ->. revert a Ha Hr. by apply (Forall_decide (fun a =>
    ~ (_ && bool_decide (b_State s = "committed") = true))).
Qed.
Lemma version_not_alias n a : is_Some (releaseVersion n) -> a ∈ aliases -> n <> os a.
Proof.
  intros Hr Ha ->. revert a Ha Hr. assert (Hf : Forall (fun a => releaseVersion (os a) = None) aliases).
  { repeat (constructor; [vm_compute; reflexivity|]). constructor. }
  rewrite Forall_forall in Hf. intros a Ha. rewrite Hf by done. by intros [].
Qed.
Lemma base_not_alias n a : a ∈ aliases -> n +:+ "@base" <> os a.
Proof.
  intros Ha E. apply (f_equal chars) in E. rewrite chars_app in E.
  assert (Hin : "@"%char ∈ chars (os a)) by (rewrite <- E; apply elem_of_app; right; by left).
  clear E. revert a Ha Hin. by apply (Forall_decide (fun a => "@"%char ∉ chars (os a))).
Qed.

Lemma keeps_aliases names : triple Keeps True Keeps (cleanup_aliases s names) (fun _ => Keeps).
Proof.
  induction names as [|name names IH]; [by apply hoare_ret|]. cbn [cleanup_aliases]. cbv zeta.
  set (und := bool_decide (name = os "next") && _).
  destruct (negb (retired_name s name || und)) eqn:Hel; [done|]. apply negb_false_iff in Hel.
  eapply hoare_bind; [by apply (step_query Keeps (ZGet "org.floatlab:update" name))|]. intros owner.
  destruct (negb (operationID owner)) eqn:Hop; [by apply hoare_fail; intros v [K _]|]. apply negb_false_iff in Hop.
  destruct (bool_decide (name = os "next") && negb (bool_decide (owner = b_OperationID s))); [by apply hoare_fail; intros v [K _]|].
  apply (hoare_bind _ _ _ _ _ (fun _ => Keeps)); [|intros []; exact IH].
  apply step_run; [by intros v [K _]|done|]. intros v v' [K (d & Hd & Ho)] He.
  assert (K' : Keeps v'); [|done]. eapply Keeps_destroy; [done|done| |].
  - intros a [Ha Hn]. destruct (retired_name s name) eqn:Hret; [by apply retired_not_alias|].
    apply andb_true_iff in Hel as [Hel Hund]. apply bool_decide_eq_true in Hel. intros E. assert (Ea : os a = os "next") by congruence.
    apply (inj (String.append "floatlab/os/")) in Ea. subst a.
    specialize (Hn eq_refl). unfold undone in Hn. congruence.
  - left. eapply owned_of; [done|done|]. unfold owner_of. by rewrite <- Ho.
Qed.

Lemma keeps_protected names protected :
  triple Keeps True Keeps (protected_of names protected) (fun _ => Keeps).
Proof.
  revert protected. induction names as [|a names IH]; intros protected; [by apply hoare_ret|]. cbn [protected_of].
  eapply hoare_bind; [by apply step_exists|]. intros [|]; [|apply IH].
  eapply hoare_bind; [by apply (step_query Keeps (ZGet "origin" (os a)))|]. intros origin.
  eapply hoare_pre; [|apply IH]. by intros v [K _].
Qed.

Lemma keeps_remove (Pre : View -> Prop) owner file : (forall v, Pre v -> Keeps v) ->
  triple Keeps True Pre (remove_download owner file) (fun _ => Pre).
Proof. intros HP. apply step_run; [done|done|]. intros v v' _ He. inversion He. Qed.

Lemma keeps_versions protected names : triple Keeps True Keeps (cleanup_versions s protected names) (fun _ => Keeps).
Proof.
  induction names as [|name names IH]; [by apply hoare_ret|]. cbn [cleanup_versions].
  destruct (_ || _); [exact IH|].
  eapply hoare_bind; [by apply (step_query Keeps (ZGet "org.floatlab:update" name))|]. intros owner.
  assert (IH' : triple Keeps True (fun v => Keeps v /\ answers (ZGet "org.floatlab:update" name) v owner)
    (cleanup_versions s protected names) (fun _ => Keeps)) by (eapply hoare_pre; [|exact IH]; by intros v [K _]).
  destruct (negb (operationID owner)) eqn:Hop; [done|]. apply negb_false_iff in Hop.
  destruct (_ || _); [done|]. destruct (Contains _ _); [done|].
  destruct (releaseVersion name) eqn:Hv; [|done]. clear IH'.
  assert (Hown : forall v, Keeps v /\ answers (ZGet "org.floatlab:update" name) v owner -> owned name).
  { intros v [K (d & Hd & Ho)]. eapply owned_of; [done|done|]. unfold owner_of. by rewrite <- Ho. }
  eapply hoare_bind; [apply step_exists; by intros v [K _]|]. intros has.
  apply (hoare_bind _ _ _ _ _ (fun _ v => Keeps v /\ owned name)).
  { destruct has; [|apply hoare_ret; intros v HK; split; [apply HK|by eapply Hown]].
    apply step_run; [by intros v [K _]|done|]. intros v v' HK He.
    assert (K' : Keeps v'); [|split; [done|split; [done|by eapply Hown]]].
    eapply Keeps_destroy; [apply HK|done|intros a [Ha _]; by apply base_not_alias|].
    right. exists name. split; [done|by eapply Hown]. }
  intros []. apply (hoare_bind _ _ _ _ _ (fun _ => Keeps)).
  { apply step_run; [by intros v [K _]|done|]. intros v v' [K Ho] He.
    assert (K' : Keeps v'); [|done]. eapply Keeps_destroy; [done|done| |by left].
    intros a [Ha _]. apply version_not_alias; [|done]. by rewrite Hv. }
  intros []. apply (hoare_bind _ _ _ _ _ (fun _ => Keeps)); [|intros []; exact IH].
  destruct (_ && _); [|by apply hoare_ret].
  apply (hoare_bind _ _ _ _ _ (fun _ => Keeps)); [by apply keeps_remove|]. intros []. by apply keeps_remove.
Qed.

Lemma keeps_cleanup : triple Keeps True Keeps (CleanupBoot s) (fun _ => Keeps).
Proof.
  unfold CleanupBoot. eapply hoare_bind; [by apply (step_query Keeps ZListOS)|]. intros rows.
  apply (hoare_bind _ _ _ _ _ (fun _ => Keeps)); [eapply hoare_pre; [|apply keeps_aliases]; by intros v [K _]|].
  intros []. eapply hoare_bind; [apply keeps_protected|]. intros protected.
  eapply hoare_bind; [by apply (step_query Keeps ZListOS)|]. intros names.
  eapply hoare_pre; [|apply keeps_versions]. by intros v [K _].
Qed.
End Cleanup.

(** * Properties *)

(** Cleanup never takes a bootable system away: at every command of it,
    whatever fails, nothing is created or changed, the boot dataset is the
    same, every alias still stands with the snapshot it was cloned from -
    [next] too unless the update was undone - and whatever was destroyed
    belonged to the updater. *)
Theorem cleanup_keeps_boot `{Semver} {P : Type} `{HostLaws P} (s : BootStatus) (p p' : P)
  (Hin : p' ∈ visited (CleanupBoot s) p) :
  datasets (view p') ⊆ datasets (view p) /\ bootfs (view p') = bootfs (view p) /\
  (forall a d, a ∈ aliases -> (a = "next" -> b_State s <> "recovered" /\ b_State s <> "failed") ->
     datasets (view p) !! os a = Some d ->
     datasets (view p') !! os a = Some d /\
     forall o, d !! "origin" = Some o -> is_Some (datasets (view p) !! o) -> is_Some (datasets (view p') !! o)) /\
  (forall n, is_Some (datasets (view p) !! n) -> datasets (view p') !! n = None ->
     exists m d, (n = m \/ n = m +:+ "@base") /\ datasets (view p) !! m = Some d /\
       operationID (default "-" (d !! "org.floatlab:update")) = true).
Proof.
  destruct (keeps_cleanup s (view p) (mkW p []) (Keeps_start _ _) ltac:(constructor)) as [Hf Hr].
  assert (HK : Keeps s (view p) (view p')).
  { unfold visited in Hin. apply elem_of_cons in Hin as [->|Hin].
    - destruct (CleanupBoot s (mkW p [])).1; [done|by destruct Hr].
    - rewrite Forall_forall in Hf. by apply Hf. }
  destruct HK as [K1 K2 K3 K4 K5]. split_and!; [done|done| |].
  - intros a d Ha Hn Hd. assert (Hk : kept s a).
    { split; [done|]. intros ->. destruct (Hn eq_refl). unfold undone. by rewrite !bool_decide_eq_false_2. }
    split; [by eapply K3|]. intros o Ho. by eapply K4.
  - intros n Hs Hn. destruct (K5 n Hs Hn) as [(d & Hd & Ho)|(m & -> & d & Hd & Ho)];
      [exists n, d|exists m, d]; eauto.
Qed.

(** The example's upgrade was committed: cleaning up keeps the new release. *)
Definition committed_boot : BootStatus := mkBoot "op-1" "committed" (b_Manifest example_boot) (b_Source example_boot).
Lemma cleanup_keeps_boot_witness :
  let p' := (CleanupBoot (H0 := major_semver) committed_boot (mkW example_pool [])).2 in
  bootfs (view (pool p')) = bootfs (view example_pool).
Proof.
  intros p'. assert (Hin : pool p' ∈ visited (CleanupBoot (H0 := major_semver) committed_boot) example_pool) by (apply elem_of_cons; left; reflexivity).
  exact (proj1 (proj2 (@cleanup_keeps_boot major_semver _ _ _ committed_boot example_pool _ Hin))).
Defined.

(** ** The trial token *)

Definition is_token (part : string) : Prop := has_prefix (chars part) (chars "floatlab.trial=") = true.
#[export] Instance is_token_dec part : Decision (is_token part).
Proof. unfold is_token. apply _. Defined.

Lemma is_token_inv part : is_token part -> part = "floatlab.trial=" +:+ TrimPrefix part "floatlab.trial=".
Proof.
  unfold is_token, TrimPrefix. intros Hp. rewrite Hp. apply has_prefix_app in Hp as [r Hr].
  apply chars_inj. rewrite chars_app, Hr. f_equal. by rewrite String.list_ascii_of_string_of_list_ascii.
Qed.
Lemma is_token_app t : is_token ("floatlab.trial=" +:+ t).
Proof. unfold is_token. rewrite chars_app. apply has_prefix_app. by eexists. Qed.
Lemma trim_token t : TrimPrefix ("floatlab.trial=" +:+ t) "floatlab.trial=" = t.
Proof.
  pose proof (is_token_inv _ (is_token_app t)) as E. symmetry. by apply (inj (String.append "floatlab.trial=")).
Qed.

Lemma token_loop_taken parts t u : t <> "" -> token_loop parts t = Some u <-> u = t /\ Forall (fun p => ~ is_token p) parts.
Proof.
  intros Ht. induction parts as [|p parts IH]; cbn [token_loop].
  - split; [by intros [= <-]|by intros [-> _]].
  - rewrite Forall_cons. destruct (has_prefix _ _) eqn:Hp.
    + rewrite bool_decide_eq_false_2 by done. cbn. split; [done|]. by intros [_ [[] _]].
    + rewrite IH. unfold is_token. rewrite Hp. naive_solver.
Qed.
Lemma token_loop_none parts : Forall (fun p => ~ is_token p) parts -> token_loop parts "" = Some "".
Proof.
  induction 1 as [|p parts Hp _ IH]; [done|]. cbn [token_loop]. unfold is_token in Hp. by destruct (has_prefix _ _).
Qed.
Lemma token_loop_spec parts t : token_loop parts "" = Some t <->
  (t = "" /\ Forall (fun p => ~ is_token p) parts) \/
  (operationID t = true /\ exists l1 l2, parts = (l1 ++ ("floatlab.trial=" +:+ t) :: l2)%list /\
     Forall (fun p => ~ is_token p) (l1 ++ l2)%list).
Proof.
  induction parts as [|p parts IH]; cbn [token_loop].
  - split; [intros [= <-]; by left|]. intros [[-> _]|(_ & l1 & l2 & E & _)]; [done|]. by destruct l1.
  - destruct (has_prefix _ _) eqn:Hp.
    + rewrite bool_decide_eq_true_2 by done. cbn [negb]. cbv zeta. pose proof (is_token_inv p Hp) as Ep.
      set (u := TrimPrefix p "floatlab.trial=") in *. destruct (operationID u) eqn:Hop; cbn [negb].
      * assert (Hu : u <> "") by (intros E; by rewrite E in Hop). rewrite token_loop_taken by done. split.
        -- intros [-> Hf]. right. split; [done|]. exists [], parts. by rewrite <- Ep.
        -- intros [[-> Hf]|(Ht & l1 & l2 & E & Hf)]; [by inversion Hf|]. destruct l1 as [|x l1]; injection E as -> ->.
           ++ split; [|done]. subst u. by rewrite trim_token.
           ++ cbn in Hf. by inversion Hf.
      * split; [done|]. intros [[-> Hf]|(Ht & l1 & l2 & E & Hf)]; [by inversion Hf|].
        destruct l1 as [|x l1]; injection E as -> ->; [|by inversion Hf]. subst u. rewrite trim_token in Hop. congruence.
    + rewrite IH. assert (Hn : ~ is_token p) by (unfold is_token; by rewrite Hp). split.
      * intros [[-> Hf]|(Ht & l1 & l2 & -> & Hf)]; [left; by split; [|constructor]|right].
        split; [done|]. exists (p :: l1), l2. split; [done|]. by constructor.
      * intros [[-> Hf]|(Ht & l1 & l2 & E & Hf)]; [left; split; [done|by inversion Hf]|right].
        split; [done|]. destruct l1 as [|x l1]; injection E as -> ->; [by destruct Hn; apply is_token_app|].
        exists l1, l2. split; [done|]. by inversion Hf.
Qed.

Lemma forallb_impl {A} (f g : A -> bool) l : (forall x, f x = true -> g x = true) -> forallb f l = true -> forallb g l = true.
Proof. rewrite !forallb_forall. auto. Qed.
Lemma identity_plain hostID : host_identity hostID = true -> forallb plain (chars hostID) = true.
Proof.
  unfold host_identity. intros [_ Hf]%andb_true_iff. revert Hf. apply forallb_impl. intros c.
  unfold in_range_ascii, plain. change (N_of_ascii "0") with 48%N. change (N_of_ascii "9") with 57%N.
  change (N_of_ascii "a") with 97%N. change (N_of_ascii "f") with 102%N.
  rewrite orb_true_iff, !andb_true_iff, !N.leb_le, N.ltb_lt. lia.
Qed.
Lemma operation_plain op : operationID op = true -> forallb plain (chars op) = true.
Proof.
  assert (Hp : forall c, digit c || letter c || Ascii.eqb c "_" || Ascii.eqb c "-" = true -> plain c = true).
  { intros c. unfold digit, letter, in_range_ascii, plain.
    change (N_of_ascii "0") with 48%N. change (N_of_ascii "9") with 57%N. change (N_of_ascii "A") with 65%N.
    change (N_of_ascii "Z") with 90%N. change (N_of_ascii "a") with 97%N. change (N_of_ascii "z") with 122%N.
    rewrite !orb_true_iff, !andb_true_iff, !N.leb_le, N.ltb_lt.
    intros [[[?|[?|?]]|E]|E]; try lia; apply Ascii.eqb_eq in E; by subst c. }
  unfold operationID. destruct (chars op) as [|c l]; [done|]. intros [[Hc Hl]%andb_true_iff _]%andb_true_iff. cbn.
  apply andb_true_iff. split; [apply Hp; by rewrite Hc|]. revert Hl. by apply forallb_impl.
Qed.

Lemma Fields_without_token c : Fields (without_token c) = filter (fun p => has_prefix (chars p) (chars "floatlab.trial=") = false) (Fields c).
Proof.
  apply Fields_Join. pose proof (Fields_solid c) as Hs. rewrite Forall_forall in *.
  intros w [_ Hw]%list_elem_of_filter. by apply Hs.
Qed.

(** The trial token: reading a command line gives the operation of the
    one field that names it, nothing when no field does, and an error for a
    second or malformed one; the command line [Stage] writes reads back as its
    operation; and once [FinalizeCommit] has rewritten a command line no token
    is left in it. *)
Theorem trial_token_roundtrip (c : string) :
  (forall t, TrialToken c = Some t <->
     (t = "" /\ Forall (fun p => ~ is_token p) (Fields c)) \/
     (operationID t = true /\ exists l1 l2, Fields c = (l1 ++ ("floatlab.trial=" +:+ t) :: l2)%list /\
        Forall (fun p => ~ is_token p) (l1 ++ l2)%list)) /\
  (forall init hostID operation, solid (chars init) -> host_identity hostID = true -> operationID operation = true ->
     TrialToken (trial_cmdline init hostID operation) = Some operation) /\
  TrialToken (without_token c) = Some "".
Proof.
  split_and!.
  - intros t. apply token_loop_spec.
  - intros init hostID operation Hi Hh Ho. unfold TrialToken. apply token_loop_spec. right. split; [done|].
    assert (E : trial_cmdline init hostID operation = Join ["init=" +:+ init; "console=ttyS0,115200n8";
      "spl.spl_hostid=0x" +:+ hostID; "floatlab.installed=1"; "floatlab.trial=" +:+ operation] " ").
    { apply chars_inj. unfold trial_cmdline. cbn [Join]. rewrite !chars_app. by rewrite <- ?app_assoc. }
    rewrite E, Fields_Join.
    + exists ["init=" +:+ init; "console=ttyS0,115200n8"; "spl.spl_hostid=0x" +:+ hostID; "floatlab.installed=1"], [].
      split; [done|]. repeat (constructor; [by unfold is_token|]). constructor.
    + repeat apply List.Forall_cons; try apply List.Forall_nil; rewrite ?chars_app.
      * apply solid_app; [done|done|by right].
      * by apply solid_plain.
      * apply solid_plain; [|done]. by rewrite forallb_app, (identity_plain _ Hh).
      * by apply solid_plain.
      * apply solid_plain; [|done]. by rewrite forallb_app, (operation_plain _ Ho).
  - unfold TrialToken. rewrite Fields_without_token. apply token_loop_none. apply Forall_forall.
    intros p [Hp _]%list_elem_of_filter. unfold is_token. by rewrite Hp.
Qed.

Lemma trial_token_roundtrip_witness :
  TrialToken (trial_cmdline "/nix/store/system/init" "007f0101" "op1") = Some "op1".
Proof.
  refine (proj1 (proj2 (trial_token_roundtrip "")) "/nix/store/system/init" "007f0101" "op1" _ _ _).
  - apply solid_plain; [vm_compute; reflexivity|vm_compute; discriminate].
  - vm_compute. reflexivity.
  - vm_compute. reflexivity.
Defined.
