(* ===== verification/HostUpgrade.v ===== *)
(** The host upgrade manager: [src/internal/hostupgrade/manager.go].

    The world holds the journal [host.json], the management updater's journal,
    the histories and accepted actions, the update lock and the status object
    the running operation works on.  Every journal write, backend call and
    observation of the running system is recorded in a trace, latest first;
    what they answer is decided by an environment that may depend on
    everything that happened before. *)
From S2P Require Import Prelude Timestamp Release Update GoStrings HostManifest.
From Stdlib Require Import Ascii.

Open Scope string_scope.

(** ** Data *)

Record Status := mkStatus {
  Upstream : string; SkipDryRun : bool; OperationID : string; Actor : string;
  State : string; Phase : string; SourceRelease : string; TargetRelease : string;
  StError : string; RollbackError : string; StartedAt : Z; UpdatedAt : Z;
  Target : Manifest; Source : Manifest; BootID : string; Watchdog : bool; CommitFinalized : bool }.

Definition zero_status : Status :=
  mkStatus "" false "" "" "" "" "" "" "" "" 0 0 empty_manifest empty_manifest "" false false.
Definition idle_status : Status :=
  mkStatus "" false "" "" "idle" "idle" "" "" "" "" 0 0 empty_manifest empty_manifest "" false false.

(** The journal's state with its phase, as [save] writes them. *)
Definition set_State (x : string) (t : Z) (s : Status) : Status :=
  mkStatus (Upstream s) (SkipDryRun s) (OperationID s) (Actor s) x x (SourceRelease s) (TargetRelease s)
    (StError s) (RollbackError s) (StartedAt s) t (Target s) (Source s) (BootID s) (Watchdog s) (CommitFinalized s).
Definition set_Phase (x : string) (s : Status) : Status :=
  mkStatus (Upstream s) (SkipDryRun s) (OperationID s) (Actor s) (State s) x (SourceRelease s) (TargetRelease s)
    (StError s) (RollbackError s) (StartedAt s) (UpdatedAt s) (Target s) (Source s) (BootID s) (Watchdog s) (CommitFinalized s).
Definition set_Error (x : string) (s : Status) : Status :=
  mkStatus (Upstream s) (SkipDryRun s) (OperationID s) (Actor s) (State s) (Phase s) (SourceRelease s) (TargetRelease s)
    x (RollbackError s) (StartedAt s) (UpdatedAt s) (Target s) (Source s) (BootID s) (Watchdog s) (CommitFinalized s).
Definition set_RollbackError (x : string) (s : Status) : Status :=
  mkStatus (Upstream s) (SkipDryRun s) (OperationID s) (Actor s) (State s) (Phase s) (SourceRelease s) (TargetRelease s)
    (StError s) x (StartedAt s) (UpdatedAt s) (Target s) (Source s) (BootID s) (Watchdog s) (CommitFinalized s).
Definition set_UpdatedAt (x : Z) (s : Status) : Status :=
  mkStatus (Upstream s) (SkipDryRun s) (OperationID s) (Actor s) (State s) (Phase s) (SourceRelease s) (TargetRelease s)
    (StError s) (RollbackError s) (StartedAt s) x (Target s) (Source s) (BootID s) (Watchdog s) (CommitFinalized s).
Definition set_Staged (target source : Manifest) (s : Status) : Status :=
  mkStatus (Upstream s) (SkipDryRun s) (OperationID s) (Actor s) (State s) (Phase s) ("host-v" +:+ MVersion source)
    (TargetRelease s) (StError s) (RollbackError s) (StartedAt s) (UpdatedAt s) target source (BootID s) (Watchdog s)
    (CommitFinalized s).
Definition set_BootID (x : string) (s : Status) : Status :=
  mkStatus (Upstream s) (SkipDryRun s) (OperationID s) (Actor s) (State s) (Phase s) (SourceRelease s) (TargetRelease s)
    (StError s) (RollbackError s) (StartedAt s) (UpdatedAt s) (Target s) (Source s) x (Watchdog s) (CommitFinalized s).
Definition set_CommitFinalized (s : Status) : Status :=
  mkStatus (Upstream s) (SkipDryRun s) (OperationID s) (Actor s) (State s) (Phase s) (SourceRelease s) (TargetRelease s)
    (StError s) (RollbackError s) (StartedAt s) (UpdatedAt s) (Target s) (Source s) (BootID s) (Watchdog s) true.

(** The methods of [Backend] and the coordinator functions of [Manager]. *)
Inductive op :=
| Stage | ValidateActivation | Arm | Clear | Reboot | Health | Promote | FinalizeCommit | RestoreBoot | Cleanup
| Checkpoint | RestoreCheckpoint | ReleaseCheckpoint | PreflightCheckpoint | TrialStart | TrialReady | TrialStop
| ValidateManagement | CleanupCheckpoint (id : string) | RemoveArchive (name : string) | RemoveHistory (name : string)
| GuardReady | GuardCommitted.
#[export] Instance op_eq_dec : EqDecision op.
Proof. solve_decision. Defined.

(** What [Running] observes. *)
Record boot := mkBootObs { bt_version : string; bt_origin : string; bt_token : string; bt_id : string }.

Inductive event :=
| ECall (o : op) (s : Status) (ok : bool)
| ERunning (s : Status) (b : option boot)
| ESave (s : Status) (ok applied : bool)
| EHistory (name : string) (s : Status) (ok applied : bool)
| EAction (key : string) (ok applied : bool).

Record W := mkW {
  journal : file Status;
  management : file string;
  history : gmap string Status;
  actions : gmap string (file (Request * string));
  lock : bool;
  cur : Status;
  trace : list event }.

Definition set_cur (s : Status) (w : W) : W := mkW (journal w) (management w) (history w) (actions w) (lock w) s (trace w).
Definition set_lock (b : bool) (w : W) : W := mkW (journal w) (management w) (history w) (actions w) b (cur w) (trace w).
Definition set_journal (f : file Status) (w : W) : W := mkW f (management w) (history w) (actions w) (lock w) (cur w) (trace w).
Definition set_history (h : gmap string Status) (w : W) : W := mkW (journal w) (management w) h (actions w) (lock w) (cur w) (trace w).
Definition set_actions (a : gmap string (file (Request * string))) (w : W) : W :=
  mkW (journal w) (management w) (history w) a (lock w) (cur w) (trace w).
Definition log (e : event) (w : W) : W :=
  mkW (journal w) (management w) (history w) (actions w) (lock w) (cur w) (e :: trace w).

Inductive Error := ErrText (what : string).
Definition err_text (e : Error) : string := match e with ErrText m => m end.
Abbreviation cmd := (prog Error W).
Definition failed {A} (m : string) : cmd A := fail (ErrText m).

(** ** The environment *)
Class Env := {
  answer : op -> Status -> list event -> option string;
  images : Request -> list event -> Manifest * Manifest;
  observed : list event -> option boot;
  write : list event -> wstep -> bool;
  read_ok : list event -> bool;
  read_dir_ok : list event -> bool;
  now : list event -> Z;
  open_lock : list event -> bool;
  watchdog : list event -> bool;
  coordinator : op -> bool;
  sha256_hex : string -> string }.

Definition terminal (state : string) : bool :=
  bool_decide (state = "") || bool_decide (state = "idle") || bool_decide (state = "committed") ||
  bool_decide (state = "recovered") || bool_decide (state = "failed").

Definition update (f : Status -> Status) : cmd unit := modify (fun w => set_cur (f (cur w)) w).
Definition current : cmd Status := fun w => (Ok (cur w), w).

Section Manager.
Context `{Semver} `{Env}.

(** [Status]: a missing journal is idle; when it cannot be read the status is
    the zero value. *)
Definition load : cmd unit := fun w =>
  if negb (read_ok (trace w)) then (Err (ErrText "read host.json"), set_cur zero_status w)
  else match journal w with
       | Absent => (Ok tt, set_cur idle_status w)
       | Unreadable => (Err (ErrText "read host.json"), set_cur zero_status w)
       | Content s => (Ok tt, set_cur s w)
       end.

Definition StatusFor (id : string) : cmd Status :=
  load;;
  s ← current;
  if negb (bool_decide (id = "")) && negb (bool_decide (OperationID s = id)) then failed "update operation not found"
  else ret s.

(** [WriteJSON] of [host.json] with the status object. *)
Definition write_journal : cmd unit := fun w =>
  let '(ok, f) := WriteFile (write (trace w)) (cur w) (journal w) in
  let applied := match WriteFile (write (trace w)) tt Unreadable with (_, Content _) => true | _ => false end in
  (if ok then Ok tt else Err (ErrText "write host.json"), set_journal f (log (ESave (cur w) ok applied) w)).
Definition touch : cmd unit := fun w => update (set_UpdatedAt (now (trace w))) w.
Definition save (state : string) : cmd unit :=
  fun w => (update (set_State state (now (trace w)));; write_journal) w.

Definition call (o : op) : cmd unit := fun w =>
  let a := answer o (cur w) (trace w) in
  (match a with None => Ok tt | Some m => Err (ErrText m) end,
   log (ECall o (cur w) (match a with None => true | Some _ => false end)) w).
(** A coordinator function that may not be installed. *)
Definition coordinate (o : op) (missing : string) : cmd unit :=
  if coordinator o then call o else failed missing.

Definition Running : cmd boot := fun w =>
  (match observed (trace w) with Some b => Ok b | None => Err (ErrText "running system") end,
   log (ERunning (cur w) (observed (trace w))) w).

Definition acquire : cmd unit := fun w =>
  match Acquire (open_lock (trace w)) (lock w) with
  | None => (Err (ErrText "another update transaction is active"), w)
  | Some b => (Ok tt, set_lock b w)
  end.
Definition unlock : cmd unit := modify (set_lock false).
Definition with_lock {A} (body : cmd A) : cmd A :=
  acquire;;
  r ← attempt body;
  unlock;;
  of_result r.
(** Runs [m] and releases the lock when it fails. *)
Definition unlock_on_error {A} (m : cmd A) : cmd A :=
  r ← attempt m;
  match r with Ok a => ret a | Err e => unlock;; fail e end.

(** ** Preparation *)

Definition same_request (s : Status) (r : Request) : bool :=
  bool_decide (TargetRelease s = rq_Release r) &&
  bool_decide (Repository (Upstream s) = Repository (rq_Upstream r)) &&
  Bool.eqb (SkipDryRun s) (rq_SkipDryRun r).

(** The management updater's journal shares the update lane. *)
Definition management_idle : cmd unit := fun w =>
  (match management w with
   | Absent => Ok tt
   | Unreadable => Err (ErrText "read management.json")
   | Content st =>
       if negb (terminal st) && negb (bool_decide (st = "idle")) && negb (bool_decide (st = "succeeded")) &&
          negb (bool_decide (st = "rolled_back"))
       then Err (ErrText "management update is pending") else Ok tt
   end, w).

Definition write_history (name : string) (s : Status) : cmd unit := fun w =>
  let '(ok, f) := WriteFile (write (trace w)) s (match history w !! name with Some s => Content s | None => Absent end) in
  let applied := match WriteFile (write (trace w)) tt Unreadable with (_, Content _) => true | _ => false end in
  (if ok then Ok tt else Err (ErrText "write history"),
   set_history (match f with Content s => <[name := s]> (history w) | _ => history w end) (log (EHistory name s ok applied) w)).

Definition new_status (r : Request) (t : Z) (wd : bool) : Status :=
  mkStatus (rq_Upstream r) (rq_SkipDryRun r) (rq_OperationID r) (rq_Actor r) "" "" "" (rq_Release r) "" "" t 0
    empty_manifest empty_manifest "" wd false.

(** [Prepare] up to the launch of the staging goroutine: [true] means
    [prepare_work] runs next, with the lock held. *)
Definition Prepare (r : Request) : cmd (Status * bool) :=
  if negb (Request_Validate r) then failed "invalid request"
  else
    acquire;;
    unlock_on_error (
      load;;
      s ← current;
      if decide (OperationID s = rq_OperationID r) then
        unlock;;
        (if negb (same_request s r) then failed "operation id already used for another release or update options"
         else ret (s, false))
      else if negb (terminal (State s)) then failed ("host update " +:+ OperationID s +:+ " is " +:+ State s)
      else
        management_idle;;
        (if decide (OperationID s = "") then ret tt else write_history (OperationID s +:+ ".json") s);;
        w ← get;
        update (fun _ => new_status r (now (trace w)) (watchdog (trace w)));;
        save "staging";;
        s ← current;
        ret (s, true)).

Definition prepare_work (r : Request) : cmd unit :=
  w ← get;
  let '(target, source) := images r (trace w) in
  e ← attempt (call Stage);
  e ← (match e with
       | Ok _ => if negb (rq_SkipDryRun r) && coordinator PreflightCheckpoint then attempt (call PreflightCheckpoint) else ret e
       | Err _ => ret e
       end);
  update (set_Staged target source);;
  match e with
  | Err e => update (set_Error (err_text e));; attempt (save "failed");; unlock
  | Ok _ => attempt (save "staged");; unlock
  end.

(** ** Undoing an activation *)

(** A step of [restore]: its error is journalled. *)
Definition restore_step (m : cmd unit) : cmd unit :=
  r ← attempt m;
  match r with
  | Ok _ => ret tt
  | Err e => update (set_RollbackError (err_text e));; attempt (save "recovering");; fail e
  end.
Definition restore (cause : Error) : cmd unit :=
  update (set_Error (err_text cause));;
  save "recovering";;
  restore_step (call Clear);;
  restore_step (call RestoreBoot);;
  (if negb (coordinator RestoreCheckpoint) then failed "management restore coordinator unavailable" else ret tt);;
  restore_step (call RestoreCheckpoint);;
  update (set_RollbackError "");;
  save "recovered".

(** ** Committing *)

Definition name_le (a b : string) : Prop := bytes_ltb (chars b) (chars a) = false.
#[export] Instance name_le_dec : RelDecision name_le.
Proof. intros a b. unfold name_le. apply _. Defined.

(** The retired operations of the history, in directory order. *)
Fixpoint clean_history (names : list string) : cmd unit :=
  match names with
  | [] => ret tt
  | name :: names =>
      if negb (HasSuffix name ".json") then clean_history names
      else
        let id := TrimSuffix name ".json" in
        if negb (operationID id) then failed "invalid historical operation"
        else
          s ← current;
          if decide (id = OperationID s) then clean_history names
          else
            (if negb (coordinator (CleanupCheckpoint id)) then failed "management checkpoint cleanup unavailable" else ret tt);;
            call (CleanupCheckpoint id);;
            call (RemoveHistory name);;
            modify (fun w => set_history (delete name (history w)) w);;
            clean_history names
  end.

Definition cleanup : cmd unit :=
  call Cleanup;;
  s ← current;
  if negb (terminal (State s)) || negb (operationID (OperationID s)) then failed "download cleanup requires a terminal operation"
  else
    call (RemoveArchive "floatlab-root.tar.gz");;
    call (RemoveArchive "floatlab-root.tar.gz.partial");;
    if negb (bool_decide (State s = "committed")) then ret tt
    else
      w ← get;
      if negb (read_dir_ok (trace w)) then failed "read host-history"
      else clean_history (merge_sort name_le (map_to_list (history w)).*1).

Definition finishCommit : cmd unit :=
  coordinate ReleaseCheckpoint "management coordinator unavailable";;
  call FinalizeCommit;;
  update set_CommitFinalized;;
  save "committed";;
  r ← attempt cleanup;
  match r with
  | Ok _ => ret tt
  | Err e => update (set_Error ("committed; cleanup pending: " +:+ err_text e));; attempt (save "committed");; ret tt
  end.

Definition trial_origin (s : Status) : string := "floatlab/os/" +:+ MVersion (Target s) +:+ "@base".

(** The running system is the trial of [s]. *)
Definition is_trial (s : Status) (b : boot) : bool :=
  bool_decide (bt_version b = MVersion (Target s)) && bool_decide (bt_origin b = trial_origin s) &&
  bool_decide (bt_token b = OperationID s).

(** ** Actions *)

Definition activate : cmd unit :=
  s ← current;
  if bool_decide (State s = "armed") || bool_decide (State s = "trial") || bool_decide (State s = "ready") then ret tt
  else if negb (bool_decide (State s = "staged")) then failed ("host update is " +:+ State s)
  else if negb (coordinator Checkpoint && coordinator RestoreCheckpoint && coordinator ReleaseCheckpoint)
  then failed "management recovery coordinator unavailable"
  else
    call ValidateActivation;;
    coordinate ValidateManagement "management compatibility validator unavailable";;
    b ← attempt Running;
    match b with
    | Err e => update (set_BootID "");; fail e
    | Ok b =>
        update (set_BootID (bt_id b));;
        save "arming";;
        r ← attempt (call Checkpoint;; call Arm);
        match r with
        | Err e => restore e
        | Ok _ =>
            save "armed";;
            r ← attempt (call Reboot);
            match r with Err e => restore e | Ok _ => ret tt end
        end
    end.

Definition commit : cmd unit :=
  s ← current;
  if decide (State s = "committed") then (if negb (CommitFinalized s) then finishCommit else ret tt)
  else if negb (bool_decide (State s = "ready")) && negb (bool_decide (State s = "committing"))
  then failed "trial has not completed stable readiness"
  else
    b ← Running;
    if negb (is_trial s b) then failed "running boot does not match this trial"
    else
      call Health;;
      save "committing";;
      call Promote;;
      save "committed";;
      finishCommit.

Definition rollback : cmd unit :=
  s ← current;
  if decide (State s = "recovered") then ret tt
  else if bool_decide (State s = "staged") || bool_decide (State s = "failed") then
    call Clear;; save "recovered"
  else if negb (coordinator TrialStop) then failed "management stop coordinator unavailable"
  else
    save "recovering";;
    call Clear;;
    call TrialStop;;
    call RestoreBoot;;
    call Reboot.

Definition action_locked (r : Request) (action : string) : cmd unit :=
  load;;
  s ← current;
  if negb (operationID (rq_OperationID r)) || negb (bool_decide (rq_OperationID r = OperationID s))
  then failed "unknown operation"
  else if decide (action = "activate") then activate
  else if decide (action = "commit") then commit
  else if decide (action = "rollback") then rollback
  else if decide (action = "cleanup") then
    (if negb (terminal (State s)) then failed "cleanup blocked by pending trial" else cleanup)
  else failed "unknown host update action".

(** [Activate], [Commit], [Rollback] and [Cleanup]. *)
Definition action (r : Request) (name : string) : cmd unit := with_lock (action_locked r name).

(** [Submit]'s conditions on the journal for each action. *)
Definition acceptable (s : Status) (action : string) : result Error unit :=
  if decide (action = "activate") then
    (if negb (bool_decide (State s = "staged")) then Err (ErrText ("host update is " +:+ State s)) else Ok tt)
  else if decide (action = "commit") then
    (if negb (bool_decide (State s = "ready")) && negb (bool_decide (State s = "committing"))
     then Err (ErrText "trial is not ready") else Ok tt)
  else if decide (action = "cleanup") then
    (if negb (terminal (State s)) then Err (ErrText "update is pending") else Ok tt)
  else if decide (action = "rollback") then Ok tt
  else Err (ErrText "invalid action").

Definition write_action (key : string) (r : Request) (action : string) : cmd unit := fun w =>
  let '(ok, f) := WriteFile (write (trace w)) (r, action) (default Absent (actions w !! key)) in
  let applied := match WriteFile (write (trace w)) tt Unreadable with (_, Content _) => true | _ => false end in
  (if ok then Ok tt else Err (ErrText "write action"),
   set_actions (<[key := f]> (actions w)) (log (EAction key ok applied) w)).

(** [Submit] up to the launch of the goroutine: [true] means [submit_work]
    runs next, with the lock held. *)
Definition Submit (r : Request) (action : string) : cmd (Status * bool) :=
  if negb (operationID (rq_OperationID r)) || bool_decide (rq_IdempotencyKey r = "") ||
     (255 <? String.length (rq_IdempotencyKey r))%nat || bool_decide (rq_Actor r = "")
  then failed "operation_id, idempotency_key and actor required"
  else
    acquire;;
    unlock_on_error (
      load;;
      s ← current;
      if negb (bool_decide (OperationID s = rq_OperationID r)) then failed "unknown operation"
      else
        let key := sha256_hex (rq_IdempotencyKey r) in
        w ← get;
        match default Absent (actions w !! key) with
        | Content (pr, pa) =>
            if negb (bool_decide (rq_OperationID pr = rq_OperationID r)) || negb (bool_decide (pa = action))
            then failed "idempotency key already used"
            else unlock;; ret (s, false)
        | Unreadable => failed "read host action"
        | Absent =>
            of_result (acceptable s action);;
            write_action key r action;;
            update (set_Phase (action +:+ "_requested"));;
            touch;;
            write_journal;;
            s ← current;
            ret (s, true)
        end).

Definition settle_phase : cmd unit :=
  update (fun s => if HasSuffix (Phase s) "_requested" then set_Phase (State s) s else s).
Definition submit_work (r : Request) (action : string) : cmd unit :=
  e ← attempt (action_locked r action);
  (match e with Err e => update (set_Error (err_text e)) | Ok _ => ret tt end);;
  settle_phase;;
  touch;;
  attempt write_journal;;
  unlock.

(** ** Recovery, before every core-stack startup *)

(** What it does with a pending activation once the running system is known. *)
Definition resume_boot (s : Status) (b : boot) : cmd unit :=
  if bool_decide (State s = "recovering") && bool_decide (bt_version b = MVersion (Target s)) &&
     bool_decide (bt_origin b = trial_origin s) then
    coordinate TrialStop "management stop coordinator unavailable";;
    call Clear;;
    call RestoreBoot;;
    call Reboot
  else if is_trial s b && negb (bool_decide (State s = "recovering")) then
    (if decide (State s = "committing") then
       call Promote;; save "committed";; finishCommit
     else
       coordinate TrialStart "management trial coordinator unavailable";;
       if decide (State s = "ready") then ret tt else save "trial")
  else if bool_decide (bt_id b = BootID s) && bool_decide (State s = "armed") then failed "OS reboot is pending"
  else if negb (bool_decide (bt_version b = MVersion (Source s)))
  then failed "recovery boot is neither source nor authorized trial; management remains stopped"
  else restore (ErrText "uncommitted OS trial returned to committed boot").

Definition resume (s : Status) : cmd unit :=
  if HasSuffix (Phase s) "_requested" then
    action_locked (mkRequest "" false (OperationID s) "" (Actor s) "") (TrimSuffix (Phase s) "_requested")
  else if terminal (State s) then
    (if bool_decide (State s = "committed") && negb (CommitFinalized s) then finishCommit else ret tt)
  else if decide (State s = "staging") then
    update (set_Error "OS staging interrupted; retry with a new operation");; save "failed"
  else if decide (State s = "staged") then ret tt
  else
    b ← Running;
    resume_boot s b.

Definition Recover : cmd unit :=
  with_lock (
    load;;
    s ← current;
    resume s).
End Manager.
