(* ===== verification/HostGuard.v ===== *)
(** Supervision of a trial boot: the heartbeat loop [Supervise] of
    [src/internal/hostupgrade/manager.go] and the independent boot guard of
    [src/internal/hostupgrade/guard.go].  Times are nanoseconds. *)
From S2P Require Import Prelude Timestamp Release Update GoTime GoStrings HostManifest HostUpgrade.
From Stdlib Require Import Ascii.

Open Scope string_scope.
Open Scope Z_scope.

Definition second : Z := 1000000000.
Definition minute : Z := 60 * second.

(** ** [Supervise] *)

(** What one round of the loop ends in: the loop goes on with the start of the
    current healthy period, or the function returns. *)
Inductive round := Continue (stable : option Z) | Return.

Section Supervise.
Context `{Semver} `{Env}.

Definition WriteGuardMessage (operation : string) (o : op) : cmd unit :=
  if operationID operation then call o else failed "invalid operation id".

Definition mark_ready : cmd (option unit) := fun w =>
  match acquire w with
  | (Err _, w) => (Ok None, w)
  | (Ok _, w) =>
      (r ← attempt (load;;
         fresh ← current;
         if bool_decide (State fresh = "trial") || bool_decide (State fresh = "ready") then save "ready" else ret tt);
       unlock;;
       x ← of_result r;
       ret (Some x)) w
  end.

(** One tick for [operation]; [stable] is the start of the current healthy
    period. *)
Definition supervise_round (operation : string) (stable : option Z) : cmd round :=
  load;;
  current ← current;
  if decide (State current = "committed") then
    (if CommitFinalized current then WriteGuardMessage operation GuardCommitted;; ret Return else ret (Continue stable))
  else if decide (State current = "recovering") then ret Return
  else
    h ← attempt (call Health);
    match h with
    | Err _ => ret (Continue None)
    | Ok _ =>
        w ← get;
        let t := now (trace w) in
        let since := default t stable in
        if negb (bool_decide (State current = "ready")) && (t - since <? minute) then ret (Continue (Some since))
        else
          m ← (if negb (bool_decide (State current = "ready")) then mark_ready else ret (Some tt));
          match m with
          | None => ret (Continue (Some since))
          | Some _ =>
              (if coordinator TrialReady then call TrialReady else ret tt);;
              WriteGuardMessage operation GuardReady;;
              ret (Continue (Some since))
          end
    end.

(** The loop for a number of ticks. *)
Fixpoint supervise_loop (ticks : nat) (operation : string) (stable : option Z) : cmd unit :=
  match ticks with
  | O => ret tt
  | S ticks =>
      r ← supervise_round operation stable;
      match r with
      | Continue stable => supervise_loop ticks operation stable
      | Return => ret tt
      end
  end.

Definition Supervise (ticks : nat) : cmd unit :=
  load;;
  s ← current;
  if negb (bool_decide (State s = "trial")) && negb (bool_decide (State s = "ready")) then ret tt
  else supervise_loop ticks (OperationID s) None.
End Supervise.

(** ** The guard *)

Record guardMessage := mkMessage { m_OperationID : string; m_State : string; m_Nonce : Z }.

Record GuardState := mkGuard {
  g_OperationID : string; g_Started : Z; g_LastHeartbeat : Z; g_LastNonce : Z; g_Ready : bool }.

Definition Observe (g : GuardState) (now : Z) (operation state : string) (nonce : Z) : GuardState :=
  if negb (bool_decide (operation = g_OperationID g)) || negb (bool_decide (state = "ready")) || (nonce =? g_LastNonce g)
  then g
  else mkGuard (g_OperationID g) (g_Started g) now nonce true.

Definition Expired (g : GuardState) (now : Z) : bool :=
  if negb (g_Ready g) then 10 * minute <=? now - g_Started g
  else minute <=? now - g_LastHeartbeat g.

(** What the guard keeps in [/run], in time since boot. *)
Record savedGuard := mkSaved { sv_Started : Z; sv_Heartbeat : Z; sv_Nonce : Z; sv_Ready : bool }.

(** The start of [Guard]: [now] and [bootNow] are the two clocks.  [None]: an
    unreadable or impossible checkpoint, or one that could not be written. *)
Definition guard_start (token : string) (saved : file savedGuard) (write_ok : bool) (now bootNow : Z) :
  option (GuardState * savedGuard) :=
  match saved with
  | Absent =>
      if negb write_ok then None
      else Some (mkGuard token now 0 0 false, mkSaved bootNow 0 0 false)
  | Unreadable => None
  | Content sv =>
      if (sv_Started sv <=? 0) || (bootNow <? sv_Started sv) then None
      else Some (mkGuard token (now - (bootNow - sv_Started sv))
                   (if sv_Ready sv then now - (bootNow - sv_Heartbeat sv) else 0) (sv_Nonce sv) (sv_Ready sv), sv)
  end.

(** One tick: the message file, what the journal says, whether the checkpoint
    can be written; the guard goes on, ends because the trial was committed,
    fails, or reboots the host. *)
Inductive verdict := Waiting (g : GuardState) (sv : savedGuard) | CommittedTrial | GuardError | RebootNow.

Definition committed_journal (token : string) (journal : option Status) : bool :=
  match journal with
  | Some s => bool_decide (OperationID s = token) && bool_decide (State s = "committed") && CommitFinalized s
  | None => false
  end.

Definition guard_tick (g : GuardState) (sv : savedGuard) (now bootNow : Z) (message : option guardMessage)
  (journal : option Status) (write_ok : bool) : verdict :=
  let judge g sv := if Expired g now then RebootNow else Waiting g sv in
  match message with
  | None => judge g sv
  | Some m =>
      if negb (bool_decide (m_OperationID m = g_OperationID g)) then judge g sv
      else if bool_decide (m_State m = "committed") && committed_journal (g_OperationID g) journal then CommittedTrial
      else
        let g' := Observe g now (m_OperationID m) (m_State m) (m_Nonce m) in
        if negb (sv_Nonce sv =? g_LastNonce g') then
          if negb write_ok then GuardError
          else judge g' (mkSaved (sv_Started sv) bootNow (g_LastNonce g') (g_Ready g'))
        else judge g' sv
  end.

Record tick := mkTick {
  t_now : Z; t_boot : Z; t_message : option guardMessage; t_journal : option Status; t_write : bool }.

(** The guard over a sequence of ticks. *)
Fixpoint guard_run (g : GuardState) (sv : savedGuard) (ticks : list tick) : verdict :=
  match ticks with
  | [] => Waiting g sv
  | t :: ticks =>
      match guard_tick g sv (t_now t) (t_boot t) (t_message t) (t_journal t) (t_write t) with
      | Waiting g sv => guard_run g sv ticks
      | v => v
      end
  end.
