(* ===== verification/HostUpgradeSafety.v ===== *)
(** Crash safety of the host upgrade of [HostUpgrade.v]: what the durable
    journal promises at every moment of an operation's life, across any number
    of crashes, reboots and failures. *)
From S2P Require Import Prelude Timestamp Release Update GoStrings HostManifest HostUpgrade HostGuard.

Open Scope string_scope.
Open Scope list_scope.

(** ** Facts about the past *)

Fixpoint last_saved (tr : list event) : option Status :=
  match tr with
  | [] => None
  | ESave s _ true :: _ => Some s
  | _ :: tr => last_saved tr
  end.

(** Some call of [o] succeeded. *)
Definition succeeded (o : op) (tr : list event) : Prop := exists s, ECall o s true ∈ tr.
(** Management was taken down for this operation, or that was tried. *)
Definition activated (tr : list event) : Prop := exists s b, ECall Checkpoint s b ∈ tr.
(** The staged release was seen running as this trial. *)
Definition trial_seen (tr : list event) : Prop := exists s b, ERunning s (Some b) ∈ tr /\ is_trial s b = true.

Definition known_states : list string :=
  ["staging"; "staged"; "failed"; "arming"; "armed"; "trial"; "ready"; "committing"; "committed"; "recovering"; "recovered"].

(** What a durable state means, given the past. *)
Record meaning (st : string) (tr : list event) : Prop := {
  me_known : st ∈ known_states;
  me_untouched : st ∈ ["staging"; "staged"; "failed"] -> ~ activated tr;
  me_armed : st = "armed" -> succeeded Checkpoint tr /\ succeeded Arm tr;
  me_trial : st = "trial" \/ st = "ready" -> succeeded TrialStart tr /\ trial_seen tr;
  me_commit : st = "committing" \/ st = "committed" -> succeeded Health tr /\ trial_seen tr;
  me_committed : st = "committed" -> succeeded Promote tr;
  me_recovered : st = "recovered" -> succeeded RestoreCheckpoint tr \/ ~ activated tr }.

(** The state the journal is in. *)
Definition journalled (st : string) (tr : list event) : Prop := exists s, last_saved tr = Some s /\ State s = st.

(** A journalled request is one the status accepts. *)
Definition phase_ok (s : Status) : Prop := HasSuffix (Phase s) "_requested" = true ->
  operationID (OperationID s) = true /\ exists name, Phase s = name +:+ "_requested" /\ acceptable s name = Ok tt.

(** What may be done when: the condition an event needs of its past. *)
Definition allowed (e : event) (tr : list event) : Prop :=
  match e with
  | ESave s _ true => phase_ok s
  | ECall Checkpoint _ _ => journalled "arming" tr
  | ECall Arm _ _ => journalled "arming" tr /\ exists s tr', tr = ECall Checkpoint s true :: tr'
  | ECall Promote _ _ => journalled "committing" tr
  | ECall RestoreCheckpoint _ _ => journalled "recovering" tr /\
      exists s1 s2 tr', tr = ECall RestoreBoot s1 true :: ECall Clear s2 true :: tr'
  | ECall TrialStart _ _ => (exists st, st ∈ ["arming"; "armed"; "trial"; "ready"] /\ journalled st tr) /\
      exists s b tr', tr = ERunning s (Some b) :: tr' /\ is_trial s b = true
  | ECall ReleaseCheckpoint _ _ => journalled "committed" tr
  | ECall FinalizeCommit _ _ => exists s tr', tr = ECall ReleaseCheckpoint s true :: tr'
  | ECall Reboot _ _ => journalled "armed" tr \/ (journalled "recovering" tr /\ exists s tr', tr = ECall RestoreBoot s true :: tr')
  | _ => True
  end.

Definition Inv (tr : list event) : Prop :=
  match last_saved tr with Some s => meaning (State s) tr | None => ~ activated tr end.

Inductive Good : list event -> Prop :=
| Good_nil : Good []
| Good_cons e tr : Good tr -> allowed e tr -> Inv (e :: tr) -> Good (e :: tr).

(** Events whose condition is always met and that do not take management down. *)
Definition quiet (e : event) : bool :=
  match e with
  | ECall (Checkpoint | Arm | Promote | RestoreCheckpoint | TrialStart | ReleaseCheckpoint | FinalizeCommit | Reboot) _ _ => false
  | ESave _ _ true => false
  | _ => true
  end.

Lemma known_phase s : Phase s ∈ known_states -> phase_ok s.
Proof.
  unfold known_states, phase_ok. intros Hk Hp.
  repeat (apply elem_of_cons in Hk as [Hk|Hk]; [by rewrite Hk in Hp|]). by apply elem_of_nil in Hk.
Qed.

Lemma succeeded_mono o e tr : succeeded o tr -> succeeded o (e :: tr).
Proof. intros [s Hs]. exists s. by apply elem_of_cons; right. Qed.
Lemma trial_seen_mono e tr : trial_seen tr -> trial_seen (e :: tr).
Proof. intros (s & b & Hs & Ht). exists s, b. split; [by apply elem_of_cons; right|done]. Qed.
Lemma activated_cons e tr : activated (e :: tr) -> (exists s b, e = ECall Checkpoint s b) \/ activated tr.
Proof. intros (s & b & [Heq|Hin]%elem_of_cons); [left; eexists _, _; by symmetry|right; by eexists _, _]. Qed.
Create HintDb host discriminated.
#[export] Hint Resolve succeeded_mono trial_seen_mono : host.

Lemma meaning_mono st e tr : (forall s b, e <> ECall Checkpoint s b) \/ st ∉ ["staging"; "staged"; "failed"; "recovered"] ->
  meaning st tr -> meaning st (e :: tr).
Proof.
  intros He [M1 M2 M3 M4 M5 M6 M7].
  assert (Hact : st ∈ ["staging"; "staged"; "failed"; "recovered"] -> ~ activated tr -> ~ activated (e :: tr)).
  { intros Hst Hn [(s & b & ->)|Ha]%activated_cons; [|done]. destruct He as [He|He]; [by eapply He|done]. }
  split; try done.
  - intros Hst. apply Hact; [|by apply M2]. set_solver.
  - intros Hst. destruct (M3 Hst). auto with host.
  - intros Hst. destruct (M4 Hst). auto with host.
  - intros Hst. destruct (M5 Hst). auto with host.
  - intros Hst. auto with host.
  - intros ->. destruct (M7 eq_refl) as [Hr|Hr]; [left; auto with host|right; apply Hact; [|done]]. set_solver.
Qed.

Lemma last_saved_quiet e tr : (forall s b, e <> ESave s b true) -> last_saved (e :: tr) = last_saved tr.
Proof. intros He. destruct e as [| |s b []| |]; try done. by destruct (He s b). Qed.

(** ** Programs that keep the invariant *)

Definition wf (w : W) : Prop :=
  Good (trace w) /\ exists s, last_saved (trace w) = Some s /\ journal w = Content s.
(** Where an operation may be abandoned: the status object may be journalled
    as it is. *)
Definition sound (w : W) : Prop := wf w /\ meaning (State (cur w)) (trace w).
(** The status object and the journal are both in state [st]. *)
Definition synced (st : string) (w : W) : Prop := wf w /\ journalled st (trace w) /\ State (cur w) = st.

Definition ext (w w' : W) : Prop := exists l, trace w' = l ++ trace w.
Lemma longer_refl w : ext w w.
Proof. by exists []. Qed.
Lemma longer_trans w1 w2 w3 : ext w1 w2 -> ext w2 w3 -> ext w1 w3.
Proof. intros [l Hl] [m Hm]. exists (m ++ l). by rewrite Hm, Hl, app_assoc. Qed.

(** Every run extends the past, keeps the invariant, and ends in [Q] or, with
    an error, somewhere sound. *)
Definition keeps {A} (Pre : W -> Prop) (m : cmd A) (Q : A -> W -> Prop) : Prop :=
  forall w, Pre w -> post m (fun r w' => ext w w' /\ match r with Ok a => Q a w' | Err _ => sound w' end) w.

Lemma keeps_ret {A} (a : A) (Pre : W -> Prop) (Q : A -> W -> Prop) : (forall w, Pre w -> Q a w) -> keeps Pre (ret a) Q.
Proof. intros Hq w Hp. split; [apply longer_refl|by apply Hq]. Qed.
Lemma keeps_fail {A} e (Pre : W -> Prop) (Q : A -> W -> Prop) : (forall w, Pre w -> sound w) -> keeps Pre (fail e) Q.
Proof. intros Hq w Hp. split; [apply longer_refl|by apply Hq]. Qed.
Lemma keeps_bind {A B} (m : cmd A) (k : A -> cmd B) Pre R Q :
  keeps Pre m R -> (forall a, keeps (R a) (k a) Q) -> keeps Pre (m ≫= k) Q.
Proof.
  intros Hm Hk w Hp. apply post_bind. eapply post_mono; [by apply Hm|].
  intros [a|e] w' [He Hr]; [|done]. eapply post_mono; [by apply Hk|].
  intros r w2 [He2 Hr2]. split; [by eapply longer_trans|done].
Qed.
Lemma keeps_pre {A} (m : cmd A) (Pre Pre' : W -> Prop) Q : (forall w, Pre' w -> Pre w) -> keeps Pre m Q -> keeps Pre' m Q.
Proof. intros Hi Hm w Hp. by apply Hm; auto. Qed.
Lemma keeps_post {A} (m : cmd A) Pre (Q Q' : A -> W -> Prop) : (forall a w, Q a w -> Q' a w) -> keeps Pre m Q -> keeps Pre m Q'.
Proof.
  intros Hi Hm w Hp. eapply post_mono; [by apply Hm|]. intros [a|e] w' [He Hr]; (split; [done|]); auto.
Qed.
Lemma keeps_attempt {A} (m : cmd A) Pre Q : keeps Pre m Q ->
  keeps Pre (attempt m) (fun r w => match r with Ok a => Q a w | Err _ => sound w end).
Proof. intros Hm w Hp. apply post_attempt. eapply post_mono; [by apply Hm|]. by intros [a|e] w' [He Hr]. Qed.

Lemma synced_sound st w : synced st w -> sound w.
Proof.
  intros [Hw [(s & Hs & <-) Hst]]. split; [done|]. rewrite Hst. destruct Hw as [HG _].
  assert (HI : Inv (trace w)) by (destruct HG; [|done]; done). unfold Inv in HI. by rewrite Hs in HI.
Qed.
Lemma sound_wf w : sound w -> wf w.
Proof. by intros [? _]. Qed.
#[export] Hint Resolve synced_sound sound_wf : host.

Section Steps.
Context `{Semver} `{Env}.

(** Changing the status object without its state. *)
Lemma keeps_update (f : Status -> Status) (Pre : W -> Prop) (Q : unit -> W -> Prop) :
  (forall w, Pre w -> Q tt (set_cur (f (cur w)) w)) -> keeps Pre (update f) Q.
Proof. intros Hq w Hp. split; [by exists []|by apply Hq]. Qed.

Lemma wf_event e w w' : wf w -> allowed e (trace w) -> (forall s b, e <> ESave s b true) ->
  ((forall s b, e <> ECall Checkpoint s b) \/ journalled "arming" (trace w)) ->
  journal w' = journal w -> trace w' = e :: trace w -> wf w'.
Proof.
  intros [HG (s & Hs & Hj)] Ha Hns Hc Hj' Ht. unfold wf. rewrite Ht, last_saved_quiet by done. split.
  - constructor; [done|done|]. unfold Inv. rewrite last_saved_quiet, Hs by done. apply meaning_mono.
    + destruct Hc as [Hc|(s' & Hs' & Hst)]; [by left|right]. rewrite Hs in Hs'. injection Hs' as <-. rewrite Hst. set_solver.
    + assert (HI : Inv (trace w)) by (destruct HG; done). unfold Inv in HI. by rewrite Hs in HI.
  - exists s. by rewrite Hj'.
Qed.

(** A call that is allowed now. *)
Lemma keeps_call o (Pre : W -> Prop) (Q : unit -> W -> Prop) :
  (forall w, Pre w -> sound w /\ allowed (ECall o (cur w) true) (trace w)) ->
  (forall w w', Pre w -> wf w' -> cur w' = cur w -> trace w' = ECall o (cur w) true :: trace w ->
     (meaning (State (cur w)) (trace w) -> meaning (State (cur w')) (trace w')) -> Q tt w') ->
  (o = Checkpoint -> forall w, Pre w -> synced "arming" w) ->
  keeps Pre (call o) Q.
Proof.
  intros Hp Hq Hck w Hw. unfold post, call. cbn. destruct (Hp w Hw) as [[Hwf Hm] Ha].
  set (b := match answer o (cur w) (trace w) with None => true | Some _ => false end).
  set (w' := log (ECall o (cur w) b) w).
  assert (Ha' : allowed (ECall o (cur w) b) (trace w)) by (by destruct o).
  assert (Hc : (forall s x, ECall o (cur w) b <> ECall Checkpoint s x) \/ synced "arming" w).
  { destruct (decide (o = Checkpoint)) as [Ho|Ho]; [right; by apply Hck|left; intros s x [= -> _ _]; done]. }
  assert (Hwf' : wf w').
  { eapply wf_event; [done|exact Ha'|done| |done|done]. destruct Hc as [Hc|[_ [Hc _]]]; auto. }
  assert (Hm' : meaning (State (cur w')) (trace w')).
  { change (cur w') with (cur w). apply meaning_mono; [|done]. destruct Hc as [Hc|[_ [_ Hc]]]; [by left|right]. rewrite Hc. set_solver. }
  split; [by exists [ECall o (cur w) b]|]. destruct (answer o (cur w) (trace w)) as [m|] eqn:Ean; [by split|].
  by eapply Hq.
Qed.

(** One that needs no permission: it keeps the state of affairs. *)
Lemma keeps_call_quiet o (st : string) : quiet (ECall o zero_status true) = true ->
  keeps (synced st) (call o) (fun _ w => synced st w /\ succeeded o (trace w) /\
    exists s tr, trace w = ECall o s true :: tr /\ journalled st tr).
Proof.
  intros Hq. apply keeps_call.
  - intros w Hw. split; [by eapply synced_sound|]. by destruct o.
  - intros w w' (Hwf & (s & Hs & Hst) & Hcur) Hwf' Hc Ht Hm. rewrite Ht. split_and!.
    + split; [done|]. split; [exists s; by rewrite Ht|by rewrite Hc].
    + exists (cur w). apply elem_of_cons. by left.
    + exists (cur w), (trace w). split; [done|]. by exists s.
  - intros ->. done.
Qed.

Lemma keeps_save st (Pre : W -> Prop) : (forall w, Pre w -> wf w /\ meaning st (trace w)) ->
  keeps Pre (save st) (fun _ w => synced st w).
Proof.
  intros Hp w Hw. destruct (Hp w Hw) as [[HG (s0 & Hs0 & Hj0)] Hm].
  unfold save, post, mbind, prog_mbind, bind, update, modify, write_journal. cbn [trace set_cur journal cur].
  set (s := set_State st (now (trace w)) (cur w)).
  destruct (WriteFile_cases (write (trace w)) s (journal w)) as (b & ap & E & Eap & Hb). rewrite E, Eap. cbn.
  set (w' := set_journal _ _).
  assert (Hsm : meaning st (ESave s b ap :: trace w)) by (apply meaning_mono; [by left|done]).
  assert (Hwf : wf w').
  { unfold wf. cbn. destruct ap.
    - split; [|by exists s]. constructor; [done|apply known_phase; by destruct Hm|exact Hsm].
    - split; [|exists s0; by rewrite Hj0]. constructor; [done|done|]. unfold Inv. cbn. rewrite Hs0.
      apply meaning_mono; [by left|]. assert (HI : Inv (trace w)) by (destruct HG; done). unfold Inv in HI. by rewrite Hs0 in HI. }
  split; [by exists [ESave s b ap]|]. destruct b.
  - destruct ap; [|by specialize (Hb eq_refl)]. split; [done|]. split; [by exists s|done].
  - split; [done|exact Hsm].
Qed.
End Steps.

(** What has to be known of the past for each state. *)
Ltac by_state := split;
  [ by apply (bool_decide_eq_true_1 _)
  | try (intros Hst; exfalso; by apply (bool_decide_eq_true_2 _) in Hst) | .. ];
  first [done | intros [?|?]; done | auto].
Lemma meaning_recovered tr : succeeded RestoreCheckpoint tr \/ ~ activated tr -> meaning "recovered" tr.
Proof. intros Hr. by_state. Qed.
Lemma meaning_armed tr : succeeded Checkpoint tr -> succeeded Arm tr -> meaning "armed" tr.
Proof. intros Hc Ha. by_state. Qed.
Lemma meaning_trial tr : succeeded TrialStart tr -> trial_seen tr -> meaning "trial" tr.
Proof. intros Hc Ha. by_state. Qed.
Lemma meaning_ready tr : succeeded TrialStart tr -> trial_seen tr -> meaning "ready" tr.
Proof. intros Hc Ha. by_state. Qed.
Lemma meaning_committing tr : succeeded Health tr -> trial_seen tr -> meaning "committing" tr.
Proof. intros Hh Ht. by_state. Qed.
Lemma meaning_committed tr : succeeded Promote tr -> meaning "committing" tr -> meaning "committed" tr.
Proof. intros Hp [_ _ _ _ M _ _]. destruct (M (or_introl eq_refl)) as [Hh Ht]. by_state. Qed.
Lemma meaning_untouched st tr : st ∈ ["staging"; "staged"; "failed"] -> ~ activated tr -> meaning st tr.
Proof. intros Hst Hn. repeat (apply elem_of_cons in Hst as [->|Hst]; [by_state|]). by apply elem_of_nil in Hst. Qed.

(** ** The operations *)

Lemma meaning_free st tr : st = "arming" \/ st = "recovering" -> meaning st tr.
Proof. intros Hst. split; destruct Hst as [->| ->]; try set_solver; intros [?|?]; done. Qed.

Section Operations.
Context `{Semver} `{Env}.

Lemma sound_update (f : Status -> Status) w : (forall s, State (f s) = State s) -> sound w -> sound (set_cur (f (cur w)) w).
Proof. intros Hf [Hw Hm]. split; [done|]. cbn. by rewrite Hf. Qed.
Lemma synced_update (f : Status -> Status) st w : (forall s, State (f s) = State s) -> synced st w -> synced st (set_cur (f (cur w)) w).
Proof. intros Hf (Hw & Hj & Hm). split_and!; [done|done|]. cbn. by rewrite Hf. Qed.

Lemma keeps_upd_synced f st : (forall s, State (f s) = State s) -> keeps (synced st) (update f) (fun _ => synced st).
Proof. intros Hf. apply (keeps_update _ _ (fun _ => synced st)). intros w. by apply synced_update. Qed.
Lemma keeps_upd_sound f : (forall s, State (f s) = State s) -> keeps sound (update f) (fun _ => sound).
Proof. intros Hf. apply (keeps_update _ _ (fun _ => sound)). intros w. by apply sound_update. Qed.

Lemma keeps_current (Pre : W -> Prop) : keeps Pre current (fun s w => Pre w /\ s = cur w).
Proof. intros w Hp. by split; [apply longer_refl|]. Qed.
Lemma keeps_get (Pre : W -> Prop) : keeps Pre get (fun w0 w => Pre w /\ w0 = w).
Proof. intros w Hp. by split; [apply longer_refl|]. Qed.

Lemma keeps_getting {B} (Pre : W -> Prop) (k : W -> cmd B) Q : (forall w, keeps Pre (k w) Q) -> keeps Pre (get ≫= k) Q.
Proof. intros Hk w Hp. by apply (Hk w). Qed.

Lemma keeps_try_save st (Pre : W -> Prop) : (forall w, Pre w -> wf w /\ meaning st (trace w)) ->
  keeps Pre (attempt (save st)) (fun _ w => sound w).
Proof.
  intros Hp. eapply keeps_post; [|by apply keeps_attempt, (keeps_save st)].
  intros [a|e] w Hs; [by eapply synced_sound|done].
Qed.

Lemma keeps_run o st : quiet (ECall o zero_status true) = true -> keeps (synced st) (call o) (fun _ => synced st).
Proof. intros Hq. eapply keeps_post; [|by apply keeps_call_quiet]. by intros a w [Hs _]. Qed.

Lemma keeps_Running st : keeps (synced st) Running (fun b w => synced st w /\
  exists tr, trace w = ERunning (cur w) (Some b) :: tr /\ journalled st tr).
Proof.
  intros w Hs. unfold post, Running. cbn. set (w' := log _ _). pose proof Hs as (Hwf & (s & Hs' & Hst) & Hcur).
  assert (Hwf' : wf w') by (by apply (wf_event (ERunning (cur w) (observed (trace w))) w); try done; left).
  assert (Hsy : synced st w') by (split_and!; [done|by exists s|done]).
  split; [by exists [ERunning (cur w) (observed (trace w))]|].
  destruct (observed (trace w)) as [b|] eqn:Eb; [|by eapply synced_sound].
  split; [done|]. exists (trace w). split; [subst w'; cbn; by rewrite ?Eb|by exists s].
Qed.

Lemma keeps_restore_step (m : cmd unit) Pre Q : keeps Pre m Q -> keeps Pre (restore_step m) Q.
Proof.
  intros Hm. eapply keeps_bind; [by apply keeps_attempt|]. intros [[]|e]; [by apply keeps_ret|].
  eapply keeps_bind; [by apply keeps_upd_sound|]. intros [].
  eapply keeps_bind; [apply keeps_try_save; intros w [Hw _]; split; [done|apply meaning_free; auto]|].
  intros r. by apply keeps_fail.
Qed.

Lemma keeps_restore e : keeps wf (restore e) (fun _ => synced "recovered").
Proof.
  unfold restore. eapply keeps_bind; [by apply (keeps_update _ _ (fun _ => wf))|]. intros [].
  eapply keeps_bind; [apply keeps_save; intros w Hw; split; [done|apply meaning_free; auto]|]. intros [].
  eapply keeps_bind; [apply keeps_restore_step, (keeps_call_quiet Clear); done|]. intros [].
  eapply keeps_bind.
  { apply keeps_restore_step. apply (keeps_call RestoreBoot _ (fun _ w => synced "recovering" w /\
      exists s1 s2 tr', trace w = ECall RestoreBoot s1 true :: ECall Clear s2 true :: tr')); [| |done].
    - intros w [Hs _]. split; [by eapply synced_sound|done].
    - intros w w' [(Hwf & (s & Hs & Hst) & Hcur) (_ & s2 & tr & Ht & _)] Hwf' Hc Ht' Hm. rewrite Ht'. split.
      + split_and!; [done|exists s; by rewrite Ht'|by rewrite Hc].
      + exists (cur w), s2, tr. by rewrite Ht. }
  intros []. apply (keeps_bind _ _ _ (fun _ w => synced "recovering" w /\
      exists s1 s2 tr', trace w = ECall RestoreBoot s1 true :: ECall Clear s2 true :: tr')).
  { destruct (negb _); [apply keeps_fail; intros w [Hs _]; by eapply synced_sound|by apply keeps_ret]. }
  intros []. eapply keeps_bind.
  { apply keeps_restore_step. apply (keeps_call RestoreCheckpoint _ (fun _ w => wf w /\ succeeded RestoreCheckpoint (trace w))); [| |done].
    - intros w [Hs Ht]. split; [by eapply synced_sound|]. split; [by destruct Hs as (_ & Hj & _)|done].
    - intros w w' [Hs Ht] Hwf' Hc Ht' Hm. split; [done|]. exists (cur w). rewrite Ht'. apply elem_of_cons. by left. }
  intros []. eapply keeps_bind; [apply (keeps_update _ _ (fun _ w => wf w /\ succeeded RestoreCheckpoint (trace w))); done|].
  intros []. apply keeps_save. intros w [Hw Hs]. split; [done|]. apply meaning_recovered. by left.
Qed.

Lemma keeps_undo e : keeps sound (restore e) (fun _ => sound).
Proof.
  eapply keeps_pre; [apply sound_wf|]. eapply keeps_post; [|apply keeps_restore]. intros a w Hs. exact (synced_sound _ _ Hs).
Qed.

(** Programs that leave the status and the journal alone and only make calls
    that are always allowed. *)
Definition idles {A} (m : cmd A) : Prop := forall w, let w' := (m w).2 in
  cur w' = cur w /\ journal w' = journal w /\ exists l, trace w' = l ++ trace w /\ forall e, e ∈ l -> quiet e = true.
Lemma idles_pure {A} (m : cmd A) : (forall w, cur (m w).2 = cur w /\ journal (m w).2 = journal w /\ trace (m w).2 = trace w) -> idles m.
Proof. intros Hm w. cbv zeta. destruct (Hm w) as (-> & -> & ->). split_and!; try done. exists []. split; [done|]. intros e He. inversion He. Qed.
Lemma idles_call o : quiet (ECall o zero_status true) = true -> idles (call o).
Proof.
  intros Hq w. cbn. split_and!; try done. eexists [_]. split; [done|]. intros e ->%list_elem_of_singleton. by destruct o.
Qed.
Lemma idles_bind {A B} (m : cmd A) (k : A -> cmd B) : idles m -> (forall a, idles (k a)) -> idles (m ≫= k).
Proof.
  intros Hm Hk w. unfold mbind, prog_mbind, bind. specialize (Hm w). destruct (m w) as [[a|e] w1]; [|exact Hm].
  destruct Hm as (Hc & Hj & l & Ht & Hl). destruct (Hk a w1) as (Hc2 & Hj2 & l2 & Ht2 & Hl2). cbn in *.
  rewrite Hc2, Hj2, Ht2, Hc, Hj, Ht. split_and!; try done. exists (l2 ++ l). rewrite <- app_assoc. split; [done|].
  intros e [He|He]%elem_of_app; auto.
Qed.

Lemma wf_quiet e w w' : wf w -> quiet e = true -> journal w' = journal w -> trace w' = e :: trace w -> wf w'.
Proof.
  intros Hw Hq. eapply wf_event; [done| | |].
  - by destruct e as [[]| |? ? []| |].
  - by intros s b ->.
  - left. by intros s b ->.
Qed.
Lemma synced_quiet w w' l st : cur w' = cur w -> journal w' = journal w -> trace w' = l ++ trace w ->
  (forall e, e ∈ l -> quiet e = true) -> synced st w -> synced st w'.
Proof.
  revert w'. induction l as [|e l IH]; intros w' Hc Hj Ht Hl (Hw & Hs & Hst).
  - split_and!; [|by rewrite Ht|by rewrite Hc]. destruct Hw as [HG (s & Hs' & Hj')]. split; [by rewrite Ht|].
    exists s. by rewrite Ht, Hj.
  - set (w1 := mkW (journal w) (management w) (history w) (actions w) (lock w) (cur w) (l ++ trace w)).
    assert (Hs1 : synced st w1) by (apply IH; try done; intros e' He'; apply Hl, elem_of_cons; by right).
    assert (Hq : quiet e = true) by (apply Hl, elem_of_cons; by left).
    destruct Hs1 as (Hw1 & (s & Hs1 & Hs2) & Hc1). split_and!.
    + by apply (wf_quiet e w1).
    + exists s. split; [|done]. rewrite Ht. cbn [app]. rewrite last_saved_quiet; [done|]. by intros s' b ->.
    + by rewrite Hc.
Qed.
Lemma keeps_idles {A} (m : cmd A) st : idles m ->
  keeps (synced st) (attempt m) (fun _ => synced st).
Proof.
  intros Hm w Hs. destruct (Hm w) as (Hc & Hj & l & Ht & Hl). apply post_attempt. unfold post. split; [by exists l|].
  by eapply synced_quiet.
Qed.

Lemma idles_clean_history names : idles (clean_history names).
Proof.
  induction names as [|name names IH]; [by apply idles_pure|]. cbn [clean_history]. cbv zeta.
  destruct (negb _); [exact IH|]. destruct (negb _); [by apply idles_pure|].
  apply idles_bind; [by apply idles_pure|]. intros s. destruct (decide _); [exact IH|].
  apply idles_bind; [destruct (negb _); by apply idles_pure|]. intros _.
  apply idles_bind; [by apply idles_call|]. intros _. apply idles_bind; [by apply idles_call|]. intros _.
  apply idles_bind; [by apply idles_pure|done].
Qed.
Lemma idles_cleanup : idles cleanup.
Proof.
  apply idles_bind; [by apply idles_call|]. intros _. apply idles_bind; [by apply idles_pure|]. intros s.
  destruct (_ || _); [by apply idles_pure|]. apply idles_bind; [by apply idles_call|]. intros _.
  apply idles_bind; [by apply idles_call|]. intros _. destruct (negb _); [by apply idles_pure|].
  apply idles_bind; [by apply idles_pure|]. intros w. destruct (negb _); [by apply idles_pure|apply idles_clean_history].
Qed.
Lemma keeps_idle_run {A} (m : cmd A) st : idles m -> keeps (synced st) m (fun _ => synced st).
Proof.
  intros Hm w Hs. pose proof (keeps_idles m st Hm w Hs) as Hp. unfold post, attempt in *. destruct (m w) as [[a|e] w']; cbn in *; destruct Hp as [He Hp].
  - done.
  - split; [done|by eapply synced_sound].
Qed.

Lemma synced_meaning st w : synced st w -> wf w /\ meaning st (trace w).
Proof. intros Hs. pose proof (synced_sound _ _ Hs) as [Hw Hm]. destruct Hs as (_ & _ & Hst). by rewrite Hst in Hm. Qed.

(** The observation is recorded with the status it was made for. *)
Lemma keeps_run_cur st s : keeps (fun w => synced st w /\ cur w = s) Running
  (fun b w => (synced st w /\ cur w = s) /\ exists tr, trace w = ERunning s (Some b) :: tr /\ journalled st tr).
Proof.
  intros w [Hs Hc]. pose proof (keeps_Running st w Hs) as Hr. unfold post, Running in *. cbn in *.
  destruct (observed (trace w)) as [b|]; destruct Hr as [He Hr]; (split; [done|]); [|done].
  destruct Hr as (Hs' & tr & Ht & Hj). split; [done|]. exists tr. by rewrite <- Hc.
Qed.

Lemma keeps_finishCommit : keeps (synced "committed") finishCommit (fun _ => sound).
Proof.
  unfold finishCommit, coordinate. apply (keeps_bind _ _ _ (fun _ w => synced "committed" w /\ exists s tr, trace w = ECall ReleaseCheckpoint s true :: tr)).
  { destruct (coordinator _); [|by apply keeps_fail; intros w Hs; eapply synced_sound].
    apply keeps_call; [| |done].
    - intros w Hs. split; [by eapply synced_sound|by destruct Hs as (_ & Hj & _)].
    - intros w w' (Hwf & (s & Hs & Hst) & Hcur) Hwf' Hc Ht Hm. split; [|rewrite Ht; by eexists _, _].
      split_and!; [done|exists s; by rewrite Ht|by rewrite Hc]. }
  intros []. apply (keeps_bind _ _ _ (fun _ => synced "committed")).
  { apply keeps_call; [| |done].
    - intros w [Hs Ht]. split; [by eapply synced_sound|done].
    - intros w w' [(Hwf & (s & Hs & Hst) & Hcur) _] Hwf' Hc Ht Hm.
      split_and!; [done|exists s; by rewrite Ht|by rewrite Hc]. }
  intros []. eapply keeps_bind; [by apply keeps_upd_synced|].
  intros []. eapply keeps_bind.
  { apply (keeps_save "committed"). intros w Hs. pose proof (synced_sound _ _ Hs) as [Hw Hm].
    destruct Hs as (_ & _ & Hst). by rewrite Hst in Hm. }
  intros []. eapply keeps_bind; [apply keeps_idles, idles_cleanup|]. intros [[]|e].
  { apply keeps_ret. intros w Hs. by eapply synced_sound. }
  eapply keeps_bind; [by apply keeps_upd_synced|].
  intros []. eapply keeps_bind; [by apply keeps_try_save, synced_meaning|]. intros r. by apply keeps_ret.
Qed.

Lemma is_trial_seen s b tr : is_trial s b = true -> trial_seen (ERunning s (Some b) :: tr).
Proof. intros Ht. exists s, b. split; [apply elem_of_cons; by left|done]. Qed.
Lemma meaning_of st w : synced st w -> meaning st (trace w).
Proof. intros Hs. pose proof (synced_sound _ _ Hs) as [_ Hm]. destruct Hs as (_ & _ & Hst). by rewrite Hst in Hm. Qed.

Lemma keeps_promote : keeps (synced "committing") (call Promote;; save "committed";; finishCommit) (fun _ => sound).
Proof.
  apply (keeps_bind _ _ _ (fun _ w => synced "committing" w /\ succeeded Promote (trace w))).
  { apply keeps_call; [| |done].
    - intros w Hs. split; [by eapply synced_sound|by destruct Hs as (_ & Hj & _)].
    - intros w w' (Hwf & (s & Hs & Hst) & Hcur) Hwf' Hc Ht Hm. split.
      + split_and!; [done|exists s; by rewrite Ht|by rewrite Hc].
      + exists (cur w). rewrite Ht. apply elem_of_cons. by left. }
  intros []. apply (keeps_bind _ _ _ (fun _ => synced "committed")); [|intros []; apply keeps_finishCommit].
  apply keeps_save. intros w [Hs Hp]. split; [by destruct Hs|]. by apply meaning_committed, meaning_of.
Qed.

Lemma keeps_activate st : keeps (synced st) activate (fun _ => sound).
Proof.
  unfold activate. eapply keeps_bind; [apply keeps_current|]. intros s. eapply keeps_pre; [by intros w [Hs _]; exact Hs|].
  destruct (_ || _ || _); [apply keeps_ret; intros w Hs; by eapply synced_sound|].
  destruct (negb _); [by apply keeps_fail; intros w Hs; eapply synced_sound|].
  destruct (negb _); [by apply keeps_fail; intros w Hs; eapply synced_sound|].
  eapply keeps_bind; [by apply keeps_run|]. intros [].
  apply (keeps_bind _ _ _ (fun _ => synced st)).
  { unfold coordinate. destruct (coordinator _); [by apply keeps_run|by apply keeps_fail; intros w Hs; eapply synced_sound]. }
  intros []. eapply keeps_bind; [apply keeps_attempt, keeps_Running|]. intros [b|e].
  2: { eapply keeps_bind; [by apply keeps_upd_sound|]. intros [].
       by apply keeps_fail. }
  eapply keeps_bind.
  { apply (keeps_update _ _ (fun _ => wf)). by intros w [[Hs _] _]. }
  intros []. eapply keeps_bind; [apply keeps_save; intros w Hs; split; [done|apply meaning_free; auto]|]. intros [].
  eapply keeps_bind.
  { apply keeps_attempt. apply (keeps_bind _ _ _ (fun _ w => synced "arming" w /\ exists s tr, trace w = ECall Checkpoint s true :: tr)).
    - apply keeps_call; [| |done].
      + intros w Hs. split; [by eapply synced_sound|by destruct Hs as (_ & Hj & _)].
      + intros w w' (Hwf & (s' & Hs & Hst) & Hcur) Hwf' Hc Ht Hm. split; [|rewrite Ht; by eexists _, _].
        split_and!; [done|exists s'; by rewrite Ht|by rewrite Hc].
    - intros []. apply (keeps_call Arm _ (fun _ w => wf w /\ meaning "armed" (trace w))); [| |done].
      + intros w [Hs Ht]. split; [by eapply synced_sound|]. split; [by destruct Hs as (_ & Hj & _)|done].
      + intros w w' [Hs (s' & tr & Ht)] Hwf' Hc Ht' Hm. split; [done|]. rewrite Ht', Ht. apply meaning_armed.
        * exists s'. apply elem_of_cons. right. apply elem_of_cons. by left.
        * exists (cur w). apply elem_of_cons. by left. }
  intros [[]|e]; [|apply keeps_undo].
  eapply keeps_bind; [by apply keeps_save|]. intros [].
  eapply keeps_bind.
  { apply keeps_attempt. apply (keeps_call Reboot _ (fun _ => sound)); [| |done].
    - intros w Hs. split; [by eapply synced_sound|]. left. by destruct Hs as (_ & Hj & _).
    - intros w w' Hs Hwf' Hc Ht Hm. split; [done|]. apply Hm. by eapply synced_sound. }
  intros [[]|e]; [by apply keeps_ret|apply keeps_undo].
Qed.

Lemma keeps_commit st : keeps (synced st) commit (fun _ => sound).
Proof.
  unfold commit. eapply keeps_bind; [apply keeps_current|]. intros s.
  destruct (decide (State s = "committed")) as [Hst|_].
  { destruct (negb _); [|apply keeps_ret; intros w [Hs _]; by eapply synced_sound].
    eapply keeps_pre; [|apply keeps_finishCommit]. intros w [Hs ->].
    pose proof Hs as (_ & _ & Hc). by rewrite <- Hst, Hc. }
  destruct (_ && _); [by apply keeps_fail; intros w [Hs _]; eapply synced_sound|].
  eapply keeps_bind.
  { eapply keeps_pre; [|apply (keeps_run_cur st s)]. by intros w [Hs ->]. }
  intros b. destruct (negb (is_trial s b)) eqn:Ht; [by apply keeps_fail; intros w [[Hs _] _]; eapply synced_sound|].
  apply negb_false_iff in Ht.
  eapply keeps_bind.
  { apply (keeps_call Health _ (fun _ w => wf w /\ succeeded Health (trace w) /\ trial_seen (trace w))); [| |done].
    - intros w [[Hs _] _]. split; [by eapply synced_sound|done].
    - intros w w' [_ (tr & Htr & _)] Hwf' Hc Ht' Hm. split_and!; [done| |].
      + exists (cur w). rewrite Ht'. apply elem_of_cons. by left.
      + rewrite Ht', Htr. by apply trial_seen_mono, is_trial_seen. }
  intros []. apply (keeps_bind _ _ _ (fun _ => synced "committing")); [|intros []; apply keeps_promote].
  apply keeps_save. intros w (Hw & Hh & Htr). split; [done|]. by apply meaning_committing.
Qed.

(** Reading the status: its state is the one the journal is in. *)
Lemma keeps_read {B} st (k : Status -> cmd B) Q :
  (forall s, State s = st -> keeps (fun w => synced st w /\ cur w = s) (k s) Q) -> keeps (synced st) (current ≫= k) Q.
Proof. intros Hk w Hs. by apply (Hk (cur w)); [destruct Hs as (_ & _ & ?)|]. Qed.
Lemma keeps_done {A} (a : A) st s : keeps (fun w => synced st w /\ cur w = s) (ret a) (fun _ => sound).
Proof. apply keeps_ret. intros w [Hs _]. by eapply synced_sound. Qed.
Lemma keeps_stop {A} e st s Q : keeps (fun w => synced st w /\ cur w = s) (fail e : cmd A) Q.
Proof. apply keeps_fail. intros w [Hs _]. by eapply synced_sound. Qed.
Lemma keeps_forget {A} (m : cmd A) st s Q : keeps (synced st) m Q -> keeps (fun w => synced st w /\ cur w = s) m Q.
Proof. apply keeps_pre. by intros w [Hs _]. Qed.

Lemma keeps_settle {A} (m : cmd A) Pre st : keeps Pre m (fun _ => synced st) -> keeps Pre m (fun _ => sound).
Proof. apply keeps_post. intros a w Hs. exact (synced_sound _ _ Hs). Qed.

(** Undoing the boot change and rebooting, from the recovering state. *)
Lemma keeps_boot_back (Pre : W -> Prop) : (forall w, Pre w -> synced "recovering" w) ->
  keeps Pre (call RestoreBoot;; call Reboot) (fun _ => sound).
Proof.
  intros Hp. eapply keeps_pre; [exact Hp|]. eapply keeps_bind; [by apply (keeps_call_quiet RestoreBoot)|]. intros [].
  apply keeps_call; [| |done].
  - intros w (Hs & _ & s & tr & Ht & _). split; [by eapply synced_sound|]. right. split; [by destruct Hs as (_ & Hj & _)|by eexists _, _].
  - intros w w' (Hs & _) Hwf' Hc Ht Hm. split; [done|]. apply Hm. by eapply synced_sound.
Qed.

Lemma keeps_rollback st : keeps (synced st) rollback (fun _ => sound).
Proof.
  unfold rollback. apply keeps_read. intros s Hst. destruct (decide _); [apply keeps_done|].
  destruct (_ || _) eqn:Hb.
  - eapply keeps_bind; [by apply keeps_forget, (keeps_run Clear)|]. intros [].
    apply (keeps_settle _ _ "recovered"). apply (keeps_save "recovered"). intros w Hs.
    split; [by destruct Hs|]. apply meaning_recovered. right.
    pose proof (meaning_of _ _ Hs) as [_ M2 _ _ _ _ _]. apply M2. rewrite <- Hst. apply orb_true_iff in Hb as [Hb%bool_decide_eq_true|Hb%bool_decide_eq_true]; rewrite Hb; set_solver.
  - destruct (negb _); [apply keeps_stop|].
    eapply keeps_bind; [apply keeps_save; intros w [Hs _]; split; [by destruct Hs|apply meaning_free; auto]|]. intros [].
    eapply keeps_bind; [by apply (keeps_run Clear)|]. intros []. eapply keeps_bind; [by apply (keeps_run TrialStop)|].
    intros []. by apply keeps_boot_back.
Qed.

(** Loading succeeds where the journal can be read. *)
Lemma keeps_load {B} (k : cmd B) Q : (forall tr, read_ok tr = true) ->
  (forall st, keeps (synced st) k Q) -> keeps wf (load ≫= fun _ => k) Q.
Proof.
  intros Hread Hk w Hw. pose proof Hw as [HG (s & Hs & Hj)]. unfold post, mbind, prog_mbind, bind, load. rewrite Hread, Hj. cbn.
  assert (Hsy : synced (State s) (set_cur s w)) by (split_and!; [done|by exists s|done]).
  destruct (Hk _ _ Hsy) as [He Hr]. done.
Qed.

(** An action once the status has been read. *)
Lemma action_locked_body r name : exists body, action_locked r name = load ≫= (fun _ => body) /\
  forall st, keeps (synced st) body (fun _ => sound).
Proof.
  eexists. split; [reflexivity|]. intros st. apply keeps_read. intros s Hst.
  destruct (_ || _); [apply keeps_stop|]. destruct (decide _); [apply keeps_forget, keeps_activate|].
  destruct (decide _); [apply keeps_forget, keeps_commit|]. destruct (decide _); [apply keeps_forget, keeps_rollback|].
  destruct (decide _); [|apply keeps_stop]. destruct (negb _); [apply keeps_stop|].
  apply keeps_forget. apply (keeps_settle _ _ st). apply keeps_idle_run, idles_cleanup.
Qed.
Lemma keeps_action_locked r name : (forall tr, read_ok tr = true) -> keeps wf (action_locked r name) (fun _ => sound).
Proof. intros Hread. destruct (action_locked_body r name) as (body & -> & Hb). by apply keeps_load. Qed.

(** Journalling the status object in the state it has. *)
Lemma write_journal_kept w : sound w -> phase_ok (cur w) -> post write_journal (fun r w' => ext w w' /\ sound w') w.
Proof.
  intros [[HG (s0 & Hs0 & Hj0)] Hm] Hph. unfold post, write_journal.
  destruct (WriteFile_cases (write (trace w)) (cur w) (journal w)) as (b & ap & E & Eap & Hb). rewrite E, Eap. cbn.
  set (w' := set_journal _ _). split; [by exists [ESave (cur w) b ap]|].
  assert (Hm' : meaning (State (cur w)) (ESave (cur w) b ap :: trace w)) by (apply meaning_mono; [by left|done]).
  split; [|exact Hm']. unfold wf. cbn. destruct ap.
  - split; [|by exists (cur w)]. by constructor.
  - split; [|exists s0; by rewrite Hj0]. constructor; [done|done|]. unfold Inv. cbn. rewrite Hs0.
    apply meaning_mono; [by left|]. assert (HI : Inv (trace w)) by (destruct HG; done). unfold Inv in HI. by rewrite Hs0 in HI.
Qed.
Definition ready_to_journal (w : W) : Prop := sound w /\ phase_ok (cur w).
Lemma keeps_write_journal : keeps ready_to_journal write_journal (fun _ => sound).
Proof.
  intros w [Hw Hp]. eapply post_mono; [by apply write_journal_kept|]. by intros [a|e] w' Hr.
Qed.

Lemma keeps_settle_phase : keeps sound settle_phase (fun _ => ready_to_journal).
Proof.
  apply (keeps_update _ _ (fun _ => ready_to_journal)). intros w Hs. split.
  - apply (sound_update (fun s => if HasSuffix (Phase s) "_requested" then set_Phase (State s) s else s)); [|done].
    intros s. by destruct (HasSuffix _ _).
  - cbn. destruct (HasSuffix (Phase (cur w)) _) eqn:E; [|unfold phase_ok; by rewrite E].
    apply known_phase. by destruct Hs as [_ [Hk _ _ _ _ _ _]].
Qed.
Lemma keeps_touch : keeps ready_to_journal touch (fun _ => ready_to_journal).
Proof. intros w [Hw Hp]. split; [by exists []|]. split; [by apply sound_update|done]. Qed.
Lemma keeps_quietly {A} (m : cmd A) (Pre : W -> Prop) Q :
  (forall w, Pre w -> post m (fun r w' => trace w' = trace w /\ journal w' = journal w /\ cur w' = cur w /\
     match r with Ok a => sound w' -> Q a w' | Err _ => True end) w) ->
  (forall w, Pre w -> sound w) -> keeps Pre m Q.
Proof.
  intros Hm Hp w Hw. eapply post_mono; [by apply Hm|]. intros r w' (Ht & Hj & Hc & Hr). split; [by exists []|].
  assert (Hs : sound w') by (specialize (Hp w Hw); unfold sound, wf in *; by rewrite Ht, Hj, Hc). destruct r; auto.
Qed.

Lemma keeps_submit_work r name : (forall tr, read_ok tr = true) -> keeps wf (submit_work r name) (fun _ => sound).
Proof.
  intros Hread. unfold submit_work. apply (keeps_bind _ _ _ (fun _ => sound)).
  { eapply keeps_post; [|by apply keeps_attempt, keeps_action_locked]. by intros [] w Hw. }
  intros e. apply (keeps_bind _ _ _ (fun _ => sound)).
  { destruct e; [by apply keeps_ret|by apply keeps_upd_sound]. }
  intros []. eapply keeps_bind; [apply keeps_settle_phase|]. intros []. eapply keeps_bind; [apply keeps_touch|]. intros [].
  apply (keeps_bind _ _ _ (fun _ => sound)).
  { eapply keeps_post; [|apply keeps_attempt, keeps_write_journal]. by intros [] w Hw. }
  intros _. apply keeps_quietly; [|done]. intros w Hw. by unfold post; cbn.
Qed.

(** Whatever happens, the invariant of the past and the journal remains. *)
Definition lands {A} (Pre : W -> Prop) (m : cmd A) : Prop := forall w, Pre w -> post m (fun _ w' => ext w w' /\ wf w') w.
Definition safely {A} (m : cmd A) : Prop := lands wf m.
Lemma lands_keeps {A} (Pre : W -> Prop) (m : cmd A) Q : keeps Pre m Q -> (forall a w, Q a w -> wf w) -> lands Pre m.
Proof. intros Hm Hq w Hw. eapply post_mono; [by apply Hm|]. intros [a|e] w' [He Hr]; (split; [done|]); [by eapply Hq|by destruct Hr]. Qed.
Lemma lands_sound {A} (Pre : W -> Prop) (m : cmd A) : keeps Pre m (fun _ => sound) -> lands Pre m.
Proof. intros Hm. eapply lands_keeps; [done|]. by intros a w [Hw _]. Qed.
Lemma lands_synced {A} (m : cmd A) st s : safely m -> lands (fun w => synced st w /\ cur w = s) m.
Proof. intros Hm w [(Hw & _ & _) _]. by apply Hm. Qed.
Lemma lands_read {B} st (k : Status -> cmd B) :
  (forall s, State s = st -> lands (fun w => synced st w /\ cur w = s) (k s)) -> lands (synced st) (current ≫= k).
Proof. intros Hk w Hs. by apply (Hk (cur w)); [destruct Hs as (_ & _ & ?)|]. Qed.

Lemma safely_ret {A} (a : A) : safely (ret a).
Proof. intros w Hw. split; [apply longer_refl|done]. Qed.
Lemma safely_bind {A B} (m : cmd A) (k : A -> cmd B) : safely m -> (forall a, safely (k a)) -> safely (m ≫= k).
Proof.
  intros Hm Hk w Hw. apply post_bind. eapply post_mono; [by apply Hm|]. intros [a|e] w' [He Hr]; [|done].
  eapply post_mono; [by apply Hk|]. intros r w2 [He2 Hr2]. split; [by eapply longer_trans|done].
Qed.
Lemma safely_attempt {A} (m : cmd A) : safely m -> safely (attempt m).
Proof. intros Hm w Hw. apply post_attempt. by apply Hm. Qed.
Lemma safely_still {A} (m : cmd A) : (forall w, trace (m w).2 = trace w /\ journal (m w).2 = journal w) -> safely m.
Proof. intros Hm w Hw. destruct (Hm w) as [Ht Hj]. split; [by exists []|]. unfold wf in *. by rewrite Ht, Hj. Qed.
Lemma safely_idles {A} (m : cmd A) : idles m -> safely m.
Proof.
  intros Hm w Hw. destruct (Hm w) as (Hc & Hj & l & Ht & Hl). split; [by exists l|]. unfold wf. rewrite Ht, Hj. clear Hc Hj Ht.
  induction l as [|e l IH]; [done|]. destruct IH as [HG Hs]; [intros e' He'; apply Hl, elem_of_cons; by right|].
  pose (w1 := mkW (journal w) (management w) (history w) (actions w) (lock w) (cur w) (l ++ trace w)).
  pose (w2 := mkW (journal w) (management w) (history w) (actions w) (lock w) (cur w) (e :: l ++ trace w)).
  apply (wf_quiet e w1 w2); [by split|apply Hl, elem_of_cons; by left|done|done].
Qed.
Lemma safely_acquire : safely acquire.
Proof. apply safely_still. intros w. unfold acquire. by destruct (Acquire _ _). Qed.
Lemma safely_lock {A} (body : cmd A) : safely body -> safely (with_lock body).
Proof.
  intros Hb. apply safely_bind; [apply safely_acquire|]. intros _.
  apply safely_bind; [by apply safely_attempt|]. intros r. apply safely_bind; [by apply safely_still|]. intros _. by apply safely_still.
Qed.
(** A status that cannot be read stops the program before it does anything. *)
Lemma safely_load {B} (k : cmd B) : (forall st, lands (synced st) k) -> safely (load ≫= fun _ => k).
Proof.
  intros Hk w Hw. pose proof Hw as [HG (s & Hs & Hj)]. unfold post, mbind, prog_mbind, bind, load.
  destruct (negb (read_ok (trace w))); [by split; [exists []|]|]. rewrite Hj. cbn.
  assert (Hsy : synced (State s) (set_cur s w)) by (split_and!; [done|by exists s|done]). exact (Hk _ _ Hsy).
Qed.
Lemma safely_action_locked r name : safely (action_locked r name).
Proof. destruct (action_locked_body r name) as (body & -> & Hb). apply safely_load. intros st. by apply lands_sound. Qed.

Lemma safely_action r name : safely (action r name).
Proof. apply safely_lock, safely_action_locked. Qed.

Definition submitted (r : Request) (name : string) : cmd unit :=
  p ← Submit r name;
  if p.2 : bool then submit_work r name else ret tt.

Lemma safely_unlock_on_error {A} (m : cmd A) : safely m -> safely (unlock_on_error m).
Proof.
  intros Hm. apply safely_bind; [by apply safely_attempt|]. intros [a|e]; [apply safely_ret|].
  apply safely_bind; [by apply safely_still|]. intros _. by apply safely_still.
Qed.
Lemma keeps_of_result {A} (r : result Error A) st : keeps (synced st) (of_result r) (fun _ => synced st).
Proof. intros w Hs. split; [by exists []|]. destruct r; [done|]. exact (synced_sound _ _ Hs). Qed.
Lemma keeps_write_action key r name st : keeps (synced st) (write_action key r name) (fun _ => synced st).
Proof.
  intros w Hs. unfold post, write_action.
  destruct (WriteFile_cases (write (trace w)) (r, name) (default Absent (actions w !! key))) as (b & ap & E & Eap & Hb).
  rewrite E, Eap. set (w' := set_actions _ _). cbn [fst snd].
  assert (Hs' : synced st w').
  { apply (synced_quiet w w' [EAction key b ap]); try done. by intros e ->%list_elem_of_singleton. }
  split; [by exists [EAction key b ap]|]. destruct b; [done|]. exact (synced_sound _ _ Hs').
Qed.
(** The status object is left alone by a write elsewhere. *)
Lemma keeps_frame_cur key r name st s (F : Prop) :
  keeps (synced st) (write_action key r name) (fun _ => synced st) ->
  keeps (fun w => (synced st w /\ cur w = s) /\ F) (write_action key r name) (fun _ w => (synced st w /\ cur w = s) /\ F).
Proof.
  intros Hm w [[Hs Hc] HF]. specialize (Hm w Hs). unfold post, write_action in *. destruct (WriteFile _ _ _) as [[] f]; cbn in *.
  - destruct Hm as [He Hm]. done.
  - by destruct Hm.
Qed.
Lemma keeps_accepted st s name : keeps (fun w => synced st w /\ cur w = s) (of_result (acceptable s name))
  (fun _ w => (synced st w /\ cur w = s) /\ acceptable s name = Ok tt).
Proof.
  intros w [Hs Hc]. split; [by exists []|]. cbn. destruct (acceptable s name) as [[]|e]; [done|]. exact (synced_sound _ _ Hs).
Qed.

Lemma safely_Submit r name : safely (Submit r name).
Proof.
  unfold Submit. destruct (_ || _) eqn:Hg; [by apply safely_still|]. apply safely_bind; [apply safely_acquire|]. intros _.
  apply safely_unlock_on_error, safely_load. intros st. apply lands_sound, keeps_read. intros s Hst.
  destruct (negb (bool_decide (OperationID s = _))) eqn:Hid; [apply keeps_stop|]. cbv zeta. intros w [Hs Hc]. unfold post, mbind at 1, prog_mbind, bind at 1. cbn [get].
  revert w Hs Hc. enough (Hk : forall f, keeps (fun w => synced st w /\ cur w = s) (match f with
    | Content (pr, pa) => if negb (bool_decide (rq_OperationID pr = rq_OperationID r)) || negb (bool_decide (pa = name))
        then failed "idempotency key already used" else unlock;; ret (s, false)
    | Unreadable => failed "read host action"
    | Absent => of_result (acceptable s name);; write_action (sha256_hex (rq_IdempotencyKey r)) r name;;
        update (set_Phase (name +:+ "_requested"));; touch;; write_journal;; s ← current; ret (s, true)
    end) (fun _ => sound)).
  { intros w Hs Hc. by apply Hk. }
  intros [| |[pr pa]].
  - eapply keeps_bind; [apply keeps_accepted|]. intros [].
    eapply keeps_bind; [apply keeps_frame_cur, keeps_write_action|]. intros [].
    apply (keeps_bind _ _ _ (fun _ => ready_to_journal)).
    { apply (keeps_update _ _ (fun _ => ready_to_journal)). intros w ((Hs & <-) & Ha). split.
      - apply (sound_update (set_Phase (name +:+ "_requested"))); [done|]. exact (synced_sound _ _ Hs).
      - intros _. to_prop. split; [cbn; congruence|]. exists name. split; [done|]. exact Ha. }
    intros []. eapply keeps_bind; [apply keeps_touch|]. intros [].
    eapply keeps_bind; [apply keeps_write_journal|]. intros []. eapply keeps_bind; [apply keeps_current|]. intros s'.
    by apply keeps_ret; intros w [Hw _].
  - apply keeps_stop.
  - destruct (negb _ || negb _); [apply keeps_stop|]. eapply keeps_bind.
    + apply (keeps_quietly unlock _ (fun _ => sound)); [by intros w Hw; unfold post; cbn|]. intros w [Hs _]. exact (synced_sound _ _ Hs).
    + intros []. by apply keeps_ret.
Qed.

Lemma safely_submitted r name : (forall tr, read_ok tr = true) -> safely (submitted r name).
Proof.
  intros Hread. apply safely_bind; [apply safely_Submit|]. intros [s []]; [|apply safely_ret].
  by apply lands_sound, keeps_submit_work.
Qed.

(** ** Recovery *)

Lemma keeps_trial_start st s b : is_trial s b = true -> st ∈ ["arming"; "armed"; "trial"; "ready"] ->
  keeps (fun w => (synced st w /\ cur w = s) /\ exists tr, trace w = ERunning s (Some b) :: tr /\ journalled st tr)
    (coordinate TrialStart "management trial coordinator unavailable")
    (fun _ w => synced st w /\ succeeded TrialStart (trace w) /\ trial_seen (trace w)).
Proof.
  intros Ht Hst. unfold coordinate. destruct (coordinator _); [|apply keeps_fail; intros w [[Hs _] _]; exact (synced_sound _ _ Hs)].
  apply keeps_call; [| |done].
  - intros w [[Hs _] (tr & Htr & Hj)]. split; [exact (synced_sound _ _ Hs)|]. split; [exists st; split; [done|by destruct Hs as (_ & ? & _)]|].
    by exists s, b, tr.
  - intros w w' [[(Hwf & (s' & Hs & Hs') & Hcur) _] (tr & Htr & Hj)] Hwf' Hc Ht' Hm. split.
    + split_and!; [done|exists s'; by rewrite Ht'|by rewrite Hc].
    + split; [exists (cur w); rewrite Ht'; apply elem_of_cons; by left|]. rewrite Ht', Htr. by apply trial_seen_mono, is_trial_seen.
Qed.

(** What [Recover] does with a pending operation after observing the system. *)
Lemma keeps_resume st s b :
  State s = st -> st ∈ known_states -> terminal st = false -> st <> "staging" -> st <> "staged" ->
  keeps (fun w => (synced st w /\ cur w = s) /\ exists tr, trace w = ERunning s (Some b) :: tr /\ journalled st tr)
    (resume_boot s b) (fun _ => sound).
Proof.
  intros Hst Hk Ht Hns Hnd. unfold resume_boot.
  assert (Hsound : forall w, (synced st w /\ cur w = s) /\ (exists tr, trace w = ERunning s (Some b) :: tr /\ journalled st tr) -> sound w).
  { intros w [[Hs _] _]. exact (synced_sound _ _ Hs). }
  destruct (_ && bool_decide (bt_origin b = _)) eqn:Hc.
  { to_prop. eapply keeps_pre; [|apply (keeps_bind _ _ (synced "recovering") (fun _ => synced "recovering"))].
    - intros w [[Hs _] _]. congruence.
    - unfold coordinate. destruct (coordinator _); [by apply keeps_run|by apply keeps_fail; intros w Hs; exact (synced_sound _ _ Hs)].
    - intros []. eapply keeps_bind; [by apply (keeps_run Clear)|]. intros []. by apply keeps_boot_back. }
  destruct (is_trial s b && negb (bool_decide (State s = "recovering"))) eqn:Htr.
  { apply andb_true_iff in Htr as [Htr Hrec]. destruct (decide (State s = "committing")) as [Hcm|Hcm].
    { eapply keeps_pre; [|apply keeps_promote]. intros w [[Hs _] _]. congruence. }
    assert (Hin : st ∈ ["arming"; "armed"; "trial"; "ready"]).
    { to_prop. rewrite Hst in *. clear -Hk Ht Hns Hnd Hcm Hrec. unfold known_states in Hk.
      repeat (apply elem_of_cons in Hk as [->|Hk]; [first [done | by apply (bool_decide_eq_true_1 _)]|]). by apply elem_of_nil in Hk. }
    eapply keeps_bind; [by apply keeps_trial_start|]. intros [].
    destruct (decide _); [apply keeps_ret; intros w [Hs _]; exact (synced_sound _ _ Hs)|].
    apply (keeps_settle _ _ "trial"), keeps_save. intros w (Hs & Hts & Hse). split; [by destruct Hs|]. by apply meaning_trial. }
  destruct (bool_decide (bt_id b = BootID s) && bool_decide (State s = "armed")); [by apply keeps_fail|].
  destruct (negb (bool_decide (bt_version b = _))); [by apply keeps_fail|]. by eapply keeps_pre; [|apply keeps_undo].
Qed.

Lemma safely_Recover : safely Recover.
Proof.
  apply safely_lock, safely_load. intros st. apply lands_read. intros s Hst. unfold resume.
  destruct (HasSuffix _ _); [apply lands_synced, safely_action_locked|]. apply lands_sound.
  destruct (terminal (State s)) eqn:Ht.
  { destruct (bool_decide (State s = "committed") && _) eqn:Hc; [|apply keeps_done].
    to_prop. eapply keeps_pre; [|apply keeps_finishCommit]. intros w [Hs _]. congruence. }
  destruct (decide (State s = "staging")) as [Hg|Hg].
  { eapply keeps_bind; [by apply keeps_forget, keeps_upd_synced|]. intros [].
    apply (keeps_settle _ _ "failed"), keeps_save. intros w Hs. split; [by destruct Hs|].
    pose proof (meaning_of _ _ Hs) as [_ M2 _ _ _ _ _]. rewrite <- Hst, Hg in M2.
    apply meaning_untouched; [set_solver|apply M2; set_solver]. }
  destruct (decide (State s = "staged")) as [Hd|Hd]; [apply keeps_done|].
  intros w Hw. assert (Hk : st ∈ known_states) by (destruct Hw as [Hs _]; by apply meaning_of in Hs as []).
  revert w Hw. eapply keeps_bind; [apply keeps_run_cur|]. intros b. apply keeps_resume; congruence.
Qed.

(** ** Preparation *)

(** No operation of this past has been journalled or activated. *)
Definition fresh (w : W) : Prop :=
  Good (trace w) /\ ~ activated (trace w) /\ (forall s, last_saved (trace w) = Some s -> journal w = Content s).
Lemma fresh_wf s w : fresh w -> last_saved (trace w) = Some s -> wf w.
Proof. intros (HG & _ & Hj) Hs. split; [done|]. exists s. auto. Qed.
Lemma fresh_log e w w' : fresh w -> quiet e = true -> journal w' = journal w -> trace w' = e :: trace w -> fresh w'.
Proof.
  intros (HG & Hn & Hj) Hq Hj' Ht. unfold fresh. rewrite Ht, Hj'.
  assert (Hnq : forall s b, e <> ESave s b true) by (by intros s b ->).
  assert (Hnc : forall s b, e <> ECall Checkpoint s b) by (by intros s b ->).
  rewrite last_saved_quiet by done. split_and!; [|by intros [(s & b & ->)|Ha]%activated_cons|done].
  constructor; [done|by destruct e as [[]| |? ? []| |]|]. unfold Inv. rewrite last_saved_quiet by done.
  assert (HI : Inv (trace w)) by (destruct HG; [|done]; intros (s & b & Hin); by apply elem_of_nil in Hin). unfold Inv in HI. destruct (last_saved (trace w)) as [s|].
  - apply meaning_mono; [by left|done].
  - by intros [(s & b & ->)|Ha]%activated_cons.
Qed.
Lemma fresh_save w : fresh w -> post (save "staging") (fun r w' => ext w w' /\ fresh w' /\ (r = Ok tt -> synced "staging" w')) w.
Proof.
  intros (HG & Hn & Hj). unfold save, post, mbind, prog_mbind, bind, update, modify, write_journal. cbn [trace set_cur journal cur].
  set (s := set_State "staging" (now (trace w)) (cur w)).
  destruct (WriteFile_cases (write (trace w)) s (journal w)) as (b & ap & E & Eap & Hb). rewrite E, Eap. cbn [fst snd].
  set (w' := set_journal _ _). split; [by exists [ESave s b ap]|].
  assert (Hn' : ~ activated (ESave s b ap :: trace w)) by (by intros [(s1 & b1 & ?)|Ha]%activated_cons).
  assert (Hf : fresh w').
  { split_and!; [|done|].
    - constructor; [done|destruct ap; [by apply known_phase, (bool_decide_eq_true_1 _)|done]|]. destruct ap; unfold Inv; cbn.
      + by apply meaning_untouched; [set_solver|].
      + destruct (last_saved (trace w)) as [s1|] eqn:Es; [|done]. apply meaning_mono; [by left|].
        assert (HI : Inv (trace w)) by (by destruct HG). unfold Inv in HI. by rewrite Es in HI.
    - destruct ap; cbn; [by intros s1 [= <-]|done]. }
  split; [done|]. destruct b; [|done]. intros _. destruct ap; [|by specialize (Hb eq_refl)].
  split; [by eapply fresh_wf|]. split; [by exists s|done].
Qed.

Lemma keeps_prepare_work r : keeps (synced "staging") (prepare_work r) (fun _ => sound).
Proof.
  apply keeps_getting. intros w0. destruct (images r (trace w0)) as [target source].
  eapply keeps_bind; [by apply keeps_idles, idles_call|]. intros e.
  apply (keeps_bind _ _ _ (fun _ => synced "staging")).
  { destruct e; [|by apply keeps_ret]. destruct (_ && _); [by apply keeps_idles, idles_call|by apply keeps_ret]. }
  intros e1. eapply keeps_bind; [by apply keeps_upd_synced|]. intros [].
  assert (Hsave : forall st, st ∈ ["staging"; "staged"; "failed"] ->
    keeps (synced "staging") (attempt (save st);; unlock) (fun _ => sound)).
  { intros st Hst. eapply keeps_bind.
    - apply (keeps_try_save st). intros w Hs. split; [by destruct Hs|]. apply meaning_untouched; [done|].
      pose proof (meaning_of _ _ Hs) as [_ M2 _ _ _ _ _]. apply M2. set_solver.
    - intros r0. apply keeps_quietly; [|done]. intros w Hw. by unfold post; cbn. }
  destruct e1; [apply Hsave; set_solver|]. eapply keeps_bind; [by apply keeps_upd_synced|]. intros []. apply Hsave. set_solver.
Qed.

(** The part of [Prepare] before the new journal is written. *)
Definition begins {A} (m : cmd A) (Q : A -> W -> Prop) : Prop := forall w, fresh w ->
  post m (fun r w' => ext w w' /\ fresh w' /\ match r with Ok a => Q a w' | Err _ => True end) w.
Lemma begins_bind {A B} (m : cmd A) (k : A -> cmd B) Q : begins m (fun _ _ => True) -> (forall a, begins (k a) Q) -> begins (m ≫= k) Q.
Proof.
  intros Hm Hk w Hw. apply post_bind. eapply post_mono; [by apply Hm|]. intros [a|e] w' (He & Hf & _); [|done].
  eapply post_mono; [by apply Hk|]. intros r w2 (He2 & Hr2). split; [by eapply longer_trans|done].
Qed.
Lemma begins_still {A} (m : cmd A) (Q : A -> W -> Prop) : (forall w, trace (m w).2 = trace w /\ journal (m w).2 = journal w /\
  match (m w).1 with Ok a => Q a (m w).2 | Err _ => True end) -> begins m Q.
Proof. intros Hm w Hw. destruct (Hm w) as (Ht & Hj & Hq). split; [by exists []|]. split; [|done]. unfold fresh in *. by rewrite Ht, Hj. Qed.
Lemma begins_write_history name s : begins (write_history name s) (fun _ _ => True).
Proof.
  intros w Hw. unfold post, write_history.
  destruct (WriteFile_cases (write (trace w)) s (match history w !! name with Some s => Content s | None => Absent end)) as (b & ap & E & Eap & Hb).
  rewrite E, Eap. cbn [fst snd]. split; [by exists [EHistory name s b ap]|].
  split; [|by destruct b]. by apply (fresh_log (EHistory name s b ap) w).
Qed.
Lemma begins_unlock_on_error {A} (m : cmd A) Q : begins m Q -> begins (unlock_on_error m) Q.
Proof.
  intros Hm w Hw. pose proof (Hm w Hw) as Hp. unfold post, unlock_on_error, mbind, prog_mbind, bind, attempt in *.
  destruct (m w) as [[a|e] w']; [done|]. cbn in *. by destruct Hp as (He & Hf & _).
Qed.

Lemma begins_Prepare r : begins (Prepare r) (fun p w => p.2 = true -> synced "staging" w).
Proof.
  unfold Prepare. destruct (negb _); [by apply begins_still|].
  apply begins_bind; [apply begins_still; intros w; unfold acquire; by destruct (Acquire _ _)|]. intros _.
  apply begins_unlock_on_error, begins_bind.
  { apply begins_still. intros w. unfold load. destruct (negb _); [done|]. by destruct (journal w) eqn:?; cbn. }
  intros _. apply begins_bind; [by apply begins_still|]. intros s. destruct (decide (OperationID s = _)).
  { apply begins_bind; [by apply begins_still|]. intros _. destruct (negb _); by apply begins_still. }
  destruct (negb _); [by apply begins_still|].
  apply begins_bind. { apply begins_still. intros w. unfold management_idle. cbn. destruct (management w) as [| |st]; try done. by destruct (_ && _). }
  intros _. apply begins_bind; [destruct (decide _); [by apply begins_still|apply begins_write_history]|].
  intros _. apply begins_bind; [by apply begins_still|]. intros w0. apply begins_bind; [by apply begins_still|]. intros _.
  intros w Hw. apply post_bind. eapply post_mono; [by apply fresh_save|].
  intros [[]|e] w' (He & Hf & Hs); [|done]. split; [done|]. split; [done|]. intros _. by apply Hs.
Qed.

(** [Prepare] with the staging goroutine it launches. *)
Definition prepared (r : Request) : cmd unit :=
  p ← Prepare r;
  if p.2 : bool then prepare_work r else ret tt.
Lemma prepared_kept r w : fresh w -> post (prepared r) (fun _ w' => ext w w' /\ (fresh w' \/ wf w')) w.
Proof.
  intros Hw. apply post_bind. eapply post_mono; [by apply begins_Prepare|].
  intros [[s b]|e] w' (He & Hf & Hs); [|by auto]. cbn [snd] in *. destruct b; [|by split; [done|left]].
  eapply post_mono; [by apply keeps_prepare_work, Hs|]. intros r' w2 [He2 Hr]. split; [by eapply longer_trans|]. right.
  by destruct r' as [|]; destruct Hr.
Qed.

(** ** Supervision *)

Lemma safely_quiet_call o : quiet (ECall o zero_status true) = true -> safely (call o).
Proof. intros Hq. by apply safely_idles, idles_call. Qed.
Lemma safely_quiet_load {B} (k : cmd B) : safely k -> safely (load;; k).
Proof.
  intros Hk. apply safely_bind; [|done]. apply safely_still. intros w. unfold load. destruct (negb _); [done|]. by destruct (journal w) eqn:?; cbn.
Qed.

Lemma safely_mark_ready : safely mark_ready.
Proof.
  intros w Hw. unfold post, mark_ready. destruct (acquire w) as [[[]|e] w1] eqn:Ea.
  all: pose proof (post_run _ _ _ _ _ (safely_acquire w Hw) Ea) as [He Hw1]. 2: { by split. }
  assert (Hm : safely (r ← attempt (load;; fresh ← current;
    if bool_decide (State fresh = "trial") || bool_decide (State fresh = "ready") then save "ready" else ret tt);
    unlock;; x ← of_result r; ret (Some x))).
  { apply safely_bind.
    - apply safely_attempt, safely_load. intros st. apply lands_sound, keeps_read. intros s Hst.
      destruct (_ || _) eqn:Hs; [|apply keeps_done]. apply (keeps_settle _ _ "ready"), keeps_save. intros w2 [Hs2 _].
      split; [by destruct Hs2|]. pose proof (meaning_of _ _ Hs2) as [_ _ _ M _ _ _]. rewrite <- Hst in M.
      destruct M as [Hts Hse]; [|by apply meaning_ready]. apply orb_true_iff in Hs as [Hs%bool_decide_eq_true|Hs%bool_decide_eq_true]; auto.
    - intros r. apply safely_bind; [by apply safely_still|]. intros _. apply safely_bind; [by apply safely_still|]. intros x. by apply safely_still. }
  destruct (Hm w1 Hw1) as [He2 Hw2]. split; [by eapply longer_trans|done].
Qed.

Lemma safely_supervise_round operation stable : safely (supervise_round operation stable).
Proof.
  assert (Hmsg : forall o, quiet (ECall o zero_status true) = true -> safely (WriteGuardMessage operation o)).
  { intros o Ho. unfold WriteGuardMessage. destruct (operationID _); [by apply safely_quiet_call|by apply safely_still]. }
  apply safely_quiet_load. apply safely_bind; [by apply safely_still|]. intros s.
  destruct (decide _). { destruct (CommitFinalized s); [|apply safely_ret]. apply safely_bind; [by apply Hmsg|]. intros _. apply safely_ret. }
  destruct (decide _); [apply safely_ret|]. apply safely_bind; [by apply safely_attempt, safely_quiet_call|]. intros [[]|e]; [|apply safely_ret].
  apply safely_bind; [by apply safely_still|]. intros w0. cbv zeta. destruct (_ && _); [apply safely_ret|].
  apply safely_bind; [destruct (negb _); [apply safely_mark_ready|apply safely_ret]|]. intros [[]|]; [|apply safely_ret].
  apply safely_bind; [destruct (coordinator _); [by apply safely_quiet_call|apply safely_ret]|]. intros _.
  apply safely_bind; [by apply Hmsg|]. intros _. apply safely_ret.
Qed.
Lemma safely_supervise_loop ticks operation stable : safely (supervise_loop ticks operation stable).
Proof.
  revert stable. induction ticks as [|n IH]; intros stable; [apply safely_ret|].
  apply safely_bind; [apply safely_supervise_round|]. intros [stable'|]; [apply IH|apply safely_ret].
Qed.
Lemma safely_Supervise ticks : safely (Supervise ticks).
Proof.
  apply safely_quiet_load, safely_bind; [by apply safely_still|]. intros s.
  destruct (_ && _); [apply safely_ret|apply safely_supervise_loop].
Qed.
End Operations.
