(* ===== verification/HostUpgradeLife.v ===== *)
(** Lifetimes of a host upgrade: any sequence of requests, recoveries and
    supervision, each in its own environment and each cut short anywhere.
    What the journal and the calls promise at every moment, and what one
    startup in a willing environment makes of any of them. *)
From S2P Require Import Prelude Timestamp Release Update GoStrings HostManifest HostUpgrade HostGuard HostUpgradeSafety.

Open Scope string_scope.
Open Scope list_scope.

(** ** Lifetimes *)

(** What the daemon runs on a prepared operation.  [Accepting] is a request
    whose goroutine never runs, [Submitting] one with its goroutine, [Marking]
    the supervisor's locked section at any moment, whatever the supervisor saw
    before. *)
Inductive process :=
| Acting (r : Request) (name : string)
| Accepting (r : Request) (name : string)
| Submitting (r : Request) (name : string)
| Recovering
| Supervising (ticks : nat)
| Marking.

Definition perform `{Semver} `{Env} (p : process) : cmd unit :=
  match p with
  | Acting r name => action r name
  | Accepting r name => p ← Submit r name; ret tt
  | Submitting r name => submitted r name
  | Recovering => Recover
  | Supervising ticks => Supervise ticks
  | Marking => m ← mark_ready; ret tt
  end.

(** Only the goroutine of an accepted request has to be able to read
    [host.json]: it writes back the status it got, which is the zero status
    when the file could not be read.  Every other process may fail to read. *)
Definition reads `{Env} (p : process) : Prop :=
  match p with Submitting _ _ => forall tr, read_ok tr = true | _ => True end.

(** What the past [tr] leaves on disk. *)
Definition resumed (tr : list event) (w : W) : Prop :=
  trace w = tr /\ match last_saved tr with Some s => journal w = Content s | None => False end.

(** From the first journalled status of an operation up to the next operation;
    [l'] is what happened before the process ended or was cut short. *)
Inductive lifetime : list event -> Prop :=
| life_prepare (Sv : Semver) (En : Env) r w l l' :
    trace w = [] ->
    trace (prepared r w).2 = l ++ l' -> last_saved l' <> None -> lifetime l'
| life_run (Sv : Semver) (En : Env) p tr w l l' :
    reads p -> lifetime tr -> resumed tr w ->
    trace (perform p w).2 = l ++ l' ++ tr -> lifetime (l' ++ tr).

Lemma host_Good_app l tr : Good (l ++ tr) -> Good tr.
Proof. induction l as [|e l IH]; [done|]. intros HG. inversion HG; subst. auto. Qed.
Lemma host_Good_Inv tr : Good tr -> Inv tr.
Proof. intros HG. destruct HG; [|done]. intros (s & b & Hin). by apply elem_of_nil in Hin. Qed.
Lemma last_saved_phase tr s : Good tr -> last_saved tr = Some s -> phase_ok s.
Proof.
  induction 1 as [|e tr HG IH Ha HI]; [done|]. destruct e as [| |s' ok []| |]; cbn; auto. by intros [= <-].
Qed.
Lemma host_saved_app l tr : last_saved tr <> None -> last_saved (l ++ tr) <> None.
Proof. induction l as [|[| |s ok []| |] l IH]; cbn; auto. Qed.

Lemma perform_safely `{Semver} `{Env} p : reads p -> safely (perform p).
Proof.
  intros Hr. destruct p; cbn.
  - apply safely_action.
  - apply safely_bind; [apply safely_Submit|]. intros x. apply safely_ret.
  - by apply safely_submitted.
  - apply safely_Recover.
  - apply safely_Supervise.
  - apply safely_bind; [apply safely_mark_ready|]. intros x. apply safely_ret.
Qed.

Lemma lifetime_good tr : lifetime tr -> Good tr /\ last_saved tr <> None.
Proof.
  induction 1 as [Sv En r w l l' Hnil Htr Hs|Sv En p tr w l l' Hread _ [HG Hs] [Ht Hj] Htr].
  - split; [|done]. assert (Hf : fresh w).
    { unfold fresh. rewrite Hnil. split_and!; [constructor| |done]. intros (s & b & Hin). by apply elem_of_nil in Hin. }
    destruct (prepared_kept r w Hf) as [_ [[HG _]|[HG _]]]; rewrite Htr in HG; by eapply host_Good_app.
  - split; [|by apply host_saved_app]. assert (Hw : wf w).
    { split; rewrite Ht; [done|]. destruct (last_saved tr) as [s|]; [by exists s|done]. }
    destruct (perform_safely p Hread w Hw) as [_ [HG' _]]. rewrite Htr in HG'. by eapply host_Good_app.
Qed.
Lemma resumed_wf tr w : lifetime tr -> resumed tr w -> wf w.
Proof.
  intros [HG Hs]%lifetime_good [Ht Hj]. split; rewrite Ht; [done|]. destruct (last_saved tr) as [s|]; [by exists s|done].
Qed.

(** ** An environment where nothing fails *)

Class Willing (En : Env) (b : boot) : Prop := {
  willing_answer : forall o s tr, answer o s tr = None;
  willing_observed : forall tr, observed tr = Some b;
  willing_write : forall tr c, write tr c = true;
  willing_read : forall tr, read_ok tr = true;
  willing_dir : forall tr, read_dir_ok tr = true;
  willing_lock : forall tr, open_lock tr = true;
  willing_coordinator : forall o, coordinator o = true }.

Section Willing.
Context `{Sv : Semver} `{En : Env} {b : boot} {Wi : Willing En b}.

Lemma call_willing o w : call o w = (Ok tt, log (ECall o (cur w) true) w).
Proof. unfold call. by rewrite willing_answer. Qed.
Lemma save_willing st w : exists s', save st w = (Ok tt, set_journal (Content s') (log (ESave s' true true) (set_cur s' w))) /\
  State s' = st /\ CommitFinalized s' = CommitFinalized (cur w).
Proof.
  exists (set_State st (now (trace w)) (cur w)). split; [|done].
  unfold save, mbind, prog_mbind, bind, update, modify, write_journal, WriteFile. by rewrite !willing_write.
Qed.

(** [m] succeeds, with the journal in a state satisfying [Q]. *)
Definition brings {A} (m : cmd A) (Q : W -> Prop) (w : W) : Prop := exists a w', m w = (Ok a, w') /\ Q w'.
Definition saved_as (P : string -> Prop) (w : W) : Prop := exists s, journal w = Content s /\ P (State s).

Lemma brings_ret {A} (a : A) (Q : W -> Prop) w : Q w -> brings (ret a) Q w.
Proof. intros Hq. by exists a, w. Qed.
Lemma brings_bind {A B} (m : cmd A) (k : A -> cmd B) Q w :
  (exists a w', m w = (Ok a, w') /\ brings (k a) Q w') -> brings (m ≫= k) Q w.
Proof.
  intros (a & w' & Hm & b' & w2 & Hk & Hq). exists b', w2. split; [|done].
  unfold mbind, prog_mbind, bind. by rewrite Hm.
Qed.
Lemma brings_call {B} o (k : unit -> cmd B) Q w : brings (k tt) Q (log (ECall o (cur w) true) w) -> brings (call o ≫= k) Q w.
Proof. intros Hk. apply brings_bind. exists tt, (log (ECall o (cur w) true) w). by rewrite call_willing. Qed.
Lemma brings_update {B} f (k : unit -> cmd B) Q w : brings (k tt) Q (set_cur (f (cur w)) w) -> brings (update f ≫= k) Q w.
Proof. intros Hk. apply brings_bind. by exists tt, (set_cur (f (cur w)) w). Qed.
Lemma brings_save {B} st (k : unit -> cmd B) Q w :
  (forall s', State s' = st -> brings (k tt) Q (set_journal (Content s') (log (ESave s' true true) (set_cur s' w)))) ->
  brings (save st ≫= k) Q w.
Proof.
  intros Hk. apply brings_bind. destruct (save_willing st w) as (s' & Hs & Hst & _). eexists tt, _. split; [exact Hs|]. by apply Hk.
Qed.
Lemma brings_last {A} (m : cmd A) Q w : brings (m ≫= ret) Q w -> brings m Q w.
Proof.
  intros (a & w' & Hm & Hq). unfold mbind, prog_mbind, bind in Hm. exists a, w'. split; [|done].
  destruct (m w) as [[a'|e] w1]; [by injection Hm as -> ->|done].
Qed.
Lemma brings_final_save st (Q : W -> Prop) w :
  (forall s', State s' = st -> Q (set_journal (Content s') (log (ESave s' true true) (set_cur s' w)))) -> brings (save st) Q w.
Proof. intros Hq. apply brings_last, brings_save. intros s' Hs. by apply brings_ret, Hq. Qed.

Lemma brings_restore e w : brings (restore e) (saved_as (fun st => st = "recovered")) w.
Proof.
  unfold restore, restore_step. apply brings_update, brings_save. intros s1 _.
  do 2 (apply brings_bind; eexists tt, _; split; [unfold mbind, prog_mbind, bind, attempt; rewrite call_willing; reflexivity|]).
  rewrite willing_coordinator. apply brings_bind. eexists tt, _. split; [reflexivity|].
  apply brings_bind; eexists tt, _; split; [unfold mbind, prog_mbind, bind, attempt; rewrite call_willing; reflexivity|].
  apply brings_update, brings_final_save. intros s2 Hs2. by exists s2.
Qed.

Lemma brings_finishCommit w : brings finishCommit (saved_as (fun st => st = "committed")) w.
Proof.
  unfold finishCommit, coordinate. rewrite willing_coordinator. apply brings_call, brings_call, brings_update, brings_save.
  intros s1 Hs1. set (w1 := set_journal _ _). apply brings_bind.
  destruct (idles_cleanup w1) as (_ & Hj & _). unfold attempt. destruct (cleanup w1) as [r w2]. cbn in Hj.
  exists r, w2. split; [done|]. destruct r as [[]|e].
  - apply brings_ret. by exists s1.
  - apply brings_update. apply brings_bind. unfold attempt. destruct (save_willing "committed" (set_cur (set_Error ("committed; cleanup pending: " +:+ err_text e) (cur w2)) w2)) as (s2 & -> & Hst & _).
    eexists _, _. split; [reflexivity|]. apply brings_ret. by exists s2.
Qed.
End Willing.

(** A settled journal: nothing is pending, the trial runs, the host is
    rebooting into its previous release, or into the armed trial. *)
Definition settled (s : Status) (b : boot) (s' : Status) (w' : W) : Prop :=
  State s' ∈ ["staged"; "failed"; "committed"; "recovered"] \/
  (State s' ∈ ["trial"; "ready"] /\ is_trial s b = true /\ succeeded TrialStart (trace w')) \/
  (State s' = "recovering" /\ exists s1 s2 l, trace w' = ECall Reboot s1 true :: ECall RestoreBoot s2 true :: l) \/
  (State s' = "armed" /\ exists s1 l, trace w' = ECall Reboot s1 true :: l).

(** Where a startup refuses to go on: an accepted commit whose trial is not
    what runs now; without a request, a pending activation of a host that runs
    neither the trial nor the source release, or whose armed reboot has not
    happened. *)
Definition stuck (s : Status) (b : boot) : bool :=
  let recovering := bool_decide (State s = "recovering") in
  if HasSuffix (Phase s) "_requested" then bool_decide (Phase s = "commit_requested") && negb (is_trial s b)
  else
    negb (terminal (State s)) && negb (bool_decide (State s = "staging")) && negb (bool_decide (State s = "staged")) &&
    negb (recovering && bool_decide (bt_version b = MVersion (Target s)) && bool_decide (bt_origin b = trial_origin s)) &&
    negb (is_trial s b && negb recovering) &&
    ((bool_decide (bt_id b = BootID s) && bool_decide (State s = "armed")) ||
     negb (bool_decide (bt_version b = MVersion (Source s)))).

(** The history holds records of operations only. *)
Definition tidy (w : W) : Prop :=
  forall name s, history w !! name = Some s -> HasSuffix name ".json" = true -> operationID (TrimSuffix name ".json") = true.

Lemma terminal_known st : st ∈ known_states -> terminal st = true -> st ∈ ["staged"; "failed"; "committed"; "recovered"].
Proof.
  unfold known_states. intros Hk Ht.
  repeat (apply elem_of_cons in Hk as [->|Hk]; [first [done | by apply (bool_decide_eq_true_1 _)]|]). by apply elem_of_nil in Hk.
Qed.

Section Startup.
Context `{Sv : Semver} `{En : Env} {b : boot} {Wi : Willing En b}.

Definition settles (s : Status) (m : cmd unit) (w : W) : Prop :=
  brings m (fun w' => exists s', journal w' = Content s' /\ settled s b s' w') w.
(** [m] ends in an error and leaves the journal as it is. *)
Definition refuses (m : cmd unit) (w : W) : Prop := exists e w', m w = (Err e, w') /\ journal w' = journal w.

Lemma settles_saved s (m : cmd unit) (P : string -> Prop) w : brings m (saved_as P) w ->
  (forall st, P st -> st ∈ ["staged"; "failed"; "committed"; "recovered"]) -> settles s m w.
Proof.
  intros (a & w' & Hm & s' & Hj & Hp) Hin. exists a, w'. split; [done|]. exists s'. split; [done|]. left. auto.
Qed.
Lemma settles_state s st (m : cmd unit) w : brings m (saved_as (fun x => x = st)) w ->
  st ∈ ["staged"; "failed"; "committed"; "recovered"] -> settles s m w.
Proof. intros Hm Hin. eapply settles_saved; [exact Hm|]. by intros ? ->. Qed.
Lemma settles_reboot s s0 w : journal w = Content s -> State s = "recovering" ->
  settles s0 (call RestoreBoot;; call Reboot) w.
Proof.
  intros Hj Hs. unfold settles.
  apply brings_call, brings_last, brings_call, brings_ret.
  exists s. split; [done|]. right. right. left. split; [done|]. by eexists _, _, _.
Qed.
Lemma settles_trial s w : journal w = Content s -> is_trial s b = true ->
  settles s (coordinate TrialStart "management trial coordinator unavailable";;
    if decide (State s = "ready") then ret tt else save "trial") w.
Proof.
  intros Hj Ht. unfold coordinate, settles. rewrite willing_coordinator. apply brings_call.
  destruct (decide (State s = "ready")) as [Hr|Hr]; [apply brings_ret|apply brings_final_save; intros s' Hs'].
  - exists s. split; [done|]. right. left. rewrite Hr. split_and!; [set_solver|done|].
    exists (cur w). apply elem_of_cons. by left.
  - exists s'. split; [done|]. right. left. rewrite Hs'. split_and!; [set_solver|done|].
    exists (cur w). apply elem_of_cons. right. apply elem_of_cons. by left.
Qed.

(** ** The accepted requests, taken up again *)

Lemma brings_Running {B} (k : boot -> cmd B) Q w : brings (k b) Q (log (ERunning (cur w) (Some b)) w) -> brings (Running ≫= k) Q w.
Proof. intros Hk. apply brings_bind. exists b, (log (ERunning (cur w) (Some b)) w). split; [|done]. unfold Running. by rewrite willing_observed. Qed.
Lemma brings_current {B} (k : Status -> cmd B) Q w : brings (k (cur w)) Q w -> brings (current ≫= k) Q w.
Proof. intros Hk. apply brings_bind. by exists (cur w), w. Qed.
Lemma brings_try {A B} (m : cmd A) (k : result Error A -> cmd B) Q w :
  (exists a w', m w = (Ok a, w') /\ brings (k (Ok a)) Q w') -> brings (attempt m ≫= k) Q w.
Proof. intros (a & w' & Hm & Hk). apply brings_bind. exists (Ok a), w'. split; [|done]. unfold attempt. by rewrite Hm. Qed.

Lemma settles_activate s w : cur w = s -> State s = "staged" -> settles s activate w.
Proof.
  intros Hc Hs. unfold activate, coordinate, settles. apply brings_current. rewrite Hc, Hs, !willing_coordinator. cbn [bool_decide orb negb andb].
  do 3 (rewrite bool_decide_eq_false_2 by done). rewrite bool_decide_eq_true_2 by done. cbn [orb negb].
  do 2 apply brings_call. apply brings_try. eexists b, _. split; [unfold Running; rewrite willing_observed; reflexivity|].
  apply brings_update, brings_save. intros s1 _. apply brings_try. eexists tt, _. split.
  { unfold mbind, prog_mbind, bind. rewrite call_willing, call_willing. reflexivity. }
  apply brings_save. intros s2 Hs2. apply brings_try. eexists tt, _. split; [rewrite call_willing; reflexivity|].
  apply brings_ret. exists s2. split; [done|]. right. right. right. split; [done|]. by eexists _, _.
Qed.

Lemma settles_commit s w : cur w = s -> State s = "ready" \/ State s = "committing" -> is_trial s b = true -> settles s commit w.
Proof.
  intros Hc Hs Ht. apply (settles_state _ "committed"); [|set_solver]. unfold commit. apply brings_current. rewrite Hc.
  destruct (decide (State s = "committed")) as [E|_]; [destruct Hs; congruence|].
  replace (_ && _) with false by (by destruct Hs as [->| ->]). apply brings_Running. rewrite Ht. cbn [negb].
  apply brings_call, brings_save. intros s1 _. apply brings_call, brings_save. intros s2 _. apply brings_finishCommit.
Qed.

Lemma settles_rollback s w : cur w = s -> journal w = Content s -> settles s rollback w.
Proof.
  intros Hc Hj. unfold rollback. apply brings_current. rewrite Hc. destruct (decide (State s = "recovered")) as [E|_].
  { apply brings_ret. exists s. split; [done|]. left. rewrite E. set_solver. }
  destruct (_ || _).
  { apply (settles_state _ "recovered"); [|set_solver]. apply brings_call, brings_final_save. intros s' Hs'. by exists s'. }
  rewrite willing_coordinator. cbn [negb]. apply brings_save. intros s1 Hs1. do 2 apply brings_call. by eapply settles_reboot.
Qed.

Lemma brings_clean_history names w : (forall name, name ∈ names -> HasSuffix name ".json" = true -> operationID (TrimSuffix name ".json") = true) ->
  brings (clean_history names) (fun _ => True) w.
Proof.
  revert w. induction names as [|name names IH]; intros w Hn; [by apply brings_ret|]. cbn [clean_history]. cbv zeta.
  assert (Hn' : forall n, n ∈ names -> HasSuffix n ".json" = true -> operationID (TrimSuffix n ".json") = true).
  { intros n Hin. apply Hn, elem_of_cons. by right. }
  destruct (HasSuffix name ".json") eqn:E; [|by apply IH]. rewrite Hn by (done || apply elem_of_cons; by left). cbn [negb].
  apply brings_current. destruct (decide _); [by apply IH|]. rewrite willing_coordinator. cbn [negb].
  apply brings_bind. exists tt, w. split; [done|]. do 2 apply brings_call. apply brings_bind. eexists tt, _. split; [reflexivity|]. by apply IH.
Qed.

Lemma settles_cleanup s w : cur w = s -> journal w = Content s -> State s ∈ known_states -> terminal (State s) = true ->
  operationID (OperationID s) = true -> tidy w -> settles s cleanup w.
Proof.
  intros Hc Hj Hk Ht Ho Htidy. assert (Hb : brings cleanup (fun _ => True) w).
  { unfold cleanup. apply brings_call, brings_current. cbn [cur log]. rewrite Hc, Ht, Ho. cbn [negb orb].
    do 2 apply brings_call. destruct (negb _); [by apply brings_ret|]. apply brings_bind. eexists _, _. split; [reflexivity|].
    rewrite willing_dir. cbn [negb]. apply brings_clean_history. intros name Hin Hsuf. rewrite merge_sort_Permutation in Hin.
    apply list_elem_of_fmap in Hin as ([name' s'] & -> & Hin). apply elem_of_map_to_list in Hin. by eapply Htidy. }
  destruct Hb as (a & w' & Hm & _). exists a, w'. split; [done|]. destruct (idles_cleanup w) as (_ & Hj' & _). rewrite Hm in Hj'. cbn in Hj'.
  exists s. split; [congruence|]. left. by apply terminal_known.
Qed.
(** ** Without a request *)

Lemma settles_known s w :
  cur w = s -> journal w = Content s -> State s ∈ known_states -> HasSuffix (Phase s) "_requested" = false ->
  stuck s b = false -> settles s (resume s) w.
Proof.
  intros Hc Hj Hk Hph. unfold stuck, resume, resume_boot. rewrite Hph. cbv zeta. destruct (terminal (State s)) eqn:Ht; intros Hst.
  { destruct (_ && negb (CommitFinalized s)).
    - eapply settles_state; [apply brings_finishCommit|]. set_solver.
    - apply brings_ret. exists s. split; [done|]. left. by apply terminal_known. }
  destruct (decide (State s = "staging")) as [Hg|Hg].
  { eapply (settles_state _ "failed"); [|set_solver]. apply brings_update, brings_final_save. intros s' Hs'. by exists s'. }
  destruct (decide (State s = "staged")) as [Hd|Hd].
  { apply brings_ret. exists s. split; [done|]. left. rewrite Hd. set_solver. }
  rewrite !(bool_decide_eq_false_2 (State s = _)) in Hst by done. cbn [negb andb] in Hst.
  apply brings_Running. destruct (bool_decide (State s = "recovering") && _ && _) eqn:Eb; cbn [negb andb] in *.
  { unfold coordinate. rewrite willing_coordinator. do 2 apply brings_call. eapply settles_reboot; [done|]. by to_prop. }
  destruct (is_trial s b && _) eqn:Etr; cbn [negb andb] in *.
  { destruct (decide (State s = "committing")); [|by apply settles_trial; to_prop].
    apply (settles_state _ "committed"); [|set_solver]. apply brings_call, brings_save. intros s' Hs'. apply brings_finishCommit. }
  apply orb_false_iff in Hst as [Ha Hv]. rewrite Ha, Hv. eapply settles_state; [apply brings_restore|]. set_solver.
Qed.

Lemma refuses_boot s w : stuck s b = true -> HasSuffix (Phase s) "_requested" = false -> refuses (resume s) w.
Proof.
  intros Hst Hph. unfold stuck, refuses, resume, resume_boot in *. rewrite Hph in *. cbv zeta in Hst. to_prop.
  repeat match goal with E : negb _ = true |- _ => apply negb_true_iff in E end.
  destruct (terminal (State s)); [done|]. do 2 (rewrite decide_False by done).
  unfold mbind, prog_mbind, bind, Running. rewrite willing_observed.
  repeat match goal with E : _ && _ = false |- _ => rewrite E; clear E end.
  destruct (bool_decide (bt_id b = _) && _); [by eexists _, _|]. cbn [orb] in *.
  repeat match goal with E : negb _ = true |- _ => rewrite E; clear E end. by eexists _, _.
Qed.

(** ** All of them *)

(** The status object becomes the journalled status. *)
Lemma load_willing s w : journal w = Content s -> load w = (Ok tt, set_cur s w).
Proof. intros Hj. unfold load. by rewrite willing_read, Hj. Qed.

(** An accepted request, with what its action is. *)
Lemma requested_action s : phase_ok s -> HasSuffix (Phase s) "_requested" = true -> exists name,
  TrimSuffix (Phase s) "_requested" = name /\ acceptable s name = Ok tt /\ operationID (OperationID s) = true /\
  (Phase s = "commit_requested" <-> name = "commit").
Proof.
  intros Hp Hr. destruct (Hp Hr) as (Ho & name & E & Ha). exists name. rewrite E, TrimSuffix_app. split_and!; [done..|].
  split; [|by intros ->]. intros E2. rewrite <- (TrimSuffix_app name "_requested"), E2. reflexivity.
Qed.

Lemma resume_outcome s w : cur w = s -> journal w = Content s -> State s ∈ known_states -> phase_ok s -> tidy w ->
  if stuck s b then refuses (resume s) w else settles s (resume s) w.
Proof.
  intros Hc Hj Hk Hp Htidy. destruct (HasSuffix (Phase s) "_requested") eqn:Hph.
  2: { destruct (stuck s b) eqn:E; [by apply refuses_boot|by apply settles_known]. }
  destruct (requested_action s Hp Hph) as (name & Hname & Ha & Ho & Hcommit).
  unfold resume, stuck. rewrite Hph, Hname. unfold action_locked. set (w1 := set_cur s w).
  assert (Hload : forall (m : cmd unit), (load ≫= fun _ => m) w = m w1).
  { intros m. unfold mbind, prog_mbind, bind. by rewrite (load_willing s). }
  unfold refuses, settles, brings. rewrite Hload. clear Hload. change (set_cur s w) with w1.
  assert (Hcur : forall (k : Status -> cmd unit), (current ≫= k) w1 = k s w1) by done. rewrite Hcur. clear Hcur. cbn [rq_OperationID].
  rewrite Ho, (bool_decide_eq_true_2 (OperationID s = OperationID s)) by done. cbn [negb orb]. unfold acceptable in Ha.
  assert (Hj1 : journal w1 = Content s) by done.
  destruct (decide (name = "activate")) as [->|Ha1].
  { rewrite bool_decide_eq_false_2 by (intros E; by apply Hcommit in E). cbn [andb].
    apply settles_activate; [done|]. destruct (negb _) eqn:E in Ha; [done|]. by to_prop. }
  destruct (decide (name = "commit")) as [->|Ha2].
  { rewrite bool_decide_eq_true_2 by (by apply Hcommit). cbn [andb].
    assert (Hst : State s = "ready" \/ State s = "committing").
    { destruct (_ && _) eqn:E in Ha; [done|]. apply andb_false_iff in E as [E|E]; to_prop; auto. }
    destruct (is_trial s b) eqn:Et; cbn [negb]; [by apply settles_commit|].
    unfold commit. change ((current ≫= ?k) w1) with (k s w1). cbv beta.
    destruct (decide (State s = "committed")) as [E|_]; [destruct Hst; congruence|].
    replace (_ && _) with false by (by destruct Hst as [->| ->]). unfold mbind, prog_mbind, bind, Running. rewrite willing_observed, Et.
    by eexists _, _. }
  rewrite bool_decide_eq_false_2 by (intros E; by apply Hcommit in E). cbn [andb].
  destruct (decide (name = "cleanup")) as [->|Ha3].
  { destruct (decide ("cleanup" = "rollback")); [done|]. destruct (terminal (State s)) eqn:Ht; [|done]. cbn [negb]. by apply settles_cleanup. }
  destruct (decide (name = "rollback")) as [->|Ha4]; [by apply settles_rollback|done].
Qed.

Lemma Recover_outcome s w :
  lock w = false -> journal w = Content s -> State s ∈ known_states -> phase_ok s -> tidy w ->
  if stuck s b then refuses Recover w else settles s Recover w.
Proof.
  intros Hl Hj Hk Hp Htidy. pose (w1 := set_cur s (set_lock true w)).
  assert (Hrun : Recover w = let '(r, w2) := resume s w1 in (r, set_lock false w2)).
  { unfold Recover, with_lock, attempt, mbind, prog_mbind, bind, acquire. rewrite Hl, willing_lock. cbn [Acquire negb].
    rewrite (load_willing s) by done. cbn. fold w1. by destruct (resume s w1). }
  pose proof (resume_outcome s w1 eq_refl Hj Hk Hp Htidy) as Ho. destruct (stuck s b).
  - destruct Ho as (e & w' & Hr & Hj'). exists e, (set_lock false w'). rewrite Hrun, Hr. done.
  - destruct Ho as (a & w' & Hr & s' & Hj' & Hs'). exists a, (set_lock false w'). rewrite Hrun, Hr. split; [done|]. exists s'. done.
Qed.
End Startup.

(** ** A concrete operation *)

Definition release_image (v : string) : Manifest :=
  mkManifest (mkPayload v "" "" "/nix/store/system/init" 1 ∅ 1) "amd64" 1 "zbm" "openzfs-2.3-linux"
    (mkEngine "28" "2" "zfs" "/floatlab/system/docker") ["1.0.0"] "host".
Definition trial_boot : boot := mkBootObs "2.0.0" "floatlab/os/2.0.0@base" "op1" "boot-2".
Definition source_boot : boot := mkBootObs "1.0.0" "floatlab/os/1.0.0@base" "" "boot-1".

(** Every call succeeds; the first reboot starts the trial; an event takes ten
    seconds. *)
Definition rebooted_once (tr : list event) : bool :=
  existsb (fun e => match e with ECall Reboot _ _ => true | _ => false end) tr.
Definition smooth : Env := {|
  answer := fun _ _ _ => None; images := fun _ _ => (release_image "2.0.0", release_image "1.0.0");
  observed := fun tr => Some (if rebooted_once tr then trial_boot else source_boot);
  write := fun _ _ => true; read_ok := fun _ => true; read_dir_ok := fun _ => true;
  now := fun tr => (Z.of_nat (length tr) * 10000000000)%Z; open_lock := fun _ => true; watchdog := fun _ => true;
  coordinator := fun _ => true; sha256_hex := fun s => s |}.
Definition in_trial : Env := {|
  answer := fun _ _ _ => None; images := fun _ _ => (release_image "2.0.0", release_image "1.0.0");
  observed := fun tr => Some trial_boot;
  write := fun _ _ => true; read_ok := fun _ => true; read_dir_ok := fun _ => true;
  now := fun tr => (Z.of_nat (length tr) * 10000000000)%Z; open_lock := fun _ => true; watchdog := fun _ => true;
  coordinator := fun _ => true; sha256_hex := fun s => s |}.
#[export] Instance in_trial_willing : Willing in_trial trial_boot.
Proof. by split. Qed.
(** The host fell back to its source release. *)
Definition fallen_back : Env := {|
  answer := fun _ _ _ => None; images := fun _ _ => (release_image "2.0.0", release_image "1.0.0");
  observed := fun tr => Some source_boot;
  write := fun _ _ => true; read_ok := fun _ => true; read_dir_ok := fun _ => true;
  now := fun tr => (Z.of_nat (length tr) * 10000000000)%Z; open_lock := fun _ => true; watchdog := fun _ => true;
  coordinator := fun _ => true; sha256_hex := fun s => s |}.
#[export] Instance fallen_back_willing : Willing fallen_back source_boot.
Proof. by split. Qed.
Lemma smooth_reads p : @reads smooth p.
Proof. by destruct p. Qed.

Definition example_request : Request := mkRequest "" false "op1" "host-v2.0.0" "admin" "key".
Definition world_at (tr : list event) : W :=
  mkW (match last_saved tr with Some s => Content s | None => Absent end) Absent ∅ ∅ false zero_status tr.

Definition staged_trace : list event := trace (@prepared major_semver smooth example_request (world_at [])).2.
Definition after (p : process) (tr : list event) : list event := trace (@perform major_semver smooth p (world_at tr)).2.
Definition ready_trace : list event :=
  after (Supervising 8) (after Recovering (after (Acting example_request "activate") staged_trace)).
(** The power fails during the commit, after the new release was promoted. *)
Definition promoting_trace : list event :=
  let tr := after (Acting example_request "commit") ready_trace in drop (length tr - length ready_trace - 4) tr.

Lemma resumed_world_at tr : last_saved tr <> None -> resumed tr (world_at tr).
Proof. intros Hs. split; [done|]. cbn. by destruct (last_saved tr). Qed.
Lemma lifetime_after p tr n : lifetime tr -> (n <= length (after p tr) - length tr)%nat -> lifetime (drop n (after p tr)).
Proof.
  intros Hl Hn. pose proof (lifetime_good _ Hl) as [_ Hs]. pose proof (resumed_world_at _ Hs) as Hr.
  destruct (@perform_safely major_semver smooth p (smooth_reads p) _ (resumed_wf _ _ Hl Hr)) as [[l Ht] _].
  assert (Ha : after p tr = l ++ tr) by exact Ht. rewrite Ha in *. rewrite length_app in Hn.
  rewrite drop_app_le by lia. apply (life_run major_semver smooth p tr (world_at tr) (take n l)); [apply smooth_reads|done|done|].
  change (after p tr = take n l ++ drop n l ++ tr). by rewrite app_assoc, take_drop.
Qed.

Lemma lifetime_staged : lifetime staged_trace.
Proof. by apply (life_prepare major_semver smooth example_request (world_at []) []). Qed.
Lemma lifetime_after_all p tr : lifetime tr -> lifetime (after p tr).
Proof. intros Hl. exact (lifetime_after p tr 0 Hl (Nat.le_0_l _)). Qed.
Lemma lifetime_ready : lifetime ready_trace.
Proof. unfold ready_trace. do 3 apply lifetime_after_all. exact lifetime_staged. Qed.
Lemma lifetime_promoting : lifetime promoting_trace.
Proof.
  unfold promoting_trace. cbv zeta. apply lifetime_after; [exact lifetime_ready|]. apply Nat.leb_le. vm_compute. reflexivity.
Qed.

(** The commit of a ready trial was accepted and its goroutine never ran. *)
Definition commit_accepted : list event := after (Accepting example_request "commit") ready_trace.
Lemma lifetime_commit_accepted : lifetime commit_accepted.
Proof. apply lifetime_after_all. exact lifetime_ready. Qed.

(** * Properties *)

(** C3. What the journal promises at every moment of every lifetime of a host
    upgrade: through any sequence of requests, recoveries, supervisions and
    the supervisor's own locked sections, one after another as the update lock
    orders them, each failing and cut short anywhere, with [host.json] readable
    while the goroutine of an accepted request runs.  The journalled state
    tells the truth about the past (before activation management was never
    taken down; armed means checkpointed and armed; trial and ready mean the
    trial was seen and its management started; committing means it was also
    healthy; committed means promoted; recovered means the checkpoint was
    restored or never taken), a journalled request is one its status accepts,
    and every dangerous call was announced in the journal and prepared by the
    calls it relies on. *)
Theorem host_promises (tr : list event) (H : lifetime tr) :
  forall l e past, tr = l ++ e :: past ->
    allowed e past /\
    match last_saved (e :: past) with
    | Some s => meaning (State s) (e :: past)
    | None => ~ activated (e :: past)
    end.
Proof.
  intros l e past ->. destruct (lifetime_good _ H) as [HG%host_Good_app _]. inversion HG as [|? ? HG' Ha HI]; subst. done.
Qed.

(** C4. Whatever happened before, one startup in an environment where nothing
    fails either settles the upgrade, or refuses and leaves the journal as it
    is, and it refuses exactly where [stuck] says: on an accepted commit whose
    trial is not what runs, and, when no request is pending, on a pending
    activation of a host that runs neither the trial nor the source release or
    has not made its armed reboot.  Settled: the journal says staged, failed,
    committed or recovered, or the trial runs under management started for it,
    or the host is rebooting, into the armed trial or with its boot
    configuration restored.  What the journal says is true in every case. *)
Theorem startup_settles (Sv : Semver) (En : Env) (b : boot) (Wi : Willing En b) (tr : list event) (w : W)
  (H : lifetime tr) (Hw : resumed tr w) (Hlock : lock w = false) (Htidy : tidy w) :
  exists r w' s', Recover w = (r, w') /\ journal w' = Content s' /\ meaning (State s') (trace w') /\
    exists s, last_saved tr = Some s /\
      if stuck s b then (exists e, r = Err e) /\ s' = s else r = Ok tt /\ settled s b s' w'.
Proof.
  pose proof (resumed_wf _ _ H Hw) as Hwf. destruct Hw as [Ht Hj].
  pose proof (lifetime_good _ H) as [HG Hne]. destruct (last_saved tr) as [s|] eqn:Hs; [|done].
  pose proof (host_Good_Inv _ HG) as HI. unfold Inv in HI. rewrite Hs in HI.
  pose proof (Recover_outcome s w Hlock Hj (me_known _ _ HI) (last_saved_phase _ _ HG Hs) Htidy) as Ho.
  destruct (safely_Recover w Hwf) as [_ [HG' (s2 & Hs2 & Hj2)]].
  pose proof (host_Good_Inv _ HG') as HI'. unfold Inv in HI'. rewrite Hs2 in HI'.
  exists (Recover w).1, (Recover w).2, s2. split; [by destruct (Recover w)|]. split; [done|]. split; [done|]. exists s. split; [done|].
  destruct (stuck s b).
  - destruct Ho as (e & w' & Hr & Hj'). rewrite Hr in *. cbn in *. split; [by exists e|]. congruence.
  - destruct Ho as ([] & w' & Hr & s' & Hj' & Hset). rewrite Hr in *. cbn in *. split; [done|]. rewrite Hj' in Hj2. by injection Hj2 as ->.
Qed.

Lemma host_promises_witness :
  lifetime promoting_trace /\
  exists s, last_saved promoting_trace = Some s /\ State s = "committing" /\ succeeded Health promoting_trace.
Proof.
  split; [exact lifetime_promoting|].
  assert (He : exists e past, promoting_trace = [] ++ e :: past /\ exists s, last_saved (e :: past) = Some s /\ State s = "committing").
  { eexists _, _. split; [vm_compute; reflexivity|]. eexists. split; vm_compute; reflexivity. }
  destruct He as (e & past & Htr & s & Hs & Hst).
  destruct (host_promises promoting_trace lifetime_promoting [] e past Htr) as [_ Hm]. rewrite Hs in Hm.
  exists s. rewrite Htr. split; [exact Hs|]. split; [exact Hst|]. exact (proj1 (me_commit _ _ Hm (or_introl Hst))).
Defined.

Lemma startup_settles_witness :
  (exists w' s', @Recover in_trial (world_at promoting_trace) = (Ok tt, w') /\ journal w' = Content s' /\
     State s' = "committed" /\ succeeded Promote (trace w')) /\
  (exists e w' s', @Recover fallen_back (world_at commit_accepted) = (Err e, w') /\ journal w' = Content s' /\
     State s' = "ready" /\ Phase s' = "commit_requested").
Proof.
  assert (Htidy : forall tr, tidy (world_at tr)) by (intros tr name s Hn; change (history (world_at tr)) with (∅ : gmap string Status) in Hn; by rewrite lookup_empty in Hn).
  split.
  - assert (Hs : exists s, last_saved promoting_trace = Some s /\ stuck s trial_boot = false).
    { eexists. split; vm_compute; reflexivity. }
    destruct Hs as (s & Hs & Hst).
    assert (Hne : last_saved promoting_trace <> None) by (rewrite Hs; discriminate).
    destruct (startup_settles major_semver in_trial trial_boot in_trial_willing promoting_trace (world_at promoting_trace)
      lifetime_promoting (resumed_world_at _ Hne) eq_refl (Htidy _)) as (r & w' & s' & Hr & Hj & Hm & s0 & Hs0 & Hcase).
    rewrite Hs in Hs0. injection Hs0 as <-. rewrite Hst in Hcase. destruct Hcase as [-> _].
    assert (Hc : match journal (@Recover in_trial (world_at promoting_trace)).2 with Content s => State s = "committed" | _ => False end)
      by (vm_compute; reflexivity).
    rewrite Hr in Hc. cbn [snd] in Hc. rewrite Hj in Hc. exists w', s'.
    exact (conj Hr (conj Hj (conj Hc (me_committed _ _ Hm Hc)))).
  - assert (Hs : exists s, last_saved commit_accepted = Some s /\ stuck s source_boot = true /\ State s = "ready" /\ Phase s = "commit_requested").
    { eexists. split; [vm_compute; reflexivity|]. split; [vm_compute; reflexivity|]. split; vm_compute; reflexivity. }
    destruct Hs as (s & Hs & Hst & Hready & Hph).
    assert (Hne : last_saved commit_accepted <> None) by (rewrite Hs; discriminate).
    destruct (startup_settles major_semver fallen_back source_boot fallen_back_willing commit_accepted (world_at commit_accepted)
      lifetime_commit_accepted (resumed_world_at _ Hne) eq_refl (Htidy _)) as (r & w' & s' & Hr & Hj & _ & s0 & Hs0 & Hcase).
    rewrite Hs in Hs0. injection Hs0 as <-. rewrite Hst in Hcase. destruct Hcase as [[e ->] ->].
    exists e, w', s. exact (conj Hr (conj Hj (conj Hready Hph))).
Defined.
