(* ===== verification/HostGuardSafety.v ===== *)
(** The boot guard across its own crashes and restarts, and what the trial
    needs before [Supervise] reports it ready. *)
From S2P Require Import Prelude Timestamp Release Update GoTime GoStrings HostManifest HostUpgrade HostGuard.
From S2P Require Import HostUpgradeSafety HostUpgradeLife.

Open Scope string_scope.
Open Scope list_scope.
Open Scope Z_scope.

(** ** The guard as it is meant: one clock, no process *)

Record Watch := mkWatch { wa_start : Z; wa_beat : option Z; wa_nonce : Z }.

Inductive outcome := Watching (x : Watch) | TrialCommitted | HostRebooted.

(** A new report that the trial is ready. *)
Definition heartbeat (token : string) (nonce : Z) (t : tick) : option Z :=
  match t_message t with
  | Some m =>
      if bool_decide (m_OperationID m = token) && bool_decide (m_State m = "ready") && negb (m_Nonce m =? nonce)
      then Some (m_Nonce m) else None
  | None => None
  end.
Definition commit_report (token : string) (t : tick) : bool :=
  match t_message t with
  | Some m => bool_decide (m_OperationID m = token) && bool_decide (m_State m = "committed") && committed_journal token (t_journal t)
  | None => false
  end.
Definition overdue (x : Watch) (now : Z) : bool :=
  match wa_beat x with None => 10 * minute <=? now - wa_start x | Some b => minute <=? now - b end.

Definition watch_tick (token : string) (x : Watch) (t : tick) : outcome :=
  if commit_report token t then TrialCommitted
  else
    let x := match heartbeat token (wa_nonce x) t with Some n => mkWatch (wa_start x) (Some (t_boot t)) n | None => x end in
    if overdue x (t_boot t) then HostRebooted else Watching x.
Fixpoint watch (token : string) (x : Watch) (ticks : list tick) : outcome :=
  match ticks with
  | [] => Watching x
  | t :: ticks => match watch_tick token x t with Watching x => watch token x ticks | o => o end
  end.

(** ** The guard as it runs: processes that may end at any tick *)

(** One process: its start on both clocks and the ticks until it ends. *)
Record session := mkSession { se_now : Z; se_boot : Z; se_ticks : list tick }.

(** A process that ends while waiting is followed by the next one, which finds
    what was saved. *)
Fixpoint guarded (token : string) (saved : file savedGuard) (sessions : list session) : option verdict :=
  match sessions with
  | [] => None
  | se :: rest =>
      match guard_start token saved true (se_now se) (se_boot se) with
      | None => Some GuardError
      | Some (g, sv) =>
          match guard_run g sv (se_ticks se) with
          | Waiting g sv => match rest with [] => Some (Waiting g sv) | _ => guarded token (Content sv) rest end
          | v => Some v
          end
      end
  end.

(** Within a process both clocks advance together; checkpoints are written. *)
Definition steady_session (se : session) : Prop :=
  Forall (fun t => t_now t - t_boot t = se_now se - se_boot se /\ t_write t = true) (se_ticks se).
(** The time since boot never goes back. *)
Definition later_sessions (start : Z) (sessions : list session) : Prop :=
  0 < start /\ Forall (fun se => start <= se_boot se) sessions.

(** [g] and its checkpoint say what [x] says, in a process whose clock is
    [off] ahead of the time since boot. *)
Definition tracks (token : string) (off : Z) (x : Watch) (g : GuardState) (sv : savedGuard) : Prop :=
  g_OperationID g = token /\ sv_Started sv = wa_start x /\ g_Started g = wa_start x + off /\
  sv_Nonce sv = wa_nonce x /\ g_LastNonce g = wa_nonce x /\
  sv_Ready sv = g_Ready g /\
  match wa_beat x with
  | None => g_Ready g = false
  | Some b => g_Ready g = true /\ sv_Heartbeat sv = b /\ g_LastHeartbeat g = b + off
  end.

(** How the guard's verdict reads as an outcome. *)
Definition matches (token : string) (off : Z) (v : verdict) (o : outcome) : Prop :=
  match v, o with
  | Waiting g sv, Watching x => tracks token off x g sv
  | CommittedTrial, TrialCommitted | RebootNow, HostRebooted => True
  | _, _ => False
  end.

Lemma tracks_overdue token off x g sv now boot : tracks token off x g sv -> now = boot + off -> Expired g now = overdue x boot.
Proof.
  intros (_ & _ & Hst & _ & _ & _ & Hb) ->. unfold Expired, overdue. destruct (wa_beat x) as [b|].
  - destruct Hb as (-> & _ & ->). cbn [negb]. f_equal. lia.
  - rewrite Hb, Hst. cbn [negb]. f_equal. lia.
Qed.

Lemma tick_refines token off x g sv t : tracks token off x g sv -> t_now t = t_boot t + off -> t_write t = true ->
  matches token off (guard_tick g sv (t_now t) (t_boot t) (t_message t) (t_journal t) (t_write t)) (watch_tick token x t).
Proof.
  intros Ht Hn Hw. pose proof Ht as (Hop & Hss & Hgs & Hsn & Hgn & Hr & Hb).
  assert (Hjudge : forall x g sv, tracks token off x g sv ->
    matches token off (if Expired g (t_now t) then RebootNow else Waiting g sv) (if overdue x (t_boot t) then HostRebooted else Watching x)).
  { intros x' g' sv' H'. rewrite (tracks_overdue _ _ _ _ _ _ (t_boot t) H') by done. by destruct (overdue _ _). }
  unfold watch_tick, commit_report, heartbeat, guard_tick. destruct (t_message t) as [m|]; [|by apply Hjudge].
  rewrite Hop. destruct (bool_decide_reflect (m_OperationID m = token)) as [Hm|Hm]; cbn [negb andb]; [|by apply Hjudge].
  destruct (bool_decide (m_State m = "committed") && _); [done|].
  unfold Observe. rewrite Hop, Hm, bool_decide_eq_true_2 by done. cbn [negb orb]. rewrite Hgn.
  destruct (bool_decide (m_State m = "ready")); cbn [negb orb andb]; [destruct (Z.eqb_spec (m_Nonce m) (wa_nonce x)) as [E|E]|]; cbn [negb].
  1, 3: by rewrite Hgn, Hsn, Z.eqb_refl; cbn [negb]; apply Hjudge.
  cbn [g_LastNonce]. rewrite Hsn. destruct (Z.eqb_spec (wa_nonce x) (m_Nonce m)) as [E'|E']; [congruence|]. cbn [negb].
  rewrite Hw. cbn [negb]. apply Hjudge. by split_and!.
Qed.

Lemma run_refines token off x g sv ticks : tracks token off x g sv ->
  Forall (fun t => t_now t = t_boot t + off /\ t_write t = true) ticks ->
  matches token off (guard_run g sv ticks) (watch token x ticks).
Proof.
  intros Ht Hall. revert x g sv Ht. induction Hall as [|t ticks [Hn Hw] _ IH]; intros x g sv Ht; [done|]. cbn [guard_run watch].
  pose proof (tick_refines token off x g sv t Ht Hn Hw) as Hm. unfold matches in Hm.
  destruct (guard_tick _ _ _ _ _ _ _), (watch_tick token x t); try done. by apply IH.
Qed.

Lemma watch_start token x ticks x' : watch token x ticks = Watching x' -> wa_start x' = wa_start x.
Proof.
  revert x. induction ticks as [|t ticks IH]; intros x; cbn; [by intros [= ->]|].
  destruct (watch_tick token x t) as [y| |] eqn:E; try done. intros Hy. rewrite (IH y Hy).
  unfold watch_tick in E. destruct (commit_report _ _); [done|]. destruct (overdue _ _); [done|]. injection E as <-.
  by destruct (heartbeat _ _ _).
Qed.
Lemma watch_app token x l l' : watch token x (l ++ l') = match watch token x l with Watching x => watch token x l' | o => o end.
Proof. revert x. induction l as [|t l IH]; intros x; cbn; [done|]. destruct (watch_tick token x t); auto. Qed.

(** A restarted process takes over where the last one ended. *)
Lemma start_refines token x off0 g0 sv now boot : tracks token off0 x g0 sv -> 0 < wa_start x <= boot ->
  exists g, guard_start token (Content sv) true now boot = Some (g, sv) /\ tracks token (now - boot) x g sv.
Proof.
  intros (_ & Hss & _ & Hsn & _ & Hr & Hb) Hs. unfold guard_start. rewrite Hss.
  destruct (Z.leb_spec (wa_start x) 0); [lia|]. destruct (Z.ltb_spec boot (wa_start x)); [lia|]. cbn [orb].
  eexists. split; [done|]. split_and!; cbn; try done; [lia|]. destruct (wa_beat x) as [b|]; cbn.
  - destruct Hb as (Hg & Hh & _). rewrite Hr, Hg. split_and!; try done. lia.
  - by rewrite Hr.
Qed.

Lemma sessions_refine token x off0 g0 sv sessions :
  tracks token off0 x g0 sv -> later_sessions (wa_start x) sessions -> Forall steady_session sessions -> sessions <> [] ->
  exists v off, guarded token (Content sv) sessions = Some v /\ matches token off v (watch token x (sessions ≫= se_ticks)).
Proof.
  revert x off0 g0 sv. induction sessions as [|se rest IH]; intros x off0 g0 sv Ht [Hpos Hl] Hst Hne; [done|].
  apply Forall_cons in Hst as [Hse Hst]. apply Forall_cons in Hl as [Hb Hl]. cbn [guarded].
  destruct (start_refines token x off0 g0 sv (se_now se) (se_boot se) Ht) as (g & -> & Hg); [lia|].
  assert (Hrun : matches token (se_now se - se_boot se) (guard_run g sv (se_ticks se)) (watch token x (se_ticks se))).
  { apply run_refines; [done|]. eapply Forall_impl; [exact Hse|]. cbn. intros t [Hn Hw]. split; [lia|done]. }
  cbn [mbind list_bind]. rewrite watch_app.
  destruct (guard_run g sv (se_ticks se)) as [g' sv'| | |], (watch token x (se_ticks se)) as [x'| |] eqn:Ew; try done.
  - cbn in Hrun. destruct rest as [|se' rest]; [by exists (Waiting g' sv'), (se_now se - se_boot se)|].
    apply (IH x' _ g' sv' Hrun); [|done|done]. split; rewrite (watch_start _ _ _ _ Ew); done.
  - by exists CommittedTrial, 0.
  - by exists RebootNow, 0.
Qed.

Lemma first_session_refines token se rest :
  later_sessions (se_boot se) (se :: rest) -> Forall steady_session (se :: rest) ->
  exists v off, guarded token Absent (se :: rest) = Some v /\
    matches token off v (watch token (mkWatch (se_boot se) None 0) ((se :: rest) ≫= se_ticks)).
Proof.
  intros [Hpos Hl] Hst.
  pose (x := mkWatch (se_boot se) None 0). pose (sv := mkSaved (se_boot se) 0 0 false).
  pose (g := mkGuard token (se_now se) 0 0 false).
  assert (Ht : tracks token (se_now se - se_boot se) x g sv) by (split_and!; cbn; try done; lia).
  apply Forall_cons in Hst as [Hse Hst]. apply Forall_cons in Hl as [_ Hl]. cbn [guarded guard_start negb].
  assert (Hrun : matches token (se_now se - se_boot se) (guard_run g sv (se_ticks se)) (watch token x (se_ticks se))).
  { apply run_refines; [done|]. eapply Forall_impl; [exact Hse|]. cbn. intros t [Hn Hw]. split; [lia|done]. }
  cbn [mbind list_bind]. rewrite watch_app. fold g sv x.
  destruct (guard_run g sv (se_ticks se)) as [g' sv'| | |], (watch token x (se_ticks se)) as [x'| |] eqn:Ew; try done.
  - cbn in Hrun. destruct rest as [|se' rest]; [by exists (Waiting g' sv'), (se_now se - se_boot se)|].
    apply (sessions_refine token x' _ g' sv' (se' :: rest) Hrun); [|done|done]. split; by rewrite (watch_start _ _ _ _ Ew).
  - by exists CommittedTrial, 0.
  - by exists RebootNow, 0.
Qed.

(** A report that the trial of [token] is ready. *)
Definition reports_ready (token : string) (t : tick) : Prop :=
  exists m, t_message t = Some m /\ m_OperationID m = token /\ m_State m = "ready".

Lemma watch_deadline token x ticks x' : watch token x ticks = Watching x' -> forall t, t ∈ ticks ->
  t_boot t < wa_start x + 10 * minute \/ (exists b, wa_beat x = Some b /\ t_boot t < b + minute) \/
  (exists u, u ∈ ticks /\ reports_ready token u /\ t_boot t < t_boot u + minute).
Proof.
  revert x. induction ticks as [|t0 ticks IH]; intros x Hw t Hin; [by apply elem_of_nil in Hin|]. cbn in Hw.
  unfold watch_tick in Hw. destruct (commit_report _ _); [done|].
  set (y := match heartbeat token (wa_nonce x) t0 with Some n => mkWatch (wa_start x) (Some (t_boot t0)) n | None => x end) in *.
  destruct (overdue y (t_boot t0)) eqn:Eo; [done|].
  assert (Hy : wa_start y = wa_start x /\ (wa_beat y = wa_beat x \/ (wa_beat y = Some (t_boot t0) /\ reports_ready token t0))).
  { subst y. unfold heartbeat. destruct (t_message t0) as [m|] eqn:Em; [|by auto].
    destruct (_ && negb _) eqn:Eb; [|by auto]. to_prop. split; [done|]. right. split; [done|]. by exists m. }
  destruct Hy as [Hs Hb]. apply elem_of_cons in Hin as [->|Hin].
  - unfold overdue in Eo. destruct Hb as [Hb|[Hb Hr]]; rewrite Hb in Eo.
    + destruct (wa_beat x) as [b|]; apply Z.leb_gt in Eo; [|left; lia]. right. left. exists b. split; [done|lia].
    + apply Z.leb_gt in Eo. right. right. exists t0. split_and!; [apply elem_of_cons; by left|done|lia].
  - destruct (IH y Hw t Hin) as [Ht|[(b & Hb' & Ht)|(u & Hu & Hr & Ht)]].
    + left. lia.
    + destruct Hb as [Hb|[Hb Hr]]; rewrite Hb in Hb'; [right; left; by exists b|]. injection Hb' as <-.
      right. right. exists t0. split_and!; [apply elem_of_cons; by left|done|done].
    + right. right. exists u. split_and!; [apply elem_of_cons; by right|done|done].
Qed.

(** ** Reporting the trial ready *)

(** The last minute, at least, was one of uninterrupted health. *)
Definition healthy_minute `{Env} (past : list event) : Prop :=
  exists mid s0 past0, past = mid ++ ECall Health s0 true :: past0 /\ (forall s, ECall Health s false ∉ mid) /\
    minute <= now past - now (ECall Health s0 true :: past0).

Section Ready.
Context `{Env}.

Definition healthy_since (stable : option Z) (w : W) : Prop :=
  match stable with
  | None => True
  | Some t0 => exists mid s0 past0, trace w = mid ++ ECall Health s0 true :: past0 /\ (forall s, ECall Health s false ∉ mid) /\
      t0 = now (ECall Health s0 true :: past0)
  end.
(** What is added to the past saves nothing before it is earned. *)
Definition earns (w w' : W) : Prop :=
  exists l, trace w' = l ++ trace w /\ (forall s, ECall Health s false ∉ l) /\
    forall l1 s ok ap l2, l = l1 ++ ESave s ok ap :: l2 -> healthy_minute (l2 ++ trace w).
Definition saves_earned (w w' : W) : Prop :=
  exists l, trace w' = l ++ trace w /\
    forall l1 s ok ap l2, l = l1 ++ ESave s ok ap :: l2 -> healthy_minute (l2 ++ trace w).

Lemma earns_still w w' : trace w' = trace w -> earns w w'.
Proof.
  intros Ht. exists []. split_and!; [done|intros s Hs; by apply elem_of_nil in Hs|]. intros [|? ?] s ok ap l2 Hl; discriminate Hl.
Qed.
Lemma earns_event e w w' : trace w' = e :: trace w -> (forall s, e <> ECall Health s false) ->
  (forall s ok ap, e = ESave s ok ap -> healthy_minute (trace w)) -> earns w w'.
Proof.
  intros Ht Hh Hs. exists [e]. split_and!; [done| |].
  - intros s Hin%list_elem_of_singleton. by apply (Hh s).
  - intros [|? [|? ?]] s ok ap l2 Hl; try discriminate Hl. injection Hl as He <-. by eapply Hs.
Qed.
Lemma earns_trans w1 w2 w3 : earns w1 w2 -> earns w2 w3 -> earns w1 w3.
Proof.
  intros (l & Ht & Hf & Hs) (m & Ht2 & Hf2 & Hs2). exists (m ++ l). split_and!.
  - by rewrite Ht2, Ht, app_assoc.
  - intros s [Hin|Hin]%elem_of_app; [by eapply Hf2|by eapply Hf].
  - intros l1 s ok ap l2 Hl. apply app_eq_app in Hl as (k & [[-> Hk]|[-> Hk]]).
    + destruct k as [|e k]; cbn in Hk.
      * destruct l as [|e' l]; [done|]. injection Hk as <- <-. by apply (Hs [] s ok ap).
      * injection Hk as <- ->. rewrite <- app_assoc, <- Ht. by eapply (Hs2 l1).
    + by apply (Hs k s ok ap).
Qed.
Lemma healthy_since_earns stable w w' : healthy_since stable w -> earns w w' -> healthy_since stable w'.
Proof.
  destruct stable as [t0|]; [|done]. intros (mid & s0 & p0 & Ht & Hm & Hn) (l & Ht' & Hf & _).
  exists (l ++ mid), s0, p0. split_and!; [by rewrite Ht', Ht, app_assoc| |done].
  intros s [Hin|Hin]%elem_of_app; [by eapply Hf|by eapply Hm].
Qed.

(** Programs that add no event, and programs that earn what they save. *)
Definition silent {A} (m : cmd A) : Prop := forall w, trace (m w).2 = trace w.
Definition gains {A} (P : list event -> Prop) (m : cmd A) : Prop := forall w, P (trace w) -> earns w (m w).2.

Lemma gains_silent {A} P (m : cmd A) : silent m -> gains P m.
Proof. intros Hm w _. by apply earns_still. Qed.
Lemma silent_bind {A B} (m : cmd A) (k : A -> cmd B) : silent m -> (forall a, silent (k a)) -> silent (m ≫= k).
Proof.
  intros Hm Hk w. unfold mbind, prog_mbind, bind. specialize (Hm w). destruct (m w) as [[a|e] w1]; [|done].
  by rewrite (Hk a w1).
Qed.
Lemma gains_after {A B} P (m : cmd A) (k : A -> cmd B) : silent m -> (forall a, gains P (k a)) -> gains P (m ≫= k).
Proof.
  intros Hm Hk w Hp. unfold mbind, prog_mbind, bind. specialize (Hm w). destruct (m w) as [[a|e] w1]; cbn in Hm; [|by apply earns_still].
  eapply earns_trans; [by apply earns_still|]. apply Hk. by rewrite Hm.
Qed.
Lemma gains_bind {A B} P (m : cmd A) (k : A -> cmd B) : gains P m -> (forall a, gains (fun _ => True) (k a)) -> gains P (m ≫= k).
Proof.
  intros Hm Hk w Hp. unfold mbind, prog_mbind, bind. specialize (Hm w Hp). destruct (m w) as [[a|e] w1]; [|done].
  eapply earns_trans; [exact Hm|]. by apply Hk.
Qed.
Lemma gains_attempt {A} P (m : cmd A) : gains P m -> gains P (attempt m).
Proof. intros Hm w Hp. unfold attempt. specialize (Hm w Hp). by destruct (m w). Qed.
Lemma silent_load : silent load.
Proof. intros w. unfold load. destruct (negb _); [done|]. by destruct (journal w). Qed.
Lemma silent_acquire : silent acquire.
Proof. intros w. unfold acquire. by destruct (Acquire _ _). Qed.
Lemma gains_call o : o <> Health -> gains (fun _ => True) (call o).
Proof.
  intros Ho w _. unfold call. eapply earns_event; [reflexivity| |done]. intros s [= -> _ _]. done.
Qed.
Lemma gains_save st : gains healthy_minute (save st).
Proof.
  intros w Hh. unfold save, mbind, prog_mbind, bind, update, modify, write_journal. cbn [trace set_cur journal cur].
  destruct (WriteFile _ _ _) as [ok f]. cbn [fst snd]. eapply earns_event; [reflexivity|done|done].
Qed.

Lemma gains_mark_ready : gains healthy_minute mark_ready.
Proof.
  intros w Hh. unfold mark_ready. pose proof (silent_acquire w) as Ht. destruct (acquire w) as [[[]|e] w1]; [|by apply earns_still].
  eapply earns_trans; [by apply earns_still|]. revert w1 Ht. enough (Hm : gains healthy_minute
    (r ← attempt (load;; fresh ← current; if bool_decide (State fresh = "trial") || bool_decide (State fresh = "ready")
       then save "ready" else ret tt); unlock;; x ← of_result r; ret (Some x))).
  { intros w1 Ht. apply Hm. cbn in Ht. by rewrite Ht. }
  apply gains_bind.
  - apply gains_attempt, gains_after; [apply silent_load|]. intros _. apply gains_after; [done|]. intros s.
    destruct (_ || _); [apply gains_save|by apply gains_silent].
  - intros r. apply gains_silent, silent_bind; [done|]. intros _. apply silent_bind; [done|]. done.
Qed.

Lemma gains_guard_message operation o : o <> Health -> gains (fun _ => True) (WriteGuardMessage operation o).
Proof. intros Ho. unfold WriteGuardMessage. destruct (operationID _); [by apply gains_call|by apply gains_silent]. Qed.

(** What follows a successful probe in a healthy period [since]. *)
Definition settle_round (operation : string) (s : Status) (since t : Z) : cmd round :=
  if negb (bool_decide (State s = "ready")) && (t - since <? minute) then ret (Continue (Some since))
  else
    m ← (if negb (bool_decide (State s = "ready")) then mark_ready else ret (Some tt));
    match m with
    | None => ret (Continue (Some since))
    | Some _ =>
        (if coordinator TrialReady then call TrialReady else ret tt);;
        WriteGuardMessage operation GuardReady;;
        ret (Continue (Some since))
    end.
Lemma settle_round_gains operation s since w : healthy_since (Some since) w -> earns w (settle_round operation s since (now (trace w)) w).2.
Proof.
  intros (mid & s0 & p0 & Ht & Hm & Hn). unfold settle_round.
  destruct (negb (bool_decide (State s = "ready"))) eqn:Er; cbn [andb].
  - destruct (Z.ltb_spec (now (trace w) - since) minute) as [Hl|Hl]; [by apply earns_still|].
    assert (Hh : healthy_minute (trace w)) by (exists mid, s0, p0; split_and!; [done|done|lia]).
    revert w Ht Hl Hh. intros w _ _ Hh. revert w Hh. apply gains_bind; [apply gains_mark_ready|].
    intros [[]|]; [|by apply gains_silent].
    apply gains_bind; [destruct (coordinator _); [by apply gains_call|by apply gains_silent]|]. intros _.
    apply gains_bind; [by apply gains_guard_message|]. intros _. by apply gains_silent.
  - generalize Logic.I. revert w Ht. intros w _. revert w. apply (gains_bind (fun _ => True)); [by apply gains_silent|].
    intros [[]|]; [|by apply gains_silent].
    apply gains_bind; [destruct (coordinator _); [by apply gains_call|by apply gains_silent]|]. intros _.
    apply gains_bind; [by apply gains_guard_message|]. intros _. by apply gains_silent.
Qed.

Lemma settle_round_result operation s since t w r w' : settle_round operation s since t w = (Ok r, w') -> r = Continue (Some since).
Proof.
  unfold settle_round. destruct (_ && _); [by intros [= <- _]|]. unfold mbind, prog_mbind, bind.
  destruct ((if negb _ then mark_ready else ret (Some tt)) w) as [[[u|]|e] w1]; [|by intros [= <- _]|done].
  destruct ((if coordinator TrialReady then call TrialReady else ret tt) w1) as [[u1|e] w2]; [|done].
  destruct (WriteGuardMessage operation GuardReady w2) as [[u2|e] w3]; [by intros [= <- _]|done].
Qed.
Lemma saves_of_earns w w' : earns w w' -> saves_earned w w'.
Proof. intros (l & Ht & _ & Hs). by exists l. Qed.
Lemma saves_earned_trans w1 w2 w3 : saves_earned w1 w2 -> saves_earned w2 w3 -> saves_earned w1 w3.
Proof.
  intros (l & Ht & Hs) (m & Ht2 & Hs2). exists (m ++ l). split; [by rewrite Ht2, Ht, app_assoc|].
  intros l1 s ok ap l2 Hl. apply app_eq_app in Hl as (k & [[-> Hk]|[-> Hk]]).
  - destruct k as [|e k]; cbn in Hk.
    + destruct l as [|e' l]; [done|]. injection Hk as <- <-. by apply (Hs [] s ok ap).
    + injection Hk as <- ->. rewrite <- app_assoc, <- Ht. by eapply (Hs2 l1).
  - by apply (Hs k s ok ap).
Qed.

Definition continues (r : result Error round) (w : W) : Prop :=
  match r with Ok (Continue st) => healthy_since st w | _ => True end.
Lemma round_earns operation stable w : healthy_since stable w ->
  post (supervise_round operation stable) (fun r w' => saves_earned w w' /\ continues r w') w.
Proof.
  intros Hst. unfold supervise_round. apply post_bind. unfold post at 1. pose proof (silent_load w) as Hl.
  destruct (load w) as [[[]|e] w1]; cbn [fst snd] in *; [|split; [by apply saves_of_earns, earns_still|done]].
  apply post_bind. unfold post at 1. cbn [current fst snd]. set (s := cur w1).
  assert (Hq : forall r : round, continues (Ok r) w1 -> post (ret r) (fun r w' => saves_earned w w' /\ continues r w') w1).
  { intros r Hr. split; [by apply saves_of_earns, earns_still|done]. }
  assert (Hst1 : healthy_since stable w1) by (unfold healthy_since in *; by rewrite Hl).
  destruct (decide (State s = "committed")).
  { destruct (CommitFinalized s); [|by apply Hq]. apply post_bind. unfold post at 1.
    pose proof (gains_guard_message operation GuardCommitted ltac:(done) w1 Logic.I) as Hg.
    assert (Hg' : saves_earned w (WriteGuardMessage operation GuardCommitted w1).2).
    { apply saves_of_earns. eapply earns_trans; [by apply earns_still|exact Hg]. }
    destruct (WriteGuardMessage operation GuardCommitted w1) as [[[]|e0] w2]; by split. }
  destruct (decide (State s = "recovering")); [by apply Hq|].
  apply post_bind, post_attempt. unfold post at 1.
  set (b := match answer Health (cur w1) (trace w1) with None => true | Some _ => false end).
  set (w2 := log (ECall Health (cur w1) b) w1).
  replace (call Health w1) with (match answer Health (cur w1) (trace w1) with None => Ok tt | Some m => Err (ErrText m) end, w2) by done.
  cbn [fst snd].
  assert (H2 : saves_earned w w2).
  { exists [ECall Health (cur w1) b]. split; [subst w2; cbn; by rewrite Hl|].
    intros [|? [|? ?]] ? ? ? ? Hx; discriminate Hx. }
  destruct (answer Health (cur w1) (trace w1)) as [m|] eqn:Ea; [by split|].
  assert (Hb : b = true) by done.
  apply post_bind. unfold post at 1. cbn [get fst snd]. set (t := now (trace w2)). fold (settle_round operation s (default t stable) t).
  assert (Hsi : healthy_since (Some (default t stable)) w2).
  { destruct stable as [t0|]; cbn [default].
    - eapply healthy_since_earns; [exact Hst1|]. eapply earns_event; [reflexivity| |done]. intros s' Hx. injection Hx as _ Hx. congruence.
    - exists [], (cur w1), (trace w1). split_and!; [done| |done]. intros s' Hin. by apply elem_of_nil in Hin. }
  pose proof (settle_round_gains operation s _ w2 Hsi) as He. fold t in He. unfold post.
  destruct (settle_round _ _ _ _ w2) as [r w3] eqn:Er. cbn [fst snd] in *. split.
  - eapply saves_earned_trans; [exact H2|by apply saves_of_earns].
  - destruct r as [r|e]; [|done]. rewrite (settle_round_result _ _ _ _ _ _ _ Er). by eapply healthy_since_earns.
Qed.

Lemma loop_earns ticks operation stable w : healthy_since stable w -> saves_earned w (supervise_loop ticks operation stable w).2.
Proof.
  revert stable w. induction ticks as [|n IH]; intros stable w Hst; [by apply saves_of_earns, earns_still|].
  cbn [supervise_loop]. unfold mbind, prog_mbind, bind. pose proof (round_earns operation stable w Hst) as [Hs Hc].
  unfold post in *. destruct (supervise_round operation stable w) as [[[st|]|e] w1]; cbn in *; try done.
  eapply saves_earned_trans; [exact Hs|by apply IH].
Qed.
End Ready.

(** * Properties *)

(** C10. The guard's refinement: a guard whose process is killed and restarted
    any number of times, each process with a monotonic clock of its own,
    decides exactly as a guard with one clock that was never interrupted: it
    waits with the same deadline, ends when the commit is confirmed, or reboots
    the host, at the same tick. *)
Theorem guard_refines_watch (token : string) (se : session) (rest : list session)
  (Hlater : later_sessions (se_boot se) (se :: rest)) (Hsteady : Forall steady_session (se :: rest)) :
  exists v off, guarded token Absent (se :: rest) = Some v /\
    matches token off v (watch token (mkWatch (se_boot se) None 0) ((se :: rest) ≫= se_ticks)).
Proof. by apply first_session_refines. Qed.

(** C11. The guard's deadline, restarts included: as long as it is still
    waiting, every tick so far was less than ten minutes after the guard first
    started, or less than a minute after a tick that reported the trial ready. *)
Theorem guard_deadline (token : string) (se : session) (rest : list session) (g : GuardState) (sv : savedGuard)
  (Hlater : later_sessions (se_boot se) (se :: rest)) (Hsteady : Forall steady_session (se :: rest))
  (Hwaiting : guarded token Absent (se :: rest) = Some (Waiting g sv)) :
  forall t, t ∈ (se :: rest) ≫= se_ticks ->
    t_boot t < se_boot se + 10 * minute \/
    exists u, u ∈ (se :: rest) ≫= se_ticks /\ reports_ready token u /\ t_boot t < t_boot u + minute.
Proof.
  intros t Hin. destruct (first_session_refines token se rest Hlater Hsteady) as (v & off & Hv & Hm).
  rewrite Hwaiting in Hv. injection Hv as <-. unfold matches in Hm.
  destruct (watch _ _ _) as [x| |] eqn:Ew; try done.
  destruct (watch_deadline _ _ _ _ Ew t Hin) as [Ht|[(b & Hb & _)|Hu]]; [by left|discriminate Hb|by right].
Qed.

(** The trial is journalled as ready only after a minute of uninterrupted
    health: whenever [Supervise] writes the journal, a probe succeeded at least
    a minute before and none failed since. *)
Theorem ready_after_a_minute `{Env} (ticks : nat) (w : W) :
  forall l1 s ok applied l2, trace (Supervise ticks w).2 = l1 ++ ESave s ok applied :: l2 ++ trace w ->
    healthy_minute (l2 ++ trace w).
Proof.
  assert (He : saves_earned w (Supervise ticks w).2).
  { unfold Supervise, mbind, prog_mbind, bind. pose proof (silent_load w) as Hl.
    destruct (load w) as [[[]|e] w1]; cbn in Hl; [|by apply saves_of_earns, earns_still].
    cbn. destruct (_ && _); [by apply saves_of_earns, earns_still|].
    eapply saves_earned_trans; [by apply saves_of_earns, earns_still|]. by apply loop_earns. }
  destruct He as (l & Ht & Hs). intros l1 s ok ap l2 Htr. rewrite Ht in Htr. apply (Hs l1 s ok ap).
  apply (app_inv_tail (trace w)). by rewrite Htr, <- app_assoc.
Qed.

(** ** Witnesses *)

(** Two heartbeats, a crash of the guard between them, then silence. *)
Definition beat_at (t nonce : Z) (off : Z) : tick :=
  mkTick (t + off) t (Some (mkMessage "op1" "ready" nonce)) None true.
Definition silence_at (t off : Z) : tick := mkTick (t + off) t None None true.
Definition first_run : session := mkSession (500 * second) second [silence_at (300 * second) (499 * second); beat_at (590 * second) 7 (499 * second)].
Definition second_run : session :=
  mkSession second (600 * second) [beat_at (600 * second) 7 (- (599) * second); beat_at (630 * second) 8 (- (599) * second)].
Definition third_run : session := mkSession (5 * second) (680 * second) [silence_at (680 * second) (- (675) * second); silence_at (690 * second) (- (675) * second)].

Lemma runs_steady : later_sessions (se_boot first_run) [first_run; second_run; third_run] /\
  Forall steady_session [first_run; second_run; third_run].
Proof.
  split.
  - split; [by vm_compute|]. repeat (apply Forall_cons; split; [by vm_compute|]). by apply Forall_nil.
  - repeat (apply Forall_cons; split; [repeat (apply Forall_cons; split; [by vm_compute|]); by apply Forall_nil|]). by apply Forall_nil.
Qed.

Lemma guard_refines_watch_witness : exists v off, guarded "op1" Absent [first_run; second_run; third_run] = Some v /\
  matches "op1" off v HostRebooted.
Proof.
  destruct runs_steady as [Hl Hs].
  destruct (guard_refines_watch "op1" first_run [second_run; third_run] Hl Hs) as (v & off & Hv & Hm).
  exists v, off. split; [exact Hv|]. exact Hm.
Defined.

Lemma guard_deadline_witness : exists u, u ∈ se_ticks first_run ++ se_ticks second_run /\ reports_ready "op1" u /\
  630 * second < t_boot u + minute.
Proof.
  assert (Hl : later_sessions (se_boot first_run) [first_run; second_run] /\ Forall steady_session [first_run; second_run]).
  { destruct runs_steady as [[Hp Hl] Hs]. split; [split; [exact Hp|]|].
    - exact (Forall_take _ 2 _ Hl).
    - exact (Forall_take _ 2 _ Hs). }
  assert (Hg : exists g sv, guarded "op1" Absent [first_run; second_run] = Some (Waiting g sv)).
  { eexists _, _. vm_compute. reflexivity. }
  destruct Hg as (g & sv & Hg).
  destruct (guard_deadline "op1" first_run [second_run] g sv (proj1 Hl) (proj2 Hl) Hg (beat_at (630 * second) 8 (- (599) * second)))
    as [Ht|(u & Hu & Hr & Ht)].
  - apply list_elem_of_In. right. right. right. left. reflexivity.
  - exfalso. revert Ht. vm_compute. discriminate.
  - exists u. split; [exact Hu|]. split; [exact Hr|exact Ht].
Defined.

Definition in_trial_world : W := world_at (after Recovering (after (Acting example_request "activate") staged_trace)).
Lemma ready_after_a_minute_witness : exists l2, @healthy_minute smooth (l2 ++ trace in_trial_world).
Proof.
  assert (He : exists l1 s ok applied l2,
    trace (@Supervise smooth 8 in_trial_world).2 = l1 ++ ESave s ok applied :: l2 ++ trace in_trial_world).
  { pose (tr := trace (@Supervise smooth 8 in_trial_world).2).
    exists (take 5 tr), (match drop 5 tr with ESave s _ _ :: _ => s | _ => zero_status end), true, true,
      (take (length tr - 6 - length (trace in_trial_world)) (drop 6 tr)).
    vm_compute. reflexivity. }
  destruct He as (l1 & s & ok & applied & l2 & Htr). exists l2.
  exact (@ready_after_a_minute smooth 8 in_trial_world l1 s ok applied l2 Htr).
Defined.
