(* ===== verification/Lifecycle.v ===== *)
(** Replicated lifecycle state: the log entries and the state machine of
    [src/pkg/run/events.go] and [src/pkg/raft/fsm.go], the local node of
    [src/pkg/raft/local.go], and the orchestrator's use of them
    ([src/internal/orchestrator/orchestrator.go]). *)
From S2P Require Import Prelude Update Run.

Open Scope string_scope.

(** ** Entries and instances *)

(** [StackStateChanged]. *)
Record StackStateChanged := mkEntry {
  StackID : string; EFrom : string; ETo : string; EEvent : string; Timestamp : Z; NodeID : string }.
#[export] Instance StackStateChanged_eq_dec : EqDecision StackStateChanged.
Proof. solve_decision. Defined.
#[export] Instance StackInstance_eq_dec : EqDecision StackInstance.
Proof. solve_decision. Defined.

(** [&run.StackInstance{ID: id}]; the zero time. *)
Definition fresh_instance (id : string) : StackInstance := mkInstance id "" "" "" 0.

(** ** The state machine *)

(** A subscriber's channel holds 64 entries, oldest first. *)
Definition capacity : nat := 64.

Record FSM := mkFSM {
  stacks : gmap string StackInstance;
  subs : gmap N (list StackStateChanged);
  closed : gset N;
  nextID : N }.

Definition NewFSM : FSM := mkFSM ∅ ∅ ∅ 0.

Definition Subscribe (f : FSM) : N * FSM :=
  (nextID f, mkFSM (stacks f) (<[nextID f := []]> (subs f)) (closed f) (nextID f + 1)).

(** The function [Subscribe] returns; [None] when closing a closed channel panics. *)
Definition unsubscribe (id : N) (f : FSM) : option FSM :=
  if decide (id ∈ closed f) then None
  else Some (mkFSM (stacks f) (delete id (subs f)) ({[id]} ∪ closed f) (nextID f)).

(** A receive on a subscriber's channel. *)
Definition receive (id : N) (f : FSM) : option StackStateChanged * FSM :=
  match subs f !! id with
  | Some (e :: l) => (Some e, mkFSM (stacks f) (<[id := l]> (subs f)) (closed f) (nextID f))
  | _ => (None, f)
  end.

Definition offer (e : StackStateChanged) (ch : list StackStateChanged) : list StackStateChanged :=
  if (length ch <? capacity)%nat then (ch ++ [e])%list else ch.
Definition fanOut (e : StackStateChanged) (f : FSM) : FSM :=
  mkFSM (stacks f) (offer e <$> subs f) (closed f) (nextID f).

Definition apply_instance (e : StackStateChanged) (inst : StackInstance) : StackInstance :=
  mkInstance (ID inst) (ETo e) (InstState inst) (LockedBy inst) (Timestamp e).

(** [Apply]; [None]: data that does not decode. *)
Definition FSM_Apply (data : option StackStateChanged) (f : FSM) : result string unit * FSM :=
  match data with
  | None => (Err "fsm: unmarshal", f)
  | Some e =>
      let inst := default (fresh_instance (StackID e)) (stacks f !! StackID e) in
      (Ok tt, fanOut e (mkFSM (<[StackID e := apply_instance e inst]> (stacks f)) (subs f) (closed f) (nextID f)))
  end.

Definition Snapshot (f : FSM) : gmap string StackInstance := stacks f.
Definition FSM_Restore (data : option (gmap string StackInstance)) (f : FSM) : result string unit * FSM :=
  match data with
  | None => (Err "fsm: restore", f)
  | Some st => (Ok tt, mkFSM st (subs f) (closed f) (nextID f))
  end.
Definition FSM_State (id : string) (f : FSM) : option StackInstance := stacks f !! id.

(** ** The local node *)

(** The rows of [workload_lifecycle]: what decodes from [entry]. *)
Abbreviation rows := (gmap string (option StackStateChanged)).

Record Node := mkNode { fsm : FSM; db : rows }.

Definition row_le (a b : string * option StackStateChanged) : Prop := bytes_ltb (chars b.1) (chars a.1) = false.
#[export] Instance row_le_dec : RelDecision row_le.
Proof. intros a b. unfold row_le. apply _. Defined.

Fixpoint load_rows (nodeID : string) (l : list (option StackStateChanged)) (f : FSM) : result string FSM :=
  match l with
  | [] => Ok f
  | None :: _ => Err "invalid persisted lifecycle entry"
  | Some e :: l =>
      if negb (bool_decide (NodeID e = "")) && negb (bool_decide (NodeID e = nodeID))
      then Err "persisted lifecycle belongs to another node"
      else match FSM_Apply (Some e) f with
           | (Ok _, f) => load_rows nodeID l f
           | (Err m, _) => Err m
           end
  end.

(** [NewLocalNode] on the rows found; [localPath] and [identity] are the
    database's, [io] tells whether its calls succeed. *)
Definition NewLocalNode (io : bool) (localPath identity nodeID : string) (found : rows) : result string Node :=
  if bool_decide (localPath = "") || bool_decide (nodeID = "")
  then Err "local lifecycle requires a local database and node identity"
  else if negb io then Err "database"
  else if negb (bool_decide (identity = nodeID)) then Err "lifecycle database belongs to another node"
  else
    f ← load_rows nodeID (merge_sort row_le (map_to_list found)).*2 NewFSM;
    Ok (mkNode f found).

(** What an [Execute] of the database did and what it reported: a failure may
    come after the write. *)
Inductive outcome := Done | Refused | Unreported.
#[export] Instance outcome_eq_dec : EqDecision outcome.
Proof. solve_decision. Defined.

Definition applyLocal (nodeID : string) (e : StackStateChanged) (o : outcome) (n : Node) : result string unit * Node :=
  if negb (bool_decide (NodeID e = "")) && negb (bool_decide (NodeID e = nodeID))
  then (Err "workload lifecycle belongs to another node", n)
  else
    let written := <[StackID e := Some e]> (db n) in
    match o with
    | Refused => (Err "database", n)
    | Unreported => (Err "database", mkNode (fsm n) written)
    | Done =>
        match FSM_Apply (Some e) (fsm n) with
        | (Ok _, f) => (Ok tt, mkNode f written)
        | (Err m, f) => (Err m, mkNode f written)
        end
    end.

(** ** The orchestrator *)

(** [applyEvent]: the entry proposed for [ev], or nothing when the state
    machine refuses it; [now1] and [now2] are the two clock readings. *)
Definition applyEvent (f : FSM) (nodeID stackID ev : string) (now1 now2 : Z) : option StackStateChanged :=
  let inst := default (fresh_instance stackID) (FSM_State stackID f) in
  match Apply now1 inst ev with
  | Ok updated => Some (mkEntry stackID (InstState inst) (InstState updated) ev now2 nodeID)
  | Err _ => None
  end.

Inductive Work := DoProvision | DoStart | DoStop.

(** [handleStateChange]: the work launched for an entry, and the dispatched
    transitions. *)
Definition handleStateChange (leader : bool) (f : FSM) (entry : StackStateChanged) (dispatched : gmap string Z) :
  option Work * gmap string Z :=
  if negb leader then (None, dispatched)
  else match FSM_State (StackID entry) f with
  | None => (None, dispatched)
  | Some current =>
      if negb (bool_decide (InstState current = ETo entry)) || negb (UpdatedAt current =? Timestamp entry)%Z
      then (None, dispatched)
      else if bool_decide (dispatched !! StackID entry = Some (Timestamp entry)) then (None, dispatched)
      else
        (if decide (ETo entry = StateProvisioning) then Some DoProvision
         else if decide (ETo entry = StateStarting) then Some DoStart
         else if decide (ETo entry = StateStopping) then Some DoStop else None,
         <[StackID entry := Timestamp entry]> dispatched)
  end.

(** [resume] on the stacks of the active operations. *)
Fixpoint resume (leader : bool) (f : FSM) (operations : list string) (dispatched : gmap string Z) :
  list (string * Work) * gmap string Z :=
  match operations with
  | [] => ([], dispatched)
  | id :: operations =>
      match FSM_State id f with
      | None => resume leader f operations dispatched
      | Some inst =>
          let '(w, dispatched) := handleStateChange leader f (mkEntry id "" (InstState inst) "" (UpdatedAt inst) "") dispatched in
          let '(ws, dispatched) := resume leader f operations dispatched in
          (match w with Some w => (id, w) :: ws | None => ws end, dispatched)
      end
  end.
