(* ===== verification/LifecycleSafety.v ===== *)
(** What the lifecycle store promises: acknowledged transitions survive
    restarts of a local node, and the orchestrator launches each transition's
    work once, for the current state only. *)
From S2P Require Import Prelude Update Run Lifecycle.

Open Scope string_scope.
Open Scope list_scope.

(** The instance of [id] is the one entry [e] leads to. *)
Definition shows (f : FSM) (id : string) (e : StackStateChanged) : Prop :=
  exists inst, FSM_State id f = Some inst /\ ID inst = id /\ InstState inst = ETo e /\ UpdatedAt inst = Timestamp e.

Lemma FSM_Apply_ok e f : exists f', FSM_Apply (Some e) f = (Ok tt, f') /\
  stacks f' = <[StackID e := apply_instance e (default (fresh_instance (StackID e)) (stacks f !! StackID e))]> (stacks f).
Proof. by eexists. Qed.

(** Instances carry the identity they are stored under. *)
Definition keyed (f : FSM) : Prop := forall id inst, stacks f !! id = Some inst -> ID inst = id.

Lemma FSM_Apply_keyed e f f' : keyed f -> FSM_Apply (Some e) f = (Ok tt, f') -> keyed f'.
Proof.
  intros Hk [= <-] id inst. cbn. rewrite lookup_insert_Some. intros [[<- <-]|[_ Hi]]; [|by apply Hk]. cbn.
  destruct (stacks f !! StackID e) as [i|] eqn:E; [by apply Hk|done].
Qed.
Lemma FSM_Apply_shows e f f' : keyed f -> FSM_Apply (Some e) f = (Ok tt, f') -> shows f' (StackID e) e.
Proof.
  intros Hk [= <-]. eexists. split; [apply lookup_insert_eq|]. cbn. split_and!; try done.
  destruct (stacks f !! StackID e) as [i|] eqn:E; [by apply Hk|done].
Qed.
Lemma FSM_Apply_other e f f' id : FSM_Apply (Some e) f = (Ok tt, f') -> StackID e <> id -> FSM_State id f' = FSM_State id f.
Proof. intros [= <-] Hne. by apply lookup_insert_ne. Qed.

(** ** Loading *)

Definition accepted (nodeID : string) (e : StackStateChanged) : Prop := NodeID e = "" \/ NodeID e = nodeID.

Lemma accepted_guard nodeID e : accepted nodeID e ->
  negb (bool_decide (NodeID e = "")) && negb (bool_decide (NodeID e = nodeID)) = false.
Proof.
  intros [E|E]; rewrite (bool_decide_eq_true_2 _ E); [done|]. apply andb_false_r.
Qed.

Lemma load_rows_ok nodeID l f : keyed f -> Forall (accepted nodeID) l -> NoDup (StackID <$> l) ->
  exists f', load_rows nodeID (Some <$> l) f = Ok f' /\ keyed f' /\
    forall id, FSM_State id f' = match list_find (fun e => StackID e = id) l with
      | Some (_, e) => Some (apply_instance e (default (fresh_instance id) (FSM_State id f)))
      | None => FSM_State id f end.
Proof.
  revert f. induction l as [|e l IH]; intros f Hk Ha Hn; [by exists f|].
  apply Forall_cons in Ha as [He Ha]. apply NoDup_cons in Hn as [Hni Hn].
  cbn [fmap list_fmap load_rows]. rewrite (accepted_guard _ _ He).
  destruct (FSM_Apply (Some e) f) as [r f1] eqn:Ef. assert (r = Ok tt) as -> by (by injection Ef as <- <-).
  destruct (IH f1) as (f' & -> & Hk' & Hl); [by eapply FSM_Apply_keyed|done|done|]. exists f'. split_and!; [done|done|].
  intros id. rewrite Hl. cbn [list_find]. destruct (decide (StackID e = id)) as [<-|Hne].
  - destruct (list_find _ l) as [[i e']|] eqn:El.
    { apply list_find_Some in El as (Hi & Hid & _). destruct Hni. apply list_elem_of_fmap. exists e'. split; [done|].
      by eapply list_elem_of_lookup_2. }
    injection Ef as <-. unfold FSM_State, fanOut. cbn [stacks]. by rewrite lookup_insert_eq.
  - destruct (list_find _ l) as [[i e']|] eqn:El; cbn; by rewrite (FSM_Apply_other _ _ _ _ Ef).
Qed.

(** Rows as [applyLocal] writes them. *)
Definition sane (nodeID : string) (d : rows) : Prop :=
  forall k o, d !! k = Some o -> exists e, o = Some e /\ StackID e = k /\ accepted nodeID e.

Lemma sane_rows nodeID d : sane nodeID d -> exists l, (merge_sort row_le (map_to_list d)).*2 = Some <$> l /\
  Forall (accepted nodeID) l /\ NoDup (StackID <$> l) /\ forall e, e ∈ l <-> d !! StackID e = Some (Some e).
Proof.
  intros Hs. set (L := merge_sort row_le (map_to_list d)).
  assert (HL : L ≡ₚ map_to_list d) by apply merge_sort_Permutation.
  assert (Hel : forall k o, (k, o) ∈ L <-> d !! k = Some o) by (intros k o; rewrite HL; apply elem_of_map_to_list).
  assert (Hnd : NoDup L.*1) by (rewrite HL; apply NoDup_fst_map_to_list).
  assert (Hall : Forall (fun p => exists e, p.2 = Some e /\ StackID e = p.1 /\ accepted nodeID e) L).
  { apply Forall_forall. intros [k o] Hin%Hel. by apply Hs. }
  clearbody L. clear HL.
  assert (Hx : exists l, L.*2 = Some <$> l /\ L = (fun e => (StackID e, Some e)) <$> l /\ Forall (accepted nodeID) l).
  { clear Hel Hnd. induction Hall as [|[k o] L (e & Ho & Hk & Ha) _ (l & E1 & E2 & Hl)]; [by exists []|].
    cbn in Ho, Hk. exists (e :: l). rewrite Ho, <- Hk. cbn. split_and!; [by rewrite E1|by rewrite E2|by constructor]. }
  destruct Hx as (l & E1 & E2 & Hl). exists l. split_and!; [done|done| |].
  - rewrite E2, <- list_fmap_compose in Hnd. exact Hnd.
  - intros e. rewrite <- Hel, E2, list_elem_of_fmap. split; [intros He; by exists e|]. by intros (e' & [= _ <-] & He).
Qed.

Lemma NewLocalNode_ok path nodeID d : path <> "" -> nodeID <> "" -> sane nodeID d ->
  exists f, NewLocalNode true path nodeID nodeID d = Ok (mkNode f d) /\ keyed f /\
    forall id, match d !! id with
      | Some (Some e) => shows f id e /\ exists inst, FSM_State id f = Some inst /\ PreviousState inst = ""
      | _ => FSM_State id f = None end.
Proof.
  intros Hp Hn Hs. destruct (sane_rows _ _ Hs) as (l & El & Ha & Hd & Hin).
  destruct (load_rows_ok nodeID l NewFSM) as (f & Hf & Hk & Hst); [done|done|done|].
  exists f. unfold NewLocalNode. rewrite !bool_decide_eq_false_2 by done. cbn [orb negb]. rewrite bool_decide_eq_true_2 by done. cbn [negb].
  rewrite El. unfold mbind, result_mbind. rewrite Hf. split_and!; [done|done|]. intros id. specialize (Hst id).
  destruct (d !! id) as [o|] eqn:Ed.
  - destruct (Hs _ _ Ed) as (e & -> & <- & _). destruct (list_find _ l) as [[i e']|] eqn:Efd.
    + apply list_find_Some in Efd as (Hi & Hid & _). apply list_elem_of_lookup_2, Hin in Hi. rewrite Hid, Ed in Hi. injection Hi as <-.
      split; [eexists; split; [exact Hst|done]|]. eexists. split; [exact Hst|]. done.
    + exfalso. apply list_find_None in Efd. rewrite Forall_forall in Efd. by apply (Efd e); [apply Hin|].
  - destruct (list_find _ l) as [[i e']|] eqn:Efd; [|done].
    apply list_find_Some in Efd as (Hi & Hid & _). apply list_elem_of_lookup_2, Hin in Hi. by rewrite Hid, Ed in Hi.
Qed.

(** ** Histories of a local node *)

(** What happened to a node, latest first: a transition that was proposed to it,
    whether the call reported success and whether its row was written; and
    restarts. *)
Inductive call := Tried (e : StackStateChanged) (reported written : bool) | Restarted.

Fixpoint last_reported (id : string) (l : list call) : option StackStateChanged :=
  match l with
  | [] => None
  | Tried e true _ :: l => if decide (StackID e = id) then Some e else last_reported id l
  | _ :: l => last_reported id l
  end.
Fixpoint last_written (id : string) (l : list call) : option StackStateChanged :=
  match l with
  | [] => None
  | Tried e _ true :: l => if decide (StackID e = id) then Some e else last_written id l
  | _ :: l => last_written id l
  end.
(** In memory: the last transition reported since the last restart, or what was
    written before that. *)
Fixpoint shown (id : string) (l : list call) : option StackStateChanged :=
  match l with
  | [] => None
  | Tried e true _ :: l => if decide (StackID e = id) then Some e else shown id l
  | Tried _ false _ :: l => shown id l
  | Restarted :: l => last_written id l
  end.
(** [e] was written though its call reported a failure, and nothing was reported
    for its stack since. *)
Definition unreported (id : string) (e : StackStateChanged) (since l : list call) : Prop := exists before,
  l = since ++ Tried e false true :: before /\ StackID e = id /\ last_reported id since = None.

Section Histories.
Variable nodeID : string.

(** Transitions whose database call may fail before or after the write, and
    restarts on the rows found. *)
Inductive history : Node -> list call -> Prop :=
| hist_new : history (mkNode NewFSM ∅) []
| hist_apply e o n l : history n l -> accepted nodeID e ->
    history (applyLocal nodeID e o n).2 (Tried e (is_ok (applyLocal nodeID e o n).1) (negb (bool_decide (o = Refused))) :: l)
| hist_foreign e o n l : history n l -> ~ accepted nodeID e ->
    history (applyLocal nodeID e o n).2 (Tried e (is_ok (applyLocal nodeID e o n).1) false :: l)
| hist_restart path n n' l : history n l -> NewLocalNode true path nodeID nodeID (db n) = Ok n' -> history n' (Restarted :: l).
End Histories.

Definition shows_that (f : FSM) (id : string) (o : option StackStateChanged) : Prop :=
  match o with Some e => shows f id e | None => FSM_State id f = None end.

Record consistent (nodeID : string) (n : Node) (l : list call) : Prop := {
  co_keyed : keyed (fsm n);
  co_sane : sane nodeID (db n);
  co_memory : forall id, shows_that (fsm n) id (shown id l);
  co_durable : forall id, db n !! id = Some <$> last_written id l }.

Lemma sane_insert nodeID e d : accepted nodeID e -> sane nodeID d -> sane nodeID (<[StackID e := Some e]> d).
Proof. intros He Hs k o. rewrite lookup_insert_Some. intros [[<- <-]|[_ Hk]]; [by exists e|by apply Hs]. Qed.

Lemma foreign_guard nodeID e : ~ accepted nodeID e -> negb (bool_decide (NodeID e = "")) && negb (bool_decide (NodeID e = nodeID)) = true.
Proof. unfold accepted. intros Hn. by rewrite !bool_decide_eq_false_2 by tauto. Qed.

Lemma consistent_apply nodeID e o n l : consistent nodeID n l -> accepted nodeID e ->
  consistent nodeID (applyLocal nodeID e o n).2 (Tried e (is_ok (applyLocal nodeID e o n).1) (negb (bool_decide (o = Refused))) :: l).
Proof.
  intros [C1 C2 C3 C4] He. unfold applyLocal. rewrite (accepted_guard _ _ He).
  assert (Hrow : forall id, <[StackID e := Some e]> (db n) !! id = Some <$> (if decide (StackID e = id) then Some e else last_written id l)).
  { intros id. case_decide as Hid; [rewrite <- Hid; apply lookup_insert_eq|by rewrite lookup_insert_ne]. }
  destruct o; cbn [is_ok fst snd].
  - destruct (FSM_Apply (Some e) (fsm n)) as [r f] eqn:Ef. assert (r = Ok tt) as -> by (by injection Ef as <- <-). cbn.
    split; [by eapply FSM_Apply_keyed|by apply sane_insert| |exact Hrow]. intros id. cbn. case_decide as Hid.
    + rewrite <- Hid. by eapply FSM_Apply_shows.
    + specialize (C3 id). unfold shows_that, shows in *. by rewrite (FSM_Apply_other _ _ _ _ Ef Hid).
  - by split.
  - split; [done|by apply sane_insert|exact C3|exact Hrow].
Qed.
Lemma consistent_foreign nodeID e o n l : consistent nodeID n l -> ~ accepted nodeID e ->
  consistent nodeID (applyLocal nodeID e o n).2 (Tried e (is_ok (applyLocal nodeID e o n).1) false :: l).
Proof. intros [C1 C2 C3 C4] He. unfold applyLocal. rewrite (foreign_guard _ _ He). by split. Qed.

Lemma consistent_restart path nodeID n n' l : consistent nodeID n l ->
  NewLocalNode true path nodeID nodeID (db n) = Ok n' -> consistent nodeID n' (Restarted :: l).
Proof.
  intros [C1 C2 C3 C4] Hr.
  assert (Hp : path <> "" /\ nodeID <> "").
  { unfold NewLocalNode in Hr. destruct (_ || _) eqn:E; [done|]. to_prop. done. }
  destruct (NewLocalNode_ok path nodeID (db n)) as (f & Hf & Hk & Hst); [tauto|tauto|done|].
  rewrite Hf in Hr. injection Hr as <-. split; cbn [fsm db shown last_written]; [done|done| |done].
  intros id. specialize (Hst id). rewrite C4 in Hst. destruct (last_written id l); cbn in *; tauto.
Qed.

Lemma history_consistent nodeID n l : history nodeID n l -> consistent nodeID n l.
Proof.
  induction 1 as [|e o n l _ IH He|e o n l _ IH He|path n n' l _ IH Hr].
  - by split.
  - by apply consistent_apply.
  - by apply consistent_foreign.
  - by eapply consistent_restart.
Qed.

(** Success is reported only of what was written. *)
Lemma reported_written nodeID n l e b : history nodeID n l -> Tried e true b ∈ l -> b = true.
Proof.
  induction 1 as [|e' o n l _ IH He|e' o n l _ IH He|path n n' l _ IH Hr]; intros Hin.
  - by apply elem_of_nil in Hin.
  - apply elem_of_cons in Hin as [Hx|]; [|auto]. revert Hx. unfold applyLocal. rewrite (accepted_guard _ _ He). by destruct o; cbn; intros [= _ ->].
  - apply elem_of_cons in Hin as [Hx|]; [|auto]. revert Hx. unfold applyLocal. rewrite (foreign_guard _ _ He). done.
  - apply elem_of_cons in Hin as [Hx|]; [done|auto].
Qed.

(** What was written last was reported last, or was not reported since. *)
Lemma written_or_unreported id l : (forall e b, Tried e true b ∈ l -> b = true) ->
  last_written id l = last_reported id l \/ exists e since, last_written id l = Some e /\ unreported id e since l.
Proof.
  induction l as [|c l IH]; intros Hw; [by left|].
  destruct IH as [IH|(e & since & IH & before & E & Hid & Hr)]; [intros e b Hin; apply (Hw e); apply elem_of_cons; by right|..].
  - destruct c as [e [|] b|]; cbn; [|destruct b; [case_decide as Hid|]|]; try by left.
    + assert (b = true) as -> by (apply (Hw e), elem_of_cons; by left). case_decide; by left.
    + right. exists e, []. split; [done|]. by exists l.
  - destruct c as [e' [|] b|]; cbn; [| |right; exists e, (Restarted :: since); split; [done|]; exists before; by rewrite E].
    + assert (b = true) as -> by (apply (Hw e'), elem_of_cons; by left). case_decide as Hid'; [by left|]. right. exists e, (Tried e' true true :: since).
      split; [done|]. exists before. rewrite E. split_and!; [done|done|]. cbn. by rewrite decide_False.
    + destruct b; [case_decide as Hid'|]; right.
      * exists e', []. split; [done|]. by exists l.
      * exists e, (Tried e' false true :: since). split; [done|]. exists before. by rewrite E.
      * exists e, (Tried e' false false :: since). split; [done|]. exists before. by rewrite E.
Qed.
Lemma shown_or_unreported id l : (forall e b, Tried e true b ∈ l -> b = true) ->
  shown id l = last_reported id l \/ exists e since, shown id l = Some e /\ Restarted ∈ since /\ unreported id e since l.
Proof.
  induction l as [|c l IH]; intros Hw; [by left|].
  assert (Hwl : forall e b, Tried e true b ∈ l -> b = true) by (intros e b Hin; apply (Hw e); apply elem_of_cons; by right).
  specialize (IH Hwl). destruct c as [e' [|] b|]; cbn.
  - case_decide as Hid'; [by left|]. destruct IH as [IH|(e & since & IH & Hin & before & E & Hid & Hr)]; [by left|right].
    exists e, (Tried e' true b :: since). split; [done|]. split; [apply elem_of_cons; by right|]. exists before. rewrite E.
    split_and!; [done|done|]. cbn. by rewrite decide_False.
  - destruct IH as [IH|(e & since & IH & Hin & before & E & Hid & Hr)]; [by left|right].
    exists e, (Tried e' false b :: since). split; [done|]. split; [apply elem_of_cons; by right|]. exists before. by rewrite E.
  - destruct (written_or_unreported id l Hwl) as [->|(e & since & He & before & E & Hid & Hr)]; [by left|right].
    exists e, (Restarted :: since). split; [done|]. split; [apply elem_of_cons; by left|]. exists before. by rewrite E.
Qed.

(** ** Launching work *)

(** Notifications handled one after the other, each with the state machine as
    it is then. *)
Fixpoint dispatch (l : list (bool * FSM * StackStateChanged)) (d : gmap string Z) : list (string * Z * Work) * gmap string Z :=
  match l with
  | [] => ([], d)
  | (leader, f, e) :: l =>
      let '(w, d) := handleStateChange leader f e d in
      let '(ws, d) := dispatch l d in
      (match w with Some w => (StackID e, Timestamp e, w) :: ws | None => ws end, d)
  end.

(** The last transition of [id] was at [t]. *)
Definition current_at (id : string) (t : Z) (f : FSM) : Prop := exists inst, FSM_State id f = Some inst /\ UpdatedAt inst = t.
(** The state machine is in the state the entry leads to, since that entry. *)
Definition at_entry (f : FSM) (e : StackStateChanged) : Prop :=
  exists inst, FSM_State (StackID e) f = Some inst /\ InstState inst = ETo e /\ UpdatedAt inst = Timestamp e.
(** The work a state asks for. *)
Definition work_of (state : string) (w : Work) : Prop :=
  state = match w with DoProvision => StateProvisioning | DoStart => StateStarting | DoStop => StateStopping end.

Lemma at_entry_current f e : at_entry f e -> current_at (StackID e) (Timestamp e) f.
Proof. intros (inst & Hi & _ & Ht). by exists inst. Qed.
Lemma current_at_inj id t t' f : current_at id t f -> current_at id t' f -> t = t'.
Proof. intros (i & Hi & <-) (j & Hj & <-). congruence. Qed.

Lemma handle_cases leader f e d w d' : handleStateChange leader f e d = (w, d') ->
  (w = None /\ d' = d) \/
  (leader = true /\ at_entry f e /\ d !! StackID e <> Some (Timestamp e) /\ d' = <[StackID e := Timestamp e]> d /\
   forall x, w = Some x -> work_of (ETo e) x).
Proof.
  unfold handleStateChange. destruct leader; cbn [negb]; [|intros [= <- <-]; by left].
  destruct (FSM_State (StackID e) f) as [inst|] eqn:Ef; [|intros [= <- <-]; by left].
  destruct (negb (bool_decide (InstState inst = ETo e)) || _) eqn:Es; [intros [= <- <-]; by left|].
  destruct (bool_decide (d !! StackID e = _)) eqn:Ed; [intros [= <- <-]; by left|]. to_prop.
  intros [= <- <-]. right. split_and!; [done|by exists inst|done|done|]. intros x Hx. unfold work_of.
  repeat (destruct (decide _) in Hx; [by injection Hx as <-|]). done.
Qed.

Abbreviation notification := (bool * FSM * StackStateChanged)%type.
Definition machine (x : notification) : FSM := x.1.2.

(** Once a stack has left the transition of [t] it does not come back to it. *)
Definition no_return (l : list notification) : Prop :=
  forall id t l1 x l2, l = l1 ++ x :: l2 -> (exists y, y ∈ l1 /\ current_at id t (machine y)) ->
    ~ current_at id t (machine x) -> forall z, z ∈ l2 -> ~ current_at id t (machine z).

Lemma dispatch_blocked l0 l d id t : no_return (l0 ++ l) -> (exists y, y ∈ l0 /\ current_at id t (machine y)) ->
  (d !! id = Some t \/ forall z, z ∈ l -> ~ current_at id t (machine z)) ->
  forall w, (id, t, w) ∉ (dispatch l d).1.
Proof.
  revert l0 d. induction l as [|[[leader f] e] l IH]; intros l0 d Hnr Hy Hb w Hin; [by apply elem_of_nil in Hin|].
  cbn [dispatch] in Hin. destruct (handleStateChange leader f e d) as [x d'] eqn:Eh. destruct (dispatch l d') as [ws d2] eqn:Ed.
  assert (Hl0 : exists y, y ∈ l0 ++ [(leader, f, e)] /\ current_at id t (machine y)).
  { destruct Hy as (y & Hy & Hc). exists y. split; [apply elem_of_app; by left|done]. }
  assert (Hnr' : no_return ((l0 ++ [(leader, f, e)]) ++ l)) by (by rewrite <- app_assoc).
  assert (Hnext : (d' !! id = Some t \/ forall z, z ∈ l -> ~ current_at id t (machine z)) ->
    x = None \/ StackID e <> id \/ Timestamp e <> t -> False).
  { intros Hd' Hx. pose proof (IH _ d' Hnr' Hl0 Hd' w) as Hn. rewrite Ed in Hn. cbn in Hn.
    destruct x as [x|]; [|done]. apply elem_of_cons in Hin as [[= -> -> _]|Hin]; [|done]. destruct Hx as [?|[?|?]]; done. }
  destruct (handle_cases _ _ _ _ _ _ Eh) as [[-> ->]|(_ & Ha & Hne & -> & _)].
  - apply Hnext; [|by left]. destruct Hb as [Hb|Hb]; [by left|right]. intros z Hz. apply Hb, elem_of_cons. by right.
  - apply at_entry_current in Ha. destruct (decide (StackID e = id)) as [<-|Hid].
    + assert (Ht : Timestamp e <> t).
      { intros Ht. destruct Hb as [Hb|Hb]; [congruence|]. rewrite Ht in Ha. by apply (Hb (leader, f, e)); [apply elem_of_cons; left|]. }
      apply Hnext; [right|by right; right]. apply (Hnr (StackID e) t l0 (leader, f, e) l eq_refl Hy).
      intros Hc. by eapply Ht, current_at_inj.
    + apply Hnext; [|by right; left]. rewrite lookup_insert_ne by done.
      destruct Hb as [Hb|Hb]; [by left|right]. intros z Hz. apply Hb, elem_of_cons. by right.
Qed.

Lemma dispatch_nodup l0 l d : no_return (l0 ++ l) -> NoDup (fst <$> (dispatch l d).1).
Proof.
  revert l0 d. induction l as [|[[leader f] e] l IH]; intros l0 d Hnr; [constructor|].
  cbn [dispatch]. destruct (handleStateChange leader f e d) as [x d'] eqn:Eh. destruct (dispatch l d') as [ws d2] eqn:Ed.
  assert (Hnr' : no_return ((l0 ++ [(leader, f, e)]) ++ l)) by (by rewrite <- app_assoc).
  pose proof (IH _ d' Hnr') as Hn. rewrite Ed in Hn. cbn in Hn. destruct x as [x|]; [|done]. cbn.
  destruct (handle_cases _ _ _ _ _ _ Eh) as [[? _]|(_ & Ha & _ & -> & _)]; [done|].
  constructor; [|done]. intros ([[id t] w] & Hp & Hin)%list_elem_of_fmap. cbn in Hp. injection Hp as <- <-.
  apply (dispatch_blocked (l0 ++ [(leader, f, e)]) l (<[StackID e := Timestamp e]> d) (StackID e) (Timestamp e) Hnr') with w.
  - exists (leader, f, e). split; [apply elem_of_app; right; by apply list_elem_of_singleton|by apply at_entry_current].
  - left. apply lookup_insert_eq.
  - by rewrite Ed.
Qed.

Lemma dispatch_genuine l d id t w : (id, t, w) ∈ (dispatch l d).1 ->
  exists f e, (true, f, e) ∈ l /\ StackID e = id /\ Timestamp e = t /\ at_entry f e /\ work_of (ETo e) w.
Proof.
  revert d. induction l as [|[[leader f] e] l IH]; intros d Hin; [by apply elem_of_nil in Hin|]. cbn [dispatch] in Hin.
  destruct (handleStateChange leader f e d) as [x d'] eqn:Eh. destruct (dispatch l d') as [ws d2] eqn:Ed.
  assert (Hrest : (id, t, w) ∈ ws -> exists f0 e0, (true, f0, e0) ∈ (leader, f, e) :: l /\ StackID e0 = id /\ Timestamp e0 = t /\
    at_entry f0 e0 /\ work_of (ETo e0) w).
  { intros Hws. specialize (IH d'). rewrite Ed in IH. destruct (IH Hws) as (f0 & e0 & Hl & ?).
    exists f0, e0. split; [apply elem_of_cons; by right|done]. }
  destruct x as [x|]; [|by apply Hrest]. cbn in Hin. apply elem_of_cons in Hin as [[= -> -> ->]|Hin]; [|by apply Hrest].
  destruct (handle_cases _ _ _ _ _ _ Eh) as [[? _]|(-> & Ha & _ & _ & Hw)]; [done|].
  exists f, e. split_and!; [apply elem_of_cons; by left|done|done|done|by apply Hw].
Qed.

(** * Properties *)

(** C33. A local node refines the log of the calls it answered, through any
    history of transitions, writes that fail or are done but reported failed,
    and restarts.  It can always be restarted, which shows of every stack the
    transition written last, its previous state forgotten.  In memory it shows
    the last transition it reported as done since its last restart, or what was
    written before that.  So a stack is in the state of the last transition
    reported done, unless one was written after it whose call reported a
    failure: that one a restart brings to light. *)
Theorem local_node_refines_log (nodeID path : string) (n : Node) (l : list call)
  (H : history nodeID n l) (Hn : nodeID <> "") (Hp : path <> "") :
  exists n', NewLocalNode true path nodeID nodeID (db n) = Ok n' /\ forall id,
    shows_that (fsm n) id (shown id l) /\
    (shown id l = last_reported id l \/
       exists e since, shown id l = Some e /\ Restarted ∈ since /\ unreported id e since l) /\
    shows_that (fsm n') id (last_written id l) /\
    (forall inst, FSM_State id (fsm n') = Some inst -> PreviousState inst = "") /\
    (last_written id l = last_reported id l \/ exists e since, last_written id l = Some e /\ unreported id e since l).
Proof.
  destruct (history_consistent _ _ _ H) as [C1 C2 C3 C4].
  destruct (NewLocalNode_ok path nodeID (db n) Hp Hn C2) as (f & Hf & Hk & Hst).
  exists (mkNode f (db n)). split; [done|]. intros id. pose proof (fun e b => reported_written nodeID n l e b H) as Hw.
  split; [apply C3|]. split; [by apply shown_or_unreported|]. specialize (Hst id). rewrite C4 in Hst. cbn [fsm].
  assert (Hshow : shows_that f id (last_written id l) /\ forall inst, FSM_State id f = Some inst -> PreviousState inst = "").
  { destruct (last_written id l) as [e|]; cbn in Hst |- *; [|by rewrite Hst].
    destruct Hst as [Hs (inst & Hi & Hpr)]. split; [done|]. intros inst'. rewrite Hi. by intros [= <-]. }
  destruct Hshow as [Hs Hprev]. split; [done|]. split; [done|]. by apply written_or_unreported.
Qed.

(** The orchestrator launches work for a transition at most once, and only
    as the leader, while the stack is in the state that asks for that work:
    late, repeated and reordered notifications launch nothing, as long as a
    stack does not return to a transition it has left. *)
Theorem work_launched_once (l : list notification) (H : no_return l) :
  NoDup (fst <$> (dispatch l ∅).1) /\
  forall id t w, (id, t, w) ∈ (dispatch l ∅).1 ->
    exists f e, (true, f, e) ∈ l /\ StackID e = id /\ Timestamp e = t /\ at_entry f e /\ work_of (ETo e) w.
Proof.
  split; [by apply (dispatch_nodup [])|]. intros id t w. apply dispatch_genuine.
Qed.

(** ** Witnesses *)

Definition starting : StackStateChanged := mkEntry "web" "Idle" "Starting" "StartStack" 1 "node1".
Definition running : StackStateChanged := mkEntry "web" "Starting" "RunningPrimary" "StartDone" 2 "node1".
Definition half_reported : Node :=
  (applyLocal "node1" running Unreported (applyLocal "node1" starting Done (mkNode NewFSM ∅)).2).2.
Definition half_reported_calls : list call := [Tried running false true; Tried starting true true].
Lemma half_reported_history : history "node1" half_reported half_reported_calls.
Proof.
  apply (hist_apply "node1" running Unreported (applyLocal "node1" starting Done (mkNode NewFSM ∅)).2 [Tried starting true true]); [|by right].
  apply (hist_apply "node1" starting Done (mkNode NewFSM ∅) []); [apply hist_new|by right].
Qed.

(** [starting] was reported done and is shown; [running] was written though its
    call failed, and is what a restart shows. *)
Lemma local_node_refines_log_witness : last_reported "web" half_reported_calls = Some starting /\
  shows (fsm half_reported) "web" starting /\
  exists n', NewLocalNode true "db" "node1" "node1" (db half_reported) = Ok n' /\ shows (fsm n') "web" running.
Proof.
  destruct (local_node_refines_log "node1" "db" half_reported half_reported_calls half_reported_history)
    as (n' & Hn' & Hall); [discriminate|discriminate|].
  destruct (Hall "web") as (Hmem & _ & Hdur & _).
  assert (Em : shown "web" half_reported_calls = Some starting) by (vm_compute; reflexivity).
  assert (Ed : last_written "web" half_reported_calls = Some running) by (vm_compute; reflexivity).
  rewrite Em in Hmem. rewrite Ed in Hdur. split; [vm_compute; reflexivity|]. split; [exact Hmem|]. exists n'. exact (conj Hn' Hdur).
Defined.

(** A notification delivered twice, and one of a state already left. *)
Definition machine_of (e : StackStateChanged) : FSM := (FSM_Apply (Some e) NewFSM).2.
Definition deliveries : list notification :=
  [(true, machine_of starting, starting); (true, machine_of starting, starting); (true, machine_of running, starting)].

Lemma work_launched_once_witness : (dispatch deliveries ∅).1 = [("web", 1%Z, DoStart)] /\ NoDup (fst <$> (dispatch deliveries ∅).1).
Proof.
  split; [vm_compute; reflexivity|]. refine (proj1 (work_launched_once deliveries _)).
  intros id t l1 x l2 Hl (y & Hy & Hcy) Hnx z Hz Hcz.
  destruct l1 as [|x1 [|x2 [|x3 l1]]]; cbn in Hl; injection Hl as; subst.
  - inversion Hy.
  - apply list_elem_of_singleton in Hy. subst. exact (Hnx Hcy).
  - inversion Hz.
  - destruct l1; discriminate.
Defined.
