(* ===== verification/Failover.v ===== *)
(** Failover and failback of a stack between two nodes, and the detector that
    triggers it: [src/internal/failover/sequence.go] and [detector.go].  Node
    replies, the database, the Raft log, the IPAM lookups and the compose
    renderer answer from an environment; every call is recorded in a trace,
    latest first. *)
From S2P Require Import Prelude GoTime Timestamp Release Update Run Lifecycle.
From Stdlib Require Import Ascii.

Open Scope string_scope.

(** ** Data *)

(** [config.Stack], the columns the sequence reads. *)
Record Stack := mkStack {
  sk_ID : string; sk_Name : string; PrimaryNodeID : string; BackupNodeID : string;
  ComposeYAML : string; ZFSDataset : string; FailoverMode : string; AutoTriggerAfter : string }.

(** Commands to a node's daemon. *)
Inductive hostcmd :=
| SysInfo
| SnapshotCreate (dataset name operation : string) (nanos : Z)
| ReplSend (dataset snapshot dest : string)
| ServiceAdd (address : string)
| ServiceDel (address : string)
| AddrAdd (address : string)
| ComposeUp (stackID compose : string)
| ComposeDown (stackID : string).

(** A row of [failover_steps], keyed by stack, sequence and step. *)
Record StepRow := mkStep { st_name : string; st_state : string; st_detail : string }.

Inductive event :=
| ERaft (e : StackStateChanged) (o : outcome)
| EHost (node : string) (c : hostcmd) (ok exclusive : bool)
| EStep (number : Z) (row : StepRow) (o : outcome)
| EActive (node : string) (o : outcome)
| ENotify (kind title : string).

(** [exclusive] of a host command: the stack is registered as having an active
    sequence then. *)
Record W := mkW {
  fsm : FSM;
  active : gset string;
  steps : gmap (string * Z * Z) StepRow;
  active_node : gmap string string;
  trace : list event }.

Definition set_fsm (f : FSM) (w : W) : W := mkW f (active w) (steps w) (active_node w) (trace w).
Definition set_active (a : gset string) (w : W) : W := mkW (fsm w) a (steps w) (active_node w) (trace w).
Definition set_steps (s : gmap (string * Z * Z) StepRow) (w : W) : W := mkW (fsm w) (active w) s (active_node w) (trace w).
Definition set_active_node (m : gmap string string) (w : W) : W := mkW (fsm w) (active w) (steps w) m (trace w).
Definition log (e : event) (w : W) : W := mkW (fsm w) (active w) (steps w) (active_node w) (e :: trace w).

Abbreviation cmd := (prog string W).

Class Env := {
  get_stack : string -> list event -> option Stack;
  list_stacks : list event -> option (list Stack);
  check_destination : string -> string -> list event -> option string;
  stack_service : string -> list event -> result string (option string);
  reserved_addresses : string -> list event -> option (list string);
  runtime_yaml : string -> string -> string -> option string;
  raft : StackStateChanged -> list event -> outcome;
  database : list event -> outcome;
  host : string -> hostcmd -> list event -> option string;
  cancelled : list event -> bool;
  now : list event -> Z }.

Section Sequence.
Context `{Env}.

(** [Node.Apply]: committed and applied, refused, or applied after an error. *)
Definition raft_apply (stackID from to ev : string) : cmd unit := fun w =>
  let e := mkEntry stackID from to ev (now (trace w)) "" in
  let o := raft e (trace w) in
  let w' := log (ERaft e o) w in
  match o with
  | Done => (Ok tt, set_fsm (FSM_Apply (Some e) (fsm w)).2 w')
  | Refused => (Err "raft: apply", w')
  | Unreported => (Err "raft: apply", set_fsm (FSM_Apply (Some e) (fsm w)).2 w')
  end.

Definition execute_on (stackID node : string) (c : hostcmd) : cmd unit := fun w =>
  let a := host node c (trace w) in
  let w' := log (EHost node c (match a with None => true | Some _ => false end) (bool_decide (stackID ∈ active w))) w in
  (match a with None => Ok tt | Some m => Err m end, w').

(** Inserting or updating a step's row. *)
Definition write_step (key : string * Z * Z) (row : StepRow) (insert : bool) : cmd unit := fun w =>
  let o := database (trace w) in
  let w' := log (EStep key.2 row o) w in
  let taken := match steps w !! key with Some _ => true | None => false end in
  let written := if Bool.eqb insert taken then steps w else <[key := row]> (steps w) in
  match o with
  | Done => if insert && taken then (Err "UNIQUE constraint failed", w') else (Ok tt, set_steps written w')
  | Refused => (Err "database", w')
  | Unreported => (Err "database", set_steps written w')
  end.

(** The closure [step]: its row, the action, its outcome. *)
Definition step (stackID : string) (sequence number : Z) (name : string) (action : cmd unit) : cmd unit :=
  write_step (stackID, sequence, number) (mkStep name "running" "") true;;
  r ← attempt action;
  recordErr ← attempt (write_step (stackID, sequence, number)
    (match r with Ok _ => mkStep name "complete" "" | Err m => mkStep name "failed" m end) false);
  match r with Err e => fail e | Ok _ => of_result recordErr end.

Definition set_active_node_of (stackID node : string) : cmd unit := fun w =>
  let o := database (trace w) in
  let w' := log (EActive node o) w in
  let written := match active_node w !! stackID with Some _ => <[stackID := node]> (active_node w) | None => active_node w end in
  match o with
  | Done => (Ok tt, set_active_node written w')
  | Refused => (Err "database", w')
  | Unreported => (Err "database", set_active_node written w')
  end.

Definition service_of (stackID : string) : cmd (option string) := fun w => (stack_service stackID (trace w), w).
Definition lookup_stack (stackID : string) : cmd Stack := fun w =>
  (match get_stack stackID (trace w) with Some s => Ok s | None => Err "failover: get stack" end, w).
Definition CheckStackDestination (stackID node : string) : cmd unit := fun w =>
  (match check_destination stackID node (trace w) with None => Ok tt | Some m => Err m end, w).

(** ** The actions of the steps *)

Definition attemptFinalSync (stack : Stack) : cmd unit :=
  if decide (BackupNodeID stack = "") then fail "secondary node required"
  else
    w ← get;
    let t := now (trace w) in
    match AutomatedSnapshotName t with
    | Err _ => fail "snapshot name"
    | Ok name =>
        let snapshot := String.string_of_list_ascii name in
        execute_on (sk_ID stack) (PrimaryNodeID stack) (SnapshotCreate (ZFSDataset stack) snapshot ("final-sync-" +:+ sk_ID stack) t);;
        execute_on (sk_ID stack) (PrimaryNodeID stack) (ReplSend (ZFSDataset stack) snapshot (BackupNodeID stack))
    end.

Fixpoint add_addresses (stack : Stack) (addresses : list string) : cmd unit :=
  match addresses with
  | [] => ret tt
  | addr :: addresses =>
      if decide (addr = "") then add_addresses stack addresses
      else execute_on (sk_ID stack) (BackupNodeID stack) (AddrAdd addr);; add_addresses stack addresses
  end.

Definition takeoverIPs (stack : Stack) : cmd unit :=
  if decide (BackupNodeID stack = "") then ret tt
  else
    service ← service_of (sk_ID stack);
    match service with
    | Some address =>
        set_active_node_of (sk_ID stack) (BackupNodeID stack);;
        execute_on (sk_ID stack) (BackupNodeID stack) (ServiceAdd address)
    | None =>
        w ← get;
        match reserved_addresses (sk_ID stack) (trace w) with
        | None => fail "database"
        | Some addresses => add_addresses stack addresses
        end
    end.

(** The address before the prefix length. *)
Definition without_prefix (address : string) : string :=
  String.string_of_list_ascii (cut "/" (chars address)).1.

Definition runtimeCompose (stack : Stack) : cmd string :=
  service ← service_of (sk_ID stack);
  match service with
  | None => ret (ComposeYAML stack)
  | Some address =>
      match runtime_yaml (ComposeYAML stack) (sk_Name stack) (without_prefix address) with
      | Some y => ret y
      | None => fail "runtime compose"
      end
  end.

Definition startOn (node : string) (stack : Stack) : cmd unit :=
  runtime ← runtimeCompose stack;
  execute_on (sk_ID stack) node (ComposeUp (sk_ID stack) runtime).
Definition startOnSecondary (stack : Stack) : cmd unit := startOn (BackupNodeID stack) stack.
Definition startOnPrimary (stack : Stack) : cmd unit := startOn (PrimaryNodeID stack) stack.

Definition Create_notification (kind title : string) : cmd unit := modify (log (ENotify kind title)).

(** ** Failover *)

Definition register (stackID : string) : cmd unit := modify (fun w => set_active ({[stackID]} ∪ active w) w).
Definition unregister (stackID : string) : cmd unit := modify (fun w => set_active (active w ∖ {[stackID]}) w).

(** The closure [fail]. *)
Definition give_over {A} (stackID : string) (e : string) : cmd A :=
  attempt (raft_apply stackID StateFailingOver StateFailed EventFailoverFailed);;
  fail e.
(** [if err := m; err != nil { return fail(err) }] *)
Definition or_give_up (stackID : string) (m : cmd unit) : cmd unit :=
  r ← attempt m;
  match r with Ok _ => ret tt | Err e => give_over stackID e end.

(** After the final sync: a cancelled sequence stops here at the latest. *)
Definition take_over (stackID : string) (stack : Stack) (sequence : Z) : cmd unit :=
  or_give_up stackID (write_step (stackID, sequence, 3%Z)
    (mkStep "snapshot-promote" "skipped" "received dataset requires no promotion") true);;
  unregister stackID;;
  w ← get;
  (if cancelled (trace w) then give_over stackID "context canceled" else ret tt);;
  or_give_up stackID (step stackID sequence 4 "ip-takeover" (takeoverIPs stack));;
  or_give_up stackID (step stackID sequence 5 "compose-up" (startOnSecondary stack));;
  or_give_up stackID (step stackID sequence 6 "raft-apply"
    (raft_apply stackID StateFailingOver StateRunningBackup EventFailoverDone));;
  Create_notification "failover" ("Failover complete: " +:+ sk_Name stack).

Definition failover (stackID : string) : cmd unit :=
  stack ← lookup_stack stackID;
  CheckStackDestination stackID (BackupNodeID stack);;
  w ← get;
  let sequence := now (trace w) in
  step stackID sequence 1 "raft-quorum"
    (raft_apply stackID StateRunningPrimary StateFailingOver EventFailoverStart);;
  attempt (step stackID sequence 2 "zfs-sync" (attemptFinalSync stack));;
  take_over stackID stack sequence.

Definition Execute (stackID : string) : cmd unit :=
  w ← get;
  if decide (stackID ∈ active w) then fail "failover already active"
  else
    register stackID;;
    r ← attempt (failover stackID);
    unregister stackID;;
    of_result r.

(** ** Failback *)

(** Moving the service address back, when the stack has one. *)
Definition move_back (stackID : string) (stack : Stack) : cmd unit :=
  service ← service_of stackID;
  match service with
  | None => ret tt
  | Some address =>
      set_active_node_of stackID (PrimaryNodeID stack);;
      execute_on stackID (BackupNodeID stack) (ServiceDel address);;
      execute_on stackID (PrimaryNodeID stack) (ServiceAdd address)
  end.

Definition Restore (stackID : string) : cmd unit :=
  stack ← lookup_stack stackID;
  CheckStackDestination stackID (PrimaryNodeID stack);;
  raft_apply stackID StateRunningBackup StateRestoring EventRestoreStart;;
  attempt (execute_on stackID (BackupNodeID stack) (ComposeDown stackID));;
  attempt (attemptFinalSync stack);;
  move_back stackID stack;;
  r ← attempt (startOnPrimary stack);
  match r with
  | Err e =>
      attempt (raft_apply stackID StateRestoring StateFailed EventRestoreFailed);;
      fail e
  | Ok _ =>
      raft_apply stackID StateRestoring StateRunningPrimary EventRestoreDone;;
      Create_notification "failover" ("Failback complete: " +:+ sk_Name stack)
  end.

(** [Abort] cancels the context of a registered sequence; whether there is one. *)
Definition Abort_ (stackID : string) (w : W) : bool := bool_decide (stackID ∈ active w).
End Sequence.

(** ** The detector *)

(** [time.ParseDuration]. *)
Class Durations := { ParseDuration : string -> option Z }.

Section Detector.
Context `{Env} `{Durations}.

(** One pass over the stacks; the stacks whose failover is launched. *)
Record Scan := mkScan { downSince : gmap string Z; activeIDs : gset string; launched : list string }.

Definition ping (nodeID : string) : cmd bool :=
  r ← attempt (fun w =>
    let a := host nodeID SysInfo (trace w) in
    (match a with None => Ok tt | Some m => Err m end,
     log (EHost nodeID SysInfo (match a with None => true | Some _ => false end) false) w));
  ret (is_ok r).

Definition scan_stack (st : Stack) (s : Scan) : cmd Scan :=
  w ← get;
  let away := mkScan (delete (sk_ID st) (downSince s)) (activeIDs s) (launched s) in
  match FSM_State (sk_ID st) (fsm w) with
  | None => ret away
  | Some inst =>
      if negb (bool_decide (InstState inst = StateRunningPrimary)) then ret away
      else
        let s := mkScan (downSince s) ({[sk_ID st]} ∪ activeIDs s) (launched s) in
        alive ← ping (PrimaryNodeID st);
        if (alive : bool) then ret (mkScan (delete (sk_ID st) (downSince s)) (activeIDs s) (launched s))
        else
          w ← get;
          let t := now (trace w) in
          match downSince s !! sk_ID st with
          | None => ret (mkScan (<[sk_ID st := t]> (downSince s)) (activeIDs s) (launched s))
          | Some since =>
              if negb (bool_decide (FailoverMode st = "auto")) || bool_decide (AutoTriggerAfter st = "") then ret s
              else match ParseDuration (AutoTriggerAfter st) with
              | None => ret s
              | Some threshold =>
                  if (threshold <=? t - since)%Z
                  then ret (mkScan (delete (sk_ID st) (downSince s)) (activeIDs s) (launched s ++ [sk_ID st])%list)
                  else ret s
              end
          end
  end.

Fixpoint scan (stacks : list Stack) (s : Scan) : cmd Scan :=
  match stacks with
  | [] => ret s
  | st :: stacks => s ← scan_stack st s; scan stacks s
  end.

(** [tick]: the new [downSince] and the stacks whose [Execute] is started. *)
Definition tick (down : gmap string Z) : cmd (gmap string Z * list string) :=
  w ← get;
  match list_stacks (trace w) with
  | None => ret (down, [])
  | Some stacks =>
      s ← scan stacks (mkScan down ∅ []);
      ret (filter (fun p => p.1 ∈ activeIDs s) (downSince s), launched s)
  end.
End Detector.
