(* ===== verification/FailoverSafety.v ===== *)
(** What failover, failback and the detector promise: announced transitions,
    one start at a time, settled outcomes, and the threshold before an
    automatic failover. *)
From S2P Require Import Prelude TraceLogic GoTime Timestamp Release Update Run Lifecycle Failover.

Open Scope string_scope.
Open Scope list_scope.

(** ** The order of a sequence's calls *)

(** [e] is a row of the transition table. *)
Definition legal (e : StackStateChanged) : Prop := mkTransition (EFrom e) (EEvent e) (ETo e) ∈ transitions.
(** The Raft log took the transition to [state]. *)
Definition announced (state : string) (past : list event) : Prop := exists e, ERaft e Done ∈ past /\ ETo e = state.
Definition started_on (node : string) (past : list event) : Prop := exists id y x, EHost node (ComposeUp id y) true x ∈ past.
Definition stop_tried (node : string) (past : list event) : Prop := exists id ok x, EHost node (ComposeDown id) ok x ∈ past.

(** The row of step [n] was written: complete, or as skipped. *)
Definition completed (n : Z) (past : list event) : Prop := exists row, EStep n row Done ∈ past /\ st_state row = "complete".
Definition row_tried (n : Z) (past : list event) : Prop := exists row o, EStep n row o ∈ past.
Definition row_written (n : Z) (past : list event) : Prop := exists row, EStep n row Done ∈ past.

Section Allowed.
Context `{Env} (stack : Stack).
Abbreviation primary := (PrimaryNodeID stack).
Abbreviation backup := (BackupNodeID stack).

Definition sent (past : list event) : Prop := exists ds s dest x, EHost primary (ReplSend ds s dest) true x ∈ past.
(** A final snapshot was tried, unless there is no backup or no name for it. *)
Definition sync_tried (past : list event) : Prop :=
  backup = "" \/ (exists tr e, AutomatedSnapshotName (now tr) = Err e) \/
  exists ds s op t ok x, EHost primary (SnapshotCreate ds s op t) ok x ∈ past.
(** The backup has the addresses of the stack: its service address, registered
    there before, or each of its reserved ones. *)
Definition addresses_taken (past : list event) : Prop :=
  backup = "" \/
  (exists address x, EActive backup Done ∈ past /\ EHost backup (ServiceAdd address) true x ∈ past) \/
  exists tr addresses, reserved_addresses (sk_ID stack) tr = Some addresses /\
    forall a, a ∈ addresses -> a <> "" -> exists x, EHost backup (AddrAdd a) true x ∈ past.
(** The primary has the service address back, if there is one. *)
Definition address_back (past : list event) : Prop :=
  (exists id tr, stack_service id tr = Ok None) \/ exists address x, EHost primary (ServiceAdd address) true x ∈ past.
(** What a step that is recorded complete has done. *)
Definition effect (n : Z) (past : list event) : Prop :=
  (n = 1%Z -> announced StateFailingOver past) /\ (n = 2%Z -> sent past) /\ (n = 4%Z -> addresses_taken past) /\
  (n = 5%Z -> started_on backup past) /\ (n = 6%Z -> announced StateRunningBackup past).

(** The condition each event of a sequence for [stack] needs of the events of
    that sequence before it. *)
Definition allowed (e : event) (past : list event) : Prop :=
  match e with
  | ERaft e _ => legal e /\
      (ETo e = StateRunningBackup -> started_on backup past /\ completed 5 past) /\
      (ETo e = StateRunningPrimary -> started_on primary past)
  | EStep n row _ =>
      (st_state row = "complete" -> effect n past) /\ (n = 3%Z -> row_tried 2 past) /\ ((4 <= n)%Z -> row_written 3 past)
  | EActive node _ =>
      (node = backup /\ announced StateFailingOver past /\ row_written 3 past) \/
      (node = primary /\ announced StateRestoring past /\ stop_tried backup past /\ sync_tried past)
  | EHost node (ComposeUp _ _) _ _ =>
      (node = backup /\ announced StateFailingOver past /\ completed 4 past) \/
      (node = primary /\ announced StateRestoring past /\ stop_tried backup past /\ sync_tried past /\ address_back past)
  | EHost node (AddrAdd _) _ _ => node = backup /\ announced StateFailingOver past /\ row_written 3 past
  | EHost node (ServiceAdd a) _ _ =>
      (node = backup /\ announced StateFailingOver past /\ EActive backup Done ∈ past) \/
      (node = primary /\ announced StateRestoring past /\ exists x, EHost backup (ServiceDel a) true x ∈ past)
  | EHost node (ServiceDel _) _ _ => node = backup /\ announced StateRestoring past /\ EActive primary Done ∈ past
  | EHost node (ComposeDown _) _ _ => node = backup /\ announced StateRestoring past
  | EHost node (SnapshotCreate _ _ _ _) _ _ =>
      node = primary /\ (announced StateFailingOver past \/ (announced StateRestoring past /\ stop_tried backup past))
  | EHost node (ReplSend ds s dest) _ _ =>
      node = primary /\ dest = backup /\ exists op t x, EHost primary (SnapshotCreate ds s op t) true x ∈ past
  | _ => True
  end.
End Allowed.

#[export] Instance growing_announced state : Growing (announced state).
Proof. intros l l' (e & He & Hs). exists e. split; [apply elem_of_app; by right|done]. Qed.
#[export] Instance growing_started node : Growing (started_on node).
Proof. intros l l' (i & y & x & He). exists i, y, x. apply elem_of_app. by right. Qed.
#[export] Instance growing_stop node : Growing (stop_tried node).
Proof. intros l l' (i & y & x & He). exists i, y, x. apply elem_of_app. by right. Qed.

Lemma growing_ex {A} (P : A -> list event -> Prop) : (forall a, Growing (P a)) -> Growing (fun l => exists a, P a l).
Proof. intros HP l l' [a Ha]. exists a. by apply (HP a). Qed.
#[export] Instance growing_tried n : Growing (row_tried n).
Proof. intros l l' (r & o & He). exists r, o. apply elem_of_app. by right. Qed.
#[export] Instance growing_written n : Growing (row_written n).
Proof. intros l l' (r & He). exists r. apply elem_of_app. by right. Qed.
#[export] Instance growing_completed n : Growing (completed n).
Proof. intros l l' (r & He & Hr). exists r. split; [apply elem_of_app; by right|done]. Qed.
#[export] Instance growing_sync_tried `{Env} stack : Growing (sync_tried stack).
Proof.
  intros l l' [Hb|[Hn|(ds & s & op & t & ok & x & He)]]; [by left|by right; left|].
  right. right. exists ds, s, op, t, ok, x. apply elem_of_app. by right.
Qed.
#[export] Instance growing_taken `{Env} stack : Growing (addresses_taken stack).
Proof.
  intros l l' [Hb|[(a & x & He & Hs)|(tr & addresses & Hr & Ha)]]; [by left|right; left|right; right].
  - exists a, x. split; apply elem_of_app; by right.
  - exists tr, addresses. split; [done|]. intros a Hin Hne. destruct (Ha a Hin Hne) as [x Hx]. exists x. apply elem_of_app. by right.
Qed.
#[export] Instance growing_sent stack : Growing (sent stack).
Proof. intros l l' (ds & s & d & x & He). exists ds, s, d, x. apply elem_of_app. by right. Qed.
#[export] Instance growing_address_back `{Env} stack : Growing (address_back stack).
Proof. intros l l' [Hn|(a & x & He)]; [by left|]. right. exists a, x. apply elem_of_app. by right. Qed.

Section Order.
Context `{Env} (stack : Stack) (base : list event).

Abbreviation orderly := (TraceLogic.orderly (E:=string) trace (allowed stack) (fun _ => True) base).
Abbreviation primary := (PrimaryNodeID stack).
Abbreviation backup := (BackupNodeID stack).

Lemma orderly_raft id from to ev P : mkTransition from ev to ∈ transitions ->
  (forall l, P l -> (to = StateRunningBackup -> started_on backup l /\ completed 5 l) /\
                    (to = StateRunningPrimary -> started_on primary l)) ->
  orderly P (raft_apply id from to ev) (fun _ => announced to).
Proof.
  intros Hleg Hp. apply orderly_event; [done|]. intros w l _ Ht HP. 
  set (e := mkEntry id from to ev (now (trace w)) ""). exists (ERaft e (raft e (trace w))). unfold raft_apply. fold e.
  assert (Ha : allowed stack (ERaft e (raft e (trace w))) l) by (by split; [|apply Hp]).
  destruct (raft e (trace w)); (split_and!; [reflexivity|done|try done]).
  exists e. split; [apply elem_of_cons; by left|done].
Qed.
Lemma orderly_execute id node c P : (forall l x ok, P l -> allowed stack (EHost node c ok x) l) ->
  orderly P (execute_on id node c) (fun _ l => exists x, EHost node c true x ∈ l).
Proof.
  intros Hp. apply orderly_event; [done|]. intros w l _ Ht HP. eexists. split_and!; [reflexivity|by apply Hp|].
  unfold execute_on. cbn. destruct (host node c (trace w)); [done|]. eexists. apply elem_of_cons. left. reflexivity.
Qed.
(** The attempt alone is recorded. *)
Lemma orderly_execute_tried id node c P : (forall l x ok, P l -> allowed stack (EHost node c ok x) l) ->
  orderly P (attempt (execute_on id node c)) (fun r l => (exists ok x, EHost node c ok x ∈ l) /\
    match r with Ok _ => exists x, EHost node c true x ∈ l | Err _ => True end).
Proof.
  intros Hp. apply orderly_event; [done|]. intros w l _ Ht HP. unfold attempt, execute_on. cbn. eexists. split_and!; [reflexivity|by apply Hp| |].
  - eexists _, _. apply elem_of_cons. left. reflexivity.
  - destruct (host node c (trace w)); [done|]. eexists. apply elem_of_cons. left. reflexivity.
Qed.
Lemma orderly_write_step key row ins P : (forall l o, P l -> allowed stack (EStep key.2 row o) l) ->
  orderly P (write_step key row ins) (fun _ l => EStep key.2 row Done ∈ l).
Proof.
  intros Ha. apply orderly_event; [done|]. intros w l _ Ht HP. exists (EStep key.2 row (database (trace w))). unfold write_step.
  destruct (database (trace w)); [|split_and!; [done|by apply Ha|done]..].
  destruct (_ && _); (split_and!; [done|by apply Ha|]); [done|apply elem_of_cons; by left].
Qed.
Lemma orderly_step_tried key row ins P : (forall l o, P l -> allowed stack (EStep key.2 row o) l) ->
  orderly P (attempt (write_step key row ins)) (fun _ => row_tried key.2).
Proof.
  intros Ha. apply orderly_event.
  { done. }
  intros w l _ Ht HP. exists (EStep key.2 row (database (trace w))). unfold attempt, write_step.
  assert (Ht' : row_tried key.2 (EStep key.2 row (database (trace w)) :: l)) by (exists row, (database (trace w)); apply elem_of_cons; by left).
  destruct (database (trace w)); try (destruct (_ && _)); (split_and!; [done|by apply Ha|exact Ht']).
Qed.
Lemma orderly_active id node P : (forall l o, P l -> allowed stack (EActive node o) l) ->
  orderly P (set_active_node_of id node) (fun _ l => EActive node Done ∈ l).
Proof.
  intros Ha. apply orderly_event; [done|]. intros w l _ Ht HP. exists (EActive node (database (trace w))). unfold set_active_node_of.
  destruct (database (trace w)); (split_and!; [done|by apply Ha|]); [apply elem_of_cons; by left|done..].
Qed.

(** What the first call records is there whatever comes of the rest. *)
Lemma orderly_attempt_seq {A B} (m : cmd A) (k : A -> cmd B) P (R : list event -> Prop) (S : A -> list event -> Prop) `{!Growing R} :
  orderly P (attempt m) (fun r l => R l /\ match r with Ok a => S a l | Err _ => True end) ->
  (forall a, orderly (fun l => R l /\ S a l) (k a) (fun _ _ => True)) -> orderly P (attempt (m ≫= k)) (fun _ => R).
Proof.
  intros Hm Hk w l Hv Ht Ho HP. specialize (Hm w l Hv Ht Ho HP). unfold post, attempt, mbind, prog_mbind, bind in *.
  destruct (m w) as [[a|e] w1]; cbn in *; destruct Hm as (_ & l1 & Ht1 & Ho1 & Hr & Hs); [|by split; [|exists l1]].
  pose proof (Hk a w1 (l1 ++ l) I Ht1 Ho1 (conj Hr Hs)) as Hp. unfold post in Hp. destruct (k a w1) as [r w2]. cbn in *.
  destruct Hp as (_ & l2 & Ht2 & Ho2 & _). split; [done|]. exists (l2 ++ l1). rewrite <- (app_assoc l2 l1 l).
  split_and!; [done|done|by apply grows].
Qed.

(** A step: its action's effect and the row that says complete, or an error. *)
Section Step.
Context (id : string) (sequence number : Z) (name : string) (m : cmd unit) (P Q : list event -> Prop) `{!Growing P, !Growing Q}.
Hypothesis in_turn : forall l, P l -> (number = 3%Z -> row_tried 2 l) /\ ((4 <= number)%Z -> row_written 3 l).
Hypothesis has_effect : forall l, Q l -> effect stack number l.
Hypothesis acts : orderly P m (fun _ => Q).

Lemma orderly_step_rest : orderly P
  (r ← attempt m;
   recordErr ← attempt (write_step (id, sequence, number)
     (match r with Ok _ => mkStep name "complete" "" | Err m => mkStep name "failed" m end) false);
   match r with Err e => fail e | Ok _ => of_result recordErr end) (fun _ l => Q l /\ completed number l).
Proof using All.
  eapply orderly_bind; [done|by apply orderly_attempt|]. intros r. destruct r as [[]|e].
  - eapply (orderly_bind _ _ _ (fun r l => match r with Ok _ => EStep number (mkStep name "complete" "") Done ∈ l | Err _ => True end)); [apply _| |].
    + apply orderly_attempt, (orderly_write_step (id, sequence, number)). intros l o [HP HQ]. split; [intros _; by apply has_effect|by apply in_turn].
    + intros u. apply orderly_silent; [done|]. intros w. split; [done|]. cbn. destruct u as [[]|]; [|done].
      intros _ l [[_ HQ] Hrow]. split; [done|]. by eexists.
  - eapply (orderly_bind _ _ _ (fun _ _ => True)); [apply _| |intros u; apply orderly_fail].
    eapply orderly_post; [|apply orderly_attempt, (orderly_write_step (id, sequence, number))]; [done|].
    intros l o [HP _]. split; [discriminate|by apply in_turn].
Qed.
Lemma running_allowed l o : P l -> allowed stack (EStep number (mkStep name "running" "") o) l.
Proof using in_turn. intros HP. split; [discriminate|by apply in_turn]. Qed.
Lemma orderly_step : orderly P (step id sequence number name m) (fun _ l => Q l /\ completed number l).
Proof using All.
  eapply orderly_bind; [done|apply orderly_write_step; exact running_allowed|]. intros u.
  eapply orderly_pre; [|exact orderly_step_rest]. by intros l [HP _].
Qed.
(** A step whose error is ignored. *)
Lemma orderly_step_attempt : orderly P (attempt (step id sequence number name m)) (fun _ l => P l /\ row_tried number l).
Proof using All.
  pose proof (orderly_frame (attempt (write_step (id, sequence, number) (mkStep name "running" "") true)) P P
    (fun _ => row_tried number) (orderly_step_tried (id, sequence, number) _ _ _ running_allowed)) as Hw.
  unfold step. apply (orderly_attempt_seq _ _ _ _ (fun _ _ => True)).
  - eapply (orderly_pre _ (fun l => P l /\ P l)); [by split|]. eapply orderly_post; [|exact Hw]. by intros [] l.
  - intros u. eapply orderly_pre; [|eapply orderly_post; [|exact orderly_step_rest]]; [by intros l [[HP _] _]|done].
Qed.
End Step.

(** The final sync, tried where it may be. *)
Definition may_sync (l : list event) : Prop := announced StateFailingOver l \/ (announced StateRestoring l /\ stop_tried backup l).
Lemma orderly_sync P `{!Growing P} : (forall l, P l -> may_sync l) -> orderly P (attemptFinalSync stack) (fun _ => sent stack).
Proof.
  intros HP. unfold attemptFinalSync. destruct (decide _); [apply orderly_fail|]. apply orderly_get. intros w _. cbv zeta.
  destruct (AutomatedSnapshotName _) as [name|]; [|apply orderly_fail].
  eapply orderly_bind; [done|apply orderly_execute|].
  { intros l x ok Hl. split; [done|]. by apply HP. }
  intros u. eapply orderly_post; [|apply orderly_execute].
  - intros u' l [x Hin]. by eexists _, _, _, x.
  - intros l x ok [_ [x' Hin]]. split_and!; [done..|]. by eexists _, _, x'.
Qed.
Lemma orderly_sync_tried P `{!Growing P} : (forall l, P l -> may_sync l) ->
  orderly P (attempt (attemptFinalSync stack)) (fun _ => sync_tried stack).
Proof.
  intros HP. unfold attemptFinalSync. destruct (decide (backup = "")) as [Hb|Hb].
  { apply orderly_silent; [done|]. intros w. split; [done|]. cbn. intros _ l _. by left. }
  assert (Hget : forall k : W -> cmd unit, attempt (get ≫= k) = (w ← get; attempt (k w))) by done. rewrite Hget.
  apply orderly_get. intros w _. cbv zeta. destruct (AutomatedSnapshotName (now (trace w))) as [name|e] eqn:En.
  - set (c := SnapshotCreate _ _ _ _). apply (orderly_attempt_seq _ _ _ _ (fun _ l => exists x, EHost primary c true x ∈ l)).
    + eapply orderly_post; [|apply (orderly_execute_tried _ _ c P)].
      * intros r l [(ok & x & Hin) Hr]. split; [|done]. right. right. by eexists _, _, _, _, ok, x.
      * intros l x ok Hl. split; [done|]. by apply HP.
    + intros u. eapply orderly_post; [done|apply orderly_execute]. intros l x ok [_ [x' Hin]]. split_and!; [done..|]. by eexists _, _, x'.
  - apply orderly_silent; [done|]. intros w'. split; [done|]. cbn. intros _ l _. right. left. by exists (trace w), e.
Qed.
(** Calls on a node that is about to run the stack. *)
Definition ready (l : list event) : Prop := announced StateFailingOver l /\ row_written 3 l.
Lemma orderly_addresses addresses : orderly ready (add_addresses stack addresses)
  (fun _ l => forall a, a ∈ addresses -> a <> "" -> exists x, EHost backup (AddrAdd a) true x ∈ l).
Proof.
  induction addresses as [|a addresses IH]; [apply orderly_ret; intros l _ a Ha; by apply elem_of_nil in Ha|]. cbn [add_addresses].
  destruct (decide _) as [->|Hne].
  { eapply orderly_post; [|exact IH]. intros u l Hl a [->|Ha]%elem_of_cons ?; [done|by apply Hl]. }
  eapply orderly_bind; [apply _|apply orderly_execute; by intros l x ok [? ?]|]. intros u.
  set (G := fun l => exists x, EHost backup (AddrAdd a) true x ∈ l).
  assert (Growing G) by (intros l l' [x Hx]; exists x; apply elem_of_app; by right).
  eapply (orderly_pre _ (fun l => G l /\ ready l)); [by intros l [? ?]|]. eapply orderly_post; [|exact (orderly_frame _ ready G _ IH)].
  intros u' l [Hg Hl] b [->|Hb]%elem_of_cons Hn; [done|by apply Hl].
Qed.
Lemma orderly_service {B} id (k : option string -> cmd B) P Q :
  (forall s tr, stack_service id tr = Ok s -> orderly P (k s) Q) -> orderly P (service_of id ≫= k) Q.
Proof.
  intros Hk w l Hv Ht Ho Hp. apply post_bind. unfold post at 1, service_of. cbn [fst snd].
  destruct (stack_service id (trace w)) eqn:E; [by apply (Hk a _ E w l)|]. by split; [|exists []].
Qed.
Lemma orderly_takeover : orderly ready (takeoverIPs stack) (fun _ => addresses_taken stack).
Proof.
  unfold takeoverIPs. destruct (decide _); [apply orderly_ret; intros l _; by left|]. apply orderly_service. intros [address|] tr _.
  - eapply orderly_bind; [apply _|apply orderly_active|].
    { intros l o [? ?]. left. by split_and!. }
    intros u. set (G := fun l : list event => EActive backup Done ∈ l).
    assert (Growing G) by (intros l l' Hx; apply elem_of_app; by right).
    eapply (orderly_pre _ (fun l => G l /\ (G l /\ ready l))); [by intros l [? ?]|].
    eapply orderly_post; [|eapply (orderly_frame _ (fun l => G l /\ ready l) G _), orderly_execute].
    + intros u' l [Ha [x Hx]]. right. left. by exists address, x.
    + intros l x ok [? [? ?]]. left. by split_and!.
  - apply orderly_get. intros w _. destruct (reserved_addresses _ _) as [addresses|] eqn:E; [|apply orderly_fail].
    eapply orderly_post; [|apply orderly_addresses]. intros u l Hl. right. right. by exists (trace w), addresses.
Qed.
Lemma orderly_start node P `{!Growing P} : (forall l id y x ok, P l -> allowed stack (EHost node (ComposeUp id y) ok x) l) ->
  orderly P (startOn node stack) (fun _ => started_on node).
Proof.
  intros Hp. unfold startOn. eapply (orderly_bind _ _ _ (fun _ _ => True)); [done| |].
  - unfold runtimeCompose. apply orderly_service. intros [address|] tr _; [|apply orderly_done].
    destruct (runtime_yaml _ _ _); [apply orderly_done|apply orderly_fail].
  - intros y. eapply orderly_post; [|apply orderly_execute].
    + intros u l [x Hx]. by exists (sk_ID stack), y, x.
    + intros l x ok [HP _]. by apply Hp.
Qed.

Lemma orderly_notify P `{!Growing P} kind title : orderly P (Create_notification kind title) (fun _ => P).
Proof.
  apply orderly_event; [done|]. intros w l _ _ HP. eexists. split_and!; [reflexivity|done|]. by apply (grows l [_]).
Qed.

(** ** The sequences *)

Ltac in_table := apply (bool_decide_eq_true_1 _); vm_compute; reflexivity.

Lemma orderly_give_up {A} id e P Q : orderly P (give_over id e : cmd A) Q.
Proof.
  unfold give_over. apply (orderly_pre _ (fun _ => True)); [done|]. eapply orderly_bind; [apply _| |intros r; apply orderly_fail].
  eapply orderly_attempt, orderly_raft; [in_table|]. intros l _. split; discriminate.
Qed.
Lemma orderly_or_give_up id m P Q `{!Growing P} : orderly P m (fun _ => Q) -> orderly P (or_give_up id m) (fun _ => Q).
Proof.
  intros Hm. unfold or_give_up. eapply orderly_bind; [done|by apply orderly_attempt|]. intros [u|e]; [|apply orderly_give_up].
  apply orderly_silent; [done|]. intros w. split; [done|]. cbn. by intros _ l [_ HQ].
Qed.

Hypothesis known : forall id tr s, get_stack id tr = Some s -> s = stack.

Lemma orderly_lookup {B} id (k : Stack -> cmd B) P Q : orderly P (k stack) Q -> orderly P (lookup_stack id ≫= k) Q.
Proof.
  intros Hk w l Hv Ht Ho Hp. apply post_bind. unfold post at 1, lookup_stack. cbn [fst snd].
  destruct (get_stack id (trace w)) eqn:E; [|by split; [|exists []]]. apply known in E. subst. by apply Hk.
Qed.
Lemma orderly_destination {B} id node (k : unit -> cmd B) P Q : orderly P (k tt) Q -> orderly P (CheckStackDestination id node ≫= k) Q.
Proof.
  intros Hk w l Hv Ht Ho Hp. apply post_bind. unfold post at 1, CheckStackDestination. cbn [fst snd].
  destruct (check_destination _ _ _); [by split; [|exists []]|]. by apply Hk.
Qed.

(** From the announced failover with a final sync that was tried. *)
Definition synced (l : list event) : Prop := announced StateFailingOver l /\ row_tried 2 l.
Lemma orderly_take_over id sequence : orderly synced (take_over id stack sequence) (fun _ => announced StateRunningBackup).
Proof.
  unfold take_over.
  eapply orderly_bind; [apply _|apply (orderly_or_give_up _ _ _ (row_written 3))|].
  { eapply orderly_post; [|apply (orderly_write_step (id, sequence, 3%Z))]; [intros u l Hin; eexists; exact Hin|].
    intros l o [_ Ht]. split; [discriminate|]. split; [done|]. cbn. lia. }
  intros u1. eapply (orderly_pre _ ready); [by intros l [[? _] ?]|].
  eapply (orderly_bind _ _ _ (fun _ _ => True)); [apply _|by apply orderly_silent|]. intros u2.
  eapply (orderly_pre _ ready); [by intros l [? _]|]. apply orderly_get. intros w _.
  eapply (orderly_bind _ _ _ (fun _ _ => True)); [apply _| |].
  { destruct (cancelled _); [apply orderly_give_up|apply orderly_done]. }
  intros u3. eapply (orderly_pre _ ready); [by intros l [? _]|].
  assert (Hturn : forall n, n <> 3%Z -> forall l, ready l -> (n = 3%Z -> row_tried 2 l) /\ ((4 <= n)%Z -> row_written 3 l)) by (by intros n Hn l [_ ?]; split).
  eapply orderly_bind; [apply _| |].
  { apply orderly_or_give_up; [apply _|]. apply (orderly_step id sequence 4 "ip-takeover" (takeoverIPs stack) ready (addresses_taken stack)); [by apply Hturn| |apply orderly_takeover].
    intros l Hl. by split_and!. }
  intros u4. eapply (orderly_pre _ (fun l => ready l /\ completed 4 l)); [by intros l [? [_ ?]]|].
  eapply orderly_bind; [apply _| |].
  { apply orderly_or_give_up; [apply _|]. apply (orderly_step id sequence 5 "compose-up" _ _ (started_on backup)); [by intros l [Hr _]; apply Hturn| |].
    - intros l Hl. by split_and!.
    - apply orderly_start; [apply _|]. intros l i y x ok [[? _] ?]. left. by split_and!. }
  intros u5. eapply (orderly_pre _ (fun l => ready l /\ started_on backup l /\ completed 5 l)); [by intros l [[? _] ?]|].
  eapply (orderly_bind _ _ _ (fun _ => announced StateRunningBackup)); [apply _| |].
  { apply orderly_or_give_up; [apply _|]. eapply orderly_post; [|apply (orderly_step id sequence 6 "raft-apply" _ _ (announced StateRunningBackup))]; [by intros u l [? _]|by intros l [Hr _]; apply Hturn| |].
    - intros l Hl. by split_and!.
    - apply orderly_raft; [in_table|]. intros l (_ & ? & ?). split; [done|discriminate]. }
  intros u6. eapply (orderly_pre _ (announced StateRunningBackup)); [by intros l [_ ?]|]. apply orderly_notify, _.
Qed.

Lemma orderly_failover id : orderly (fun _ => True) (failover id) (fun _ => announced StateRunningBackup).
Proof.
  unfold failover. apply orderly_lookup, orderly_destination, orderly_get. intros w _. cbv zeta.
  eapply orderly_bind; [apply _| |].
  { apply (orderly_step id _ 1 "raft-quorum" _ (fun _ => True) (announced StateFailingOver)); [by intros l _| |].
    - intros l Hl. by split_and!.
    - apply orderly_raft; [in_table|]. intros l _. split; discriminate. }
  intros u. eapply (orderly_pre _ (announced StateFailingOver)); [by intros l [_ [? _]]|].
  eapply orderly_bind; [apply _| |].
  { apply (orderly_step_attempt id _ 2 "zfs-sync" _ (announced StateFailingOver) (sent stack)); [by intros l _| |].
    - intros l Hl. by split_and!.
    - apply orderly_sync; [apply _|]. intros l Hl. by left. }
  intros r. eapply orderly_pre; [|apply orderly_take_over]. by intros l [_ ?].
Qed.

Lemma orderly_Execute id : orderly (fun _ => True) (Execute id) (fun _ => announced StateRunningBackup).
Proof.
  unfold Execute. apply orderly_get. intros w _. destruct (decide _); [apply orderly_fail|].
  eapply (orderly_bind _ _ _ (fun _ _ => True)); [apply _|by apply orderly_silent|]. intros u1.
  eapply (orderly_pre _ (fun _ => True)); [done|]. eapply orderly_bind; [apply _|apply orderly_attempt, orderly_failover|]. intros r.
  eapply (orderly_pre _ (fun l => match r with Ok _ => announced StateRunningBackup l | Err _ => True end)); [by intros l [_ ?]|].
  eapply (orderly_bind _ _ (fun l => match r with Ok _ => announced StateRunningBackup l | Err _ => True end) (fun _ _ => True)).
  - destruct r; apply _.
  - by apply orderly_silent.
  - intros u2. apply orderly_silent; [done|]. intros w'. split; [done|]. destruct r; [|done]. by intros _ l [? _].
Qed.

(** The failback's part between the stop of the backup and the start. *)
Definition halted (l : list event) : Prop := announced StateRestoring l /\ stop_tried backup l /\ sync_tried stack l.
Lemma orderly_move_back id : orderly halted (move_back id stack) (fun _ => address_back stack).
Proof.
  unfold move_back. apply orderly_service. intros [address|] tr Hs; [|apply orderly_ret; intros l _; left; by exists id, tr].
  eapply orderly_bind; [apply _|apply orderly_active|].
  { intros l o (? & ? & ?). right. by split_and!. }
  intros u1. eapply orderly_bind; [apply _|apply orderly_execute|].
  { intros l x ok [(? & _) ?]. by split_and!. }
  intros u2. eapply orderly_post; [|apply orderly_execute].
  - intros u l [x Hx]. right. by exists address, x.
  - intros l x ok [[(? & _) _] ?]. right. by split_and!.
Qed.

Lemma orderly_Restore id : orderly (fun _ => True) (Restore id) (fun _ => announced StateRunningPrimary).
Proof.
  unfold Restore. apply orderly_lookup, orderly_destination.
  eapply (orderly_bind _ _ _ (fun _ => announced StateRestoring)); [apply _| |].
  { apply orderly_raft; [in_table|]. intros l _. split; discriminate. }
  intros u. eapply (orderly_pre _ (announced StateRestoring)); [by intros l [_ ?]|].
  eapply (orderly_bind _ _ _ (fun _ => stop_tried backup)); [apply _| |].
  { eapply orderly_post; [|apply (orderly_execute_tried id backup (ComposeDown id) (announced StateRestoring))].
    - intros a l [(ok & x & Hin) _]. by exists id, ok, x.
    - by split. }
  intros r. eapply orderly_bind; [apply _|apply orderly_sync_tried; [apply _|]|].
  { intros l Hl. by right. }
  intros r1. eapply (orderly_pre _ halted); [by intros l [[? ?] ?]|].
  eapply orderly_bind; [apply _|apply orderly_move_back|].
  intros u1. eapply orderly_bind; [apply _|apply orderly_attempt, orderly_start; [apply _|]|].
  { intros l i y x ok [(? & ? & ?) ?]. right. by split_and!. }
  intros [u2|e].
  - eapply orderly_bind; [apply _| |].
    { apply orderly_raft; [in_table|]. intros l [_ Hs]. split; [discriminate|done]. }
    intros u3. eapply (orderly_pre _ (announced StateRunningPrimary)); [by intros l [_ ?]|]. apply orderly_notify, _.
  - eapply (orderly_pre _ (fun _ => True)); [done|]. eapply orderly_bind; [apply _| |intros r2; apply orderly_fail].
    apply orderly_attempt, orderly_raft; [in_table|]. intros l _. split; discriminate.
Qed.
End Order.

(** ** Outcomes when the Raft log and the database answer *)

Definition state_of (id : string) (w : W) : string := default "" (InstState <$> FSM_State id (fsm w)).

Class Reliable (En : Env) : Prop := {
  raft_done : forall e tr, raft e tr = Done;
  database_done : forall tr, database tr = Done }.

Section Outcomes.
Context `{Reliable}.

Lemma raft_apply_reliable id from to ev w : exists w', raft_apply id from to ev w = (Ok tt, w') /\
  state_of id w' = to /\ steps w' = steps w /\ active w' = active w.
Proof.
  unfold raft_apply. rewrite raft_done. eexists. split; [reflexivity|]. split_and!; [|done|done].
  unfold state_of, FSM_State. cbn. by rewrite lookup_insert_eq.
Qed.

(** No row yet for step [n] of the sequence and those after it. *)
Definition unwritten (id : string) (seq n : Z) (w : W) : Prop := forall k, (n <= k)%Z -> steps w !! (id, seq, k) = None.

(** Programs that leave the lifecycle, the rows and the registrations alone. *)
Definition aside {A} (m : cmd A) : Prop := forall w, fsm (m w).2 = fsm w /\ steps (m w).2 = steps w /\ active (m w).2 = active w.
Lemma aside_still {A} (m : cmd A) : (forall w, exists r, m w = (r, w)) -> aside m.
Proof. intros Hm w. destruct (Hm w) as [r ->]. done. Qed.
Lemma aside_bind {A B} (m : cmd A) (k : A -> cmd B) : aside m -> (forall a, aside (k a)) -> aside (m ≫= k).
Proof.
  intros Hm Hk w. unfold mbind, prog_mbind, bind. specialize (Hm w). destruct (m w) as [[a|e] w1]; [|done].
  destruct (Hk a w1) as (-> & -> & ->). done.
Qed.
Lemma aside_execute id node c : aside (execute_on id node c).
Proof. by intros w. Qed.
Lemma aside_get {B} (k : W -> cmd B) : (forall w, aside (k w)) -> aside (get ≫= k).
Proof. intros Hk w. apply (Hk w w). Qed.
Lemma aside_active id node : aside (set_active_node_of id node).
Proof. intros w. unfold set_active_node_of. by destruct (database _). Qed.
Lemma aside_sync stack : aside (attemptFinalSync stack).
Proof.
  unfold attemptFinalSync. destruct (decide _); [by apply aside_still; eexists|]. apply aside_get. intros w. cbv zeta.
  destruct (AutomatedSnapshotName _); [|by apply aside_still; eexists]. apply aside_bind; [apply aside_execute|]. intros _. apply aside_execute.
Qed.
Lemma aside_takeover stack : aside (takeoverIPs stack).
Proof.
  unfold takeoverIPs. destruct (decide _); [by apply aside_still; eexists|].
  apply aside_bind; [by apply aside_still; eexists|]. intros [address|].
  - apply aside_bind; [apply aside_active|]. intros _. apply aside_execute.
  - apply aside_get. intros w. destruct (reserved_addresses _ _) as [l|]; [|by apply aside_still; eexists].
    induction l as [|a l IH]; cbn [add_addresses]; [by apply aside_still; eexists|]. destruct (decide _); [exact IH|].
    apply aside_bind; [apply aside_execute|done].
Qed.
Lemma aside_start node stack : aside (startOn node stack).
Proof.
  unfold startOn, runtimeCompose. apply aside_bind; [|intros y; apply aside_execute].
  apply aside_bind; [by apply aside_still; eexists|]. intros [address|]; [|by apply aside_still; eexists].
  destruct (runtime_yaml _ _ _); by apply aside_still; eexists.
Qed.
Lemma aside_move_back id stack : aside (move_back id stack).
Proof.
  unfold move_back. apply aside_bind; [by apply aside_still; eexists|]. intros [address|]; [|by apply aside_still; eexists].
  apply aside_bind; [apply aside_active|]. intros _. apply aside_bind; [apply aside_execute|]. intros _. apply aside_execute.
Qed.
Lemma aside_attempt {A} (m : cmd A) : aside m -> aside (attempt m).
Proof. intros Hm w. specialize (Hm w). unfold attempt. by destruct (m w). Qed.

Lemma insert_step_reliable key row w : steps w !! key = None -> exists w', write_step key row true w = (Ok tt, w') /\
  fsm w' = fsm w /\ steps w' = <[key := row]> (steps w) /\ active w' = active w.
Proof. intros Hk. unfold write_step. rewrite database_done, Hk. cbn. by eexists. Qed.
Lemma update_step_reliable key row w : exists w', write_step key row false w = (Ok tt, w') /\
  fsm w' = fsm w /\ (forall k, k <> key -> steps w' !! k = steps w !! k) /\ active w' = active w.
Proof.
  unfold write_step. rewrite database_done. cbn [andb]. eexists. split; [reflexivity|]. split_and!; [done| |done].
  intros k Hk. cbn. destruct (steps w !! key); cbn; [by apply lookup_insert_ne|done].
Qed.

(** A step's outcome is its action's. *)
Lemma step_reliable id seq n name (m : cmd unit) w : unwritten id seq n w ->
  (forall w1, steps (m w1).2 = steps w1) ->
  exists w1 w', step id seq n name m w = ((m w1).1, w') /\ fsm w1 = fsm w /\ active w1 = active w /\
    fsm w' = fsm (m w1).2 /\ active w' = active (m w1).2 /\ unwritten id seq (n + 1) w'.
Proof.
  intros Hu Hm. destruct (insert_step_reliable (id, seq, n) (mkStep name "running" "") w) as (w1 & Hi & Hf & Hs & Ha); [by apply Hu|].
  exists w1. unfold step, mbind, prog_mbind, bind, attempt. rewrite Hi. specialize (Hm w1). destruct (m w1) as [r w2] eqn:Em. cbn [fst snd] in *.
  destruct (update_step_reliable (id, seq, n) (match r with Ok _ => mkStep name "complete" "" | Err m => mkStep name "failed" m end) w2)
    as (w3 & Hu3 & Hf3 & Hs3 & Ha3).
  rewrite Hu3. exists w3. assert (Hun : unwritten id seq (n + 1) w3).
  { intros k Hk. rewrite Hs3 by (intros E; injection E; lia). rewrite Hm, Hs, lookup_insert_ne by (intros E; injection E; lia). apply Hu. lia. }
  destruct r as [[]|e]; by split_and!.
Qed.

(** A program that fails only with the stack journalled as failed. *)
Definition settles {A} (id : string) (P : W -> Prop) (m : cmd A) (Q : W -> Prop) : Prop :=
  forall w, P w -> match m w with (Ok _, w') => Q w' | (Err _, w') => state_of id w' = StateFailed end.
Lemma settles_bind {A B} id P R Q (m : cmd A) (k : A -> cmd B) :
  settles id P m R -> (forall a, settles id R (k a) Q) -> settles id P (m ≫= k) Q.
Proof.
  intros Hm Hk w Hp. specialize (Hm w Hp). unfold mbind, prog_mbind, bind. destruct (m w) as [[a|e] w1]; [by apply Hk|done].
Qed.
Lemma settles_or_give_up id P Q (m : cmd unit) :
  (forall w, P w -> match m w with (Ok _, w') => Q w' | (Err _, _) => True end) -> settles id P (or_give_up id m) Q.
Proof.
  intros Hm w Hp. specialize (Hm w Hp). unfold or_give_up, give_over, mbind, prog_mbind, bind, attempt. destruct (m w) as [[a|e] w1]; [done|].
  destruct (raft_apply_reliable id StateFailingOver StateFailed EventFailoverFailed w1) as (w' & -> & Hs & _). exact Hs.
Qed.

Lemma settles_take_over id stack seq :
  settles id (unwritten id seq 3) (take_over id stack seq) (fun w => state_of id w = StateRunningBackup).
Proof.
  unfold take_over. apply (settles_bind _ _ (unwritten id seq 4)).
  { apply settles_or_give_up. intros w Hu.
    destruct (insert_step_reliable (id, seq, 3%Z) (mkStep "snapshot-promote" "skipped" "received dataset requires no promotion") w)
      as (w' & -> & _ & Hs & _); [by apply Hu|]. intros k Hk. rewrite Hs, lookup_insert_ne by (intros E; injection E; lia). apply Hu. lia. }
  intros _. apply (settles_bind _ _ (unwritten id seq 4)); [by intros w Hw|]. intros _.
  intros w Hw. unfold mbind at 1, prog_mbind, bind at 1. cbn [get]. revert Hw. generalize (cancelled (trace w)). intros c Hw. revert w Hw.
  apply (settles_bind _ _ (unwritten id seq 4)).
  { destruct c; [|by intros w Hw]. intros w Hu. unfold give_over, mbind, prog_mbind, bind, attempt.
    destruct (raft_apply_reliable id StateFailingOver StateFailed EventFailoverFailed w) as (w' & -> & Hs & _). exact Hs. }
  intros _.
  assert (Hstep : forall n name m, (forall w1, steps (m w1).2 = steps w1) ->
    settles id (unwritten id seq n) (or_give_up id (step id seq n name m)) (unwritten id seq (n + 1))).
  { intros n name m Hm. apply settles_or_give_up. intros w Hu.
    destruct (step_reliable id seq n name m w Hu Hm) as (w1 & w' & -> & _ & _ & _ & _ & Hu'). by destruct (m w1).1. }
  apply (settles_bind _ _ (unwritten id seq (4 + 1))); [apply Hstep; intros w1; apply aside_takeover|]. intros _.
  apply (settles_bind _ _ (unwritten id seq (5 + 1))); [apply (Hstep 5%Z); intros w1; apply aside_start|]. intros _.
  apply (settles_bind _ _ (fun w => state_of id w = StateRunningBackup)); [|by intros u w Hw].
  apply settles_or_give_up. intros w Hu.
  destruct (step_reliable id seq 6 "raft-apply" (raft_apply id StateFailingOver StateRunningBackup EventFailoverDone) w Hu)
    as (w1 & w' & -> & _ & _ & Hf & _ & _).
  { intros w1. by destruct (raft_apply_reliable id StateFailingOver StateRunningBackup EventFailoverDone w1) as (w2 & -> & _ & Hs & _). }
  destruct (raft_apply_reliable id StateFailingOver StateRunningBackup EventFailoverDone w1) as (w2 & Hr & Hs & _). rewrite Hr in *.
  cbn in *. unfold state_of in *. by rewrite Hf.
Qed.

(** Rows of an earlier sequence are never this one's. *)
Definition new_sequence (id : string) (w : W) : Prop := forall tr k, steps w !! (id, now tr, k) = None.

Lemma failover_outcome id w : new_sequence id w ->
  match failover id w with
  | (Ok _, w') => state_of id w' = StateRunningBackup
  | (Err _, w') => state_of id w' = StateFailed \/ (fsm w' = fsm w /\ trace w' = trace w)
  end.
Proof.
  intros Hnew. unfold failover, mbind, prog_mbind, bind, lookup_stack. destruct (get_stack id (trace w)) as [stack|]; [|by right].
  unfold CheckStackDestination. destruct (check_destination _ _ _); [by right|]. cbn [get]. set (seq := now (trace w)).
  assert (Hu : unwritten id seq 1 w) by (intros k _; apply Hnew).
  destruct (step_reliable id seq 1 "raft-quorum" (raft_apply id StateRunningPrimary StateFailingOver EventFailoverStart) w Hu)
    as (w1 & w2 & Hst & _ & _ & _ & _ & Hu2).
  { intros w1. by destruct (raft_apply_reliable id StateRunningPrimary StateFailingOver EventFailoverStart w1) as (w2 & -> & _ & Hs & _). }
  rewrite Hst. destruct (raft_apply_reliable id StateRunningPrimary StateFailingOver EventFailoverStart w1) as (w3 & Hr & _). rewrite Hr. cbn [fst].
  unfold attempt. destruct (step_reliable id seq 2 "zfs-sync" (attemptFinalSync stack) w2 Hu2) as (w4 & w5 & -> & _ & _ & _ & _ & Hu5).
  { intros w4. apply aside_sync. }
  pose proof (settles_take_over id stack seq w5 Hu5) as Hs. destruct (take_over id stack seq w5) as [[[]|e] w6]; [done|by left].
Qed.

(** No event a client or the orchestrator may propose leads out of the state. *)
Definition proposable : list string :=
  [EventCreateStack; EventStartStack; EventStopStack; EventUpdateStack; EventFailStack; EventFailoverStart; EventRestoreStart].

Lemma restore_outcome id w :
  match Restore id w with
  | (Ok _, w') => state_of id w' = StateRunningPrimary
  | (Err _, w') => state_of id w' = StateFailed \/ (fsm w' = fsm w /\ trace w' = trace w) \/
      (state_of id w' = StateRestoring /\ exists tr, stack_service id tr <> Ok None)
  end.
Proof.
  unfold Restore, mbind, prog_mbind, bind, lookup_stack. destruct (get_stack id (trace w)) as [stack|]; [|by right; left].
  unfold CheckStackDestination. destruct (check_destination _ _ _); [by right; left|].
  destruct (raft_apply_reliable id StateRunningBackup StateRestoring EventRestoreStart w) as (w1 & -> & Hs1 & _).
  destruct (aside_attempt _ (aside_execute id (BackupNodeID stack) (ComposeDown id)) w1) as (Hf2 & _).
  unfold attempt at 1. unfold attempt in Hf2. destruct (execute_on id (BackupNodeID stack) (ComposeDown id) w1) as [r2 w2]. cbn in Hf2.
  destruct (aside_attempt _ (aside_sync stack) w2) as (Hf3 & _).
  unfold attempt at 1. unfold attempt in Hf3. destruct (attemptFinalSync stack w2) as [r3 w3]. cbn in Hf3.
  pose proof (aside_move_back id stack w3) as (Hf4 & _).
  destruct (move_back id stack w3) as [[[]|e4] w4] eqn:Em; cbn in Hf4.
  - pose proof (aside_start (PrimaryNodeID stack) stack w4) as (Hf5 & _). unfold startOnPrimary, attempt at 1.
    destruct (startOn (PrimaryNodeID stack) stack w4) as [[[]|e5] w5]; cbn in Hf5.
    + destruct (raft_apply_reliable id StateRestoring StateRunningPrimary EventRestoreDone w5) as (w6 & -> & Hs6 & _). exact Hs6.
    + unfold attempt. destruct (raft_apply_reliable id StateRestoring StateFailed EventRestoreFailed w5) as (w6 & -> & Hs6 & _). by left.
  - right. right. split; [unfold state_of in *; by rewrite Hf4, Hf3, Hf2|]. exists (trace w3). intros Hn.
    unfold move_back, mbind, prog_mbind, bind, service_of in Em. rewrite Hn in Em. discriminate Em.
Qed.
End Outcomes.

(** ** Concrete runs *)

Definition web : Stack := mkStack "web" "web" "node1" "node2" "services: {}" "pool/web" "auto" "60s".
Definition in_state (state : string) : W :=
  mkW (FSM_Apply (Some (mkEntry "web" "" state "" 0 "")) NewFSM).2 ∅ ∅ {["web" := "node1"]} [].
(** The stack has the service address [address]; the nodes in [dead] do not
    answer and the [n]th and later calls of the database are refused. *)
Definition cluster (address : option string) (dead : list string) (refused : nat) : Env := {|
  get_stack := fun id _ => if decide (id = "web") then Some web else None;
  list_stacks := fun _ => Some [web];
  check_destination := fun _ _ _ => None;
  stack_service := fun _ _ => Ok address;
  reserved_addresses := fun _ _ => Some [];
  runtime_yaml := fun y _ _ => Some y;
  raft := fun _ _ => Done;
  database := fun tr => if decide (length (filter (fun e => match e with EStep _ _ _ => true | _ => false end = true) tr) = refused) then Refused else Done;
  host := fun node _ _ => if decide (node ∈ dead) then Some "unreachable" else None;
  cancelled := fun _ => false;
  now := fun tr => (Z.of_nat (length tr) * 30 * 1000000000 + 1767225600000000000)%Z |}.
Definition steady_cluster (address : option string) (dead : list string) : Env := {|
  get_stack := fun id _ => if decide (id = "web") then Some web else None;
  list_stacks := fun _ => Some [web];
  check_destination := fun _ _ _ => None;
  stack_service := fun _ _ => Ok address;
  reserved_addresses := fun _ _ => Some [];
  runtime_yaml := fun y _ _ => Some y;
  raft := fun _ _ => Done;
  database := fun _ => Done;
  host := fun node _ _ => if decide (node ∈ dead) then Some "unreachable" else None;
  cancelled := fun _ => false;
  now := fun tr => (Z.of_nat (length tr) * 30 * 1000000000 + 1767225600000000000)%Z |}.
#[export] Instance steady_reliable address dead : Reliable (steady_cluster address dead).
Proof. by split. Qed.
Lemma cluster_knows address dead n id tr s : @get_stack (cluster address dead n) id tr = Some s -> s = web.
Proof. cbn. destruct (decide (id = "web")); [by intros [= <-]|done]. Qed.
Lemma steady_knows address dead id tr s : @get_stack (steady_cluster address dead) id tr = Some s -> s = web.
Proof. cbn. destruct (decide (id = "web")); [by intros [= <-]|done]. Qed.

(** * Properties *)


(** Settled outcomes: when the Raft log and the database answer, a failover
    ends with the stack running on its backup, failed, or not touched at all,
    and its registration is gone; a failback ends with the stack running on its
    primary, failed, not touched at all, or - only for a stack with a service
    address - still restoring. *)
Theorem failover_settles (En : Env) (R : Reliable En) (id : string) (w : W)
  (Hnew : new_sequence id w) (Hidle : id ∉ active w) :
  (let '(r, w') := Execute id w in id ∉ active w' /\
     if is_ok r then state_of id w' = StateRunningBackup
     else state_of id w' = StateFailed \/ fsm w' = fsm w) /\
  (let '(r, w') := Restore id w in
     if is_ok r then state_of id w' = StateRunningPrimary
     else state_of id w' = StateFailed \/ fsm w' = fsm w \/
       (state_of id w' = StateRestoring /\ exists tr, stack_service id tr <> Ok None)).
Proof.
  split.
  - unfold Execute. unfold mbind, prog_mbind, bind. cbn [get]. rewrite decide_False by done.
    cbn [register modify]. set (w1 := set_active _ w).
    pose proof (failover_outcome id w1 Hnew) as Ho. unfold attempt. destruct (failover id w1) as [[[]|e] w2]; cbn.
    + split; [set_solver|exact Ho].
    + split; [set_solver|]. destruct Ho as [Ho|[Ho _]]; [by left|by right].
  - pose proof (restore_outcome id w) as Ho. destruct (Restore id w) as [[[]|e] w2]; cbn; [done|].
    destruct Ho as [Ho|[[Ho _]|Ho]]; auto.
Qed.

(** Three findings.  A failback of a stack with a service address, to a
    primary that does not answer, returns its error without recording that the
    failback failed; and a failover whose first step succeeds but cannot be
    recorded in the database returns without recording that it failed.  Either
    way the stack stays in a state that no event of a client or of the
    orchestrator leads out of.  And while a failover starts the stack on its
    backup it is no longer registered, so that a second one may begin. *)
Theorem interrupted_sequences_wedge :
  (exists e w' inst, @Restore (steady_cluster (Some "10.0.0.9/24") ["node1"]) "web" (in_state StateRunningBackup) = (Err e, w') /\
     FSM_State "web" (fsm w') = Some inst /\ InstState inst = StateRestoring /\
     forall t ev, ev ∈ proposable -> is_ok (Apply t inst ev) = false) /\
  (exists e w' inst, @Execute (cluster None [] 1) "web" (in_state StateRunningPrimary) = (Err e, w') /\
     FSM_State "web" (fsm w') = Some inst /\ InstState inst = StateFailingOver /\
     forall t ev, ev ∈ proposable -> is_ok (Apply t inst ev) = false) /\
  EHost "node2" (ComposeUp "web" "services: {}") true false ∈
    trace (@Execute (steady_cluster None []) "web" (in_state StateRunningPrimary)).2.
Proof.
  assert (Hst : forall inst, (InstState inst = StateRestoring \/ InstState inst = StateFailingOver) ->
    forall t ev, ev ∈ proposable -> is_ok (Apply t inst ev) = false).
  { intros [i st p lo u] Hs t ev Hev. cbn in Hs. unfold proposable in Hev.
    repeat (apply elem_of_cons in Hev as [->|Hev]; [unfold Apply; cbn [InstState LockedBy];
      destruct Hs as [-> | ->]; destruct (negb (bool_decide (lo = ""))); vm_compute; reflexivity|]). by apply elem_of_nil in Hev. }
  split; [|split].
  - do 3 eexists. split; [vm_compute; reflexivity|]. split; [vm_compute; reflexivity|]. split; [vm_compute; reflexivity|].
    apply Hst. left. vm_compute. reflexivity.
  - do 3 eexists. split; [vm_compute; reflexivity|]. split; [vm_compute; reflexivity|]. split; [vm_compute; reflexivity|].
    apply Hst. right. vm_compute. reflexivity.
  - apply list_elem_of_In. vm_compute. tauto.
Qed.


Lemma failover_settles_witness : state_of "web" (@Execute (steady_cluster None ["node1"]) "web" (in_state StateRunningPrimary)).2 = StateRunningBackup.
Proof.
  pose proof (failover_settles (steady_cluster None ["node1"]) (steady_reliable None ["node1"]) "web" (in_state StateRunningPrimary)) as [Hx _].
  - intros tr k. reflexivity.
  - apply (bool_decide_eq_true_1 _). vm_compute. reflexivity.
  - assert (Hok : is_ok (@Execute (steady_cluster None ["node1"]) "web" (in_state StateRunningPrimary)).1 = true) by (vm_compute; reflexivity).
    revert Hx Hok. destruct (@Execute (steady_cluster None ["node1"]) "web" (in_state StateRunningPrimary)) as [r w'].
    cbn [fst snd]. intros [_ Hx] Hok. rewrite Hok in Hx. exact Hx.
Defined.
