(* ===== verification/FailoverDetector.v ===== *)
(** The detector of [Failover.v]: a failover is launched only for a stack that
    was seen unreachable at every pass for its threshold. *)
From S2P Require Import Prelude GoTime Timestamp Release Update Run Lifecycle Failover FailoverSafety.

Open Scope string_scope.
Open Scope list_scope.

Section Detector.
Context `{Env} `{Durations}.

(** During a pass that recorded [l], the stack ran on its primary and that did
    not answer. *)
Definition unreachable (st : Stack) (w : W) (l : list event) : Prop :=
  (exists inst, FSM_State (sk_ID st) (fsm w) = Some inst /\ InstState inst = StateRunningPrimary) /\
  EHost (PrimaryNodeID st) SysInfo false false ∈ l.

(** What looking at one stack changes. *)
Definition looked_at (st : Stack) (s s' : Scan) (w : W) (l : list event) : Prop :=
  let id := sk_ID st in
  (downSince s' !! id = None /\ launched s' = launched s) \/
  (unreachable st w l /\ id ∈ activeIDs s' /\ launched s' = launched s /\
    ((downSince s !! id = None /\ exists tr, downSince s' !! id = Some (now (tr ++ trace w))) \/
     (is_Some (downSince s !! id) /\ downSince s' !! id = downSince s !! id))) \/
  (unreachable st w l /\ downSince s' !! id = None /\ launched s' = launched s ++ [id] /\
    exists since threshold tr, downSince s !! id = Some since /\ FailoverMode st = "auto" /\
      ParseDuration (AutoTriggerAfter st) = Some threshold /\ (threshold <= now (tr ++ trace w) - since)%Z).

Definition untouched (id : string) (s s' : Scan) : Prop :=
  downSince s' !! id = downSince s !! id /\ (id ∈ activeIDs s' <-> id ∈ activeIDs s) /\ (id ∈ launched s' <-> id ∈ launched s).

Lemma scan_stack_spec st s w : exists s' w' l, scan_stack st s w = (Ok s', w') /\ fsm w' = fsm w /\ trace w' = l ++ trace w /\
  looked_at st s s' w l /\ forall id, id <> sk_ID st -> untouched id s s'.
Proof.
  assert (Hgone : forall act, (forall id, id <> sk_ID st -> id ∈ act <-> id ∈ activeIDs s) -> forall w' l,
    fsm w' = fsm w -> trace w' = l ++ trace w -> exists s' w2 l2,
    (Ok (mkScan (delete (sk_ID st) (downSince s)) act (launched s)), w') = (@Ok string Scan s', w2) /\ fsm w2 = fsm w /\
    trace w2 = l2 ++ trace w /\ looked_at st s s' w l2 /\ forall id, id <> sk_ID st -> untouched id s s').
  { intros act Hact w' l Hf Ht. eexists _, _, l. split; [reflexivity|]. split_and!; [done|done| |].
    - left. split; [apply lookup_delete_eq|done].
    - intros id Hid. split; [by apply lookup_delete_ne|]. split; [by apply Hact|done]. }
  unfold scan_stack, mbind, prog_mbind, bind. cbn [get].
  destruct (FSM_State (sk_ID st) (fsm w)) as [inst|] eqn:Ei; [|by apply (Hgone _ ltac:(done) w [])].
  destruct (negb (bool_decide (InstState inst = StateRunningPrimary))) eqn:Er; [by apply (Hgone _ ltac:(done) w [])|].
  apply negb_false_iff, bool_decide_eq_true in Er. unfold ping, attempt, mbind, prog_mbind, bind, ret. cbn [fst snd].
  set (ok := match host (PrimaryNodeID st) SysInfo (trace w) with None => true | Some _ => false end).
  set (e := EHost (PrimaryNodeID st) SysInfo ok false).
  assert (Hact : forall id, id <> sk_ID st -> id ∈ {[sk_ID st]} ∪ activeIDs s <-> id ∈ activeIDs s) by set_solver.
  destruct (host (PrimaryNodeID st) SysInfo (trace w)) as [m|] eqn:Eh; cbn [is_ok]; [|by apply (Hgone _ Hact _ [e])].
  assert (Hun : unreachable st w [e]).
  { split; [by exists inst|]. apply list_elem_of_singleton. done. }
  destruct (downSince s !! sk_ID st) as [since|] eqn:Ed; cbn [downSince activeIDs launched].
  2: { rewrite Ed. eexists _, _, [e]. split; [reflexivity|]. split_and!; [done|done| |].
    - right. left. split_and!; [done|cbn; set_solver|done|]. left. split; [done|]. exists [e]. apply lookup_insert_eq.
    - intros id Hid. split_and!; [by apply lookup_insert_ne|by apply Hact|done]. }
  rewrite Ed.
  assert (Hkeep : exists s' w2 l2, (Ok (mkScan (downSince s) ({[sk_ID st]} ∪ activeIDs s) (launched s)), log e w) = (@Ok string Scan s', w2) /\
    fsm w2 = fsm w /\ trace w2 = l2 ++ trace w /\ looked_at st s s' w l2 /\ forall id, id <> sk_ID st -> untouched id s s').
  { eexists _, _, [e]. split; [reflexivity|]. split_and!; [done|done| |].
    - right. left. split_and!; [done|cbn; set_solver|done|]. right. by rewrite Ed.
    - intros id Hid. split_and!; [done|by apply Hact|done]. }
  destruct (_ || _) eqn:Em; [exact Hkeep|]. to_prop. destruct (ParseDuration _) as [threshold|] eqn:Ep; [|exact Hkeep].
  destruct (threshold <=? _)%Z eqn:Et; [|exact Hkeep]. apply Z.leb_le in Et.
  eexists _, _, [e]. split; [reflexivity|]. split_and!; [done|done| |].
  - right. right. split_and!; [done|apply lookup_delete_eq|done|]. exists since, threshold, [e]. by split_and!.
  - intros id Hid. split_and!; [by apply lookup_delete_ne|by apply Hact|]. cbn. set_solver.
Qed.

(** The same for a stack of a whole pass. *)
Definition decided (st : Stack) (s s' : Scan) (w : W) (l : list event) : Prop :=
  let id := sk_ID st in
  (downSince s' !! id = None /\ (id ∈ launched s' -> id ∈ launched s)) \/
  (unreachable st w l /\ (id ∈ launched s' -> id ∈ launched s) /\
    ((exists tr, downSince s' !! id = Some (now (tr ++ trace w))) \/
     (is_Some (downSince s !! id) /\ downSince s' !! id = downSince s !! id))) \/
  (unreachable st w l /\ downSince s' !! id = None /\
    exists since threshold tr, downSince s !! id = Some since /\ FailoverMode st = "auto" /\
      ParseDuration (AutoTriggerAfter st) = Some threshold /\ (threshold <= now (tr ++ trace w) - since)%Z).

Lemma unreachable_grows st w w1 l l1 l2 : fsm w1 = fsm w -> unreachable st w1 l -> unreachable st w (l1 ++ l ++ l2).
Proof. intros Hf [Hi He]. rewrite Hf in Hi. split; [done|]. rewrite !elem_of_app. tauto. Qed.

Lemma untouched_trans id s1 s2 s3 : untouched id s1 s2 -> untouched id s2 s3 -> untouched id s1 s3.
Proof. intros (H1 & H2 & H3) (H4 & H5 & H6). split_and!; [congruence|tauto|tauto]. Qed.

Lemma scan_spec stacks s w : NoDup (sk_ID <$> stacks) ->
  exists s' w' l, scan stacks s w = (Ok s', w') /\ fsm w' = fsm w /\ trace w' = l ++ trace w /\
    (forall st, st ∈ stacks -> decided st s s' w l) /\ forall id, id ∉ sk_ID <$> stacks -> untouched id s s'.
Proof.
  revert s w. induction stacks as [|st stacks IH]; intros s w Hnd.
  { exists s, w, []. split_and!; try done. intros st Hin. by apply elem_of_nil in Hin. }
  cbn [fmap list_fmap] in Hnd. apply NoDup_cons in Hnd as [Hni Hnd].
  destruct (scan_stack_spec st s w) as (s1 & w1 & l1 & H1 & Hf1 & Ht1 & Hl1 & Hu1).
  destruct (IH s1 w1 Hnd) as (s2 & w2 & l2 & H2 & Hf2 & Ht2 & Hl2 & Hu2).
  exists s2, w2, (l2 ++ l1). cbn [scan]. unfold mbind, prog_mbind, bind. rewrite H1.
  split_and!; [done|congruence|by rewrite Ht2, Ht1, app_assoc| |].
  - intros st' [->|Hin]%elem_of_cons.
    + destruct (Hu2 _ Hni) as (E1 & E2 & E3). unfold decided. rewrite E1, E3.
      destruct Hl1 as [(D & L)|[(U & A & L & C)|(U & D & L & C)]].
      * left. split; [done|]. by rewrite L.
      * right. left. split_and!; [|by rewrite L|].
        -- pose proof (unreachable_grows st w w l1 l2 [] eq_refl U) as U'. by rewrite app_nil_r in U'.
        -- destruct C as [[_ C]|C]; [by left|by right].
      * right. right. split_and!; [|done|done].
        pose proof (unreachable_grows st w w l1 l2 [] eq_refl U) as U'. by rewrite app_nil_r in U'.
    + assert (Hne : sk_ID st' <> sk_ID st).
      { intros Heq. apply Hni. rewrite <- Heq. by apply list_elem_of_fmap_2. }
      destruct (Hu1 _ Hne) as (E1 & E2 & E3). specialize (Hl2 st' Hin). unfold decided in *. rewrite <- E1, <- E3.
      assert (Hu : unreachable st' w1 l2 -> unreachable st' w (l2 ++ l1)).
      { intros U. by apply (unreachable_grows st' w w1 l2 [] l1). }
      destruct Hl2 as [D|[(U & L & C)|(U & D & since & th & tr & C1 & C2 & C3 & C4)]]; [by left|right; left|right; right].
      * split_and!; [by apply Hu|done|]. destruct C as [[tr C]|C]; [left|by right]. exists (tr ++ l1). by rewrite <- app_assoc, <- Ht1.
      * split_and!; [by apply Hu|done|]. exists since, th, (tr ++ l1). rewrite <- app_assoc, <- Ht1. by split_and!.
  - intros id Hid. cbn [fmap list_fmap] in Hid. apply not_elem_of_cons in Hid as [Hne Hid].
    eapply untouched_trans; [by apply Hu1|by apply Hu2].
Qed.

(** ** Passes over time *)

(** The passes so far, latest first, with the worlds they started in. *)
Inductive watching : list W -> gmap string Z -> Prop :=
| watching_start : watching [] ∅
| watching_pass h down w down' ls w' : watching h down -> tick down w = (Ok (down', ls), w') -> watching (w :: h) down'.

(** The pass that started in [w] saw stack [id] unreachable. *)
Definition seen_down (id : string) (w : W) : Prop :=
  exists stacks st l, list_stacks (trace w) = Some stacks /\ st ∈ stacks /\ sk_ID st = id /\ unreachable st w l.

(** [id] has been unreachable at every pass since one at time [t]; a pass that
    could not list the stacks saw nothing. *)
Inductive down_since (id : string) (t : Z) : list W -> Prop :=
| down_first w h tr : seen_down id w -> t = now (tr ++ trace w) -> down_since id t (w :: h)
| down_still w h : down_since id t h -> list_stacks (trace w) = None \/ seen_down id w -> down_since id t (w :: h).

Hypothesis listed_once : forall tr stacks, list_stacks tr = Some stacks -> NoDup (sk_ID <$> stacks).

Lemma tick_cases down w down' ls w' id : tick down w = (Ok (down', ls), w') ->
  (list_stacks (trace w) = None /\ down' = down /\ ls = []) \/
  (down' !! id = None /\ id ∉ ls) \/
  (seen_down id w /\ id ∉ ls /\ ((exists tr, down' !! id = Some (now (tr ++ trace w))) \/ (is_Some (down !! id) /\ down' !! id = down !! id))) \/
  (seen_down id w /\ down' !! id = None /\ exists st since threshold tr, sk_ID st = id /\ down !! id = Some since /\
     FailoverMode st = "auto" /\ ParseDuration (AutoTriggerAfter st) = Some threshold /\ (threshold <= now (tr ++ trace w) - since)%Z).
Proof.
  unfold tick, mbind, prog_mbind, bind. cbn [get]. destruct (list_stacks (trace w)) as [stacks|] eqn:El; [|intros [= <- <- <-]; by left].
  destruct (scan_spec stacks (mkScan down ∅ []) w (listed_once _ _ El)) as (s' & w2 & l & -> & _ & _ & Hd & Hu).
  intros [= <- <- <-]. right.
  assert (Hfil : forall t, filter (fun p => p.1 ∈ activeIDs s') (downSince s') !! id = Some t -> downSince s' !! id = Some t).
  { intros t Ht. by apply map_lookup_filter_Some in Ht as [? _]. }
  set (D := filter (fun p => p.1 ∈ activeIDs s') (downSince s')) in *.
  assert (Hcase : D !! id = None \/ D !! id = downSince s' !! id).
  { destruct (D !! id) as [t|] eqn:E; [right; symmetry; by apply Hfil|by left]. }
  destruct (decide (id ∈ sk_ID <$> stacks)) as [Hin|Hin].
  - apply list_elem_of_fmap in Hin as (st & -> & Hst). specialize (Hd st Hst). unfold decided in Hd. cbn [downSince launched] in Hd.
    assert (Hseen : unreachable st w l -> seen_down (sk_ID st) w) by (intros U; by exists stacks, st, l).
    destruct Hd as [(Dn & L)|[(U & L & C)|(U & Dn & since & th & tr & C)]].
    + left. split; [destruct Hcase as [?|E]; [done|by rewrite E]|]. intros Hl%L. by apply elem_of_nil in Hl.
    + destruct Hcase as [Hn|E]; [left; split; [done|]; intros Hl%L; by apply elem_of_nil in Hl|].
      right. left. rewrite E. split_and!; [by apply Hseen|intros Hl%L; by apply elem_of_nil in Hl|done].
    + right. right. split_and!; [by apply Hseen|destruct Hcase as [?|E]; [done|by rewrite E]|]. by exists st, since, th, tr.
  - left. destruct (Hu id Hin) as (E1 & E2 & E3). split.
    + destruct (D !! id) as [t|] eqn:E; [|done]. apply map_lookup_filter_Some in E as [_ Ha]. cbn in Ha. by apply E2 in Ha.
    + intros Hl%E3. by apply elem_of_nil in Hl.
Qed.

Lemma watching_down h down id t : watching h down -> down !! id = Some t -> down_since id t h.
Proof.
  induction 1 as [|h down w down' ls w' _ IH Ht]; [done|]. intros Hd.
  destruct (tick_cases _ _ _ _ _ id Ht) as [(Hn & -> & _)|[(Hn & _)|[(Hs & _ & [[tr Hn]|[_ Hn]])|(_ & Hn & _)]]].
  - apply down_still; [by apply IH|by left].
  - congruence.
  - rewrite Hd in Hn. injection Hn as ->. by eapply down_first.
  - apply down_still; [apply IH; congruence|by right].
  - congruence.
Qed.
End Detector.

(** * Properties *)

(** The detector launches a failover only for a stack in automatic mode whose
    primary failed to answer, while it ran there, in this pass and in every
    pass since one that is at least the stack's threshold ago (passes that
    could not list the stacks aside); one answered probe, or another state,
    starts the wait again. *)
Theorem failover_after_threshold `{Env} `{Durations} (h : list W) (down down' : gmap string Z) (w w' : W) (ls : list string) (id : string)
  (listed_once : forall tr stacks, list_stacks tr = Some stacks -> NoDup (sk_ID <$> stacks))
  (Hh : watching h down) (Ht : tick down w = (Ok (down', ls), w')) (Hid : id ∈ ls) :
  seen_down id w /\ down' !! id = None /\
  exists since, down_since id since h /\
    exists st threshold tr, sk_ID st = id /\ FailoverMode st = "auto" /\ ParseDuration (AutoTriggerAfter st) = Some threshold /\
      (threshold <= now (tr ++ trace w) - since)%Z.
Proof.
  destruct (tick_cases listed_once _ _ _ _ _ id Ht) as [(_ & _ & ->)|[(_ & Hn)|[(_ & Hn & _)|(Hs & Hd & st & since & th & tr & Hst & Hsi & Hm & Hp & Hle)]]].
  - by apply elem_of_nil in Hid.
  - done.
  - done.
  - split_and!; [done|done|]. exists since. split; [by eapply watching_down|]. by exists st, th, tr.
Qed.

(** ** Witness *)

#[export] Instance seconds_only : Durations := {|
  ParseDuration := fun s => if decide (s = "60s") then Some (60 * Second) else None |}.
Definition dead_primary : Env := steady_cluster None ["node1"].
(** Passes at which 0, 1 and 3 events happened: thirty seconds each. *)
Definition pass (n : nat) : W :=
  let w := in_state StateRunningPrimary in mkW (fsm w) (active w) (steps w) (active_node w) (repeat (ENotify "" "") n).

Lemma failover_after_threshold_witness : exists since, @down_since dead_primary "web" since [pass 1; pass 0] /\
  (exists tr, 60 * Second <= @now dead_primary (tr ++ trace (pass 3)) - since)%Z.
Proof.
  assert (H0 : exists d0 w0, @tick dead_primary seconds_only ∅ (pass 0) = (Ok (d0, []), w0) /\
    exists d1 w1, @tick dead_primary seconds_only d0 (pass 1) = (Ok (d1, []), w1) /\
    exists d2 w2, @tick dead_primary seconds_only d1 (pass 3) = (Ok (d2, ["web"]), w2)).
  { do 2 eexists. split; [vm_compute; reflexivity|]. do 2 eexists. split; [vm_compute; reflexivity|]. do 2 eexists. vm_compute. reflexivity. }
  destruct H0 as (d0 & w0 & T0 & d1 & w1 & T1 & d2 & w2 & T2).
  assert (Hh : @watching dead_primary seconds_only [pass 1; pass 0] d1).
  { exact (watching_pass _ _ _ _ _ _ (watching_pass _ _ _ _ _ _ watching_start T0) T1). }
  destruct (@failover_after_threshold dead_primary seconds_only [pass 1; pass 0] d1 d2 (pass 3) w2 ["web"] "web") as (_ & _ & since & Hs & st & th & tr & _ & _ & Hp & Hle).
  - intros tr stacks [= <-]. repeat constructor; apply (bool_decide_eq_true_1 _); vm_compute; reflexivity.
  - exact Hh.
  - exact T2.
  - apply list_elem_of_singleton. reflexivity.
  - exists since. split; [exact Hs|]. exists tr. cbn [ParseDuration seconds_only] in Hp.
    destruct (decide (AutoTriggerAfter st = "60s")); [injection Hp as <-; exact Hle|discriminate Hp].
Defined.
