(* ===== verification/Monitoring.v ===== *)
(** Checks and their incidents: [Record] of [src/pkg/monitoring/store.go] on the
    tables of [src/pkg/rqlite/migrations.go].

    The world is the history of the shared database, latest state first: every
    producer on every node, and every user, adds states to it.  A batch of
    statements is a transaction; between two calls of a producer others may
    write, and a call may fail before or after its commit.  JSON columns are
    held in decoded form; instants are nanoseconds. *)
From S2P Require Import Prelude GoTime.

Open Scope string_scope.

(** ** Rows *)

Record Resource := mkResource {
  HostID : string; WorkloadID : string; Pool : string; Dataset : string; SourceID : string; DestinationID : string }.

(** [Labels]: [None] is the nil map.  [Evidence] is the text of its JSON. *)
Record Result := mkResult {
  CheckID : string; Producer : string; Kind : string; Res : Resource; Observer : string; Target : string;
  Status : string; Reason : string; ObservedAt : Z; EvaluatedAt : Z; ExpiresAt : Z;
  Labels : option (gmap string string); Evidence : string }.

Definition set_ObservedAt (t : Z) (r : Result) : Result :=
  mkResult (CheckID r) (Producer r) (Kind r) (Res r) (Observer r) (Target r) (Status r) (Reason r) t (EvaluatedAt r)
    (ExpiresAt r) (Labels r) (Evidence r).

Record Check := mkCheck {
  Last : Result; LastSuccess : Z; IncidentID : string; Severity : string; Notified : bool }.

(** The state of a row that was just registered: the JSON text [{}]. *)
Definition zero_result : Result :=
  mkResult "" "" "" (mkResource "" "" "" "" "" "") "" "" "" "" zero_time zero_time zero_time None "".
Definition zero_check : Check := mkCheck zero_result zero_time "" "" false.

Record CheckRow := mkCheckRow { ck_producer : string; ck_state : Check; ck_version : Z }.
Record AlertRow := mkAlertRow {
  al_rule : string; al_stack : string; al_node : string; al_severity : string; al_kind : string; al_state : string;
  al_message : string; al_created : Z; al_updated : Z; al_labels : gmap string string;
  al_silenced : option Z; al_resolved : option Z; al_reason : option string }.
Record NoteRow := mkNoteRow {
  nt_alert : string; nt_stack : string; nt_node : string; nt_kind : string; nt_severity : string; nt_title : string;
  nt_body : string; nt_state : string; nt_created : Z; nt_silenced : option Z; nt_resolved : option Z }.
Record ObsRow := mkObsRow { ob_check : string; ob_at : Z; ob_result : Result }.

Section Tables.
(** The tables a producer keeps besides the shared ones. *)
Context {X : Type}.

Record DB := mkDB {
  checks : gmap string CheckRow;
  alerts : gmap string AlertRow;
  notifications : gmap string NoteRow;
  observations : gmap string ObsRow;
  own : X }.

Definition set_checks c (d : DB) : DB := mkDB c (alerts d) (notifications d) (observations d) (own d).
Definition set_alerts a (d : DB) : DB := mkDB (checks d) a (notifications d) (observations d) (own d).
Definition set_notifications n (d : DB) : DB := mkDB (checks d) (alerts d) n (observations d) (own d).
Definition set_observations o (d : DB) : DB := mkDB (checks d) (alerts d) (notifications d) o (own d).
Definition set_own x (d : DB) : DB := mkDB (checks d) (alerts d) (notifications d) (observations d) x.

(** [Transition]: [Extra] gives the statements that join the producer's own
    tables to the transaction, for the incident it ends with; [Guard] is the
    producer's condition on its tables. *)
Record Transition := mkTransition {
  result_of : Result; RuleID : string; Title : string; Message : string; Sev : string; Action : string; Notify : bool;
  Extra : option (string -> X -> X); Guard : option (X -> bool) }.

(** ** Statements *)

(** A statement: [None] when a constraint aborts the batch. *)
Definition stmt := DB -> option DB.
Fixpoint batch (l : list stmt) : stmt := fun d =>
  match l with [] => Some d | s :: l => d' ← s d; batch l d' end.

Definition register (id producer : string) : stmt := fun d =>
  Some match checks d !! id with
       | Some _ => d
       | None => set_checks (<[id := mkCheckRow producer zero_check 0]> (checks d)) d
       end.

Definition insert_alert (id : string) (a : AlertRow) : stmt := fun d =>
  if bool_decide (is_Some (alerts d !! id)) then None else Some (set_alerts (<[id := a]> (alerts d)) d).
Definition update_alert (id : string) (f : AlertRow -> AlertRow) : stmt := fun d => Some (set_alerts (alter f id (alerts d)) d).
Definition close_alert (now : Z) (reason : string) (a : AlertRow) : AlertRow :=
  mkAlertRow (al_rule a) (al_stack a) (al_node a) (al_severity a) (al_kind a) "resolved" (al_message a) (al_created a) now
    (al_labels a) (al_silenced a) (Some now) (Some reason).
Definition amend_alert (t : Transition) (a : AlertRow) : AlertRow :=
  mkAlertRow (al_rule a) (WorkloadID (Res (result_of t))) (HostID (Res (result_of t))) (Sev t) (al_kind a) (al_state a) (Message t)
    (al_created a) (EvaluatedAt (result_of t)) (default ∅ (Labels (result_of t))) (al_silenced a) (al_resolved a) (al_reason a).
Definition new_alert (t : Transition) : AlertRow :=
  let r := result_of t in
  mkAlertRow (RuleID t) (WorkloadID (Res r)) (HostID (Res r)) (Sev t) (Kind r) "active" (Message t) (EvaluatedAt r) (EvaluatedAt r)
    (default ∅ (Labels r)) None None None.
Definition resolve_notifications (alert : string) (now : Z) : stmt := fun d =>
  Some (set_notifications ((fun n => if decide (nt_alert n = alert)
    then mkNoteRow (nt_alert n) (nt_stack n) (nt_node n) (nt_kind n) (nt_severity n) (nt_title n) (nt_body n) (nt_state n)
           (nt_created n) (nt_silenced n) (Some now)
    else n) <$> notifications d) d).
Definition insert_observation (id : string) (t : Transition) : stmt := fun d =>
  if bool_decide (is_Some (observations d !! id)) then None
  else Some (set_observations (<[id := mkObsRow (CheckID (result_of t)) (EvaluatedAt (result_of t)) (result_of t)]> (observations d)) d).

Definition rank (s : string) : Z :=
  if decide (s = "critical") then 3%Z else if decide (s = "warning") then 2%Z else 1%Z.
Definition nowReason (t : Transition) : string := if decide (Reason (result_of t) = "") then "recovered" else Reason (result_of t).
End Tables.

Arguments DB : clear implicits.
Arguments Transition : clear implicits.
Arguments stmt : clear implicits.

(** ** The producer's view: queries, transactions, other writers *)

Inductive reply := Fine | LostBefore | LostAfter.

(** [later a b] is SQLite's [julianday(a) > julianday(b)]. *)
Class MonEnv (X : Type) := {
  io : nat -> reply;
  others : nat -> list (DB X) -> list (DB X);
  newID : nat -> string;
  later : Z -> Z -> bool;
  has_broker : bool }.

Record W (X : Type) := mkW { db : DB X; past : list (DB X); tick : nat; published : list string }.
Arguments mkW {X}.
Arguments db {X}.
Arguments past {X}.
Arguments tick {X}.
Arguments published {X}.

(** Every state of the database so far, the current one first. *)
Definition states {X} (w : W X) : list (DB X) := db w :: past w.

Abbreviation cmd X := (prog string (W X)).

Section Client.
Context {X : Type} `{MonEnv X}.

(** Others add their states. *)
Definition interleave (w : W X) : W X :=
  match others (tick w) (states w) with
  | [] => mkW (db w) (past w) (S (tick w)) (published w)
  | d :: l => mkW d (l ++ states w)%list (S (tick w)) (published w)
  end.
Definition enter (d : DB X) (w : W X) : W X := mkW d (states w) (tick w) (published w).

Definition query {A} (q : DB X -> A) : cmd X A := fun w =>
  let w' := interleave w in
  (match io (tick w) with Fine => Ok (q (db w')) | _ => Err "rqlite: query" end, w').

Definition Execute (s : stmt X) : cmd X unit := fun w =>
  let w' := interleave w in
  match io (tick w), s (db w') with
  | LostBefore, _ => (Err "rqlite: http", w')
  | _, None => (Err "rqlite: execute error", w')
  | Fine, Some d => (Ok tt, enter d w')
  | LostAfter, Some d => (Err "rqlite: http", enter d w')
  end.

Definition fresh : cmd X string := fun w => (Ok (newID (tick w)), mkW (db w) (past w) (S (tick w)) (published w)).
Definition publish (id : string) : cmd X unit := modify (fun w => mkW (db w) (past w) (tick w) (id :: published w)).

(** ** [Record] *)

Definition known_status (s : string) : bool := bool_decide (s ∈ ["healthy"; "failing"; "unknown"; "disabled"; "unsupported"]).
Definition known_action (s : string) : bool := bool_decide (s ∈ ["keep"; "open"; "resolve"; "retire"]).
Definition known_severity (s : string) : bool := bool_decide (s ∈ ["info"; "warning"; "critical"]).
Definition same (a b : string) : bool := bool_decide (a = b).

(** A positive result needs evidence that is there, not from the future and not
    expired. *)
Definition stale (r : Result) : bool :=
  IsZero (ObservedAt r) || (EvaluatedAt r <? ObservedAt r)%Z ||
  (negb (IsZero (ExpiresAt r)) && (ExpiresAt r <? EvaluatedAt r)%Z).

Definition validate (t : Transition X) : result string unit :=
  let r := result_of t in
  if same (CheckID r) "" || same (Producer r) "" || same (Kind r) "" || IsZero (EvaluatedAt r)
  then Err "monitoring: check identity, producer, kind and evaluation time required"
  else if negb (known_status (Status r)) then Err "monitoring: invalid check status"
  else if negb (known_action (Action t)) then Err "monitoring: invalid transition"
  else if (same (Status r) "healthy" || same (Status r) "failing") && stale r
  then Err "monitoring: positive check result requires fresh evidence"
  else if same (Action t) "open" && negb (same (Status r) "failing") || same (Action t) "resolve" && negb (same (Status r) "healthy") ||
          same (Action t) "retire" && negb (same (Status r) "disabled")
  then Err "monitoring: transition contradicts check status"
  else if negb (known_severity (Sev t)) then Err "monitoring: invalid severity"
  else Ok tt.

(** Nothing to do: the check already holds this evaluation or a later one, or
    the evidence is not newer. *)
Definition superseded (t : Transition X) (old : Check) : bool :=
  let r := result_of t in
  negb (EvaluatedAt (Last old) <? EvaluatedAt r)%Z ||
  (same (Action t) "open" && ((ObservedAt r <? ObservedAt (Last old))%Z ||
                            (same (IncidentID old) "" && negb (ObservedAt (Last old) <? ObservedAt r)%Z))) ||
  (same (Action t) "resolve" && negb (ObservedAt (Last old) <? ObservedAt r)%Z).

Definition ends (t : Transition X) : bool := same (Action t) "resolve" || same (Action t) "retire".
Definition opens (t : Transition X) (old : Check) : bool := same (Action t) "open" && same (IncidentID old) "".

(** The kind of the notification a transition sends, if any. *)
Definition note_kind (t : Transition X) (old : Check) : string :=
  if same (Action t) "open" then
    if same (IncidentID old) "" then "alert"
    else if (rank (Severity old) <? rank (Sev t))%Z then "alert.escalated" else ""
  else if ends t && negb (same (IncidentID old) "") && Notified old then "alert.resolved"
  else "".
Definition notifies (t : Transition X) (old : Check) : bool := Notify t && negb (same (note_kind t old) "").

(** The state the check is given; [inc] is the incident's identity. *)
Definition next_check (t : Transition X) (old : Check) (inc : string) : Check :=
  let r := result_of t in
  let seen := Z.max (ObservedAt r) (ObservedAt (Last old)) in
  let success := if same (Status r) "healthy" && (LastSuccess old <? ObservedAt r)%Z then ObservedAt r else LastSuccess old in
  mkCheck (set_ObservedAt seen r) success
    (if ends t then "" else inc)
    (if same (Action t) "open" then Sev t else Severity old)
    (if ends t then false else notifies t old || Notified old).

Definition new_note (t : Transition X) (old : Check) (inc : string) (silenced : option Z) : NoteRow :=
  let r := result_of t in
  let now := EvaluatedAt r in
  mkNoteRow inc (WorkloadID (Res r)) (HostID (Res r)) (note_kind t old) (Sev t) (Title t) (Message t)
    (if match silenced with Some s => later s now | None => false end then "silenced" else "unread") now silenced None.

(** [INSERT ... SELECT ... FROM alerts WHERE id=?]. *)
Definition insert_note (id : string) (t : Transition X) (old : Check) (inc : string) : stmt X := fun d =>
  match alerts d !! inc with
  | None => Some d
  | Some a => if bool_decide (is_Some (notifications d !! id)) then None
              else Some (set_notifications (<[id := new_note t old inc (al_silenced a)]> (notifications d)) d)
  end.
Definition update_check (id : string) (next : Check) : stmt X := fun d =>
  Some (set_checks (alter (fun row => mkCheckRow (ck_producer row) next (ck_version row + 1)%Z) id (checks d)) d).

(** The condition every statement carries. *)
Definition holds (t : Transition X) (version : Z) (d : DB X) : bool :=
  match checks d !! CheckID (result_of t) with Some row => (ck_version row =? version)%Z | None => false end &&
  match Guard t with Some g => g (own d) | None => true end.
Definition guarded (g : DB X -> bool) (s : stmt X) : stmt X := fun d => if g d then s d else Some d.

Definition statements (t : Transition X) (row : CheckRow) (inc note obs : string) : list (stmt X) :=
  let old := ck_state row in
  let now := EvaluatedAt (result_of t) in
  let g := guarded (holds t (ck_version row)) in
  ((if same (Action t) "open" then
      [g (if same (IncidentID old) "" then insert_alert inc (new_alert t) else update_alert inc (amend_alert t))] else []) ++
   (if ends t && negb (same (IncidentID old) "") then
      [g (update_alert inc (close_alert now (nowReason t))); g (resolve_notifications inc now)] else []) ++
   (if notifies t old then [g (insert_note note t old inc)] else []) ++
   [g (insert_observation obs t); g (update_check (CheckID (result_of t)) (next_check t old inc))] ++
   match Extra t with
   | Some f => [guarded (fun d => bool_decide (is_Some (observations d !! obs)))
                  (fun d => Some (set_own (f (IncidentID (next_check t old inc)) (own d)) d))]
   | None => []
   end)%list.
Definition transaction (t : Transition X) (row : CheckRow) (inc note obs : string) : stmt X := batch (statements t row inc note obs).

(** [SELECT id FROM notifications WHERE id=? AND state!='silenced'] *)
Definition visible (id : string) (d : DB X) : bool :=
  match notifications d !! id with Some n => negb (same (nt_state n) "silenced") | None => false end.

(** One round, from the row it read; [retry] is the rest of the loop. *)
Definition record_round (t : Transition X) (row : CheckRow) (retry : cmd X unit) : cmd X unit :=
  inc ← (if opens t (ck_state row) then fresh else ret (IncidentID (ck_state row)));
  note ← (if notifies t (ck_state row) then fresh else ret "");
  obs ← fresh;
  Execute (transaction t row inc note obs);;
  committed ← query (fun d => bool_decide (is_Some (observations d !! obs)));
  if negb committed then match Guard t with Some _ => ret tt | None => retry end
  else if notifies t (ck_state row) && has_broker then
    shown ← query (visible note);
    if (shown : bool) then publish note else ret tt
  else ret tt.

Fixpoint record_loop (attempts : nat) (t : Transition X) : cmd X unit :=
  match attempts with
  | O => fail "monitoring: concurrent check updates; retry observation"
  | S attempts =>
      rows ← query (fun d => checks d !! CheckID (result_of t));
      match rows with
      | None => fail "monitoring: check belongs to another producer"
      | Some row =>
          if negb (same (ck_producer row) (Producer (result_of t))) then fail "monitoring: check belongs to another producer"
          else if superseded t (ck_state row) then ret tt
          else record_round t row (record_loop attempts t)
      end
  end.

Definition Record (t : Transition X) : cmd X unit :=
  of_result (validate t);;
  Execute (register (CheckID (result_of t)) (Producer (result_of t)));;
  record_loop 8 t.
End Client.

(** ** What users may do to incidents: [handleDeleteAlert] and
    [handleSilenceAlert] of [src/internal/control/routes_config.go]. *)
Section Users.
Context {X : Type}.

Definition is_resolved (id : string) (d : DB X) : bool :=
  match alerts d !! id with Some a => same (al_state a) "resolved" | None => false end.
Definition is_active (id : string) (d : DB X) : bool :=
  match alerts d !! id with Some a => same (al_state a) "active" | None => false end.

Definition delete_resolved (id : string) : stmt X :=
  batch [(fun d => Some (if is_resolved id d then set_notifications (filter (fun x => nt_alert x.2 <> id) (notifications d)) d else d));
         (fun d => Some (if is_resolved id d then set_alerts (delete id (alerts d)) d else d))].

Definition mute_note (id : string) (until : Z) (n : NoteRow) : NoteRow :=
  if decide (nt_alert n = id /\ nt_resolved n = None)
  then mkNoteRow (nt_alert n) (nt_stack n) (nt_node n) (nt_kind n) (nt_severity n) (nt_title n) (nt_body n) "silenced"
         (nt_created n) (Some until) (nt_resolved n)
  else n.
Definition silence_alert (id : string) (until : Z) : stmt X :=
  batch [update_alert id (fun a => if same (al_state a) "active"
           then mkAlertRow (al_rule a) (al_stack a) (al_node a) (al_severity a) (al_kind a) (al_state a) (al_message a)
                  (al_created a) (al_updated a) (al_labels a) (Some until) (al_resolved a) (al_reason a) else a);
         (fun d => Some (if is_active id d then set_notifications (mute_note id until <$> notifications d) d else d))].
End Users.
