(* ===== verification/MonitoringSafety.v ===== *)
(** What [Record] guarantees: whatever the producers and users of
    [Monitoring.v] do, in any order and failing anywhere, checks and incidents
    agree, and an incident ends only with newer evidence of health or with the
    removal of what was monitored. *)
From S2P Require Import Prelude GoTime Monitoring.

Open Scope string_scope.

#[local] Arguments guarded : simpl never.

Section Shared.
Context {X : Type}.
(** Which transitions a producer may attempt after a history, what else it may
    do to its own tables, and what they held at first. *)
Context (permitted : list (DB X) -> Transition X -> Prop) (own_step : list (DB X) -> X -> X -> Prop) (first : X).
Context `{!MonEnv X}.

(** One atomic change of the database, after the history [h] whose latest state
    is [d].  A producer acts on a row that some earlier state held. *)
Inductive client (h : list (DB X)) (d : DB X) : DB X -> Prop :=
| client_record t row d0 inc note obs d' :
    d0 ∈ h -> checks d0 !! CheckID (result_of t) = Some row -> permitted h t -> validate t = Ok tt ->
    ck_producer row = Producer (result_of t) -> superseded t (ck_state row) = false -> (if opens t (ck_state row) then inc <> "" else inc = IncidentID (ck_state row)) ->
    observations d !! obs = None -> transaction t row inc note obs d = Some d' -> client h d d'
| client_register id producer d' : register id producer d = Some d' -> client h d d'
| client_delete id d' : delete_resolved id d = Some d' -> client h d d'
| client_silence id until d' : silence_alert id until d = Some d' -> client h d d'
| client_inbox n : client h d (set_notifications n d)
| client_own x : own_step h (own d) x -> client h d (set_own x d).

Inductive reach : list (DB X) -> Prop :=
| reach_start : reach [mkDB ∅ ∅ ∅ ∅ first]
| reach_step d h d' : reach (d :: h) -> client (d :: h) d d' -> reach (d' :: d :: h).

(** ** One transaction *)

Lemma holds_ext t v (d d' : DB X) : checks d' = checks d -> own d' = own d -> holds t v d' = holds t v d.
Proof. unfold holds. by intros -> ->. Qed.

(** What a transaction of [Record] does where its guard holds. *)
Record effect (t : Transition X) (row : CheckRow) (inc note obs : string) (d d' : DB X) : Prop := mkEffect {
  ef_checks : checks d' = <[CheckID (result_of t) := mkCheckRow (ck_producer row) (next_check t (ck_state row) inc) (ck_version row + 1)%Z]> (checks d);
  ef_own : own d' = match Extra t with Some f => f (IncidentID (next_check t (ck_state row) inc)) (own d) | None => own d end;
  ef_observed : observations d' = <[obs := mkObsRow (CheckID (result_of t)) (EvaluatedAt (result_of t)) (result_of t)]> (observations d);
  ef_opens : opens t (ck_state row) = true -> alerts d !! inc = None /\ alerts d' = <[inc := new_alert t]> (alerts d);
  ef_amends : Action t = "open" -> opens t (ck_state row) = false -> alerts d' = alter (amend_alert t) inc (alerts d);
  ef_ends : ends t = true -> IncidentID (ck_state row) <> "" ->
    alerts d' = alter (close_alert (EvaluatedAt (result_of t)) (nowReason t)) inc (alerts d);
  ef_keeps : Action t <> "open" -> (ends t = false \/ IncidentID (ck_state row) = "") -> alerts d' = alerts d;
  ef_notes : dom (notifications d') ⊆ dom (notifications d) ∪ (if notifies t (ck_state row) then {[note]} else ∅) }.

Lemma guarded_holds t v (s : stmt X) d : holds t v d = true -> guarded (holds t v) s d = s d.
Proof. unfold guarded. by intros ->. Qed.

Lemma batch_concat (l1 l2 : list (stmt X)) d : batch (l1 ++ l2)%list d = (d' ← batch l1 d; batch l2 d').
Proof. revert d. induction l1 as [|s l1 IH]; intros d; [done|]. simpl. destruct (s d); simpl; auto. Qed.

(** A batch of guarded statements does nothing where the guard fails. *)
Lemma transaction_refused t row inc note obs (d : DB X) :
  holds t (ck_version row) d = false -> observations d !! obs = None ->
  transaction t row inc note obs d = Some d.
Proof.
  intros Hg Hobs. unfold transaction, statements.
  assert (forall l : list (stmt X), Forall (fun s => s d = Some d) l -> batch l d = Some d) as Hb.
  { induction 1 as [|s l Hs _ IH]; [done|]. simpl. by rewrite Hs. }
  assert (forall s : stmt X, guarded (holds t (ck_version row)) s d = Some d) as Hgs by (intros s; unfold guarded; by rewrite Hg).
  apply Hb. rewrite !Forall_app. repeat case_step; repeat constructor; simpl; auto.
  all: unfold guarded; by rewrite Hobs.
Qed.

(** The statements of a transaction, as the tables they write. *)
Definition alert_statements (t : Transition X) (row : CheckRow) (inc : string) : list (stmt X) :=
  let g := guarded (holds t (ck_version row)) in
  ((if same (Action t) "open" then
      [g (if same (IncidentID (ck_state row)) "" then insert_alert inc (new_alert t) else update_alert inc (amend_alert t))] else []) ++
   (if ends t && negb (same (IncidentID (ck_state row)) "") then
      [g (update_alert inc (close_alert (EvaluatedAt (result_of t)) (nowReason t)));
       g (resolve_notifications inc (EvaluatedAt (result_of t)))] else []))%list.

(** They leave the rest alone. *)
Record beside (d d' : DB X) : Prop := mkBeside {
  bs_checks : checks d' = checks d; bs_own : own d' = own d; bs_observed : observations d' = observations d }.

Lemma alert_statements_effect t row inc (d d1 : DB X) :
  holds t (ck_version row) d = true -> batch (alert_statements t row inc) d = Some d1 ->
  beside d d1 /\ dom (notifications d1) = dom (notifications d) /\
  (opens t (ck_state row) = true -> alerts d !! inc = None /\ alerts d1 = <[inc := new_alert t]> (alerts d)) /\
  (Action t = "open" -> opens t (ck_state row) = false -> alerts d1 = alter (amend_alert t) inc (alerts d)) /\
  (ends t = true -> IncidentID (ck_state row) <> "" ->
     alerts d1 = alter (close_alert (EvaluatedAt (result_of t)) (nowReason t)) inc (alerts d)) /\
  (Action t <> "open" -> (ends t = false \/ IncidentID (ck_state row) = "") -> alerts d1 = alerts d).
Proof.
  intros Hg. unfold alert_statements, opens. destruct (decide (Action t = "open")) as [Ho|Ho].
  - assert (ends t = false) as He by (unfold ends, same; rewrite Ho; done).
    rewrite He. unfold same at 1 4. rewrite bool_decide_eq_true_2 by done. simpl. rewrite guarded_holds by done.
    unfold same. destruct (decide (IncidentID (ck_state row) = "")) as [Hi|Hi].
    + rewrite !bool_decide_eq_true_2 by done. unfold insert_alert. case_bool_decide as Hs; [done|]. simpl. intros [= <-].
      rewrite <- eq_None_not_Some in Hs. split_and!; done.
    + rewrite !bool_decide_eq_false_2 by done. simpl. intros [= <-]. split_and!; done.
  - unfold same at 1 4. rewrite (bool_decide_eq_false_2 (Action t = "open")) by done. simpl.
    destruct (ends t && negb (same (IncidentID (ck_state row)) "")) eqn:He.
    + apply andb_true_iff in He as [He Hi]. unfold same in Hi. apply negb_true_iff, bool_decide_eq_false in Hi.
      simpl. rewrite guarded_holds by done. simpl. rewrite guarded_holds by done. simpl. intros [= <-]. simpl.
      split_and!; try done. { by rewrite dom_fmap_L. } intros _ [?|?]; congruence.
    + simpl. intros [= <-]. split_and!; try done.
      intros He' Hi'. rewrite He' in He. simpl in He. unfold same in He. rewrite bool_decide_eq_false_2 in He by done. done.
Qed.

Lemma note_statements_effect t row inc note (d d1 : DB X) :
  holds t (ck_version row) d = true ->
  batch (if notifies t (ck_state row) then [guarded (holds t (ck_version row)) (insert_note note t (ck_state row) inc)] else []) d = Some d1 ->
  beside d d1 /\ alerts d1 = alerts d /\
  dom (notifications d1) ⊆ dom (notifications d) ∪ (if notifies t (ck_state row) then {[note]} else ∅).
Proof.
  intros Hg. case_match; simpl.
  - rewrite guarded_holds by done. unfold insert_note. case_match; [case_match; [done|]|]; simpl; intros [= <-].
    + split_and!; try done. simpl. rewrite dom_insert_L. set_solver.
    + split_and!; try done. set_solver.
  - intros [= <-]. split_and!; try done. set_solver.
Qed.

Definition tail_statements (t : Transition X) (row : CheckRow) (inc obs : string) : list (stmt X) :=
  let g := guarded (holds t (ck_version row)) in
  ([g (insert_observation obs t); g (update_check (CheckID (result_of t)) (next_check t (ck_state row) inc))] ++
   match Extra t with
   | Some f => [guarded (fun d => bool_decide (is_Some (observations d !! obs)))
                  (fun d => Some (set_own (f (IncidentID (next_check t (ck_state row) inc)) (own d)) d))]
   | None => []
   end)%list.

Lemma statements_eq t row inc note obs : statements t row inc note obs =
  (alert_statements t row inc ++
   (if notifies t (ck_state row) then [guarded (holds t (ck_version row)) (insert_note note t (ck_state row) inc)] else []) ++
   tail_statements t row inc obs)%list.
Proof. unfold statements, alert_statements, tail_statements. by rewrite <- app_assoc. Qed.

Lemma tail_statements_effect t row inc obs (d d1 : DB X) :
  holds t (ck_version row) d = true -> checks d !! CheckID (result_of t) = Some row ->
  batch (tail_statements t row inc obs) d = Some d1 ->
  checks d1 = <[CheckID (result_of t) := mkCheckRow (ck_producer row) (next_check t (ck_state row) inc) (ck_version row + 1)%Z]> (checks d) /\
  own d1 = match Extra t with Some f => f (IncidentID (next_check t (ck_state row) inc)) (own d) | None => own d end /\
  observations d1 = <[obs := mkObsRow (CheckID (result_of t)) (EvaluatedAt (result_of t)) (result_of t)]> (observations d) /\
  alerts d1 = alerts d /\ notifications d1 = notifications d.
Proof.
  intros Hg Hrow. unfold tail_statements. rewrite batch_concat. simpl. rewrite guarded_holds by done.
  unfold insert_observation at 1. case_bool_decide; [done|]. simpl. rewrite guarded_holds by done. simpl.
  set (next := mkCheckRow _ _ _).
  assert (alter (fun row0 => mkCheckRow (ck_producer row0) (next_check t (ck_state row) inc) (ck_version row0 + 1)%Z)
            (CheckID (result_of t)) (checks d) = <[CheckID (result_of t) := next]> (checks d)) as ->.
  { apply map_eq. intros i. destruct (decide (i = CheckID (result_of t))) as [->|].
    - by rewrite lookup_alter_eq, lookup_insert_eq, Hrow.
    - by rewrite lookup_alter_ne, lookup_insert_ne. }
  destruct (Extra t) as [f|]; simpl; [|by intros [= <-]].
  unfold guarded. simpl. rewrite lookup_insert_eq, bool_decide_eq_true_2 by done. simpl. by intros [= <-].
Qed.

Lemma transaction_effect t row inc note obs (d d' : DB X) :
  holds t (ck_version row) d = true -> checks d !! CheckID (result_of t) = Some row ->
  transaction t row inc note obs d = Some d' -> effect t row inc note obs d d'.
Proof.
  intros Hg Hrow. unfold transaction. rewrite statements_eq, !batch_concat.
  destruct (batch (alert_statements t row inc) d) as [d1|] eqn:H1; [|done]. simpl. rewrite batch_concat.
  apply alert_statements_effect in H1 as ([Hc1 Ho1 Hb1] & Hn1 & Hop & Ham & Hen & Hk); [|done].
  assert (holds t (ck_version row) d1 = true) as Hg1 by (by rewrite (holds_ext _ _ d)).
  destruct (batch (if notifies _ _ then _ else _) d1) as [d2|] eqn:H2; [|done]. simpl. intros H3.
  apply note_statements_effect in H2 as ([Hc2 Ho2 Hb2] & Ha2 & Hn2); [|done].
  apply tail_statements_effect in H3 as (Hc3 & Ho3 & Hb3 & Ha3 & Hn3);
    [|by rewrite (holds_ext _ _ d1)|by rewrite Hc2, Hc1].
  split; rewrite ?Ha3, ?Ha2, ?Hc3, ?Ho3, ?Hb3, ?Hn3, ?Hc2, ?Ho2, ?Hb2, ?Hc1, ?Ho1, ?Hb1 in *; auto. by rewrite Hn1 in Hn2.
Qed.

(** A batch either does all of this or nothing. *)
Lemma transaction_cases t row row0 inc note obs (d d' : DB X) :
  checks d !! CheckID (result_of t) = Some row0 -> (ck_version row0 = ck_version row -> row0 = row) ->
  observations d !! obs = None -> transaction t row inc note obs d = Some d' ->
  (d' = d /\ holds t (ck_version row) d = false) \/
  (row0 = row /\ holds t (ck_version row) d = true /\ effect t row inc note obs d d').
Proof.
  intros Hrow Hv Hobs Ht. destruct (holds t (ck_version row) d) eqn:Hg.
  - right. assert (row0 = row) as ->. { apply Hv. unfold holds in Hg. rewrite Hrow in Hg. to_prop. lia. }
    eauto using transaction_effect.
  - left. rewrite transaction_refused in Ht by done. split; congruence.
Qed.

(** ** Rows only move forward *)

(** Versions grow, and a version stands for one state of the row. *)
Definition grows (d0 d : DB X) : Prop := forall id row0, checks d0 !! id = Some row0 -> exists row,
  checks d !! id = Some row /\ ck_producer row = ck_producer row0 /\ (ck_version row0 <= ck_version row)%Z /\
  (ObservedAt (Last (ck_state row0)) <= ObservedAt (Last (ck_state row)))%Z /\
  (ck_version row = ck_version row0 -> row = row0).

#[export] Instance grows_preorder : PreOrder grows.
Proof.
  split.
  - intros d id row0 H. exists row0. split_and!; auto; lia.
  - intros d0 d1 d2 H01 H12 id row0 H. destruct (H01 _ _ H) as (row1 & H1 & Hp1 & Hv1 & Ho1 & Hs1).
    destruct (H12 _ _ H1) as (row2 & H2 & Hp2 & Hv2 & Ho2 & Hs2). exists row2. split_and!; [done|congruence|lia|lia|].
    intros Hv. rewrite Hs2 by lia. apply Hs1. lia.
Qed.

Definition active (id : string) (d : DB X) : Prop := exists a, alerts d !! id = Some a /\ al_state a = "active".

(** A step that commits no transition: it may register a check, and it leaves
    every active incident active. *)
Record quiet (d d' : DB X) : Prop := mkQuiet {
  qt_checks : checks d' = checks d \/ exists id p, checks d !! id = None /\ checks d' = <[id := mkCheckRow p zero_check 0]> (checks d);
  qt_alerts : forall id a', alerts d' !! id = Some a' -> exists a, alerts d !! id = Some a /\ al_state a' = al_state a /\ al_resolved a' = al_resolved a;
  qt_active : forall id, active id d -> active id d' }.

(** The transition [t] was committed on the row it was computed from. *)
Record committed (h : list (DB X)) (t : Transition X) (row : CheckRow) (inc note obs : string) (d d' : DB X) : Prop := mkCommitted {
  cm_permitted : permitted h t; cm_valid : validate t = Ok tt; cm_producer : ck_producer row = Producer (result_of t);
  cm_new : superseded t (ck_state row) = false;
  cm_row : checks d !! CheckID (result_of t) = Some row;
  cm_incident : if opens t (ck_state row) then inc <> "" else inc = IncidentID (ck_state row);
  cm_holds : holds t (ck_version row) d = true;
  cm_effect : effect t row inc note obs d d' }.

Lemma quiet_same_checks (d d' : DB X) : checks d' = checks d -> alerts d' = alerts d -> quiet d d'.
Proof. intros Hc Ha. split; [by left|intros id a'; rewrite Ha; eauto|unfold active; by rewrite Ha]. Qed.

Lemma delete_resolved_quiet id (d d' : DB X) : delete_resolved id d = Some d' -> quiet d d'.
Proof.
  unfold delete_resolved. simpl. destruct (is_resolved id d) eqn:Hr; cycle 1.
  { rewrite Hr. intros [= <-]. by apply quiet_same_checks. }
  change (is_resolved id (set_notifications ?n d)) with (is_resolved id d). rewrite Hr. intros [= <-].
  unfold is_resolved in Hr. destruct (alerts d !! id) as [a|] eqn:Ha; [|done]. unfold same in Hr. apply bool_decide_eq_true in Hr.
  split; [by left| |].
  - intros id' a'. simpl. intros [? H]%lookup_delete_Some. eauto.
  - intros id' (a' & Ha' & Hs). exists a'. split; [|done]. simpl. apply lookup_delete_Some. split; [|done]. intros <-. congruence.
Qed.

Lemma silence_alert_quiet id until (d d' : DB X) : silence_alert id until d = Some d' -> quiet d d'.
Proof.
  unfold silence_alert. simpl. intros [= <-].
  match goal with |- quiet d (if _ then set_notifications _ (set_alerts ?f d) else _) => set (al := f) end.
  assert (forall k, (alerts d !! k = None /\ al !! k = None) \/
    exists a a', alerts d !! k = Some a /\ al !! k = Some a' /\ al_state a' = al_state a /\ al_resolved a' = al_resolved a) as Hk.
  { intros k. subst al. destruct (decide (k = id)) as [->|]; [rewrite lookup_alter_eq|rewrite lookup_alter_ne by done].
    - destruct (alerts d !! id) as [a|]; [|by left]. right. do 2 eexists. split; [done|]. split; [done|]. simpl. by destruct (same (al_state a) "active").
    - destruct (alerts d !! k); [right; eauto 10|by left]. }
  assert (forall d'', checks d'' = checks d -> alerts d'' = al -> quiet d d'') as Hq.
  { intros d'' Hc Ha. split; [by left| |].
    - intros k a'. rewrite Ha. destruct (Hk k) as [[_ ->]|(a & a1 & ? & -> & ? & ?)]; [done|]. intros [= <-]. eauto.
    - intros k (a & Hka & Hs). destruct (Hk k) as [[? _]|(a0 & a1 & H0 & H1 & Hs1 & _)]; [congruence|].
      exists a1. rewrite Ha. split; [done|]. congruence. }
  case_match; by apply Hq.
Qed.

Lemma client_cases h (d d' : DB X) : (forall d0, d0 ∈ h -> grows d0 d) -> client h d d' ->
  (quiet d d' /\ (own d' = own d \/ own_step h (own d) (own d'))) \/ exists t row inc note obs, committed h t row inc note obs d d'.
Proof.
  intros Hh. destruct 1 as [t row d0 inc note obs d' Hd0 Hrow Hp Hv Hprod Hsup Hinc Hobs Ht|id p d' [= <-]| | | | ].
  - destruct (Hh _ Hd0 _ _ Hrow) as (row1 & Hrow1 & _ & _ & _ & Hv1).
    destruct (transaction_cases _ _ _ _ _ _ _ _ Hrow1 Hv1 Hobs Ht) as [[-> _]|(-> & Hg & He)].
    + left. split; [by apply quiet_same_checks|by left].
    + right. exists t, row, inc, note, obs. by split.
  - left. destruct (checks d !! id) eqn:Hc; [split; [by apply quiet_same_checks|by left]|].
    split; [|by left]. split; [right; by exists id, p|eauto|done].
  - left. split; [by eapply delete_resolved_quiet|left]. revert H. unfold delete_resolved. simpl. intros [= <-]. by repeat case_match.
  - left. split; [by eapply silence_alert_quiet|left]. revert H. unfold silence_alert. simpl. intros [= <-]. by case_match.
  - left. split; [by apply quiet_same_checks|by left].
  - left. split; [by apply quiet_same_checks|by right].
Qed.

Lemma quiet_grows (d d' : DB X) : quiet d d' -> grows d d'.
Proof.
  intros [[Hc|(id & p & Hn & Hc)] _ _] k row Hk; exists row; rewrite Hc; [by split_and!; auto with lia|].
  rewrite lookup_insert_ne by congruence. by split_and!; auto with lia.
Qed.

Lemma committed_grows h t row inc note obs (d d' : DB X) : committed h t row inc note obs d d' -> grows d d'.
Proof.
  intros [_ _ _ _ Hrow _ _ [Hc _ _ _ _ _ _ _]] k row0 Hk. rewrite Hc.
  destruct (decide (k = CheckID (result_of t))) as [->|]; [rewrite lookup_insert_eq|rewrite lookup_insert_ne by done].
  - rewrite Hrow in Hk. injection Hk as <-. eexists. split_and!; [done|done|simpl; lia|simpl; lia|simpl; lia].
  - exists row0. by split_and!; auto with lia.
Qed.

Lemma reach_grows d h : reach (d :: h) -> forall d0, d0 ∈ d :: h -> grows d0 d.
Proof.
  remember (d :: h) as l eqn:El. intros Hr. revert d h El. induction Hr as [|d1 h1 d' Hr IH Hc]; intros d h [= <- <-] d0 Hd0.
  - apply list_elem_of_singleton in Hd0 as ->. done.
  - specialize (IH d1 h1 eq_refl).
    assert (grows d1 d') as Hs by (destruct (client_cases _ _ _ IH Hc) as [[? _]|(t & row & inc & note & obs & ?)];
      eauto using quiet_grows, committed_grows).
    apply elem_of_cons in Hd0 as [->|Hd0]; [done|]. transitivity d1; auto.
Qed.

(** ** Checks and incidents agree *)

Record coherent (d : DB X) : Prop := mkCoherent {
  co_open : forall c row, checks d !! c = Some row -> IncidentID (ck_state row) <> "" -> active (IncidentID (ck_state row)) d;
  co_owned : forall id, active id d -> exists c row, checks d !! c = Some row /\ IncidentID (ck_state row) = id /\ id <> "";
  co_apart : forall c1 c2 r1 r2, checks d !! c1 = Some r1 -> checks d !! c2 = Some r2 ->
    IncidentID (ck_state r1) = IncidentID (ck_state r2) -> IncidentID (ck_state r1) <> "" -> c1 = c2;
  co_state : forall id a, alerts d !! id = Some a ->
    (al_state a = "active" /\ al_resolved a = None) \/ (al_state a = "resolved" /\ al_resolved a <> None) }.

(** Incidents as the checks hold them. *)
Definition incident (d : DB X) (c : string) : string :=
  match checks d !! c with Some row => IncidentID (ck_state row) | None => "" end.

Lemma coherent_iff d : coherent d <->
  (forall c, incident d c <> "" -> active (incident d c) d) /\
  (forall id, active id d -> id <> "" /\ exists c, incident d c = id) /\
  (forall c1 c2, incident d c1 = incident d c2 -> incident d c1 <> "" -> c1 = c2) /\
  (forall id a, alerts d !! id = Some a ->
    (al_state a = "active" /\ al_resolved a = None) \/ (al_state a = "resolved" /\ al_resolved a <> None)).
Proof.
  unfold incident. split.
  - intros [Ho Hw Ha Hs]. split_and!; [| | |done].
    + intros c. destruct (checks d !! c) eqn:E; [eauto|done].
    + intros id (c & row & E & Hi & Hn)%Hw. split; [done|]. exists c. by rewrite E.
    + intros c1 c2. destruct (checks d !! c1) eqn:E1; [|done]. destruct (checks d !! c2) eqn:E2; [eauto|congruence].
  - intros (Ho & Hw & Ha & Hs). split; [| | |done].
    + intros c row E. specialize (Ho c). by rewrite E in Ho.
    + intros id [Hn (c & Hc)]%Hw. destruct (checks d !! c) as [row|] eqn:E; [|congruence]. by exists c, row.
    + intros c1 c2 r1 r2 E1 E2. specialize (Ha c1 c2). by rewrite E1, E2 in Ha.
Qed.

(** Steps that leave every incident where it is, and every alert in its state. *)
Lemma coherent_same (d d' : DB X) : (forall c, incident d' c = incident d c) ->
  (forall id a', alerts d' !! id = Some a' -> exists a, alerts d !! id = Some a /\ al_state a' = al_state a /\ al_resolved a' = al_resolved a) ->
  (forall id, active id d -> active id d') -> coherent d -> coherent d'.
Proof.
  rewrite !coherent_iff. intros Hi Ha Hact (Ho & Hw & Hap & Hs). split_and!.
  - intros c. rewrite Hi. auto.
  - intros id (a' & (a & ? & Hst & _)%Ha & ?). destruct (Hw id) as [? [c ?]]; [exists a; split; congruence|].
    split; [done|]. exists c. by rewrite Hi.
  - intros c1 c2. rewrite !Hi. auto.
  - intros id a' (a & Hl & -> & ->)%Ha. eauto.
Qed.

Lemma alter_like (f : AlertRow -> AlertRow) inc (m : gmap string AlertRow) :
  (forall a, al_state (f a) = al_state a /\ al_resolved (f a) = al_resolved a) ->
  (forall id a', alter f inc m !! id = Some a' -> exists a, m !! id = Some a /\ al_state a' = al_state a /\ al_resolved a' = al_resolved a) /\
  (forall id a, m !! id = Some a -> exists a', alter f inc m !! id = Some a' /\ al_state a' = al_state a).
Proof.
  intros Hf. split; intros id a; (destruct (decide (id = inc)) as [->|];
    [rewrite lookup_alter_eq|rewrite lookup_alter_ne by done; eauto]).
  - intros (a0 & ? & ->)%fmap_Some. destruct (Hf a0). eauto.
  - intros ->. simpl. destruct (Hf a). eauto.
Qed.

Lemma quiet_coherent (d d' : DB X) : quiet d d' -> coherent d -> coherent d'.
Proof.
  intros [Hc Ha Hact]. apply coherent_same; [|done|done].
  intros c. unfold incident. destruct Hc as [->|(id & p & Hn & ->)]; [done|].
  destruct (decide (c = id)) as [->|]; [rewrite lookup_insert_eq, Hn|rewrite lookup_insert_ne]; done.
Qed.

(** What a commit does to the incident of its check. *)
Lemma committed_incident h t row inc note obs (d d' : DB X) : committed h t row inc note obs d d' ->
  incident d (CheckID (result_of t)) = IncidentID (ck_state row) /\
  forall c, incident d' c = if decide (c = CheckID (result_of t)) then (if ends t then "" else inc) else incident d c.
Proof.
  intros [_ _ _ _ Hrow _ _ [Hc _ _ _ _ _ _ _]]. unfold incident. rewrite Hrow. split; [done|]. intros c. rewrite Hc.
  case_decide as Hd; [rewrite Hd, lookup_insert_eq|rewrite lookup_insert_ne]; done.
Qed.

Lemma opens_spec (t : Transition X) (old : Check) :
  opens t old = true <-> Action t = "open" /\ IncidentID old = "".
Proof. unfold opens, same. rewrite andb_true_iff, !bool_decide_eq_true. done. Qed.
Lemma ends_spec (t : Transition X) : ends t = true <-> Action t = "resolve" \/ Action t = "retire".
Proof. unfold ends, same. rewrite orb_true_iff, !bool_decide_eq_true. done. Qed.

Lemma committed_coherent h t row inc note obs (d d' : DB X) :
  committed h t row inc note obs d d' -> coherent d -> coherent d'.
Proof.
  intros Hcm Hco. destruct (committed_incident _ _ _ _ _ _ _ _ Hcm) as [Hold Hnew].
  destruct Hcm as [_ _ _ _ _ Hinc _ [_ _ _ Hop Ham Hen Hk _]].
  destruct (opens t (ck_state row)) eqn:Eo.
  { destruct (Hop eq_refl) as [Hfree Hal]. apply opens_spec in Eo as [Hact Hi0].
    assert (ends t = false) as He by (unfold ends, same; rewrite Hact; done). rewrite He in Hnew.
    apply coherent_iff in Hco as (Ho & Hw & Hap & Hs). apply coherent_iff.
    assert (forall id, active id d' <-> id = inc \/ active id d) as Hiff.
    { intros id. unfold active. rewrite Hal. destruct (decide (id = inc)) as [->|];
        [rewrite lookup_insert_eq|rewrite lookup_insert_ne by done; naive_solver].
      split; [by left|]. intros _. by eexists. }
    assert (~ active inc d) as Hna by (intros (? & ? & _); congruence). split_and!.
    - intros c. rewrite Hnew, Hiff. case_decide; auto.
    - intros id. rewrite Hiff. intros [->|(? & c & Hc)%Hw].
      + split; [done|]. exists (CheckID (result_of t)). rewrite Hnew. by rewrite decide_True.
      + split; [done|]. exists c. rewrite Hnew, decide_False; [done|]. congruence.
    - intros c1 c2. rewrite !Hnew. case_decide as H1; case_decide as H2; [congruence| | |auto].
      + intros Hi Hn. destruct Hna. rewrite Hi in Hn |- *. auto.
      + intros Hi Hn. destruct Hna. rewrite <- Hi. auto.
    - intros id a. rewrite Hal. intros [[<- <-]|[? ?]]%lookup_insert_Some; [by left|eauto]. }
  destruct (decide (ends t = true /\ IncidentID (ck_state row) <> "")) as [[He Hi]|Hnend].
  { specialize (Hen He Hi). rewrite He in Hnew. subst inc. rewrite <- Hold in *.
    set (c0 := CheckID (result_of t)) in *.
    apply coherent_iff in Hco as (Ho & Hw & Hap & Hs). apply coherent_iff.
    assert (forall id, active id d' <-> id <> incident d c0 /\ active id d) as Hiff.
    { intros id. unfold active. rewrite Hen. destruct (decide (id = incident d c0)) as [->|];
        [rewrite lookup_alter_eq|rewrite lookup_alter_ne by done; naive_solver].
      split; [|by intros []]. intros (a & (a0 & _ & ->)%fmap_Some & [=]). }
    split_and!.
    - intros c. rewrite Hnew, Hiff. case_decide; [done|]. intros Hn. split; [|auto]. intros Heq. destruct (Hap c c0); auto.
    - intros id. rewrite Hiff. intros [Hne (? & c & Hc)%Hw]. split; [done|]. exists c. rewrite Hnew, decide_False; congruence.
    - intros c1 c2. rewrite !Hnew. repeat case_decide; intros Hi' Hn; try congruence; auto.
    - intros id a. rewrite Hen. destruct (decide (id = incident d c0)) as [->|];
        [rewrite lookup_alter_eq|rewrite lookup_alter_ne by done; eauto].
      intros (a0 & _ & ->)%fmap_Some. right. done. }
  (* the incident stays *)
  apply (coherent_same d); [| | |done].
  - intros c. rewrite Hnew. case_decide as Hd; [|done]. rewrite Hd, Hold. destruct (ends t) eqn:He; [|congruence].
    destruct (decide (IncidentID (ck_state row) = "")); [congruence|]. by destruct Hnend.
  - destruct (decide (Action t = "open")) as [Ha|Ha]; [rewrite Ham by done; apply alter_like; by intros|].
    rewrite Hk; [eauto|done|]. destruct (ends t); [right|by left]. destruct (decide (IncidentID (ck_state row) = "")); [done|by destruct Hnend].
  - unfold active. destruct (decide (Action t = "open")) as [Ha|Ha].
    + rewrite Ham by done. intros id (a & Hl & Hs). edestruct (alter_like (amend_alert t) inc (alerts d)) as [_ H]; [by intros|].
      destruct (H _ _ Hl) as (a' & ? & ?). exists a'. split; congruence.
    + rewrite Hk; [done|done|]. destruct (ends t); [right|by left]. destruct (decide (IncidentID (ck_state row) = "")); [done|by destruct Hnend].
Qed.

Lemma reach_coherent d h : reach (d :: h) -> coherent d.
Proof.
  remember (d :: h) as l eqn:El. intros Hr. revert d h El. induction Hr as [|d1 h1 d' Hr IH Hc]; intros d h [= <- <-].
  - split; intros *; try (intros (? & [=] & _)); set_solver.
  - destruct (client_cases _ _ _ (reach_grows _ _ Hr) Hc) as [[? _]|(t & row & inc & note & obs & ?)];
      eauto using quiet_coherent, committed_coherent.
Qed.

(** ** When incidents begin and end *)

(** The evidence is there, not from the future, not expired, and newer than
    all the check has seen. *)
Definition newer (t : Transition X) (old : Check) : Prop :=
  let r := result_of t in
  ObservedAt r <> zero_time /\ (ObservedAt (Last old) < ObservedAt r <= EvaluatedAt r)%Z /\
  (ExpiresAt r = zero_time \/ (EvaluatedAt r <= ExpiresAt r)%Z).

Definition begins (t : Transition X) (old : Check) : Prop :=
  Action t = "open" /\ Status (result_of t) = "failing" /\ newer t old.
Definition finishes (t : Transition X) (old : Check) : Prop :=
  (Action t = "resolve" /\ Status (result_of t) = "healthy" /\ newer t old) \/
  (Action t = "retire" /\ Status (result_of t) = "disabled").

Lemma validate_spec (t : Transition X) : validate t = Ok tt ->
  (Status (result_of t) = "healthy" \/ Status (result_of t) = "failing" -> stale (result_of t) = false) /\
  (Action t = "open" -> Status (result_of t) = "failing") /\
  (Action t = "resolve" -> Status (result_of t) = "healthy") /\
  (Action t = "retire" -> Status (result_of t) = "disabled").
Proof.
  unfold validate, same. repeat case_match; try done. intros _. to_prop.
  split_and!; [intros [E|E]|intros E..]; repeat case_bool_decide; simpl in *; try congruence; done.
Qed.

Lemma stale_spec r : stale r = false ->
  ObservedAt r <> zero_time /\ (ObservedAt r <= EvaluatedAt r)%Z /\ (ExpiresAt r = zero_time \/ (EvaluatedAt r <= ExpiresAt r)%Z).
Proof.
  unfold stale, IsZero. rewrite !orb_false_iff, andb_false_iff, negb_false_iff, !Z.eqb_eq, !Z.eqb_neq, !Z.ltb_ge. intros [[? ?] ?]. auto.
Qed.

Lemma superseded_spec (t : Transition X) (old : Check) : superseded t old = false ->
  (EvaluatedAt (Last old) < EvaluatedAt (result_of t))%Z /\
  (Action t = "open" -> IncidentID old = "" -> (ObservedAt (Last old) < ObservedAt (result_of t))%Z) /\
  (Action t = "resolve" -> (ObservedAt (Last old) < ObservedAt (result_of t))%Z).
Proof.
  unfold superseded, same. rewrite !orb_false_iff, negb_false_iff, Z.ltb_lt. intros [[H1 H2] H3].
  split_and!; [done| |].
  - intros Ha Hi. rewrite !bool_decide_eq_true_2 in H2 by done. simpl in H2. to_prop. lia.
  - intros Ha. rewrite bool_decide_eq_true_2 in H3 by done. simpl in H3. to_prop. lia.
Qed.

Lemma committed_begins h t row inc note obs (d d' : DB X) : committed h t row inc note obs d d' ->
  opens t (ck_state row) = true -> begins t (ck_state row).
Proof.
  intros [_ Hv _ Hs _ _ _ _] [Ha Hi]%opens_spec. apply validate_spec in Hv as (Hst & Ho & _). apply superseded_spec in Hs as (_ & Hn & _).
  split_and!; [done|auto|]. destruct (stale_spec (result_of t)) as (? & ? & ?); [auto|]. split; [done|]. split; [|done]. split; auto.
Qed.

Lemma committed_finishes h t row inc note obs (d d' : DB X) : committed h t row inc note obs d d' ->
  ends t = true -> finishes t (ck_state row).
Proof.
  intros [_ Hv _ Hs _ _ _ _] Ha%ends_spec. apply validate_spec in Hv as (Hst & _ & Hr & Hret). apply superseded_spec in Hs as (_ & _ & Hn).
  destruct Ha as [Ha|Ha]; [left|right; auto]. split_and!; [done|auto|].
  destruct (stale_spec (result_of t)) as (? & ? & ?); [auto|]. split; [done|]. split; [|done]. split; auto.
Qed.

(** The incident of a check changes only by a committed transition of that
    check. *)
Lemma incident_changes (d d' : DB X) h c : reach (d' :: d :: h) ->
  incident d' c = incident d c \/
  exists t row inc note obs, committed (d :: h) t row inc note obs d d' /\ CheckID (result_of t) = c /\
    (EvaluatedAt (Last (ck_state row)) < EvaluatedAt (result_of t))%Z /\
    ((incident d c = "" /\ active (incident d' c) d' /\ begins t (ck_state row)) \/
     (incident d c <> "" /\ incident d' c = "" /\ ~ active (incident d c) d' /\ finishes t (ck_state row))).
Proof.
  intros Hr. inversion Hr as [|? ? ? Hr1 Hc]; subst.
  pose proof (reach_coherent _ _ Hr) as [Ho' Hw' Ha' _].
  destruct (client_cases _ _ _ (reach_grows _ _ Hr1) Hc) as [[[Hq _ _] _]|(t & row & inc & note & obs & Hcm)].
  { left. unfold incident. destruct Hq as [->|(id & p & Hn & ->)]; [done|].
    destruct (decide (c = id)) as [->|]; [rewrite lookup_insert_eq, Hn|rewrite lookup_insert_ne]; done. }
  destruct (committed_incident _ _ _ _ _ _ _ _ Hcm) as [Hold Hnew]. pose proof (Hnew c) as Hc'. case_decide as Hd; [|by left]. subst c.
  assert (Hinc := cm_incident _ _ _ _ _ _ _ _ Hcm). assert (Hsup := cm_new _ _ _ _ _ _ _ _ Hcm).
  assert (forall Q, Q -> committed (d :: h) t row inc note obs d d' /\ CheckID (result_of t) = CheckID (result_of t) /\
    (EvaluatedAt (Last (ck_state row)) < EvaluatedAt (result_of t))%Z /\ Q) as Hrest.
  { intros Q HQ. split_and!; try done. by apply superseded_spec in Hsup as []. }
  destruct (opens t (ck_state row)) eqn:Eo; [|destruct (ends t) eqn:Ee].
  - right. exists t, row, inc, note, obs. apply Hrest. left. split_and!.
    + by apply opens_spec in Eo as [_ Hi]; rewrite Hold.
    + pose proof Eo as [Ea _]%opens_spec. assert (ends t = false) as He by (unfold ends, same; rewrite Ea; done).
      rewrite He in Hc'. pose proof (proj1 (coherent_iff d') (reach_coherent _ _ Hr)) as (Hopen & _). apply Hopen. by rewrite Hc'.
    + by eapply committed_begins.
  - destruct (decide (incident d (CheckID (result_of t)) = "")) as [Hz|Hz]; [left; congruence|].
    right. exists t, row, inc, note, obs. apply Hrest. right. split_and!; [done|done| |by eapply committed_finishes].
    intros Hact. pose proof (proj1 (coherent_iff d') (reach_coherent _ _ Hr)) as (_ & Hown & _).
    pose proof (proj1 (coherent_iff d) (reach_coherent _ _ Hr1)) as (_ & _ & Hap & _).
    destruct (Hown _ Hact) as [_ [c1 Hc1]]. rewrite Hnew in Hc1. case_decide; [congruence|]. assert (c1 = CheckID (result_of t)); [apply Hap; congruence|done].
  - left. rewrite Hc', Hinc. done.
Qed.

(** ** [Record] among others *)

(** The other clients are clients too, and nobody invents the identities that
    are drawn here. *)
Class Neighbours := {
  others_reach : forall n h, reach h -> reach (others n h ++ h)%list;
  others_ids : forall n h d m, d ∈ others n h -> is_Some (observations d !! newID m) ->
    exists d0, d0 ∈ h /\ is_Some (observations d0 !! newID m);
  newID_inj : forall n m, newID n = newID m -> n = m;
  newID_nonempty : forall n, newID n <> "";
  permitted_mono : forall l h t, permitted h t -> permitted (l ++ h)%list t }.
Context {neighbours : Neighbours}.

Record settled (w : W X) : Prop := mkSettled {
  se_reach : reach (states w);
  se_ids : forall m d, (tick w <= m)%nat -> d ∈ states w -> observations d !! newID m = None }.

(** [w'] comes after [w]. *)
Definition after (w w' : W X) : Prop := settled w' /\ states w `suffix_of` states w'.

Lemma after_refl w : settled w -> after w w.
Proof. by intros Hs; split. Qed.
Lemma after_trans w1 w2 w3 : after w1 w2 -> after w2 w3 -> after w1 w3.
Proof. intros [_ H1] [Hs H2]. split; [done|]. by etrans. Qed.

Lemma states_interleave (w : W X) : states (interleave w) = (others (tick w) (states w) ++ states w)%list.
Proof. unfold interleave. by destruct (others _ _). Qed.
Lemma tick_interleave (w : W X) : tick (interleave w) = S (tick w).
Proof. unfold interleave. by destruct (others _ _). Qed.

Lemma interleave_after w : settled w -> after w (interleave w).
Proof.
  intros [Hr Hi]. split; [|exists (others (tick w) (states w)); apply states_interleave]. split.
  - rewrite states_interleave. by apply others_reach.
  - intros m d. rewrite tick_interleave, states_interleave. intros Hm [Hd|Hd]%elem_of_app; [|apply Hi; [lia|done]].
    destruct (observations d !! newID m) eqn:E; [|done].
    destruct (others_ids _ _ d m Hd) as (d0 & H0 & [o' Ho]); [by rewrite E|]. by rewrite (Hi m d0) in Ho by (done || lia).
Qed.

Lemma fresh_after w : settled w -> exists w1, fresh w = (Ok (newID (tick w)), w1) /\ after w w1 /\ tick w1 = S (tick w) /\ states w1 = states w.
Proof.
  intros [Hr Hi]. eexists. split; [done|]. split; [|done]. split; [|by exists []]. split; [done|]. intros m d Hm. apply Hi. simpl in Hm. lia.
Qed.

Lemma query_after {A} (q : DB X -> A) w : settled w -> let '(r, w') := query q w in
  after w w' /\ tick w' = S (tick w) /\ (forall a, r = Ok a -> a = q (db w')).
Proof.
  intros Hs. unfold query. split; [by apply interleave_after|]. split; [apply tick_interleave|].
  intros a. destruct (io (tick w)); congruence.
Qed.

(** A write the environment may carry out. *)
Lemma Execute_after (s : stmt X) w : settled w ->
  (forall d', s (db (interleave w)) = Some d' -> client (states (interleave w)) (db (interleave w)) d' /\
     forall m, (S (tick w) <= m)%nat -> observations d' !! newID m = None) ->
  let '(r, w') := Execute s w in
  after w w' /\ tick w' = S (tick w) /\
  (r = Ok tt -> s (db (interleave w)) = Some (db w') /\ past w' = states (interleave w)).
Proof.
  intros Hs Hc. pose proof (interleave_after _ Hs) as [Hs1 [l El]]. unfold Execute.
  assert (forall d', s (db (interleave w)) = Some d' -> after w (enter d' (interleave w))) as Henter.
  { intros d' Hd. destruct (Hc _ Hd) as [Hcl Hid]. split; [|exists (d' :: l); unfold enter, states at 1; simpl; by rewrite El].
    split; [apply reach_step; [apply Hs1|done]|].
    intros m d. unfold enter. simpl. rewrite tick_interleave. intros Hm [->|Hd']%elem_of_cons; [auto|].
    apply Hs1; [by rewrite tick_interleave|done]. }
  destruct (io (tick w)), (s (db (interleave w))) as [d'|] eqn:E; split_and!; try done;
    try (simpl; apply tick_interleave); auto using interleave_after.
Qed.

(** *** What success means *)

(** A history between two worlds. *)
Definition between (w : W X) (h : list (DB X)) (w' : W X) : Prop := states w `suffix_of` h /\ h `suffix_of` states w'.

Definition done_commit (t : Transition X) (w w' : W X) : Prop := exists d h row inc note obs d',
  between w (d :: h) w' /\ (d' :: d :: h) `suffix_of` states w' /\ committed (d :: h) t row inc note obs d d'.
Definition done_before (t : Transition X) (w w' : W X) : Prop := exists d h row,
  between w (d :: h) w' /\ checks d !! CheckID (result_of t) = Some row /\ superseded t (ck_state row) = true.
(** The producer's guard, or the version it read, no longer holds. *)
Definition lost_guard (t : Transition X) (w w' : W X) : Prop := Guard t <> None /\ exists d0 h0 d h row,
  between w (d0 :: h0) w' /\ between w (d :: h) w' /\ checks d0 !! CheckID (result_of t) = Some row /\
  holds t (ck_version row) d = false.

Lemma between_mono w0 w1 h w2 w3 : after w0 w1 -> after w2 w3 -> between w1 h w2 -> between w0 h w3.
Proof. intros [_ H1] [_ H2] [H3 H4]. split; by etrans. Qed.

Definition success (t : Transition X) (w w' : W X) : Prop := done_commit t w w' \/ done_before t w w' \/ lost_guard t w w'.
Lemma success_mono t w0 w1 w2 w3 : after w0 w1 -> after w2 w3 -> success t w1 w2 -> success t w0 w3.
Proof.
  intros Ha Hb. assert (forall h, between w1 h w2 -> between w0 h w3) as Hm by (intros h; by apply between_mono).
  assert (forall h, h `suffix_of` states w2 -> h `suffix_of` states w3) as Hs by (intros h ?; etrans; [done|apply Hb]).
  intros [(d & h & row & inc & note & obs & d' & ? & ? & ?)|[(d & h & row & ? & ?)|(? & d0 & h0 & d & h & row & ? & ? & ? & ?)]];
    [left|right; left|right; right]; [exists d, h, row, inc, note, obs, d'|exists d, h, row|split; [done|exists d0, h0, d, h, row]];
    auto 10.
Qed.

Lemma states_cons (w : W X) : states w = db w :: past w.
Proof. done. Qed.

(** Proof rules for the calls. *)
Lemma post_query {A} (q : DB X -> A) Q w : settled w ->
  (after w (interleave w) -> Q (Ok (q (db (interleave w)))) (interleave w)) ->
  (forall e w', after w w' -> Q (Err e) w') -> post (query q) Q w.
Proof. intros Hs Ho He. unfold post, query. destruct (io (tick w)); simpl; auto using interleave_after. Qed.

Lemma interleave_ids w k : (forall d, d ∈ states w -> observations d !! newID k = None) ->
  forall d, d ∈ states (interleave w) -> observations d !! newID k = None.
Proof.
  intros Hobs d. rewrite states_interleave. intros [Hd|Hd]%elem_of_app; [|auto]. destruct (observations d !! newID k) eqn:E; [|done].
  destruct (others_ids _ _ d k Hd) as (d2 & H2 & [o' Ho]); [by rewrite E|]. by rewrite Hobs in Ho.
Qed.

Lemma post_draw (b : bool) x Q w : settled w ->
  (forall id w', after w w' -> (w' = w \/ (tick w < tick w')%nat) -> states w' = states w ->
     (if b then id <> "" else id = x) -> Q (Ok id) w') -> post (if b then fresh else ret x) Q w.
Proof.
  intros Hs Hq. destruct b; [|apply post_ret, Hq; auto using after_refl].
  destruct (fresh_after _ Hs) as (w1 & E & Ha & Ht & Est). unfold post. rewrite E. apply Hq; [done|right; simpl in *; lia|done|apply newID_nonempty].
Qed.

Lemma post_fresh Q w : settled w ->
  (forall w', after w w' -> tick w' = S (tick w) -> states w' = states w -> Q (Ok (newID (tick w))) w') -> post fresh Q w.
Proof. intros Hs Hq. destruct (fresh_after _ Hs) as (w1 & E & Ha & Ht & Est). unfold post. rewrite E. auto. Qed.

(** The transaction, with an observation identity that was just drawn. *)
Lemma post_transaction t row inc note k w Q : settled w -> permitted (states w) t -> validate t = Ok tt ->
  (exists d0, d0 ∈ states w /\ checks d0 !! CheckID (result_of t) = Some row) -> ck_producer row = Producer (result_of t) ->
  superseded t (ck_state row) = false ->
  (if opens t (ck_state row) then inc <> "" else inc = IncidentID (ck_state row)) ->
  (forall d, d ∈ states w -> observations d !! newID k = None) -> tick w = S k ->
  (forall w', after w w' -> (done_commit t w w' \/ exists d h, between w (d :: h) w' /\ holds t (ck_version row) d = false /\
     forall d', d' ∈ states w' -> observations d' !! newID k = None) -> Q (Ok tt) w') ->
  (forall e w', after w w' -> Q (Err e) w') ->
  post (Execute (transaction t row inc note (newID k))) Q w.
Proof.
  intros Hs Hp Hv (d0 & Hd0 & Hrow) Hprod Hsup Hinc Hobs Hk HQ HE.
  pose proof (interleave_after _ Hs) as [Hs1 Hsuf].
  assert (d0 ∈ states (interleave w)) as Hd1 by (rewrite states_interleave; set_solver).
  assert (forall d, d ∈ states (interleave w) -> observations d !! newID k = None) as Hnew.
  { by apply interleave_ids. }
  assert (permitted (states (interleave w)) t) as Hp1 by (rewrite states_interleave; by apply permitted_mono).
  destruct (reach_grows _ _ (se_reach _ Hs1) d0 Hd1 _ _ Hrow) as (row1 & Hrow1 & _ & _ & _ & Hv1).
  assert (observations (db (interleave w)) !! newID k = None) as Hobs1 by (apply Hnew; left).
  assert (forall d', transaction t row inc note (newID k) (db (interleave w)) = Some d' ->
    client (states (interleave w)) (db (interleave w)) d' /\ forall m, (S (tick w) <= m)%nat -> observations d' !! newID m = None) as Hclient.
  { intros d' Ht. split; [by apply (client_record _ _ t row d0 inc note (newID k))|]. intros m Hm.
    assert (observations (db (interleave w)) !! newID m = None) as Hm1.
    { apply Hs1; [rewrite tick_interleave; lia|left]. }
    destruct (transaction_cases _ _ _ _ _ _ _ _ Hrow1 Hv1 Hobs1 Ht) as [[-> _]|(_ & _ & Hef)]; [done|].
    rewrite (ef_observed _ _ _ _ _ _ _ Hef), lookup_insert_ne; [done|]. intros ->%newID_inj. lia. }
  pose proof (Execute_after _ _ Hs Hclient) as Hex. unfold post. destruct (Execute _ w) as [[[]|e] w']; simpl;
    destruct Hex as (Ha & _ & Hok); [|by apply HE].
  destruct (Hok eq_refl) as [Ht Hpast]. apply HQ; [done|].
  assert (states w' = db w' :: states (interleave w)) as Est by (by rewrite states_cons, Hpast).
  assert (between w (states (interleave w)) w') as Hb by (split; [done|rewrite Est; by apply suffix_cons_r]).
  destruct (transaction_cases _ _ _ _ _ _ _ _ Hrow1 Hv1 Hobs1 Ht) as [[Heq Hg]|(-> & Hg & Hef)].
  - right. exists (db (interleave w)), (past (interleave w)). split; [done|]. split; [done|].
    intros d'. rewrite Est, Heq. intros [->|Hd']%elem_of_cons; auto.
  - left. exists (db (interleave w)), (past (interleave w)), row, inc, note, (newID k), (db w'). split; [done|]. split; [by rewrite Est|].
    by split.
Qed.

(** A round: the transition is committed, or was not and is retried. *)
Lemma round_spec t row retry w : settled w -> permitted (states w) t -> validate t = Ok tt ->
  (exists h, between w (db w :: h) w) -> checks (db w) !! CheckID (result_of t) = Some row ->
  ck_producer row = Producer (result_of t) -> superseded t (ck_state row) = false ->
  (Guard t = None -> forall w', after w w' -> post retry (fun r w'' => after w' w'' /\ (r = Ok tt -> success t w' w'')) w') ->
  post (record_round t row retry) (fun r w' => after w w' /\ (r = Ok tt -> success t w w')) w.
Proof.
  intros Hs Hp Hv _ Hrow Hprod Hsup Hretry. unfold record_round.
  apply post_bind, post_draw; [done|]. intros inc w1 Ha1 _ Es1 Hinc. destruct Ha1 as [Hs1 Hsuf1].
  apply post_bind, post_draw; [done|]. intros note w2 Ha2 _ Es2 _. destruct Ha2 as [Hs2 Hsuf2].
  apply post_bind, post_fresh; [done|]. intros w3 Ha3 Ht3 Es3. destruct Ha3 as [Hs3 Hsuf3].
  assert (states w3 = states w) as Est by congruence.
  assert (forall w', after w3 w' -> after w w') as Haf by (intros w' [? Hx]; split; [done|by rewrite <- Est]).
  apply post_bind. eapply post_transaction; [done|by rewrite Est|done| |done|done| | |exact Ht3| |].
  - exists (db w). split; [rewrite Est; left|done].
  - destruct (opens t (ck_state row)); done.
  - intros d. rewrite Es3. apply Hs2. done.
  - intros w4 Ha4 Hcases. pose proof Ha4 as [Hs4 _]. apply post_bind, post_query; [done| |].
    2: { intros e w5 Ha5. split; [|done]. apply Haf. by eapply after_trans. }
    intros Ha5. assert (after w (interleave w4)) as Haw5 by (apply Haf; by eapply after_trans). pose proof Haw5 as [Hs5 _].
    assert (done_commit t w3 w4 -> success t w (interleave w4)) as Hcommit.
    { intros Hd. apply (success_mono _ _ w3 w4 _); [apply Haf; by apply after_refl|done|by left]. }
    case_bool_decide as Hobs; simpl; cycle 1.
    + destruct (Guard t) as [g|] eqn:Eg; cycle 1.
      { eapply post_mono; [by apply (Hretry eq_refl)|]. intros r w' [Ha' Hr]. split; [by eapply after_trans|].
        intros Hok. eapply success_mono; [exact Haw5|by apply after_refl; apply Ha'|auto]. }
      apply post_ret. split; [done|]. intros _. destruct Hcases as [Hdone|(d & h & Hb & Hg & _)]; [auto|].
      right. right. split; [congruence|]. exists (db w), (past w), d, h, row. split_and!; [|eapply between_mono; [| |exact Hb]|done|done].
      * split; [done|apply Haw5]. * apply Haf. by apply after_refl. * done.
    + assert (success t w (interleave w4)) as Hsucc.
      { destruct Hcases as [Hdone|(d & h & _ & _ & Hnone)]; [auto|]. exfalso. destruct Hobs as [o' Ho].
        rewrite (interleave_ids w4 (tick w2) Hnone (db (interleave w4))) in Ho; [done|left]. }
      destruct (notifies t (ck_state row) && has_broker); [|by apply post_ret].
      apply post_bind, post_query; [done| |].
      2: { intros e w6 Ha6. split; [|done]. by eapply after_trans. }
      intros Ha6. assert (after w (interleave (interleave w4))) as Haw6 by (by eapply after_trans).
      assert (success t w (interleave (interleave w4))) as Hsucc6.
      { eapply success_mono; [apply after_refl; exact Hs|exact Ha6|done]. }
      destruct (visible note (db (interleave (interleave w4)))); [|by apply post_ret].
      unfold post. simpl. destruct Haw6 as [[Hr6 Hi6] Hsuf6]. by split.
  - intros e w4 Ha4. split; [auto|done].
Qed.

Lemma record_loop_spec n t w : settled w -> permitted (states w) t -> validate t = Ok tt ->
  post (record_loop n t) (fun r w' => after w w' /\ (r = Ok tt -> success t w w')) w.
Proof.
  revert w. induction n as [|n IH]; intros w Hs Hp Hv; [by split; [apply after_refl|]|]. simpl record_loop.
  apply post_bind, post_query; [done| |by intros e w' ?; split]. intros Ha. pose proof Ha as [Hs1 Hsuf1].
  assert (permitted (states (interleave w)) t) as Hp1 by (destruct Hsuf1 as [l ->]; by apply permitted_mono).
  destruct (checks _ !! _) as [row|] eqn:Erow; [|by split].
  destruct (negb (same (ck_producer row) _)) eqn:Eprod; [by split|]. unfold same in Eprod. to_prop.
  destruct (superseded t (ck_state row)) eqn:Esup.
  { split; [done|]. intros _. right. left. exists (db (interleave w)), (past (interleave w)), row. by split_and!. }
  eapply post_mono.
  - apply round_spec; [done|done|done| |done|done|done|].
    + by exists (past (interleave w)).
    + intros _ w' Ha'. apply IH; [apply Ha'| |done]. destruct Ha' as [_ [l ->]]. by apply permitted_mono.
  - intros r w' [Ha' Hr]. split; [by eapply after_trans|]. intros Hok. eapply success_mono; [exact Ha|by apply after_refl; apply Ha'|auto].
Qed.

Lemma Record_spec t w : settled w -> permitted (states w) t ->
  post (Monitoring.Record t) (fun r w' => after w w' /\ (validate t <> Ok tt -> w' = w /\ r <> Ok tt) /\
    (r = Ok tt -> success t w w')) w.
Proof.
  intros Hs Hp. unfold Monitoring.Record. assert (forall w, settled w -> permitted (states w) t -> validate t = Ok tt ->
    post (record_loop 8 t) (fun r w' => after w w' /\ (r = Ok tt -> success t w w')) w) as Hloop by (intros; by apply record_loop_spec).
  revert Hloop. generalize (record_loop 8 t). intros loop Hloop. apply post_bind. unfold post at 1. simpl. destruct (validate t) as [[]|e] eqn:Hv.
  2: { split; [by apply after_refl|]. by split. }
  apply post_bind. assert (forall d', register (CheckID (result_of t)) (Producer (result_of t)) (db (interleave w)) = Some d' ->
    client (states (interleave w)) (db (interleave w)) d' /\ forall m, (S (tick w) <= m)%nat -> observations d' !! newID m = None) as Hc.
  { intros d' Hd. split; [by eapply client_register|]. unfold register in Hd. injection Hd as <-. intros m Hm.
    assert (observations (db (interleave w)) !! newID m = None) as Hm1.
    { apply interleave_after in Hs as [Hs _]. apply Hs; [rewrite tick_interleave; lia|left]. }
    by destruct (checks _ !! _). }
  pose proof (Execute_after _ _ Hs Hc) as Hex. unfold post at 1. destruct (Execute _ w) as [[[]|e] w1]; simpl;
    destruct Hex as ([Hs1 Hsuf1] & _ & _); [|by split].
  eapply post_mono; [apply Hloop; [done|destruct Hsuf1 as [l ->]; by apply permitted_mono|done]|].
  intros r w' [Ha Hr]. split; [by eapply after_trans|]. split; [done|]. intros Hok.
  eapply success_mono; [|by apply after_refl; apply Ha|auto]. done.
Qed.

(** ** The properties *)

(** C30. Checks and incidents agree, whatever producers and users did and in
    whatever order: the incident of every check is an active alert, every
    active alert is the incident of exactly one check, and an alert is either
    active and unresolved or resolved with its time. *)
Theorem incidents_coherent (d : DB X) (h : list (DB X)) (Hr : reach (d :: h)) : coherent d.
Proof. by eapply reach_coherent. Qed.

(** C31. An incident begins only with failing evidence and ends only with
    healthy evidence that is not expired, not from the future and newer than
    everything its check had seen, or with the removal of what was monitored;
    no other step of any client gives a check an incident or takes it away. *)
Theorem incident_life (d d' : DB X) (h : list (DB X)) (c : string) (Hr : reach (d' :: d :: h)) :
  incident d' c = incident d c \/
  exists t row inc note obs, committed (d :: h) t row inc note obs d d' /\ CheckID (result_of t) = c /\
    (EvaluatedAt (Last (ck_state row)) < EvaluatedAt (result_of t))%Z /\
    ((incident d c = "" /\ active (incident d' c) d' /\ begins t (ck_state row)) \/
     (incident d c <> "" /\ incident d' c = "" /\ ~ active (incident d c) d' /\ finishes t (ck_state row))).
Proof. by apply incident_changes. Qed.

(** C32. [Record] among other clients that write between any two of its calls,
    with calls failing before or after their commit: it only takes steps a
    client may take, it refuses a contradictory transition before it touches
    the database, and it reports success only if the whole transition was
    committed on the row it was computed from, or the check already held this
    evaluation or a later one, or the producer's own guard was lost to a
    concurrent write. *)
Theorem Record_among_others (t : Transition X) (w : W X) (Hs : settled w) (Hp : permitted (states w) t) :
  let '(r, w') := Monitoring.Record t w in
  settled w' /\ states w `suffix_of` states w' /\ (validate t <> Ok tt -> w' = w /\ r <> Ok tt) /\
  (r = Ok tt -> done_commit t w w' \/ done_before t w w' \/ lost_guard t w w').
Proof.
  pose proof (Record_spec _ _ Hs Hp) as H. unfold post in H. destruct (Monitoring.Record t w) as [r w'].
  destruct H as ([? ?] & ? & ?). by split_and!.
Qed.
End Shared.

(** ** A producer alone *)
Module Sample.
Definition id_of (n : nat) : string := String.string_of_list_ascii (repeat (Ascii.ascii_of_nat 120) (S n)).
#[export] Instance env : MonEnv unit := {|
  io := fun _ => Fine; others := fun _ _ => []; newID := id_of; later := fun a b => (b <? a)%Z; has_broker := true |}.
Definition anything (h : list (DB unit)) (t : Transition unit) : Prop := True.
Definition nothing (h : list (DB unit)) (x x' : unit) : Prop := False.

#[export] Instance alone : Neighbours anything nothing tt.
Proof.
  split; [by intros n h|by intros n h d m ?%not_elem_of_nil| |done|done].
  intros n m. simpl. unfold id_of. intros H%(f_equal String.list_ascii_of_string).
  rewrite !String.list_ascii_of_string_of_list_ascii in H. apply (f_equal length) in H. rewrite !repeat_length in H. lia.
Defined.

Definition start : W unit := mkW (mkDB ∅ ∅ ∅ ∅ tt) [] 0 [].
Lemma start_settled : settled anything nothing tt start.
Proof. split; [apply reach_start|]. by intros m d _ ->%list_elem_of_singleton. Qed.

(** A probe of a host API fails, and answers again a minute later. *)
Definition probe (status action : string) (at_ : Z) : Transition unit :=
  mkTransition (mkResult "host-api:one" "probe" "host-api" (mkResource "one" "" "" "" "" "") "" "" status "" at_ at_ zero_time None "")
    "host-api" "Host API" "unreachable" "warning" action true None None.
Definition failed : W unit := (Monitoring.Record (probe "failing" "open" Minute) start).2.
Definition recovered : W unit := (Monitoring.Record (probe "healthy" "resolve" (2 * Minute)) failed).2.

Lemma failed_settled : settled anything nothing tt failed.
Proof. apply (Record_spec anything nothing tt (probe "failing" "open" Minute) start start_settled I). Qed.
Lemma recovered_settled : settled anything nothing tt recovered.
Proof. apply (Record_spec anything nothing tt (probe "healthy" "resolve" (2 * Minute)) failed failed_settled I). Qed.

Lemma incidents_coherent_witness : incident (db failed) "host-api:one" = id_of 2 /\ coherent (db failed).
Proof.
  split; [by vm_compute|]. apply (incidents_coherent anything nothing tt (db failed) (past failed)).
  apply (se_reach _ _ _ _ failed_settled).
Defined.

(** The recovery's commit, seen as a step of the history. *)
Lemma incident_life_witness :
  exists d' d h, states recovered = d' :: d :: h /\ incident d "host-api:one" <> "" /\ incident d' "host-api:one" = "" /\
  (incident d' "host-api:one" = incident d "host-api:one" \/
   exists t row inc note obs, committed anything (d :: h) t row inc note obs d d' /\ CheckID (result_of t) = "host-api:one" /\
     (EvaluatedAt (Last (ck_state row)) < EvaluatedAt (result_of t))%Z /\
     ((incident d "host-api:one" = "" /\ active (incident d' "host-api:one") d' /\ begins t (ck_state row)) \/
      (incident d "host-api:one" <> "" /\ incident d' "host-api:one" = "" /\ ~ active (incident d "host-api:one") d' /\ finishes t (ck_state row)))).
Proof.
  pose proof (se_reach _ _ _ _ recovered_settled) as Hr.
  remember (states recovered) as l eqn:El. assert (exists d' d h, l = d' :: d :: h) as (d' & d & h & ->).
  { rewrite El. vm_compute. by do 3 eexists. }
  exists d', d, h. split; [done|].
  assert (incident d "host-api:one" = id_of 2 /\ incident d' "host-api:one" = "") as [H1 H2].
  { assert (d = default d' (states recovered !! 1%nat)) as -> by (by rewrite <- El).
    assert (d' = default d' (states recovered !! 0%nat)) as Hd by (by rewrite <- El). split; [by vm_compute|rewrite Hd; by vm_compute]. }
  split; [rewrite H1; by vm_compute|]. split; [done|]. apply (incident_life anything nothing tt d d' h "host-api:one" Hr).
Defined.

Lemma Record_among_others_witness : let '(r, w') := Monitoring.Record (probe "failing" "open" Minute) start in
  r = Ok tt /\ (settled anything nothing tt w' /\ states start `suffix_of` states w' /\ (validate (probe "failing" "open" Minute) <> Ok tt -> w' = start /\ r <> Ok tt) /\
    (r = Ok tt -> done_commit anything (probe "failing" "open" Minute) start w' \/ done_before (probe "failing" "open" Minute) start w' \/ lost_guard (probe "failing" "open" Minute) start w')).
Proof.
  pose proof (Record_among_others anything nothing tt (probe "failing" "open" Minute) start start_settled I) as H.
  assert ((Monitoring.Record (probe "failing" "open" Minute) start).1 = Ok tt) as Hok by (vm_compute; reflexivity).
  destruct (Monitoring.Record (probe "failing" "open" Minute) start) as [r w']. split; [exact Hok|exact H].
Defined.
End Sample.
