(* ===== verification/Alerts.v ===== *)
(** Persistent alert rules: [src/pkg/alerts/evaluate.go], [evaluator.go] and
    [store.go], on the shared database of [Monitoring.v].

    The evaluations table is the producer's own.  Metrics, the Raft leadership,
    the clock of each call, JSON and SHA-256 are parameters; a sample's value is
    an IEEE double. *)
From S2P Require Import Prelude GoTime GoStrings Monitoring.
From Stdlib Require Import Floats.SpecFloat.

Open Scope string_scope.

(** ** Rules, observations, states *)

Definition Interval : Z := 30 * Second.
Definition DefaultMaxAge : Z := 2 * Minute.

Record Rule := mkRule {
  ID : string; Name : string; Condition : string; RecoveryCondition : string; FreshnessQuery : string; Severity : string;
  StackID : string; NodeID : string; RMessage : string; For : Z; RecoveryFor : Z; MaxAge : Z; Enabled : bool; Compose : bool }.

Definition Validate (r : Rule) : result string unit :=
  if same (ID r) "" || same (Name r) "" || same (Condition r) "" then Err "rule id, name and condition are required"
  else if same (RecoveryCondition r) "" || same (FreshnessQuery r) ""
  then Err "recovery_condition and freshness_query are required for persistent rules"
  else if negb (known_severity (Severity r)) then Err "invalid rule severity"
  else if (For r <? 0)%Z || (RecoveryFor r <? 0)%Z || (MaxAge r <=? 0)%Z then Err "invalid rule duration"
  else Ok tt.

(** A label set; [None] is the nil map. *)
Abbreviation labels := (option (gmap string string)).

Record Observation := mkObservation { OLabels : labels; Value : spec_float; At : Z; Firing : bool; Recovered : bool }.

Record State := mkState {
  RuleHash : string; SLabels : labels; SStatus : string; Error : string;
  PendingSince : Z; RecoverySince : Z; LastObserved : Z; LastEvaluated : Z; AlertID : string; SSeverity : string;
  SValue : option spec_float }.
Definition zero_state : State := mkState "" None "" "" zero_time zero_time zero_time zero_time "" "" None.

Definition set_RuleHash h (s : State) : State := mkState h (SLabels s) (SStatus s) (Error s) (PendingSince s) (RecoverySince s) (LastObserved s) (LastEvaluated s) (AlertID s) (SSeverity s) (SValue s).
Definition set_Labels l (s : State) : State := mkState (RuleHash s) l (SStatus s) (Error s) (PendingSince s) (RecoverySince s) (LastObserved s) (LastEvaluated s) (AlertID s) (SSeverity s) (SValue s).
Definition set_Status x (s : State) : State := mkState (RuleHash s) (SLabels s) x (Error s) (PendingSince s) (RecoverySince s) (LastObserved s) (LastEvaluated s) (AlertID s) (SSeverity s) (SValue s).
Definition set_Error x (s : State) : State := mkState (RuleHash s) (SLabels s) (SStatus s) x (PendingSince s) (RecoverySince s) (LastObserved s) (LastEvaluated s) (AlertID s) (SSeverity s) (SValue s).
Definition set_timers p r (s : State) : State := mkState (RuleHash s) (SLabels s) (SStatus s) (Error s) p r (LastObserved s) (LastEvaluated s) (AlertID s) (SSeverity s) (SValue s).
Definition set_seen at_ v (s : State) : State := mkState (RuleHash s) (SLabels s) (SStatus s) (Error s) (PendingSince s) (RecoverySince s) at_ (LastEvaluated s) (AlertID s) (SSeverity s) (Some v).
Definition set_LastEvaluated t (s : State) : State := mkState (RuleHash s) (SLabels s) (SStatus s) (Error s) (PendingSince s) (RecoverySince s) (LastObserved s) t (AlertID s) (SSeverity s) (SValue s).
Definition set_AlertID x (s : State) : State := mkState (RuleHash s) (SLabels s) (SStatus s) (Error s) (PendingSince s) (RecoverySince s) (LastObserved s) (LastEvaluated s) x (SSeverity s) (SValue s).
Definition set_Severity x (s : State) : State := mkState (RuleHash s) (SLabels s) (SStatus s) (Error s) (PendingSince s) (RecoverySince s) (LastObserved s) (LastEvaluated s) (AlertID s) x (SValue s).
Definition clear_timers : State -> State := set_timers zero_time zero_time.

(** ** Identities *)

(** [encoding/json] of a label set and of the fields of a rule that matter, and
    the hexadecimal SHA-256 of a text. *)
Class Encoding := {
  json_labels : labels -> string;
  json_rule : string -> string -> string -> string -> string -> Z -> Z -> Z -> string;
  json_evidence : option spec_float -> string -> string;
  sha256_hex : string -> string }.

Section Evaluate.
Context `{Encoding}.

Definition NUL : string := String (Ascii.ascii_of_nat 0) "".
Definition fingerprint (ruleID : string) (l : labels) : string := sha256_hex (ruleID +:+ NUL +:+ json_labels l).
Definition instanceID (rule : Rule) (l : labels) : string :=
  if Compose rule then fingerprint (ID rule) (Some (delete "node_id" (default ∅ l))) else fingerprint (ID rule) l.
Definition ruleHash (r : Rule) : string :=
  sha256_hex (json_rule (Condition r) (RecoveryCondition r) (FreshnessQuery r) (StackID r) (NodeID r) (For r) (RecoveryFor r) (MaxAge r)).

(** ** [advance] *)

Definition finite (v : spec_float) : bool := match v with S754_zero _ | S754_finite _ _ _ => true | _ => false end.

(** Evidence that proves nothing: missing, from the future, too old, not a
    number, or of both kinds. *)
Definition unusable (r : Rule) (o : Observation) (now : Z) : bool :=
  IsZero (At o) || (now <? At o)%Z || (MaxAge r <? Sub now (At o))%Z || negb (finite (Value o)) || Bool.eqb (Firing o) (Recovered o).

Definition unknown (next : State) : State := clear_timers (set_Status "unknown" next).
Definition since (t now : Z) : Z := if IsZero t then now else t.

Definition advance (r : Rule) (old : State) (observation : option Observation) (now : Z) : State :=
  let next := set_LastEvaluated now (set_RuleHash (ruleHash r) old) in
  let next := if negb (same (RuleHash old) (ruleHash r)) || (3 * Interval <? Sub now (LastEvaluated old))%Z then clear_timers next else next in
  match observation with
  | None => unknown next
  | Some o =>
      if unusable r o now then unknown next
      else
        let next := set_Labels (OLabels o) next in
        if negb (LastObserved old <? At o)%Z then next
        else
          let next := if negb (IsZero (LastObserved old)) && (MaxAge r <? Sub (At o) (LastObserved old))%Z then clear_timers next else next in
          let next := set_seen (At o) (Value o) next in
          if Firing o then
            let next := set_timers (PendingSince next) zero_time next in
            if negb (same (AlertID old) "") then set_Status "firing" next
            else
              let next := set_timers (since (PendingSince next) now) zero_time next in
              set_Status (if (For r <=? Sub now (PendingSince next))%Z then "firing" else "pending") next
          else if same (AlertID old) "" then set_Status "inactive" (set_timers zero_time zero_time next)
          else
            let next := set_timers zero_time (since (RecoverySince next) now) next in
            set_Status (if (RecoveryFor r <=? Sub now (RecoverySince next))%Z then "resolved" else "firing") next
  end.
End Evaluate.

(** ** The evaluations table and [save] *)

Record EvalRow := mkEvalRow { er_rule : string; er_state : State; er_version : Z }.
Abbreviation Evals := (gmap string EvalRow).

Record storedState := mkStored { sd_id : string; sd_version : Z; sd_state : State }.
Definition no_state : storedState := mkStored "" 0 zero_state.

Definition or_else (a b : string) : string := if same a "" then b else a.
Definition label (l : labels) (k : string) : string := default "" (default ∅ l !! k).

Section Store.
Context `{Encoding}.

Definition removed : string := "rule disabled or removed".

(** The outcome and the decision for the incident of a new state. *)
Definition status_action (next : State) (reason : string) : string * string :=
  if same reason removed then ("disabled", "retire")
  else if same (SStatus next) "firing" then
    if IsZero (RecoverySince next) then ("failing", "open") else ("healthy", "keep")
  else if same (SStatus next) "resolved" then ("healthy", "resolve")
  else if same (SStatus next) "pending" then ("failing", "keep")
  else if same (SStatus next) "inactive" then ("healthy", "keep")
  else ("unknown", "keep").

Definition expiry (rule : Rule) (next : State) : Z :=
  if (0 <? MaxAge rule)%Z && negb (IsZero (LastObserved next)) then (LastObserved next + MaxAge rule)%Z else zero_time.

(** A repeated sample keeps the incident: it cannot open one. *)
Definition final_action (rule : Rule) (next : State) (now : Z) (reason : string) : string :=
  let action := (status_action next reason).2 in
  if same action "open" && (IsZero (LastObserved next) || (expiry rule next <? now)%Z) then "keep" else action.

Definition severity_of (rule : Rule) (old : State) : string := or_else (or_else (Severity rule) (SSeverity old)) "warning".

(** The state the transaction stores, for the incident it ends with. *)
Definition stored (action severity : string) (next : State) (incident : string) : State :=
  let next := set_AlertID incident next in
  let next := if same action "open" then set_Severity severity next else next in
  if same action "resolve" || same action "retire" then clear_timers next else next.

Definition insert_evaluation (id rule : string) : stmt Evals := fun d =>
  Some match own d !! id with Some _ => d | None => set_own (<[id := mkEvalRow rule zero_state 0]> (own d)) d end.
Definition delete_evaluation (id : string) (version : Z) : stmt Evals := fun d =>
  Some (match own d !! id with
        | Some row => if (er_version row =? version)%Z then set_own (delete id (own d)) d else d
        | None => d end).
Definition store_evaluation (id : string) (s : State) (x : Evals) : Evals :=
  alter (fun row => mkEvalRow (er_rule row) s (er_version row + 1)%Z) id x.

Definition evaluation_result (rule : Rule) (id : string) (next : State) (now : Z) (reason observer : string) : Result :=
  mkResult ("metrics:" +:+ id) "metrics" "evaluator"
    (mkResource (or_else (label (SLabels next) "node_id") (NodeID rule)) (or_else (label (SLabels next) "stack_id") (StackID rule))
       (label (SLabels next) "pool") (label (SLabels next) "dataset") (label (SLabels next) "source_node_id")
       (label (SLabels next) "dest_node_id"))
    observer "" (status_action next reason).1 reason (LastObserved next) now (expiry rule next) (SLabels next)
    (json_evidence (SValue next) (Error next)).

Definition save_transition (rule : Rule) (id : string) (version : Z) (old next : State) (now : Z) (reason observer : string) : Transition Evals :=
  let action := final_action rule next now reason in
  let severity := severity_of rule old in
  mkTransition (evaluation_result rule id next now reason observer) (ID rule) (Name rule)
    (or_else reason (or_else (RMessage rule) (Name rule))) severity action true
    (Some (fun incident => store_evaluation id (stored action severity next incident)))
    (Some (fun x => match x !! id with Some row => (er_version row =? version)%Z | None => false end)).

Context `{MonEnv Evals}.

Definition save (rule : Rule) (old : storedState) (next : State) (now : Z) (reason observer : string) : cmd Evals unit :=
  if negb (IsZero (LastEvaluated (sd_state old))) && negb (LastEvaluated (sd_state old) <? now)%Z then ret tt
  else
    let id := or_else (sd_id old) (instanceID rule (SLabels next)) in
    Execute (insert_evaluation id (ID rule));;
    Monitoring.Record (save_transition rule id (sd_version old) (sd_state old) next now reason observer).
End Store.

(** ** The evaluator *)

Record Sample := mkSample { sm_labels : gmap string string; sm_value : spec_float; sm_at : Z }.

Class AlertEnv := {
  leader : nat -> bool;
  cancelled : nat -> bool;
  (** an instant query at a time, with its maximal sample age *)
  metrics : nat -> string -> Z -> Z -> option (list Sample);
  (** the order in which a map is ranged over *)
  shuffle : forall {A}, nat -> list A -> list A;
  (** [int64] of a number that is out of range *)
  int64_overflow : spec_float -> Z }.

(** [int64(v * 1e9)] *)
Definition e9 : spec_float := S754_finite false 8388608000000000 (-23).
Definition unix_nanos `{AlertEnv} (v : spec_float) : Z :=
  let x := SFmul 53 1024 v e9 in
  match x with
  | S754_zero _ => 0
  | S754_finite s m e =>
      let z := if (0 <=? e)%Z then (Zpos m * 2 ^ e)%Z else (Zpos m / 2 ^ (- e))%Z in
      let z := if s then (- z)%Z else z in
      if (- 2 ^ 63 <=? z)%Z && (z <=? MaxInt64)%Z then z else int64_overflow x
  | _ => int64_overflow x
  end.

(** A loop that a return may leave: the failures so far. *)
Inductive flow (A : Type) := Stop (failures : list string) | Next (a : A).
Arguments Stop {A}.
Arguments Next {A}.

Section Evaluator.
Context `{Encoding} `{MonEnv Evals} `{AlertEnv}.

(** What the evaluator asks about itself, at a moment. *)
Definition ask {A} (f : nat -> A) : cmd Evals A := fun w => (Ok (f (tick w)), mkW (db w) (past w) (S (tick w)) (published w)).
Definition stopped : cmd Evals bool := l ← ask leader; c ← ask cancelled; ret (negb l || c).

Definition add_sample (rule : Rule) (firing : bool) (m : gmap string Observation) (s : Sample) : gmap string Observation :=
  let l := delete "__name__" (sm_labels s) in
  if negb (same (StackID rule) "") && negb (same (label (Some l) "stack_id") (StackID rule)) then m
  else if negb (same (NodeID rule) "") && negb (same (label (Some l) "node_id") (NodeID rule)) then m
  else
    let id := instanceID rule (Some l) in
    match m !! id with
    | Some p => <[id := mkObservation (OLabels p) (Value p) (At p) true true]> m
    | None => <[id := mkObservation (Some l) (sm_value s) (sm_at s) firing (negb firing)]> m
    end.

Definition observe_predicate (rule : Rule) (now : Z) (query : string) (firing : bool) (m : gmap string Observation) :
    cmd Evals (option (gmap string Observation)) :=
  if same query "" then ret (Some m)
  else
    samples ← ask (fun n => metrics n query now (MaxAge rule));
    ret (foldl (add_sample rule firing) m <$> samples).

Definition freshness_of (rule : Rule) (samples : list Sample) : gmap string Z :=
  foldl (fun f s => <[instanceID rule (Some (delete "__name__" (sm_labels s))) := unix_nanos (sm_value s)]> f) ∅ samples.

(** [observe]; [None] when a query fails. *)
Definition observe (rule : Rule) (now : Z) : cmd Evals (option (gmap string Observation)) :=
  m ← observe_predicate rule now (Condition rule) true ∅;
  match m with
  | None => ret None
  | Some m =>
      m ← observe_predicate rule now (RecoveryCondition rule) false m;
      match m with
      | None => ret None
      | Some m =>
          if same (FreshnessQuery rule) "" then ret (Some m)
          else
            samples ← ask (fun n => metrics n (FreshnessQuery rule) now (MaxAge rule));
            match samples with
            | None => ret None
            | Some samples =>
                let f := freshness_of rule samples in
                ret (Some (map_imap (fun id o => Some (mkObservation (OLabels o) (Value o) (default zero_time (f !! id)) (Firing o) (Recovered o))) m))
            end
      end
  end.

Fixpoint each {A B} (f : B -> A -> cmd Evals (flow B)) (l : list A) (b : B) : cmd Evals (flow B) :=
  match l with
  | [] => ret (Next b)
  | a :: l => r ← f b a; match r with Next b => each f l b | Stop e => ret (Stop e) end
  end.
Definition note_error (r : result string unit) (failures : list string) : list string :=
  match r with Ok _ => failures | Err e => (failures ++ [e])%list end.

(** A row that never had labels and stands for no observation. *)
Definition placeholder (s : storedState) (observations : gmap string Observation) : bool :=
  bool_decide (SLabels (sd_state s) = None) && same (AlertID (sd_state s)) "" && negb (bool_decide (observations = ∅)) &&
  bool_decide (observations !! sd_id s = None).

Definition sort_out (observations : gmap string Observation) (acc : gmap string storedState * list string) (s : storedState) :
    cmd Evals (flow (gmap string storedState * list string)) :=
  let '(previous, failures) := acc in
  if placeholder s observations then
    l ← ask leader;
    if negb l then ret (Stop failures)
    else
      r ← attempt (Execute (delete_evaluation (sd_id s) (sd_version s)));
      ret (Next (previous, note_error r failures))
  else ret (Next (<[sd_id s := s]> previous, failures)).

Definition complete (rule : Rule) (observations : gmap string Observation) (previous : gmap string storedState) : gmap string storedState :=
  let previous := if bool_decide (previous = ∅) && bool_decide (observations = ∅) then <[instanceID rule None := no_state]> previous else previous in
  previous ∪ ((fun _ => no_state) <$> observations).

Definition evaluate_one (rule : Rule) (observer : string) (now : Z) (observations : gmap string Observation) (error : string)
    (failures : list string) (x : string * storedState) : cmd Evals (flow (list string)) :=
  s ← stopped;
  if (s : bool) then c ← ask cancelled; ret (Stop (if (c : bool) then (failures ++ ["context cancelled"])%list else failures))
  else
    let next := set_Error error (advance rule (sd_state x.2) (observations !! x.1) now) in
    r ← attempt (save rule x.2 next now "" observer);
    ret (Next (note_error r failures)).

Definition evaluate_rule (observer : string) (now : Z) (states : gmap string EvalRow) (acc : gset string * list string) (rule : Rule) :
    cmd Evals (flow (gset string * list string)) :=
  let '(active, failures) := acc in
  s ← stopped;
  if (s : bool) then c ← ask cancelled; ret (Stop (if (c : bool) then (failures ++ ["context cancelled"])%list else failures))
  else if negb (Enabled rule) then ret (Next acc)
  else
    o ← match Validate rule with Ok _ => observe rule now | Err _ => ret None end;
    let error := match Validate rule with Err e => e | Ok _ => match o with None => "query failed" | Some _ => "" end end in
    let failures := match o with None => (failures ++ [error])%list | Some _ => failures end in
    let observations := default ∅ o in
    let rows := (fun x => mkStored x.1 (er_version x.2) (er_state x.2)) <$> filter (fun x => er_rule x.2 = ID rule) (map_to_list states) in
    p ← each (sort_out observations) rows (∅, failures);
    match p with
    | Stop e => ret (Stop e)
    | Next (previous, failures) =>
        order ← ask (fun n => shuffle n (map_to_list (complete rule observations previous)));
        r ← each (evaluate_one rule observer now observations error) order failures;
        match r with Stop e => ret (Stop e) | Next failures => ret (Next ({[ID rule]} ∪ active, failures)) end
    end.

Definition retired_rule (id severity : string) : Rule :=
  mkRule id "Alert rule disabled or removed" "" "" "" severity "" "" "" 0 0 0 false false.

Definition retire_one (observer : string) (now : Z) (active : gset string) (failures : list string) (x : string * EvalRow) :
    cmd Evals (flow (list string)) :=
  if bool_decide (er_rule x.2 ∈ active) then ret (Next failures)
  else
    s ← stopped;
    if (s : bool) then c ← ask cancelled; ret (Stop (if (c : bool) then (failures ++ ["context cancelled"])%list else failures))
    else
      let old := er_state x.2 in
      if same (SStatus old) "resolved" && same (AlertID old) "" then ret (Next failures)
      else
        let next := set_LastEvaluated now (set_Status "resolved" old) in
        r ← attempt (save (retired_rule (er_rule x.2) (SSeverity old)) (mkStored x.1 (er_version x.2) old) next now removed observer);
        ret (Next (note_error r failures)).

Definition join (failures : list string) : cmd Evals unit :=
  match failures with [] => ret tt | e :: _ => fail e end.

Definition Tick (observer : string) (rules : list Rule) (now : Z) : cmd Evals unit :=
  l ← ask leader;
  if negb l then ret tt
  else
    states ← query own;
    p ← each (evaluate_rule observer now states) rules (∅, []);
    match p with
    | Stop e => join e
    | Next (active, failures) =>
        order ← ask (fun n => shuffle n (map_to_list states));
        r ← each (retire_one observer now active) order failures;
        match r with Stop e => join e | Next e => join e end
    end.
End Evaluator.
