(* ===== verification/AlertsSafety.v ===== *)
(** What the alert evaluator of [Alerts.v] promises: an incident is opened and
    closed only by evidence that was sustained, its state follows the incident
    whatever evaluators race, and every write is a step the monitoring store
    allows. *)
From S2P Require Import Prelude GoTime GoStrings Monitoring MonitoringSafety Alerts.
From Stdlib Require Import Floats.SpecFloat.

Open Scope string_scope.

Section History.
Context {enc : Encoding}.

(** ** Evidence over time *)

(** One evaluation of an instance whose state was stored, or its removal. *)
Inductive evaluation := Evaluated (rule : Rule) (observation : option Observation) (now : Z) | Retired (now : Z).
Definition time_of (e : evaluation) : Z := match e with Evaluated _ _ now | Retired now => now end.

(** The time of the last sample that was used. *)
Fixpoint last_seen (l : list evaluation) : Z :=
  match l with
  | [] => zero_time
  | Evaluated r (Some o) now :: l =>
      if unusable r o now then last_seen l else if (last_seen l <? At o)%Z then At o else last_seen l
  | _ :: l => last_seen l
  end.

(** [sustained f r l start]: from the evaluation at [start] to the latest one,
    the same rule was evaluated at least every ninety seconds; it always had
    usable evidence, every new sample said [f], and new samples were no further
    apart than their maximal age. *)
Inductive sustained (f : bool) (hash : string) : list evaluation -> Z -> Prop :=
| sustained_start r o now l : ruleHash r = hash -> unusable r o now = false -> (last_seen l < At o)%Z -> Firing o = f ->
    sustained f hash (Evaluated r (Some o) now :: l) now
| sustained_more r o now e l start : sustained f hash (e :: l) start ->
    ruleHash r = hash -> unusable r o now = false -> (Sub now (time_of e) <= 3 * Interval)%Z ->
    ((last_seen (e :: l) < At o)%Z -> Firing o = f /\ (Sub (At o) (last_seen (e :: l)) <= MaxAge r)%Z) ->
    sustained f hash (Evaluated r (Some o) now :: e :: l) start.

(** Stored states and the evaluations that led to them. *)
Inductive evolved : list evaluation -> State -> Prop :=
| evolved_zero : evolved [] zero_state
| evolved_advance l old r o now error action severity incident : evolved l old ->
    action = final_action r (set_Error error (advance r old o now)) now "" ->
    evolved (Evaluated r o now :: l) (stored action severity (set_Error error (advance r old o now)) incident)
| evolved_retire l old now severity incident : evolved l old ->
    evolved (Retired now :: l) (stored "retire" severity (set_LastEvaluated now (set_Status "resolved" old)) incident).

Definition time_or_zero (l : list evaluation) : Z := match l with [] => zero_time | e :: _ => time_of e end.

(** What a state says of its past. *)
Record accounts (l : list evaluation) (s : State) : Prop := mkAccounts {
  ac_evaluated : LastEvaluated s = time_or_zero l;
  ac_seen : LastObserved s = last_seen l;
  ac_pending : PendingSince s <> zero_time -> sustained true (RuleHash s) l (PendingSince s);
  ac_recovery : RecoverySince s <> zero_time -> sustained false (RuleHash s) l (RecoverySince s) }.

Lemma same_spec a b : same a b = true <-> a = b.
Proof. unfold same. apply bool_decide_eq_true. Qed.
Lemma same_false a b : same a b = false <-> a <> b.
Proof. unfold same. apply bool_decide_eq_false. Qed.

Lemma accounts_stored l s action severity incident : accounts l s -> accounts l (stored action severity s incident).
Proof.
  intros [He Hs Hp Hr]. unfold stored. repeat case_match; split; simpl; try done; by intros [].
Qed.

Lemma accounts_error l s e : accounts l s -> accounts l (set_Error e s).
Proof. by intros []; split. Qed.

(** A timer that is not reset goes on. *)
Lemma sustained_carry f r o now l old start : LastEvaluated old = time_or_zero l -> sustained f (RuleHash old) l start ->
  (negb (same (RuleHash old) (ruleHash r)) || (3 * Interval <? Sub now (LastEvaluated old))%Z) = false ->
  unusable r o now = false ->
  ((last_seen l < At o)%Z -> Firing o = f /\ (Sub (At o) (last_seen l) <= MaxAge r)%Z) ->
  sustained f (ruleHash r) (Evaluated r (Some o) now :: l) start.
Proof.
  intros He Hsu Hreset Hu Hnew. to_prop. apply same_spec in H. rewrite H in Hsu.
  destruct l as [|e l]; [inversion Hsu|]. apply sustained_more; auto. rewrite He in H0. simpl in H0. lia.
Qed.

Lemma last_seen_usable r o now l : unusable r o now = false ->
  last_seen (Evaluated r (Some o) now :: l) = if (last_seen l <? At o)%Z then At o else last_seen l.
Proof. intros Hu. simpl. by rewrite Hu. Qed.

Lemma since_cases t now : (IsZero t = true /\ since t now = now) \/ (IsZero t = false /\ t <> zero_time /\ since t now = t).
Proof. unfold since, IsZero. destruct (Z.eqb_spec t zero_time); auto. Qed.

Lemma accounts_unusable l old r o now next : accounts l old -> match o with Some o => unusable r o now = true | None => True end ->
  LastEvaluated next = now -> LastObserved next = LastObserved old -> accounts (Evaluated r o now :: l) (unknown next).
Proof.
  intros [He Hs Hp Hr] Hu Hn Hl. split; simpl; [done| |by intros []..]. rewrite Hl, Hs. destruct o; [by rewrite Hu|done].
Qed.

Lemma unusable_spec r o now : unusable r o now = false ->
  At o <> zero_time /\ (At o <= now)%Z /\ (Sub now (At o) <= MaxAge r)%Z /\ finite (Value o) = true /\ Recovered o = negb (Firing o).
Proof.
  unfold unusable, IsZero. intros Hu. to_prop. split_and!; [done|lia|lia|done|]. by destruct (Firing o), (Recovered o).
Qed.

Lemma sustained_seen f hash l start : sustained f hash l start -> last_seen l <> zero_time.
Proof.
  induction 1 as [r o now l _ Hu Hn _|r o now e l start _ IH _ Hu _ _]; rewrite last_seen_usable by done;
    apply unusable_spec in Hu as (? & _); [|case_match; done]. by apply Z.ltb_lt in Hn as ->.
Qed.

(** A new sample, from timers that were reset or go on. *)
Lemma accounts_sample l r o now old next : unusable r o now = false -> (last_seen l < At o)%Z ->
  RuleHash next = ruleHash r -> LastEvaluated next = now -> AlertID next = AlertID old ->
  (PendingSince next <> zero_time -> Firing o = true -> sustained true (ruleHash r) (Evaluated r (Some o) now :: l) (PendingSince next)) ->
  (RecoverySince next <> zero_time -> Firing o = false -> sustained false (ruleHash r) (Evaluated r (Some o) now :: l) (RecoverySince next)) ->
  accounts (Evaluated r (Some o) now :: l)
    (let next := set_seen (At o) (Value o) next in
     if Firing o then
       let next := set_timers (PendingSince next) zero_time next in
       if negb (same (AlertID old) "") then set_Status "firing" next
       else
         let next := set_timers (since (PendingSince next) now) zero_time next in
         set_Status (if (For r <=? Sub now (PendingSince next))%Z then "firing" else "pending") next
     else if same (AlertID old) "" then set_Status "inactive" (set_timers zero_time zero_time next)
     else
       let next := set_timers zero_time (since (RecoverySince next) now) next in
       set_Status (if (RecoveryFor r <=? Sub now (RecoverySince next))%Z then "resolved" else "firing") next).
Proof.
  intros Hu Hlt Hh He _ Hp Hr. pose proof Hlt as Hnew%Z.ltb_lt.
  assert (forall f, Firing o = f -> sustained f (ruleHash r) (Evaluated r (Some o) now :: l) now) as Hstart
    by (intros; by apply sustained_start).
  assert (last_seen (Evaluated r (Some o) now :: l) = At o) as Hseen by (by rewrite last_seen_usable, Hnew).
  destruct (Firing o) eqn:Ef; cbv zeta; [destruct (negb _)|destruct (same (AlertID old) "")];
    (split; [done|done|..]); simpl; rewrite ?Hh; try (by intros []); auto.
  - destruct (since_cases (PendingSince next) now) as [[_ ->]|(_ & Hn & ->)]; auto.
  - destruct (since_cases (RecoverySince next) now) as [[_ ->]|(_ & Hn & ->)]; auto.
Qed.

Lemma accounts_advance l old r o now : accounts l old -> accounts (Evaluated r o now :: l) (advance r old o now).
Proof.
  intros Hacc. pose proof Hacc as [He Hs Hp Hr]. unfold advance. cbv zeta.
  destruct o as [o|]; [|by case_match; eapply accounts_unusable; [exact Hacc|..]].
  destruct (unusable r o now) eqn:Hu; [by case_match; eapply accounts_unusable; [exact Hacc|..]|].
  destruct (negb (same _ _) || _) eqn:Hreset; rewrite Hs; (destruct (last_seen l <? At o)%Z eqn:Hnew; simpl negb; cbv iota).
  - apply accounts_sample; try done; [by apply Z.ltb_lt|by case_match..].
  - split; [done|by rewrite last_seen_usable, Hnew by done|by intros []..].
  - apply Z.ltb_lt in Hnew as Hlt. apply accounts_sample; try done; try (by case_match).
    + case_match eqn:Hgap; [by intros []|]. intros Hn Hf. simpl in *. eapply sustained_carry; eauto. intros _. split; [done|].
      apply Hp in Hn. apply sustained_seen in Hn. unfold IsZero in Hgap. apply Z.eqb_neq in Hn. rewrite Hn in Hgap. simpl in Hgap. to_prop. lia.
    + case_match eqn:Hgap; [by intros []|]. intros Hn Hf. simpl in *. eapply sustained_carry; eauto. intros _. split; [done|].
      apply Hr in Hn. apply sustained_seen in Hn. unfold IsZero in Hgap. apply Z.eqb_neq in Hn. rewrite Hn in Hgap. simpl in Hgap. to_prop. lia.
  - apply Z.ltb_ge in Hnew as Hge. split; [done|by rewrite last_seen_usable, Hnew by done| |];
      simpl; intros Hn; eapply sustained_carry; eauto; lia.
Qed.

Lemma evolved_accounts l s : evolved l s -> accounts l s.
Proof.
  induction 1 as [|l old r o now error action severity incident _ IH _|l old now severity incident _ IH].
  - split; try done; by intros [].
  - apply accounts_stored, accounts_error, accounts_advance, IH.
  - destruct IH as [He Hs Hp Hr]. by split; simpl; try done; intros [].
Qed.

(** ** What a decision rests on *)

Lemma since_nonzero t now : now <> zero_time -> since t now <> zero_time.
Proof. destruct (since_cases t now) as [[_ ->]|(_ & ? & ->)]; done. Qed.

(** A decision on a new sample. *)
Lemma advance_decides l old r o now (f : bool) : accounts l old -> now <> zero_time ->
  LastObserved (advance r old o now) <> LastObserved old ->
  (if f then SStatus (advance r old o now) = "firing" /\ RecoverySince (advance r old o now) = zero_time /\ AlertID old = ""
   else SStatus (advance r old o now) = "resolved") ->
  exists sample start, o = Some sample /\ sustained f (ruleHash r) (Evaluated r o now :: l) start /\
    ((if f then For r else RecoveryFor r) <= Sub now start)%Z.
Proof.
  intros Hacc Hnow. pose proof (accounts_advance l old r o now Hacc) as [_ _ Hp Hr]. revert Hp Hr. unfold advance. cbv zeta.
  destruct o as [o|]; [|by case_match]. destruct (unusable r o now); [by case_match|].
  destruct (negb (LastObserved old <? At o)%Z); [by case_match|].
  set (n1 := if _ && _ then clear_timers _ else _).
  assert (AlertID n1 = AlertID old /\ RuleHash n1 = ruleHash r) as [_ Hh] by (subst n1; by repeat case_match).
  destruct (Firing o); [destruct (same (AlertID old) "") eqn:Ha|destruct (same (AlertID old) "") eqn:Ha]; simpl; rewrite ?Hh; intros Hp Hr _ Hst.
  - destruct f; [|by case_match]. exists o, (since (PendingSince n1) now). split; [done|].
    destruct (Z.leb_spec (For r) (Sub now (since (PendingSince n1) now))); [|by destruct Hst]. split; [|done]. auto using since_nonzero.
  - destruct f; [|done]. apply same_false in Ha. by destruct Hst as (_ & _ & ?).
  - destruct f; [|done]. by destruct Hst.
  - destruct f; [|].
    + destruct Hst as (_ & Hz & _). by destruct (since_nonzero (RecoverySince n1) now).
    + exists o, (since (RecoverySince n1) now). split; [done|].
      destruct (Z.leb_spec (RecoveryFor r) (Sub now (since (RecoverySince n1) now))); [|done]. split; [|done]. auto using since_nonzero.
Qed.
End History.

(** ** The evaluator among others *)

Section Among.
Context {enc : Encoding} {env : MonEnv Evals}.

Definition metrics_check (id : string) : string := "metrics:" +:+ id.

(** What evaluators do to their own table besides [save]'s transaction. *)
Inductive own_step (h : list (DB Evals)) (x : Evals) : Evals -> Prop :=
| own_insert id rule : id <> "" -> x !! id = None -> own_step h x (<[id := mkEvalRow rule zero_state 0]> x)
| own_delete id : own_step h x (delete id x)
| own_same : own_step h x x.

(** A state some evaluator read: a row of a past state, or none. *)
Definition known (h : list (DB Evals)) (id : string) (version : Z) (s : State) : Prop :=
  (version = 0%Z /\ s = zero_state) \/
  exists d rule, d ∈ h /\ own d !! id = Some (mkEvalRow rule s version).

(** The transitions evaluators attempt, on any state they ever read; other
    producers use their own name and no table of the evaluator's. *)
Inductive permitted (h : list (DB Evals)) (t : Transition Evals) : Prop :=
| permitted_other : Producer (result_of t) <> "metrics" -> Extra t = None -> permitted h t
| permitted_evaluate rule id version old o now error observer : known h id version old ->
    t = save_transition rule id version old (set_Error error (advance rule old o now)) now "" observer -> permitted h t
| permitted_retire id version old now rule observer : known h id version old ->
    t = save_transition rule id version old (set_LastEvaluated now (set_Status "resolved" old)) now removed observer -> permitted h t.

Lemma known_mono l h id version s : known h id version s -> known (l ++ h)%list id version s.
Proof. intros [?|(d & rule & Hd & ?)]; [by left|right]. exists d, rule. split; [set_solver|done]. Qed.
Lemma permitted_grows l h t : permitted h t -> permitted (l ++ h)%list t.
Proof. destruct 1; eauto using permitted, known_mono. Qed.

Abbreviation reach := (reach permitted own_step ∅).
Abbreviation committed := (committed permitted).

(** The history contains the commit of [t]. *)
Definition happened (h : list (DB Evals)) (t : Transition Evals) : Prop := exists d d' h' row inc note obs,
  (d' :: d :: h') `suffix_of` h /\ committed (d :: h') t row inc note obs d d'.

(** A state that goes back to nothing by evaluations of the instance [id] that
    the history committed, latest first. *)
Inductive genuine (h : list (DB Evals)) (id : string) : list evaluation -> State -> Prop :=
| genuine_zero : genuine h id [] zero_state
| genuine_advance l old version r o now error observer severity incident : genuine h id l old ->
    happened h (save_transition r id version old (set_Error error (advance r old o now)) now "" observer) ->
    genuine h id (Evaluated r o now :: l)
      (stored (final_action r (set_Error error (advance r old o now)) now "") severity (set_Error error (advance r old o now)) incident)
| genuine_retire l old version rule now observer severity incident : genuine h id l old ->
    happened h (save_transition rule id version old (set_LastEvaluated now (set_Status "resolved" old)) now removed observer) ->
    genuine h id (Retired now :: l) (stored "retire" severity (set_LastEvaluated now (set_Status "resolved" old)) incident).

Lemma happened_mono h h' t : h `suffix_of` h' -> happened h t -> happened h' t.
Proof. intros Hs (d & d' & h0 & row & inc & note & obs & Hsuf & Hc). exists d, d', h0, row, inc, note, obs. split; [by etrans|done]. Qed.
Lemma genuine_mono h h' id l s : h `suffix_of` h' -> genuine h id l s -> genuine h' id l s.
Proof. intros Hs. induction 1; [apply genuine_zero|eapply genuine_advance|eapply genuine_retire]; eauto using happened_mono. Qed.
Lemma genuine_evolved h id l s : genuine h id l s -> evolved l s.
Proof. induction 1; eauto using evolved. Qed.

(** Every row that was ever stored agrees with its check. *)
Record row_ok (h : list (DB Evals)) (d : DB Evals) (id : string) (row : EvalRow) : Prop := mkRowOk {
  ro_evolved : exists l, genuine h id l (er_state row);
  ro_agrees : (er_version row = 0%Z /\ er_state row = zero_state) \/
    (0 < er_version row)%Z /\ exists c, checks d !! metrics_check id = Some c /\ ck_producer c = "metrics" /\
      AlertID (er_state row) = IncidentID (ck_state c) /\
      (LastObserved (er_state row) = zero_time \/ (LastObserved (er_state row) <= ObservedAt (Last (ck_state c)))%Z) }.
Definition rows_ok (h : list (DB Evals)) (d : DB Evals) : Prop := forall id row, own d !! id = Some row -> row_ok h d id row.

Lemma metrics_check_inj a b : metrics_check a = metrics_check b -> a = b.
Proof. intros H%(f_equal chars). unfold metrics_check in H. rewrite !chars_app in H. apply app_inv_head in H. by apply chars_inj. Qed.

(** Rows whose check was not touched. *)
Lemma rows_ok_frame h h' (d d' : DB Evals) id row : row_ok h d id row -> h `suffix_of` h' ->
  (forall c, checks d !! metrics_check id = Some c -> checks d' !! metrics_check id = Some c) -> row_ok h' d' id row.
Proof.
  intros [[l Hl] Ha] Hs Hck. split; [exists l; by eapply genuine_mono|].
  destruct Ha as [Ha|(Hv & c & Hc & Hrest)]; [by left|right]. split; [done|]. exists c. auto.
Qed.
Lemma rows_ok_mono h h' d : h `suffix_of` h' -> rows_ok h d -> rows_ok h' d.
Proof. intros Hs Hok id row Hrow. eapply rows_ok_frame; eauto. Qed.

Lemma quiet_rows_ok h h' hs (d d' : DB Evals) : h `suffix_of` h' -> quiet d d' -> (own d' = own d \/ own_step hs (own d) (own d')) ->
  rows_ok h d -> rows_ok h' d'.
Proof.
  intros Hsuf [Hc _ _] Hown Hok id row Hrow.
  assert (own d !! id = Some row \/ (exists rule, row = mkEvalRow rule zero_state 0)) as [H1|[rule ->]].
  { destruct Hown as [E|Hst]; [rewrite E in Hrow; auto|]. remember (own d') as x eqn:Ex. destruct Hst as [id' rule _ Hn|id'|]; [| |auto].
    - apply lookup_insert_Some in Hrow as [[_ <-]|[_ ?]]; eauto.
    - apply lookup_delete_Some in Hrow as [_ ?]. auto. }
  - eapply rows_ok_frame; [by apply Hok|done|]. intros c Hl. destruct Hc as [->|(k & p & Hn & ->)]; [done|].
    rewrite lookup_insert_ne; [done|]. congruence.
  - split; [exists []; apply genuine_zero|by left].
Qed.

Lemma stored_spec action severity next incident :
  AlertID (stored action severity next incident) = incident /\ LastObserved (stored action severity next incident) = LastObserved next.
Proof. unfold stored. by repeat case_match. Qed.

Lemma final_retire rule next now : final_action rule next now removed = "retire".
Proof. done. Qed.

Lemma committed_rows_ok_save hs h h' t row inc note obs (d d' : DB Evals) rule id version old next now reason observer :
  h `suffix_of` h' -> committed hs t row inc note obs d d' -> t = save_transition rule id version old next now reason observer ->
  (forall incident, exists l, genuine h' id l (stored (final_action rule next now reason) (severity_of rule old) next incident)) ->
  rows_ok h d -> rows_ok h' d'.
Proof.
  intros Hsuf Hcm -> Hev Hok id' row' Hrow'. destruct Hcm as [_ _ Hprod _ Hck _ Hg Hef].
  pose proof (ef_own _ _ _ _ _ _ _ Hef) as Hown. simpl in Hown. rewrite Hown in Hrow'. unfold store_evaluation in Hrow'.
  pose proof (ef_checks _ _ _ _ _ _ _ Hef) as Hc. simpl in Hc.
  destruct (decide (id' = id)) as [->|Hne].
  2: { rewrite lookup_alter_ne in Hrow' by done. eapply rows_ok_frame; [by apply Hok|done|]. intros c Hl. rewrite Hc.
       rewrite lookup_insert_ne; [done|]. intros H%metrics_check_inj. congruence. }
  rewrite lookup_alter_eq in Hrow'. apply fmap_Some in Hrow' as (r0 & Hr0 & ->). destruct (Hok _ _ Hr0) as [_ Hag].
  split; simpl; [apply Hev|right]. split; [destruct Hag as [[-> _]|[? _]]; lia|].
  eexists. rewrite Hc. split; [by rewrite lookup_insert_eq|]. simpl. split; [by rewrite Hprod|].
  rewrite (proj1 (stored_spec _ _ _ _)), (proj2 (stored_spec _ _ _ _)).
  split; [done|right]. lia.
Qed.

(** A state that was read goes back to evaluations that were stored. *)
Lemma known_genuine h id version s : (forall d, d ∈ h -> rows_ok h d) -> known h id version s -> exists l, genuine h id l s.
Proof.
  intros Hok [[_ ->]|(d & rule & Hd & Hrow)]; [exists []; apply genuine_zero|].
  by destruct (Hok _ Hd _ _ Hrow) as [He _].
Qed.

Lemma committed_rows_ok h t row inc note obs (d d' : DB Evals) :
  (forall d0, d0 ∈ d :: h -> rows_ok (d :: h) d0) -> committed (d :: h) t row inc note obs d d' -> rows_ok (d' :: d :: h) d'.
Proof.
  intros Hh Hcm. assert ((d :: h) `suffix_of` (d' :: d :: h)) as Hsuf by (by apply suffix_cons_r).
  assert (rows_ok (d :: h) d) as Hok by (apply Hh; left).
  assert (happened (d' :: d :: h) t) as Hhap by (exists d, d', h, row, inc, note, obs; by split).
  destruct (cm_permitted _ _ _ _ _ _ _ _ _ Hcm) as [Hprod Hex|rule id version old o now error observer Hk Ht|id version old now rule observer Hk Ht].
  - intros id row' Hrow'. destruct Hcm as [_ _ Hp _ Hck _ _ Hef]. rewrite (ef_own _ _ _ _ _ _ _ Hef), Hex in Hrow'.
    destruct (Hok _ _ Hrow') as [[l Hl] Ha]. split; [exists l; by eapply genuine_mono|].
    destruct Ha as [Ha|(Hv & c & Hc & Hpc & Hrest)]; [by left|right]. split; [done|].
    exists c. split; [|done]. rewrite (ef_checks _ _ _ _ _ _ _ Hef), lookup_insert_ne; [done|].
    intros Heq. rewrite Heq in Hck. rewrite Hc in Hck. injection Hck as ->. congruence.
  - eapply committed_rows_ok_save; [exact Hsuf|exact Hcm|exact Ht| |done]. intros incident.
    destruct (known_genuine _ _ _ _ Hh Hk) as [l Hl]. eexists. subst t. eapply genuine_advance; [by eapply genuine_mono|done].
  - eapply committed_rows_ok_save; [exact Hsuf|exact Hcm|exact Ht| |done]. intros incident. rewrite final_retire.
    destruct (known_genuine _ _ _ _ Hh Hk) as [l Hl]. eexists. subst t. eapply genuine_retire; [by eapply genuine_mono|done].
Qed.

Lemma reach_rows_ok h : reach h -> forall d, d ∈ h -> rows_ok h d.
Proof.
  induction 1 as [|d h d' Hr Hok Hc].
  - intros d ->%list_elem_of_singleton id row Hrow. simpl in Hrow. by rewrite lookup_empty in Hrow.
  - assert ((d :: h) `suffix_of` (d' :: d :: h)) as Hsuf by (by apply suffix_cons_r).
    intros d0 [->|Hd0]%elem_of_cons; [|eapply rows_ok_mono; [exact Hsuf|auto]].
    destruct (client_cases _ _ _ _ _ (reach_grows _ _ _ _ _ Hr) Hc) as [[Hq Hown]|(t & row & inc & note & obs & Hcm)].
    + eapply quiet_rows_ok; [exact Hsuf|exact Hq|exact Hown|]. apply Hok. left.
    + by eapply committed_rows_ok.
Qed.

(** A new sample: what an incident begins or ends with is newer than all its
    check has seen. *)
Lemma known_seen h (d : DB Evals) id version old row r : reach (d :: h) -> known (d :: h) id version old ->
  checks d !! metrics_check id = Some row -> ObservedAt r <> zero_time -> (ObservedAt (Last (ck_state row)) < ObservedAt r)%Z ->
  LastObserved old <> ObservedAt r.
Proof.
  intros Hr [[_ ->]|(d0 & rule & Hd0 & Hrow)] Hck Hz Hlt; [by simpl|].
  destruct (reach_rows_ok _ Hr d0 Hd0 _ _ Hrow) as [_ [[_ Ho]|(_ & c & Hc & _ & _ & Ho)]]; simpl in Ho; [by rewrite Ho|].
  destruct (reach_grows _ _ _ _ _ Hr d0 Hd0 _ _ Hc) as (row1 & Hrow1 & _ & _ & Hobs & _).
  rewrite Hck in Hrow1. injection Hrow1 as <-. destruct Ho as [->|Ho]; [done|lia].
Qed.


Lemma status_action_open next reason : (status_action next reason).2 = "open" ->
  reason <> removed /\ SStatus next = "firing" /\ RecoverySince next = zero_time.
Proof.
  unfold status_action, same, IsZero. repeat case_match; try done. to_prop. by intros _. Qed.
Lemma status_action_resolve next reason : (status_action next reason).2 = "resolve" -> reason <> removed /\ SStatus next = "resolved".
Proof. unfold status_action, same. repeat case_match; try done. to_prop. by intros _. Qed.
Lemma final_action_cases rule next now reason :
  final_action rule next now reason = (status_action next reason).2 \/
  (final_action rule next now reason = "keep" /\ (status_action next reason).2 = "open").
Proof. unfold final_action, same. case_match; auto. right. split; [done|]. by to_prop. Qed.

(** A row that is there stays, with a growing version, or was deleted meanwhile. *)
Lemma row_stays id row0 later (d0 : DB Evals) h0 : reach (later ++ d0 :: h0)%list -> own d0 !! id = Some row0 ->
  (exists l1 gone l2, later = (l1 ++ gone :: l2)%list /\ own gone !! id = None) \/
  exists row, own (hd d0 later) !! id = Some row /\
    ((er_version row0 < er_version row)%Z \/ (er_version row = er_version row0 /\ er_state row = er_state row0)).
Proof.
  intros Hr H0. induction later as [|d' later IH]; [right; exists row0; auto|]. simpl in Hr.
  assert (Hstep : exists d h, (later ++ d0 :: h0)%list = d :: h /\ d = hd d0 later) by (destruct later; simpl; eauto).
  destruct Hstep as (d & h & E & Hd). rewrite E in Hr. inversion Hr as [|? ? ? Hr' Hc]; subst d1 d'0 h1. rewrite E in IH.
  destruct (IH Hr') as [(l1 & gone & l2 & -> & Hg)|(row & Hrow & Hv)]; [left; by exists (d' :: l1), gone, l2|].
  simpl. rewrite <- Hd in Hrow. destruct (own d' !! id) as [row'|] eqn:E'; [|left; by exists [], d', later].
  right. exists row'. split; [done|].
  assert (Hsame : row' = row \/ er_version row' = (er_version row + 1)%Z); [|destruct Hsame as [->| ->]; [done|left; lia]].
  destruct (client_cases _ _ _ _ _ (reach_grows _ _ _ _ _ Hr') Hc) as [[_ [Ho|Hst]]|(t & ck & inc & note & obs & Hcm)].
  - rewrite Ho, Hrow in E'. left. by injection E'.
  - left. remember (own d') as x eqn:Ex. destruct Hst as [i rule _ Hn|i|].
    + rewrite lookup_insert_ne in E' by congruence. rewrite Hrow in E'. by injection E'.
    + apply lookup_delete_Some in E' as [_ E']. rewrite Hrow in E'. by injection E'.
    + rewrite Hrow in E'. by injection E'.
  - rewrite (ef_own _ _ _ _ _ _ _ (cm_effect _ _ _ _ _ _ _ _ _ Hcm)) in E'.
    assert (Halter : forall i st, store_evaluation i st (own d) !! id = Some row' -> row' = row \/ er_version row' = (er_version row + 1)%Z).
    { intros i st. unfold store_evaluation. destruct (decide (i = id)) as [->|Hn].
      - rewrite lookup_alter_eq, Hrow. intros [= <-]. by right.
      - rewrite lookup_alter_ne by done. rewrite Hrow. intros [= <-]. by left. }
    destruct (cm_permitted _ _ _ _ _ _ _ _ _ Hcm) as [_ Hex|rule i version old o now error observer _ ->|i version old now rule observer _ ->];
      [rewrite Hex, Hrow in E'; left; by injection E'|simpl in E'; by eapply Halter..].
Qed.

(** The row [old] was read from was deleted since, whatever is there now. *)
Definition remade (h : list (DB Evals)) (id : string) (old : State) : Prop := exists later gone earlier d0 row,
  h = (later ++ gone :: earlier)%list /\ own gone !! id = None /\ d0 ∈ earlier /\ own d0 !! id = Some row /\ er_state row = old /\ AlertID old <> "".

(** An evaluator that believes in an incident its check does not have. *)
Lemma stale_remade h (d : DB Evals) id version old row rule next now reason observer : reach (d :: h) -> known (d :: h) id version old ->
  checks d !! metrics_check id = Some row -> IncidentID (ck_state row) = "" -> AlertID old <> "" ->
  holds (save_transition rule id version old next now reason observer) (ck_version row) d = true -> remade (d :: h) id old.
Proof.
  intros Hr Hk Hck Hi Ha Hh. destruct Hk as [[_ ->]|(d0 & rule0 & Hd0 & Hrow0)]; [done|].
  apply list_elem_of_split in Hd0 as (later & earlier & E). rewrite E in *.
  destruct (row_stays id _ later d0 earlier Hr Hrow0) as [(l1 & gone & l2 & -> & Hg)|(row1 & Hrow1 & Hv)].
  - exists l1, gone, (l2 ++ d0 :: earlier)%list, d0, (mkEvalRow rule0 old version).
    split_and!; [by rewrite <- app_assoc|done|set_solver|done|done|done].
  - exfalso. assert (hd d0 later = d) as Hd by (by destruct later; injection E). rewrite Hd in Hrow1.
    unfold holds in Hh. simpl in Hh. rewrite Hrow1 in Hh. to_prop. simpl in Hv. destruct Hv as [Hv|[_ Hs]]; [lia|].
    assert (row_ok (later ++ d0 :: earlier)%list d id row1) as [_ Hag] by (apply (reach_rows_ok _ Hr d); [rewrite <- E; left|done]).
    destruct Hag as [[_ Hz]|(_ & c & Hc & _ & Hid & _)]; [by rewrite <- Hs, Hz in Ha|]. rewrite Hck in Hc. injection Hc as <-. rewrite Hs in Hid. congruence.
Qed.

(** What the evaluator's decisions rest on: the evaluations of the instance that
    were committed before, and this one. *)
Definition fired (h : list (DB Evals)) (id : string) (l : list evaluation) (old : State) (rule : Rule) (o : Observation) (now : Z) : Prop :=
  remade h id old \/
  exists start, sustained true (ruleHash rule) (Evaluated rule (Some o) now :: l) start /\ (For rule <= Sub now start)%Z.
Definition recovered (l : list evaluation) (rule : Rule) (o : Observation) (now : Z) : Prop :=
  exists start, sustained false (ruleHash rule) (Evaluated rule (Some o) now :: l) start /\ (RecoveryFor rule <= Sub now start)%Z.

Lemma evaluated_decision h (d : DB Evals) id version old row rule o now error observer (f : bool) :
  let next := set_Error error (advance rule old o now) in
  let t := save_transition rule id version old next now "" observer in
  reach (d :: h) -> known (d :: h) id version old -> checks d !! metrics_check id = Some row -> validate t = Ok tt ->
  newer t (ck_state row) -> Action t = (if f then "open" else "resolve") ->
  (f = true -> IncidentID (ck_state row) = "") -> holds t (ck_version row) d = true ->
  exists l sample, o = Some sample /\ genuine (d :: h) id l old /\ (if f then fired (d :: h) id l old rule sample now else recovered l rule sample now).
Proof.
  intros next t Hr Hk Hck Hv (Hz & [Hlt _] & _) Ha Hinc Hholds.
  destruct (known_genuine _ _ _ _ (reach_rows_ok _ Hr) Hk) as [l Hl].
  assert (now <> zero_time) as Hnow.
  { intros ->. unfold validate, same in Hv. simpl in Hv. by repeat case_match. }
  assert (LastObserved next <> LastObserved old) as Hnew by (intros Heq; eapply known_seen; eauto).
  assert (LastObserved (advance rule old o now) <> LastObserved old /\ SStatus (advance rule old o now) = SStatus next /\
    RecoverySince (advance rule old o now) = RecoverySince next) as (Hnew' & Hst' & Hrec') by done.
  simpl in Ha. destruct (final_action_cases rule next now "") as [Hfa|[Hfa _]]; [|by rewrite Hfa in Ha; destruct f].
  rewrite Hfa in Ha. pose proof (evolved_accounts _ _ (genuine_evolved _ _ _ _ Hl)) as Hacc. destruct f.
  - apply status_action_open in Ha as (_ & Hst & Hrec). destruct (decide (AlertID old = "")) as [Hid|Hid].
    + destruct (advance_decides l old rule o now true Hacc Hnow Hnew') as (sample & start & -> & Hsu & Hle).
      { by rewrite Hst', Hrec'. }
      exists l, sample. split; [done|]. split; [done|]. right. by exists start.
    + destruct o as [sample|]; [|by subst next; unfold advance in Hst; simpl in Hst].
      exists l, sample. split; [done|]. split; [done|]. left. by eapply stale_remade; eauto.
  - apply status_action_resolve in Ha as (_ & Hst).
    destruct (advance_decides l old rule o now false Hacc Hnow Hnew') as (sample & start & -> & Hsu & Hle); [by rewrite Hst'|].
    exists l, sample. split; [done|]. split; [done|]. by exists start.
Qed.

(** The step from [d] to [d'] stores this evaluation of the instance. *)
Definition evaluates (h : list (DB Evals)) (d d' : DB Evals) (id : string) (old : State) (rule : Rule) (o : Observation) (now : Z) : Prop :=
  exists version error observer row inc note obs,
    committed (d :: h) (save_transition rule id version old (set_Error error (advance rule old (Some o) now)) now "" observer) row inc note obs d d'.
Definition removes (h : list (DB Evals)) (d d' : DB Evals) (id : string) : Prop :=
  exists rule version old now observer row inc note obs,
    committed (d :: h) (save_transition rule id version old (set_LastEvaluated now (set_Status "resolved" old)) now removed observer) row inc note obs d d'.

Lemma alert_decisions (d d' : DB Evals) h id row : reach (d' :: d :: h) ->
  checks d !! metrics_check id = Some row -> ck_producer row = "metrics" ->
  incident d' (metrics_check id) = incident d (metrics_check id) \/
  (incident d (metrics_check id) = "" /\ exists l old rule o now,
     evaluates h d d' id old rule o now /\ genuine (d :: h) id l old /\ fired (d :: h) id l old rule o now) \/
  (incident d (metrics_check id) <> "" /\ incident d' (metrics_check id) = "" /\
     ((exists l old rule o now, evaluates h d d' id old rule o now /\ genuine (d :: h) id l old /\ recovered l rule o now) \/
      removes h d d' id)).
Proof.
  intros Hr Hck Hprod. assert (reach (d :: h)) as Hr1 by (by inversion Hr).
  destruct (incident_changes _ _ _ _ _ _ (metrics_check id) Hr) as [?|(t & row' & inc & note & obs & Hcm & Hid & Hev & Hcase)]; [by left|right].
  pose proof Hcm as [Hp Hv Hpr _ Hrow _ _ _]. rewrite Hid, Hck in Hrow. injection Hrow as <-.
  destruct Hp as [Hother _|rule id' version old o now error observer Hk Ht|id' version old now rule observer Hk Ht]; [congruence| |];
    (assert (id' = id) as -> by (subst t; simpl in Hid; by apply metrics_check_inj)); subst t.
  - assert (forall f : bool, newer (save_transition rule id version old (set_Error error (advance rule old o now)) now "" observer) (ck_state row) ->
      Action (save_transition rule id version old (set_Error error (advance rule old o now)) now "" observer) = (if f then "open" else "resolve") ->
      (f = true -> incident d (metrics_check id) = "") ->
      exists l sample, evaluates h d d' id old rule sample now /\ genuine (d :: h) id l old /\
        (if f then fired (d :: h) id l old rule sample now else recovered l rule sample now)) as Hdec.
    { intros f Hn Ha Hi. unfold incident in Hi. rewrite Hck in Hi. pose proof (cm_holds _ _ _ _ _ _ _ _ _ Hcm) as Hholds.
      destruct (evaluated_decision h d id version old row rule o now error observer f) as (l & sample & -> & Hg & Hf); try done.
      exists l, sample. split; [|done]. by exists version, error, observer, row, inc, note, obs. }
    destruct Hcase as [(Hi & _ & Ha & _ & Hn)|(Hi & Hi' & _ & Hf)].
    + left. split; [done|]. destruct (Hdec true Hn Ha (fun _ => Hi)) as (l & sample & ? & ? & ?). eauto 10.
    + right. split_and!; [done|done|left]. destruct Hf as [(Ha & _ & Hn)|(Ha & _)].
      * destruct (Hdec false Hn Ha ltac:(done)) as (l & sample & ? & ? & ?). eauto 10.
      * exfalso. revert Ha. simpl. destruct (final_action_cases rule (set_Error error (advance rule old o now)) now "") as [->|[-> _]]; [|done].
        unfold status_action, same. by repeat case_match.
  - right. destruct Hcase as [(_ & _ & Ha & _)|(Hi & Hi' & _ & _)]; [done|].
    split_and!; [done|done|right]. by exists rule, version, old, now, observer, row, inc, note, obs.
Qed.

Lemma reach_ids h : reach h -> forall d, d ∈ h -> own d !! "" = None.
Proof.
  induction 1 as [|d h d' Hr Hok Hc]; [by intros d ->%list_elem_of_singleton|].
  intros d0 [->|Hd0]%elem_of_cons; [|auto]. assert (own d !! "" = None) as Hd by (apply Hok; left).
  destruct (client_cases _ _ _ _ _ (reach_grows _ _ _ _ _ Hr) Hc) as [[_ [->|Hst]]|(t & row & inc & note & obs & Hcm)]; [done| |].
  - destruct Hst as [id rule Hn _|id|]; [by rewrite lookup_insert_ne|by apply lookup_delete_None; right|done].
  - rewrite (ef_own _ _ _ _ _ _ _ (cm_effect _ _ _ _ _ _ _ _ _ Hcm)).
    destruct (cm_permitted _ _ _ _ _ _ _ _ _ Hcm) as [_ ->|rule id version old o now error observer _ ->|id version old now rule observer _ ->];
      [done|..]; simpl; unfold store_evaluation; apply lookup_alter_None; done.
Qed.

(** *** The passes of the evaluator *)

Class EncodingLaws := sha256_nonempty : forall s, sha256_hex s <> "".
Context {laws : EncodingLaws} {neighbours : Neighbours permitted own_step ∅} {aenv : AlertEnv}.
Context (shuffle_perm : forall A n (l : list A), shuffle n l ≡ₚ l).
Abbreviation settled := (settled permitted own_step ∅).
Abbreviation after := (after permitted own_step ∅).

(** [m] only takes steps a client may take. *)
Definition safe {A} (Q : result string A -> list (DB Evals) -> Prop) (m : cmd Evals A) (w : W Evals) : Prop :=
  post m (fun r w' => after w w' /\ Q r (states w')) w.

Lemma steps_bind {A B} (m : cmd Evals A) (k : A -> cmd Evals B) R Q w :
  safe R m w -> (forall e h, R (Err e) h -> Q (Err e) h) ->
  (forall a w', after w w' -> R (Ok a) (states w') -> safe Q (k a) w') -> safe Q (m ≫= k) w.
Proof.
  unfold safe. intros Hm He Hk. apply post_bind. eapply post_mono; [exact Hm|]. intros [a|e] w' [Ha Hr]; [|auto].
  eapply post_mono; [by apply Hk|]. intros r w2 [Ha2 Hq]. split; [|done]. by eapply after_trans.
Qed.
Lemma steps_ret {A} (a : A) (Q : result string A -> list (DB Evals) -> Prop) w : settled w -> Q (Ok a) (states w) -> safe Q (ret a) w.
Proof. intros Hs Hq. apply post_ret. split; [by apply after_refl|done]. Qed.
Lemma steps_fail {A} e (Q : result string A -> list (DB Evals) -> Prop) w : settled w -> Q (Err e) (states w) -> safe Q (fail e) w.
Proof. intros Hs Hq. apply post_fail. split; [by apply after_refl|done]. Qed.
Lemma steps_mono {A} (m : cmd Evals A) (R Q : result string A -> list (DB Evals) -> Prop) w :
  safe R m w -> (forall r h, R r h -> Q r h) -> safe Q m w.
Proof. unfold safe. intros Hm Hq. eapply post_mono; [exact Hm|]. intros r w' []. auto. Qed.
Lemma steps_attempt {A} (m : cmd Evals A) (R : result string A -> list (DB Evals) -> Prop) (Q : result string (result string A) -> list (DB Evals) -> Prop) w :
  safe R m w -> (forall r h, R r h -> Q (Ok r) h) -> safe Q (attempt m) w.
Proof. unfold safe. intros Hm Hq. apply post_attempt. eapply post_mono; [exact Hm|]. intros r w' []. auto. Qed.

Lemma steps_ask {A} (f : nat -> A) (Q : result string A -> list (DB Evals) -> Prop) w :
  settled w -> (forall n, Q (Ok (f n)) (states w)) -> safe Q (ask f) w.
Proof.
  intros [Hr Hi] Hq. unfold safe, post, ask. simpl. split; [|apply Hq]. split; [|done]. split; [done|].
  intros m d Hm. apply Hi. simpl in Hm. lia.
Qed.
Lemma steps_query {A} (q : DB Evals -> A) (Q : result string A -> list (DB Evals) -> Prop) w : settled w ->
  (forall e h, Q (Err e) h) -> (forall d h, d ∈ h -> reach h -> Q (Ok (q d)) h) -> safe Q (query q) w.
Proof.
  intros Hs He Hq. apply (post_query permitted own_step ∅); [done| |].
  - intros Ha. split; [done|]. apply Hq; [left|apply Ha].
  - intros e w' Ha. auto.
Qed.

(** Statements on the evaluator's table. *)
Lemma steps_Execute (s : stmt Evals) w (f : Evals -> Evals) : settled w ->
  (forall d, s d = Some (set_own (f (own d)) d)) -> (forall h x, own_step h x (f x)) -> safe (fun _ _ => True) (Execute s) w.
Proof.
  intros Hs Hf Hst.
  assert (forall d', s (db (interleave w)) = Some d' -> client permitted own_step (states (interleave w)) (db (interleave w)) d' /\
    forall m, (S (tick w) <= m)%nat -> observations d' !! newID m = None) as Hc.
  { intros d'. rewrite Hf. intros [= <-]. split; [by apply client_own|]. intros m Hm. simpl.
    apply interleave_after in Hs as [Hs _]; [|done]. apply Hs; [rewrite tick_interleave; lia|left]. }
  pose proof (Execute_after _ _ _ _ _ Hs Hc) as Hex. unfold safe, post. destruct (Execute s w). by destruct Hex.
Qed.

Lemma steps_insert id rule w : settled w -> id <> "" -> safe (fun _ _ => True) (Execute (insert_evaluation id rule)) w.
Proof.
  intros Hs Hid. apply (steps_Execute _ _ (fun x => match x !! id with Some _ => x | None => <[id := mkEvalRow rule zero_state 0]> x end)); [done| |].
  - intros d. unfold insert_evaluation. case_match; [by destruct d|done].
  - intros h x. destruct (x !! id) eqn:E; [apply own_same|by apply own_insert].
Qed.
Lemma steps_delete id version w : settled w -> safe (fun _ _ => True) (Execute (delete_evaluation id version)) w.
Proof.
  intros Hs. apply (steps_Execute _ _ (fun x => match x !! id with Some row => if (er_version row =? version)%Z then delete id x else x | None => x end)); [done| |].
  - intros d. unfold delete_evaluation. repeat case_match; by destruct d.
  - intros h x. repeat case_match; eauto using own_step.
Qed.

(** A history that has grown. *)
Definition mono {A} (P : A -> list (DB Evals) -> Prop) : Prop := forall a l h, P a h -> P a (l ++ h)%list.
Lemma mono_after {A} (P : A -> list (DB Evals) -> Prop) a w w' : mono P -> after w w' -> P a (states w) -> P a (states w').
Proof. intros HP [_ [l ->]]. apply HP. Qed.

(** A stored state as some evaluator read it, under its key. *)
Definition read (s : storedState) (h : list (DB Evals)) : Prop :=
  (sd_version s = 0%Z /\ sd_state s = zero_state) \/
  (sd_id s <> "" /\ known h (sd_id s) (sd_version s) (sd_state s)).
Lemma read_mono : mono read.
Proof. intros s l h [?|[? ?]]; [by left|right]. auto using known_mono. Qed.
Lemma read_known s id h : read s h -> known h (or_else (sd_id s) id) (sd_version s) (sd_state s).
Proof. unfold or_else. intros [?|[Hne Hk]]; [by left|]. apply same_false in Hne. by rewrite Hne. Qed.

Lemma instanceID_nonempty rule l : instanceID rule l <> "".
Proof. unfold instanceID, fingerprint. case_match; apply sha256_nonempty. Qed.

Lemma steps_save rule s next now reason observer w : settled w -> read s (states w) ->
  (forall h id, known h id (sd_version s) (sd_state s) ->
     permitted h (save_transition rule id (sd_version s) (sd_state s) next now reason observer)) ->
  safe (fun _ _ => True) (save rule s next now reason observer) w.
Proof.
  intros Hs Hread Hperm. unfold save. case_match; [by apply steps_ret|].
  set (id := or_else (sd_id s) (instanceID rule (SLabels next))).
  assert (id <> "") as Hid. { subst id. unfold or_else. case_match; [apply instanceID_nonempty|by apply same_false]. }
  eapply steps_bind; [by apply steps_insert|done|]. intros _ w1 Ha1 _.
  assert (permitted (states w1) (save_transition rule id (sd_version s) (sd_state s) next now reason observer)) as Hp.
  { apply Hperm. destruct Ha1 as [_ [l ->]]. apply known_mono. by apply read_known. }
  eapply post_mono; [eapply (Record_spec permitted own_step ∅); [apply Ha1|exact Hp]|]. intros r w2 (Ha2 & _). by split.
Qed.

Lemma steps_each {A B} (P : A -> list (DB Evals) -> Prop) (I : B -> list (DB Evals) -> Prop) (f : B -> A -> cmd Evals (flow B)) l b w :
  mono P -> mono I -> settled w -> I b (states w) -> (forall a, a ∈ l -> P a (states w)) ->
  (forall b a w, settled w -> I b (states w) -> P a (states w) ->
     safe (fun r h => forall b', r = Ok (Next b') -> I b' h) (f b a) w) ->
  safe (fun r h => forall b', r = Ok (Next b') -> I b' h) (each f l b) w.
Proof.
  intros HP HI Hs Hb Hl Hf. revert b w Hs Hb Hl. induction l as [|a l IH]; intros b w Hs Hb Hl; simpl.
  - apply steps_ret; [done|]. by intros b' [= <-].
  - eapply steps_bind; [apply Hf; [done|done|apply Hl; left]|done|].
    intros [e|b1] w1 Ha Hr; simpl in Hr; [by apply steps_ret; [apply Ha|]|].
    apply IH; [apply Ha|by apply Hr|]. intros a' Ha'. eapply mono_after; [done|exact Ha|]. apply Hl. by right.
Qed.

Definition any {A} (a : A) (h : list (DB Evals)) : Prop := True.
Lemma any_mono {A} : mono (@any A).
Proof. done. Qed.

(** A return in the middle of a pass. *)
Lemma steps_stopped Q (k : bool -> cmd Evals Q) (R : result string Q -> list (DB Evals) -> Prop) w : settled w ->
  (forall e h, R (Err e) h) -> (forall b w', after w w' -> safe R (k b) w') -> safe R (stopped ≫= k) w.
Proof.
  intros Hs He Hk. unfold stopped. eapply (steps_bind _ _ (fun _ _ => True)); [|done|intros b w' Ha _; auto].
  eapply steps_bind; [by apply (steps_ask _ (fun _ _ => True))|done|]. intros b1 w1 Ha1 _. simpl.
  eapply steps_bind; [apply (steps_ask _ (fun _ _ => True)); [apply Ha1|done]|done|]. intros b2 w2 Ha2 _. apply steps_ret; [apply Ha2|done].
Qed.
Lemma steps_cancel {B} (fs : bool -> list string) (I : B -> list (DB Evals) -> Prop) w : settled w ->
  safe (fun r h => forall b', r = Ok (Next b') -> I b' h) (c ← ask cancelled; ret (@Stop B (fs c))) w.
Proof.
  intros Hs. eapply (steps_bind _ _ (fun _ _ => True)); [by apply steps_ask|by intros e h _ b'|]. intros c w1 Ha _.
  apply steps_ret; [apply Ha|]. by intros b'.
Qed.

Lemma steps_sort_out observations acc s w : settled w ->
  (forall id x, acc.1 !! id = Some x -> read x (states w)) -> read s (states w) ->
  safe (fun r h => forall b', r = Ok (Next b') -> forall id x, b'.1 !! id = Some x -> read x h) (sort_out observations acc s) w.
Proof.
  intros Hs Hacc Hread. destruct acc as [previous failures]. unfold sort_out. case_match.
  - eapply (steps_bind _ _ (fun _ _ => True)); [by apply steps_ask|by intros e h _ b'|]. intros b w1 Ha1 _.
    case_match; [apply steps_ret; [apply Ha1|by intros b']|].
    eapply (steps_bind _ _ (fun r h => is_ok r = true)); [|by intros|].
    { eapply steps_attempt; [apply steps_delete, Ha1|done]. }
    intros r w2 Ha2 _. apply steps_ret; [apply Ha2|]. intros b' [= <-] id x Hx. simpl in Hx.
    eapply (mono_after read); [apply read_mono|exact Ha2|]. eapply (mono_after read); [apply read_mono|exact Ha1|]. by eapply Hacc.
  - apply steps_ret; [done|]. intros b' [= <-] id x. simpl. intros [[_ <-]|[_ Hx]]%lookup_insert_Some; [done|by eapply Hacc].
Qed.

Lemma complete_read rule observations previous h : (forall id x, previous !! id = Some x -> read x h) ->
  forall id x, complete rule observations previous !! id = Some x -> read x h.
Proof.
  intros Hp id x. unfold complete. intros [Hx|[_ Hx]]%lookup_union_Some_raw.
  - case_match; [|by eapply Hp]. apply lookup_insert_Some in Hx as [[_ <-]|[_ ?]]; [by left|by eapply Hp].
  - rewrite lookup_fmap in Hx. apply fmap_Some in Hx as (o & _ & ->). by left.
Qed.

Lemma steps_evaluate_one rule observer now observations error failures (x : string * storedState) w : settled w ->
  read x.2 (states w) ->
  safe (fun r h => forall b', r = Ok (Next b') -> any b' h) (evaluate_one rule observer now observations error failures x) w.
Proof.
  intros Hs Hread. unfold evaluate_one. apply steps_stopped; [done|done|]. intros b w1 Ha1.
  destruct b; [by apply (steps_cancel (fun c => if c then _ else _) any); apply Ha1|].
  eapply (steps_bind _ _ (fun r h => is_ok r = true)); [|by intros|].
  - eapply steps_attempt; [|by intros r h _]. apply steps_save; [apply Ha1|by eapply (mono_after read); [apply read_mono|exact Ha1|]|].
    intros h id Hk. by eapply permitted_evaluate.
  - intros r w2 Ha2 _. by apply steps_ret; [apply Ha2|].
Qed.

Lemma steps_retire_one observer now active failures (x : string * EvalRow) w : settled w ->
  read (mkStored x.1 (er_version x.2) (er_state x.2)) (states w) ->
  safe (fun r h => forall b', r = Ok (Next b') -> any b' h) (retire_one observer now active failures x) w.
Proof.
  intros Hs Hread. unfold retire_one. case_match; [by apply steps_ret|]. apply steps_stopped; [done|done|]. intros b w1 Ha1.
  destruct b; [by apply (steps_cancel (fun c => if c then _ else _) any); apply Ha1|].
  case_match; [by apply steps_ret; [apply Ha1|]|].
  eapply (steps_bind _ _ (fun r h => is_ok r = true)); [|by intros|].
  - eapply steps_attempt; [|by intros r h _]. apply steps_save; [apply Ha1|by eapply (mono_after read); [apply read_mono|exact Ha1|]|].
    intros h id Hk. by eapply permitted_retire.
  - intros r w2 Ha2 _. by apply steps_ret; [apply Ha2|].
Qed.

Lemma steps_observe rule now w : settled w -> safe (fun _ _ => True) (observe rule now) w.
Proof.
  assert (forall q f m w, settled w -> safe (fun _ _ => True) (observe_predicate rule now q f m) w) as Hpred.
  { intros q f m w1 Hs. unfold observe_predicate. case_match; [by apply steps_ret|].
    eapply (steps_bind _ _ (fun _ _ => True)); [by apply steps_ask|done|]. intros a w2 Ha _. by apply steps_ret; [apply Ha|]. }
  intros Hs. unfold observe. eapply steps_bind; [by apply Hpred|done|]. intros [m1|] w1 Ha1 _; [|by apply steps_ret; [apply Ha1|]].
  eapply steps_bind; [by apply Hpred; apply Ha1|done|]. intros [m2|] w2 Ha2 _; [|by apply steps_ret; [apply Ha2|]].
  case_match; [by apply steps_ret; [apply Ha2|]|].
  eapply (steps_bind _ _ (fun _ _ => True)); [by apply steps_ask; [apply Ha2|]|done|]. intros a w3 Ha3 _.
  case_match; by apply steps_ret; [apply Ha3|].
Qed.

(** The rows of a table that was read. *)
Definition read_all (rows : gmap string EvalRow) (h : list (DB Evals)) : Prop :=
  forall id row, rows !! id = Some row -> read (mkStored id (er_version row) (er_state row)) h.
Lemma read_all_mono : mono read_all.
Proof. intros rows l h Hr id row Hrow. by apply read_mono, Hr. Qed.

Lemma steps_evaluate_rule observer now rows acc rule w : settled w -> read_all rows (states w) ->
  safe (fun r h => forall b', r = Ok (Next b') -> any b' h) (evaluate_rule observer now rows acc rule) w.
Proof.
  intros Hs Hrows. destruct acc as [active failures]. unfold evaluate_rule. apply steps_stopped; [done|done|]. intros b w1 Ha1.
  destruct b; [by apply (steps_cancel (fun c => if c then _ else _) any); apply Ha1|].
  case_match; [by apply steps_ret; [apply Ha1|]|].
  eapply (steps_bind _ _ (fun _ _ => True)); [case_match; [apply steps_observe, Ha1|by apply steps_ret; [apply Ha1|]]|done|].
  intros o w2 Ha2 _. cbv zeta.
  assert (read_all rows (states w2)) as Hrows2 by
    (eapply (mono_after read_all); [apply read_all_mono|exact Ha2|eapply (mono_after read_all); [apply read_all_mono|exact Ha1|done]]).
  eapply steps_bind.
  - eapply (steps_each read (fun acc h => forall id x, acc.1 !! id = Some x -> read x h)); [apply read_mono| |apply Ha2| | |].
    + intros acc l h Hacc id x Hx. eapply read_mono, Hacc, Hx.
    + intros id x. simpl. by rewrite lookup_empty.
    + intros s (x & -> & Hx)%list_elem_of_fmap. apply list_elem_of_filter in Hx as [_ Hx]. destruct x as [id row].
      apply elem_of_map_to_list in Hx. by apply Hrows2.
    + intros acc s w' Hs' Hacc Hread. by apply steps_sort_out.
  - intros e h Hr. by intros b'.
  - intros [e|[previous failures1]] w3 Ha3 Hr; [by apply steps_ret; [apply Ha3|]|]. specialize (Hr _ eq_refl). simpl in Hr.
    eapply (steps_bind _ _ (fun r h => forall order, r = Ok order -> forall x, x ∈ order -> read x.2 h)); [|by intros|].
    + apply steps_ask; [apply Ha3|]. intros n order [= <-] [id x]. rewrite shuffle_perm. intros Hx%elem_of_map_to_list.
      by eapply complete_read.
    + intros order w4 Ha4 Hord. specialize (Hord _ eq_refl).
      eapply steps_bind; [|by intros e h _ b'|].
      * apply (steps_each (fun x : string * storedState => read x.2) any); [intros x; apply read_mono|apply any_mono|apply Ha4|done|done|].
        intros f x w' Hs' _ Hread. by apply steps_evaluate_one.
      * intros [e|f] w5 Ha5 _; by apply steps_ret; [apply Ha5|].
Qed.

Lemma steps_join failures w : settled w -> safe (fun _ _ => True) (join failures) w.
Proof. intros Hs. destruct failures; [by apply steps_ret|by apply steps_fail]. Qed.

Lemma steps_Tick observer rules now w : settled w -> safe (fun _ _ => True) (Tick observer rules now) w.
Proof.
  intros Hs. unfold Tick. eapply (steps_bind _ _ (fun _ _ => True)); [by apply steps_ask|done|]. intros b w1 Ha1 _.
  case_match; [by apply steps_ret; [apply Ha1|]|].
  eapply (steps_bind _ _ (fun r h => forall rows, r = Ok rows -> read_all rows h)); [|done|].
  { apply steps_query; [apply Ha1|by intros|]. intros d h Hd Hr rows [= <-] id row Hrow. right. simpl. split.
    - intros ->. by rewrite (reach_ids h Hr d Hd) in Hrow.
    - right. exists d, (er_rule row). split; [done|]. by destruct row. }
  intros rows w2 Ha2 Hrows. specialize (Hrows _ eq_refl).
  eapply steps_bind; [|done|].
  { apply (steps_each (fun _ => read_all rows) any); [intros _; apply read_all_mono|apply any_mono|apply Ha2|done|done|].
    intros acc rule w' Hs' _ Hread. by apply steps_evaluate_rule. }
  intros [e|[active failures]] w3 Ha3 _; [apply steps_join, Ha3|].
  eapply (steps_bind _ _ (fun r h => forall order, r = Ok order -> forall x, x ∈ order -> read (mkStored x.1 (er_version x.2) (er_state x.2)) h));
    [|done|].
  { apply steps_ask; [apply Ha3|]. intros n order [= <-] [id row]. rewrite shuffle_perm. intros Hx%elem_of_map_to_list.
    eapply (mono_after read_all); [apply read_all_mono|exact Ha3|done|done]. }
  intros order w4 Ha4 Hord. specialize (Hord _ eq_refl).
  eapply steps_bind; [|done|].
  { apply (steps_each (fun x : string * EvalRow => read (mkStored x.1 (er_version x.2) (er_state x.2))) any);
      [intros x; apply read_mono|apply any_mono|apply Ha4|done|done|]. intros f x w' Hs' _ Hread. by apply steps_retire_one. }
  intros [e|f] w5 Ha5 _; apply steps_join, Ha5.
Qed.

(** ** The properties *)

(** C29. What an alert rests on, whatever evaluators on whatever nodes raced,
    crashed or acted on rows they had read long before: the incident of an
    evaluator's check begins only after the rule's condition held in fresh
    samples, at least every ninety seconds, for the rule's duration, and ends
    only after the recovery condition was sustained in the same way for the
    recovery duration, or with the removal of the rule.  One exception is left
    to the beginning: an evaluator that read a row with an incident, which was
    deleted since and made again with as many versions as it had read, begins
    one at its next firing sample ([remade]); the version is all the store
    compares. *)
Theorem alert_decisions_sustained (d d' : DB Evals) (h : list (DB Evals)) (id : string) (row : CheckRow)
  (Hr : reach (d' :: d :: h)) (Hrow : checks d !! metrics_check id = Some row) (Hp : ck_producer row = "metrics") :
  incident d' (metrics_check id) = incident d (metrics_check id) \/
  (incident d (metrics_check id) = "" /\ exists l old rule o now,
     evaluates h d d' id old rule o now /\ genuine (d :: h) id l old /\ fired (d :: h) id l old rule o now) \/
  (incident d (metrics_check id) <> "" /\ incident d' (metrics_check id) = "" /\
     ((exists l old rule o now, evaluates h d d' id old rule o now /\ genuine (d :: h) id l old /\ recovered l rule o now) \/
      removes h d d' id)).
Proof. by eapply alert_decisions. Qed.

(** A pass of the evaluator among others, whose calls may fail before or
    after their commit and which may lose the leadership at any moment, only
    takes steps the monitoring store allows; afterwards every stored evaluation
    knows the incident of its check, has seen no sample its check has not, and
    follows from evaluations that were stored. *)
Theorem Tick_among_others (observer : string) (rules : list Rule) (now : Z) (w : W Evals) (Hs : settled w) :
  let '(r, w') := Tick observer rules now w in
  settled w' /\ states w `suffix_of` states w' /\ rows_ok (states w') (db w').
Proof.
  pose proof (steps_Tick observer rules now w Hs) as H. unfold safe, post in H. destruct (Tick observer rules now w) as [r w'].
  destruct H as [[Hs' Hsuf] _]. split_and!; [done|done|]. apply (reach_rows_ok _ (se_reach _ _ _ _ Hs')). left.
Qed.
End Among.

(** ** An evaluator alone: a disk fills at one minute and is emptied *)
Module Sample.
Definition id_of (n : nat) : string := String.string_of_list_ascii (repeat (Ascii.ascii_of_nat 120) (S n)).
#[export] Instance enc : Encoding := {|
  json_labels := fun l => match l with None => "null" | Some m => foldr (fun x s => x.1 +:+ "=" +:+ x.2 +:+ "," +:+ s) "" (map_to_list m) end;
  json_rule := fun c r f s n _ _ _ => c +:+ ";" +:+ r +:+ ";" +:+ f;
  json_evidence := fun _ e => e;
  sha256_hex := fun s => "sha256:" +:+ s |}.
#[export] Instance enc_laws : EncodingLaws.
Proof. by intros s. Defined.
#[export] Instance env : MonEnv Evals := {|
  io := fun _ => Fine; others := fun _ _ => []; newID := id_of; later := fun a b => (b <? a)%Z; has_broker := false |}.

Definition float_of (z : Z) : spec_float := binary_normalize 53 1024 z 0 false.
Definition disk : gmap string string := {[ "node_id" := "n1" ]}.
Definition full : Rule :=
  mkRule "r1" "Disk full" "free < 1" "free > 2" "timestamp(free)" "critical" "" "" "" 0 Minute (2 * Minute) true false.
#[export] Instance aenv : AlertEnv := {|
  leader := fun _ => true; cancelled := fun _ => false; shuffle := fun A _ l => l; int64_overflow := fun _ => 0%Z;
  metrics := fun _ q now _ =>
    if same q "timestamp(free)" then Some [mkSample disk (float_of (now / Second)) now]
    else if same q "free < 1" then Some (if (now <=? Minute)%Z then [mkSample disk (float_of 0) now] else [])
    else Some (if (now <=? Minute)%Z then [] else [mkSample disk (float_of 3) now]) |}.

#[export] Instance alone : Neighbours permitted own_step ∅.
Proof.
  split; [by intros n h|by intros n h d m ?%not_elem_of_nil| |done|intros l h t; apply permitted_grows].
  intros n m. simpl. unfold id_of. intros H%(f_equal String.list_ascii_of_string).
  rewrite !String.list_ascii_of_string_of_list_ascii in H. apply (f_equal List.length) in H. rewrite !List.repeat_length in H. lia.
Defined.

Definition start : W Evals := mkW (mkDB ∅ ∅ ∅ ∅ ∅) [] 0 [].
Lemma disk_settled : settled permitted own_step ∅ start.
Proof. split; [apply reach_start|]. by intros m d _ ->%list_elem_of_singleton. Qed.
Lemma order_kept : forall A n (l : list A), shuffle n l ≡ₚ l.
Proof. done. Qed.

Definition pass (seconds : Z) (w : W Evals) : W Evals := (Tick "n1" [full] (seconds * Second)%Z w).2.
Lemma pass_settled seconds w : settled permitted own_step ∅ w -> settled permitted own_step ∅ (pass seconds w).
Proof. intros Hs. apply (steps_Tick order_kept "n1" [full] (seconds * Second) w Hs). Qed.
Definition recovering : W Evals := pass 120 (pass 90 (pass 60 start)).
Definition resolved : W Evals := pass 150 recovering.
Definition instance : string := instanceID full (Some disk).

Lemma Tick_among_others_witness : let '(r, w') := Tick "n1" [full] (150 * Second) recovering in
  r = Ok tt /\ (settled permitted own_step ∅ w' /\ states recovering `suffix_of` states w' /\ rows_ok (states w') (db w')).
Proof.
  assert (settled permitted own_step ∅ recovering) as Hs by (do 3 apply pass_settled; apply disk_settled).
  pose proof (Tick_among_others order_kept "n1" [full] (150 * Second) recovering Hs) as H.
  assert ((Tick "n1" [full] (150 * Second) recovering).1 = Ok tt) as Hok by (vm_compute; reflexivity).
  destruct (Tick "n1" [full] (150 * Second) recovering) as [r w']. split; [exact Hok|exact H].
Defined.

Lemma alert_decisions_sustained_witness : exists d' d h row, states resolved = d' :: d :: h /\
  incident d (metrics_check instance) <> "" /\ incident d' (metrics_check instance) = "" /\
  checks d !! metrics_check instance = Some row /\ ck_producer row = "metrics" /\
  (incident d' (metrics_check instance) = incident d (metrics_check instance) \/
   (incident d (metrics_check instance) = "" /\ exists l old rule o now,
     evaluates h d d' instance old rule o now /\ genuine (d :: h) instance l old /\ fired (d :: h) instance l old rule o now) \/
   (incident d (metrics_check instance) <> "" /\ incident d' (metrics_check instance) = "" /\
     ((exists l old rule o now, evaluates h d d' instance old rule o now /\ genuine (d :: h) instance l old /\ recovered l rule o now) \/
      removes h d d' instance))).
Proof.
  assert (settled permitted own_step ∅ resolved) as Hs by (do 4 apply pass_settled; apply disk_settled).
  pose proof (se_reach _ _ _ _ Hs) as Hr.
  remember (states resolved) as l eqn:El. assert (exists d' d h, l = d' :: d :: h) as (d' & d & h & ->).
  { assert (List.length l = 13%nat) as Hlen by (rewrite El; vm_compute; reflexivity). destruct l as [|d' [|d h]]; [done..|eauto]. }
  assert (d = default d' (states resolved !! 1%nat)) as Hd by (by rewrite <- El).
  assert (d' = default d' (states resolved !! 0%nat)) as Hd' by (by rewrite <- El).
  assert (exists row, checks d !! metrics_check instance = Some row /\ "metrics" = ck_producer row) as (row & Hrow & Hp).
  { apply fmap_Some_1. rewrite Hd. vm_compute. reflexivity. }
  symmetry in Hp.
  exists d', d, h, row. split; [done|]. split; [rewrite Hd; by vm_compute|]. split; [rewrite Hd'; by vm_compute|].
  split; [done|]. split; [done|]. exact (alert_decisions_sustained d d' h instance row Hr Hrow Hp).
Defined.
End Sample.
