(* ===== verification/CrashLogic.v ===== *)
(** Programs that run commands of an external tool on a shared medium, and a
    logic for what holds whenever they are interrupted.

    [Spec] says what the manual promises of each command, [Tool] is a concrete
    tool, [ToolLaws] that it keeps the promises: a command has its effect or
    none whatever it reports, and has had it when it reports success.  Every
    state of the medium is recorded, latest first, so that a crash is any
    recorded state.  A [triple] says that a program keeps [I] at every moment,
    ends where [Q] holds, and fails only if [E]. *)
From S2P Require Import Prelude.

Open Scope list_scope.

Class Spec (C O V : Type) := {
  mutating : C -> bool;
  effect : C -> V -> V -> Prop;
  answers : C -> V -> O -> Prop;
  ready : C -> V -> Prop }.

Class Tool (C O V P : Type) := {
  view : P -> V;
  execute : C -> P -> result string O * P }.

Class ToolLaws (C O V P : Type) `{Spec C O V, Tool C O V P} := {
  t_effect c p : view (execute c p).2 = view p \/ (mutating c = true /\ effect c (view p) (view (execute c p).2));
  t_done c p out : (execute c p).1 = Ok out -> mutating c = true -> effect c (view p) (view (execute c p).2);
  t_answer c p out : (execute c p).1 = Ok out -> answers c (view p) out }.

(** A tool whose commands succeed when they can. *)
Class Cooperative (C O V P : Type) `{Spec C O V, Tool C O V P} : Prop :=
  co_ready c p : ready c (view p) -> is_ok (execute c p).1 = true.

Record World (P : Type) := mkWorld { medium : P; past : list P }.
Arguments mkWorld {P} medium past.
Arguments medium {P} w.
Arguments past {P} w.

Definition run {C O V P} `{Tool C O V P} (c : C) : prog string (World P) O := fun w =>
  let '(r, p) := execute c (medium w) in (r, mkWorld p (p :: past w)).
Definition run_ {C O V P} `{Tool C O V P} (c : C) : prog string (World P) unit := run c;; ret tt.

Section Logic.
Context {C O V P : Type} `{ToolLaws C O V P} (I : V -> Prop) (E : Prop).

Definition triple {A} (Pre : V -> Prop) (m : prog string (World P) A) (Q : A -> V -> Prop) : Prop :=
  forall w, Pre (view (medium w)) -> Forall (fun p => I (view p)) (past w) ->
    Forall (fun p => I (view p)) (past (m w).2) /\
    match (m w).1 with
    | Ok a => Q a (view (medium (m w).2))
    | Err _ => I (view (medium (m w).2)) /\ E
    end.

Lemma triple_ret {A} (a : A) (Pre : V -> Prop) Q : (forall v, Pre v -> Q a v) -> triple Pre (ret a) Q.
Proof. intros Hq w Hp Hf. split; [done|by apply Hq]. Qed.

Lemma triple_bind {A B} (m : prog string (World P) A) (k : A -> prog string (World P) B) Pre R Q :
  triple Pre m R -> (forall a, triple (R a) (k a) Q) -> triple Pre (m ≫= k) Q.
Proof.
  intros Hm Hk w Hp Hf. rewrite bind_run. destruct (Hm w Hp Hf) as [Hf' Hr].
  destruct (m w) as [[a|e] w']; cbn in *; [by apply Hk|done].
Qed.

Lemma triple_pre {A} (m : prog string (World P) A) (Pre Pre' : V -> Prop) Q :
  (forall v, Pre' v -> Pre v) -> triple Pre m Q -> triple Pre' m Q.
Proof. intros Hi Hm w Hp Hf. by apply Hm; auto. Qed.
Lemma triple_post {A} (m : prog string (World P) A) (Pre : V -> Prop) (Q Q' : A -> V -> Prop) :
  (forall a v, Q a v -> Q' a v) -> triple Pre m Q -> triple Pre m Q'.
Proof. intros Hi Hm w Hp Hf. destruct (Hm w Hp Hf) as [Hf' Hr]. split; [done|]. destruct (m w).1; auto. Qed.

Lemma triple_fail {A} e (Pre : V -> Prop) (Q : A -> V -> Prop) : (forall v, Pre v -> I v /\ E) -> triple Pre (fail e) Q.
Proof. intros Hp w Hw' Hf. split; [done|by apply Hp]. Qed.

(** What is known of the state at hand can be used to choose the rest. *)
Lemma triple_case {A} (m : prog string (World P) A) (Pre : V -> Prop) Q :
  (forall v, Pre v -> triple (fun v' => v' = v) m Q) -> triple Pre m Q.
Proof. intros Hm w Hp Hf. by eapply Hm. Qed.
Lemma triple_pure {A} (m : prog string (World P) A) (F : Prop) (Pre : V -> Prop) Q :
  (F -> triple Pre m Q) -> triple (fun v => Pre v /\ F) m Q.
Proof. intros Hm w [Hp HF] Hf. by apply Hm. Qed.
Lemma triple_assoc {A B D} (m : prog string (World P) A) (f : A -> prog string (World P) B) (k : B -> prog string (World P) D) Pre Q :
  triple Pre (a ← m; f a ≫= k) Q -> triple Pre ((m ≫= f) ≫= k) Q.
Proof.
  intros Hm w Hp Hf. specialize (Hm w Hp Hf). revert Hm. rewrite !bind_run. by destruct (m w) as [[a|e] w'].
Qed.
Lemma triple_assoc_rev {A B D} (m : prog string (World P) A) (f : A -> prog string (World P) B) (k : B -> prog string (World P) D) Pre Q :
  triple Pre ((m ≫= f) ≫= k) Q -> triple Pre (a ← m; f a ≫= k) Q.
Proof.
  intros Hm w Hp Hf. specialize (Hm w Hp Hf). revert Hm. rewrite !bind_run. by destruct (m w) as [[a|e] w'].
Qed.

Context (HE : ~ Cooperative C O V P -> E).

(** A query: the view stays, the answer is true of it; it succeeds when it can,
    or its failure is allowed. *)
Lemma triple_ask c (Pre : V -> Prop) : mutating c = false -> (forall v, Pre v -> I v /\ (E \/ ready c v)) ->
  triple Pre (run c) (fun out v => Pre v /\ answers c v out).
Proof.
  intros Hm Hi w Hp Hf. destruct (Hi _ Hp) as [HI Hr]. unfold run.
  pose proof (t_effect c (medium w)) as Hv. pose proof (t_answer c (medium w)) as Ha.
  assert (Hc : Cooperative C O V P -> ready c (view (medium w)) -> is_ok (execute c (medium w)).1 = true) by (intros HC ?; by apply co_ready).
  destruct (execute c (medium w)) as [r p]. cbn in *.
  assert (Hvv : view p = view (medium w)) by (destruct Hv as [|[? _]]; congruence). rewrite Hvv.
  split; [constructor; [by rewrite Hvv|done]|]. destruct r as [out|e]; [auto|].
  split; [done|]. destruct Hr as [?|Hr]; [done|]. apply HE. intros HC. by specialize (Hc HC Hr).
Qed.
Lemma triple_query c (Pre : V -> Prop) : mutating c = false -> (forall v, Pre v -> I v /\ ready c v) ->
  triple Pre (run c) (fun out v => Pre v /\ answers c v out).
Proof. intros Hm Hi. apply triple_ask; [done|]. intros v Hp. destruct (Hi v Hp). by split; [|right]. Qed.

(** A query whose failure is a value: it fails when it must. *)
Lemma triple_try c (Pre : V -> Prop) : mutating c = false -> (forall v, Pre v -> I v) ->
  triple Pre (attempt (run c)) (fun r v => Pre v /\
    match r with Ok out => answers c v out | Err _ => Cooperative C O V P -> ~ ready c v end).
Proof.
  intros Hm Hi w Hp Hf. unfold attempt, run.
  pose proof (t_effect c (medium w)) as Hv. pose proof (t_answer c (medium w)) as Ha.
  assert (Hc : Cooperative C O V P -> ready c (view (medium w)) -> is_ok (execute c (medium w)).1 = true)
    by (intros HC ?; by apply co_ready).
  destruct (execute c (medium w)) as [r p]. cbn in *.
  assert (Hvv : view p = view (medium w)) by (destruct Hv as [|[? _]]; congruence). rewrite Hvv.
  split; [constructor; [rewrite Hvv; auto|done]|]. split; [done|]. destruct r as [out|e]; [auto|].
  intros HC Hr. by specialize (Hc HC Hr).
Qed.

(** A command that keeps the invariant when it takes effect; it can, or its
    failure is allowed. *)
Lemma triple_do c (Pre Q : V -> Prop) : mutating c = true ->
  (forall v, Pre v -> I v /\ (E \/ (Cooperative C O V P -> ready c v))) ->
  (forall v v', Pre v -> effect c v v' -> I v' /\ Q v') ->
  triple Pre (run_ c) (fun _ v => Q v).
Proof.
  intros Hm Hi Hstep w Hp Hf. destruct (Hi _ Hp) as [HI Hr]. unfold run_, run. rewrite bind_run.
  pose proof (t_effect c (medium w)) as He. pose proof (t_done c (medium w)) as Hd.
  assert (Hc : Cooperative C O V P -> ready c (view (medium w)) -> is_ok (execute c (medium w)).1 = true) by (intros HC ?; by apply co_ready).
  destruct (execute c (medium w)) as [r p]. cbn in *.
  assert (HI' : I (view p)).
  { destruct He as [->|[_ He]]; [done|]. by apply (Hstep _ _ Hp He). }
  destruct r as [out|e]; cbn.
  - split; [by constructor|]. by apply (Hstep _ _ Hp (Hd _ eq_refl Hm)).
  - split; [by constructor|]. split; [done|]. destruct Hr as [?|Hr]; [done|]. apply HE. intros HC. by specialize (Hc HC (Hr HC)).
Qed.
Lemma triple_run c (Pre Q : V -> Prop) : mutating c = true ->
  (forall v, Pre v -> I v /\ (Cooperative C O V P -> ready c v)) ->
  (forall v v', Pre v -> effect c v v' -> I v' /\ Q v') ->
  triple Pre (run_ c) (fun _ v => Q v).
Proof. intros Hm Hi. apply triple_do; [done|]. intros v Hp. destruct (Hi v Hp). by split; [|right]. Qed.
End Logic.

Section Runs.
Context {C O V P : Type} `{ToolLaws C O V P}.

(** [p'] is a state of the medium that [m] passes through when it starts in [p]. *)
Definition during {A} (m : prog string (World P) A) (p p' : P) : Prop :=
  p' = p \/ p' ∈ past (m (mkWorld p [])).2.

(** Any number of interrupted runs, each started where the last one stopped. *)
Definition interrupted {A} (m : prog string (World P) A) : P -> P -> Prop := star (during m).

Lemma triple_during {A} I E Pre (m : prog string (World P) A) Q p p' :
  triple I E Pre m Q -> (forall v, Pre v -> I v) -> Pre (view p) -> during m p p' -> I (view p').
Proof.
  intros Hm Hi Hp [->|Hin]; [auto|]. destruct (Hm (mkWorld p []) Hp ltac:(constructor)) as [Hf _].
  rewrite Forall_forall in Hf. by apply Hf.
Qed.

Lemma interrupted_invariant {A} I E (m : prog string (World P) A) Q p p' :
  triple I E I m Q -> I (view p) -> interrupted m p p' -> I (view p').
Proof.
  intros Hm Hp. apply (star_invariant _ (fun p => I (view p))); [done|].
  intros s s' Hs Hd. by eapply (triple_during I E I m Q s s').
Qed.
End Runs.
