(* ===== verification/HostDatasets.v ===== *)
(** The dataset requests of the host daemon:
    [src/internal/hostd/dispatcher.go], the [fs.dataset.*] handlers, over the
    [zfs] tool, and the interface they offer to the control service. *)
From S2P Require Import Prelude Timestamp Release Netip GoStrings CrashLogic.
From Stdlib Require Import Ascii.

Open Scope string_scope.

(** ** The interface *)

(** What a node's daemon does for the control service; each call names the
    node first.  A program of the client threads a world [S]. *)
Class DatasetHost (S : Type) := {
  dataset_list : string -> string -> prog string S (list string);
  dataset_clone : string -> string -> string -> prog string S unit;
  dataset_rename : string -> string -> string -> prog string S unit;
  dataset_mountpoint : string -> string -> string -> prog string S unit;
  dataset_promote : string -> string -> prog string S unit;
  dataset_destroy : string -> string -> prog string S unit }.

(** ** The pool *)

(** [mount] is the mountpoint set on the dataset itself, if any; [origin] the
    dataset whose snapshot this one was cloned from. *)
Record Dataset := mkDataset {
  guid : N; data : string; snaps : gmap string string; origin : option N; mount : option string }.
Abbreviation View := (gmap string Dataset).

Inductive zcmd :=
| ZList (parent : string)
| ZExists (ds : string)
| ZGet (key ds : string)
| ZMount (ds : string)
| ZCreate (set : list (string * string)) (ds : string)
| ZSet (key value ds : string)
| ZClone (snapshot ds : string)
| ZRename (recursive : bool) (a b : string)
| ZPromote (ds : string)
| ZDestroy (recursive : bool) (ds : string)
| Request
| Reply.

(** What a command prints: text, or lines of fields. *)
Inductive zout := Text (s : string) | Table (rows : list (list string)).
Definition text (o : zout) : string := match o with Text s => s | Table _ => "" end.

(** Names below [a], and the names of [a]'s tree. *)
Definition below (a n : string) : bool := HasPrefix n (a +:+ "/").
Definition under (a n : string) : bool := bool_decide (n = a) || below a n.
(** What follows the root of a tree in the names of the tree. *)
Definition rooted (s : string) : Prop := s = "" \/ exists t, s = "/" +:+ t.

Definition set_mount (m : string) (d : Dataset) : Dataset := mkDataset (guid d) (data d) (snaps d) (origin d) (Some m).

(** The dataset has a parent in the pool. *)
Definition homed (v : View) (n : string) : Prop :=
  exists p l, n = p +:+ "/" +:+ l /\ "/"%char ∉ chars l /\ is_Some (v !! p).
Definition fresh_guid (v : View) (g : N) : Prop := forall n d, v !! n = Some d -> guid d <> g.

(** What a command does when it takes effect.  A clone starts with the
    snapshot's data and no mountpoint of its own; renaming moves a whole tree;
    promoting [n] makes it independent of the dataset it was cloned from, which
    now is a clone of [n], and moves snapshots between the two; destroying
    needs that no clone is left behind. *)
Inductive zeffect : zcmd -> View -> View -> Prop :=
| ze_create set ds g m v :
    v !! ds = None -> homed v ds -> fresh_guid v g ->
    zeffect (ZCreate set ds) v (<[ds := mkDataset g "" ∅ None m]> v)
| ze_mountpoint m ds d v : v !! ds = Some d -> zeffect (ZSet "mountpoint" m ds) v (<[ds := set_mount m d]> v)
| ze_set key value ds v : key <> "mountpoint" -> is_Some (v !! ds) -> zeffect (ZSet key value ds) v v
| ze_clone src snap ds d x g v :
    v !! ds = None -> homed v ds -> v !! src = Some d -> snaps d !! snap = Some x -> "@"%char ∉ chars snap ->
    fresh_guid v g ->
    zeffect (ZClone (src +:+ "@" +:+ snap) ds) v (<[ds := mkDataset g x ∅ (Some (guid d)) None]> v)
| ze_rename r a b v v' :
    is_Some (v !! a) -> v !! b = None -> homed v b -> below a b = false -> below b a = false ->
    (forall s, rooted s -> v' !! (b +:+ s) = v !! (a +:+ s) /\ v' !! (a +:+ s) = None) ->
    (forall n, under a n = false -> under b n = false -> v' !! n = v !! n) ->
    zeffect (ZRename r a b) v v'
| ze_promote n d m o v v' :
    v !! n = Some d -> v !! m = Some o -> n <> m -> origin d = Some (guid o) ->
    (forall k, match v !! k, v' !! k with
      | Some e, Some e' => guid e' = guid e /\ data e' = data e /\ mount e' = mount e /\
          (k <> n -> k <> m -> snaps e' = snaps e /\
             (origin e' = origin e \/ (origin e = Some (guid o) /\ origin e' = Some (guid d))))
      | None, None => True
      | _, _ => False
      end) ->
    (forall d', v' !! n = Some d' -> origin d' = origin o) ->
    (forall o', v' !! m = Some o' -> origin o' = Some (guid d)) ->
    zeffect (ZPromote n) v v'
| ze_destroy r ds v v' :
    is_Some (v !! ds) -> (r = false -> forall n, below ds n = true -> v !! n = None) ->
    (forall n d k o, v !! n = Some d -> under ds n = true -> v !! k = Some o -> origin o = Some (guid d) -> under ds k = true) ->
    (forall n, v' !! n = if under ds n then None else v !! n) ->
    zeffect (ZDestroy r ds) v v'.

(** [DatasetList] of [src/pkg/store/zfs.go]: the names in what [zfs list]
    prints, one dataset a line; lines with too few fields are skipped. *)
Definition listed (out : zout) : list string :=
  match out with
  | Table rows => omap (fun fields => match fields with n :: _ :: _ :: _ :: _ :: _ :: _ => Some n | _ => None end) rows
  | Text _ => []
  end.

Definition zanswers (c : zcmd) (v : View) (out : zout) : Prop :=
  match c with
  | ZExists ds => is_Some (v !! ds)
  | ZGet key ds => exists d, v !! ds = Some d /\
      (key = "origin" -> TrimSpace (text out) = "-" <-> origin d = None) /\
      (key = "mountpoint" -> forall m, mount d = Some m -> TrimSpace (text out) = TrimSpace m)
  | ZList parent =>
      (forall n, n ∈ listed out <-> is_Some (v !! n) /\ under parent n = true) /\
      (forall l1 n l2, listed out = (l1 ++ n :: l2)%list -> Forall (fun k => under n k = false) l1)
  | _ => True
  end.

(** When the manual says that a command works.  A mountpoint can be moved once
    every dataset below has been released. *)
Definition zready (c : zcmd) (v : View) : Prop :=
  match c with
  | ZExists ds | ZGet _ ds | ZMount ds => is_Some (v !! ds)
  | ZList parent => is_Some (v !! parent)
  | ZSet key _ ds =>
      is_Some (v !! ds) /\ (key = "mountpoint" -> forall n d, v !! n = Some d -> below ds n = true -> mount d = Some "none")
  | ZPromote n => exists d m o, v !! n = Some d /\ v !! m = Some o /\ n <> m /\
      origin d = Some (guid o) /\ dom (snaps d) ## dom (snaps o)
  | ZClone snapshot ds => v !! ds = None /\ homed v ds /\
      exists src snap d, snapshot = src +:+ "@" +:+ snap /\ "@"%char ∉ chars snap /\ v !! src = Some d /\ is_Some (snaps d !! snap)
  | ZRename _ a b => is_Some (v !! a) /\ v !! b = None /\ homed v b /\ below a b = false /\ below b a = false
  | ZCreate _ ds => v !! ds = None /\ homed v ds
  | ZDestroy r ds => is_Some (v !! ds) /\ (r = false -> forall n, below ds n = true -> v !! n = None) /\
      forall n d k o, v !! n = Some d -> under ds n = true -> v !! k = Some o -> origin o = Some (guid d) -> under ds k = true
  | Request | Reply => True
  end.

#[export] Instance zfs_spec : Spec zcmd zout View := {|
  mutating c := match c with
    | ZCreate _ _ | ZSet _ _ _ | ZClone _ _ | ZRename _ _ _ | ZPromote _ | ZDestroy _ _ => true | _ => false end;
  effect := zeffect;
  answers := zanswers;
  ready := zready |}.

(** ** Names a request may carry *)

(** [datasetPart]: [^[A-Za-z0-9][A-Za-z0-9_.:-]*$] *)
Definition alphanumeric (c : ascii) : bool :=
  in_range_ascii "A" "Z" c || in_range_ascii "a" "z" c || in_range_ascii "0" "9" c.
Definition datasetPart (l : list ascii) : bool :=
  match l with
  | [] => false
  | c :: l => alphanumeric c && forallb (fun c => alphanumeric c || existsb (Ascii.eqb c) (chars "_.:-")) l
  end.
Definition validDataset (value : string) : bool :=
  negb (bool_decide (value = "")) && forallb datasetPart (split_on "/" (chars value)).
Definition validSnapshot (value : string) : bool :=
  match split_on "@" (chars value) with
  | [a; b] => validDataset (str a) && datasetPart b
  | _ => false
  end.

(** [zfsRecordSize] of the upper-cased, [zfsCompression] of the lower-cased value. *)
Definition recordSize (s : string) : bool :=
  let upper := map (fun c => if in_range_ascii "a" "z" c then ascii_of_N (N_of_ascii c - 32) else c) (chars s) in
  existsb (fun k => bool_decide (upper = k)) (map chars ["4K"; "8K"; "16K"; "32K"; "64K"; "128K"; "256K"; "512K"; "1M"]).
Definition compression_name (s : string) : bool :=
  existsb (fun k => bool_decide (ToLower s = k)) ["none"; "lz4"; "gzip"; "zstd"].
(** [zfsSize]: [^[1-9][0-9]*([KMGTPE]i?B?|[kmgtpe])?$] *)
Fixpoint after_digits (l : list ascii) : list ascii :=
  match l with
  | c :: l' => if in_range_ascii "0" "9" c then after_digits l' else l
  | [] => []
  end.
Definition size_unit (l : list ascii) : bool :=
  match l with
  | [] => true
  | c :: l =>
      existsb (Ascii.eqb c) (chars "KMGTPE") && existsb (fun u => bool_decide (l = u)) (map chars [""; "i"; "B"; "iB"]) ||
      existsb (Ascii.eqb c) (chars "kmgtpe") && bool_decide (l = [])
  end.
Definition zfsSize (s : string) : bool :=
  match chars s with
  | c :: l => in_range_ascii "1" "9" c && size_unit (after_digits l)
  | [] => false
  end.

(** ** The handlers *)

Record DatasetCreatePayload := mkCreate { cr_Dataset : string; BlockSize : string; Compression : string; Quota : string }.

Section Dispatcher.
Context {P : Type} `{Tool zcmd zout View P}.
Abbreviation cmd := (prog string (World P)).

Definition exists_ (ds : string) : cmd bool :=
  r ← attempt (run (ZExists ds)); ret (is_ok r).
Definition check (b : bool) (e : string) : cmd unit := if b then ret tt else fail e.

Definition datasetCreate (p : DatasetCreatePayload) : cmd unit :=
  let ds := cr_Dataset p in
  check (validDataset ds) "invalid dataset";;
  check (negb (negb (bool_decide (BlockSize p = "")) && negb (recordSize (BlockSize p)) ||
              negb (bool_decide (Compression p = "")) && negb (compression_name (Compression p)) ||
              negb (bool_decide (Quota p = "")) && negb (bool_decide (Quota p = "none")) && negb (zfsSize (Quota p))))
    "invalid ZFS properties";;
  has ← exists_ ds;
  if (has : bool) then
    mountpoint ← run (ZGet "mountpoint" ds);
    (if decide (TrimSpace (text mountpoint) = "/" +:+ ds) then ret tt else run_ (ZSet "mountpoint" ("/" +:+ ds) ds));;
    mounted ← run (ZGet "mounted" ds);
    if decide (TrimSpace (text mounted) = "yes") then ret tt else run_ (ZMount ds)
  else
    run_ (ZCreate ([("mountpoint", "/" +:+ ds)] ++
      (if decide (BlockSize p = "") then [] else [("recordsize", BlockSize p)]) ++
      (if decide (Compression p = "") then [] else [("compression", Compression p)]) ++
      (if decide (Quota p = "") then [] else [("quota", Quota p)]))%list ds).

Definition datasetDestroy (ds : string) (recursive : bool) : cmd unit :=
  check (validDataset ds) "invalid dataset";;
  has ← exists_ ds;
  if (has : bool) then run_ (ZDestroy recursive ds) else ret tt.

Definition settable (key value : string) : bool :=
  existsb (fun k => bool_decide (key = k)) ["recordsize"; "compression"; "quota"; "mountpoint"; "readonly"] &&
  negb (bool_decide (value = "")) &&
  negb (existsb (fun c => existsb (Ascii.eqb c) [ascii_of_N 0; ascii_of_N 10; ascii_of_N 13]) (chars value)).
(** The properties in the order in which the map yields them. *)
Fixpoint set_each (ds : string) (properties : list (string * string)) : cmd unit :=
  match properties with
  | [] => ret tt
  | (key, value) :: properties =>
      check (settable key value) "invalid ZFS property";;
      run_ (ZSet key value ds);;
      set_each ds properties
  end.
Definition datasetSet (ds : string) (properties : list (string * string)) : cmd unit :=
  check (validDataset ds) "invalid dataset";;
  set_each ds properties.

Definition datasetClone (snapshot target : string) : cmd unit :=
  check (validSnapshot snapshot && validDataset target) "invalid clone target";;
  has ← exists_ target;
  if (has : bool) then ret tt else run_ (ZClone snapshot target).

Definition datasetRename (source target : string) (recursive : bool) : cmd unit :=
  check (validDataset source && validDataset target) "invalid rename target";;
  has ← exists_ source;
  done ← (if (has : bool) then ret false else exists_ target);
  if (done : bool) then ret tt else run_ (ZRename recursive source target).

Definition datasetPromote (ds : string) : cmd unit :=
  check (validDataset ds) "invalid dataset";;
  out ← attempt (run (ZGet "origin" ds));
  match out with
  | Ok out => if decide (TrimSpace (text out) = "-") then ret tt else run_ (ZPromote ds)
  | Err _ => run_ (ZPromote ds)
  end.

Definition datasetList (parent : string) : cmd (list string) :=
  out ← run (ZList parent); ret (listed out).

(** A request reaches the daemon, is handled, and its reply reaches the
    caller: each part may fail. *)
Definition Execute {A} (handler : cmd A) : cmd A :=
  run Request;;
  a ← handler;
  run Reply;;
  ret a.

#[export] Instance daemon : DatasetHost (World P) := {|
  dataset_list _ parent := Execute (datasetList parent);
  dataset_clone _ snapshot target := Execute (datasetClone snapshot target);
  dataset_rename _ source target := Execute (datasetRename source target false);
  dataset_mountpoint _ ds value := Execute (datasetSet ds [("mountpoint", value)]);
  dataset_promote _ ds := Execute (datasetPromote ds);
  dataset_destroy _ ds := Execute (datasetDestroy ds true) |}.
End Dispatcher.
