(* ===== verification/DatasetSwap.v ===== *)
(** Restoring a stack's datasets from a snapshot: [restoreDatasets],
    [restoreMountpoints] and [promoteTree] of
    [src/internal/worker/queue.go], against any node's daemon.  The trees are
    swapped by renaming: the root becomes the recovery tree, clones of the
    snapshot, prepared beside it, become the root. *)
From S2P Require Import Prelude Timestamp Release Netip GoStrings CrashLogic HostDatasets.
From Stdlib Require Import Ascii.

Open Scope string_scope.

(** ** Names *)

(** What precedes the last slash. *)
Fixpoint before_last (l : list ascii) : option (list ascii) :=
  match l with
  | [] => None
  | c :: l =>
      match before_last l with
      | Some p => Some (c :: p)
      | None => if Ascii.eqb c "/" then Some [] else None
      end
  end.
Definition parent_of (root : string) : string :=
  match before_last (chars root) with
  | Some (c :: p) => str (c :: p)
  | _ => root
  end.

(** What starts with the first slash. *)
Fixpoint from_slash (l : list ascii) : option (list ascii) :=
  match l with
  | [] => None
  | c :: l' => if Ascii.eqb c "/" then Some l else from_slash l'
  end.

Definition slashes (n : string) : nat := List.length (filter (fun c => c = "/"%char) (chars n)).

(** Fewer slashes first, then by name. *)
Definition less (a b : string) : bool :=
  if decide (slashes a = slashes b) then bytes_ltb (chars a) (chars b) else (slashes a <? slashes b)%nat.
Definition name_le (a b : string) : Prop := less b a = false.
#[export] Instance name_le_dec : RelDecision name_le.
Proof. intros a b. unfold name_le. apply _. Defined.

Definition temporary (root operationID : string) : string := root +:+ "-restore-" +:+ operationID.
Definition recovery (root operationID : string) : string := root +:+ "-recovery-" +:+ operationID.

Section Each.
Context {S : Type}.
Fixpoint each {A} (f : A -> prog string S unit) (l : list A) : prog string S unit :=
  match l with
  | [] => ret tt
  | x :: l => f x;; each f l
  end.
End Each.

(** The names that the datasets of [source]'s tree have in [target]'s. *)
Definition moved_names (source target : string) (datasets : list string) : list string :=
  omap (fun n => if negb (under source n) then None else Some (target +:+ TrimPrefix n source)) datasets.

(** The name to promote, for a dataset listed under the root or under a
    temporary tree of it. *)
Definition promoted_name (root n : string) : string :=
  let prefix := root +:+ "-restore-" in
  if negb (bool_decide (n = root)) && HasPrefix n prefix then
    match from_slash (drop (List.length (chars prefix)) (chars n)) with
    | Some s => root +:+ str s
    | None => root
    end
  else n.

Section Swap.
Context {S : Type} `{DatasetHost S}.
Abbreviation cmd := (prog string S).

(** Children are released before their parent can move, and mounted after it. *)
Definition restoreMountpoints (node source target : string) (datasets : list string) : cmd unit :=
  let names := merge_sort name_le (moved_names source target datasets) in
  each (fun name => dataset_mountpoint node name "none") (rev names);;
  each (fun name => dataset_mountpoint node name ("/" +:+ name)) names.

Definition promoteTree (node root : string) (datasets : list string) : cmd unit :=
  each (fun n =>
    let name := promoted_name root n in
    if negb (under root name) then ret tt else dataset_promote node name) datasets.

Definition restoreDatasets (node root snapshot operationID : string) : cmd unit :=
  let temporary := temporary root operationID in
  let recovery := recovery root operationID in
  datasets ← dataset_list node (parent_of root);
  let current := filter (fun n => under root n = true) datasets in
  let hasRoot := negb (bool_decide (current = [])) in
  let hasTemporary := existsb (fun n => negb (under root n) && under temporary n) datasets in
  let hasRecovery := existsb (fun n => negb (under root n) && negb (under temporary n) && under recovery n) datasets in
  if hasRoot && hasRecovery then
    restoreMountpoints node recovery recovery datasets;;
    restoreMountpoints node root root datasets;;
    promoteTree node root datasets
  else if negb hasRoot && hasRecovery && hasTemporary then
    restoreMountpoints node recovery recovery datasets;;
    dataset_rename node temporary root;;
    restoreMountpoints node temporary root datasets;;
    promoteTree node root datasets
  else if negb hasRoot then fail "restore: source dataset is missing"
  else
    each (fun n => dataset_clone node (n +:+ "@" +:+ snapshot) (temporary +:+ TrimPrefix n root)) current;;
    dataset_rename node root recovery;;
    restoreMountpoints node root recovery current;;
    dataset_rename node temporary root;;
    restoreMountpoints node root root current;;
    promoteTree node root current.
End Swap.
