(* ===== verification/DatasetNames.v ===== *)
(** Names of datasets as the swap of [DatasetSwap.v] uses them: trees and their
    prefixes, valid names, and the order in which mountpoints are released and
    set. *)
From S2P Require Import Prelude Timestamp Release Netip GoStrings CrashLogic HostDatasets DatasetSwap.
From Stdlib Require Import Ascii.

Open Scope string_scope.

(** ** Prefixes *)

Lemma prefix_split l p : has_prefix l p = true <-> exists r, l = (p ++ r)%list.
Proof.
  revert l. induction p as [|c p IH]; intros l; [split; [by exists l|by destruct l]|].
  destruct l as [|d l]; cbn; [split; [done|by intros [r ?]]|]. rewrite andb_true_iff, IH, Ascii.eqb_eq.
  split; [intros [-> [r ->]]; by exists r|intros [r [= -> ->]]; eauto].
Qed.
Lemma HasPrefix_split n p : HasPrefix n p = true <-> exists r, n = p +:+ r.
Proof.
  unfold HasPrefix. rewrite prefix_split. split; intros [r Hr].
  - exists (str r). apply chars_inj. rewrite chars_app. rewrite Hr. unfold chars. by rewrite String.list_ascii_of_string_of_list_ascii.
  - exists (chars r). by rewrite Hr, chars_app.
Qed.

Lemma append_assoc a b c : (a +:+ b) +:+ c = a +:+ (b +:+ c).
Proof. apply chars_inj. by rewrite !chars_app, app_assoc. Qed.
Lemma append_nil a : a +:+ "" = a.
Proof. apply chars_inj. rewrite chars_app. apply app_nil_r. Qed.
Lemma append_inj a b c : a +:+ b = a +:+ c -> b = c.
Proof. intros E%(f_equal chars). rewrite !chars_app in E. by apply app_inv_head, chars_inj in E. Qed.

Lemma str_chars s : str (chars s) = s.
Proof. apply String.string_of_list_ascii_of_string. Qed.
Lemma chars_str l : chars (str l) = l.
Proof. apply String.list_ascii_of_string_of_list_ascii. Qed.
Lemma under_spec a n : under a n = true <-> exists s, rooted s /\ n = a +:+ s.
Proof.
  unfold under, below. rewrite orb_true_iff, bool_decide_eq_true, HasPrefix_split. split.
  - intros [->|[r ->]]; [exists ""; split; [by left|by rewrite append_nil]|].
    exists ("/" +:+ r). split; [right; by exists r|by rewrite append_assoc].
  - intros (s & [->|[t ->]] & ->); [left; apply append_nil|right; exists t; by rewrite append_assoc].
Qed.
Lemma under_self a s : rooted s -> under a (a +:+ s) = true.
Proof. intros Hs. apply under_spec. by exists s. Qed.
Lemma TrimPrefix_app a s : TrimPrefix (a +:+ s) a = s.
Proof.
  unfold TrimPrefix. rewrite chars_app. assert (has_prefix (chars a ++ chars s) (chars a) = true) as -> by (apply prefix_split; eauto).
  rewrite drop_app_length. apply String.string_of_list_ascii_of_string.
Qed.

(** Roots that continue each other with something other than a slash share no names. *)
Lemma under_apart a t s : (exists c l, chars t = c :: l /\ c <> "/"%char) -> under a ((a +:+ t) +:+ s) = false.
Proof.
  intros (c & l & Ht & Hc). apply not_true_is_false. rewrite under_spec. intros (s' & [->|[u ->]] & E).
  - rewrite append_assoc in E. apply append_inj, (f_equal chars) in E. rewrite chars_app, Ht in E. done.
  - rewrite append_assoc in E. apply append_inj, (f_equal chars) in E. rewrite !chars_app, Ht in E. by injection E.
Qed.
Lemma under_longer a t s n : chars s <> [] -> under (a +:+ s) n = true -> n = a +:+ t -> exists t', t = s +:+ t' /\ rooted t'.
Proof. intros _ (s' & Hs & ->)%under_spec E. rewrite append_assoc in E. apply append_inj in E. by exists s'. Qed.

(** ** Valid names *)

Lemma split_on_both sep (a b : list ascii) : split_on sep (a ++ sep :: b) = (split_on sep a ++ split_on sep b)%list.
Proof.
  induction a as [|c a IH]; cbn [app split_on].
  - by rewrite (proj2 (Ascii.eqb_eq sep sep)).
  - destruct (Ascii.eqb c sep); [by rewrite IH|]. rewrite IH.
    destruct (split_on sep a) as [|w ws] eqn:Ea; [|done].
    exfalso. revert Ea. clear. destruct a as [|c a]; cbn; [done|]. destruct (Ascii.eqb c sep); [done|]. by destruct (split_on sep a).
Qed.
Lemma valid_parts a : validDataset a = true -> a <> "" /\ forallb datasetPart (split_on "/" (chars a)) = true.
Proof. unfold validDataset. intros [Ha Hp]%andb_true_iff. to_prop. done. Qed.
Lemma valid_slash a t : validDataset (a +:+ "/" +:+ t) = true ->
  forallb datasetPart (split_on "/" (chars t)) = true.
Proof.
  intros [_ Hp]%valid_parts. rewrite !chars_app in Hp. cbn in Hp. rewrite split_on_both, forallb_app in Hp.
  by apply andb_true_iff in Hp as [_ ?].
Qed.
Lemma valid_moved a b s : rooted s -> validDataset (a +:+ s) = true -> validDataset b = true -> validDataset (b +:+ s) = true.
Proof.
  intros [->|[t ->]] Ha Hb; [by rewrite append_nil|]. apply valid_slash in Ha. apply valid_parts in Hb as [Hne Hb].
  unfold validDataset. rewrite !chars_app. cbn. rewrite split_on_both, forallb_app, Hb, Ha.
  rewrite andb_true_r. apply negb_true_iff, bool_decide_eq_false. intros E%(f_equal chars).
  rewrite !chars_app in E. destruct (chars b) eqn:E'; [|done]. by apply Hne, chars_inj.
Qed.

Lemma part_no_at l : datasetPart l = true -> "@"%char ∉ l.
Proof.
  destruct l as [|c l]; [done|]. cbn [datasetPart]. intros [Hc Hl]%andb_true_iff [Hin|Hin]%elem_of_cons; [by subst c|].
  rewrite forallb_forall in Hl. apply list_elem_of_In, Hl in Hin. done.
Qed.
Lemma split_on_elem sep c (l : list ascii) : c ∈ l -> c = sep \/ exists w, w ∈ split_on sep l /\ c ∈ w.
Proof.
  induction l as [|d l IH]; [by intros ?%elem_of_nil|]. cbn [split_on]. intros [->|Hin]%elem_of_cons.
  - destruct (Ascii.eqb_spec d sep) as [->|Hd]; [by left|]. right.
    destruct (split_on sep l) as [|w ws]; [exists [d]|exists (d :: w)]; split; constructor.
  - destruct (IH Hin) as [->|(w & Hw & Hc)]; [by left|]. right.
    destruct (Ascii.eqb d sep); [exists w; split; [by constructor|done]|].
    destruct (split_on sep l) as [|w' ws]; [by apply elem_of_nil in Hw|].
    apply elem_of_cons in Hw as [->|Hw]; [exists (d :: w')|exists w]; split; try done; by constructor.
Qed.
Lemma valid_no_at a : validDataset a = true -> "@"%char ∉ chars a.
Proof.
  intros [_ Hp]%valid_parts Hin. destruct (split_on_elem "/" _ _ Hin) as [E|(w & Hw & Hc)]; [done|].
  rewrite forallb_forall in Hp. apply list_elem_of_In in Hw. by apply (part_no_at w (Hp w Hw)).
Qed.
Lemma valid_snapshot ds snap : validDataset ds = true -> datasetPart (chars snap) = true -> validSnapshot (ds +:+ "@" +:+ snap) = true.
Proof.
  intros Hd Hs. unfold validSnapshot. rewrite !chars_app. cbn [app]. change (chars "@") with ["@"%char]. cbn [app].
  rewrite split_on_app by (by apply valid_no_at). rewrite split_on_none by (by apply part_no_at).
  unfold chars at 1. rewrite String.string_of_list_ascii_of_string. by rewrite Hd.
Qed.

(** The last ["@"] separates a dataset from its snapshot. *)
Lemma split_at (x : ascii) (a b c d : list ascii) : x ∉ b -> x ∉ d -> (a ++ x :: b = c ++ x :: d)%list -> a = c /\ b = d.
Proof.
  revert c. induction a as [|y a IH]; intros [|z c] Hb Hd E; cbn in E.
  - by injection E.
  - injection E as <- ->. destruct Hb. apply elem_of_app. right. by constructor.
  - injection E as -> <-. destruct Hd. apply elem_of_app. right. by constructor.
  - injection E as -> E. by destruct (IH c Hb Hd E) as [-> ->].
Qed.
Lemma snapshot_inj a b c d : "@"%char ∉ chars b -> "@"%char ∉ chars d -> a +:+ "@" +:+ b = c +:+ "@" +:+ d -> a = c /\ b = d.
Proof.
  intros Hb Hd E%(f_equal chars). rewrite !chars_app in E. change (chars "@") with ["@"%char] in E. cbn [app] in E.
  apply split_at in E as [E1 E2]; [|done..]. split; by apply chars_inj.
Qed.

(** ** Parents, promoted names, and the order of mounts *)

Lemma before_last_app p l : "/"%char ∉ l -> before_last (p ++ "/"%char :: l) = Some p.
Proof.
  intros Hl. assert (before_last l = None) as Hn.
  { induction l as [|c l IH]; [done|]. cbn. apply not_elem_of_cons in Hl as [Hc Hl]. rewrite IH by done.
    by destruct (Ascii.eqb_spec c "/") as [->|]. }
  induction p as [|c p IH]; cbn [app before_last]; [by rewrite Hn|by rewrite IH].
Qed.
Lemma parent_of_app p l : p <> "" -> "/"%char ∉ chars l -> parent_of (p +:+ "/" +:+ l) = p.
Proof.
  intros Hp Hl. unfold parent_of. rewrite !chars_app. change (chars "/") with ["/"%char]. cbn [app]. rewrite before_last_app by done.
  destruct (chars p) as [|c p'] eqn:E; [by destruct Hp; apply chars_inj|].
  rewrite <- E. apply String.string_of_list_ascii_of_string.
Qed.

Lemma from_slash_app l s : "/"%char ∉ l -> from_slash (l ++ s) = from_slash s.
Proof.
  induction l as [|c l IH]; intros Hl; [done|]. apply not_elem_of_cons in Hl as [Hc Hl]. cbn.
  destruct (Ascii.eqb_spec c "/") as [->|]; [done|by apply IH].
Qed.
Lemma drop_chars a b : drop (List.length (chars a)) (chars (a +:+ b)) = chars b.
Proof. rewrite chars_app. apply drop_app_length. Qed.
Lemma promoted_temporary root op s : "/"%char ∉ chars op -> rooted s -> promoted_name root (temporary root op +:+ s) = root +:+ s.
Proof.
  intros Hop Hs. unfold promoted_name, temporary.
  assert (HasPrefix ((root +:+ "-restore-" +:+ op) +:+ s) (root +:+ "-restore-") = true) as ->.
  { apply HasPrefix_split. exists (op +:+ s). by rewrite !append_assoc. }
  rewrite bool_decide_eq_false_2.
  - cbn [negb andb].
    replace ((root +:+ "-restore-" +:+ op) +:+ s) with ((root +:+ "-restore-") +:+ (op +:+ s)) by (by rewrite !append_assoc).
    rewrite drop_chars, chars_app, from_slash_app by done.
    destruct Hs as [->|[t ->]]; [by rewrite append_nil|].
    change (from_slash (chars ("/" +:+ t))) with (Some (chars ("/" +:+ t))). f_equal.
    apply String.string_of_list_ascii_of_string.
  - intros E. assert (E' : root +:+ ("-restore-" +:+ op +:+ s) = root +:+ "") by (rewrite append_nil; rewrite <- E at 2; by rewrite !append_assoc).
    apply append_inj, (f_equal chars) in E'. rewrite !chars_app in E'. done.
Qed.
Lemma promoted_other root n : HasPrefix n (root +:+ "-restore-") = false -> promoted_name root n = n.
Proof. unfold promoted_name. intros ->. by rewrite andb_false_r. Qed.

Lemma name_le_slashes a b : name_le a b -> (slashes a <= slashes b)%nat.
Proof. unfold name_le, less. destruct (decide (slashes b = slashes a)) as [->|]; [lia|]. intros H%Nat.ltb_ge. lia. Qed.
#[export] Instance name_le_total : Total name_le.
Proof.
  intros a b. unfold name_le, less. destruct (decide (slashes b = slashes a)) as [E|E], (decide (slashes a = slashes b)) as [E'|E']; try congruence.
  - destruct (bytes_ltb (chars b) (chars a)) eqn:Hb; [right; by apply bytes_ltb_asym|by left].
  - rewrite !Nat.ltb_ge. lia.
Qed.
#[export] Instance name_le_trans : Transitive name_le.
Proof.
  intros a b c. unfold name_le, less.
  destruct (decide (slashes b = slashes a)) as [E1|E1], (decide (slashes c = slashes b)) as [E2|E2],
    (decide (slashes c = slashes a)) as [E3|E3]; rewrite ?Nat.ltb_ge; try lia.
  intros Hab Hbc. by eapply bytes_le_trans.
Qed.
Lemma slashes_app a b : slashes (a +:+ b) = (slashes a + slashes b)%nat.
Proof. unfold slashes. rewrite chars_app, filter_app. apply length_app. Qed.
Lemma below_slashes a n : below a n = true -> (slashes a < slashes n)%nat.
Proof.
  unfold below. rewrite HasPrefix_split. intros [r ->]. rewrite !slashes_app. change (slashes "/") with 1%nat. lia.
Qed.
Lemma below_under a n : below a n = true -> under a n = true.
Proof. unfold under. intros ->. apply orb_true_r. Qed.

(** Names in mount order: what is below a name comes after it. *)
Lemma mount_order names l1 x l2 n : merge_sort name_le names = (l1 ++ x :: l2)%list -> below x n = true -> n ∈ names -> n ∈ l2 /\ n ∉ l1.
Proof.
  intros E Hb Hn. pose proof (StronglySorted_merge_sort name_le names) as Hs. rewrite E in Hs.
  assert (Hin : n ∈ (l1 ++ x :: l2)%list) by (rewrite <- E; by rewrite merge_sort_Permutation).
  assert (n ∉ l1) as Hl1.
  { intros Hin'. apply StronglySorted_app_1_elem_of with (x1 := n) (x2 := x) in Hs; [|done|constructor].
    apply name_le_slashes in Hs. apply below_slashes in Hb. lia. }
  split; [|done]. apply elem_of_app in Hin as [Hin|[->|Hin]%elem_of_cons]; [done| |done].
  apply below_slashes in Hb. lia.
Qed.

(** The mountpoint of a valid dataset is a value the daemon accepts. *)
Lemma part_plain c l : datasetPart l = true -> c ∈ l -> (33 <= N_of_ascii c)%N.
Proof.
  assert (Hch : forall c, alphanumeric c || existsb (Ascii.eqb c) (chars "_.:-") = true -> (33 <= N_of_ascii c)%N).
  { clear. intros c Hc. apply N.leb_le. revert Hc. by destruct c as [[] [] [] [] [] [] [] []]. }
  destruct l as [|d l]; [done|]. cbn [datasetPart]. intros [Hd Hl]%andb_true_iff [->|Hin]%elem_of_cons.
  - apply Hch. by rewrite Hd.
  - rewrite forallb_forall in Hl. apply Hch, Hl. by apply list_elem_of_In.
Qed.
Lemma valid_plain n c : validDataset n = true -> c ∈ chars n -> (33 <= N_of_ascii c)%N.
Proof.
  intros [_ Hp]%valid_parts Hin. destruct (split_on_elem "/" _ _ Hin) as [->|(w & Hw & Hc)]; [done|].
  rewrite forallb_forall in Hp. apply list_elem_of_In, Hp in Hw. by eapply part_plain.
Qed.
Lemma settable_mountpoint n : validDataset n = true -> settable "mountpoint" ("/" +:+ n) = true.
Proof.
  intros Hn. unfold settable. apply andb_true_iff. split; [apply andb_true_iff; split; [done|]|].
  { apply negb_true_iff, bool_decide_eq_false_2. intros E%(f_equal chars). by rewrite chars_app in E. }
  apply negb_true_iff, not_true_is_false. rewrite existsb_exists.
  intros (c & Hc%list_elem_of_In & Hx). rewrite chars_app in Hc.
  assert (33 <= N_of_ascii c)%N as Hle.
  { apply elem_of_app in Hc as [Hc|Hc]; [|by eapply valid_plain]. apply elem_of_cons in Hc as [->|Hc%elem_of_nil]; done. }
  apply existsb_exists in Hx as (d & Hd & E%Ascii.eqb_eq). subst d.
  revert Hle. by destruct Hd as [<-|[<-|[<-|[]]]].
Qed.

Lemma moved_names_spec source target ds n :
  n ∈ moved_names source target ds <-> exists s, rooted s /\ n = target +:+ s /\ source +:+ s ∈ ds.
Proof.
  unfold moved_names. rewrite list_elem_of_omap. split.
  - intros (k & Hk & E). destruct (under source k) eqn:Hu; [|done]. injection E as <-.
    apply under_spec in Hu as (s & Hs & ->). rewrite TrimPrefix_app. eauto.
  - intros (s & Hs & -> & Hin). exists (source +:+ s). split; [done|]. by rewrite under_self, TrimPrefix_app.
Qed.

Lemma filter_split {A} (Q : A -> Prop) `{!forall x, Decision (Q x)} l l1 x l2 : filter Q l = (l1 ++ x :: l2)%list ->
  exists m1 m2, l = (m1 ++ x :: m2)%list /\ l1 = filter Q m1.
Proof.
  revert l1. induction l as [|y l IH]; intros l1 E; [by destruct l1|]. rewrite filter_cons in E. case_decide as Hy.
  - destruct l1 as [|z l1]; cbn in E; injection E as -> E; [by exists [], l|].
    destruct (IH l1 E) as (m1 & m2 & -> & ->). exists (z :: m1), m2. split; [done|]. by rewrite filter_cons_True.
  - destruct (IH l1 E) as (m1 & m2 & -> & ->). exists (y :: m1), m2. split; [done|]. by rewrite filter_cons_False.
Qed.
