(* ===== verification/DatasetPool.v ===== *)
(** A pool in memory that does what [HostDatasets.v] says [zfs] promises, and
    whose commands succeed whenever they can: the promises can be kept. *)
From S2P Require Import Prelude Timestamp Release Netip GoStrings CrashLogic HostDatasets DatasetSwap DatasetNames.
From Stdlib Require Import Ascii.

Open Scope string_scope.

Definition homedb (v : View) (n : string) : bool :=
  match before_last (chars n) with Some p => bool_decide (is_Some (v !! str p)) | None => false end.

Lemma before_last_spec l p : before_last l = Some p -> exists t, l = (p ++ "/"%char :: t)%list /\ "/"%char ∉ t.
Proof.
  revert p. induction l as [|c l IH]; intros p; [done|]. cbn. destruct (before_last l) as [q|] eqn:E.
  - intros [= <-]. destruct (IH q eq_refl) as (t & -> & Ht). by exists t.
  - destruct (Ascii.eqb_spec c "/") as [->|]; [|done]. intros [= <-]. exists l. split; [done|].
    clear IH. revert E. induction l as [|d l IH]; [by intros _ ?%elem_of_nil|]. cbn.
    destruct (before_last l); [done|]. destruct (Ascii.eqb_spec d "/") as [|Hd]; [done|]. intros _ [E|Hin]%elem_of_cons; [by subst d|by apply IH].
Qed.
Lemma homedb_spec v n : homedb v n = true <-> homed v n.
Proof.
  unfold homedb. split.
  - destruct (before_last (chars n)) as [p|] eqn:E; [|done]. intros Hp%bool_decide_eq_true.
    apply before_last_spec in E as (t & E & Ht). exists (str p), (str t). split_and!; [|by rewrite chars_str|done].
    apply chars_inj. rewrite !chars_app, !chars_str. by rewrite E.
  - intros (p & l & -> & Hl & Hp). rewrite !chars_app. change (chars "/") with ["/"%char]. cbn [app].
    rewrite before_last_app by done. apply bool_decide_eq_true. unfold chars. by rewrite String.string_of_list_ascii_of_string.
Qed.

(** A guid that is not in use. *)
Definition next_guid (v : View) : N := (map_fold (fun _ d m => N.max (guid d) m) 0 v + 1)%N.
Lemma next_guid_fresh v : fresh_guid v (next_guid v).
Proof.
  assert (Hle : forall n d, v !! n = Some d -> (guid d <= map_fold (fun _ d m => N.max (guid d) m) 0 v)%N).
  { apply (map_fold_weak_ind (fun m v => forall n d, v !! n = Some d -> (guid d <= m)%N)); [done|].
    intros k e m r Hk IH n d. rewrite lookup_insert. case_decide; [intros [= <-]; lia|]. intros Hd%IH. lia. }
  intros n d Hd%Hle. unfold next_guid. lia.
Qed.

(** Renaming exchanges the names of two trees, of which one is empty. *)
Definition exchange (a b n : string) : string :=
  if under a n then b +:+ TrimPrefix n a else if under b n then a +:+ TrimPrefix n b else n.
Definition renamed (a b : string) (v : View) : View := kmap (exchange a b) (filter (fun nd => under b nd.1 = false) v).

Lemma trees_apart a b s : a <> b -> below a b = false -> below b a = false -> rooted s -> under a (b +:+ s) = false.
Proof.
  intros Hne Hab Hba Hs. apply not_true_is_false. intros (s' & Hs' & E)%under_spec.
  assert (Hcmp : forall x y (u w : string), rooted u -> (y +:+ u)%string = (x +:+ w)%string -> x <> y -> below y x = false ->
    (String.length y <= String.length x)%nat -> False).
  { clear. intros x y u w Hu E Hne Hb Hl. apply (f_equal chars) in E. rewrite !chars_app in E.
    assert (Hlen : forall z, String.length z = List.length (chars z)) by (intros z; induction z; cbn; by f_equal).
    rewrite !Hlen in Hl. apply app_eq_inv in E as [(k & Ey & _)|(k & Ex & Eu)].
    - rewrite Ey, length_app in Hl. destruct k; [|cbn in Hl; lia]. rewrite app_nil_r in Ey. by apply Hne, chars_inj.
    - destruct k as [|c k]; [apply Hne, chars_inj; by rewrite Ex, app_nil_r|].
      destruct Hu as [->|[t ->]]; [done|]. rewrite chars_app in Eu. change (chars "/") with ["/"%char] in Eu.
      cbn in Eu. injection Eu as <- _. apply not_true_iff_false in Hb. apply Hb. apply HasPrefix_split. exists (str k).
      apply chars_inj. rewrite !chars_app, chars_str, Ex. by rewrite <- app_assoc. }
  destruct (Nat.le_ge_cases (String.length a) (String.length b)) as [Hl|Hl].
  - apply (Hcmp b a s' s); [done|by symmetry|by apply not_eq_sym|done|done].
  - by apply (Hcmp a b s s').
Qed.

Section Exchange.
Variables (a b : string) (Hne : a <> b) (Hab : below a b = false) (Hba : below b a = false).
Lemma exchange_a s : rooted s -> exchange a b (a +:+ s) = b +:+ s.
Proof. intros Hs. unfold exchange. by rewrite under_self, TrimPrefix_app. Qed.
Lemma exchange_b s : rooted s -> exchange a b (b +:+ s) = a +:+ s.
Proof. intros Hs. unfold exchange. rewrite trees_apart by done. by rewrite under_self, TrimPrefix_app. Qed.
Lemma exchange_other n : under a n = false -> under b n = false -> exchange a b n = n.
Proof. unfold exchange. by intros -> ->. Qed.
Lemma exchange_twice n : exchange a b (exchange a b n) = n.
Proof.
  destruct (under a n) eqn:Ha; [|destruct (under b n) eqn:Hb].
  - apply under_spec in Ha as (s & Hs & ->). by rewrite exchange_a, exchange_b.
  - apply under_spec in Hb as (s & Hs & ->). by rewrite exchange_b, exchange_a.
  - by rewrite !exchange_other by (rewrite ?exchange_other; done).
Qed.
#[local] Instance exchange_inj : Inj (=) (=) (exchange a b).
Proof. intros n k E. by rewrite <- (exchange_twice n), E, exchange_twice. Qed.

Lemma renamed_lookup v n : renamed a b v !! n = (if under b (exchange a b n) then None else v !! exchange a b n).
Proof.
  unfold renamed. rewrite <- (exchange_twice n) at 1. rewrite lookup_kmap by apply _.
  rewrite map_lookup_filter. destruct (v !! exchange a b n) as [d|]; cbn.
  - case_guard as Hg; cbn in Hg; destruct (under b (exchange a b n)); done.
  - by destruct (under b (exchange a b n)).
Qed.
End Exchange.

(** The last occurrence of a character. *)
Fixpoint split_last (x : ascii) (l : list ascii) : option (list ascii * list ascii) :=
  match l with
  | [] => None
  | c :: l =>
      match split_last x l with
      | Some (p, q) => Some (c :: p, q)
      | None => if Ascii.eqb c x then Some ([], l) else None
      end
  end.
Lemma split_last_none x l : split_last x l = None <-> x ∉ l.
Proof.
  induction l as [|c l IH]; cbn; [by split; [intros _ ?%elem_of_nil|]|]. rewrite not_elem_of_cons.
  destruct (split_last x l) as [[p q]|].
  - split; [done|]. intros [_ Hn]. by apply IH in Hn.
  - destruct (Ascii.eqb_spec c x); [by split; [|intros [? _]; congruence]|]. split; [|done]. intros _. split; [done|by apply IH].
Qed.
Lemma split_last_app x p q : x ∉ q -> split_last x (p ++ x :: q) = Some (p, q).
Proof.
  intros Hq%split_last_none. induction p as [|c p IH]; cbn; [by rewrite Hq, (proj2 (Ascii.eqb_eq x x))|by rewrite IH].
Qed.
Lemma split_last_spec x l p q : split_last x l = Some (p, q) -> l = (p ++ x :: q)%list /\ x ∉ q.
Proof.
  revert p. induction l as [|c l IH]; intros p; cbn; [done|]. destruct (split_last x l) as [[p' q']|] eqn:E.
  - intros [= <- ->]. by destruct (IH p' eq_refl) as [-> ?].
  - destruct (Ascii.eqb_spec c x) as [->|]; [|done]. intros [= <- ->]. split; [done|by apply split_last_none].
Qed.

(** A dataset other than [n] with the given guid. *)
Definition other_of (v : View) (n : string) (g : N) : option (string * Dataset) :=
  List.find (fun kd => negb (bool_decide (kd.1 = n)) && bool_decide (guid kd.2 = g)) (map_to_list v).

(** Destroying [ds] leaves no clone behind. *)
Definition unclonedb (ds : string) (v : View) : bool :=
  forallb (fun kd => negb (under ds kd.1) ||
    forallb (fun ko => negb (bool_decide (origin ko.2 = Some (guid kd.2))) || under ds ko.1) (map_to_list v)) (map_to_list v).
Definition leafb (ds : string) (v : View) : bool := forallb (fun kd => negb (below ds kd.1)) (map_to_list v).

Definition there (v : View) (n : string) : bool := match v !! n with Some _ => true | None => false end.
Definition when {A} (b : bool) (x : A) : option A := if b then Some x else None.
Definition row (n : string) : list string := [n; "0"; "0"; "0"; "none"; "0"].

Definition plan (c : zcmd) (v : View) : option (zout * View) :=
  match c with
  | ZList parent => when (there v parent)
      (Table (map row (merge_sort name_le (filter (fun n => under parent n = true) (map_to_list v).*1))), v)
  | ZExists n | ZMount n => when (there v n) (Text n, v)
  | ZGet key n =>
      d ← v !! n;
      Some (Text (if decide (key = "origin") then match origin d with None => "-" | Some _ => "a clone" end
        else if decide (key = "mountpoint") then default "none" (mount d) else "yes"), v)
  | ZCreate _ n => when (negb (there v n) && homedb v n) (Text "", <[n := mkDataset (next_guid v) "" ∅ None None]> v)
  | ZSet key value n =>
      d ← v !! n;
      Some (Text "", if decide (key = "mountpoint") then <[n := set_mount value d]> v else v)
  | ZClone snapshot n =>
      '(src, snap) ← split_last "@" (chars snapshot);
      d ← v !! str src;
      x ← snaps d !! str snap;
      when (negb (there v n) && homedb v n) (Text "", <[n := mkDataset (next_guid v) x ∅ (Some (guid d)) None]> v)
  | ZRename _ a b =>
      when (there v a && negb (there v b) && homedb v b && negb (below a b) && negb (below b a)) (Text "", renamed a b v)
  | ZPromote n =>
      d ← v !! n;
      g ← origin d;
      '(m, o) ← other_of v n g;
      Some (Text "", <[n := mkDataset (guid d) (data d) (snaps d) (origin o) (mount d)]>
        (<[m := mkDataset (guid o) (data o) (snaps o) (Some (guid d)) (mount o)]> v))
  | ZDestroy r n =>
      when (there v n && (r || leafb n v) && unclonedb n v) (Text "", filter (fun kd => under n kd.1 = false) v)
  | Request | Reply => Some (Text "", v)
  end.

Lemma there_spec v n : there v n = true <-> is_Some (v !! n).
Proof. unfold there. destruct (v !! n); split; [eauto|done..|by intros [? ?]]. Qed.
Lemma there_none v n : there v n = false <-> v !! n = None.
Proof. unfold there. by destruct (v !! n). Qed.
Lemma when_some {A} b (x y : A) : when b x = Some y <-> b = true /\ y = x.
Proof. unfold when. destruct b; naive_solver. Qed.

Lemma listing_sound (v : View) parent (L := merge_sort name_le (filter (fun n => under parent n = true) (map_to_list v).*1)) :
  listed (Table (map row L)) = L /\
  (forall n, n ∈ L <-> is_Some (v !! n) /\ under parent n = true) /\
  (forall l1 n l2, L = (l1 ++ n :: l2)%list -> Forall (fun k => under n k = false) l1).
Proof.
  split_and!.
  - cbn. generalize L. intros l. induction l as [|n l IH]; [done|]. cbn. by rewrite IH.
  - intros n. unfold L. rewrite merge_sort_Permutation, list_elem_of_filter, list_elem_of_fmap. split.
    + intros (Hu & (k & d) & -> & Hd). apply elem_of_map_to_list in Hd. split; [by exists d|done].
    + intros [[d Hd] Hu]. split; [done|]. exists (n, d). split; [done|]. by apply elem_of_map_to_list.
  - intros l1 n l2 E. rewrite Forall_forall. intros k Hk. apply not_true_is_false. unfold under. intros Hu.
    apply orb_true_iff in Hu as [->%bool_decide_eq_true|Hb].
    + assert (Hnd : NoDup L).
      { unfold L. rewrite merge_sort_Permutation. apply NoDup_filter, NoDup_fst_map_to_list. }
      rewrite E in Hnd. apply NoDup_app in Hnd as (_ & Hnd & _). by apply (Hnd n); [|constructor].
    + pose proof (mount_order _ l1 n l2 k E Hb) as Ho. destruct Ho as [_ Ho]; [|done].
      rewrite <- (merge_sort_Permutation name_le). fold L. rewrite E. apply elem_of_app. by left.
Qed.

Lemma other_of_spec v n g m o : other_of v n g = Some (m, o) -> v !! m = Some o /\ m <> n /\ guid o = g.
Proof.
  intros [Hin Hp]%List.find_some. cbn in Hp. to_prop. apply list_elem_of_In, elem_of_map_to_list in Hin. done.
Qed.
Lemma other_of_some v n g m o : v !! m = Some o -> m <> n -> guid o = g -> is_Some (other_of v n g).
Proof.
  intros Hm Hne Hg. destruct (other_of v n g) as [[? ?]|] eqn:E; [done|]. exfalso.
  pose proof (List.find_none _ _ E (m, o)) as Hf. cbn in Hf.
  rewrite bool_decide_eq_false_2, bool_decide_eq_true_2 in Hf by done.
  discriminate Hf. by apply list_elem_of_In, elem_of_map_to_list.
Qed.

Lemma unclonedb_spec n v : unclonedb n v = true <->
  forall k d j o, v !! k = Some d -> under n k = true -> v !! j = Some o -> origin o = Some (guid d) -> under n j = true.
Proof.
  unfold unclonedb. rewrite forallb_forall. split.
  - intros Hf k d j o Hk Hu Hj Ho. specialize (Hf (k, d) (proj1 (list_elem_of_In _ _) (proj2 (elem_of_map_to_list _ _ _) Hk))).
    cbn in Hf. rewrite Hu in Hf. cbn in Hf. rewrite forallb_forall in Hf. specialize (Hf (j, o)). cbn in Hf. rewrite bool_decide_eq_true_2 in Hf by done. cbn in Hf.
    by apply Hf, list_elem_of_In, elem_of_map_to_list.
  - intros Ha [k d] Hk%list_elem_of_In%elem_of_map_to_list. cbn. destruct (under n k) eqn:Hu; [|done]. cbn.
    apply forallb_forall. intros [j o] Hj%list_elem_of_In%elem_of_map_to_list. cbn.
    case_bool_decide as Ho; [|done]. cbn. exact (Ha k d j o Hk Hu Hj Ho).
Qed.
Lemma leafb_spec n v : leafb n v = true <-> forall k, below n k = true -> v !! k = None.
Proof.
  unfold leafb. rewrite forallb_forall. split.
  - intros Hf k Hb. destruct (v !! k) as [d|] eqn:Hd; [|done]. assert (negb (below n k) = true) as Hf'; [|by rewrite Hb in Hf'].
    apply (Hf (k, d)). by apply list_elem_of_In, elem_of_map_to_list.
  - intros Ha [k d] Hk%list_elem_of_In%elem_of_map_to_list. cbn. apply negb_true_iff, not_true_is_false. intros Hb%Ha. congruence.
Qed.

Ltac plan_case := repeat match goal with
  | X : when _ _ = Some _ |- _ => apply when_some in X as [??]
  | X : (_ ≫= _) = Some _ |- _ => apply bind_Some in X as (?&?&X)
  | X : negb _ = true |- _ => apply negb_true_iff in X
  | X : _ && _ = true |- _ => apply andb_true_iff in X as [??]
  | X : there _ _ = true |- _ => apply there_spec in X
  | X : there _ _ = false |- _ => apply there_none in X
  | X : homedb _ _ = true |- _ => apply homedb_spec in X
  | p : (_ * _)%type |- _ => destruct p
  end; simplify_eq/=.

Lemma renamed_effect r a b v : is_Some (v !! a) -> v !! b = None -> homed v b -> below a b = false -> below b a = false ->
  zeffect (ZRename r a b) v (renamed a b v).
Proof.
  intros Ha Hb Hh H1 H2. assert (Hne : a <> b) by (intros ->; rewrite Hb in Ha; by destruct Ha).
  apply ze_rename; try done.
  - intros s Hs. rewrite !renamed_lookup by done. rewrite exchange_b, exchange_a by done.
    rewrite (under_self b) by done. by rewrite (trees_apart b a) by done.
  - intros n Hna Hnb. rewrite renamed_lookup by done. rewrite exchange_other by done. by rewrite Hnb.
Qed.

Lemma promoted_effect v n d m o : v !! n = Some d -> v !! m = Some o -> m <> n -> origin d = Some (guid o) ->
  zeffect (ZPromote n) v (<[n := mkDataset (guid d) (data d) (snaps d) (origin o) (mount d)]>
    (<[m := mkDataset (guid o) (data o) (snaps o) (Some (guid d)) (mount o)]> v)).
Proof.
  intros Hn Hm Hne Ho. apply (ze_promote n d m o); try done.
  - intros k. rewrite !lookup_insert. case_decide as E; [subst k; rewrite Hn; by split_and!|].
    case_decide as E'; [subst k; rewrite Hm; by split_and!|]. destruct (v !! k); [|done]. split_and!; try done. intros _ _. split; [done|by left].
  - intros d'. rewrite lookup_insert_eq. by intros [= <-].
  - intros o'. rewrite lookup_insert_ne by done. rewrite lookup_insert_eq. by intros [= <-].
Qed.

Lemma plan_sound c v out v' : plan c v = Some (out, v') ->
  zanswers c v out /\ (if mutating c then zeffect c v v' else v' = v).
Proof.
  destruct c as [parent|n|key n|n|set n|key value n|snapshot n|r a b|n|r n| |]; cbn [plan mutating zfs_spec]; intros Hp.
  - plan_case. destruct (listing_sound v parent) as (H1 & H2 & H3). cbn in H1. split; [|done]. cbn. by rewrite H1.
  - by plan_case.
  - plan_case. split; [|done]. eexists. split_and!; [done|intros ->; cbn; by destruct (origin _)|by intros -> m ->].
  - by plan_case.
  - plan_case. split; [done|]. apply ze_create; [done..|apply next_guid_fresh].
  - plan_case. split; [done|]. case_decide; [subst; by apply ze_mountpoint|by apply ze_set].
  - plan_case. split; [done|]. apply split_last_spec in H as [E Hat].
    assert (snapshot = str l +:+ "@" +:+ str l0) as ->.
    { apply chars_inj. rewrite !chars_app, !chars_str. by rewrite E. }
    eapply ze_clone; [done..|by rewrite chars_str|apply next_guid_fresh].
  - plan_case. split; [done|]. by apply renamed_effect.
  - plan_case. split; [done|]. destruct (other_of_spec _ _ _ _ _ H1) as (Hm & Hne & Hg). apply promoted_effect; [done..|]. congruence.
  - plan_case. split; [done|]. apply ze_destroy; [done| |by apply unclonedb_spec|].
    + intros ->. apply leafb_spec. done.
    + intros k. rewrite map_lookup_filter. destruct (v !! k); cbn; [|by destruct (under n k)].
      case_guard as Hg; cbn in Hg; by destruct (under n k).
  - by plan_case.
  - by plan_case.
Qed.

Lemma plan_ready c v : zready c v -> is_Some (plan c v).
Proof.
  assert (Hw : forall (b : bool) (x : zout * View), b = true -> is_Some (when b x)) by (intros b x ->; by eexists).
  destruct c as [parent|n|key n|n|set n|key value n|snapshot n|r a b|n|r n| |]; cbn [plan zready]; intros Hr; try by eexists.
  - by apply Hw, there_spec.
  - by apply Hw, there_spec.
  - destruct Hr as [d ->]. by eexists.
  - by apply Hw, there_spec.
  - destruct Hr as [Hn Hh]. apply Hw. apply there_none in Hn. apply homedb_spec in Hh. by rewrite Hn, Hh.
  - destruct Hr as [[d ->] _]. by eexists.
  - destruct Hr as (Hn & Hh & src & snap & d & -> & Hat & Hd & [x Hx]).
    rewrite !chars_app. change (chars "@") with ["@"%char]. cbn [app]. rewrite split_last_app by done. cbn.
    rewrite (str_chars src), Hd. cbn. rewrite (str_chars snap), Hx. cbn. apply Hw.
    apply there_none in Hn. apply homedb_spec in Hh. by rewrite Hn, Hh.
  - destruct Hr as (Ha & Hb & Hh & H1 & H2). apply Hw. apply there_spec in Ha. apply there_none in Hb. apply homedb_spec in Hh.
    by rewrite Ha, Hb, Hh, H1, H2.
  - destruct Hr as (d & m & o & Hn & Hm & Hne & Ho & _). rewrite Hn. cbn. rewrite Ho. cbn.
    destruct (other_of_some v n (guid o) m o) as [[m' o'] E]; [done..|]. rewrite E. by eexists.
  - destruct Hr as (Hn & Hl & Hc). apply Hw. apply there_spec in Hn. rewrite Hn. cbn.
    apply andb_true_iff. split; [|by apply unclonedb_spec]. destruct r; [done|]. cbn. by apply leafb_spec, Hl.
Qed.

(** ** The tool *)

#[export] Instance pool_tool : Tool zcmd zout View View := {|
  view v := v;
  execute c v := match plan c v with Some (out, v') => (Ok out, v') | None => (Err "cannot", v) end |}.

#[export] Instance pool_laws : ToolLaws zcmd zout View View.
Proof.
  split; intros c v; cbn [view execute pool_tool]; destruct (plan c v) as [[o v']|] eqn:E; try destruct (plan_sound c v o v' E) as [Ha Hm];
    cbn; try done.
  - destruct (mutating c) eqn:Hc; [by right|by left].
  - by left.
  - intros out _ Hc. change (mutating c = true) in Hc. by rewrite Hc in Hm.
  - by intros out [= <-].
Qed.

#[export] Instance pool_cooperative : Cooperative zcmd zout View View.
Proof.
  intros c v Hr. cbn [view execute pool_tool] in *. destruct (plan_ready c v Hr) as [[out v'] ->]. done.
Qed.
