(* ===== verification/DatasetSwapSafety.v ===== *)
(** The dataset swap of [DatasetSwap.v] on a host: however often it is
    interrupted, the data that was there is never lost, the root is never a
    mixture, and a run that is left alone finishes the job. *)
From S2P Require Import Prelude Timestamp Release Netip GoStrings CrashLogic HostDatasets DatasetSwap DatasetNames DatasetPool.
From Stdlib Require Import Ascii.

Open Scope string_scope.

(** No two datasets share a guid. *)
Definition guids (v : View) : Prop := forall n k d e, v !! n = Some d -> v !! k = Some e -> guid d = guid e -> n = k.

Section Swap.
Variables (parent leaf snapshot op : string) (v0 : View).
Definition root : string := parent +:+ "/" +:+ leaf.
Definition rec : string := recovery root op.
Definition tmp : string := temporary root op.

(** What a restore may rely on: valid names, a snapshot of every dataset of the
    tree, no clones in it, room for the two other trees, and no temporary tree
    left behind by another operation. *)
Record restorable : Prop := {
  r_parent : parent <> "" /\ "/"%char ∉ chars leaf /\ is_Some (v0 !! parent);
  r_op : "/"%char ∉ chars op;
  r_valid : validDataset rec = true /\ validDataset tmp = true;
  r_part : datasetPart (chars snapshot) = true;
  r_root : is_Some (v0 !! root);
  r_tree : forall s d, rooted s -> v0 !! (root +:+ s) = Some d ->
    validDataset (root +:+ s) = true /\ is_Some (snaps d !! snapshot) /\ origin d = None;
  r_homed : forall s, rooted s -> s <> "" -> is_Some (v0 !! (root +:+ s)) ->
    exists s' l, rooted s' /\ s = s' +:+ "/" +:+ l /\ "/"%char ∉ chars l /\ is_Some (v0 !! (root +:+ s'));
  r_free : forall s, rooted s -> v0 !! (rec +:+ s) = None;
  r_strays : forall n, is_Some (v0 !! n) -> HasPrefix n (root +:+ "-restore-") = false;
  r_guids : guids v0 }.

(** ** How far a swap has come *)

Definition outside (n : string) : Prop := under root n = false /\ under rec n = false /\ under tmp n = false.

(** Everything else stays as it is; a clone of an old dataset may become a
    clone of the restored one. *)
Definition same_content (e e' : Dataset) : Prop :=
  guid e' = guid e /\ data e' = data e /\ snaps e' = snaps e /\ mount e' = mount e.
Definition others (v : View) : Prop := forall n, outside n ->
  match v0 !! n, v !! n with Some e, Some e' => same_content e e' | None, None => True | _, _ => False end.

Definition clone_of (d0 d : Dataset) : Prop := snaps d0 !! snapshot = Some (data d) /\ snaps d = ∅ /\ origin d = Some (guid d0).
Definition moved (d0 d : Dataset) : Prop :=
  guid d = guid d0 /\ data d = data d0 /\ snaps d = snaps d0 /\ origin d = origin d0.
(** Restored, and promoted or not yet. *)
Definition restored (d0 d1 d2 : Dataset) : Prop :=
  guid d1 = guid d0 /\ data d1 = data d0 /\ snaps d0 !! snapshot = Some (data d2) /\
  ((origin d2 = Some (guid d0) /\ snaps d2 = ∅ /\ origin d1 = None) \/ origin d2 = None).

Definition aligned (R : Dataset -> Dataset -> Dataset -> Prop) (a b : string) (v : View) : Prop := forall s, rooted s ->
  match v0 !! (root +:+ s), v !! (a +:+ s), v !! (b +:+ s) with
  | Some d0, Some d1, Some d2 => R d0 d1 d2
  | None, None, None => True
  | _, _, _ => False
  end.

Definition absent (a : string) (v : View) : Prop := forall s, rooted s -> v !! (a +:+ s) = None.
Definition before (v : View) : Prop :=
  (forall s, rooted s -> v !! (root +:+ s) = v0 !! (root +:+ s)) /\ absent rec v /\
  (forall s d, rooted s -> v !! (tmp +:+ s) = Some d -> exists d0, v0 !! (root +:+ s) = Some d0 /\ clone_of d0 d).
Definition between (v : View) : Prop := absent root v /\ aligned (fun d0 d1 d2 => moved d0 d1 /\ clone_of d0 d2) rec tmp v.
Definition after (v : View) : Prop := absent tmp v /\ aligned restored rec root v.

Definition sane (v : View) : Prop := guids v /\ others v.
Definition Inv (v : View) : Prop := sane v /\ (before v \/ between v \/ after v).

Hypothesis Hr : restorable.

(** ** The three trees share no names *)

Ltac apart := 
  apply not_true_is_false; intros (? & Hs' & E)%under_spec; unfold rec, recovery, tmp, temporary in E;
  rewrite ?append_assoc in E; apply append_inj, (f_equal chars) in E;
  rewrite ?chars_app in E; try (by cbn in E; discriminate E).
Lemma root_rec s : under root (rec +:+ s) = false.
Proof. apply under_apart. by exists "-"%char, (chars ("recovery-" +:+ op)). Qed.
Lemma root_tmp s : under root (tmp +:+ s) = false.
Proof. apply under_apart. by exists "-"%char, (chars ("restore-" +:+ op)). Qed.
Lemma rec_tmp s : under rec (tmp +:+ s) = false.
Proof. apart. Qed.
Lemma tmp_rec s : under tmp (rec +:+ s) = false.
Proof. apart. Qed.
Lemma rec_root s : rooted s -> under rec (root +:+ s) = false.
Proof. intros [->|[t ->]]; apart. Qed.
Lemma tmp_root s : rooted s -> under tmp (root +:+ s) = false.
Proof. intros [->|[t ->]]; apart. Qed.

Lemma tree_ne a b s s' : rooted s -> under a (b +:+ s') = false -> a +:+ s <> b +:+ s'.
Proof. intros Hs Hf E. rewrite <- E, under_self in Hf by done. done. Qed.
Lemma lookup_apart a b s s' d (v : View) : rooted s -> under a (b +:+ s') = false -> <[b +:+ s' := d]> v !! (a +:+ s) = v !! (a +:+ s).
Proof. intros Hs Hf. apply lookup_insert_ne. intros E. by apply (tree_ne a b s s' Hs Hf). Qed.
Lemma lookup_tree a s s' d (v : View) : <[a +:+ s' := d]> v !! (a +:+ s) = if decide (s = s') then Some d else v !! (a +:+ s).
Proof.
  destruct (decide (s = s')) as [->|Hne]; [apply lookup_insert_eq|]. apply lookup_insert_ne. intros E. by apply append_inj in E.
Qed.
Lemma outside_ne a n s : under a n = false -> rooted s -> n <> a +:+ s.
Proof. intros Hf Hs ->. by rewrite under_self in Hf. Qed.

Lemma parent_outside : outside parent.
Proof.
  assert (Hl : forall a s t, a = parent +:+ "/" +:+ s -> parent <> a +:+ t).
  { intros a s t -> E. rewrite <- (append_nil parent) in E at 1. rewrite !append_assoc in E. by apply append_inj in E. }
  split_and!; apply not_true_is_false; intros (s & _ & E)%under_spec; revert E.
  - by apply (Hl _ leaf).
  - apply (Hl _ (leaf +:+ "-recovery-" +:+ op)). unfold rec, recovery, root. by rewrite !append_assoc.
  - apply (Hl _ (leaf +:+ "-restore-" +:+ op)). unfold tmp, temporary, root. by rewrite !append_assoc.
Qed.
Lemma parent_there v : others v -> is_Some (v !! parent).
Proof.
  intros Ho. specialize (Ho _ parent_outside). destruct (r_parent Hr) as (_ & _ & [d Hd]). rewrite Hd in Ho.
  by destruct (v !! parent).
Qed.
Lemma homed_beside v t : others v -> "/"%char ∉ chars t -> homed v (root +:+ t).
Proof.
  intros Ho Ht. exists parent, (leaf +:+ t). split_and!.
  - unfold root. by rewrite !append_assoc.
  - rewrite chars_app. destruct (r_parent Hr) as (_ & Hl & _). intros [?|?]%elem_of_app; done.
  - by apply parent_there.
Qed.
Lemma homed_rec v : others v -> homed v rec.
Proof.
  intros Ho. unfold rec, recovery. apply homed_beside; [done|]. rewrite chars_app.
  pose proof (r_op Hr). intros [Hin|?]%elem_of_app; [|done]. by apply (bool_decide_eq_true_2 _) in Hin.
Qed.
Lemma homed_tmp v : others v -> homed v tmp.
Proof.
  intros Ho. unfold tmp, temporary. apply homed_beside; [done|]. rewrite chars_app.
  pose proof (r_op Hr). intros [Hin|?]%elem_of_app; [|done]. by apply (bool_decide_eq_true_2 _) in Hin.
Qed.
Lemma homed_root v : others v -> homed v root.
Proof. intros Ho. rewrite <- (append_nil root). apply homed_beside; [done|]. by intros ?%elem_of_nil. Qed.
Lemma rooted_nil : rooted "".
Proof. by left. Qed.
Lemma under_nil_split a n : under a n = true -> exists s, rooted s /\ n = a +:+ s.
Proof. apply under_spec. Qed.

(** ** What each command does *)

Lemma others_insert v a s d : others v -> under root (a +:+ s) = true \/ under rec (a +:+ s) = true \/ under tmp (a +:+ s) = true ->
  others (<[a +:+ s := d]> v).
Proof.
  intros Ho Hin n (H1 & H2 & H3). rewrite lookup_insert_ne; [by apply Ho|]. intros <-. destruct Hin as [?|[?|?]]; congruence.
Qed.

Lemma before_clone v v' s d0 : sane v -> before v -> rooted s -> v0 !! (root +:+ s) = Some d0 ->
  zeffect (ZClone ((root +:+ s) +:+ "@" +:+ snapshot) (tmp +:+ s)) v v' ->
  sane v' /\ before v' /\ is_Some (v' !! (tmp +:+ s)) /\ (forall s', rooted s' -> is_Some (v !! (tmp +:+ s')) -> is_Some (v' !! (tmp +:+ s'))).
Proof.
  intros [Hg Ho] (Hroot & Hrec & Htmp) Hs Hd0 He.
  inversion He as [| | |src snap ? d x g ? Hnone Hh Hsrc Hx Hat Hfresh Ecmd| | |]; subst.
  assert (src = root +:+ s /\ snap = snapshot) as [-> ->].
  { by apply snapshot_inj in Ecmd; [|done|apply part_no_at, (r_part Hr)]. }
  rewrite Hroot, Hd0 in Hsrc by done. injection Hsrc as <-.
  split; [split|].
  - intros n k e e'. rewrite !lookup_insert. case_decide; case_decide; intros; simplify_eq; try done; cbn in *.
    + by destruct (Hfresh k e').
    + by destruct (Hfresh n e).
    + by eapply Hg.
  - apply others_insert; [done|]. right. right. by apply under_self.
  - split; [split_and!|].
    + intros s' Hs'. rewrite lookup_apart by (done || apply root_tmp). by apply Hroot.
    + intros s' Hs'. rewrite lookup_apart by (done || apply rec_tmp). by apply Hrec.
    + intros s' d Hs'. rewrite lookup_tree. case_decide as E; [subst s'|by apply Htmp]. intros [= <-]. by exists d0.
    + split; [by rewrite lookup_insert_eq|]. intros s' _ Hs'. rewrite lookup_tree. by case_decide.
Qed.

Lemma rename_inv r a b v v' : zeffect (ZRename r a b) v v' ->
  (forall s, rooted s -> v' !! (b +:+ s) = v !! (a +:+ s) /\ v' !! (a +:+ s) = None) /\
  (forall n, under a n = false -> under b n = false -> v' !! n = v !! n).
Proof. intros He. by inversion He; subst. Qed.

Lemma guids_rename r a b v v' : zeffect (ZRename r a b) v v' -> guids v -> guids v'.
Proof.
  intros [Htree Hsame]%rename_inv Hg.
  assert (Hfrom : forall n d, v' !! n = Some d -> exists k, v !! k = Some d /\
    ((under a k = false /\ k = n) \/ exists s, rooted s /\ k = a +:+ s /\ n = b +:+ s)).
  { intros n d Hn. destruct (under b n) eqn:Hb.
    - apply under_spec in Hb as (s & Hs & ->). destruct (Htree s Hs) as [E _]. rewrite E in Hn. eauto 10.
    - destruct (under a n) eqn:Ha.
      + apply under_spec in Ha as (s & Hs & ->). destruct (Htree s Hs) as [_ E]. by rewrite E in Hn.
      + rewrite Hsame in Hn by done. eauto. }
  intros n k d e Hn Hk Hde. apply Hfrom in Hn as (n' & Hn & Hn'), Hk as (k' & Hk & Hk').
  assert (n' = k') as <- by by eapply Hg.
  destruct Hn' as [[Hn1 <-]|(s & Hs & -> & ->)], Hk' as [[Hk1 <-]|(t & Ht & E & ->)]; try done.
  - subst. by rewrite under_self in Hn1.
  - by rewrite under_self in Hk1.
  - by apply append_inj in E as ->.
Qed.

Definition complete (v : View) : Prop := forall s, rooted s -> is_Some (v0 !! (root +:+ s)) -> is_Some (v !! (tmp +:+ s)).
Definition mounted (a : string) (v : View) : Prop := forall s d, rooted s -> v !! (a +:+ s) = Some d -> mount d = Some ("/" +:+ (a +:+ s)).

Lemma before_rename v v' : sane v -> before v -> complete v -> zeffect (ZRename false root rec) v v' -> sane v' /\ between v'.
Proof.
  intros [Hg Ho] (Hroot & Hrec & Htmp) Hc He. pose proof (guids_rename _ _ _ _ _ He Hg) as Hg'.
  apply rename_inv in He as [Htree Hsame]. split; [split; [done|]|split].
  - intros n (H1 & H2 & H3). rewrite Hsame by done. by apply Ho.
  - intros s Hs. by apply Htree.
  - intros s Hs. destruct (Htree s Hs) as [-> _]. rewrite Hsame by (apply root_tmp || apply rec_tmp). rewrite Hroot by done.
    destruct (v0 !! (root +:+ s)) as [d0|] eqn:E0.
    + destruct (Hc s Hs) as [d2 E2]; [by rewrite E0|]. rewrite E2. split; [done|].
      destruct (Htmp s d2 Hs E2) as (d0' & E0' & Hcl). congruence.
    + destruct (v !! (tmp +:+ s)) eqn:E2; [|done]. destruct (Htmp s _ Hs E2) as (d0' & E0' & _). congruence.
Qed.

Lemma between_rename v v' : sane v -> between v -> zeffect (ZRename false tmp root) v v' ->
  sane v' /\ after v' /\ (mounted rec v -> mounted rec v').
Proof.
  intros [Hg Ho] (Hroot & Hal) He. pose proof (guids_rename _ _ _ _ _ He Hg) as Hg'.
  apply rename_inv in He as [Htree Hsame].
  assert (Hrec : forall s, rooted s -> v' !! (rec +:+ s) = v !! (rec +:+ s)) by (intros s Hs; apply Hsame; [apply tmp_rec|apply root_rec]).
  split_and!.
  - split; [done|]. intros n (H1 & H2 & H3). rewrite Hsame by done. by apply Ho.
  - split; [intros s Hs; by apply Htree|]. intros s Hs. destruct (Htree s Hs) as [-> _]. rewrite Hrec by done.
    specialize (Hal s Hs). destruct (v0 !! (root +:+ s)) as [d0|] eqn:E0, (v !! (rec +:+ s)) as [d1|], (v !! (tmp +:+ s)) as [d2|]; try done.
    destruct Hal as [(Hg1 & Hd1 & Hs1 & Ho1) (Hx & Hs2 & Ho2)]. split_and!; try done. left. split_and!; try done.
    destruct (r_tree Hr s d0 Hs E0) as (_ & _ & Hn). congruence.
  - intros Hm s d Hs. rewrite Hrec by done. by apply Hm.
Qed.

(** Setting a mountpoint. *)
Lemma set_inv v v' m n : zeffect (ZSet "mountpoint" m n) v v' -> exists d, v !! n = Some d /\ v' = <[n := set_mount m d]> v.
Proof. intros He. inversion He; subst; [eauto|done]. Qed.
Lemma guids_set v n m d : guids v -> v !! n = Some d -> guids (<[n := set_mount m d]> v).
Proof.
  intros Hg Hn k1 k2 d1 d2. rewrite !lookup_insert. case_decide; case_decide; intros; simplify_eq/=; try done; by eapply Hg.
Qed.
Lemma sane_set v a s m d : sane v -> under root (a +:+ s) = true \/ under rec (a +:+ s) = true \/ under tmp (a +:+ s) = true ->
  v !! (a +:+ s) = Some d -> sane (<[a +:+ s := set_mount m d]> v).
Proof. intros [Hg Ho] Ha Hd. split; [by apply guids_set|by apply others_insert]. Qed.
Lemma between_set v s m d : between v -> rooted s -> v !! (rec +:+ s) = Some d -> between (<[rec +:+ s := set_mount m d]> v).
Proof.
  intros [Hroot Hal] Hs Hd. split.
  - intros s' Hs'. rewrite lookup_apart by (done || apply root_rec). by apply Hroot.
  - intros s' Hs'. rewrite lookup_tree, lookup_apart by (done || apply tmp_rec). specialize (Hal s' Hs').
    case_decide as E; [subst s'|done]. rewrite Hd in Hal. by destruct (v0 !! (root +:+ s)), (v !! (tmp +:+ s)).
Qed.
Lemma after_set_rec v s m d : after v -> rooted s -> v !! (rec +:+ s) = Some d -> after (<[rec +:+ s := set_mount m d]> v).
Proof.
  intros [Hroot Hal] Hs Hd. split.
  - intros s' Hs'. rewrite lookup_apart by (done || apply tmp_rec). by apply Hroot.
  - intros s' Hs'. rewrite lookup_tree, lookup_apart by (done || apply root_rec). specialize (Hal s' Hs').
    case_decide as E; [subst s'|done]. rewrite Hd in Hal. by destruct (v0 !! (root +:+ s)), (v !! (root +:+ s)).
Qed.
Lemma after_set_root v s m d : after v -> rooted s -> v !! (root +:+ s) = Some d -> after (<[root +:+ s := set_mount m d]> v).
Proof.
  intros [Hroot Hal] Hs Hd. split.
  - intros s' Hs'. rewrite lookup_apart by (done || by apply tmp_root). by apply Hroot.
  - intros s' Hs'. rewrite lookup_tree, lookup_apart by (done || by apply rec_root). specialize (Hal s' Hs').
    case_decide as E; [subst s'|done]. rewrite Hd in Hal. by destruct (v0 !! (root +:+ s)), (v !! (rec +:+ s)).
Qed.

(** Promoting a restored dataset. *)
Definition independent (s : string) (v : View) : Prop := forall d, v !! (root +:+ s) = Some d -> origin d = None.

Lemma promote_inv v v' s : sane v -> after v -> rooted s -> zeffect (ZPromote (root +:+ s)) v v' ->
  exists d o, v !! (root +:+ s) = Some d /\ v !! (rec +:+ s) = Some o /\ origin d = Some (guid o) /\ independent s v' /\
    (forall k, match v !! k, v' !! k with
      | Some e, Some e' => guid e' = guid e /\ data e' = data e /\ mount e' = mount e /\
          (k <> root +:+ s -> k <> rec +:+ s -> snaps e' = snaps e /\
             (origin e' = origin e \/ (origin e = Some (guid o) /\ origin e' = Some (guid d))))
      | None, None => True
      | _, _ => False
      end).
Proof.
  intros [Hg _] [_ Hal] Hs He. inversion He as [| | | | |? d m o ? ? Hd Ho Hne Hor Hall Hn Hm|]; subst.
  specialize (Hal s Hs). rewrite Hd in Hal.
  destruct (v0 !! (root +:+ s)) as [d0|] eqn:E0, (v !! (rec +:+ s)) as [d1|] eqn:E1; try done.
  destruct Hal as (Hg1 & Hd1 & Hx & [(Ho2 & Hs2 & Ho1)|Ho2]); [|congruence].
  assert (m = rec +:+ s) as -> by (apply (Hg _ _ _ _ Ho E1); congruence). rewrite E1 in Ho. injection Ho as <-.
  exists d, d1. split_and!; try done. intros d' Hd'. by rewrite (Hn d' Hd').
Qed.

Lemma sane_promote v v' s : sane v -> after v -> rooted s -> zeffect (ZPromote (root +:+ s)) v v' -> sane v'.
Proof.
  intros Hsane Haf Hs He. destruct (promote_inv v v' s Hsane Haf Hs He) as (d & o & Hd & Ho & Hor & Hi & Hall).
  destruct Hsane as [Hg Hoth]. split.
  - intros n k e1 e2 H1 H2 E. pose proof (Hall n) as A1. pose proof (Hall k) as A2. rewrite H1 in A1. rewrite H2 in A2.
    destruct (v !! n) as [f1|] eqn:F1; [|done]. destruct (v !! k) as [f2|] eqn:F2; [|done].
    destruct A1 as [A1 _], A2 as [A2 _]. eapply Hg; [done..|congruence].
  - intros n Hout. specialize (Hoth n Hout). specialize (Hall n). destruct Hout as (H1 & H2 & H3).
    destruct (v0 !! n) as [e|], (v !! n) as [f|], (v' !! n) as [f'|]; try done.
    destruct Hoth as (G1 & G2 & G3 & G4), Hall as (A1 & A2 & A3 & A4).
    destruct A4 as [A4 _]; [by apply outside_ne..|]. split_and!; congruence.
Qed.

Lemma after_promote v v' s : sane v -> after v -> rooted s -> zeffect (ZPromote (root +:+ s)) v v' ->
  after v' /\ (forall s', rooted s' -> independent s' v -> independent s' v') /\ independent s v' /\
  (mounted rec v -> mounted rec v') /\ (mounted root v -> mounted root v').
Proof.
  intros Hsane Haf Hs He. destruct (promote_inv v v' s Hsane Haf Hs He) as (d & o & Hd & Ho & Hor & Hi & Hall).
  destruct Hsane as [Hg Hoth], Haf as [Habs Hal].
  assert (Hmount : forall a, mounted a v -> mounted a v').
  { intros a Hm s' e' Hs' He'. specialize (Hall (a +:+ s')). rewrite He' in Hall.
    destruct (v !! (a +:+ s')) as [e|] eqn:Ee; [|done]. destruct Hall as (_ & _ & -> & _). by apply Hm. }
  assert (Hother : forall s' e', rooted s' -> s' <> s -> v' !! (root +:+ s') = Some e' ->
    exists e, v !! (root +:+ s') = Some e /\ snaps e' = snaps e /\ origin e' = origin e /\ data e' = data e).
  { intros s' e' Hs' Hne He'. pose proof (Hall (root +:+ s')) as A. rewrite He' in A.
    destruct (v !! (root +:+ s')) as [e|] eqn:Ee; [|done]. exists e. destruct A as (A1 & A2 & A3 & A4).
    destruct A4 as [A4 A5]; [by intros E%append_inj|apply tree_ne; [done|apply root_rec]|].
    split_and!; try done. destruct A5 as [A5|[A5 A6]]; [done|]. exfalso.
    specialize (Hal s' Hs'). rewrite Ee in Hal. destruct (v0 !! (root +:+ s')) as [d0|], (v !! (rec +:+ s')) as [d1|] eqn:E1; try done.
    destruct Hal as (Hg1 & _ & _ & [(Ho2 & _ & _)|Ho2]); [|congruence].
    apply Hne. apply (append_inj rec). apply (Hg _ _ _ _ E1 Ho). congruence. }
  split_and!; [split| |done|by apply Hmount..].
  - intros s' Hs'. specialize (Hall (tmp +:+ s')). rewrite Habs in Hall by done. by destruct (v' !! (tmp +:+ s')).
  - intros s' Hs'. specialize (Hal s' Hs').
    pose proof (Hall (rec +:+ s')) as A1. pose proof (Hall (root +:+ s')) as A2.
    destruct (v0 !! (root +:+ s')) as [d0|] eqn:E0, (v !! (rec +:+ s')) as [d1|] eqn:E1, (v !! (root +:+ s')) as [d2|] eqn:E2;
      destruct (v' !! (rec +:+ s')) as [e1|] eqn:F1, (v' !! (root +:+ s')) as [e2|] eqn:F2; try done.
    destruct Hal as (G1 & G2 & G3 & G4), A1 as (B1 & B2 & _ & B4), A2 as (C1 & C2 & _ & _). split_and!; [congruence..|].
    destruct (decide (s' = s)) as [->|Hne]; [right; by apply Hi|].
    destruct (Hother s' e2 Hs' Hne F2) as (e & Ee & K1 & K2 & K3). simplify_eq.
    destruct G4 as [(G4 & G5 & G6)|G4]; [left|right; congruence]. split_and!; [congruence..|].
    destruct B4 as [_ [B5|[B5 _]]]; [apply not_eq_sym, tree_ne; [done|apply root_rec]|by intros E%append_inj|congruence|congruence].
  - intros s' Hs' Hind e' He'. destruct (decide (s' = s)) as [->|Hne]; [by apply Hi|].
    destruct (Hother s' e' Hs' Hne He') as (e & Ee & K1 & K2 & K3). rewrite K2. by apply Hind.
Qed.

(** ** The programs *)

Section Programs.
Context {P : Type} `{!Tool zcmd zout View P, !ToolLaws zcmd zout View P}.
#[local] Abbreviation Coop := (Cooperative zcmd zout View P).
#[local] Abbreviation hoare := (triple (C:=zcmd) (O:=zout) (P:=P) Inv (~ Coop)).
#[local] Abbreviation cmd := (prog string (World P)).

Lemma hoare_Execute {A} (h : cmd A) (Pre : View -> Prop) Q : (forall v, Pre v -> Inv v) -> (forall a v, Q a v -> Inv v) ->
  hoare Pre h Q -> hoare Pre (Execute h) Q.
Proof.
  intros Hi Hq Hh. unfold Execute. eapply triple_bind; [apply (triple_query Inv _ ltac:(done) Request); [done|]|].
  { intros v Hv. split; [by apply Hi|done]. }
  skip. eapply triple_bind; [eapply triple_pre; [|exact Hh]; by intros v [Hv _]|].
  intros a. eapply triple_bind; [apply (triple_query Inv _ ltac:(done) Reply (Q a)); [done|]|].
  { intros v Hv. split; [by eapply Hq|done]. }
  skip. apply triple_ret. by intros v [Hv _].
Qed.
Lemma hoare_check b e (Pre : View -> Prop) : b = true -> hoare Pre (check b e) (fun _ => Pre).
Proof. intros ->. by apply triple_ret. Qed.
Lemma hoare_has ds (Pre : View -> Prop) : (forall v, Pre v -> Inv v) ->
  hoare Pre (exists_ ds) (fun b v => Pre v /\ if b : bool then is_Some (v !! ds) else Coop -> v !! ds = None).
Proof.
  intros Hi. unfold exists_. eapply triple_bind; [by apply (triple_try Inv _ (ZExists ds))|].
  intros [out|e]; apply triple_ret; intros v [Hv Ha]; split; try done.
  intros HC. specialize (Ha HC). cbn in Ha. destruct (v !! ds); [|done]. destruct Ha. eauto.
Qed.
Lemma triple_each {A} (f : A -> cmd unit) (L : list A) (R : list A -> View -> Prop) :
  (forall l1 x l2, L = (l1 ++ x :: l2)%list -> hoare (R l1) (f x) (fun _ => R (l1 ++ [x])%list)) ->
  hoare (R []) (each f L) (fun _ => R L).
Proof.
  intros Hf. assert (Hgen : forall l2 l1, L = (l1 ++ l2)%list -> hoare (R l1) (each f l2) (fun _ => R L)); [|by apply (Hgen L [])].
  induction l2 as [|x l2 IH]; intros l1 E; cbn [each].
  - apply triple_ret. intros v Hv. by rewrite E, app_nil_r.
  - eapply triple_bind; [by eapply Hf|]. skip. apply (IH (l1 ++ [x])%list). by rewrite <- app_assoc.
Qed.

Lemma valid_root s : rooted s -> is_Some (v0 !! (root +:+ s)) -> validDataset (root +:+ s) = true.
Proof. intros Hs [d Hd]. by apply (r_tree Hr s d). Qed.
Lemma valid_beside a s : validDataset a = true -> rooted s -> is_Some (v0 !! (root +:+ s)) -> validDataset (a +:+ s) = true.
Proof. intros Ha Hs Hd. apply (valid_moved root); [done|by apply valid_root|done]. Qed.
Lemma root_valid : validDataset root = true.
Proof. rewrite <- (append_nil root). apply valid_root; [apply rooted_nil|]. rewrite append_nil. apply (r_root Hr). Qed.

(** Cloning the tree. *)
Definition cloned (L : list string) (v : View) : Prop := sane v /\ before v /\ forall s, rooted s -> root +:+ s ∈ L -> is_Some (v !! (tmp +:+ s)).
Lemma cloned_Inv L v : cloned L v -> Inv v.
Proof. intros (Hs & Hb & _). split; auto. Qed.

Lemma hoare_clone node L s : rooted s -> is_Some (v0 !! (root +:+ s)) ->
  hoare (fun v => cloned L v /\ homed v (tmp +:+ s))
    (dataset_clone node ((root +:+ s) +:+ "@" +:+ snapshot) (tmp +:+ s)) (fun _ v => cloned (L ++ [root +:+ s]) v).
Proof.
  intros Hs [d0 Hd0]. cbn. apply hoare_Execute; [by intros v [Hv%cloned_Inv _]|by intros _ v Hv%cloned_Inv|].
  unfold datasetClone. eapply triple_bind; [apply hoare_check|skip].
  { rewrite valid_snapshot, valid_beside; [done|apply (r_valid Hr)|done|by eauto|apply valid_root; eauto|apply (r_part Hr)]. }
  eapply triple_bind; [apply hoare_has; by intros v [Hv%cloned_Inv _]|]. intros b. apply triple_case.
  intros v [[Hcl Hh] Hb]. destruct b.
  - apply triple_ret. intros ? ->. destruct Hcl as (Hsane & Hbef & Hdone). split_and!; try done.
    intros s' Hs' [Hin|E%list_elem_of_singleton]%elem_of_app; [by apply Hdone|]. by apply append_inj in E as ->.
  - destruct Hcl as (Hsane & Hbef & Hdone). apply triple_run; [done|done| |].
    + intros ? ->. split; [split; auto|]. intros HC. split_and!; [by apply Hb|done|].
      exists (root +:+ s), snapshot, d0. split_and!; [done|apply part_no_at, (r_part Hr)| |by apply (r_tree Hr s d0)].
      destruct Hbef as [-> _]; done.
    + intros ? v' -> He. destruct (before_clone v v' s d0 Hsane Hbef Hs Hd0 He) as (Hs' & Hb' & Hn & Hk).
      assert (cloned (L ++ [root +:+ s]) v') as Hcl'; [|split; [by eapply cloned_Inv|done]].
      split_and!; try done. intros s' Hss [Hin|E%list_elem_of_singleton]%elem_of_app; [by apply Hk, Hdone|].
      by apply append_inj in E as ->.
Qed.

(** The listing of a tree: its datasets, parents first. *)
Definition tree_list (L : list string) : Prop :=
  (forall n, n ∈ L <-> exists s, rooted s /\ n = root +:+ s /\ is_Some (v0 !! (root +:+ s))) /\
  (forall l1 n l2, L = (l1 ++ n :: l2)%list -> Forall (fun k => under n k = false) l1).

Lemma tree_parent L l1 s l2 v : tree_list L -> L = (l1 ++ (root +:+ s) :: l2)%list -> rooted s -> cloned l1 v -> homed v (tmp +:+ s).
Proof.
  intros [Hall Hord] E Hs (Hsane & Hbef & Hdone).
  assert (Hin : is_Some (v0 !! (root +:+ s))).
  { assert (root +:+ s ∈ L) as (s' & Hs' & E'%append_inj & Hd)%Hall; [|by rewrite E'].
    rewrite E. apply elem_of_app. right. by constructor. }
  destruct (decide (s = "")) as [->|Hne]; [rewrite append_nil; by apply homed_tmp, Hsane|].
  destruct (r_homed Hr s Hs Hne Hin) as (s' & l & Hs' & -> & Hl & Hd').
  exists (tmp +:+ s'), l. split_and!; [by rewrite append_assoc|done|]. apply Hdone; [done|].
  assert (root +:+ s' ∈ L) as Hin' by (apply Hall; eauto).
  rewrite E in Hin'. apply elem_of_app in Hin' as [Hin'|[E'|Hin']%elem_of_cons]; [done| |].
  - apply append_inj, (f_equal (List.length ∘ chars)) in E'. cbn in E'. rewrite !chars_app, !length_app in E'. cbn in E'. lia.
  - exfalso. apply list_elem_of_split in Hin' as (m1 & m2 & ->).
    specialize (Hord (l1 ++ (root +:+ s' +:+ "/" +:+ l) :: m1)%list (root +:+ s') m2).
    rewrite Forall_forall in Hord. unfold not in *. assert (under (root +:+ s') (root +:+ s' +:+ "/" +:+ l) = true) as Hu.
    { apply under_spec. exists ("/" +:+ l). split; [right; eauto|by rewrite append_assoc]. }
    rewrite Hord in Hu; [done|by rewrite <- app_assoc; cbn|]. apply elem_of_app. right. by constructor.
Qed.

Lemma hoare_clones node L : tree_list L ->
  hoare (cloned []) (each (fun n => dataset_clone node (n +:+ "@" +:+ snapshot) (tmp +:+ TrimPrefix n root)) L) (fun _ => cloned L).
Proof.
  intros HL. apply triple_each. intros l1 x l2 E.
  assert (x ∈ L) as (s & Hs & -> & Hd)%HL by (rewrite E; apply elem_of_app; right; by constructor).
  rewrite TrimPrefix_app. eapply triple_pre; [|by apply hoare_clone]. intros v Hv. split; [done|]. by eapply tree_parent.
Qed.

(** Renaming a tree. *)
Lemma hoare_rename node a b (Pre Q : View -> Prop) : validDataset a = true -> validDataset b = true ->
  (forall v, Pre v -> Inv v /\ is_Some (v !! a) /\ v !! b = None /\ homed v b /\ below a b = false /\ below b a = false) ->
  (forall v v', Pre v -> zeffect (ZRename false a b) v v' -> Inv v' /\ Q v') -> (forall v, Q v -> Inv v) ->
  hoare Pre (dataset_rename node a b) (fun _ => Q).
Proof.
  intros Ha Hb Hpre Hstep Hq. cbn. apply hoare_Execute; [by intros v [Hv _]%Hpre|by intros _|].
  unfold datasetRename. eapply triple_bind; [apply hoare_check; by rewrite Ha, Hb|skip].
  eapply triple_bind; [apply hoare_has; by intros v [Hv _]%Hpre|]. intros has.
  eapply (triple_bind _ _ _ _ _ (fun done v => Pre v /\ done = false)).
  - destruct has; [apply triple_ret; by intros v [Hv _]|].
    eapply triple_post; [|apply hoare_has; by intros v [[Hv _]%Hpre _]].
    intros done v [[Hv _] Hd]. split; [done|]. destruct done; [|done]. destruct (Hpre v Hv) as (_ & _ & Hn & _).
    rewrite Hn in Hd. by destruct Hd.
  - intros done. apply triple_pure. intros ->. apply triple_run; [done|done| |done].
    intros v Hv. destruct (Hpre v Hv) as (HI & H1 & H2 & H3 & H4 & H5). split; [done|]. intros _. by split_and!.
Qed.

(** Releasing and setting the mountpoints of a tree, at a stage [K] of the swap
    where the tree [a] has the names of the old tree. *)
Section Mountpoints.
Variables (K : View -> Prop) (a : string) (names : list string).
Hypothesis K_inv : forall v, K v -> Inv v.
Hypothesis K_dom : forall v s, K v -> rooted s -> is_Some (v !! (a +:+ s)) <-> is_Some (v0 !! (root +:+ s)).
Hypothesis K_set : forall v s m d, K v -> rooted s -> v !! (a +:+ s) = Some d -> K (<[a +:+ s := set_mount m d]> v).
Hypothesis a_valid : validDataset a = true.
Hypothesis names_all : forall n, n ∈ names <-> exists s, rooted s /\ n = a +:+ s /\ is_Some (v0 !! (root +:+ s)).

Definition released (v : View) (x : string) : Prop := forall n d, v !! n = Some d -> below x n = true -> mount d = Some "none".

Lemma below_in_tree v x n : K v -> x ∈ names -> is_Some (v !! n) -> below x n = true -> n ∈ names.
Proof.
  intros HK (s & Hs & -> & Hd)%names_all Hn Hb. unfold below in Hb. apply HasPrefix_split in Hb as [r ->].
  apply names_all. exists (s +:+ "/" +:+ r). assert (Hs' : rooted (s +:+ "/" +:+ r)).
  { right. destruct Hs as [->|[t ->]]; [by exists r|exists (t +:+ "/" +:+ r); by rewrite !append_assoc]. }
  split_and!; [done|by rewrite !append_assoc|]. apply (K_dom v); [done..|]. by rewrite !append_assoc in *.
Qed.

Lemma hoare_set node x value (F G : View -> Prop) : x ∈ names -> settable "mountpoint" value = true ->
  (forall v, K v -> F v -> released v x) ->
  (forall v d, K v -> F v -> v !! x = Some d -> G (<[x := set_mount value d]> v)) ->
  hoare (fun v => K v /\ F v) (dataset_mountpoint node x value) (fun _ v => K v /\ G v).
Proof.
  intros (s & Hs & -> & Hd0)%names_all Hset Hready HG. cbn. apply hoare_Execute; [intros v [HK _]; auto|intros _ v [HK _]; auto|].
  unfold datasetSet. eapply triple_bind; [apply hoare_check; by apply valid_beside|skip].
  cbn [set_each]. eapply triple_bind; [by apply hoare_check|skip].
  eapply (triple_bind _ _ _ _ _ (fun _ v => K v /\ G v)); [|skip; by apply triple_ret].
  apply triple_run; [done|done| |].
  - intros v [HK HF]. split; [auto|]. intros _. split; [by apply K_dom|]. intros _. by apply Hready.
  - intros v v' [HK HF] (d & Hd & ->)%set_inv. assert (HK' : K (<[a +:+ s := set_mount value d]> v)) by by apply K_set.
    split; [auto|]. split; [done|by apply HG].
Qed.

Lemma hoare_release node :
  hoare K (each (fun name => dataset_mountpoint node name "none") (rev (merge_sort name_le names)))
    (fun _ v => K v /\ forall n d, n ∈ names -> v !! n = Some d -> mount d = Some "none").
Proof.
  set (L := merge_sort name_le names).
  eapply triple_pre; [|eapply triple_post; [|apply (triple_each _ (rev L) (fun done v => K v /\ forall n d, n ∈ done -> v !! n = Some d -> mount d = Some "none"))]].
  - intros v HK. split; [done|]. by intros n d ?%elem_of_nil.
  - cbn. intros _ v [HK Hm]. split; [done|]. intros n d Hn. apply Hm. rewrite list_elem_of_In, <- in_rev, <- list_elem_of_In.
    unfold L. by rewrite merge_sort_Permutation.
  - intros l1 x l2 E. assert (EL : L = (rev l2 ++ x :: rev l1)%list).
    { rewrite <- (rev_involutive L), E, rev_app_distr. cbn. by rewrite <- app_assoc. }
    assert (Hx : x ∈ names) by (rewrite <- (merge_sort_Permutation name_le); fold L; rewrite EL; apply elem_of_app; right; by constructor).
    apply hoare_set; [done|done| |].
    + intros v HK Hm n d Hd Hb. apply (Hm n d); [|done].
      destruct (mount_order names (rev l2) x (rev l1) n EL Hb) as [Hin _]; [by eapply below_in_tree|].
      by rewrite list_elem_of_In, <- in_rev, <- list_elem_of_In in Hin.
    + intros v d HK Hm Hd n e [Hn|E'%list_elem_of_singleton]%elem_of_app; [|subst n; by rewrite lookup_insert_eq; intros [= <-]].
      rewrite lookup_insert. case_decide; [by intros [= <-]|by apply Hm].
Qed.

Lemma hoare_mount node :
  hoare (fun v => K v /\ forall n d, n ∈ names -> v !! n = Some d -> mount d = Some "none")
    (each (fun name => dataset_mountpoint node name ("/" +:+ name)) (merge_sort name_le names))
    (fun _ v => K v /\ mounted a v).
Proof.
  set (L := merge_sort name_le names).
  eapply triple_pre; [|eapply triple_post; [|apply (triple_each _ L (fun done v => K v /\ forall n d, n ∈ names -> v !! n = Some d ->
    mount d = if bool_decide (n ∈ done) then Some ("/" +:+ n) else Some "none"))]].
  - intros v [HK Hm]. split; [done|]. intros n d Hn Hd. rewrite bool_decide_eq_false_2; [by eapply Hm|by intros ?%elem_of_nil].
  - cbn. intros _ v [HK Hm]. split; [done|]. intros s d Hs Hd. assert (a +:+ s ∈ names) as Hin.
    { apply names_all. exists s. split_and!; [done..|]. apply (K_dom v); eauto. }
    specialize (Hm _ _ Hin Hd). rewrite bool_decide_eq_true_2 in Hm; [done|]. unfold L. by rewrite merge_sort_Permutation.
  - intros l1 x l2 E.
    assert (Hx : x ∈ names) by (rewrite <- (merge_sort_Permutation name_le); fold L; rewrite E; apply elem_of_app; right; by constructor).
    apply hoare_set; [done| | |].
    + destruct (proj1 (names_all x) Hx) as (s & Hs & -> & Hd). by apply settable_mountpoint, valid_beside.
    + intros v HK Hm n d Hd Hb. assert (Hn : n ∈ names) by by eapply below_in_tree.
      destruct (mount_order names l1 x l2 n E Hb Hn) as [_ Hnot].
      rewrite (Hm n d Hn Hd). by rewrite bool_decide_eq_false_2.
    + intros v d HK Hm Hd n e Hn. rewrite lookup_insert. case_decide as Enx; [subst n; intros [= <-]|].
      * rewrite bool_decide_eq_true_2; [done|]. apply elem_of_app. right. by constructor.
      * intros He. rewrite (Hm n e Hn He). rewrite (bool_decide_ext (n ∈ (l1 ++ [x])%list) (n ∈ l1)); [done|].
        rewrite elem_of_app, list_elem_of_singleton. intuition congruence.
Qed.

Lemma hoare_mountpoints node source datasets : names = moved_names source a datasets ->
  hoare K (restoreMountpoints node source a datasets) (fun _ v => K v /\ mounted a v).
Proof.
  intros E. unfold restoreMountpoints. rewrite <- E. eapply triple_bind; [apply hoare_release|skip]. apply hoare_mount.
Qed.
End Mountpoints.

(** Promoting the restored tree. *)
Definition settled (L : list string) (v : View) : Prop :=
  sane v /\ after v /\ mounted rec v /\ mounted root v /\
  forall n s, n ∈ L -> rooted s -> promoted_name root n = root +:+ s -> independent s v.

Lemma hoare_promote node L s : rooted s -> is_Some (v0 !! (root +:+ s)) ->
  hoare (settled L) (dataset_promote node (root +:+ s)) (fun _ v => settled L v /\ independent s v).
Proof.
  assert (HI : forall L v, settled L v -> Inv v) by (intros ?? (?&?&_); split; auto).
  intros Hs Hd0. cbn. apply hoare_Execute; [by intros v Hv%HI|by intros _ v [Hv%HI _]|].
  unfold datasetPromote. eapply triple_bind; [apply hoare_check; by apply valid_root|skip].
  assert (Hpromote : hoare (fun v => settled L v /\ (Coop -> forall d, v !! (root +:+ s) = Some d -> origin d <> None))
      (run_ (ZPromote (root +:+ s))) (fun _ v => settled L v /\ independent s v)).
  { apply triple_run; [done|done| |].
    - intros v [Hv Hne]. split; [by eapply HI|]. intros HC. specialize (Hne HC). destruct Hv as (Hsane & [_ Hal] & _).
      specialize (Hal s Hs). destruct Hd0 as [d0 Hd0]. rewrite Hd0 in Hal.
      destruct (v !! (rec +:+ s)) as [d1|] eqn:E1, (v !! (root +:+ s)) as [d2|] eqn:E2; try done.
      destruct Hal as (G1 & G2 & G3 & [(G4 & G5 & G6)|G4]); [|by destruct (Hne d2)].
      exists d2, (rec +:+ s), d1. split_and!; [done|done|apply tree_ne; [done|apply root_rec]|congruence|]. rewrite G5. set_solver.
    - intros v v' [(Hsane & Haf & Hm1 & Hm2 & Hdone) _] He.
      destruct (after_promote v v' s Hsane Haf Hs He) as (Haf' & Hkeep & Hi & Hm1' & Hm2').
      pose proof (sane_promote v v' s Hsane Haf Hs He) as Hsane'.
      assert (settled L v') as Hset by (split_and!; try done; [by apply Hm1'|by apply Hm2'|]; intros n s' Hn Hs' E; apply Hkeep; [done|by eapply Hdone]).
      split; [by eapply HI|done]. }
  eapply triple_bind; [apply (triple_try Inv _ (ZGet "origin" (root +:+ s))); [done|apply HI]|].
  assert (Hthere : forall v, settled L v -> is_Some (v !! (root +:+ s))).
  { intros v (_ & [_ Hal] & _). specialize (Hal s Hs). destruct Hd0 as [d0 Hd0]. rewrite Hd0 in Hal.
    by destruct (v !! (rec +:+ s)), (v !! (root +:+ s)). }
  intros [out|e].
  - destruct (decide (TrimSpace (text out) = "-")) as [E|E].
    + apply triple_ret. intros v [Hv (d & Hd & Hor & _)]. specialize (Hor eq_refl). split; [done|]. intros d' Hd'. rewrite Hd in Hd'. injection Hd' as <-. by apply Hor.
    + eapply triple_pre; [|exact Hpromote]. intros v [Hv (d & Hd & Hor & _)]. specialize (Hor eq_refl). split; [done|]. intros _ d' Hd' Hn.
      rewrite Hd in Hd'. injection Hd' as <-. by apply E, Hor.
  - eapply triple_pre; [|exact Hpromote]. intros v [Hv Hnot]. split; [done|]. intros HC. destruct (Hnot HC). by apply Hthere.
Qed.

Lemma hoare_promotes node L :
  (forall n, n ∈ L -> under root (promoted_name root n) = true -> is_Some (v0 !! promoted_name root n)) ->
  hoare (settled []) (promoteTree node root L) (fun _ => settled L).
Proof.
  intros HL. unfold promoteTree. apply triple_each. intros l1 x l2 E.
  assert (Hx : x ∈ L) by (rewrite E; apply elem_of_app; right; by constructor).
  cbv zeta. destruct (under root (promoted_name root x)) eqn:Hu; cbn [negb].
  - destruct (proj1 (under_spec _ _) Hu) as (s & Hs & En). specialize (HL x Hx Hu). rewrite En in HL |- *.
    eapply triple_post; [|by apply hoare_promote]. cbn. intros _ v [(H1 & H2 & H3 & H4 & Hdone) Hi]. split_and!; try done.
    intros n s' [Hn|E1%list_elem_of_singleton]%elem_of_app Hs' E'; [by eapply Hdone|subst n]. rewrite En in E'. by apply append_inj in E' as <-.
  - apply triple_ret. intros v (H1 & H2 & H3 & H4 & Hdone). split_and!; try done.
    intros n s [Hn|E1%list_elem_of_singleton]%elem_of_app Hs E'; [by eapply Hdone|subst n]. by rewrite E', under_self in Hu.
Qed.

(** ** The whole swap *)

Definition lists (v : View) (ds : list string) : Prop :=
  (forall n, n ∈ ds <-> is_Some (v !! n) /\ under parent n = true) /\
  (forall l1 n l2, ds = (l1 ++ n :: l2)%list -> Forall (fun k => under n k = false) l1).
Definition swapped (v : View) : Prop :=
  sane v /\ after v /\ mounted rec v /\ mounted root v /\ forall s, rooted s -> independent s v.

Lemma root_parent : parent_of root = parent.
Proof. destruct (r_parent Hr) as (Hp & Hl & _). by apply parent_of_app. Qed.
Lemma hoare_list node : hoare Inv (dataset_list node (parent_of root)) (fun ds v => Inv v /\ lists v ds).
Proof.
  rewrite root_parent. cbn. apply hoare_Execute; [done|by intros ds v [Hv _]|].
  unfold datasetList. eapply triple_bind; [apply (triple_query Inv _ ltac:(done) (ZList parent) Inv); [done|]|].
  { intros v Hv. split; [done|]. destruct Hv as [[_ Ho] _]. by apply parent_there. }
  intros out. apply triple_ret. by intros v [Hv Ha].
Qed.

Lemma under_parent a t s : a = root +:+ t -> under parent (a +:+ s) = true.
Proof.
  intros ->. apply under_spec. exists ("/" +:+ leaf +:+ t +:+ s). split; [right; eauto|]. unfold root. by rewrite !append_assoc.
Qed.
Lemma lists_tree v ds a t s : a = root +:+ t -> lists v ds -> a +:+ s ∈ ds <-> is_Some (v !! (a +:+ s)).
Proof. intros Ha [Hl _]. rewrite Hl, (under_parent a t); [|done]. intuition. Qed.
Lemma rec_at : rec = root +:+ ("-recovery-" +:+ op).
Proof. done. Qed.
Lemma tmp_at : tmp = root +:+ ("-restore-" +:+ op).
Proof. done. Qed.
Lemma root_at : root = root +:+ "".
Proof. by rewrite append_nil. Qed.

(** What the listing says of the trees. *)
Lemma has_tree a ds v (f : string -> bool) t : a = root +:+ t -> lists v ds ->
  (forall s, rooted s -> f (a +:+ s) = true) -> (forall n, f n = true -> under a n = true) ->
  existsb f ds = true <-> exists s, rooted s /\ is_Some (v !! (a +:+ s)).
Proof.
  intros Ha Hl Hf Hu. rewrite existsb_exists. split.
  - intros (n & Hn%list_elem_of_In & (s & Hs & ->)%Hu%under_spec). exists s. split; [done|]. by apply (lists_tree v ds a t s).
  - intros (s & Hs & Hd). exists (a +:+ s). split; [|by apply Hf]. apply list_elem_of_In. by apply (lists_tree v ds a t s).
Qed.

Lemma dom_between v : between v -> forall s, rooted s ->
  (is_Some (v !! (rec +:+ s)) <-> is_Some (v0 !! (root +:+ s))) /\ (is_Some (v !! (tmp +:+ s)) <-> is_Some (v0 !! (root +:+ s))).
Proof.
  intros [_ Hal] s Hs. specialize (Hal s Hs).
  destruct (v0 !! (root +:+ s)), (v !! (rec +:+ s)), (v !! (tmp +:+ s)); try done; split; split; eauto; by intros [? ?].
Qed.
Lemma dom_after v : after v -> forall s, rooted s ->
  (is_Some (v !! (rec +:+ s)) <-> is_Some (v0 !! (root +:+ s))) /\ (is_Some (v !! (root +:+ s)) <-> is_Some (v0 !! (root +:+ s))).
Proof.
  intros [_ Hal] s Hs. specialize (Hal s Hs).
  destruct (v0 !! (root +:+ s)), (v !! (rec +:+ s)), (v !! (root +:+ s)); try done; split; split; eauto; by intros [? ?].
Qed.

(** The phases, as the three ways through the code share them. *)
Lemma mount_recovery node (K : View -> Prop) source ds :
  (K = (fun v => sane v /\ between v) \/ K = (fun v => sane v /\ after v)) ->
  (forall n, n ∈ moved_names source rec ds <-> exists s, rooted s /\ n = rec +:+ s /\ is_Some (v0 !! (root +:+ s))) ->
  hoare K (restoreMountpoints node source rec ds) (fun _ v => K v /\ mounted rec v).
Proof.
  intros HK Hn. apply (hoare_mountpoints K rec (moved_names source rec ds)); [..|done|done].
  - intros v. destruct HK as [-> | ->]; intros [Hs Hst]; split; auto.
  - intros v s. destruct HK as [-> | ->]; intros [_ Hst] Hs; [by apply dom_between|by apply dom_after].
  - intros v s m d. destruct HK as [-> | ->]; intros [Hsane Hst] Hs Hd; (split; [apply sane_set; [done| |done]; right; left; by apply under_self|]);
      [by apply between_set|by apply after_set_rec].
  - apply (r_valid Hr).
Qed.
Lemma mount_root node source ds :
  (forall n, n ∈ moved_names source root ds <-> exists s, rooted s /\ n = root +:+ s /\ is_Some (v0 !! (root +:+ s))) ->
  hoare (fun v => sane v /\ after v /\ mounted rec v) (restoreMountpoints node source root ds)
    (fun _ v => (sane v /\ after v /\ mounted rec v) /\ mounted root v).
Proof.
  intros Hn. apply (hoare_mountpoints (fun v => sane v /\ after v /\ mounted rec v) root (moved_names source root ds)); [..|apply root_valid|done|done].
  - intros v (Hs & Ha & _). split; auto.
  - intros v s (_ & Ha & _) Hs. by apply dom_after.
  - intros v s m d (Hsane & Ha & Hm) Hs Hd. split_and!.
    + apply sane_set; [done| |done]. left. by apply under_self.
    + by apply after_set_root.
    + intros s' d' Hs'. rewrite lookup_apart by (done || by apply rec_root). by apply Hm.
Qed.
Lemma promote_all node ds :
  (forall n, n ∈ ds -> under root (promoted_name root n) = true -> is_Some (v0 !! promoted_name root n)) ->
  (forall s, rooted s -> is_Some (v0 !! (root +:+ s)) -> exists n, n ∈ ds /\ promoted_name root n = root +:+ s) ->
  hoare (fun v => (sane v /\ after v /\ mounted rec v) /\ mounted root v) (promoteTree node root ds) (fun _ => swapped).
Proof.
  intros Hin Hall. eapply triple_pre; [|eapply triple_post; [|by apply (hoare_promotes node ds)]].
  - intros v ((H1 & H2 & H3) & H4). split_and!; try done. by intros n s ?%elem_of_nil.
  - cbn. intros _ v (H1 & H2 & H3 & H4 & H5). split_and!; try done. intros s Hs d Hd.
    assert (is_Some (v0 !! (root +:+ s))) as Hd0 by (apply (dom_after v H2 s Hs); eauto).
    destruct (Hall s Hs Hd0) as (n & Hn & E). by apply (H5 n s).
Qed.

Lemma rename_to_recovery node : hoare (fun v => sane v /\ before v /\ complete v) (dataset_rename node root rec) (fun _ v => sane v /\ between v).
Proof.
  apply hoare_rename; [apply root_valid|apply (r_valid Hr)|..].
  - intros v ([Hg Ho] & (H1 & H2 & H3) & Hc). split_and!.
    + split; [done|]. left. by split_and!.
    + rewrite <- (append_nil root), H1 by apply rooted_nil. rewrite append_nil. apply (r_root Hr).
    + rewrite <- (append_nil rec). apply H2, rooted_nil.
    + by apply homed_rec.
    + apply not_true_is_false. intros Hb%below_under. rewrite <- (append_nil rec), root_rec in Hb. done.
    + apply not_true_is_false. intros Hb%below_under. rewrite <- (append_nil root), rec_root in Hb; [done|apply rooted_nil].
  - intros v v' (Hs & Hb & Hc) He. destruct (before_rename v v' Hs Hb Hc He) as [Hs' Hb']. split; [split; auto|done].
  - intros v [Hs Hb]. split; auto.
Qed.
Lemma rename_to_root node : hoare (fun v => (sane v /\ between v) /\ mounted rec v) (dataset_rename node tmp root)
  (fun _ v => sane v /\ after v /\ mounted rec v).
Proof.
  apply hoare_rename; [apply (r_valid Hr)|apply root_valid|..].
  - intros v (([Hg Ho] & Hb) & Hm). split_and!.
    + split; [done|]. right. by left.
    + rewrite <- (append_nil tmp). apply dom_between; [done|apply rooted_nil|]. rewrite append_nil. apply (r_root Hr).
    + rewrite <- (append_nil root). apply Hb, rooted_nil.
    + by apply homed_root.
    + apply not_true_is_false. intros Hbl%below_under. rewrite <- (append_nil root), tmp_root in Hbl; [done|apply rooted_nil].
    + apply not_true_is_false. intros Hbl%below_under. rewrite <- (append_nil tmp), root_tmp in Hbl. done.
  - intros v v' ((Hs & Hb) & Hm) He. destruct (between_rename v v' Hs Hb He) as (Hs' & Hb' & Hm'). split; [split; auto|auto].
  - intros v (Hs & Hb & _). split; auto.
Qed.

Lemma bool_absent a ds v (f : string -> bool) t : a = root +:+ t -> lists v ds -> absent a v ->
  (forall s, rooted s -> f (a +:+ s) = true) -> (forall n, f n = true -> under a n = true) -> existsb f ds = false.
Proof.
  intros Ha Hl Habs Hf Hu. apply not_true_is_false. rewrite (has_tree a ds v f t Ha Hl Hf Hu). intros (s & Hs & Hd).
  rewrite Habs in Hd by done. by destruct Hd.
Qed.
Lemma bool_present a ds v (f : string -> bool) t : a = root +:+ t -> lists v ds -> is_Some (v !! a) ->
  (forall s, rooted s -> f (a +:+ s) = true) -> (forall n, f n = true -> under a n = true) -> existsb f ds = true.
Proof.
  intros Ha Hl Hd Hf Hu. apply (has_tree a ds v f t Ha Hl Hf Hu). exists "". split; [apply rooted_nil|]. by rewrite append_nil.
Qed.
Definition in_rec (n : string) : bool := negb (under root n) && negb (under tmp n) && under rec n.
Definition in_tmp (n : string) : bool := negb (under root n) && under tmp n.
Lemma in_rec_tree s : rooted s -> in_rec (rec +:+ s) = true.
Proof. intros Hs. unfold in_rec. by rewrite root_rec, tmp_rec, under_self. Qed.
Lemma in_tmp_tree s : rooted s -> in_tmp (tmp +:+ s) = true.
Proof. intros Hs. unfold in_tmp. by rewrite root_tmp, under_self. Qed.
Lemma in_rec_under n : in_rec n = true -> under rec n = true.
Proof. unfold in_rec. by intros [_ ?]%andb_true_iff. Qed.
Lemma in_tmp_under n : in_tmp n = true -> under tmp n = true.
Proof. unfold in_tmp. by intros [_ ?]%andb_true_iff. Qed.

Definition the_root (ds : list string) : list string := filter (fun n => under root n = true) ds.
Lemma the_root_nil ds v : lists v ds -> absent root v -> the_root ds = [].
Proof.
  intros Hl Ha. destruct (the_root ds) as [|n l] eqn:E; [done|]. exfalso.
  assert (n ∈ the_root ds) as Hn by (rewrite E; constructor). apply list_elem_of_filter in Hn as [(s & Hs & ->)%under_spec Hn].
  apply (lists_tree v ds root "" s) in Hn; [|apply root_at|done]. rewrite Ha in Hn by done. by destruct Hn.
Qed.
Lemma the_root_some ds v : lists v ds -> is_Some (v !! root) -> the_root ds <> [].
Proof.
  intros Hl Hd E. assert (root ∈ the_root ds) as Hn; [|rewrite E in Hn; by apply elem_of_nil in Hn].
  apply list_elem_of_filter. split; [apply under_spec; exists ""; split; [apply rooted_nil|by rewrite append_nil]|].
  rewrite <- (append_nil root). apply (lists_tree v ds root ""); [apply root_at|done|by rewrite append_nil].
Qed.
Lemma the_root_tree ds v : lists v ds -> before v -> tree_list (the_root ds).
Proof.
  intros Hl (H1 & _ & _). split.
  - intros n. unfold the_root. rewrite list_elem_of_filter, under_spec. split.
    + intros ((s & Hs & ->) & Hn). exists s. split_and!; try done. rewrite <- H1 by done. by apply (lists_tree v ds root "" s root_at).
    + intros (s & Hs & -> & Hd). split; [eauto|]. apply (lists_tree v ds root "" s root_at); [done|]. by rewrite H1.
  - intros l1 n l2 E. apply filter_split in E as (m1 & m2 & E & ->). destruct Hl as [_ Hord]. specialize (Hord _ _ _ E).
    rewrite Forall_forall in *. intros k [_ Hk]%list_elem_of_filter. by apply Hord.
Qed.

(** A name of the listing that is promoted is a name of the tree. *)
Lemma stray v n : others v -> is_Some (v !! n) -> under tmp n = false -> HasPrefix n (root +:+ "-restore-") = false.
Proof.
  intros Ho Hn Ht. apply not_true_is_false. intros Hp. pose proof Hp as Hp'. apply HasPrefix_split in Hp' as [r E].
  rewrite append_assoc in E.
  assert (Hout : outside n).
  { assert (E' : n = (root +:+ ("-restore-" +:+ r)) +:+ "") by (by rewrite append_nil).
    unfold outside. split_and!; [rewrite E'; apply under_apart; by exists "-"%char, (chars ("restore-" +:+ r))| |done].
    apply not_true_is_false. intros (s' & _ & Es)%under_spec. rewrite E in Es. unfold rec, recovery in Es.
    rewrite !append_assoc in Es. by apply append_inj, (f_equal chars) in Es. }
  assert (is_Some (v0 !! n)) as H0.
  { specialize (Ho n Hout). destruct Hn as [d Hd]. rewrite Hd in Ho. by destruct (v0 !! n). }
  by rewrite (r_strays Hr n H0) in Hp.
Qed.

(** The names of the old tree under another root. *)
Lemma moved_tree v ds source a t target : source = root +:+ t -> lists v ds ->
  (forall s, rooted s -> is_Some (v !! (source +:+ s)) <-> is_Some (v0 !! (root +:+ s))) -> a = target ->
  forall n, n ∈ moved_names source target ds <-> exists s, rooted s /\ n = a +:+ s /\ is_Some (v0 !! (root +:+ s)).
Proof.
  intros Ht Hl Hdom -> n. rewrite moved_names_spec. split; intros (s & Hs & -> & Hin); exists s; split_and!; try done.
  - by apply Hdom, (lists_tree v ds source t s).
  - by apply (lists_tree v ds source t s), Hdom.
Qed.
Lemma moved_root L source target : tree_list L -> source = root ->
  forall n, n ∈ moved_names source target L <-> exists s, rooted s /\ n = target +:+ s /\ is_Some (v0 !! (root +:+ s)).
Proof.
  intros [HL _] -> n. rewrite moved_names_spec. split; intros (s & Hs & -> & Hin); exists s; split_and!; try done.
  - by apply HL in Hin as (s' & _ & E%append_inj & Hd); subst s'.
  - apply HL. eauto.
Qed.

Lemma promoted_listed v ds : others v -> lists v ds ->
  (forall s, rooted s -> is_Some (v !! (root +:+ s)) -> is_Some (v0 !! (root +:+ s))) ->
  (forall s, rooted s -> is_Some (v !! (tmp +:+ s)) -> is_Some (v0 !! (root +:+ s))) ->
  forall n, n ∈ ds -> under root (promoted_name root n) = true -> is_Some (v0 !! promoted_name root n).
Proof.
  intros Ho [Hl _] H1 H2 n [Hn _]%Hl Hu. destruct (under tmp n) eqn:Ht.
  - apply under_spec in Ht as (s & Hs & ->). unfold tmp. rewrite (promoted_temporary root op s (r_op Hr) Hs). by apply H2.
  - rewrite promoted_other in Hu |- * by by eapply stray. apply under_spec in Hu as (s & Hs & ->). by apply H1.
Qed.

Lemma promoted_root s : rooted s -> promoted_name root (root +:+ s) = root +:+ s.
Proof.
  intros Hs. apply promoted_other, not_true_is_false. intros [r E]%HasPrefix_split. rewrite append_assoc in E.
  apply append_inj, (f_equal chars) in E. by destruct Hs as [->|[t ->]].
Qed.

Lemma resume_after node v ds : Inv v -> lists v ds -> after v ->
  hoare (fun v' => v' = v) (restoreMountpoints node rec rec ds;; restoreMountpoints node root root ds;; promoteTree node root ds) (fun _ => swapped).
Proof.
  intros [Hsane _] Hl Ha. pose proof (dom_after v Ha) as Hdom.
  eapply triple_bind; [eapply triple_pre; [|apply (mount_recovery node (fun v => sane v /\ after v) rec ds)]|].
  - intros ? ->. done.
  - by right.
  - apply (moved_tree v ds rec rec _ rec rec_at Hl); [|done]. intros s Hs. by apply Hdom.
  - skip. eapply triple_bind; [eapply triple_pre; [|apply (mount_root node root ds)]|].
    + intros v' [[H1 H2] H3]. by split_and!.
    + apply (moved_tree v ds root root _ root root_at Hl); [|done]. intros s Hs. by apply Hdom.
    + skip. apply promote_all.
      * apply (promoted_listed v); [apply Hsane|done|..]; intros s Hs; [by apply Hdom|]. destruct Ha as [-> _]; [|done]. by intros [? ?].
      * intros s Hs Hd. exists (root +:+ s). split; [|by apply promoted_root].
        apply (lists_tree v ds root "" s root_at Hl). by apply Hdom.
Qed.

Lemma resume_between node v ds : Inv v -> lists v ds -> between v ->
  hoare (fun v' => v' = v) (restoreMountpoints node rec rec ds;; dataset_rename node tmp root;;
    restoreMountpoints node tmp root ds;; promoteTree node root ds) (fun _ => swapped).
Proof.
  intros [Hsane _] Hl Hb. pose proof (dom_between v Hb) as Hdom.
  eapply triple_bind; [eapply triple_pre; [|apply (mount_recovery node (fun v => sane v /\ between v) rec ds)]|].
  - intros ? ->. done.
  - by left.
  - apply (moved_tree v ds rec rec _ rec rec_at Hl); [|done]. intros s Hs. by apply Hdom.
  - skip. eapply triple_bind; [apply rename_to_root|skip].
    eapply triple_bind; [apply (mount_root node tmp ds)|].
    + apply (moved_tree v ds tmp root _ root tmp_at Hl); [|done]. intros s Hs. by apply Hdom.
    + skip. apply promote_all.
      * apply (promoted_listed v); [apply Hsane|done|..]; intros s Hs; [|by apply Hdom]. destruct Hb as [-> _]; [|done]. by intros [? ?].
      * intros s Hs Hd. exists (tmp +:+ s). split; [|apply promoted_temporary; [apply (r_op Hr)|done]].
        apply (lists_tree v ds tmp _ s tmp_at Hl). by apply Hdom.
Qed.

Lemma swap_whole node v L : sane v -> before v -> tree_list L ->
  hoare (fun v' => v' = v) (each (fun n => dataset_clone node (n +:+ "@" +:+ snapshot) (tmp +:+ TrimPrefix n root)) L;;
    dataset_rename node root rec;; restoreMountpoints node root rec L;; dataset_rename node tmp root;;
    restoreMountpoints node root root L;; promoteTree node root L) (fun _ => swapped).
Proof.
  intros Hs Hb HL. eapply triple_bind; [eapply triple_pre; [|by apply hoare_clones]|].
  - intros ? ->. split_and!; try done. by intros s _ ?%elem_of_nil.
  - skip. eapply triple_bind; [eapply triple_pre; [|apply rename_to_recovery]|].
    + intros v' (H1 & H2 & H3). split_and!; try done. intros s Hss Hd. apply H3; [done|]. apply HL. eauto.
    + skip. eapply triple_bind; [apply (mount_recovery node (fun v => sane v /\ between v) root L)|].
      * by left.
      * by apply moved_root.
      * skip. eapply triple_bind; [apply rename_to_root|skip]. eapply triple_bind; [apply (mount_root node root L)|].
        { by apply moved_root. }
        skip. apply promote_all.
        { intros n (s & Hss & -> & Hd)%HL _. by rewrite promoted_root. }
        { intros s Hss Hd. exists (root +:+ s). split; [|by apply promoted_root]. apply HL. eauto. }
Qed.

Lemma hoare_restore node : hoare Inv (restoreDatasets node root snapshot op) (fun _ => swapped).
Proof.
  unfold restoreDatasets. eapply triple_bind; [apply hoare_list|]. intros ds. apply triple_case. intros v [HI Hl].
  cbv zeta. fold rec tmp. fold (the_root ds).
  change (existsb (fun n => negb (under root n) && under tmp n) ds) with (existsb in_tmp ds).
  change (existsb (fun n => negb (under root n) && negb (under tmp n) && under rec n) ds) with (existsb in_rec ds).
  pose proof HI as HI'. destruct HI' as [Hsane [Hb|[Hb|Ha]]].
  - assert (is_Some (v !! root)) as Hroot.
    { destruct Hb as [H1 _]. rewrite <- (append_nil root), H1 by apply rooted_nil. rewrite append_nil. apply (r_root Hr). }
    rewrite (bool_absent rec ds v in_rec _ rec_at Hl); [|apply Hb|apply in_rec_tree|apply in_rec_under].
    rewrite bool_decide_eq_false_2 by (by apply (the_root_some ds v)). cbn [negb andb].
    apply swap_whole; [done..|by apply (the_root_tree ds v)].
  - rewrite (the_root_nil ds v Hl) by apply Hb. cbn [negb andb].
    rewrite bool_decide_eq_true_2 by done. cbn [negb andb].
    rewrite (bool_present rec ds v in_rec _ rec_at Hl); [|rewrite <- (append_nil rec); apply (dom_between v Hb _ rooted_nil); rewrite append_nil; apply (r_root Hr)|apply in_rec_tree|apply in_rec_under].
    rewrite (bool_present tmp ds v in_tmp _ tmp_at Hl); [|rewrite <- (append_nil tmp); apply (dom_between v Hb _ rooted_nil); rewrite append_nil; apply (r_root Hr)|apply in_tmp_tree|apply in_tmp_under].
    by apply resume_between.
  - rewrite bool_decide_eq_false_2 by (apply (the_root_some ds v Hl); rewrite <- (append_nil root); apply (dom_after v Ha _ rooted_nil); rewrite append_nil; apply (r_root Hr)).
    rewrite (bool_present rec ds v in_rec _ rec_at Hl); [|rewrite <- (append_nil rec); apply (dom_after v Ha _ rooted_nil); rewrite append_nil; apply (r_root Hr)|apply in_rec_tree|apply in_rec_under].
    by apply resume_after.
Qed.
End Programs.
End Swap.

(** ** What an operator sees *)

(** The tree at [r] before the restore is found in whole at [place]. *)
Definition survives (v0 v : View) (r place : string) : Prop := forall s d0, rooted s -> v0 !! (r +:+ s) = Some d0 ->
  exists d, v !! (place +:+ s) = Some d /\ guid d = guid d0 /\ data d = data d0.
(** What the snapshot holds of a dataset. *)
Definition snapshot_data (v0 : View) (r snapshot s : string) : option string := v0 !! (r +:+ s) ≫= fun d0 => snaps d0 !! snapshot.

(** Every dataset is at its place with the snapshot's data, mounted, and
    independent of the old one, which is beside it. *)
Definition completed (v0 v : View) (r k snapshot : string) : Prop := forall s, rooted s ->
  match v0 !! (r +:+ s), v !! (r +:+ s), v !! (k +:+ s) with
  | Some d0, Some d, Some o =>
      snaps d0 !! snapshot = Some (data d) /\ origin d = None /\ mount d = Some ("/" +:+ (r +:+ s)) /\
      guid o = guid d0 /\ data o = data d0 /\ mount o = Some ("/" +:+ (k +:+ s))
  | None, None, None => True
  | _, _, _ => False
  end.

Lemma Inv_start parent leaf snapshot op v0 : restorable parent leaf snapshot op v0 -> Inv parent leaf snapshot op v0 v0.
Proof.
  intros Hr. split; [split; [apply (r_guids _ _ _ _ _ Hr)|]|left; split_and!].
  - intros n _. by destruct (v0 !! n).
  - done.
  - intros s Hs. by apply (r_free _ _ _ _ _ Hr).
  - intros s d Hs Hd. pose proof (r_strays _ _ _ _ _ Hr _ (ex_intro _ _ Hd)) as Hp. exfalso. revert Hp.
    apply not_false_iff_true, HasPrefix_split. exists (op +:+ s). unfold tmp, temporary. by rewrite !append_assoc.
Qed.

Section Properties.
Context {P : Type} `{!Tool zcmd zout View P, !ToolLaws zcmd zout View P} (node parent leaf snapshot op : string) (p0 p : P).
Abbreviation r := (root parent leaf).
Abbreviation k := (rec parent leaf op).
Abbreviation restore := (restoreDatasets node r snapshot op).

Lemma interrupted_Inv : restorable parent leaf snapshot op (view p0) -> interrupted restore p0 p ->
  Inv parent leaf snapshot op (view p0) (view p).
Proof.
  intros Hr Hi. apply (interrupted_invariant _ _ restore _ p0 p (hoare_restore _ _ _ _ _ Hr node)); [by apply Inv_start|done].
Qed.

(** C15. Restoring never loses data: however often a restore is interrupted,
    whatever commands and replies fail, the data from before it is found in
    whole, at the root or in the recovery tree; the root is the old tree, or
    absent, or restored, never a mixture; and no other dataset of the pool
    changes. *)
Theorem swap_keeps_data (Hr : restorable parent leaf snapshot op (view p0)) (Hi : interrupted restore p0 p) :
  let v0 := view p0 in let v := view p in
  (survives v0 v r r \/ survives v0 v r k) /\
  ((forall s, rooted s -> data <$> v !! (r +:+ s) = data <$> v0 !! (r +:+ s)) \/
   (forall s, rooted s -> v !! (r +:+ s) = None) \/
   (forall s, rooted s -> data <$> v !! (r +:+ s) = snapshot_data v0 r snapshot s)) /\
  others parent leaf op v0 v.
Proof.
  cbv zeta. destruct (interrupted_Inv Hr Hi) as [[_ Ho] Hst]. unfold survives, snapshot_data. split_and!; [..|done].
  - destruct Hst as [(H1 & _)|[[_ Hal]|[_ Hal]]]; [left|right|right]; intros s d0 Hs Hd0.
    + exists d0. by rewrite H1.
    + specialize (Hal s Hs). rewrite Hd0 in Hal. repeat case_match; try done. destruct Hal as [(H1 & H2 & _) _]. eauto.
    + specialize (Hal s Hs). rewrite Hd0 in Hal. repeat case_match; try done. destruct Hal as (H1 & H2 & _). eauto.
  - destruct Hst as [(H1 & _)|[[Habs _]|[_ Hal]]]; [left|right; by left|right; right]; intros s Hs.
    + by rewrite H1.
    + specialize (Hal s Hs). repeat case_match; try done. by destruct Hal as (_ & _ & Hx & _); cbn; rewrite Hx.
Qed.

(** C16. A restore can always be finished: from wherever it was interrupted, a
    run that reports success has put every dataset's snapshot at the root,
    mounted and promoted, with the old data mounted beside it; and a run whose
    commands work when they can reports success. *)
Theorem swap_finishes (Hr : restorable parent leaf snapshot op (view p0)) (Hi : interrupted restore p0 p) :
  (forall w, restore (mkWorld p []) = (Ok tt, w) -> completed (view p0) (view (medium w)) r k snapshot) /\
  (Cooperative zcmd zout View P -> exists w, restore (mkWorld p []) = (Ok tt, w)).
Proof.
  pose proof (interrupted_Inv Hr Hi) as HI.
  destruct (hoare_restore parent leaf snapshot op (view p0) Hr node (mkWorld p []) HI ltac:(constructor)) as [_ Hres].
  destruct (restore (mkWorld p [])) as [[[]|e] w]; cbn in Hres; split.
  - intros ? [= <-] s Hs. destruct Hres as ([Hg _] & [_ Hal] & Hm1 & Hm2 & Hind). specialize (Hal s Hs).
    destruct (view p0 !! (r +:+ s)) as [d0|] eqn:E0, (view (medium w) !! (k +:+ s)) as [o|] eqn:E1, (view (medium w) !! (r +:+ s)) as [d|] eqn:E2; try done.
    destruct Hal as (G1 & G2 & G3 & _). split_and!; [done|by apply (Hind s)|by apply Hm2|done|done|by apply Hm1].
  - intros _. by exists w.
  - done.
  - intros HC. by destruct Hres as [_ []].
Qed.
End Properties.

(** * Witnesses *)

(** A stack of two datasets, beside another stack; the restore is interrupted
    after the old tree was renamed. *)
Module Sample.
Definition ds (g : N) (d old m : string) : Dataset := mkDataset g d {["fl-1" := old]} None (Some m).
Definition rows : list (string * Dataset) :=
  [("floatlab", mkDataset 1 "" ∅ None (Some "none")); ("floatlab/app", ds 2 "new" "old" "/floatlab/app");
   ("floatlab/app/data", ds 3 "new2" "old2" "/floatlab/app/data"); ("floatlab/web", ds 4 "web" "web" "/floatlab/web")].
Definition pool : View := list_to_map rows.
Definition restore : prog string (World View) unit := restoreDatasets "n1" (root "floatlab" "app") "fl-1" "op1".
Definition renamed_at (v : View) : bool := negb (there v "floatlab/app") && there v "floatlab/app-recovery-op1".
Definition halfway : View := default ∅ (List.find renamed_at (past (restore (mkWorld pool [])).2)).

Lemma in_pool n d : pool !! n = Some d -> (n, d) ∈ rows.
Proof. apply elem_of_list_to_map_2. Qed.
Ltac in_pool H := apply in_pool in H; unfold rows in H;
  repeat (apply elem_of_cons in H as [H|H]; [|]); try (by apply elem_of_nil in H).

Lemma pool_restorable : restorable "floatlab" "app" "fl-1" "op1" (view (C:=zcmd) (O:=zout) pool).
Proof.
  change (restorable "floatlab" "app" "fl-1" "op1" pool).
  split.
  - split_and!; [done|by apply (bool_decide_eq_true_1 _)|by eexists].
  - by apply (bool_decide_eq_true_1 _).
  - done.
  - done.
  - by eexists.
  - intros s d Hs Hd. in_pool Hd; injection Hd as E ->; try done; change ("" +:+ s) with s in E; subst s; split_and!; try done; by eexists.
  - intros s Hs Hne [d Hd]. in_pool Hd; injection Hd as E ->; try done; change ("" +:+ s) with s in E; subst s; try done.
    exists "", "data". split_and!; [by left|done|by apply (bool_decide_eq_true_1 _)|by eexists].
  - intros s Hs. destruct (pool !! (rec "floatlab" "app" "op1" +:+ s)) as [d|] eqn:Hd; [|done].
    in_pool Hd; injection Hd as E; done.
  - intros n [d Hd]. in_pool Hd; by injection Hd as -> ->.
  - intros n m d e Hn Hm. in_pool Hn; in_pool Hm; injection Hn as -> ->; injection Hm as -> ->; done.
Qed.
Lemma halfway_reached : interrupted restore pool halfway.
Proof.
  apply star_one. right. unfold halfway.
  assert (Hs : match List.find renamed_at (past (restore (mkWorld pool [])).2) with Some _ => true | None => false end = true)
    by (vm_compute; reflexivity).
  destruct (List.find renamed_at _) as [v|] eqn:E; [|done]. apply List.find_some in E as [Hin _]. by apply list_elem_of_In.
Qed.

Lemma swap_keeps_data_witness : renamed_at halfway = true /\
  (survives pool halfway "floatlab/app" "floatlab/app" \/ survives pool halfway "floatlab/app" "floatlab/app-recovery-op1").
Proof.
  split; [vm_compute; reflexivity|].
  apply (swap_keeps_data (P:=View) "n1" "floatlab" "app" "fl-1" "op1" pool halfway pool_restorable halfway_reached).
Defined.

Lemma swap_finishes_witness : exists w, restore (mkWorld halfway []) = (Ok tt, w).
Proof.
  apply (proj2 (swap_finishes (P:=View) "n1" "floatlab" "app" "fl-1" "op1" pool halfway pool_restorable halfway_reached)), _.
Defined.
End Sample.
