(* ===== verification/Operations.v ===== *)
(** The operations a client asked for and the lifecycle events that record what
    became of them: the tables of [src/pkg/operation/store.go] and
    [events.go]. *)
From S2P Require Import Prelude.

Open Scope string_scope.

(** ** Operations *)

(** A row of [operations]; the empty error is NULL, instants are nanoseconds. *)
Record Operation := mkOperation {
  op_ID : string; op_StackID : string; op_Action : string; op_Actor : string;
  op_State : string; op_Checkpoint : string; op_Payload : string; op_Error : string;
  op_CreatedAt : Z; op_UpdatedAt : Z }.

(** The table, in the order in which the rows were inserted. *)
Abbreviation operations := (list Operation).

Definition Get (id : string) (t : operations) : option Operation :=
  List.find (fun op => bool_decide (op_ID op = id)) t.

(** [id] is the primary key. *)
Definition Create (op : Operation) (t : operations) : result string operations :=
  match Get (op_ID op) t with
  | Some _ => Err "UNIQUE constraint failed: operations.id"
  | None => Ok (t ++ [op])%list
  end.

Definition advance (state checkpoint errMsg : string) (now : Z) (op : Operation) : Operation :=
  mkOperation (op_ID op) (op_StackID op) (op_Action op) (op_Actor op) state checkpoint (op_Payload op) errMsg (op_CreatedAt op) now.

Definition Update (id state checkpoint errMsg : string) (now : Z) (t : operations) : operations :=
  map (fun op => if bool_decide (op_ID op = id) then advance state checkpoint errMsg now op else op) t.

Definition active (op : Operation) : bool :=
  bool_decide (op_State op = "pending") || bool_decide (op_State op = "running").
Definition finished (op : Operation) : bool :=
  bool_decide (op_State op = "succeeded") || bool_decide (op_State op = "failed").

(** [ORDER BY created_at LIMIT 1]: the first of the oldest rows. *)
Definition earlier (best : option Operation) (op : Operation) : option Operation :=
  match best with
  | Some b => if (op_CreatedAt op <? op_CreatedAt b)%Z then Some op else best
  | None => Some op
  end.
Definition oldest (t : operations) : option Operation := fold_left earlier t None.

Definition FinishForStack (stackID action state errMsg : string) (now : Z) (t : operations) : operations :=
  match oldest (filter (fun op => op_StackID op = stackID /\ op_Action op = action /\ active op = true) t) with
  | Some op => Update (op_ID op) state state errMsg now t
  | None => t
  end.

Definition created_le (a b : Operation) : Prop := (op_CreatedAt a <= op_CreatedAt b)%Z.
#[export] Instance created_le_dec : RelDecision created_le.
Proof. intros a b. unfold created_le. apply _. Defined.

Definition Active (t : operations) : operations := merge_sort created_le (filter (fun op => active op = true) t).
Definition ActiveForStack (stackID : string) (t : operations) : option Operation :=
  oldest (filter (fun op => op_StackID op = stackID /\ active op = true) t).

(** ** Events *)

Record Event := mkEvent {
  ev_ID : string; OccurredAt : Z; ev_StackID : string; Type_ : string; Outcome : string; Actor : string;
  ev_OperationID : string; Containers : string; Details : string; ev_Error : string }.

(** What [RecordEvent] stores for an event; [fresh] is the new identifier, the
    zero time is 0. *)
Definition or_default (s d : string) : string := if decide (s = "") then d else s.
Definition stored_event (fresh : string) (now : Z) (e : Event) : Event :=
  mkEvent (or_default (ev_ID e) fresh) (if (OccurredAt e =? 0)%Z then now else OccurredAt e) (ev_StackID e) (Type_ e)
    (Outcome e) (or_default (Actor e) "system") (ev_OperationID e) (or_default (Containers e) "[]")
    (or_default (Details e) "{}") (ev_Error e).
Definition RecordEvent (fresh : string) (now : Z) (e : Event) (t : list Event) : result string (list Event) :=
  let e := stored_event fresh now e in
  match List.find (fun k => bool_decide (ev_ID k = ev_ID e)) t with
  | Some _ => Err "UNIQUE constraint failed: lifecycle_events.id"
  | None => Ok (t ++ [e])%list
  end.

(** Order of the pages: by time, then by identifier. *)
Definition event_ltb (a b : Event) : bool :=
  (OccurredAt a <? OccurredAt b)%Z || ((OccurredAt a =? OccurredAt b)%Z && bytes_ltb (chars (ev_ID a)) (chars (ev_ID b))).
Definition event_le (a b : Event) : Prop := event_ltb b a = false.
#[export] Instance event_le_dec : RelDecision event_le.
Proof. intros a b. unfold event_le. apply _. Defined.

Definition page_size (limit : Z) : nat := Z.to_nat (if (limit <? 1)%Z || (200 <? limit)%Z then 50 else limit).

(** A cursor that names no row makes the comparison NULL. *)
Definition follows (after : string) (t : list Event) (e : Event) : bool :=
  bool_decide (after = "") ||
  match List.find (fun k => bool_decide (ev_ID k = after)) t with
  | Some k => event_ltb k e
  | None => false
  end.
Definition ListEvents (stackID after : string) (limit : Z) (t : list Event) : list Event :=
  take (page_size limit)
    (merge_sort event_le (filter (fun e => ev_StackID e = stackID /\ follows after t e = true) t)).

(** [Cleanup]: what finished, and what happened, before an instant. *)
Definition Cleanup (before : Z) (ops : operations) (events : list Event) : operations * list Event :=
  (filter (fun op => finished op && (op_UpdatedAt op <? before)%Z = false) ops,
   filter (fun e => (OccurredAt e <? before)%Z = false) events).
