(* ===== verification/Worker.v ===== *)
(** The control service's worker: the handlers of its tasks, in
    [src/internal/worker/queue.go].  The database, the lifecycle log and the
    daemons of the nodes answer from an environment; every write and every
    command is recorded, latest first.  Error texts are shortened. *)
From S2P Require Import Prelude GoTime Timestamp Release GoStrings Run Lifecycle Operations CrashLogic HostDatasets DatasetSwap.
From Stdlib Require Import Ascii.

Open Scope string_scope.

(** ** Payloads of the tasks ([src/internal/worker/task.go]) *)

Record StackUpgradePayload := mkUpgrade {
  up_OperationID : string; up_StackID : string; up_NodeID : string; up_DatasetPath : string;
  OldCompose : string; NewCompose : string; Services : list string; up_HealthTimeout : string; up_Actor : string }.
Record StackRestartPayload := mkRestart {
  rs_OperationID : string; rs_StackID : string; rs_NodeID : string; rs_DatasetPath : string;
  rs_ComposeFile : string; rs_HealthTimeout : string; rs_Actor : string }.
Record StackDeletePayload := mkDelete {
  dl_OperationID : string; dl_StackID : string; dl_NodeID : string; dl_DatasetPath : string;
  Purge : bool; dl_Actor : string }.
Record StackRestorePayload := mkRestore {
  rt_OperationID : string; rt_StackID : string; rt_NodeID : string; rt_DatasetPath : string; rt_Snapshot : string;
  rt_ComposeFile : string; SourceCompose : string; rt_HealthTimeout : string; WasRunning : bool; rt_Actor : string }.
Record DatasetRollbackPayload := mkRollback {
  rb_OperationID : string; rb_StackID : string; rb_NodeID : string; rb_Dataset : string; rb_Name : string; DestroyNewer : bool }.
Record SnapshotCreatePayload := mkSnapCreate {
  sc_Dataset : string; sc_NodeID : string; SnapType : string; Label : string; Keep : Z; Recursive : bool;
  sc_OperationID : string; sc_StackID : string; sc_Name : string; sc_Actor : string; sc_Policy : string }.
Record SnapshotDeletePayload := mkSnapDelete {
  sd_Dataset : string; sd_NodeID : string; sd_Snapshot : string; sd_OperationID : string; RecoveryDataset : string }.

(** ** Nodes *)

Inductive hostcmd :=
| ComposePull (stackID dataset compose : string) (services : list string)
| ComposeDown (stackID dataset : string)
| ComposeUp (stackID dataset compose : string)
| SourceWrite (stackID dataset compose : string)
| SnapCreate (dataset name : string) (recursive : bool) (operation purpose : string)
| SnapDestroy (dataset name : string)
| SnapPrune (dataset policy : string)
| SnapList (dataset : string)
| SnapRollback (dataset name : string) (destroyNewer : bool)
| DsList (parent : string)
| DsClone (snapshot target : string)
| DsRename (source target : string)
| DsMountpoint (ds value : string)
| DsPromote (ds : string)
| DsDestroy (ds : string)
| DockerList (stackID : string)
| VethDelete (stackID hostName : string)
| ServiceDel (address : string).

(** State and health of a container. *)
Record Container := mkContainer { c_State : string; c_Health : string }.

(** What a reply carries; [RNone] also stands for a body that does not decode. *)
Inductive reply :=
| RNone
| RNames (l : list string)
| RContainers (l : list Container)
| RSnapshots (l : list (string * string)).

(** ** World *)

Inductive event :=
| EHost (node : string) (c : hostcmd) (ok : bool)
| ESeen (stackID : string) (l : list Container)
| EOp (id state checkpoint : string) (o : outcome)
| ERecord (kind result operationID : string) (o : outcome)
| ECompose (stackID compose : string) (o : outcome)
| EDeleteStack (stackID : string) (o : outcome)
| ERelease (stackID : string) (o : outcome)
| EPoint (stackID snapshot dataset compose : string) (o : outcome)
| ERaft (e : StackStateChanged) (o : outcome)
| ETick.

(** The columns of [stacks] that matter here: name and Compose text.  [points] are
    the recovery points: stack, snapshot, dataset and Compose text;
    [stack_snapshots] holds stack, operation, name and kind. *)
Record W := mkW {
  fsm : FSM;
  ops : operations;
  events : list Event;
  stacks : gmap string (string * string);
  points : list (string * string * string * string);
  stack_snapshots : list (string * string * string * string);
  trace : list event }.
Definition set_fsm (f : FSM) (w : W) : W := mkW f (ops w) (events w) (stacks w) (points w) (stack_snapshots w) (trace w).
Definition set_ops (t : operations) (w : W) : W := mkW (fsm w) t (events w) (stacks w) (points w) (stack_snapshots w) (trace w).
Definition set_events (t : list Event) (w : W) : W := mkW (fsm w) (ops w) t (stacks w) (points w) (stack_snapshots w) (trace w).
Definition set_stacks (s : gmap string (string * string)) (w : W) : W := mkW (fsm w) (ops w) (events w) s (points w) (stack_snapshots w) (trace w).
Definition set_points (l : list (string * string * string * string)) (w : W) : W := mkW (fsm w) (ops w) (events w) (stacks w) l (stack_snapshots w) (trace w).
Definition set_snapshots (l : list (string * string * string * string)) (w : W) : W := mkW (fsm w) (ops w) (events w) (stacks w) (points w) l (trace w).
Definition log (e : event) (w : W) : W := mkW (fsm w) (ops w) (events w) (stacks w) (points w) (stack_snapshots w) (e :: trace w).

Abbreviation cmd := (prog string W).

(** What ends a wait of [waitHealthy]. *)
Inductive wakeup := Cancelled | Deadline | Tick.

Class WorkerEnv := {
  host : string -> hostcmd -> list event -> result string reply;
  database : list event -> outcome;
  readable : list event -> bool;
  raft : StackStateChanged -> list event -> outcome;
  now : list event -> Z;
  wake : Z -> list event -> wakeup;
  new_id : list event -> string;
  stack_ip : string -> list event -> string;
  stack_service : string -> list event -> result string (option string);
  runtime_yaml : string -> string -> string -> option string;
  sync_targets : string -> list event -> option string;
  ParseDuration : string -> option Z }.

Section Worker.
Context `{WorkerEnv}.

(** ** The database *)

(** An [Execute]: what it writes, recorded as [e]. *)
Definition write (e : outcome -> event) (f : W -> W) : cmd unit := fun w =>
  let o := database (trace w) in
  let w' := log (e o) w in
  match o with
  | Done => (Ok tt, f w')
  | Refused => (Err "database", w')
  | Unreported => (Err "database", f w')
  end.
Definition query {A} (f : W -> result string A) : cmd A := fun w =>
  (if readable (trace w) then f w else Err "database", w).

Definition ops_Get (id : string) : cmd Operation :=
  query (fun w => match Get id (ops w) with Some op => Ok op | None => Err "operation not found" end).
Definition ops_Update (id state checkpoint errMsg : string) : cmd unit := fun w =>
  write (EOp id state checkpoint) (fun w' => set_ops (Update id state checkpoint errMsg (now (trace w)) (ops w')) w') w.
Definition operationDone (id : string) : cmd bool :=
  r ← attempt (ops_Get id);
  ret (match r with Ok op => finished op | Err _ => false end).

Definition Record_event (stackID kind result operationID actor err : string) : cmd unit := fun w =>
  let e := mkEvent "" 0 stackID kind result actor operationID "" "" err in
  match RecordEvent (new_id (trace w)) (now (trace w)) e (events w) with
  | Ok t => write (ERecord kind result operationID) (set_events t) w
  | Err m => (Err m, log (ERecord kind result operationID Refused) w)
  end.

Definition GetStack (id : string) : cmd (string * string) :=
  query (fun w => match stacks w !! id with Some s => Ok s | None => Err "config: stack not found" end).
Definition set_compose (id compose : string) (w : W) : W :=
  set_stacks (alter (fun s => (s.1, compose)) id (stacks w)) w.
Definition UpdateStackCompose (id compose : string) : cmd unit :=
  write (ECompose id compose) (set_compose id compose);;
  GetStack id;;
  w ← get;
  match sync_targets id (trace w) with None => ret tt | Some m => fail m end.
Definition DeleteStack (id : string) : cmd unit :=
  write (EDeleteStack id) (fun w => set_stacks (delete id (stacks w)) w).
Definition ReleaseIPv4 (id : string) : cmd unit := write (ERelease id) (fun w => w).
Definition StackService (id : string) : cmd (option string) := fun w => (stack_service id (trace w), w).
(** [INSERT OR IGNORE] under the unique index on stack and snapshot: a second
    row is ignored. *)
Definition add_point (stackID snapshot dataset compose : string) (w : W) : W :=
  if bool_decide (Exists (fun x => x.1.1 = (stackID, snapshot)) (points w)) then w
  else set_points (points w ++ [(stackID, snapshot, dataset, compose)])%list w.
Definition insert_point (stackID snapshot dataset compose : string) : cmd unit :=
  write (EPoint stackID snapshot dataset compose) (add_point stackID snapshot dataset compose).
(** The same for [stack_snapshots], unique on stack and snapshot name. *)
Definition add_snapshot (stackID operation snapshot kind : string) (w : W) : W :=
  if bool_decide (Exists (fun x => x.1.1.1 = stackID /\ x.1.2 = snapshot) (stack_snapshots w)) then w
  else set_snapshots (stack_snapshots w ++ [(stackID, operation, snapshot, kind)])%list w.
(** The two rows of an upgrade's snapshot, in one batch. *)
Definition insert_upgrade_point (stackID operation snapshot dataset compose : string) : cmd unit :=
  write (EPoint stackID snapshot dataset compose) (fun w =>
    add_point stackID snapshot dataset compose (add_snapshot stackID operation snapshot "pre-upgrade" w)).

(** ** The lifecycle log *)

Definition raft_Apply (e : StackStateChanged) : cmd unit := fun w =>
  let o := raft e (trace w) in
  let w' := log (ERaft e o) w in
  match o with
  | Done => (Ok tt, set_fsm (FSM_Apply (Some e) (fsm w)).2 w')
  | Refused => (Err "raft: apply", w')
  | Unreported => (Err "raft: apply", set_fsm (FSM_Apply (Some e) (fsm w)).2 w')
  end.

Definition applyStackEvent (stackID nodeID ev : string) : cmd unit :=
  w ← get;
  match FSM_State stackID (fsm w) with
  | None => fail "stack has no state"
  | Some instance =>
      match Apply (now (trace w)) instance ev with
      | Err _ => fail "transition refused"
      | Ok next => raft_Apply (mkEntry stackID (InstState instance) (InstState next) ev (now (trace w)) nodeID)
      end
  end.

(** ** The nodes *)

Definition pool_Execute (node : string) (c : hostcmd) : cmd reply := fun w =>
  let r := host node c (trace w) in
  (r, log (EHost node c (is_ok r)) w).
Definition pool_ (node : string) (c : hostcmd) : cmd unit := pool_Execute node c;; ret tt.

#[export] Instance worker_nodes : DatasetHost W := {|
  dataset_list node parent :=
    r ← pool_Execute node (DsList parent);
    match r with RNames l => ret l | _ => fail "invalid list" end;
  dataset_clone node snapshot target := pool_ node (DsClone snapshot target);
  dataset_rename node source target := pool_ node (DsRename source target);
  dataset_mountpoint node ds value := pool_ node (DsMountpoint ds value);
  dataset_promote node ds := pool_ node (DsPromote ds);
  dataset_destroy node ds := pool_ node (DsDestroy ds) |}.

Definition timeout (value : string) : Z :=
  match ParseDuration value with
  | Some d => if (d <=? 0)%Z then (2 * Minute)%Z else d
  | None => (2 * Minute)%Z
  end.

Definition sound (c : Container) : bool :=
  bool_decide (c_State c = "running") && (bool_decide (c_Health c = "healthy") || bool_decide (c_Health c = "none")).
(** One look at the containers: unhealthy, ready, or to be looked at again. *)
Inductive look := Unhealthy | Ready | Again.
Fixpoint inspect (ready : bool) (l : list Container) : look :=
  match l with
  | [] => if ready then Ready else Again
  | c :: l => if decide (c_Health c = "unhealthy") then Unhealthy else inspect (ready && sound c) l
  end.

Definition look_at (node stackID : string) : cmd look :=
  r ← attempt (pool_Execute node (DockerList stackID));
  match r with
  | Ok (RContainers l) => modify (log (ESeen stackID l));; ret (match l with [] => Again | _ => inspect true l end)
  | _ => ret Again
  end.

(** The loop of [waitHealthy]; it polls every two seconds until [deadline]. *)
Fixpoint wait_loop (fuel : nat) (node stackID : string) (deadline : Z) : cmd unit :=
  match fuel with
  | O => fail "out of fuel"
  | S fuel =>
      seen ← look_at node stackID;
      match seen with
      | Unhealthy => fail "unhealthy container"
      | Ready => ret tt
      | Again =>
          w ← get;
          match wake deadline (trace w) with
          | Cancelled => fail "context canceled"
          | Deadline => fail "did not become healthy"
          | Tick => modify (log ETick);; wait_loop fuel node stackID deadline
          end
      end
  end.
Definition poll_period : Z := (2 * Second)%Z.
Definition wait_fuel (duration : Z) : nat := S (S (Z.to_nat (duration / poll_period))).
Definition waitHealthy (node stackID : string) (duration : Z) : cmd unit :=
  w ← get;
  wait_loop (wait_fuel duration) node stackID (now (trace w) + duration)%Z.

Definition runtimeCompose (stackID name source : string) : cmd string :=
  w ← get;
  match runtime_yaml source name (if readable (trace w) then stack_ip stackID (trace w) else "") with
  | Some y => ret y
  | None => fail "runtime compose"
  end.

Definition vethName (prefix stackID : string) : string :=
  prefix +:+ str (take 10 (filter (fun c => c <> "-"%char) (chars stackID))).

Definition snapshot_name (t : Z) : cmd string :=
  match AutomatedSnapshotName t with
  | Ok name => ret (str name)
  | Err _ => fail "snapshot name"
  end.

(** [if err := m; err != nil { return handler(err) }] and then [k]. *)
Definition or_else {A} (m : cmd A) (handler : string -> cmd unit) (k : A -> cmd unit) : cmd unit :=
  r ← attempt m;
  match r with Ok a => k a | Err e => handler e end.

(** ** Upgrading a stack *)

(** The closure [rollback]. *)
Definition upgrade_rollback (p : StackUpgradePayload) (snapshot oldRuntime : string) (snapshotCreated : bool) : cmd unit :=
  (if snapshotCreated then
     pool_ (up_NodeID p) (ComposeDown (up_StackID p) (up_DatasetPath p));;
     restoreDatasets (up_NodeID p) (up_DatasetPath p) snapshot (up_OperationID p)
   else ret tt);;
  UpdateStackCompose (up_StackID p) (OldCompose p);;
  pool_ (up_NodeID p) (SourceWrite (up_StackID p) (up_DatasetPath p) (OldCompose p));;
  pool_ (up_NodeID p) (ComposeUp (up_StackID p) (up_DatasetPath p) oldRuntime);;
  waitHealthy (up_NodeID p) (up_StackID p) (timeout (up_HealthTimeout p)).

(** The closure [fail]: the handler ends without an error. *)
Definition upgrade_fail (p : StackUpgradePayload) (snapshot oldRuntime : string) (snapshotCreated : bool) (cause : string) : cmd unit :=
  attempt (applyStackEvent (up_StackID p) (up_NodeID p) EventUpdateFailed);;
  r ← attempt (upgrade_rollback p snapshot oldRuntime snapshotCreated);
  match r with
  | Err e =>
      attempt (applyStackEvent (up_StackID p) (up_NodeID p) EventRollbackFailed);;
      attempt (ops_Update (up_OperationID p) "failed" "rollback-failed" (cause +:+ "; rollback: " +:+ e));;
      attempt (Record_event (up_StackID p) "Upgrade" "failed-rollback-failed" (up_OperationID p) (up_Actor p) (cause +:+ "; rollback: " +:+ e))
  | Ok _ =>
      attempt (applyStackEvent (up_StackID p) (up_NodeID p) EventRollbackDone);;
      attempt (ops_Update (up_OperationID p) "failed" "rolled-back" cause);;
      attempt (Record_event (up_StackID p) "Upgrade" "failed-rolled-back" (up_OperationID p) (up_Actor p) cause)
  end;;
  ret tt.

Definition upgrade_forward (p : StackUpgradePayload) (snapshot newRuntime oldRuntime : string) : cmd unit :=
  let node := up_NodeID p in let id := up_StackID p in let ds := up_DatasetPath p in let op := up_OperationID p in
  attempt (ops_Update op "running" "pulling-images" "");;
  or_else (pool_ node (ComposePull id ds (NewCompose p) (Services p))) (upgrade_fail p snapshot oldRuntime false) (fun _ =>
  attempt (ops_Update op "running" "snapshotting" "");;
  or_else (pool_ node (SnapCreate ds snapshot true op "upgrade")) (upgrade_fail p snapshot oldRuntime false) (fun _ =>
  let fail := upgrade_fail p snapshot oldRuntime true in
  attempt (insert_upgrade_point id op snapshot ds (OldCompose p));;
  attempt (ops_Update op "running" "updating-source" "");;
  or_else (UpdateStackCompose id (NewCompose p)) fail (fun _ =>
  or_else (pool_ node (SourceWrite id ds (NewCompose p))) fail (fun _ =>
  attempt (ops_Update op "running" "reconciling" "");;
  or_else (pool_ node (ComposeUp id ds newRuntime)) fail (fun _ =>
  or_else (waitHealthy node id (timeout (up_HealthTimeout p))) fail (fun _ =>
  or_else (applyStackEvent id node EventUpdateDone) fail (fun _ =>
  attempt (Record_event id "Upgrade" "succeeded" op (up_Actor p) "");;
  ops_Update op "succeeded" "succeeded" ""))))))).

Definition handleStackUpgrade (p : StackUpgradePayload) : cmd unit :=
  op ← ops_Get (up_OperationID p);
  if finished op then ret tt
  else
    stack ← GetStack (up_StackID p);
    newRuntime ← runtimeCompose (up_StackID p) stack.1 (NewCompose p);
    oldRuntime ← runtimeCompose (up_StackID p) stack.1 (OldCompose p);
    snapshot ← snapshot_name (op_CreatedAt op);
    upgrade_forward p snapshot newRuntime oldRuntime.

(** ** Restarting, deleting and restoring a stack *)

Definition handleStackRestart (p : StackRestartPayload) : cmd unit :=
  done ← operationDone (rs_OperationID p);
  if (done : bool) then ret tt
  else
    attempt (ops_Update (rs_OperationID p) "running" "stopping" "");;
    pool_ (rs_NodeID p) (ComposeDown (rs_StackID p) (rs_DatasetPath p));;
    attempt (ops_Update (rs_OperationID p) "running" "starting" "");;
    pool_ (rs_NodeID p) (ComposeUp (rs_StackID p) (rs_DatasetPath p) (rs_ComposeFile p));;
    waitHealthy (rs_NodeID p) (rs_StackID p) (timeout (rs_HealthTimeout p));;
    attempt (Record_event (rs_StackID p) "Restart" "succeeded" (rs_OperationID p) (rs_Actor p) "");;
    ops_Update (rs_OperationID p) "succeeded" "succeeded" "".

(** One round over the pending datasets: those that could not be destroyed, and
    the first error. *)
Fixpoint purge_round (node : string) (pending : list string) : cmd (list string * option string) :=
  match pending with
  | [] => ret ([], None)
  | ds :: pending =>
      r ← attempt (dataset_destroy node ds);
      rest ← purge_round node pending;
      ret (match r with
           | Ok _ => rest
           | Err e => (ds :: rest.1, Some e)
           end)
  end.
Fixpoint purge (fuel : nat) (node : string) (pending : list string) : cmd unit :=
  match pending with
  | [] => ret tt
  | _ =>
      match fuel with
      | O => fail "out of fuel"
      | S fuel =>
          round ← purge_round node pending;
          if decide (List.length round.1 = List.length pending) then fail (default "" round.2)
          else purge fuel node round.1
      end
  end.

(** The trees that restores of the stack's operations leave beside its root. *)
Definition siblings (root : string) (ids : list string) : list string :=
  flat_map (fun id => [recovery root id; temporary root id]) ids.
Definition newest_le (a b : Operation) : Prop :=
  (op_CreatedAt b < op_CreatedAt a)%Z \/ (op_CreatedAt a = op_CreatedAt b /\ bytes_ltb (chars (op_ID b)) (chars (op_ID a)) = false).
#[export] Instance newest_le_dec : RelDecision newest_le.
Proof. intros a b. unfold newest_le. apply _. Defined.
Definition operation_ids (stackID : string) (t : operations) : list string :=
  map op_ID (merge_sort newest_le (filter (fun op => op_StackID op = stackID) t)).

Definition purge_stack (p : StackDeletePayload) : cmd unit :=
  attempt (ops_Update (dl_OperationID p) "running" "purging" "");;
  ids ← query (fun w => Ok (operation_ids (dl_StackID p) (ops w)));
  if decide ("" ∈ ids) then fail "purge: invalid recovery operation identity"
  else
    let pending := siblings (dl_DatasetPath p) ids in
    purge (List.length pending) (dl_NodeID p) pending;;
    dataset_destroy (dl_NodeID p) (dl_DatasetPath p).

Definition handleStackDelete (p : StackDeletePayload) : cmd unit :=
  done ← operationDone (dl_OperationID p);
  if (done : bool) then ret tt
  else
    attempt (ops_Update (dl_OperationID p) "running" "compose-down" "");;
    pool_ (dl_NodeID p) (ComposeDown (dl_StackID p) (dl_DatasetPath p));;
    attempt (ops_Update (dl_OperationID p) "running" "network-release" "");;
    pool_ (dl_NodeID p) (VethDelete (dl_StackID p) (vethName "flh" (dl_StackID p)));;
    service ← StackService (dl_StackID p);
    (match service with Some address => pool_ (dl_NodeID p) (ServiceDel address) | None => ret tt end);;
    ReleaseIPv4 (dl_StackID p);;
    (if Purge p then purge_stack p else ret tt);;
    DeleteStack (dl_StackID p);;
    attempt (Record_event (dl_StackID p) "Delete" "succeeded" (dl_OperationID p) (dl_Actor p) "");;
    ops_Update (dl_OperationID p) "succeeded" "succeeded" "".

(** What follows once the operation was read. *)
Definition restore_stack (p : StackRestorePayload) (op : Operation) : cmd unit :=
  let node := rt_NodeID p in let id := rt_StackID p in let ds := rt_DatasetPath p in let opID := rt_OperationID p in
  let activating := bool_decide (op_Checkpoint op = "activating-snapshot") in
  let swapStarted := activating || bool_decide (op_Checkpoint op = "starting") in
  current ← attempt (GetStack id);
  let currentCompose := match current with Ok s => s.2 | Err _ => "" end in
  (if WasRunning p && negb activating then
     (if negb swapStarted then attempt (ops_Update opID "running" "stopping" "");; ret tt else ret tt);;
     pool_ node (ComposeDown id ds)
   else ret tt);;
  restoreSnapshot ← snapshot_name (op_CreatedAt op);
  (if negb swapStarted then
     attempt (ops_Update opID "running" "preserving-current" "");;
     pool_ node (SnapCreate ds restoreSnapshot true opID "restore")
   else ret tt);;
  ops_Update opID "running" "activating-snapshot" "";;
  restoreDatasets node ds (rt_Snapshot p) opID;;
  UpdateStackCompose id (SourceCompose p);;
  attempt (insert_point id restoreSnapshot (recovery ds opID) currentCompose);;
  pool_ node (SourceWrite id ds (SourceCompose p));;
  (if WasRunning p then
     ops_Update opID "running" "starting" "";;
     pool_ node (ComposeUp id ds (rt_ComposeFile p));;
     waitHealthy node id (timeout (rt_HealthTimeout p))
   else ret tt);;
  attempt (Record_event id "Restore" "succeeded" opID (rt_Actor p) "");;
  ops_Update opID "succeeded" "succeeded" "".

Definition handleStackRestore (p : StackRestorePayload) : cmd unit :=
  done ← operationDone (rt_OperationID p);
  if (done : bool) then ret tt
  else op ← ops_Get (rt_OperationID p); restore_stack p op.

(** ** Snapshots *)

Definition snapshot_label (p : SnapshotCreatePayload) : cmd string :=
  if negb (bool_decide (sc_Name p = "")) then ret (sc_Name p)
  else
    w ← get;
    if decide (SnapType p = "user") then ret (str (UserSnapshotName (now (trace w)) (chars (Label p))))
    else snapshot_name (now (trace w)).

(** [applyRetentionViaIPC]: destroys the named snapshots of the type beyond the
    first [keep], newest names first. *)
Definition name_ge (a b : string * string) : Prop := bytes_ltb (chars a.2) (chars b.2) = false.
#[export] Instance name_ge_dec : RelDecision name_ge.
Proof. intros a b. unfold name_ge. apply _. Defined.
Definition expired_snapshots (snapType : string) (keep : nat) (l : list (string * string)) : list (string * string) :=
  drop keep (merge_sort name_ge (filter (fun s => has_prefix (chars s.2) (PrefixScheduled ++ ["-"%char]) = true /\ HasSuffix s.2 ("-" +:+ snapType) = true) l)).
Definition applyRetentionViaIPC (node dataset snapType : string) (keep : nat) : cmd unit :=
  r ← pool_Execute node (SnapList dataset);
  match r with
  | RSnapshots l => each (fun s => pool_ node (SnapDestroy s.1 s.2)) (expired_snapshots snapType keep l)
  | _ => fail "retention parse"
  end.

Definition handleSnapshotCreate (p : SnapshotCreatePayload) : cmd unit :=
  name ← snapshot_label p;
  let shared := bool_decide (SnapType p = "scheduled") || bool_decide (SnapType p = "replication") in
  let owner := if negb (bool_decide (sc_Name p = "")) && IsAutomatedSnapshot (chars name) && shared
    then "snapshot:" +:+ sc_Dataset p +:+ "@" +:+ name else sc_OperationID p in
  pool_ (sc_NodeID p) (SnapCreate (sc_Dataset p) name (Recursive p) owner (SnapType p));;
  (if negb (bool_decide (sc_Policy p = "")) || shared then pool_ (sc_NodeID p) (SnapPrune (sc_Dataset p) (sc_Policy p))
   else if (0 <? Keep p)%Z then
     attempt (applyRetentionViaIPC (sc_NodeID p) (sc_Dataset p) (SnapType p) (Z.to_nat (Keep p)));; ret tt
   else ret tt);;
  if negb (bool_decide (sc_OperationID p = "")) && bool_decide (SnapType p = "user") then
    attempt (Record_event (sc_StackID p) "Snapshot" "succeeded" (sc_OperationID p) (sc_Actor p) "");;
    ops_Update (sc_OperationID p) "succeeded" "succeeded" ""
  else ret tt.

Definition handleSnapshotDelete (p : SnapshotDeletePayload) : cmd unit :=
  pool_ (sd_NodeID p) (SnapDestroy (sd_Dataset p) (sd_Snapshot p));;
  (if decide (RecoveryDataset p = "") then ret tt else dataset_destroy (sd_NodeID p) (RecoveryDataset p));;
  (if decide (sd_OperationID p = "") then ret tt
   else attempt (ops_Update (sd_OperationID p) "succeeded" "succeeded" "");; ret tt).

Definition handleDatasetRollback (p : DatasetRollbackPayload) : cmd unit :=
  done ← operationDone (rb_OperationID p);
  if (done : bool) then ret tt
  else
    w ← get;
    match FSM_State (rb_StackID p) (fsm w) with
    | Some instance =>
        if decide (InstState instance = StateIdle) then
          pool_ (rb_NodeID p) (SnapRollback (rb_Dataset p) (rb_Name p) (DestroyNewer p));;
          ops_Update (rb_OperationID p) "succeeded" "succeeded" ""
        else fail "dataset rollback requires Idle stack"
    | None => fail "dataset rollback requires Idle stack"
    end.
End Worker.
