(* ===== verification/WorkerTrace.v ===== *)
(** What the worker's primitives record, as rules of [tracked]: the handlers'
    proofs about the order of what they do are built from these. *)
From S2P Require Import Prelude TraceLogic GoTime Timestamp Release GoStrings Run Lifecycle Operations CrashLogic HostDatasets DatasetSwap Worker.
From Stdlib Require Import Ascii.

Open Scope string_scope.
Open Scope list_scope.

(** ** Whether the stack runs, as the trace shows *)

(** Starting and stopping are the only events that change it. *)
Definition quiet (e : event) : bool :=
  match e with EHost _ (ComposeUp _ _ _) _ | EHost _ (ComposeDown _ _) _ => false | _ => true end.

(** Stopped, and not started since. *)
Fixpoint stopped (l : list event) : Prop :=
  match l with
  | EHost _ (ComposeDown _ _) true :: _ => True
  | e :: l => quiet e = true /\ stopped l
  | [] => False
  end.
(** Started with [y], and neither started again nor stopped since. *)
Fixpoint up (y : string) (l : list event) : Prop :=
  match l with
  | EHost _ (ComposeUp _ _ y') true :: _ => y' = y
  | e :: l => quiet e = true /\ up y l
  | [] => False
  end.
(** Every container was seen running and sound since it was started with [y]. *)
Fixpoint healthy (y : string) (l : list event) : Prop :=
  match l with
  | e :: l => quiet e = true /\
      ((exists id s, e = ESeen id s /\ s <> [] /\ Forall (fun c => sound c = true) s /\ up y l) \/ healthy y l)
  | [] => False
  end.

(** Facts that quiet events keep. *)
Class Quiet (P : list event -> Prop) : Prop := quiet_kept : forall e l, quiet e = true -> P l -> P (e :: l).
#[export] Instance quiet_true : Quiet (fun _ => True).
Proof. done. Qed.
#[export] Instance quiet_and P Q : Quiet P -> Quiet Q -> Quiet (fun l => P l /\ Q l).
Proof. intros HP HQ e l He [? ?]. split; [by apply HP|by apply HQ]. Qed.
#[export] Instance quiet_growing P : Growing P -> Quiet P.
Proof. intros HP e l _ Hl. by apply (grows l [e]). Qed.
#[export] Instance quiet_stopped : Quiet stopped.
Proof. intros e l He Hl. destruct e as [? [] []| | | | | | | | |]; done. Qed.
#[export] Instance quiet_up y : Quiet (up y).
Proof. intros e l He Hl. destruct e as [? [] []| | | | | | | | |]; done. Qed.
#[export] Instance quiet_healthy y : Quiet (healthy y).
Proof. intros e l He Hl. cbn. auto. Qed.

Lemma inspect_sound ready l : inspect ready l = Ready -> ready = true /\ Forall (fun c => sound c = true) l.
Proof.
  revert ready. induction l as [|c l IH]; intros ready; cbn; [by destruct ready|]. case_decide; [done|].
  intros [[-> Hc]%andb_true_iff Hl]%IH. split; [done|]. by constructor.
Qed.

(** ** The primitives, whatever is allowed *)

(** The operations there are, and their stacks: no handler adds or removes one. *)
Definition known (w : W) : list (string * string) := map (fun op => (op_ID op, op_StackID op)) (ops w).
Lemma operation_ids_known stackID w id : id ∈ operation_ids stackID (ops w) <-> (id, stackID) ∈ known w.
Proof.
  unfold operation_ids, known. rewrite !list_elem_of_fmap. split.
  - intros (op & -> & Hop). rewrite merge_sort_Permutation, list_elem_of_filter in Hop. destruct Hop as [<- Hop]. by exists op.
  - intros (op & [= -> ->] & Hop). exists op. split; [done|]. by rewrite merge_sort_Permutation, list_elem_of_filter.
Qed.
Lemma known_Update id st cp m t w : 
  trace (set_ops (Update id st cp m t (ops w)) w) = trace w /\ known (set_ops (Update id st cp m t (ops w)) w) = known w.
Proof.
  split; [done|]. unfold known. cbn. unfold Update. rewrite map_map. apply map_ext. intros op. by case_bool_decide.
Qed.

(** The dataset commands of a restore: clones of the snapshot of the tree's own
    datasets under the temporary name, the two renames of the swap, mountpoints
    and promotions. *)
Definition dataset_step (root snapshot op : string) (c : hostcmd) : Prop :=
  match c with
  | DsClone source target => exists n, under root n = true /\ source = n +:+ "@" +:+ snapshot /\ target = temporary root op +:+ TrimPrefix n root
  | DsRename source target => (source = root /\ target = recovery root op) \/ (source = temporary root op /\ target = root)
  | DsMountpoint _ _ | DsPromote _ => True
  | _ => False
  end.

Lemma known_point stackID snapshot dataset compose w :
  trace (add_point stackID snapshot dataset compose w) = trace w /\ known (add_point stackID snapshot dataset compose w) = known w.
Proof. unfold add_point. by destruct (bool_decide _). Qed.
Lemma known_snapshot stackID operation snapshot kind w :
  trace (add_snapshot stackID operation snapshot kind w) = trace w /\ known (add_snapshot stackID operation snapshot kind w) = known w.
Proof. unfold add_snapshot. by destruct (bool_decide _). Qed.

Section Primitives.
Context `{WorkerEnv} (rows : list (string * string)) (allowed : event -> list event -> Prop) (base : list event).
Definition same (w : W) : Prop := known w = rows.
Abbreviation tracked := (TraceLogic.tracked (E:=string) same trace allowed base).

(** A write records its outcome; whether it was made is not known when it fails. *)
Lemma tracked_write e f (P Q R : list event -> Prop) : (forall w, trace (f w) = trace w /\ known (f w) = known w) ->
  (forall l o, P l -> allowed (e o) l) -> (forall l, P l -> Q (e Done :: l)) -> (forall l o, P l -> R (e o :: l)) ->
  tracked P (write e f) (fun _ => Q) R.
Proof.
  intros Hf Ha HQ HR. apply tracked_event. intros w l Hv _ HP. unfold write.
  destruct (Hf (log (e (database (trace w))) w)) as [Ht Hk].
  split; [by destruct (database (trace w)); cbn; unfold same; rewrite ?Hk|]. exists (e (database (trace w))).
  split_and!; [by destruct (database (trace w)); cbn; rewrite ?Ht|by apply Ha|]. destruct (database (trace w)); cbn; auto.
Qed.
Lemma tracked_note id st cp m (P Q R : list event -> Prop) : (forall l o, P l -> allowed (EOp id st cp o) l) ->
  (forall l, P l -> Q (EOp id st cp Done :: l)) -> (forall l o, P l -> R (EOp id st cp o :: l)) ->
  tracked P (ops_Update id st cp m) (fun _ => Q) R.
Proof.
  intros Ha HQ HR w l. apply (tracked_write (EOp id st cp) (fun w' => set_ops (Update id st cp m (now (trace w)) (ops w')) w')); try done.
  intros w'. apply known_Update.
Qed.
Lemma tracked_update id st cp m (P : list event -> Prop) `{!Quiet P} :
  (forall l o, P l -> allowed (EOp id st cp o) l) -> tracked P (ops_Update id st cp m) (fun _ => P) P.
Proof. intros Ha. apply tracked_note; [done|..]; intros; by apply quiet_kept. Qed.
Lemma tracked_record id k r op a m (P : list event -> Prop) `{!Quiet P} :
  (forall l o, P l -> allowed (ERecord k r op o) l) -> tracked P (Record_event id k r op a m) (fun _ => P) P.
Proof.
  intros Ha w l Hv Ht Ho HP. unfold Record_event, post. destruct (RecordEvent (new_id (trace w)) _ _ _) as [t|e].
  - apply (tracked_write (ERecord k r op) (set_events t) P P P); try done; intros; by apply quiet_kept.
  - split; [done|]. exists [ERecord k r op Refused]. cbn. split_and!; [by rewrite Ht|constructor; auto|by apply quiet_kept].
Qed.
Lemma tracked_query {A} (f : W -> result string A) P : tracked P (query f) (fun _ => P) P.
Proof. apply tracked_silent. intros w Hv. do 2 (split; [done|]). unfold query. cbn. by destruct (readable _); [destruct (f w)|]. Qed.
Lemma tracked_composed id c (P : list event -> Prop) `{!Quiet P} : (forall l o, P l -> allowed (ECompose id c o) l) ->
  tracked P (UpdateStackCompose id c) (fun _ l => P l /\ ECompose id c Done ∈ l) P.
Proof.
  intros Ha. unfold UpdateStackCompose. eapply (tracked_bind _ _ _ _ _ _ _ (fun _ l => P l /\ ECompose id c Done ∈ l)).
  { apply tracked_write; try done; intros; [split; [|by constructor]|]; by apply quiet_kept. }
  skip. apply (tracked_post _ _ _ _ _ _ (fun _ l => P l /\ ECompose id c Done ∈ l) _ (fun l => P l /\ ECompose id c Done ∈ l));
    [done|by intros l [? _]|].
  eapply tracked_bind; [apply tracked_query|]. skip. apply tracked_get. intros w _.
  destruct (sync_targets _ _); [by apply tracked_fail|by apply tracked_ret].
Qed.
Lemma tracked_compose id c (P : list event -> Prop) `{!Quiet P} :
  (forall l o, P l -> allowed (ECompose id c o) l) -> tracked P (UpdateStackCompose id c) (fun _ => P) P.
Proof.
  intros Ha. apply (tracked_post _ _ _ _ _ _ (fun _ l => P l /\ ECompose id c Done ∈ l) _ P); [by intros _ l [? _]|done|].
  by apply tracked_composed.
Qed.

Lemma tracked_raft e (P : list event -> Prop) `{!Quiet P} : (forall l o, P l -> allowed (ERaft e o) l) ->
  tracked P (raft_Apply e) (fun _ l => P l /\ ERaft e Done ∈ l) P.
Proof.
  intros Ha. apply tracked_event. intros w l Hv _ HP. unfold raft_Apply.
  split; [by destruct (raft e (trace w))|]. exists (ERaft e (raft e (trace w))).
  split_and!; [by destruct (raft e (trace w))|by apply Ha|].
  destruct (raft e (trace w)); cbn; try by apply quiet_kept. split; [by apply quiet_kept|by constructor].
Qed.
Definition logged (ev : string) (l : list event) : Prop := exists e, EEvent e = ev /\ ERaft e Done ∈ l.
Lemma tracked_stack_event id node ev (P : list event -> Prop) `{!Quiet P} :
  (forall l e o, P l -> EEvent e = ev -> allowed (ERaft e o) l) ->
  tracked P (applyStackEvent id node ev) (fun _ l => P l /\ logged ev l) P.
Proof.
  intros Ha. unfold applyStackEvent. apply tracked_get. intros w _.
  destruct (FSM_State id (fsm w)) as [inst|]; [|by apply tracked_fail]. destruct (Apply _ _ _) as [nx|]; [|by apply tracked_fail].
  eapply tracked_post; [|done|apply (tracked_raft (mkEntry id (InstState inst) (InstState nx) ev (now (trace w)) node) P)].
  - intros _ l [HP Hin]. split; [done|]. eexists. by split; [|exact Hin].
  - intros l o Hl. by apply Ha.
Qed.
Lemma tracked_stack_event_ id node ev (P : list event -> Prop) `{!Quiet P} :
  (forall l e o, P l -> EEvent e = ev -> allowed (ERaft e o) l) -> tracked P (applyStackEvent id node ev) (fun _ => P) P.
Proof.
  intros Ha. apply (tracked_post _ _ _ _ _ _ (fun _ l => P l /\ logged ev l) _ P); [by intros _ l [? _]|done|].
  by apply tracked_stack_event.
Qed.

Lemma tracked_execute node c (P R : list event -> Prop) (Q : reply -> list event -> Prop) :
  (forall l ok, P l -> allowed (EHost node c ok) l) -> (forall l r, P l -> Q r (EHost node c true :: l)) ->
  (forall l, P l -> R (EHost node c false :: l)) -> tracked P (pool_Execute node c) Q R.
Proof.
  intros Ha HQ HR. apply tracked_event. intros w l Hv _ HP. unfold pool_Execute. split; [done|].
  exists (EHost node c (is_ok (host node c (trace w)))). split_and!; [done|by apply Ha|]. cbn.
  destruct (host node c (trace w)); cbn; auto.
Qed.
Lemma tracked_pool node c (P Q R : list event -> Prop) :
  (forall l ok, P l -> allowed (EHost node c ok) l) -> (forall l, P l -> Q (EHost node c true :: l)) ->
  (forall l, P l -> R (EHost node c false :: l)) -> tracked P (pool_ node c) (fun _ => Q) R.
Proof.
  intros Ha HQ HR. unfold pool_. eapply tracked_bind; [apply (tracked_execute node c P R (fun _ => Q)); auto|].
  intros r. by apply tracked_ret.
Qed.
Lemma tracked_quiet node c (P : list event -> Prop) `{!Quiet P} : quiet (EHost node c true) = true ->
  (forall l ok, P l -> allowed (EHost node c ok) l) -> tracked P (pool_ node c) (fun _ => P) P.
Proof. intros Hq Ha. apply tracked_pool; [done|..]; intros l; apply quiet_kept; [done|]. by destruct c. Qed.

Lemma tracked_ignore {A B} (m : cmd A) (k : result string A -> cmd B) P (S : list event -> Prop) Q R :
  tracked P m (fun _ => S) S -> (forall r, tracked S (k r) Q R) -> tracked P (attempt m ≫= k) Q R.
Proof. intros Hm Hk. by eapply tracked_bind; [apply tracked_try, Hm|]. Qed.
Lemma tracked_or_else {A} (m : cmd A) h (k : A -> cmd unit) P (S : A -> list event -> Prop) (F : list event -> Prop) Q R :
  tracked P m S F -> (forall e, tracked F (h e) Q R) -> (forall a, tracked (S a) (k a) Q R) -> tracked P (or_else m h k) Q R.
Proof.
  intros Hm Hh Hk. unfold or_else. eapply tracked_bind; [apply tracked_attempt, Hm|]. intros [a|e]; cbv beta; auto.
Qed.
Lemma tracked_each {A} (f : A -> cmd unit) L (P : list event -> Prop) :
  (forall x, x ∈ L -> tracked P (f x) (fun _ => P) P) -> tracked P (each f L) (fun _ => P) P.
Proof.
  induction L as [|x L IH]; intros Hf; cbn [each]; [by apply tracked_ret|].
  eapply tracked_bind; [apply Hf; by constructor|]. skip. apply IH. intros y Hy. apply Hf. by constructor.
Qed.

(** Waiting for health. *)
Lemma tracked_look node id y : (forall l e, up y l -> quiet e = true ->
    (exists s, e = ESeen id s) \/ (exists ok, e = EHost node (DockerList id) ok) -> allowed e l) ->
  tracked (up y) (look_at node id) (fun s l => up y l /\ (s = Ready -> healthy y l)) (up y).
Proof.
  intros Ha. unfold look_at. eapply (tracked_bind _ _ _ _ _ _ _ (fun _ => up y)).
  { apply tracked_try. apply tracked_execute; [intros; apply Ha; eauto|..]; by intros. }
  intros [[| |l|]|e]; try (by apply tracked_ret).
  eapply (tracked_bind _ _ _ _ _ _ _ (fun _ l' => up y l' /\ (l <> [] -> inspect true l = Ready -> healthy y l'))).
  - apply tracked_event. intros w l' Hv _ Hl. split; [done|]. exists (ESeen id l). cbn. split_and!; [done|apply Ha; eauto|done|done|].
    intros Hne [_ Hs]%inspect_sound. split; [done|]. left. eauto 10.
  - skip. apply tracked_ret. intros l' [Hu Hh]. split; [done|]. destruct l; [done|]. intros. by apply Hh.
Qed.
Lemma tracked_wait fuel node id deadline y : (forall l e, up y l -> quiet e = true ->
    (exists s, e = ESeen id s) \/ e = ETick \/ (exists ok, e = EHost node (DockerList id) ok) -> allowed e l) ->
  tracked (up y) (wait_loop fuel node id deadline) (fun _ => healthy y) (up y).
Proof.
  intros Ha. induction fuel as [|fuel IH]; cbn [wait_loop]; [by apply tracked_fail|].
  eapply tracked_bind; [apply tracked_look; intros l e Hl Hq [?|?]; apply Ha; auto|]. intros [| |].
  - apply tracked_fail. by intros l [? _].
  - apply tracked_ret. intros l [_ Hh]. by apply Hh.
  - eapply tracked_pre; [by intros l [Hu _]; exact Hu|]. apply tracked_get. intros w _.
    destruct (wake _ _); [by apply tracked_fail..|]. eapply (tracked_bind _ _ _ _ _ _ _ (fun _ => up y)); [|by skip].
    apply tracked_event. intros w' l Hv _ Hl. split; [done|]. exists ETick. split_and!; [done|apply Ha; auto|done].
Qed.

(** Restoring the datasets, where its dataset commands are allowed. *)
Lemma tracked_restore node root snapshot op (P : list event -> Prop) `{!Quiet P} :
  (forall l ok, P l -> allowed (EHost node (DsList (parent_of root)) ok) l) ->
  (forall l c ok, P l -> dataset_step root snapshot op c -> allowed (EHost node c ok) l) ->
  tracked P (restoreDatasets node root snapshot op) (fun _ => P) P.
Proof.
  intros Hl Ha. unfold restoreDatasets. cbv zeta.
  assert (Hc : forall c, dataset_step root snapshot op c -> tracked P (pool_ node c) (fun _ => P) P).
  { intros c Hc. apply (tracked_quiet node c P); [by destruct c|]. intros l ok HP. by apply Ha. }
  assert (Hm : forall s t ds, tracked P (restoreMountpoints node s t ds) (fun _ => P) P).
  { intros s t ds. unfold restoreMountpoints. eapply tracked_bind; [apply tracked_each; intros; by apply Hc|].
    skip. apply tracked_each. intros. by apply Hc. }
  assert (Hp : forall ds, tracked P (promoteTree node root ds) (fun _ => P) P).
  { intros ds. apply tracked_each. intros n _. cbv zeta. case_match; [by apply tracked_ret|by apply Hc]. }
  eapply (tracked_bind _ _ _ _ _ _ _ (fun _ => P)).
  { cbn. eapply tracked_bind; [apply (tracked_execute _ _ P P (fun _ => P)); [intros; by apply Hl|..]; intros; by apply quiet_kept|].
    intros [| | |]; [by apply tracked_fail|by apply tracked_ret|by apply tracked_fail..]. }
  intros ds. case_match; [|case_match; [|case_match]].
  - eapply tracked_bind; [apply Hm|skip]. eapply tracked_bind; [apply Hm|skip]. apply Hp.
  - eapply tracked_bind; [apply Hm|skip]. eapply tracked_bind; [apply Hc; cbn; auto|skip].
    eapply tracked_bind; [apply Hm|skip]. apply Hp.
  - by apply tracked_fail.
  - eapply tracked_bind; [apply tracked_each; intros n [Hn _]%list_elem_of_filter; apply Hc; by exists n|skip].
    eapply tracked_bind; [apply Hc; cbn; auto|skip]. eapply tracked_bind; [apply Hm|skip].
    eapply tracked_bind; [apply Hc; cbn; auto|skip]. eapply tracked_bind; [apply Hm|skip]. apply Hp.
Qed.
End Primitives.

#[export] Instance growing_logged ev : Growing (logged ev).
Proof. intros l l' (e & He & Hin). exists e. split; [done|]. apply elem_of_app. by right. Qed.

(** ** The loop of [waitHealthy], without fuel *)

Section Wait.
Context `{WorkerEnv} (node id : string) (deadline : Z).

Inductive waits : W -> result string unit * W -> Prop :=
| waits_unhealthy w w' : look_at node id w = (Ok Unhealthy, w') -> waits w (Err "unhealthy container", w')
| waits_ready w w' : look_at node id w = (Ok Ready, w') -> waits w (Ok tt, w')
| waits_cancelled w w' : look_at node id w = (Ok Again, w') -> wake deadline (trace w') = Cancelled -> waits w (Err "context canceled", w')
| waits_deadline w w' : look_at node id w = (Ok Again, w') -> wake deadline (trace w') = Deadline -> waits w (Err "did not become healthy", w')
| waits_tick w w' r : look_at node id w = (Ok Again, w') -> wake deadline (trace w') = Tick -> waits (log ETick w') r -> waits w r.

Definition ticks (l : list event) : nat := List.length (filter (fun e => match e with ETick => true | _ => false end = true) l).

Lemma look_at_run w : exists s w', look_at node id w = (Ok s, w') /\ ticks (trace w) = ticks (trace w').
Proof.
  unfold look_at. rewrite bind_run. unfold attempt, pool_Execute.
  by destruct (host _ _ _) as [[| |l|]|e]; cbn; do 2 eexists.
Qed.

(** The loop ends as it does without fuel, unless it was woken by the ticker as
    often as it had fuel for: once per poll period until the deadline. *)
Lemma wait_settles fuel w : waits w (wait_loop fuel node id deadline w) \/
  (ticks (trace (wait_loop fuel node id deadline w).2) = ticks (trace w) + fuel)%nat.
Proof.
  revert w. induction fuel as [|fuel IH]; intros w; [right; cbn; lia|]. cbn [wait_loop]. rewrite bind_run.
  destruct (look_at_run w) as (s & w' & Hl & Ht). rewrite Hl. destruct s; [left; by eapply waits_unhealthy|left; by eapply waits_ready|].
  rewrite bind_run. cbn [get]. destruct (wake deadline (trace w')) eqn:E.
  - left. by eapply waits_cancelled.
  - left. by eapply waits_deadline.
  - rewrite bind_run. cbn [modify]. destruct (IH (log ETick w')) as [Hw|Hw]; [left; by eapply waits_tick|right].
    rewrite Hw, Ht. change (ticks (trace (log ETick w'))) with (S (ticks (trace w'))). lia.
Qed.
End Wait.
