(* ===== verification/WorkerUpgrade.v ===== *)
(** What the upgrade of a stack promises about the order of what it does. *)
From S2P Require Import Prelude TraceLogic GoTime Timestamp Release GoStrings Run Lifecycle Operations CrashLogic HostDatasets DatasetSwap Worker WorkerTrace.
From Stdlib Require Import Ascii.

Open Scope string_scope.
Open Scope list_scope.

Section Upgrade.
Context `{WorkerEnv} (p : StackUpgradePayload) (snapshot newRuntime oldRuntime : string).

Definition taken (l : list event) : Prop :=
  EHost (up_NodeID p) (SnapCreate (up_DatasetPath p) snapshot true (up_OperationID p) "upgrade") true ∈ l.

(** What must have happened before each step of an upgrade. *)
Definition upgrade_allowed (e : event) (l : list event) : Prop :=
  match e with
  | ECompose _ y _ => y = OldCompose p \/ taken l
  | EHost _ (SourceWrite _ _ y) _ => y = OldCompose p \/ taken l
  | EHost _ (ComposeUp _ _ y) _ => y = oldRuntime \/ taken l
  | EHost _ ((DsClone _ _ | DsRename _ _ | DsMountpoint _ _ | DsPromote _) as c) _ =>
      taken l /\ stopped l /\ dataset_step (up_DatasetPath p) snapshot (up_OperationID p) c
  | EHost _ (DsDestroy _ | SnapDestroy _ _ | SnapRollback _ _ _ | SnapPrune _ _) _ => False
  | ERaft e _ => (EEvent e = EventUpdateDone -> healthy newRuntime l) /\ (EEvent e = EventRollbackDone -> healthy oldRuntime l)
  | EOp _ st cp _ => (st = "succeeded" -> healthy newRuntime l /\ logged EventUpdateDone l) /\ (cp = "rolled-back" -> healthy oldRuntime l)
  | ERecord _ r _ _ => (r = "succeeded" -> healthy newRuntime l) /\ (r = "failed-rolled-back" -> healthy oldRuntime l)
  | EDeleteStack _ _ | ERelease _ _ => False
  | _ => True
  end.
(** The operation was recorded as succeeded, or its failure was written or tried
    to be: the handler ignores the error of that write. *)
Definition concluded (l : list event) : Prop :=
  exists st cp o, EOp (up_OperationID p) st cp o ∈ l /\ ((st = "succeeded" /\ o = Done) \/ st = "failed").

Variables (rows : list (string * string)) (base : list event).
Abbreviation tracked := (TraceLogic.tracked (E:=string) (same rows) trace upgrade_allowed base).
#[local] Instance growing_taken : Growing taken.
Proof. intros l l' Hl. apply elem_of_app. by right. Qed.

Lemma tracked_rollback (created : bool) :
  tracked (fun l => created = true -> taken l) (upgrade_rollback p snapshot oldRuntime created)
    (fun _ => healthy oldRuntime) (fun _ => True).
Proof.
  assert (Hq : forall c : bool, Quiet (fun l => c = true -> taken l)) by (intros c e l He Hl Hc; apply quiet_kept; [done|by apply Hl]).
  unfold upgrade_rollback. eapply (tracked_bind _ _ _ _ _ _ _ (fun _ => fun _ => True)).
  { destruct created; [|by apply tracked_ret]. eapply (tracked_bind _ _ _ _ _ _ _ (fun _ l => taken l /\ stopped l)).
    - apply tracked_pool; [done| |done]. intros l Hl. split; [by apply (grows l [_]), Hl|done].
    - skip. eapply tracked_post; [done..|]. apply (tracked_restore _ _ _ _ _ _ _ (fun l => taken l /\ stopped l)); [done|].
      intros l c ok [Ht Hs] Hc. by destruct c. }
  skip. eapply tracked_bind; [apply (tracked_compose _ _ _ _ _ (fun _ => True)); intros; by left|skip].
  eapply tracked_bind; [apply (tracked_quiet _ _ _ _ _ (fun _ => True)); [done|]; intros; by left|skip].
  eapply (tracked_bind _ _ _ _ _ _ _ (fun _ => up oldRuntime)).
  { apply tracked_pool; [intros; by left|done|done]. }
  skip. unfold waitHealthy. apply tracked_get. intros w _.
  eapply (tracked_post _ _ _ _ _ _ (fun _ => healthy oldRuntime) _ (up oldRuntime)); [done|done|]. apply tracked_wait.
  by intros l e _ _ [[s ->]|[->|[ok ->]]].
Qed.

Lemma tracked_upgrade_fail (created : bool) cause :
  tracked (fun l => created = true -> taken l) (upgrade_fail p snapshot oldRuntime created cause) (fun _ => concluded) (fun _ => False).
Proof.
  unfold upgrade_fail. assert (Hq : Quiet (fun l => created = true -> taken l)) by (intros e l He Hl Hc; apply quiet_kept; [done|by apply Hl]).
  assert (Hans : forall cp m (P : list event -> Prop) `{!Quiet P}, (forall l, P l -> cp = "rolled-back" -> healthy oldRuntime l) ->
    tracked P (attempt (ops_Update (up_OperationID p) "failed" cp m)) (fun _ l => P l /\ concluded l) (fun _ => False)).
  { intros cp m P HP Hh. apply (tracked_try _ _ _ _ _ P (fun l => P l /\ concluded l)).
    apply tracked_note; [..|intros l o Hl]; [intros l o Hl|intros l Hl|].
    - split; [done|]. by apply Hh.
    - split; [by apply HP|]. exists "failed", cp, Done. split; [by constructor|by right].
    - split; [by apply HP|]. exists "failed", cp, o. split; [by constructor|by right]. }
  assert (Hrec : forall r m (P : list event -> Prop) `{!Quiet P}, r <> "succeeded" -> (forall l, P l -> r = "failed-rolled-back" -> healthy oldRuntime l) ->
    tracked (fun l => P l /\ concluded l) (attempt (Record_event (up_StackID p) "Upgrade" r (up_OperationID p) (up_Actor p) m)) (fun _ => concluded) (fun _ => False)).
  { intros r m P HP Hne Hh. assert (Quiet (fun l => P l /\ concluded l)).
    { intros e l He [Hl (st & cp & o & Hin & Hx)]. split; [by apply HP|]. exists st, cp, o. split; [by constructor|done]. }
    eapply (tracked_post _ _ _ _ _ _ (fun _ l => P l /\ concluded l)); [by intros _ l [_ ?]|intros l Hl; exact Hl|].
    apply (tracked_try _ _ _ _ _ _ (fun l => P l /\ concluded l)), (tracked_record _ _ _ _ _ _ _ _ _ (fun l => P l /\ concluded l)).
    intros l o [Hl _]. split; [done|by apply Hh]. }
  eapply (tracked_ignore _ _ _ _ _ _ (fun l => created = true -> taken l)).
  { apply (tracked_stack_event_ _ _ _ _ _ _ (fun l => created = true -> taken l)). intros l e o _ E. cbn. by rewrite E. }
  intros r. eapply tracked_bind; [apply tracked_attempt, tracked_rollback|]. intros [a|e].
  - eapply tracked_bind; [|skip; apply tracked_ret; intros l Hl; exact Hl].
    eapply (tracked_ignore _ _ _ _ _ _ (healthy oldRuntime)).
    { apply (tracked_stack_event_ _ _ _ _ _ _ (healthy oldRuntime)). intros l e o Hl E. cbn. rewrite E. by split. }
    intros _. eapply tracked_bind; [by apply (Hans _ _ (healthy oldRuntime) _)|skip]. by apply (Hrec _ _ (healthy oldRuntime) _).
  - eapply tracked_bind; [|skip; apply tracked_ret; intros l Hl; exact Hl].
    eapply (tracked_ignore _ _ _ _ _ _ (fun _ => True)).
    { apply (tracked_stack_event_ _ _ _ _ _ _ (fun _ => True)). intros l e' o _ E. cbn. by rewrite E. }
    intros _. eapply tracked_bind; [by apply (Hans _ _ (fun _ => True) _)|skip]. by apply (Hrec _ _ (fun _ => True) _).
Qed.

Lemma tracked_forward :
  tracked (fun _ => True) (upgrade_forward p snapshot newRuntime oldRuntime) (fun _ => concluded) (logged EventUpdateDone).
Proof.
  unfold upgrade_forward. cbv zeta.
  assert (Hnote : forall cp (P : list event -> Prop) `{!Quiet P}, cp <> "rolled-back" ->
    tracked P (ops_Update (up_OperationID p) "running" cp "") (fun _ => P) P).
  { intros cp P HP Hne. apply (tracked_update _ _ _ _ _ _ _ P). intros l o Hl. by split. }
  assert (Hfail : forall e, tracked taken (upgrade_fail p snapshot oldRuntime true e) (fun _ => concluded) (logged EventUpdateDone)).
  { intros e. eapply tracked_pre; [|eapply tracked_post; [| |apply tracked_upgrade_fail]; done]. by intros l Hl _. }
  assert (Hfail0 : forall e, tracked (fun _ => True) (upgrade_fail p snapshot oldRuntime false e) (fun _ => concluded) (logged EventUpdateDone)).
  { intros e. eapply tracked_pre; [|eapply tracked_post; [| |apply tracked_upgrade_fail]; done]. by intros l Hl. }
  assert (Hfailup : forall y e, tracked (fun l => taken l /\ up y l) (upgrade_fail p snapshot oldRuntime true e) (fun _ => concluded) (logged EventUpdateDone)).
  { intros y e. eapply tracked_pre; [|apply (Hfail e)]. by intros l [Hl _]. }
  eapply (tracked_ignore _ _ _ _ _ _ (fun _ => True)); [by apply (Hnote _ (fun _ => True) _)|intros _].
  eapply (tracked_or_else _ _ _ _ _ _ _ (fun _ => fun _ => True)); [by apply (tracked_quiet _ _ _ _ _ (fun _ => True))|apply Hfail0|skip].
  eapply (tracked_ignore _ _ _ _ _ _ (fun _ => True)); [by apply (Hnote _ (fun _ => True) _)|intros _].
  eapply (tracked_or_else _ _ _ _ _ _ _ (fun _ => taken)); [apply (tracked_pool _ _ _ _ _ (fun _ => True) _ (fun _ => True)); [done| |done]|apply Hfail0|skip].
  { intros l _. by left. }
  eapply (tracked_ignore _ _ _ _ _ _ taken).
  { apply tracked_write; [|done|intros l Hl; by apply (grows l [_])|intros l o Hl; by apply (grows l [_])].
    intros w'. rewrite (proj1 (known_point _ _ _ _ _)), (proj2 (known_point _ _ _ _ _)). apply known_snapshot. }
  intros _. eapply (tracked_ignore _ _ _ _ _ _ taken); [by apply (Hnote _ taken _)|intros _].
  eapply (tracked_or_else _ _ _ _ _ _ _ (fun _ => taken)); [apply (tracked_compose _ _ _ _ _ taken); by right|apply Hfail|skip].
  eapply (tracked_or_else _ _ _ _ _ _ _ (fun _ => taken)); [apply (tracked_quiet _ _ _ _ _ taken); [done|by right]|apply Hfail|skip].
  eapply (tracked_ignore _ _ _ _ _ _ taken); [by apply (Hnote _ taken _)|intros _].
  eapply (tracked_or_else _ _ _ _ _ _ _ (fun _ l => taken l /\ up newRuntime l)).
  { apply (tracked_pool _ _ _ _ _ taken _ taken); [by right| |]; intros l Hl; [split; [|done]|]; by apply (grows l [_]). }
  { apply Hfail. }
  skip. eapply (tracked_or_else _ _ _ _ _ _ _ (fun _ l => taken l /\ healthy newRuntime l)); [|apply Hfailup|skip].
  { unfold waitHealthy. apply tracked_get. intros w _. apply (tracked_frame _ _ _ _ _ taken); [apply growing_taken|].
    apply tracked_wait. by intros l e _ _ [[s ->]|[->|[ok ->]]]. }
  eapply (tracked_or_else _ _ _ _ _ _ _ (fun _ l => (taken l /\ healthy newRuntime l) /\ logged EventUpdateDone l)).
  { apply (tracked_stack_event _ _ _ _ _ _ (fun l => taken l /\ healthy newRuntime l)). intros l e o [_ Hh] E. cbn. rewrite E. by split. }
  { intros e. eapply tracked_pre; [|apply (Hfail e)]. by intros l [Hl _]. }
  skip. eapply (tracked_ignore _ _ _ _ _ _ (fun l => healthy newRuntime l /\ logged EventUpdateDone l)).
  { eapply tracked_pre; [|apply (tracked_record _ _ _ _ _ _ _ _ _ (fun l => healthy newRuntime l /\ logged EventUpdateDone l))]; [by intros l [[_ ?] ?]|].
    intros l o [Hh _]. by split. }
  intros _. apply tracked_note; [intros l o [Hh Hl]; by split|intros l _|intros l o [_ Hl]; by apply (grows l [_])].
  exists "succeeded", "succeeded", Done. split; [by constructor|by left].
Qed.
End Upgrade.

(** What an upgrade starts with: the snapshot's name and the two runtime texts;
    nothing when the operation is finished or something is missing. *)
Definition upgrade_start `{WorkerEnv} (p : StackUpgradePayload) (w : W) : option (string * string * string) :=
  if readable (trace w) then
    op ← Get (up_OperationID p) (ops w);
    s ← stacks w !! up_StackID p;
    new ← runtime_yaml (NewCompose p) s.1 (stack_ip (up_StackID p) (trace w));
    old ← runtime_yaml (OldCompose p) s.1 (stack_ip (up_StackID p) (trace w));
    match finished op, AutomatedSnapshotName (op_CreatedAt op) with
    | false, Ok sn => Some (str sn, new, old)
    | _, _ => None
    end
  else None.

Lemma upgrade_starts `{WorkerEnv} p w :
  match upgrade_start p w with
  | Some (sn, new, old) => handleStackUpgrade p w = upgrade_forward p sn new old w
  | None => trace (handleStackUpgrade p w).2 = trace w
  end.
Proof.
  unfold upgrade_start, handleStackUpgrade. rewrite bind_run. unfold ops_Get, query.
  destruct (readable (trace w)) eqn:Hr; [|done]. destruct (Get _ _) as [op|]; [|done]. cbn [mbind option_bind].
  destruct (finished op) eqn:Hf.
  - destruct (stacks w !! _) as [st|]; [cbn|done]. destruct (runtime_yaml (NewCompose p) _ _); [cbn|done]. by destruct (runtime_yaml _ _ _).
  - rewrite bind_run. unfold GetStack, query. rewrite Hr. destruct (stacks w !! _) as [st|]; [|done]. cbn [mbind option_bind].
    unfold runtimeCompose. rewrite !bind_run. cbn [get]. rewrite Hr.
    destruct (runtime_yaml (NewCompose p) _ _) as [new|]; [|done]. cbn. rewrite !bind_run. cbn. rewrite Hr.
    destruct (runtime_yaml (OldCompose p) _ _) as [old|]; [|done]. cbn. rewrite !bind_run. unfold snapshot_name.
    by destruct (AutomatedSnapshotName _).
Qed.

(** C17. An upgrade, whatever the database, the lifecycle log and the node answer:
    it records nothing before it knows the snapshot's name and both runtime
    texts.  The new Compose text is stored and started only after the snapshot
    was taken, and datasets are put back only while the stack is stopped: the
    clones are of that very snapshot, of the stack's own datasets, and the
    renames those of the swap; nothing is destroyed.  The operation is reported succeeded only
    after every container was seen running and sound under the new text and the
    lifecycle log took the update; rolled back only after the same under the old
    text.  A handler that ends well has recorded the success, or has tried to
    record the failure (the error of that write is ignored, so it may be lost);
    one that fails has put the update in the lifecycle log. *)
Theorem upgrade_ordered `{WorkerEnv} p w :
  match upgrade_start p w with
  | Some (snapshot, new, old) => exists l, trace (handleStackUpgrade p w).2 = l ++ trace w /\
      Ordered (upgrade_allowed p snapshot new old) l /\
      match (handleStackUpgrade p w).1 with Ok _ => concluded p l | Err _ => logged EventUpdateDone l end
  | None => trace (handleStackUpgrade p w).2 = trace w
  end.
Proof.
  pose proof (upgrade_starts p w) as Hs. destruct (upgrade_start p w) as [[[sn new] old]|]; [|done]. rewrite Hs.
  exact (proj2 (tracked_run _ _ _ _ _ _ _ (tracked_forward p sn new old (known w) _) eq_refl)).
Qed.

(** ** A successful upgrade whose last write is lost *)

Module Lost.
Definition answer_ (node : string) (c : hostcmd) (l : list event) : result string reply :=
  match c with
  | DsList _ => Ok (RNames ["floatlab/app"])
  | DockerList _ => Ok (RContainers [mkContainer "running" "healthy"])
  | _ => Ok RNone
  end.
(** The write that follows the lifecycle event of the success is refused. *)
Definition refusing (l : list event) : outcome :=
  match l with ERecord _ "succeeded" _ _ :: _ => Refused | _ => Done end.
#[export] Instance env : WorkerEnv := {|
  host := answer_; database := refusing; readable _ := true; raft _ _ := Done;
  now l := (1800000000000000000 + Z.of_nat (List.length l))%Z; wake _ _ := Cancelled; new_id l := str (repeat "e"%char (List.length l));
  stack_ip _ _ := ""; stack_service _ _ := Ok None;
  runtime_yaml source _ _ := Some source; sync_targets _ _ := None; ParseDuration _ := None |}.
Definition payload : StackUpgradePayload := mkUpgrade "op" "app" "node" "floatlab/app" "old" "new" [] "" "admin".
Definition upgrading : FSM := mkFSM {[ "app" := mkInstance "app" StateUpdating StateRunningPrimary "control" 0 ]} ∅ ∅ 0.
Definition world : W := mkW upgrading [mkOperation "op" "app" "upgrade" "admin" "pending" "" "" "" 1800000000000000000 1800000000000000000] []
  {[ "app" := ("app", "old") ]} [] [] [].
Definition outcome_of (r : result string unit * W) : bool * option (string * string) * option string * option State :=
  (is_ok r.1, (fun op => (op_State op, op_Checkpoint op)) <$> Get "op" (ops r.2), snd <$> stacks r.2 !! "app", InstState <$> FSM_State "app" (fsm r.2)).

(** The first attempt succeeds but for its last write; the next one takes the
    stack, which runs the new version, back to the old version and its data. *)
Example finished_upgrade_undone :
  let first := handleStackUpgrade payload world in
  let second := handleStackUpgrade payload first.2 in
  outcome_of first = (false, Some ("running", "reconciling"), Some "new", Some StateRunningPrimary) /\
  outcome_of second = (true, Some ("failed", "rolled-back"), Some "old", Some StateRunningPrimary) /\
  EHost "node" (DsClone "floatlab/app@fl-0ME6C0" "floatlab/app-restore-op") true ∈ trace second.2.
Proof. vm_compute. split_and!; [done..|]. repeat (apply list_elem_of_here || apply list_elem_of_further). Qed.
End Lost.
