(* ===== verification/WorkerDelete.v ===== *)
(** What the deletion of a stack promises: the order of what it does, and that a
    purge removes the trees that restores left whenever their dependencies allow
    it. *)
From S2P Require Import Prelude TraceLogic GoTime Timestamp Release GoStrings Run Lifecycle Operations CrashLogic HostDatasets DatasetSwap Worker WorkerTrace.
From Stdlib Require Import Ascii.

Open Scope string_scope.
Open Scope list_scope.

Section Delete.
Context `{WorkerEnv} (p : StackDeletePayload) (rows : list (string * string)) (base : list event).

Definition did (c : hostcmd) (l : list event) : Prop := EHost (dl_NodeID p) c true ∈ l.
Definition compose_down (l : list event) : Prop := did (ComposeDown (dl_StackID p) (dl_DatasetPath p)) l.
(** The trees that restores of the stack's operations left are destroyed. *)
Definition swept (l : list event) : Prop := forall id, (id, dl_StackID p) ∈ rows ->
  did (DsDestroy (recovery (dl_DatasetPath p) id)) l /\ did (DsDestroy (temporary (dl_DatasetPath p) id)) l.
Definition purged (l : list event) : Prop := Purge p = true -> swept l /\ did (DsDestroy (dl_DatasetPath p)) l.

(** What must have happened before each step of a deletion. *)
Definition delete_allowed (e : event) (l : list event) : Prop :=
  match e with
  | EHost _ (ComposeDown _ _) _ => True
  | EHost _ (VethDelete _ _ | ServiceDel _) _ => compose_down l
  | EHost _ (DsDestroy d) _ => Purge p = true /\ ERelease (dl_StackID p) Done ∈ l /\ compose_down l /\
      (d = dl_DatasetPath p /\ swept l \/
       exists id, (id, dl_StackID p) ∈ rows /\ (d = recovery (dl_DatasetPath p) id \/ d = temporary (dl_DatasetPath p) id))
  | ERelease id _ => id = dl_StackID p /\ compose_down l /\ did (VethDelete (dl_StackID p) (vethName "flh" (dl_StackID p))) l
  | EDeleteStack id _ => id = dl_StackID p /\ compose_down l /\ ERelease (dl_StackID p) Done ∈ l /\ purged l
  | ERecord _ _ _ _ => EDeleteStack (dl_StackID p) Done ∈ l
  | EOp id st _ _ => id = dl_OperationID p /\ (st = "running" \/ (st = "succeeded" /\ EDeleteStack (dl_StackID p) Done ∈ l))
  | _ => False
  end.
Abbreviation tracked := (TraceLogic.tracked (E:=string) (same rows) trace delete_allowed base).

#[local] Instance growing_did c : Growing (did c).
Proof. intros l l' Hl. apply elem_of_app. by right. Qed.
#[local] Instance growing_swept : Growing swept.
Proof. intros l l' Hl id Hid. destruct (Hl id Hid). split; by apply grows. Qed.
#[local] Instance growing_purged : Growing purged.
Proof. intros l l' Hl HP. destruct (Hl HP). split; by apply grows. Qed.

Definition cleared (l : list event) : Prop := ERelease (dl_StackID p) Done ∈ l /\ compose_down l.
#[local] Instance growing_cleared : Growing cleared.
Proof. apply _. Qed.
Definition released (l : list event) : Prop := cleared l /\ purged l.
Definition side (d : string) : Prop :=
  exists id, (id, dl_StackID p) ∈ rows /\ (d = recovery (dl_DatasetPath p) id \/ d = temporary (dl_DatasetPath p) id).

Lemma tracked_pending_note st cp m (P : list event -> Prop) `{!Growing P} : st = "running" ->
  tracked P (attempt (ops_Update (dl_OperationID p) st cp m)) (fun _ => P) (fun _ => True).
Proof.
  intros ->. apply tracked_try, (tracked_update _ _ _ _ _ _ _ P). intros l o _. by split; [|left].
Qed.

Section Purging.
Hypothesis Hpurge : Purge p = true.

(** A round over the pending datasets: what is no longer pending was destroyed. *)
Lemma tracked_round pending : Forall side pending ->
  tracked cleared (purge_round (dl_NodeID p) pending)
    (fun r l => cleared l /\ r.1 ⊆ pending /\ forall d, d ∈ pending -> d ∈ r.1 \/ did (DsDestroy d) l) (fun _ => True).
Proof.
  induction 1 as [|d pending Hd _ IH]; cbn [purge_round]; [apply tracked_ret; by intros l Hl; split_and!; [..|intros d []%elem_of_nil]|].
  eapply tracked_bind; [apply (tracked_attempt _ _ _ _ _ _ (fun _ l => did (DsDestroy d) l /\ cleared l) cleared)|].
  { apply tracked_pool; [intros l ok Hl; cbn; split_and!; [done|apply Hl..|by right]| |];
      intros l Hl; [split; [by constructor|]|]; by apply (grows l [_]). }
  intros [[]|e]; cbv beta iota.
  - eapply tracked_bind; [eapply tracked_post; [|done|apply (tracked_frame _ _ _ _ _ (did (DsDestroy d)) _ _ _ IH)]; intros r l Hl; exact Hl|].
    intros r. apply tracked_ret. intros l (Hdid & Hc & Hsub & Hall). split_and!; [done|set_solver|].
    intros d' [->|Hin]%elem_of_cons; [by right|auto].
  - eapply tracked_bind; [apply IH|]. intros r. apply tracked_ret. intros l (Hc & Hsub & Hall).
    split_and!; [done|cbn; set_solver|]. cbn. intros d' [->|Hin]%elem_of_cons; [left; by constructor|].
    destruct (Hall d' Hin); [left; by constructor|by right].
Qed.

Lemma tracked_purge fuel pending : Forall side pending ->
  tracked cleared (purge fuel (dl_NodeID p) pending)
    (fun _ l => cleared l /\ forall d, d ∈ pending -> did (DsDestroy d) l) (fun _ => True).
Proof.
  revert pending. induction fuel as [|fuel IH]; intros [|d0 pending'] Hp; try (by apply tracked_fail);
    try (by apply tracked_ret; intros l Hl; split; [|intros d []%elem_of_nil]).
  cbn [purge]. set (pending := d0 :: pending') in *. eapply tracked_bind; [by apply tracked_round|].
  intros r. case_decide; [by apply tracked_fail|].
  apply (tracked_pre _ _ _ _ _ (fun l => r.1 ⊆ pending /\ (forall d, d ∈ pending -> d ∈ r.1 \/ did (DsDestroy d) l) /\ cleared l));
    [by intros l (? & ? & ?)|].
  apply tracked_pure. intros Hsub. assert (Hr : Forall side r.1) by (rewrite Forall_forall in Hp |- *; auto).
  assert (Growing (fun l => forall d, d ∈ pending -> d ∈ r.1 \/ did (DsDestroy d) l)).
  { intros l l' Hl d Hd. destruct (Hl d Hd); [by left|right; by apply grows]. }
  eapply tracked_post; [|done|apply (tracked_frame _ _ _ _ _ _ _ _ _ (IH _ Hr))].
  intros _ l (Hall & Hc & Hd). split; [done|]. intros d Hin. destruct (Hall d Hin); auto.
Qed.

Lemma tracked_purge_stack : tracked cleared (purge_stack p) (fun _ => released) (fun _ => True).
Proof.
  unfold purge_stack. eapply tracked_bind; [by apply (tracked_pending_note _ _ _ cleared)|skip].
  eapply (tracked_bind _ _ _ _ _ _ _ (fun ids l => (forall id, id ∈ ids <-> (id, dl_StackID p) ∈ rows) /\ cleared l)).
  { apply tracked_silent. intros w Hv. do 2 (split; [done|]). unfold query. cbn. destruct (readable _); [|done].
    intros l Hl. split; [|done]. intros id. rewrite <- Hv. apply operation_ids_known. }
  intros ids. case_decide; [by apply tracked_fail|]. apply tracked_pure. intros Hids. cbv zeta.
  eapply tracked_bind; [apply tracked_purge|skip].
  - apply Forall_forall. intros d Hd. apply list_elem_of_In, in_flat_map in Hd as (id & Hin%list_elem_of_In & Hd%list_elem_of_In).
    exists id. split; [by apply Hids|]. set_solver.
  - assert (Hsw : forall l, (forall d, d ∈ siblings (dl_DatasetPath p) ids -> did (DsDestroy d) l) -> swept l).
    { intros l Hl id Hid%Hids. split; apply Hl, list_elem_of_In, in_flat_map; exists id;
        (split; [by apply list_elem_of_In|]); apply list_elem_of_In; set_solver. }
    apply tracked_pool; [| |done].
    + intros l ok [[? ?] Hd%Hsw]. cbn. split_and!; try done. by left.
    + intros l [Hc Hd%Hsw]. split; [by apply (grows l [_])|]. intros _. split; [by apply (grows l [_])|by constructor].
Qed.
End Purging.

Lemma tracked_done id (P : list event -> Prop) : tracked P (operationDone id) (fun _ => P) (fun _ => True).
Proof.
  unfold operationDone. eapply (tracked_ignore _ _ _ _ _ _ P); [apply tracked_query|]. intros r. by apply tracked_ret.
Qed.

Lemma tracked_delete : tracked (fun _ => True) (handleStackDelete p) (fun _ _ => True) (fun _ => True).
Proof.
  unfold handleStackDelete. eapply tracked_bind; [apply tracked_done|]. intros [|]; [by apply tracked_ret|].
  eapply tracked_bind; [by apply (tracked_pending_note _ _ _ (fun _ => True))|skip].
  eapply (tracked_bind _ _ _ _ _ _ _ (fun _ => compose_down)); [apply tracked_pool; [done| |done]; intros l _; by constructor|skip].
  eapply tracked_bind; [by apply (tracked_pending_note _ _ _ compose_down)|skip].
  set (veth := VethDelete (dl_StackID p) (vethName "flh" (dl_StackID p))).
  eapply (tracked_bind _ _ _ _ _ _ _ (fun _ l => compose_down l /\ did veth l)).
  { apply tracked_pool; [done| |done]. intros l Hl. split; [by apply (grows l [_])|by constructor]. }
  skip. eapply (tracked_bind _ _ _ _ _ _ _ (fun _ l => compose_down l /\ did veth l)); [apply tracked_silent; intros w Hv; do 2 (split; [done|]); by destruct (StackService _ _).1|].
  intros service. eapply (tracked_bind _ _ _ _ _ _ _ (fun _ l => compose_down l /\ did veth l)).
  { destruct service as [a|]; [|by apply tracked_ret]. apply tracked_pool; [by intros l ok [? _]| |done].
    intros l [? ?]. split; by apply (grows l [_]). }
  skip. eapply (tracked_bind _ _ _ _ _ _ _ (fun _ => cleared)).
  { apply tracked_write; [done|intros l o [? ?]; by split_and!| |done]. intros l [? _]. split; [by constructor|by apply (grows l [_])]. }
  skip. eapply (tracked_bind _ _ _ _ _ _ _ (fun _ => released)).
  { destruct (Purge p) eqn:E; [by apply tracked_purge_stack|]. apply tracked_ret. intros l Hl. split; [done|]. intros E'. by rewrite E in E'. }
  skip. eapply (tracked_bind _ _ _ _ _ _ _ (fun _ => elem_of (EDeleteStack (dl_StackID p) Done))).
  { apply tracked_write; [done|intros l o [[? ?] ?]; by split_and!| |done]. intros l _. by constructor. }
  skip. eapply (tracked_ignore _ _ _ _ _ _ (elem_of (EDeleteStack (dl_StackID p) Done))).
  { by apply (tracked_record _ _ _ _ _ _ _ _ _ (elem_of (EDeleteStack (dl_StackID p) Done))). }
  intros _. apply tracked_note; [|done..]. intros l o Hl. split; [done|]. by right.
Qed.
End Delete.

(** C19. A deletion, whatever the database, the address pool and the node answer:
    the veth pair and the service rule go only after the containers are down, the
    address is released only after both; datasets are destroyed only when a purge
    was asked for, only the root and the trees that restores of this stack's
    operations left beside it, and the root after every one of those; the
    stack's row is deleted after all of this, and the operation is reported
    succeeded only after the row was deleted. *)
Theorem delete_ordered `{WorkerEnv} p w :
  exists l, trace (handleStackDelete p w).2 = l ++ trace w /\ Ordered (delete_allowed p (known w)) l.
Proof.
  destruct (tracked_run _ _ _ _ _ _ w (tracked_delete p (known w) _) eq_refl) as (_ & l & Ht & Ho & _). by exists l.
Qed.

(** ** Purging *)

Lemma sublist_whole {A} (l k : list A) : sublist l k -> List.length l = List.length k -> l = k.
Proof.
  induction 1 as [|x l k _ IH|x l k Hs _]; cbn; intros E; [done|by rewrite IH; [|lia]|].
  apply sublist_length in Hs. lia.
Qed.

Section Purge.
Context `{WorkerEnv} (node : string).

(** The loop over the pending datasets, without fuel. *)
Inductive purges : list string -> W -> result string unit * W -> Prop :=
| purges_nothing w : purges [] w (Ok tt, w)
| purges_stuck pending blocked e w w' : pending <> [] -> purge_round node pending w = (Ok (blocked, e), w') ->
    List.length blocked = List.length pending -> purges pending w (Err (default "" e), w')
| purges_on pending blocked e w w' r : pending <> [] -> purge_round node pending w = (Ok (blocked, e), w') ->
    List.length blocked <> List.length pending -> purges blocked w' r -> purges pending w r.

Definition gone (d : string) (l : list event) : Prop := EHost node (DsDestroy d) true ∈ l.
#[local] Instance growing_gone d : Growing (gone d).
Proof. apply growing_elem. Qed.

(** A round asks for every pending dataset, in order, and keeps those refused. *)
Lemma purge_round_run pending w : exists blocked e w' l,
  purge_round node pending w = (Ok (blocked, e), w') /\ trace w' = l ++ trace w /\ sublist blocked pending /\
  (blocked = [] -> e = None) /\
  forall d, d ∈ pending -> exists l1 l2, l = l1 ++ l2 /\
    (is_ok (host node (DsDestroy d) (l2 ++ trace w)) = true -> gone d l /\ (NoDup pending -> d ∉ blocked)) /\ (gone d l \/ d ∈ blocked).
Proof.
  revert w. induction pending as [|d pending IH]; intros w; cbn [purge_round].
  { exists [], None, w, []. split_and!; try done. intros d []%elem_of_nil. }
  cbn [dataset_destroy worker_nodes]. unfold pool_, pool_Execute, attempt. rewrite !bind_run.
  set (ok := is_ok (host node (DsDestroy d) (trace w))).
  destruct (IH (log (EHost node (DsDestroy d) ok) w)) as (blocked & e & w' & l & Hrun & Ht & Hsub & He & Hall).
  exists (if ok then blocked else d :: blocked), (match host node (DsDestroy d) (trace w) with Ok _ => e | Err m => Some m end), w',
    (l ++ [EHost node (DsDestroy d) ok]).
  split_and!.
  - unfold ok in *. destruct (host node (DsDestroy d) (trace w)); cbn in *; by rewrite bind_run, Hrun.
  - rewrite <- app_assoc. exact Ht.
  - destruct ok; [by apply sublist_cons|by apply sublist_skip].
  - unfold ok. by destruct (host node (DsDestroy d) (trace w)).
  - intros d' [->|Hin]%elem_of_cons.
    + exists (l ++ [EHost node (DsDestroy d) ok]), []. split_and!; [by rewrite app_nil_r|..]; fold ok.
      * cbn. fold ok. intros E. rewrite E. split; [apply elem_of_app; right; by apply list_elem_of_singleton|].
        intros [Hn _]%NoDup_cons Hb. apply Hn. by eapply elem_of_sublist.
      * destruct ok; [left; apply elem_of_app; right; by apply list_elem_of_singleton|right; by constructor].
    + destruct (Hall d' Hin) as (l1 & l2 & -> & Hok & Hor). exists l1, (l2 ++ [EHost node (DsDestroy d) ok]). split_and!.
      * by rewrite app_assoc.
      * rewrite <- app_assoc. cbn in *. intros E. destruct (Hok E) as [Hg Hn]. split; [apply elem_of_app; by left|].
        intros [Hd Hnd]%NoDup_cons. destruct ok; [by apply Hn|]. apply not_elem_of_cons. split; [by intros ->|by apply Hn].
      * destruct Hor as [Hg|Hb]; [left; apply elem_of_app; by left|right; destruct ok; [done|by constructor]].
Qed.

Lemma purge_settled fuel pending w : (List.length pending <= fuel)%nat -> purges pending w (purge fuel node pending w).
Proof.
  revert pending w. induction fuel as [|fuel IH]; intros [|d pending'] w Hle; try (by constructor); [cbn in Hle; lia|].
  cbn [purge]. set (pending := d :: pending') in *. rewrite bind_run.
  destruct (purge_round_run pending w) as (blocked & e & w' & l & Hrun & Ht & Hsub & _ & _). rewrite Hrun. cbn [fst snd].
  pose proof (sublist_length _ _ Hsub) as Hlen. case_decide as E; cbn [fst] in E.
  - by eapply purges_stuck.
  - eapply purges_on; [done|exact Hrun|done|]. apply IH. lia.
Qed.

Section Ranked.
(** [needs d' d]: the tree [d] cannot go before [d'] (a clone of a snapshot of [d]). *)
Context (needs : string -> string -> Prop) (rank : string -> nat) (all : list string).
Hypothesis Hrank : forall d d', needs d' d -> (rank d' < rank d)%nat.
Hypothesis Hgoes : forall d l, d ∈ all -> (forall d', needs d' d -> d' ∈ all -> gone d' l) ->
  is_ok (host node (DsDestroy d) l) = true.

Lemma lowest pending : pending <> [] -> exists d, d ∈ pending /\ forall d', d' ∈ pending -> (rank d <= rank d')%nat.
Proof.
  induction pending as [|d [|d2 pending] IH]; intros Hne; [done| |].
  - exists d. split; [by constructor|]. by intros d' ->%list_elem_of_singleton.
  - destruct IH as (m & Hin & Hm); [done|]. destruct (decide (rank d <= rank m)%nat) as [Hd|Hd].
    + exists d. split; [by constructor|]. intros d' [->|Hin']%elem_of_cons; [done|]. etrans; [exact Hd|auto].
    + exists m. split; [by constructor|]. intros d' [->|Hin']%elem_of_cons; [lia|auto].
Qed.

(** While something is pending a round destroys something: the lowest. *)
Lemma purge_ranked fuel pending w : (List.length pending <= fuel)%nat -> NoDup pending -> pending ⊆ all ->
  (forall d, d ∈ all -> d ∈ pending \/ gone d (trace w)) ->
  exists w', purge fuel node pending w = (Ok tt, w') /\ forall d, d ∈ all -> gone d (trace w').
Proof.
  revert pending w. induction fuel as [|fuel IH]; intros [|d0 pending'] w Hle Hnd Hsub Hall; try (cbn in Hle; lia);
    try (by exists w; split; [|intros d Hd; destruct (Hall d Hd) as [[]%elem_of_nil|]]).
  cbn [purge]. set (pending := d0 :: pending') in *. rewrite bind_run.
  destruct (purge_round_run pending w) as (blocked & e & w' & l & Hrun & Ht & Hbl & _ & Hd). rewrite Hrun. cbn [fst snd].
  destruct (lowest pending ltac:(done)) as (m & Hm & Hlow).
  assert (Hgm : m ∉ blocked).
  { destruct (Hd m Hm) as (l1 & l2 & _ & Hok & _). apply Hok; [|done]. apply Hgoes; [by apply Hsub|]. intros d' Hneed Hd'.
    apply (grows _ l2). destruct (Hall d' Hd') as [Hp|]; [|done]. apply Hlow in Hp. apply Hrank in Hneed. lia. }
  assert (Hlen : List.length blocked <> List.length pending).
  { intros E. apply Hgm. by rewrite (sublist_whole _ _ Hbl E). }
  rewrite decide_False by done. destruct (IH blocked w') as (w2 & Hr2 & Hg2).
  - pose proof (sublist_length _ _ Hbl). lia.
  - by eapply sublist_NoDup.
  - intros d Hin. apply Hsub. by eapply elem_of_sublist.
  - intros d Hin. rewrite Ht. destruct (Hall d Hin) as [Hp|Hg]; [|right; by apply (grows _ l)].
    destruct (Hd d Hp) as (l1 & l2 & _ & _ & [Hg|Hb]); [right|by left]. apply elem_of_app. by left.
  - by exists w2.
Qed.
End Ranked.
End Purge.

(** The purge's loop over the trees that restores left ends after at most as
    many rounds as there are trees: it stops with nothing pending, or with the
    first error of a round in which every tree was refused. *)
Theorem purge_settles `{WorkerEnv} node pending w : purges node pending w (purge (List.length pending) node pending w).
Proof. by apply purge_settled. Qed.

(** ** The trees of one stack *)

Lemma recovery_inj root a b : recovery root a = recovery root b -> a = b.
Proof. unfold recovery. by intros ?%(inj _)%(inj _). Qed.
Lemma temporary_inj root a b : temporary root a = temporary root b -> a = b.
Proof. unfold temporary. by intros ?%(inj _)%(inj _). Qed.
Lemma recovery_temporary root a b : recovery root a <> temporary root b.
Proof. unfold recovery, temporary. by intros ?%(inj _). Qed.

Lemma siblings_elem root ids d : d ∈ siblings root ids <-> exists id, id ∈ ids /\ (d = recovery root id \/ d = temporary root id).
Proof.
  unfold siblings. rewrite list_elem_of_In, in_flat_map. split; intros (id & Hin & Hd); exists id;
    (split; [by apply list_elem_of_In|]); apply list_elem_of_In in Hd || apply list_elem_of_In; set_solver.
Qed.
Lemma siblings_NoDup root ids : NoDup ids -> NoDup (siblings root ids).
Proof.
  induction 1 as [|id ids Hid _ IH]; [constructor|]. change (siblings root (id :: ids)) with (recovery root id :: temporary root id :: siblings root ids).
  assert (Hnot : forall d, (d = recovery root id \/ d = temporary root id) -> d ∉ siblings root ids).
  { intros d Hd (id' & Hin & Hd')%siblings_elem. assert (id = id') as ->; [|done].
    destruct Hd as [->| ->], Hd' as [E|E]; [by eapply recovery_inj|by apply recovery_temporary in E|by apply symmetry, recovery_temporary in E|by eapply temporary_inj]. }
  constructor; [apply not_elem_of_cons; split; [apply recovery_temporary|apply Hnot; by left]|].
  constructor; [apply Hnot; by right|done].
Qed.

Lemma operation_ids_NoDup stackID w : NoDup (map fst (known w)) -> NoDup (operation_ids stackID (ops w)).
Proof.
  intros Hnd. unfold operation_ids. change (map op_ID) with (fmap (M:=list) op_ID). rewrite merge_sort_Permutation.
  eapply sublist_NoDup; [|apply fmap_sublist, sublist_filter]. revert Hnd. unfold known. by rewrite map_map.
Qed.

(** C20. A purge removes everything the stack left, whenever it can be done: when
    operations have distinct names, the database answers, and the node destroys a
    tree once those that depend on it are gone, in any acyclic order of the trees
    that restores left, and the root once all of those are gone, then the purge
    succeeds and every one of these trees and the root was destroyed. *)
Theorem purge_destroys `{WorkerEnv} (needs : string -> string -> Prop) (rank : string -> nat) p w :
  let ids := operation_ids (dl_StackID p) (ops w) in
  let trees := siblings (dl_DatasetPath p) ids in
  NoDup (map fst (known w)) -> "" ∉ ids -> (forall l, readable l = true) ->
  (forall d d', needs d' d -> (rank d' < rank d)%nat) ->
  (forall d l, d ∈ trees -> (forall d', needs d' d -> d' ∈ trees -> gone (dl_NodeID p) d' l) ->
     is_ok (host (dl_NodeID p) (DsDestroy d) l) = true) ->
  (forall l, (forall d, d ∈ trees -> gone (dl_NodeID p) d l) -> is_ok (host (dl_NodeID p) (DsDestroy (dl_DatasetPath p)) l) = true) ->
  exists w', purge_stack p w = (Ok tt, w') /\ gone (dl_NodeID p) (dl_DatasetPath p) (trace w') /\
    forall d, d ∈ trees -> gone (dl_NodeID p) d (trace w').
Proof.
  intros ids trees Hnd Hne Hread Hrank Hgoes Hroot. unfold purge_stack. rewrite bind_run. unfold attempt.
  assert (exists r w1, ops_Update (dl_OperationID p) "running" "purging" "" w = (r, w1) /\ known w1 = known w) as (r & w1 & -> & Hk).
  { unfold ops_Update, write. by destruct (database (trace w)); do 2 eexists; (split; [done|]); rewrite ?(proj2 (known_Update _ _ _ _ _ (log _ w))). }
  set (ids1 := operation_ids (dl_StackID p) (ops w1)).
  assert (Hids : forall id, id ∈ ids1 <-> id ∈ ids) by (intros id; unfold ids1, ids; by rewrite !operation_ids_known, Hk).
  assert (Htrees : forall d, d ∈ siblings (dl_DatasetPath p) ids1 <-> d ∈ trees).
  { intros d. unfold trees. rewrite !siblings_elem. by setoid_rewrite Hids. }
  rewrite bind_run. unfold query. rewrite Hread. fold ids1. rewrite decide_False by by rewrite Hids. cbv zeta. rewrite bind_run.
  destruct (purge_ranked (dl_NodeID p) needs rank trees Hrank Hgoes _ (siblings (dl_DatasetPath p) ids1) w1 ltac:(done)) as (w2 & -> & Hg).
  - apply siblings_NoDup, operation_ids_NoDup. by rewrite Hk.
  - intros d. by rewrite Htrees.
  - intros d Hd. left. by apply Htrees.
  - cbn. unfold pool_, pool_Execute. rewrite bind_run.
    pose proof (Hroot _ Hg) as Hok. destruct (host _ _ _) as [a|e] eqn:E; [|done]. eexists. split; [done|]. cbn. split.
    + by constructor.
    + intros d Hd. right. by apply Hg.
Qed.

(** Two restores were made; the tree of the newer one depends on that of the older. *)
Module Sample.
Definition older : string := "floatlab/app-recovery-restore-older".
Definition newer : string := "floatlab/app-recovery-restore-newer".
Definition removed (d : string) (e : event) : bool :=
  match e with EHost _ (DsDestroy d') true => bool_decide (d' = d) | _ => false end.
Definition node_answers (node : string) (c : hostcmd) (l : list event) : result string reply :=
  match c with
  | DsDestroy d => if bool_decide (d = newer) && negb (existsb (removed older) l) then Err "dataset has dependent clones" else Ok RNone
  | _ => Ok RNone
  end.
#[export] Instance env : WorkerEnv := {|
  host := node_answers; database _ := Done; readable _ := true; raft _ _ := Done; now _ := 5000000000%Z;
  wake _ _ := Cancelled; new_id _ := "event"; stack_ip _ _ := ""; stack_service _ _ := Ok None;
  runtime_yaml _ _ _ := None; sync_targets _ _ := None; ParseDuration _ := None |}.
Definition payload : StackDeletePayload := mkDelete "delete" "app" "node" "floatlab/app" true "admin".
Definition operation_row (id stack action state : string) (created : Z) : Operation :=
  mkOperation id stack action "admin" state "" "" "" created created.
Definition world : W := mkW NewFSM
  [operation_row "restore-older" "app" "restore" "succeeded" 1; operation_row "restore-newer" "app" "restore" "succeeded" 2;
   operation_row "restore-foreign" "another" "restore" "succeeded" 3; operation_row "delete" "app" "delete" "pending" 4]
  [] (list_to_map [("app", ("app", "services: {}"))]) [] [] [].
Definition depends (d' d : string) : Prop := d' = older /\ d = newer.

Lemma removed_gone d l : gone "node" d l -> existsb (removed d) l = true.
Proof. intros Hin. apply existsb_exists. eexists. split; [by apply list_elem_of_In|]. cbn. by rewrite bool_decide_true. Qed.

Theorem purge_destroys_witness : exists w', purge_stack payload world = (Ok tt, w') /\
  gone "node" "floatlab/app" (trace w') /\ gone "node" newer (trace w').
Proof.
  destruct (purge_destroys depends (fun d => if decide (d = newer) then 1%nat else 0%nat) payload world) as (w' & Hr & Hroot & Ht).
  - change (NoDup (["restore-older"; "restore-newer"; "restore-foreign"; "delete"] : list string)). apply (bool_decide_unpack _). vm_compute. exact I.
  - apply (bool_decide_unpack _). vm_compute. exact I.
  - done.
  - intros d d' [-> ->]. vm_compute. lia.
  - intros d l _ Hl. cbn. case_bool_decide as E; [|done]. cbn. rewrite removed_gone; [done|]. apply Hl; [done|].
    apply (bool_decide_unpack _). vm_compute. exact I.
  - done.
  - exists w'. split_and!; [done..|]. apply Ht. apply (bool_decide_unpack _). vm_compute. exact I.
Defined.
End Sample.
