(* ===== verification/WorkerRestore.v ===== *)
(** What the restore of a stack promises about the order of what it does. *)
From S2P Require Import Prelude TraceLogic GoTime Timestamp Release GoStrings Run Lifecycle Operations CrashLogic HostDatasets DatasetSwap Worker WorkerTrace.
From Stdlib Require Import Ascii.

Open Scope string_scope.
Open Scope list_scope.

Section Restore.
Context `{WorkerEnv} (p : StackRestorePayload) (checkpoint : string) (rows : list (string * string)) (base : list event).

Definition activating : bool := bool_decide (checkpoint = "activating-snapshot").
Definition swapping : bool := activating || bool_decide (checkpoint = "starting").
Definition noted (cp : string) (l : list event) : Prop := EOp (rt_OperationID p) "running" cp Done ∈ l.
Definition kept (l : list event) : Prop :=
  exists snapshot, EHost (rt_NodeID p) (SnapCreate (rt_DatasetPath p) snapshot true (rt_OperationID p) "restore") true ∈ l.
(** The present data are kept in a snapshot, unless an earlier attempt did it. *)
Definition preserved (l : list event) : Prop := swapping = false -> kept l.
(** A stack that ran was stopped, unless an earlier attempt did it; then this
    one neither starts nor stops it. *)
Definition quieted (l : list event) : Prop :=
  if activating then Forall (fun e => quiet e = true) l else WasRunning p = true -> stopped l.
(** This attempt has not written that it swaps the data. *)
Definition early (l : list event) : Prop := Forall (fun e => forall id st o, e <> EOp id st "activating-snapshot" o) l.
Definition placed (l : list event) : Prop := ECompose (rt_StackID p) (SourceCompose p) Done ∈ l.

(** What must have happened before each step of an attempt. *)
Definition restore_allowed (e : event) (l : list event) : Prop :=
  match e with
  | EHost _ ((DsClone _ _ | DsRename _ _ | DsMountpoint _ _ | DsPromote _) as c) _ =>
      preserved l /\ quieted l /\ noted "activating-snapshot" l /\ dataset_step (rt_DatasetPath p) (rt_Snapshot p) (rt_OperationID p) c
  | EHost _ (DsDestroy _ | SnapDestroy _ _ | SnapRollback _ _ _ | SnapPrune _ _) _ => False
  | EHost _ (SnapCreate _ _ _ _ _) _ => swapping = false /\ quieted l /\ early l
  | EHost _ (SourceWrite _ _ y) _ => y = SourceCompose p /\ ECompose (rt_StackID p) y Done ∈ l
  | EHost _ (ComposeUp _ _ y) _ => WasRunning p = true /\ y = rt_ComposeFile p /\ placed l /\
      exists l', l = EOp (rt_OperationID p) "running" "starting" Done :: l'
  | EHost _ (ComposeDown _ _) _ => activating = false /\ early l
  | ECompose _ y _ => y = SourceCompose p /\ noted "activating-snapshot" l
  | EPoint _ _ d _ _ => d = recovery (rt_DatasetPath p) (rt_OperationID p) /\ ECompose (rt_StackID p) (SourceCompose p) Done ∈ l
  | EOp id st cp _ => id = rt_OperationID p /\
      (cp = "activating-snapshot" -> preserved l /\ quieted l) /\ (cp = "starting" -> preserved l /\ noted "activating-snapshot" l) /\
      (cp = "stopping" \/ cp = "preserving-current" -> swapping = false /\ early l) /\
      (st = "succeeded" -> placed l /\ (WasRunning p = true -> healthy (rt_ComposeFile p) l)) /\
      cp ∈ ["stopping"; "preserving-current"; "activating-snapshot"; "starting"; "succeeded"]
  | ERecord _ r _ _ => WasRunning p = true -> healthy (rt_ComposeFile p) l
  | ERaft _ _ | EDeleteStack _ _ | ERelease _ _ => False
  | _ => True
  end.
Abbreviation tracked := (TraceLogic.tracked (E:=string) (same rows) trace restore_allowed base).
#[local] Instance growing_preserved : Growing preserved.
Proof. intros l l' Hl E. destruct (Hl E) as [s Hs]. exists s. apply elem_of_app. by right. Qed.
#[local] Instance quiet_quieted : Quiet quieted.
Proof.
  intros e l He. unfold quieted. destruct activating; [by constructor|]. intros Hl E. apply quiet_kept; auto.
Qed.
Lemma early_cons e l : (forall id st o, e <> EOp id st "activating-snapshot" o) -> early l -> early (e :: l).
Proof. by constructor. Qed.

Lemma allowed_note st cp l o : (cp = "activating-snapshot" -> preserved l /\ quieted l) -> (cp = "starting" -> preserved l /\ noted "activating-snapshot" l) ->
  (cp = "stopping" \/ cp = "preserving-current" -> swapping = false /\ early l) -> st <> "succeeded" ->
  cp ∈ ["stopping"; "preserving-current"; "activating-snapshot"; "starting"; "succeeded"] -> restore_allowed (EOp (rt_OperationID p) st cp o) l.
Proof. intros. by split_and!. Qed.

Lemma tracked_restore_start : tracked (fun l => l = [])
  (if WasRunning p && negb activating then
     (if negb swapping then attempt (ops_Update (rt_OperationID p) "running" "stopping" "");; ret tt else ret tt);;
     pool_ (rt_NodeID p) (ComposeDown (rt_StackID p) (rt_DatasetPath p))
   else ret tt) (fun _ l => quieted l /\ early l) (fun _ => True).
Proof.
  assert (Hnil : forall l : list event, l = [] -> early l) by (intros l ->; constructor).
  unfold quieted. destruct activating eqn:Ea; [rewrite andb_false_r; apply tracked_ret; intros l ->; split; constructor|].
  destruct (WasRunning p) eqn:Ew; cbn [andb negb]; [|apply tracked_ret; intros l Hl; split; [done|by apply Hnil]].
  eapply (tracked_bind _ _ _ _ _ _ _ (fun _ => early)).
  - destruct (negb swapping) eqn:Es; [|by apply tracked_ret]. apply negb_true_iff in Es.
    eapply (tracked_ignore _ _ _ _ _ _ early); [|intros _; by apply tracked_ret].
    apply tracked_note; [|by intros l ->; apply early_cons; [|constructor]|by intros l o ->; apply early_cons; [|constructor]].
    intros l o ->. apply allowed_note; try done; [|set_solver]. intros _. split; [done|constructor].
  - skip. apply tracked_pool; [by intros l ok Hl; split| |done]. intros l Hl. split; [done|by apply early_cons].
Qed.

Lemma tracked_preserve snapshot : tracked (fun l => quieted l /\ early l)
  (if negb swapping then
     attempt (ops_Update (rt_OperationID p) "running" "preserving-current" "");;
     pool_ (rt_NodeID p) (SnapCreate (rt_DatasetPath p) snapshot true (rt_OperationID p) "restore")
   else ret tt) (fun _ l => preserved l /\ quieted l) (fun _ => True).
Proof.
  unfold preserved. destruct swapping eqn:E; cbn [negb]; [apply tracked_ret; by intros l [? _]|].
  eapply (tracked_ignore _ _ _ _ _ _ (fun l => quieted l /\ early l)).
  { apply tracked_note.
    - intros l o [Hq He]. apply allowed_note; try done. set_solver.
    - intros l [Hq He]. split; [by apply quiet_kept|by apply early_cons].
    - intros l o [Hq He]. split; [by apply quiet_kept|by apply early_cons]. }
  intros _. apply tracked_pool; [by intros l ok [Hq He]; split_and!| |done]. intros l [Hq He]. split; [|by apply quiet_kept].
  intros _. exists snapshot. by constructor.
Qed.

#[local] Instance growing_placed : Growing placed.
Proof. apply growing_elem. Qed.

(** What an attempt knows once the data are swapped and the text is stored. *)
Definition swapped_in (l : list event) : Prop := placed l /\ preserved l /\ noted "activating-snapshot" l.
#[local] Instance growing_swapped_in : Growing swapped_in.
Proof. unfold swapped_in, noted. apply _. Qed.

Lemma tracked_restart : tracked swapped_in
  (if WasRunning p then
     ops_Update (rt_OperationID p) "running" "starting" "";;
     pool_ (rt_NodeID p) (ComposeUp (rt_StackID p) (rt_DatasetPath p) (rt_ComposeFile p));;
     waitHealthy (rt_NodeID p) (rt_StackID p) (timeout (rt_HealthTimeout p))
   else ret tt) (fun _ l => placed l /\ (WasRunning p = true -> healthy (rt_ComposeFile p) l)) (fun _ => True).
Proof.
  destruct (WasRunning p) eqn:E; [|apply tracked_ret; by intros l [? _]].
  eapply (tracked_bind _ _ _ _ _ _ _ (fun _ l => placed l /\ exists l', l = EOp (rt_OperationID p) "running" "starting" Done :: l')).
  { apply tracked_note; [| |done].
    - intros l o (_ & ? & ?). apply allowed_note; try done; [by intros [?|?]|set_solver].
    - intros l [Hl _]. split; [by apply (grows l [_])|by eexists]. }
  skip. eapply (tracked_bind _ _ _ _ _ _ _ (fun _ l => placed l /\ up (rt_ComposeFile p) l)).
  { apply tracked_pool; [by intros l ok [? ?]; split_and!| |done]. intros l [Hl _]. split; [by apply (grows l [_])|done]. }
  skip. unfold waitHealthy. apply tracked_get. intros w _.
  apply (tracked_post _ _ _ _ _ _ (fun _ l => placed l /\ healthy (rt_ComposeFile p) l) _ (fun l => placed l /\ up (rt_ComposeFile p) l));
    [by intros _ l [? ?]|done|].
  apply (tracked_frame _ _ _ _ _ placed); [apply growing_placed|]. apply tracked_wait. by intros l e _ _ [[s ->]|[->|[ok ->]]].
Qed.

Lemma tracked_swap current snapshot : tracked (fun l => preserved l /\ quieted l)
  (ops_Update (rt_OperationID p) "running" "activating-snapshot" "";;
   restoreDatasets (rt_NodeID p) (rt_DatasetPath p) (rt_Snapshot p) (rt_OperationID p);;
   UpdateStackCompose (rt_StackID p) (SourceCompose p);;
   attempt (insert_point (rt_StackID p) snapshot (recovery (rt_DatasetPath p) (rt_OperationID p)) current);;
   pool_ (rt_NodeID p) (SourceWrite (rt_StackID p) (rt_DatasetPath p) (SourceCompose p));;
   (if WasRunning p then
      ops_Update (rt_OperationID p) "running" "starting" "";;
      pool_ (rt_NodeID p) (ComposeUp (rt_StackID p) (rt_DatasetPath p) (rt_ComposeFile p));;
      waitHealthy (rt_NodeID p) (rt_StackID p) (timeout (rt_HealthTimeout p))
    else ret tt);;
   attempt (Record_event (rt_StackID p) "Restore" "succeeded" (rt_OperationID p) (rt_Actor p) "");;
   ops_Update (rt_OperationID p) "succeeded" "succeeded" "")
  (fun _ l => EOp (rt_OperationID p) "succeeded" "succeeded" Done ∈ l) (fun _ => True).
Proof.
  set (P := fun l => (preserved l /\ quieted l) /\ noted "activating-snapshot" l).
  assert (Quiet P) by (unfold P, noted; apply _).
  eapply (tracked_bind _ _ _ _ _ _ _ (fun _ => P)).
  { apply tracked_note; [| |done].
    - intros l o Hl. apply allowed_note; try done; [by intros [?|?]|set_solver].
    - intros l Hl. split; [|by constructor]. split; [apply (growing_preserved l [_]), Hl|by apply quiet_kept; [|apply Hl]]. }
  skip. eapply (tracked_bind _ _ _ _ _ _ _ (fun _ => P)).
  { apply (tracked_post _ _ _ _ _ _ (fun _ => P) _ P); [done..|]. apply tracked_restore; [done|done|].
    intros l c ok [[? ?] ?] Hc. by destruct c. }
  skip. eapply (tracked_bind _ _ _ _ _ _ _ (fun _ => swapped_in)).
  { apply (tracked_post _ _ _ _ _ _ (fun _ l => P l /\ placed l) _ P); [by intros _ l [[[? _] ?] Hl]|done|].
    apply tracked_composed; [done|by intros l o [_ Hl]]. }
  skip. eapply (tracked_ignore _ _ _ _ _ _ swapped_in).
  { apply tracked_write; [intros; apply known_point|by intros l o [Hl _]|..]; intros; by apply (grows _ [_]). }
  intros _. eapply (tracked_bind _ _ _ _ _ _ _ (fun _ => swapped_in)).
  { apply (tracked_post _ _ _ _ _ _ (fun _ => swapped_in) _ swapped_in); [done..|]. apply (tracked_quiet _ _ _ _ _ swapped_in); [done|].
    by intros l ok [Hl _]. }
  skip. eapply tracked_bind; [apply tracked_restart|skip].
  set (F := fun l => placed l /\ (WasRunning p = true -> healthy (rt_ComposeFile p) l)).
  assert (Quiet F) by (intros e l He [Hl Hh]; split; [by apply (grows l [_])|intros ?; apply quiet_kept; auto]).
  eapply (tracked_ignore _ _ _ _ _ _ F); [apply (tracked_record _ _ _ _ _ _ _ _ _ F); by intros l o [_ Hl]|intros _].
  apply tracked_note; [| |done].
  - intros l o Hl. split_and!; try done; [by intros [?|?]|set_solver].
  - intros l _. by constructor.
Qed.

Lemma tracked_restore_stack op : op_Checkpoint op = checkpoint ->
  tracked (fun l => l = []) (restore_stack p op) (fun _ l => EOp (rt_OperationID p) "succeeded" "succeeded" Done ∈ l) (fun _ => True).
Proof.
  intros E. unfold restore_stack. rewrite E. cbv zeta. fold activating. fold swapping.
  eapply (tracked_bind _ _ _ _ _ _ _ (fun _ l => l = [])); [|intros current].
  { eapply tracked_post; [| |apply (tracked_attempt _ _ _ _ _ _ (fun _ l => l = []) (fun l => l = []) (fun _ => True)), tracked_query]; [by intros []|done]. }
  eapply tracked_bind; [apply tracked_restore_start|skip].
  eapply (tracked_bind _ _ _ _ _ _ _ (fun _ l => quieted l /\ early l)).
  { unfold snapshot_name. destruct (AutomatedSnapshotName _); [by apply tracked_ret|by apply tracked_fail]. }
  intros snapshot. eapply tracked_bind; [apply tracked_preserve|skip]. apply tracked_swap.
Qed.
End Restore.

(** What the restore of a stack finds: nothing to do, or the checkpoint that an
    earlier attempt reached. *)
Definition restore_start `{WorkerEnv} (p : StackRestorePayload) (w : W) : option string :=
  if readable (trace w) then
    op ← Get (rt_OperationID p) (ops w);
    if finished op then None else Some (op_Checkpoint op)
  else None.

(** ** Attempts

    A restore is tried again while its operation is not finished.  [reached] is
    the checkpoint that the writes of the past left in the operation's row. *)

Fixpoint reached (l : list event) : string :=
  match l with
  | EOp _ _ cp (Done | Unreported) :: _ => cp
  | _ :: l => reached l
  | [] => ""
  end.

(** The attempts of one restore, each in its own environment and each cut short
    anywhere; an attempt starts from the checkpoint the earlier ones left.  A row
    written succeeded is finished: nothing is tried again. *)
Inductive attempts (p : StackRestorePayload) : list event -> Prop :=
| attempts_none : attempts p []
| attempts_run (En : WorkerEnv) w l l' past : attempts p past -> reached past <> "succeeded" ->
    restore_start p w = Some (reached past) -> trace (handleStackRestore p w).2 = l ++ l' ++ trace w -> attempts p (l' ++ past).

Section Attempts.
Context (p : StackRestorePayload).

(** What holds before each step, counting what earlier attempts did. *)
Definition restore_promised (e : event) (past : list event) : Prop :=
  match e with
  | EHost _ ((DsClone _ _ | DsRename _ _ | DsMountpoint _ _ | DsPromote _) as c) _ =>
      kept p past /\ (WasRunning p = true -> stopped past) /\ noted p "activating-snapshot" past /\
      dataset_step (rt_DatasetPath p) (rt_Snapshot p) (rt_OperationID p) c
  | EHost _ (DsDestroy _ | SnapDestroy _ _ | SnapRollback _ _ _ | SnapPrune _ _) _ => False
  | EHost _ (SnapCreate _ _ _ _ _) _ => (WasRunning p = true -> stopped past) /\ ~ noted p "activating-snapshot" past
  | EHost _ (SourceWrite _ _ y) _ => y = SourceCompose p /\ placed p past
  | EHost _ (ComposeUp _ _ y) _ => WasRunning p = true /\ y = rt_ComposeFile p /\ placed p past
  | ECompose _ y _ => y = SourceCompose p /\ noted p "activating-snapshot" past
  | EPoint _ _ d _ _ => d = recovery (rt_DatasetPath p) (rt_OperationID p) /\ placed p past
  | EOp _ st cp _ =>
      (cp = "activating-snapshot" -> kept p past /\ (WasRunning p = true -> stopped past)) /\
      (st = "succeeded" -> placed p past /\ (WasRunning p = true -> healthy (rt_ComposeFile p) past))
  | ERecord _ r _ _ => WasRunning p = true -> healthy (rt_ComposeFile p) past
  | ERaft _ _ | EDeleteStack _ _ | ERelease _ _ => False
  | _ => True
  end.

(** What the checkpoint vouches for. *)
Record vouched (past : list event) : Prop := {
  vo_activating : reached past = "activating-snapshot" -> kept p past /\ (WasRunning p = true -> stopped past);
  vo_starting : reached past = "starting" -> kept p past;
  vo_noted : noted p "activating-snapshot" past -> reached past ∈ ["activating-snapshot"; "starting"; "succeeded"] }.

Lemma stopped_app l past : stopped l -> stopped (l ++ past).
Proof. induction l as [|e l IH]; [done|]. destruct e as [? [] []| | | | | | | | |]; cbn; intros []; auto. Qed.
Lemma stopped_quiet l past : Forall (fun e => quiet e = true) l -> stopped past -> stopped (l ++ past).
Proof. induction 1 as [|e l He _ IH]; [done|]. intros Hs. apply (quiet_stopped e); auto. Qed.
Lemma up_app y l past : up y l -> up y (l ++ past).
Proof. induction l as [|e l IH]; [done|]. destruct e as [? [] []| | | | | | | | |]; cbn; try (intros []; auto); done. Qed.
Lemma healthy_app y l past : healthy y l -> healthy y (l ++ past).
Proof.
  induction l as [|e l IH]; [done|]. cbn. intros [He Hl]. split; [done|]. destruct Hl as [(id & s & Hs & Hne & Hf & Hu)|Hl]; [|by right; apply IH].
  left. exists id, s. split_and!; [done..|by apply up_app].
Qed.
Lemma in_app e (l past : list event) : e ∈ l -> e ∈ l ++ past.
Proof. intros He. apply elem_of_app. by left. Qed.
Lemma kept_app l past : kept p l -> kept p (l ++ past).
Proof. intros [s Hs]. exists s. by apply in_app. Qed.
Lemma kept_before l past : kept p past -> kept p (l ++ past).
Proof. intros [s Hs]. exists s. apply elem_of_app. by right. Qed.

(** What an attempt from the checkpoint of [past] knows of its own events, for all of them. *)
Section Attempt.
Context (past : list event) (Hpast : vouched past).
Abbreviation ck := (reached past).

Lemma preserved_kept l : preserved p ck l -> kept p (l ++ past).
Proof.
  intros Hp. unfold preserved, swapping in Hp. destruct (activating ck) eqn:Ea.
  - apply kept_before. apply bool_decide_eq_true in Ea. by apply (vo_activating _ Hpast).
  - destruct (bool_decide (ck = "starting")) eqn:Es; [|by apply kept_app, Hp].
    apply kept_before. apply bool_decide_eq_true in Es. by apply (vo_starting _ Hpast).
Qed.
Lemma quieted_stopped l : quieted p ck l -> WasRunning p = true -> stopped (l ++ past).
Proof.
  intros Hq Hr. unfold quieted in Hq. destruct (activating ck) eqn:Ea; [|by apply stopped_app, Hq].
  apply stopped_quiet; [done|]. apply bool_decide_eq_true in Ea. by apply (vo_activating _ Hpast).
Qed.
Lemma not_noted l : reached past <> "succeeded" -> swapping ck = false -> early l -> ~ noted p "activating-snapshot" (l ++ past).
Proof.
  intros Hne Hs He [Hin|Hin]%elem_of_app.
  - unfold early in He. rewrite Forall_forall in He. by apply (He _ Hin _ _ _ eq_refl).
  - apply (vo_noted _ Hpast) in Hin. unfold swapping, activating in Hs. to_prop. set_solver.
Qed.
Lemma early_reached l : early l -> reached past <> "activating-snapshot" -> reached (l ++ past) <> "activating-snapshot".
Proof.
  induction 1 as [|e l He _ IH]; [done|]. intros Hr. destruct e as [| |id st cp []| | | | | | |]; cbn; auto; intros ->; by eapply He.
Qed.
Lemma promise_step e l : reached past <> "succeeded" -> restore_allowed p ck e l -> restore_promised e (l ++ past).
Proof.
  intros Hne Ha. destruct e as [n c ok|id s|id st cp o|k r op o|id y o|id o|id o|id sn d y o|e o|]; cbn in Ha |- *; try done.
  - destruct c; try done; cbn in *; try (destruct Ha as (Hp & Hq & Hn & Hd); split; [by apply preserved_kept|split; [by apply quieted_stopped|split; [by apply in_app|exact Hd]]]).
    + destruct Ha as (Hy & -> & Hp & _). split_and!; [done..|by apply in_app].
    + destruct Ha as [-> Hp]. split; [done|by apply in_app].
    + destruct Ha as (Hs & Hq & He). split; [by apply quieted_stopped|by apply not_noted].
  - destruct Ha as (_ & Hact & _ & _ & Hsuc & _). split.
    + intros E. destruct (Hact E). split; [by apply preserved_kept|by apply quieted_stopped].
    + intros E. destruct (Hsuc E) as [Hp Hh]. split; [by apply in_app|]. intros Hr. by apply healthy_app, Hh.
  - intros Hr. by apply healthy_app, Ha.
  - destruct Ha as [-> Hn]. split; [done|by apply in_app].
  - destruct Ha as [-> Hn]. split; [done|by apply in_app].
Qed.

Lemma vouched_step e l : reached past <> "succeeded" -> restore_allowed p ck e l -> vouched (l ++ past) -> vouched (e :: l ++ past).
Proof.
  intros Hne Ha [V1 V2 V3].
  assert (Hquiet : quiet e = true -> reached (e :: l ++ past) = reached (l ++ past) ->
    (forall st o, e <> EOp (rt_OperationID p) st "activating-snapshot" o) -> vouched (e :: l ++ past)).
  { intros Hq Hr Hn. split; rewrite Hr.
    - intros E. destruct (V1 E) as [Hk Hs]. split; [by apply (kept_before [e])|]. intros W. by apply quiet_stopped, Hs.
    - intros E. by apply (kept_before [e]), V2.
    - intros [Hin|Hin]%elem_of_cons; [by destruct (Hn "running" Done)|by apply V3]. }
  destruct e as [n c ok|id s|id st cp o|k r op o|id y o|id o|id o|id sn d y o|e o|]; try (by apply Hquiet); try done.
  - destruct (quiet (EHost n c ok)) eqn:Eq; [by apply Hquiet|]. destruct c; try done.
    + destruct Ha as [Hna He]. split; cbn.
      * intros E. exfalso. revert E. apply early_reached; [done|]. by apply bool_decide_eq_false in Hna.
      * intros E. by apply (kept_before [_]), V2.
      * intros [Hin|Hin]%elem_of_cons; [done|by apply V3].
    + destruct Ha as (_ & _ & _ & l' & ->). split; cbn; [done| |].
      * intros E. by apply (kept_before [_]), V2.
      * intros [Hin|Hin]%elem_of_cons; [done|by apply V3].
  - destruct Ha as (-> & Hact & Hst & Hearly & _ & Hin).
    assert (Hwritten : reached (EOp (rt_OperationID p) st cp o :: l ++ past) = cp -> vouched (EOp (rt_OperationID p) st cp o :: l ++ past)).
    { intros Hr. split; rewrite Hr.
      - intros ->. destruct (Hact eq_refl). split; [by apply (kept_before [_]), preserved_kept|].
        intros W. by apply quiet_stopped, quieted_stopped.
      - intros ->. destruct (Hst eq_refl). by apply (kept_before [_]), preserved_kept.
      - intros [Hc|Hn]%elem_of_cons; [injection Hc as _ <- _; set_solver|].
        assert (Hlate : ~ (cp = "stopping" \/ cp = "preserving-current")).
        { intros Hc. destruct (Hearly Hc) as [Hs He]. by apply (not_noted l). }
        clear -Hin Hlate. set_solver. }
    destruct o; [by apply Hwritten| |by apply Hwritten]. split; cbn [reached].
    + intros E. destruct (V1 E) as [Hk Hs]. split; [by apply (kept_before [_])|]. intros W. by apply quiet_stopped, Hs.
    + intros E. by apply (kept_before [_]), V2.
    + intros [Hc|Hn]%elem_of_cons; [done|by apply V3].
Qed.
End Attempt.

Lemma attempt_promised past l : vouched past -> reached past <> "succeeded" -> Ordered restore_promised past ->
  Ordered (restore_allowed p (reached past)) l -> Ordered restore_promised (l ++ past) /\ vouched (l ++ past).
Proof.
  intros Hv Hne Hp. induction 1 as [|e l _ [Ho Hl] Ha]; [done|]. split; [constructor; [done|by apply promise_step]|by apply vouched_step].
Qed.

(** A run of the handler on an unfinished operation. *)
Lemma restore_run `{WorkerEnv} w checkpoint : restore_start p w = Some checkpoint ->
  exists l, trace (handleStackRestore p w).2 = l ++ trace w /\ Ordered (restore_allowed p checkpoint) l /\
    ((handleStackRestore p w).1 = Ok tt -> EOp (rt_OperationID p) "succeeded" "succeeded" Done ∈ l).
Proof.
  unfold restore_start, handleStackRestore, operationDone. rewrite !bind_run. unfold ops_Get, attempt, query.
  destruct (readable (trace w)) eqn:Hr; [|done]. destruct (Get _ _) as [op|] eqn:Hg; [|done].
  cbn. destruct (finished op); [done|]. rewrite bind_run, Hr, Hg. intros [= <-].
  destruct (tracked_run_from _ _ _ _ _ _ _ w (tracked_restore_stack p _ (known w) _ op eq_refl) eq_refl eq_refl) as (_ & l & Ht & Ho & HQ).
  exists l. split_and!; [done..|]. intros E. cbn in *. by rewrite E in HQ.
Qed.

(** Nothing is done for an operation that is finished or cannot be read. *)
Lemma restore_idle `{WorkerEnv} w : restore_start p w = None -> trace (handleStackRestore p w).2 = trace w.
Proof.
  unfold restore_start, handleStackRestore, operationDone. rewrite !bind_run. unfold ops_Get, attempt, query.
  destruct (readable (trace w)) eqn:Hr; cbn; [|by rewrite bind_run, Hr].
  destruct (Get _ _) as [op|] eqn:Hg; cbn; [|by rewrite bind_run, Hr, Hg]. by destruct (finished op).
Qed.

Lemma attempts_promised past : attempts p past -> Ordered restore_promised past /\ vouched past.
Proof.
  induction 1 as [|En w l l' past _ [Ho Hv] Hne Hs Ht]; [split; [constructor|split; try done; by intros Hin%elem_of_nil]|].
  destruct (restore_run w _ Hs) as (l0 & Ht0 & Ho0 & _). rewrite Ht0, app_assoc in Ht. apply app_inv_tail in Ht as ->.
  apply attempt_promised; try done. by eapply Ordered_app.
Qed.
End Attempts.


(** ** A restore that is cut short and tried again *)

Module Sample.
Definition answer (node : string) (c : hostcmd) (l : list event) : result string reply :=
  match c with
  | DsList _ => Ok (RNames ["floatlab/app"])
  | DockerList _ => Ok (RContainers [mkContainer "running" "healthy"])
  | _ => Ok RNone
  end.
#[export] Instance env : WorkerEnv := {|
  host := answer; database _ := Done; readable _ := true; raft _ _ := Done;
  now l := (1800000000000000000 + Z.of_nat (List.length l))%Z; wake _ _ := Cancelled; new_id l := str (repeat "e"%char (List.length l));
  stack_ip _ _ := ""; stack_service _ _ := Ok None;
  runtime_yaml source _ _ := Some source; sync_targets _ _ := None; ParseDuration _ := None |}.
Definition payload : StackRestorePayload := mkRestore "op" "app" "node" "floatlab/app" "fl-old" "runtime" "source" "" true "admin".
(** The operation's row says [checkpoint]. *)
Definition world (checkpoint : string) : W := mkW (mkFSM ∅ ∅ ∅ 0)
  [mkOperation "op" "app" "restore" "admin" "running" checkpoint "" "" 1800000000000000000 1800000000000000000] []
  {[ "app" := ("app", "old") ]} [] [] [].
Definition attempt_from (checkpoint : string) : list event := trace (handleStackRestore payload (world checkpoint)).2.
(** The worker dies once the checkpoint is written. *)
Definition until_checkpoint : list event := drop (List.length (attempt_from "") - 5) (attempt_from "").
Definition history : list event := attempt_from "activating-snapshot" ++ until_checkpoint.

(** An attempt cut short after its first events. *)
Lemma attempts_cut checkpoint n past : attempts payload past -> checkpoint = reached past -> checkpoint <> "succeeded" ->
  restore_start payload (world checkpoint) = Some checkpoint -> attempts payload (drop n (attempt_from checkpoint) ++ past).
Proof.
  intros Hp -> Hne Hs. apply (attempts_run _ env (world (reached past)) (take n (attempt_from (reached past)))); [done..|].
  change (trace (world (reached past))) with (@nil event). rewrite app_nil_r, take_drop. reflexivity.
Qed.
Lemma first_attempt : attempts payload until_checkpoint.
Proof.
  pose proof (attempts_cut "" (List.length (attempt_from "") - 5) [] (attempts_none _) eq_refl ltac:(done) ltac:(vm_compute; reflexivity)) as Ha.
  rewrite app_nil_r in Ha. exact Ha.
Qed.
Lemma checkpoint_left : "activating-snapshot" = reached until_checkpoint.
Proof. vm_compute. reflexivity. Qed.
Lemma history_attempts : attempts payload history.
Proof.
  pose proof (attempts_cut "activating-snapshot" 0 _ first_attempt checkpoint_left ltac:(done) ltac:(vm_compute; reflexivity)) as Ha.
  rewrite drop_0 in Ha. exact Ha.
Qed.

End Sample.
