(* ===== verification/TaskTables.v ===== *)
(** The tables of the task worker: [tasks] of [src/internal/worker/queue.go] and
    the backup targets of [src/pkg/config/backups.go], statement by statement. *)
From S2P Require Import Prelude.

Open Scope string_scope.

(** ** Rows *)

(** A row of [tasks]: no locker is NULL, instants are seconds. *)
Record Task := mkTask {
  t_ID : string; t_Type : string; t_StackID : string; t_Payload : string; t_State : string; t_Attempts : Z;
  t_CreatedAt : Z; t_UpdatedAt : Z; t_LockedBy : string; t_Error : string }.
#[export] Instance Task_eq_dec : EqDecision Task.
Proof. solve_decision. Defined.
Definition maxAttempts : Z := 5.
Definition backoffFactor : Z := 60.

(** A row of [backup_targets]: stack, dataset and node are its key. *)
Abbreviation target_key := (string * string * string)%type.
Record BackupTarget := mkTarget {
  Generation : Z; Revision : string; Origin : string; SourceNodeID : string; Schedule : string; LocalPolicy : string;
  Enabled : bool; CleanupPending : bool; tg_Error : string }.

(** [tasks] is in the order in which the rows were inserted. *)
Record Tables := mkTables {
  tasks : list Task; targets : gmap target_key BackupTarget; removed_backup_nodes : gset string }.
Definition set_tasks (l : list Task) (d : Tables) : Tables := mkTables l (targets d) (removed_backup_nodes d).
Definition set_targets (m : gmap target_key BackupTarget) (d : Tables) : Tables := mkTables (tasks d) m (removed_backup_nodes d).

Definition find_task (id : string) (d : Tables) : option Task := List.find (fun t => bool_decide (t_ID t = id)) (tasks d).

(** ** Statements *)

(** What the worker and the other users of the database write. *)
Inductive stmt :=
| SEnqueue (id type stackID payload : string) (now : Z)
| SRecover
| SClaim (worker : string) (now : Z)
| SDone (id : string) (now : Z)
| SRetry (id err : string) (now : Z)
| SFailed (id err : string) (now : Z)
| SPayload (id payload : string)
| SPut (k : target_key) (source schedule policy origin now : string)
| SRemove (k : target_key) (now : string)
| SPolicy (stack dataset policy : string)
| SDisableNode (node : string)
| SAcknowledge (k : target_key) (generation : Z) (pending : bool) (message : string).

Definition with_id (id : string) (f : Task -> Task) (l : list Task) : list Task :=
  map (fun t => if bool_decide (t_ID t = id) then f t else t) l.

(** The row a claim may take: pending, not used up, and rested. *)
Definition eligible (now : Z) (t : Task) : bool :=
  bool_decide (t_State t = "pending") && (t_Attempts t <? maxAttempts)%Z &&
  ((t_Attempts t =? 0)%Z || (t_UpdatedAt t <=? now - t_Attempts t * backoffFactor)%Z).
Definition earlier (best : option Task) (t : Task) : option Task :=
  match best with
  | Some b => if (t_CreatedAt t <? t_CreatedAt b)%Z then Some t else best
  | None => Some t
  end.
(** [ORDER BY created_at ASC LIMIT 1] *)
Definition next_task (now : Z) (l : list Task) : option Task :=
  fold_left earlier (filter (fun t => eligible now t = true) l) None.

Definition claim (worker : string) (now : Z) (t : Task) : Task :=
  mkTask (t_ID t) (t_Type t) (t_StackID t) (t_Payload t) "running" (t_Attempts t) (t_CreatedAt t) now worker (t_Error t).
Definition release (state err : string) (attempts now : Z) (t : Task) : Task :=
  mkTask (t_ID t) (t_Type t) (t_StackID t) (t_Payload t) state attempts (t_CreatedAt t) now "" err.
Definition recover (t : Task) : Task :=
  if bool_decide (t_State t = "running")
  then mkTask (t_ID t) (t_Type t) (t_StackID t) (t_Payload t) "pending" (t_Attempts t) (t_CreatedAt t) (t_UpdatedAt t) "" (t_Error t)
  else t.
Definition set_payload (p : string) (t : Task) : Task :=
  mkTask (t_ID t) (t_Type t) (t_StackID t) p (t_State t) (t_Attempts t) (t_CreatedAt t) (t_UpdatedAt t) (t_LockedBy t) (t_Error t).

(** [ON CONFLICT DO UPDATE]: [None] when its condition fails. *)
Definition put_target (source schedule policy origin now : string) (old : option BackupTarget) : option BackupTarget :=
  match old with
  | None => Some (mkTarget 1 now origin source schedule policy true false "")
  | Some t =>
      if negb (CleanupPending t) && (bool_decide (SourceNodeID t = source) || negb (Enabled t)) then
        let changed := negb (bool_decide (Schedule t = schedule)) || negb (bool_decide (SourceNodeID t = source)) || negb (Enabled t) in
        Some (mkTarget (Generation t + (if changed then 1 else 0)) now origin source schedule policy true false "")
      else None
  end.
Definition remove_target (now : string) (t : BackupTarget) : BackupTarget :=
  if Enabled t then mkTarget (Generation t + 1) now (Origin t) (SourceNodeID t) (Schedule t) (LocalPolicy t) false true "" else t.
Definition disable_target (t : BackupTarget) : BackupTarget :=
  if Enabled t then mkTarget (Generation t + 1) (Revision t) (Origin t) (SourceNodeID t) (Schedule t) (LocalPolicy t) false true (tg_Error t) else t.
Definition set_policy (policy : string) (t : BackupTarget) : BackupTarget :=
  mkTarget (Generation t) (Revision t) (Origin t) (SourceNodeID t) (Schedule t) policy (Enabled t) (CleanupPending t) (tg_Error t).
Definition acknowledge (generation : Z) (pending : bool) (message : string) (t : BackupTarget) : BackupTarget :=
  if negb (Enabled t) && (Generation t =? generation)%Z
  then mkTarget (Generation t) (Revision t) (Origin t) (SourceNodeID t) (Schedule t) (LocalPolicy t) (Enabled t) pending message
  else t.

(** The tables after a statement; [true]: it affected a row. *)
Definition exec (s : stmt) (d : Tables) : bool * Tables :=
  match s with
  | SEnqueue id type stackID payload now =>
      match find_task id d with
      | Some _ => (false, d)
      | None => (true, set_tasks (tasks d ++ [mkTask id type stackID payload "pending" 0 now now "" ""])%list d)
      end
  | SRecover => (existsb (fun t => bool_decide (t_State t = "running")) (tasks d), set_tasks (map recover (tasks d)) d)
  | SClaim worker now =>
      match next_task now (tasks d) with
      | Some t => (true, set_tasks (with_id (t_ID t) (claim worker now) (tasks d)) d)
      | None => (false, d)
      end
  | SDone id now => (bool_decide (is_Some (find_task id d)), set_tasks (with_id id (fun t => release "done" "" (t_Attempts t) now t) (tasks d)) d)
  | SRetry id err now => (bool_decide (is_Some (find_task id d)), set_tasks (with_id id (fun t => release "pending" err (t_Attempts t + 1) now t) (tasks d)) d)
  | SFailed id err now => (bool_decide (is_Some (find_task id d)), set_tasks (with_id id (fun t => release "failed" err (t_Attempts t + 1) now t) (tasks d)) d)
  | SPayload id payload => (bool_decide (is_Some (find_task id d)), set_tasks (with_id id (set_payload payload) (tasks d)) d)
  | SPut k source schedule policy origin now =>
      if decide (k.2 ∈ removed_backup_nodes d) then (false, d)
      else match put_target source schedule policy origin now (targets d !! k) with
           | Some t => (true, set_targets (<[k := t]> (targets d)) d)
           | None => (false, d)
           end
  | SRemove k now => (match targets d !! k with Some t => Enabled t | None => false end, set_targets (alter (remove_target now) k (targets d)) d)
  | SPolicy stack dataset policy =>
      (true, set_targets (map_imap (fun k t => Some (if decide (k.1 = (stack, dataset)) then set_policy policy t else t)) (targets d)) d)
  | SDisableNode node =>
      (true, mkTables (tasks d) (map_imap (fun k t => Some (if decide (k.2 = node) then disable_target t else t)) (targets d))
               ({[node]} ∪ removed_backup_nodes d))
  | SAcknowledge k generation pending message =>
      (match targets d !! k with Some t => negb (Enabled t) && (Generation t =? generation)%Z | None => false end,
       set_targets (alter (acknowledge generation pending message) k (targets d)) d)
  end.
