(* ===== verification/BackupTargets.v ===== *)
(** The backup targets of a stack: [src/pkg/config/backups.go], on a database
    that others write to, and the world of the task worker. *)
From S2P Require Import Prelude GoTime GoStrings Run Lifecycle TaskTables.
From S2P Require Monitoring Worker.
From stdpp Require Import pretty.

Open Scope string_scope.

(** ** The world of the worker's tasks *)

(** What the worker asks of a node for backups. *)
Inductive backup_command :=
| ReplSend (dataset destHost : string) (destPort : Z) (jobID : string) (generation : Z) (destNode sourceNode destDataset snapshot policy : string)
| ReplCleanup (dataset target policy : string) (generation : Z)
| PruneSnapshots (dataset policy : string)
| RestoreReserve (operation target : string)
| RestorePrepare (source backup dataset snapshot operation mount dest destHost : string)
| RestoreActivate (dataset source operation mount target mountpoint guid : string).

Inductive backup_reply :=
| BNone
| BSent (pruneError : string)
| BPrepared (dataset snapshot guid : string).

(** What is recorded: a statement that was committed, by anyone; a node's answer
    to a command; the run of a task; an entry of the lifecycle log. *)
Inductive task_event :=
| QStmt (s : stmt)
| QCall (node : string) (c : backup_command) (ok : bool)
| QPrepared (dataset prepared guid : string)
| QRun (id : string) (ok : bool)
| QRaft (stackID event : string) (ok : bool)
| QTick.

Record Q := mkQ {
  tables : Tables;
  alarms : Monitoring.W unit;
  work : Worker.W;
  qlog : list task_event }.
Definition set_tables (d : Tables) (q : Q) : Q := mkQ d (alarms q) (work q) (qlog q).
Definition record (e : task_event) (q : Q) : Q := mkQ (tables q) (alarms q) (work q) (e :: qlog q).

Abbreviation qcmd := (prog string Q).

(** What others do between two calls: a statement, or, on the goroutine that
    cleans up backups, a node's answer; that goroutine acknowledges a cleanup
    only after the node did. *)
Inductive other :=
| OStmt (s : stmt)
| OCleanup (k : target_key) (node policy : string) (generation : Z) (ok : bool).

Definition cleaned (k : target_key) (node : string) (generation : Z) (l : list task_event) : Prop :=
  exists policy, QCall node (ReplCleanup k.1.2 k.2 policy generation) true ∈ l.
Definition is_cleaned (k : target_key) (node : string) (generation : Z) (l : list task_event) : bool :=
  existsb (fun e => match e with
    | QCall n (ReplCleanup ds target _ g) true =>
        bool_decide (n = node) && bool_decide (ds = k.1.2) && bool_decide (target = k.2) && (g =? generation)%Z
    | _ => false
    end) l.
(** Only the worker claims and settles tasks, and only the cleanup's own
    statement says that nothing is pending, after the node that held the target's
    generation answered. *)
Definition honest (s : stmt) (q : Q) : bool :=
  match s with
  | SRecover | SClaim _ _ | SDone _ _ | SRetry _ _ _ | SFailed _ _ _ => false
  | SAcknowledge k generation false _ =>
      match targets (tables q) !! k with
      | Some t => is_cleaned k (SourceNodeID t) generation (qlog q)
      | None => true
      end
  | _ => true
  end.

Definition commit (s : stmt) (q : Q) : Q := record (QStmt s) (set_tables (exec s (tables q)).2 q).
Definition act (o : other) (q : Q) : Q :=
  match o with
  | OStmt s => if honest s q then commit s q else q
  | OCleanup k node policy generation ok => record (QCall node (ReplCleanup k.1.2 k.2 policy generation) ok) q
  end.

Class TaskEnv := {
  statement : list task_event -> outcome;
  answers_ : list task_event -> bool;
  others : list task_event -> list other;
  clock : list task_event -> Z;
  identity : list string -> string;
  node_addresses : string -> list task_event -> result string (list (string * string));
  preparer : option (backup_command -> list task_event -> result string backup_reply);
  stamp : list task_event -> string;
  backup_host : string -> backup_command -> list task_event -> result string backup_reply }.

Section Client.
Context `{TaskEnv}.

Definition interfere (q : Q) : Q := fold_left (fun q o => act o q) (others (qlog q)) q.

(** [Request]: whether a row was affected. *)
Definition Request (s : stmt) : qcmd bool := fun q =>
  let q := interfere q in
  match statement (qlog q) with
  | Done => (Ok (exec s (tables q)).1, commit s q)
  | Refused => (Err "database", q)
  | Unreported => (Err "database", commit s q)
  end.
Definition Execute (s : stmt) : qcmd unit := Request s;; ret tt.
Definition Query {A} (f : Tables -> A) : qcmd A := fun q =>
  let q := interfere q in (if answers_ (qlog q) then Ok (f (tables q)) else Err "database", q).

Definition time_now : qcmd Z := fun q => (Ok (clock (qlog q)), q).
Definition text_now : qcmd string := fun q => (Ok (stamp (qlog q)), q).

Definition call_node (node : string) (c : backup_command) : qcmd backup_reply := fun q =>
  let r := backup_host node c (qlog q) in
  (r, record (QCall node c (is_ok r)) q).

(** ** [src/pkg/config/backups.go] *)

Record Tier := mkTier { Interval : string; Retain : Z }.
Record Mount := mkMount { m_Dataset : string; Snapshots : list Tier; Backups : list (string * string) }.

Definition MountPolicy (m : Mount) : string :=
  GoStrings.Join (map (fun t => Interval t +:+ "/" +:+ pretty (Retain t)) (Snapshots m)) " ".

(** Ordered by stack, dataset and node; the empty stack names all. *)
Definition key_le (a b : target_key * BackupTarget) : Prop :=
  let '(s, d, n) := a.1 in let '(s', d', n') := b.1 in
  if decide (s = s') then
    if decide (d = d') then bytes_ltb (chars n') (chars n) = false else bytes_ltb (chars d) (chars d') = true
  else bytes_ltb (chars s) (chars s') = true.
#[export] Instance key_le_dec : RelDecision key_le.
Proof. intros [[[s d] n] t] [[[s' d'] n'] t']. unfold key_le. cbn. repeat case_decide; apply _. Defined.
Definition targets_of (stackID : string) (d : Tables) : list (target_key * BackupTarget) :=
  merge_sort key_le (filter (fun kt => stackID = "" \/ kt.1.1.1 = stackID) (map_to_list (targets d))).
Definition BackupTargets (stackID : string) : qcmd (list (target_key * BackupTarget)) := Query (targets_of stackID).

Definition ErrBackupTargetConflict : string := "backup target cannot be configured until removal cleanup finishes".

Definition PutBackupTarget (k : target_key) (source schedule policy origin : string) : qcmd unit :=
  removed ← Query (fun d => bool_decide (k.2 ∈ removed_backup_nodes d));
  if (removed : bool) then fail ErrBackupTargetConflict
  else
    pending ← Query (fun d => targets d !! k);
    match pending with
    | Some t =>
        if CleanupPending t || (Enabled t && negb (bool_decide (SourceNodeID t = source))) then fail ErrBackupTargetConflict else ret tt
    | None => ret tt
    end;;
    now ← text_now;
    affected ← Request (SPut k source schedule policy (if decide (origin = "") then "api" else origin) now);
    if (affected : bool) then ret tt else fail ErrBackupTargetConflict.

Definition RemoveBackupTarget (k : target_key) : qcmd unit :=
  now ← text_now; Execute (SRemove k now).

Fixpoint each_ {A} (f : A -> qcmd unit) (l : list A) : qcmd unit :=
  match l with
  | [] => ret tt
  | x :: l => f x;; each_ f l
  end.

Definition sync_mount (stackID primary : string) (m : Mount) : qcmd unit :=
  Execute (SPolicy stackID (m_Dataset m) (MountPolicy m));;
  each_ (fun b =>
    if decide (b.1 = primary) then fail "backup destination cannot be the source node"
    else PutBackupTarget (stackID, m_Dataset m, b.1) primary b.2 (MountPolicy m) "compose") (Backups m).
Definition desired (stackID : string) (mounts : list Mount) : list target_key :=
  flat_map (fun m => map (fun b => (stackID, m_Dataset m, b.1)) (Backups m)) mounts.
(** [spec] is what [ParseLifecycle] made of the stack's Compose text. *)
Definition SyncBackupTargets (stackID primary : string) (spec : option (list Mount)) : qcmd unit :=
  match spec with
  | None => ret tt
  | Some mounts =>
      existing ← BackupTargets stackID;
      each_ (sync_mount stackID primary) mounts;;
      each_ (fun kt =>
        if bool_decide (Origin kt.2 = "compose") && negb (bool_decide (kt.1 ∈ desired stackID mounts))
        then RemoveBackupTarget kt.1 else ret tt) existing
  end.

(** [DisableBackupNode] is called before the membership tombstone is applied. *)
Definition DisableBackupNode (node : string) : qcmd unit := Execute (SDisableNode node).
End Client.
