(* ===== verification/WorkerTasks.v ===== *)
(** The worker's queue and its backup handlers: [poll], [failTask], [Run] and
    [EnqueueTask] of [src/internal/worker/queue.go], [backups.go] and
    [backup_restore.go]. *)
From S2P Require Import Prelude GoTime GoStrings Run Lifecycle Operations TaskTables BackupTargets.
From S2P Require Monitoring Worker.
From Stdlib Require Import Ascii.

Open Scope string_scope.

(** ** Task types and payloads ([src/internal/worker/task.go]) *)

Definition TaskBackupRestore : string := "backup.restore".
Definition TaskSnapshotCreate : string := "snapshot.create".
Definition TaskSnapshotDelete : string := "snapshot.delete".
Definition TaskReplTrigger : string := "repl.trigger".
Definition TaskStackUpgrade : string := "stack.upgrade".
Definition TaskStackRestart : string := "stack.restart".
Definition TaskStackDelete : string := "stack.delete".
Definition TaskDatasetRollback : string := "dataset.rollback".
Definition TaskStackRestore : string := "stack.restore".

Record BackupRestoreMount := mkPrepared { bm_Dataset : string; bm_Snapshot : string; bm_GUID : string; Activated : bool }.
(** A nil [Prepared] is the empty map, as the handler makes it. *)
Record BackupRestorePayload := mkBackupRestore {
  br_OperationID : string; br_StackID : string; br_SourceNodeID : string; BackupNodeID : string; DestinationNodeID : string;
  br_DatasetPath : string; br_Snapshots : list (string * string); Prepared : gmap string BackupRestoreMount; br_Actor : string }.
Definition set_Prepared (m : gmap string BackupRestoreMount) (p : BackupRestorePayload) : BackupRestorePayload :=
  mkBackupRestore (br_OperationID p) (br_StackID p) (br_SourceNodeID p) (BackupNodeID p) (DestinationNodeID p) (br_DatasetPath p)
    (br_Snapshots p) m (br_Actor p).

Record ReplTriggerPayload := mkRepl {
  SnapshotTaskID : string; rp_Generation : Z; TargetRevision : string; DestNodeID : string; DestDataset : string; rp_Snapshot : string;
  rp_Policy : string; rp_StackID : string; rp_Dataset : string; rp_NodeID : string; DestHost : string; DestPort : Z }.

(** JSON of the payloads; [payload_ids] are the operation and the stack a
    payload names, when it is an object. *)
Class Payloads := {
  decode_restore_backup : string -> option BackupRestorePayload;
  encode_restore_backup : BackupRestorePayload -> string;
  decode_repl : string -> option ReplTriggerPayload;
  decode_upgrade : string -> option Worker.StackUpgradePayload;
  decode_restart : string -> option Worker.StackRestartPayload;
  decode_delete : string -> option Worker.StackDeletePayload;
  decode_restore : string -> option Worker.StackRestorePayload;
  decode_rollback : string -> option Worker.DatasetRollbackPayload;
  decode_snapshot_create : string -> option Worker.SnapshotCreatePayload;
  decode_snapshot_delete : string -> option Worker.SnapshotDeletePayload;
  payload_ids : string -> option (option string * string) }.

Section Tasks.
Context `{TaskEnv} `{Monitoring.MonEnv unit} `{Worker.WorkerEnv} `{Payloads}.

(** The handlers of stacks and snapshots work on their own part of the world. *)
Definition working {A} (m : prog string Worker.W A) : qcmd A := fun q =>
  let '(r, w) := m (work q) in (r, mkQ (tables q) (alarms q) w (qlog q)).
Definition alarm (t : Monitoring.Transition unit) : qcmd unit := fun q =>
  let '(r, m) := Monitoring.Record t (alarms q) in (r, mkQ (tables q) m (work q) (qlog q)).

(** ** Backups ([src/internal/worker/backups.go]) *)

Definition matches (p : ReplTriggerPayload) (kt : target_key * BackupTarget) : bool :=
  bool_decide (kt.1.1.2 = rp_Dataset p) && bool_decide (kt.1.2 = DestNodeID p).
Definition backupActive (p : ReplTriggerPayload) : qcmd bool :=
  l ← BackupTargets (rp_StackID p);
  ret (match List.find (matches p) l with
       | Some (_, t) =>
           Enabled t && ((rp_Generation p =? 0)%Z || (rp_Generation p =? Generation t)%Z) &&
           (bool_decide (TargetRevision p = "") || bool_decide (TargetRevision p = Revision t))
       | None => false
       end).

Definition cleanupBackupTarget (kt : target_key * BackupTarget) : qcmd unit :=
  let '(k, t) := kt in
  r ← attempt (call_node (SourceNodeID t) (ReplCleanup k.1.2 k.2 (LocalPolicy t) (Generation t)));
  Execute (match r with
           | Ok _ => SAcknowledge k (Generation t) false ""
           | Err m => SAcknowledge k (Generation t) true m
           end);;
  match r with Ok _ => ret tt | Err m => fail m end.

(** The loop of [cleanupBackups]: every pending target, and the first error. *)
Fixpoint cleanup_loop (first : option string) (l : list (target_key * BackupTarget)) : qcmd unit :=
  match l with
  | [] => match first with None => ret tt | Some m => fail m end
  | kt :: l =>
      if negb (CleanupPending kt.2) || Enabled kt.2 then cleanup_loop first l
      else
        r ← attempt (cleanupBackupTarget kt);
        cleanup_loop (match first, r with None, Err m => Some m | _, _ => first end) l
  end.
Definition cleanupBackups : qcmd unit := l ← BackupTargets ""; cleanup_loop None l.

Definition outcome_transition (p : ReplTriggerPayload) (kind : string) (cause : option string) (now : Z) : Monitoring.Transition unit :=
  let '(status, action, message) := match cause with None => ("healthy", "resolve", "Recovered") | Some m => ("failing", "open", m) end in
  Monitoring.mkTransition
    (Monitoring.mkResult ("worker:" +:+ identity [kind; rp_NodeID p; rp_StackID p; rp_Dataset p; DestNodeID p; DestDataset p]) "worker" kind
       (Monitoring.mkResource (rp_NodeID p) (rp_StackID p) "" (rp_Dataset p) (rp_NodeID p) (DestNodeID p)) (rp_NodeID p) (DestHost p)
       status message now now zero_time None "")
    kind kind message "warning" action false None None.
Definition backupOutcome (p : ReplTriggerPayload) (kind : string) (cause : option string) : qcmd unit :=
  now ← time_now; alarm (outcome_transition p kind cause now).

Definition error_of {A} (r : result string A) : option string := match r with Ok _ => None | Err m => Some m end.

Definition handleReplTrigger (p : ReplTriggerPayload) : qcmd unit :=
  let named := negb (bool_decide (DestNodeID p = "")) in
  active ← (if named then backupActive p else ret true);
  if negb active then ret tt
  else
    (if decide (SnapshotTaskID p = "") then ret tt
     else
       state ← Query (fun d => t ← find_task (SnapshotTaskID p) d; if decide (t_Type t = TaskSnapshotCreate) then Some (t_State t) else None);
       if decide (state = Some "done") then ret tt else fail "repl.trigger: snapshot creation has not succeeded");;
    let jobID := "repl-" +:+ rp_StackID p +:+ "-" +:+ DestNodeID p +:+ "-" +:+ rp_Snapshot p in
    r ← attempt (call_node (rp_NodeID p) (ReplSend (rp_Dataset p) (DestHost p) (DestPort p) jobID (rp_Generation p) (DestNodeID p) (rp_NodeID p)
                                            (DestDataset p) (rp_Snapshot p) (rp_Policy p)));
    active ← (if named then backupActive p else ret true);
    if negb active then cleanupBackups
    else
      match r with
      | Ok body =>
          l ← BackupTargets (rp_StackID p);
          each_ (fun kt =>
            if Enabled kt.2 && matches p kt then
              pruned ← attempt (call_node (rp_NodeID p) (PruneSnapshots (rp_Dataset p) (LocalPolicy kt.2)));
              backupOutcome p "source_pruning" (error_of pruned)
            else ret tt) l;;
          match body with
          | BSent m => backupOutcome p "backup_pruning" (if decide (m = "") then None else Some m)
          | _ => fail "unexpected reply"
          end
      | Err _ => ret tt
      end;;
      backupOutcome p "replication" (error_of r);;
      match r with Ok _ => ret tt | Err m => fail m end.

(** ** Restoring a stack from its backups ([src/internal/worker/backup_restore.go]) *)

Fixpoint drop_slashes (l : list ascii) : list ascii :=
  match l with
  | c :: l' => if Ascii.eqb c "/" then drop_slashes l' else l
  | [] => []
  end.
Fixpoint until_slash (l : list ascii) : list ascii :=
  match l with
  | c :: l => if Ascii.eqb c "/" then [] else c :: until_slash l
  | [] => []
  end.
(** [path.Base] *)
Definition Base (s : string) : string :=
  if decide (s = "") then "."
  else match drop_slashes (rev (chars s)) with
       | [] => "/"
       | l => str (rev (until_slash l))
       end.

Definition saveBackupRestore (p : BackupRestorePayload) : qcmd unit :=
  Execute (SPayload ("backup-restore-" +:+ br_OperationID p) (encode_restore_backup p)).

(** The hook of [SetBackupRestorePreparer], or else the node. *)
Definition prepare (p : BackupRestorePayload) (c : backup_command) : qcmd backup_reply :=
  match preparer with
  | Some f => fun q => (f c (qlog q), q)
  | None => call_node (BackupNodeID p) c
  end.

Definition prepare_mount (p : BackupRestorePayload) (host : string) (selected : string * string) : qcmd (BackupRestoreMount * BackupRestorePayload) :=
  r ← prepare p (RestorePrepare (br_SourceNodeID p) (BackupNodeID p) selected.1 selected.2 (br_OperationID p) (Base selected.1)
                   (DestinationNodeID p) host);
  match r with
  | BPrepared ds snapshot guid =>
      if bool_decide (ds = "") || bool_decide (guid = "") then fail "restore preparation returned no verified dataset"
      else
        modify (record (QPrepared selected.1 ds guid));;
        let mount := mkPrepared ds snapshot guid false in
        let p := set_Prepared (<[selected.1 := mount]> (Prepared p)) p in
        saveBackupRestore p;;
        ret (mount, p)
  | _ => fail "restore preparation returned no verified dataset"
  end.

(** One selected snapshot; the payload as it was saved. *)
Definition restore_mount (p : BackupRestorePayload) (host : string) (selected : string * string) : qcmd BackupRestorePayload :=
  let found := Prepared p !! selected.1 in
  if match found with Some m => Activated m | None => false end then ret p
  else
    mp ← (match found with Some m => ret (m, p) | None => prepare_mount p host selected end);
    let '(mount, p) := (mp : BackupRestoreMount * BackupRestorePayload) in
    let target := br_DatasetPath p +:+ "/" +:+ Base selected.1 in
    call_node (DestinationNodeID p) (RestoreActivate (bm_Dataset mount) (BackupNodeID p) (br_OperationID p) (Base selected.1) target
                                       ("/" +:+ target) (bm_GUID mount));;
    let p := set_Prepared (<[selected.1 := mkPrepared (bm_Dataset mount) (bm_Snapshot mount) (bm_GUID mount) true]> (Prepared p)) p in
    saveBackupRestore p;;
    ret p.
Fixpoint restore_mounts (p : BackupRestorePayload) (host : string) (l : list (string * string)) : qcmd BackupRestorePayload :=
  match l with
  | [] => ret p
  | s :: l => p ← restore_mount p host s; restore_mounts p host l
  end.

Definition GetNode (id : string) : qcmd (list (string * string)) := fun q => (node_addresses id (qlog q), q).
Definition FSM_state (id : string) : qcmd (option StackInstance) := fun q => (Ok (FSM_State id (Worker.fsm (work q))), q).
(** An entry of the lifecycle log that the worker writes itself. *)
Definition apply_entry (stackID node from to ev : string) : qcmd unit := fun q =>
  let '(r, w) := Worker.raft_Apply (mkEntry stackID from to ev (clock (qlog q)) node) (work q) in
  (r, record (QRaft stackID ev (is_ok r)) (mkQ (tables q) (alarms q) w (qlog q))).

Definition handleBackupRestore (p : BackupRestorePayload) : qcmd unit :=
  done ← working (Worker.operationDone (br_OperationID p));
  if (done : bool) then ret tt
  else
    state ← FSM_state (br_StackID p);
    if match state with Some i => negb (bool_decide (InstState i = StateRestoring)) | None => false end then ret tt
    else
      working (Worker.ops_Update (br_OperationID p) "running" "restoring-data" "");;
      call_node (DestinationNodeID p) (RestoreReserve (br_OperationID p) (br_DatasetPath p));;
      addresses ← GetNode (DestinationNodeID p);
      let host := match List.find (fun a => bool_decide (a.1 = "LAN-6")) addresses with Some a => a.2 | None => "" end in
      if negb (bool_decide (BackupNodeID p = DestinationNodeID p)) && bool_decide (host = "") then fail "restore destination has no LAN-6 address"
      else
        p ← restore_mounts p host (br_Snapshots p);
        working (Worker.ops_Update (br_OperationID p) "running" "provisioning" "");;
        working (Worker.Record_event (br_StackID p) "BackupDataRestored" "succeeded" (br_OperationID p) (br_Actor p) "");;
        apply_entry (br_StackID p) (DestinationNodeID p) StateRestoring StateProvisioning EventBackupRestorePrepared.

(** ** The queue *)

Definition parsed {A} (decode : string -> option A) (handle : A -> qcmd unit) (raw : string) : qcmd unit :=
  match decode raw with Some p => handle p | None => fail "parse" end.

Definition registerHandlers : list (string * (string -> qcmd unit)) := [
  (TaskBackupRestore, parsed decode_restore_backup handleBackupRestore);
  (TaskSnapshotCreate, parsed decode_snapshot_create (fun p => working (Worker.handleSnapshotCreate p)));
  (TaskSnapshotDelete, parsed decode_snapshot_delete (fun p => working (Worker.handleSnapshotDelete p)));
  (TaskReplTrigger, parsed decode_repl handleReplTrigger);
  (TaskStackUpgrade, parsed decode_upgrade (fun p => working (Worker.handleStackUpgrade p)));
  (TaskStackRestart, parsed decode_restart (fun p => working (Worker.handleStackRestart p)));
  (TaskStackDelete, parsed decode_delete (fun p => working (Worker.handleStackDelete p)));
  (TaskStackRestore, parsed decode_restore (fun p => working (Worker.handleStackRestore p)));
  (TaskDatasetRollback, parsed decode_rollback (fun p => working (Worker.handleDatasetRollback p)))].
Definition handler (type : string) : option (string -> qcmd unit) :=
  snd <$> List.find (fun h => bool_decide (h.1 = type)) registerHandlers.

(** [datetime('now')], in seconds. *)
Definition seconds_now : qcmd Z := now ← time_now; ret (now / Second)%Z.

Definition failTask (id err : string) : qcmd unit :=
  now ← seconds_now; attempt (Execute (SRetry id err now));; ret tt.

(** The last attempt failed. *)
Definition abandon (t : Task) (err : string) : qcmd unit :=
  now ← seconds_now;
  attempt (Execute (SFailed (t_ID t) err now));;
  (if decide (t_Type t = TaskBackupRestore) then
     match decode_restore_backup (t_Payload t) with
     | Some p => attempt (apply_entry (br_StackID p) (DestinationNodeID p) StateRestoring StateFailed EventRestoreFailed);; ret tt
     | None => ret tt
     end
   else ret tt);;
  match payload_ids (t_Payload t) with
  | Some (Some operationID, stackID) =>
      attempt (working (Worker.ops_Update operationID "failed" "failed" err));;
      attempt (working (Worker.Record_event stackID (t_Type t) "failed" operationID "" err));;
      ret tt
  | _ => ret tt
  end.

(** [ORDER BY updated_at DESC LIMIT 1] *)
Definition later (best : option Task) (t : Task) : option Task :=
  match best with
  | Some b => if (t_UpdatedAt b <? t_UpdatedAt t)%Z then Some t else best
  | None => Some t
  end.
Definition claimed_task (worker : string) (d : Tables) : option Task :=
  fold_left later (filter (fun t => t_State t = "running" /\ t_LockedBy t = worker) (tasks d)) None.

(** The claimed task is run and settled. *)
Definition run_task (t : Task) : qcmd unit :=
  match handler (t_Type t) with
  | None => failTask (t_ID t) "no handler for task type"
  | Some h =>
      r ← attempt (h (t_Payload t));
      modify (record (QRun (t_ID t) (is_ok r)));;
      match r with
      | Err e => if (maxAttempts <=? t_Attempts t + 1)%Z then abandon t e else failTask (t_ID t) e
      | Ok _ => now ← seconds_now; Execute (SDone (t_ID t) now)
      end
  end.

Definition poll (worker : string) : qcmd unit :=
  now ← seconds_now;
  claimed ← Request (SClaim worker now);
  if negb claimed then ret tt
  else
    row ← Query (claimed_task worker);
    match row with
    | None => fail "worker: claimed task is missing"
    | Some t => run_task t
    end.

Definition EnqueueTask (id type stackID payload : string) : qcmd unit :=
  now ← seconds_now; Execute (SEnqueue id type stackID payload now).

(** [Run], for [n] ticks: what a poll reports is logged. *)
Fixpoint ticks (worker : string) (n : nat) : qcmd unit :=
  match n with
  | O => ret tt
  | S n => modify (record QTick);; attempt (poll worker);; ticks worker n
  end.
Definition Run (worker : string) (n : nat) : qcmd unit := Execute SRecover;; ticks worker n.
End Tasks.
