(* ===== verification/TaskLog.v ===== *)
(** What the worker's queue and backups promise at every moment: the tables are
    the replay of the statements in the log, and rules of [tracked] for the
    programs that write it. *)
From S2P Require Import Prelude TraceLogic GoTime GoStrings Run Lifecycle Operations TaskTables BackupTargets WorkerTasks.
From S2P Require Monitoring Worker.

Open Scope string_scope.
Open Scope list_scope.

(** ** Replay *)

Definition no_tables : Tables := mkTables [] ∅ ∅.
Definition replay_event (e : task_event) (d : Tables) : Tables :=
  match e with QStmt s => (exec s d).2 | _ => d end.
Definition replay : list task_event -> Tables := foldr replay_event no_tables.
Definition replayed (q : Q) : Prop := tables q = replay (qlog q).

(** ** What each entry of the log needs *)

Definition rows_of (id : string) (l : list task_event) (P : Task -> Prop) : Prop :=
  forall t, t ∈ tasks (replay l) -> t_ID t = id -> P t.
(** Task types that have a handler. *)
Definition known_type (type : string) : bool := existsb (fun k => bool_decide (k = type))
  [TaskBackupRestore; TaskSnapshotCreate; TaskSnapshotDelete; TaskReplTrigger; TaskStackUpgrade; TaskStackRestart; TaskStackDelete;
   TaskStackRestore; TaskDatasetRollback].
(** Nothing is enqueued with an earlier time than [late], if one is given. *)
Definition punctual (late : option Z) (e : task_event) : Prop :=
  match late, e with Some c, QStmt (SEnqueue _ _ _ _ now) => (c <= now)%Z | _, _ => True end.

Definition log_allowed (e : task_event) (l : list task_event) : Prop :=
  match e with
  | QStmt (SDone id _) => QRun id true ∈ l
  | QStmt (SFailed id _ _) => QRun id false ∈ l /\ rows_of id l (fun t => t_Attempts t = 4)
  | QStmt (SRetry id _ _) => rows_of id l (fun t => (t_Attempts t < maxAttempts)%Z /\ (known_type (t_Type t) = true -> (t_Attempts t + 1 < maxAttempts)%Z))
  | QStmt (SAcknowledge k generation false _) =>
      forall t, targets (replay l) !! k = Some t -> Enabled t = false -> Generation t = generation ->
        cleaned k (SourceNodeID t) generation l
  | QRun id _ => rows_of id l (fun t => t_State t = "running" /\ (t_Attempts t < maxAttempts)%Z)
  | _ => True
  end.

Section Mild.
Context (late : option Z).
(** Entries that neither claim nor settle a task. *)
Definition mild (e : task_event) : bool :=
  match e with
  | QStmt (SRecover | SClaim _ _ | SDone _ _ | SRetry _ _ _ | SFailed _ _ _) | QRun _ _ => false
  | _ => true
  end.
Class Mild (P : list task_event -> Prop) : Prop := mild_kept : forall e l, mild e = true -> punctual late e -> P l -> P (e :: l).
#[export] Instance mild_and P Q : Mild P -> Mild Q -> Mild (fun l => P l /\ Q l).
Proof. intros HP HQ e l He Hp [? ?]. split; [by apply HP|by apply HQ]. Qed.
#[export] Instance mild_growing P : Growing P -> Mild P.
Proof. intros HP e l _ _ Hl. by apply (grows l [e]). Qed.
End Mild.

(** ** Rows *)

Lemma with_id_elem id f l t : t ∈ with_id id f l ->
  exists t0, t0 ∈ l /\ ((t_ID t0 = id /\ t = f t0) \/ (t_ID t0 <> id /\ t = t0)).
Proof.
  unfold with_id. rewrite list_elem_of_fmap. intros (t0 & -> & Hin). exists t0. split; [done|].
  case_bool_decide; [by left|by right].
Qed.

(** The identifiers of the tasks, and what they are: no statement changes them. *)
Definition task_keys (d : Tables) : list string := map t_ID (tasks d).
Lemma with_id_keys id f l : (forall t, t_ID (f t) = t_ID t) -> map t_ID (with_id id f l) = map t_ID l.
Proof. intros Hf. unfold with_id. rewrite map_map. apply map_ext. intros t. by case_bool_decide. Qed.
Lemma find_task_None id d : find_task id d = None -> id ∉ task_keys d.
Proof.
  unfold find_task, task_keys. intros Hf Hin. apply list_elem_of_fmap in Hin as (t & -> & Hin).
  pose proof (List.find_none _ _ Hf t (proj1 (list_elem_of_In _ _) Hin)) as Hb. cbn in Hb. by case_bool_decide.
Qed.
Lemma exec_keys s d : NoDup (task_keys d) -> NoDup (task_keys (exec s d).2).
Proof.
  intros Hnd. destruct s; cbn -[find_task]; try done.
  - destruct (find_task id d) eqn:E; [done|]. unfold task_keys. cbn. rewrite map_app. apply NoDup_app. split_and!; [done| |apply NoDup_singleton].
    intros x Hx ->%list_elem_of_singleton. by apply find_task_None in E.
  - unfold task_keys in *. cbn. rewrite map_map. erewrite map_ext; [exact Hnd|]. intros t. unfold recover. by case_bool_decide.
  - destruct (next_task now (tasks d)); [|done]. unfold task_keys in *. cbn. by rewrite with_id_keys.
  - unfold task_keys in *. cbn. by rewrite with_id_keys.
  - unfold task_keys in *. cbn. by rewrite with_id_keys.
  - unfold task_keys in *. cbn. by rewrite with_id_keys.
  - unfold task_keys in *. cbn. by rewrite with_id_keys.
  - case_decide; [done|]. by destruct (put_target _ _ _ _ _ _).
Qed.
Lemma replay_keys l : NoDup (task_keys (replay l)).
Proof. induction l as [|e l IH]; [constructor|]. destruct e; cbn; try done. by apply exec_keys. Qed.
Lemma keys_unique d t t' : NoDup (task_keys d) -> t ∈ tasks d -> t' ∈ tasks d -> t_ID t = t_ID t' -> t = t'.
Proof.
  unfold task_keys. generalize (tasks d). intros l. induction l as [|x l IH]; intros Hnd; [by intros []%elem_of_nil|].
  apply NoDup_cons in Hnd as [Hx Hnd].
  intros [->|Ht]%elem_of_cons [->|Ht']%elem_of_cons E; [done| | |by apply IH].
  - destruct Hx. rewrite E. by apply list_elem_of_fmap_2.
  - destruct Hx. rewrite <- E. by apply list_elem_of_fmap_2.
Qed.

(** ** Targets *)

(** A row is never deleted; its generation never falls, and the same generation
    has the same source. *)
Definition evolves (t t' : BackupTarget) : Prop :=
  (Generation t < Generation t')%Z \/ (Generation t = Generation t' /\ SourceNodeID t = SourceNodeID t').
#[export] Instance evolves_preorder : PreOrder evolves.
Proof.
  split; [by right|]. intros a b c [?|[? ?]] [?|[? ?]]; [left; lia|left; lia|left; lia|right; by split; congruence].
Qed.
Lemma exec_evolves s d k t : targets d !! k = Some t -> exists t', targets (exec s d).2 !! k = Some t' /\ evolves t t'.
Proof.
  intros Hk. assert (Hrefl : exists t', targets d !! k = Some t' /\ evolves t t') by (by exists t).
  destruct s; cbn -[put_target find_task]; try done.
  - by destruct (find_task _ _).
  - by destruct (next_task _ _).
  - case_decide; [done|]. destruct (put_target _ _ _ _ _ _) as [t'|] eqn:E; [|done]. cbn.
    destruct (decide (k0 = k)) as [->|Hne]; [|by rewrite lookup_insert_ne]. rewrite lookup_insert_eq. exists t'. split; [done|].
    rewrite Hk in E. unfold put_target in E. destruct (_ && _) eqn:Ec; [|done]. simplify_eq.
    unfold evolves. destruct (Enabled t); cbn in *; repeat case_bool_decide; cbn in *; first [left; lia|right; split; [lia|congruence]].
  - destruct (decide (k0 = k)) as [->|Hne]; [rewrite lookup_alter_eq, Hk|by rewrite lookup_alter_ne]. cbn.
    eexists. split; [done|]. unfold remove_target. destruct (Enabled t); [left; cbn; lia|done].
  - rewrite map_lookup_imap, Hk. cbn. eexists. split; [done|]. by case_decide; [right|].
  - rewrite map_lookup_imap, Hk. cbn. eexists. split; [done|]. case_decide; [|done]. unfold disable_target.
    destruct (Enabled t); [left; cbn; lia|done].
  - destruct (decide (k0 = k)) as [->|Hne]; [rewrite lookup_alter_eq, Hk|by rewrite lookup_alter_ne]. cbn.
    eexists. split; [done|]. unfold acknowledge. by destruct (_ && _); [right|].
Qed.
Lemma replay_evolves l l' k t : targets (replay l) !! k = Some t -> exists t', targets (replay (l' ++ l)) !! k = Some t' /\ evolves t t'.
Proof.
  intros Hk. induction l' as [|e l' (t' & Hk' & He)]; [by exists t|]. destruct e; cbn; try by exists t'.
  destruct (exec_evolves s _ _ _ Hk') as (t2 & Hk2 & He2). exists t2. split; [done|by etrans].
Qed.
(** What a reader knows of a row that it read. *)
Definition seen (kt : target_key * BackupTarget) (l : list task_event) : Prop :=
  exists t, targets (replay l) !! kt.1 = Some t /\ evolves kt.2 t.
#[export] Instance growing_seen kt : Growing (seen kt).
Proof.
  intros l l' (t & Hk & He). destruct (replay_evolves l l' _ _ Hk) as (t' & Hk' & He'). exists t'. split; [done|by etrans].
Qed.
#[export] Instance growing_cleaned k node g : Growing (cleaned k node g).
Proof. intros l l' [p Hp]. exists p. apply elem_of_app. by right. Qed.

(** ** The primitives *)

(** Others enqueue with the time they have. *)
Class Punctual `{TaskEnv} (late : option Z) : Prop :=
  punctual_others : forall l s, OStmt s ∈ others l -> punctual late (QStmt s).
#[export] Instance punctual_always `{TaskEnv} : Punctual None.
Proof. done. Qed.

Section Primitives.
Context `{TaskEnv} (late : option Z) `{!Punctual late}.
Abbreviation Mild := (TaskLog.Mild late).
Abbreviation tracked := (TraceLogic.tracked (E:=string) replayed qlog log_allowed []).

Definition running_log (q : Q) (l : list task_event) (P : list task_event -> Prop) : Prop :=
  replayed q /\ qlog q = l /\ Ordered log_allowed l /\ P l.

Lemma is_cleaned_true k node g l : is_cleaned k node g l = true -> cleaned k node g l.
Proof.
  unfold is_cleaned. intros (e & Hin%list_elem_of_In & He)%existsb_exists.
  destruct e as [|n [| | | | |] [|]| | | |]; try done. repeat (apply andb_true_iff in He as [He ?]). repeat case_bool_decide; simplify_eq.
  eexists. assert (generation = g) as -> by lia. exact Hin.
Qed.

Lemma act_kept o q l (P : list task_event -> Prop) `{!Mild P} : (forall s, o = OStmt s -> punctual late (QStmt s)) -> running_log q l P ->
  exists l', running_log (act o q) (l' ++ l) P.
Proof.
  intros Hpun (Hr & <- & Ho & HP). destruct o as [s|k node policy g ok]; cbn.
  - destruct (honest s q) eqn:Hh; [|by exists []]. exists [QStmt s]. split_and!; [unfold replayed; cbn; by rewrite Hr|done| |].
    + constructor; [done|]. destruct s; try done. destruct pending; [done|]. cbn in *.
      rewrite Hr in Hh. intros t Ht _ _. rewrite Ht in Hh. by apply is_cleaned_true.
    + apply (mild_kept late); [by destruct s|by apply Hpun|done].
  - exists [QCall node (ReplCleanup k.1.2 k.2 policy g) ok]. split_and!; [done|done|by constructor|].
    apply (mild_kept late); [done|by destruct late|done].
Qed.
Lemma interfere_kept q l (P : list task_event -> Prop) `{!Mild P} : running_log q l P ->
  exists l', running_log (interfere q) (l' ++ l) P.
Proof.
  unfold interfere. generalize (punctual_others (late:=late) (qlog q)). generalize (others (qlog q)). intros os.
  revert q l. induction os as [|o os IH]; intros q l Hos Hq; [by exists []|]. cbn.
  destruct (act_kept o q l P) as [l1 H1]; [intros s ->; apply Hos; by constructor|done|].
  destruct (IH (act o q) (l1 ++ l)) as [l2 H2]; [intros s Hs; apply Hos; by constructor|done|]. exists (l2 ++ l1). by rewrite <- app_assoc.
Qed.

(** A step that others precede. *)
Lemma tracked_step {A} (m : qcmd A) (P : list task_event -> Prop) Q (R : list task_event -> Prop) `{!Mild P} (k : qcmd A) :
  (forall q, m q = k (interfere q)) -> tracked P k Q R -> tracked P m Q R.
Proof.
  intros Hm Hk q l Hv Ht Ho HP. rewrite app_nil_r in Ht.
  destruct (interfere_kept q l P) as (l1 & Hv1 & Hl1 & Ho1 & HP1); [by split_and!|].
  unfold post. rewrite Hm. rewrite <- (app_nil_r (l1 ++ l)) in Hl1.
  destruct (Hk _ (l1 ++ l) Hv1 Hl1 Ho1 HP1) as (Hv2 & l2 & Hl2 & Ho2 & Hr). split; [done|]. exists (l2 ++ l1).
  rewrite <- (app_assoc l2 l1 l). by split_and!.
Qed.

Lemma tracked_request s (P : list task_event -> Prop) (Q : bool -> list task_event -> Prop) (R : list task_event -> Prop) `{!Mild P} :
  (forall l, P l -> log_allowed (QStmt s) l) -> (forall l, P l -> Q (exec s (replay l)).1 (QStmt s :: l)) ->
  (forall l, P l -> R l /\ R (QStmt s :: l)) -> tracked P (Request s) Q R.
Proof.
  intros Ha HQ HR. eapply (tracked_step _ P _ _ (fun q => match statement (qlog q) with
    | Done => (Ok (exec s (tables q)).1, commit s q) | Refused => (Err "database", q) | Unreported => (Err "database", commit s q) end)); [done|].
  intros q l Hv Ht Ho HP. unfold post.
  assert (Hc : replayed (commit s q)) by (unfold replayed; cbn; by rewrite Hv).
  destruct (statement (qlog q)); cbn; (split; [done|]).
  - exists [QStmt s]. cbn. rewrite Ht. split_and!; [done|constructor; auto|]. rewrite Hv, Ht, app_nil_r. by apply HQ.
  - exists []. cbn. rewrite Ht. split_and!; [done..|]. by apply HR.
  - exists [QStmt s]. cbn. rewrite Ht. split_and!; [done|constructor; auto|]. by apply HR.
Qed.
Lemma tracked_execute_ s (P Q R : list task_event -> Prop) `{!Mild P} :
  (forall l, P l -> log_allowed (QStmt s) l) -> (forall l, P l -> Q (QStmt s :: l)) ->
  (forall l, P l -> R l /\ R (QStmt s :: l)) -> tracked P (Execute s) (fun _ => Q) R.
Proof.
  intros Ha HQ HR. unfold Execute. eapply tracked_bind; [apply (tracked_request s P (fun _ => Q) R); auto|]. intros b. by apply tracked_ret.
Qed.
(** A statement that is mild and allowed keeps what mild entries keep. *)
Lemma tracked_mild s (P : list task_event -> Prop) `{!Mild P} : mild (QStmt s) = true -> punctual late (QStmt s) ->
  (forall l, P l -> log_allowed (QStmt s) l) -> tracked P (Execute s) (fun _ => P) P.
Proof.
  intros Hs Hp Ha. assert (Hk : forall l, P l -> P (QStmt s :: l)) by (intros l Hl; by apply (mild_kept late)). apply tracked_execute_; auto.
Qed.
Lemma tracked_query_ {A} (f : Tables -> A) (P : list task_event -> Prop) (Q : A -> list task_event -> Prop) `{!Mild P} :
  (forall l, P l -> Q (f (replay l)) l) -> tracked P (Query f) Q P.
Proof.
  intros HQ. eapply (tracked_step _ P _ _ (fun q => (if answers_ (qlog q) then Ok (f (tables q)) else Err "database", q))); [done|].
  intros q l Hv Ht Ho HP. unfold post. cbn. split; [done|]. exists []. cbn. split_and!; [by rewrite Ht|done|].
  destruct (answers_ (qlog q)); [|done]. rewrite Hv, Ht, app_nil_r. by apply HQ.
Qed.
Lemma tracked_call node c (P : list task_event -> Prop) (Q : backup_reply -> list task_event -> Prop) (R : list task_event -> Prop) :
  (forall l r, P l -> Q r (QCall node c true :: l)) -> (forall l, P l -> R (QCall node c false :: l)) ->
  tracked P (call_node node c) Q R.
Proof.
  intros HQ HR. apply tracked_event. intros q l Hv Ht HP. unfold call_node. split; [done|].
  exists (QCall node c (is_ok (backup_host node c (qlog q)))). split_and!; [done|done|]. cbn. destruct (backup_host _ _ _); cbn; auto.
Qed.
Lemma tracked_call_mild node c (P : list task_event -> Prop) `{!Mild P} : tracked P (call_node node c) (fun _ => P) P.
Proof. apply tracked_call; intros; (apply (mild_kept late); [done|by destruct late|done]). Qed.
Lemma tracked_each_ {A} (f : A -> qcmd unit) l (P : list task_event -> Prop) :
  (forall x, x ∈ l -> tracked P (f x) (fun _ => P) P) -> tracked P (each_ f l) (fun _ => P) P.
Proof.
  induction l as [|x l IH]; intros Hf; cbn [each_]; [by apply tracked_ret|].
  eapply tracked_bind; [apply Hf; by constructor|]. skip. apply IH. intros y Hy. apply Hf. by constructor.
Qed.
Lemma tracked_read {A} (f : Q -> A) (P : list task_event -> Prop) : tracked P (fun q => (Ok (f q), q)) (fun _ => P) P.
Proof. apply tracked_silent. intros q Hv. cbn. split; [exact Hv|]. split; [done|by intros l Hl]. Qed.
End Primitives.
