(* ===== verification/TaskSafety.v ===== *)
(** What the queue of tasks and the backup targets promise at every moment of the
    worker's life. *)
From S2P Require Import Prelude TraceLogic GoTime GoStrings Run Lifecycle Operations TaskTables BackupTargets WorkerTasks TaskLog.
From S2P Require Monitoring Worker.

Open Scope string_scope.
Open Scope list_scope.

(** ** Handlers write nothing but payloads and honest acknowledgements *)

Section Handlers.
Context `{TaskEnv} `{Monitoring.MonEnv unit} `{Worker.WorkerEnv} `{Payloads} (late : option Z) `{!Punctual late}.
Abbreviation Mild := (TaskLog.Mild late).
Abbreviation tracked := (TraceLogic.tracked (E:=string) replayed qlog log_allowed []).
Abbreviation keeps P m := (tracked P m (fun _ => P) P).

Lemma keeps_try {A B} (m : qcmd A) (k : result string A -> qcmd B) (P : list task_event -> Prop) Q R :
  keeps P m -> (forall r, tracked P (k r) Q R) -> tracked P (attempt m ≫= k) Q R.
Proof. intros Hm Hk. by eapply tracked_bind; [apply tracked_try, Hm|]. Qed.
Lemma keeps_working {A} (m : prog string Worker.W A) P : keeps P (working m).
Proof. apply tracked_silent. intros q Hv. unfold working. destruct (m (work q)) as [r w]. cbn. repeat split; [done|]. by destruct r. Qed.
Lemma keeps_alarm t P : keeps P (alarm t).
Proof. apply tracked_silent. intros q Hv. unfold alarm. destruct (Monitoring.Record t (alarms q)) as [r w]. cbn. repeat split; [done|]. by destruct r. Qed.
Lemma keeps_outcome p kind cause P : keeps P (backupOutcome p kind cause).
Proof. unfold backupOutcome. eapply tracked_bind; [apply tracked_read|]. intros now. apply keeps_alarm. Qed.
Lemma keeps_apply_entry stack node from to ev (P : list task_event -> Prop) `{!Mild P} : keeps P (apply_entry stack node from to ev).
Proof.
  apply tracked_event. intros q l Hv _ HP. unfold apply_entry. destruct (Worker.raft_Apply _ _) as [r w]. cbn.
  split; [done|]. exists (QRaft stack ev (is_ok r)). split_and!; [done|done|]. destruct r; (apply (mild_kept late); [done|by destruct late|done]).
Qed.
Lemma keeps_record e (P : list task_event -> Prop) `{!Mild P} : mild e = true -> (forall s, e <> QStmt s) ->
  (forall l, P l -> log_allowed e l) -> keeps P (modify (record e)).
Proof.
  intros He Hs Ha. apply tracked_event. intros q l Hv _ HP. split; [destruct e; try done; by destruct (Hs s)|]. exists e. split_and!; [done|by apply Ha|apply (mild_kept late); [done| |done]].
  destruct e; try (by destruct late). by destruct (Hs s).
Qed.

(** *** Backups *)

Definition all_seen (r : list (target_key * BackupTarget)) (l : list task_event) : Prop := forall kt, kt ∈ r -> seen kt l.
#[export] Instance growing_all_seen r : Growing (all_seen r).
Proof. intros l l' Hl kt Hkt. apply grows. by apply Hl. Qed.

Lemma tracked_backups stackID (P : list task_event -> Prop) `{!Mild P} :
  tracked P (BackupTargets stackID) (fun r l => P l /\ all_seen r l) P.
Proof.
  apply (tracked_query_ late); [apply _..|]. intros l Hl. split; [done|]. intros [k t]. unfold targets_of.
  rewrite merge_sort_Permutation, list_elem_of_filter, elem_of_map_to_list. intros [_ Hk]. by exists t.
Qed.
Lemma keeps_active p (P : list task_event -> Prop) `{!Mild P} : keeps P (backupActive p).
Proof. unfold backupActive. eapply tracked_bind; [by apply tracked_backups|]. intros r. apply tracked_ret. by intros l [? _]. Qed.

Lemma tracked_cleanup_target kt (P : list task_event -> Prop) `{!Mild P} : Enabled kt.2 = false ->
  tracked (fun l => P l /\ seen kt l) (cleanupBackupTarget kt) (fun _ l => P l /\ seen kt l) (fun l => P l /\ seen kt l).
Proof.
  destruct kt as [k t0]. intros Hen. cbn in Hen. unfold cleanupBackupTarget. set (F := fun l => P l /\ seen (k, t0) l).
  eapply tracked_bind; [apply (tracked_attempt _ _ _ _ _ _ (fun _ l => F l /\ cleaned k (SourceNodeID t0) (Generation t0) l) F)|].
  { apply tracked_call; intros l; [intros _|]; intros Hl; [split; [|eexists; by constructor]|]; (apply (mild_kept late); [done|by destruct late|done]). }
  intros [b|m]; cbv beta iota.
  - apply (tracked_bind _ _ _ _ _ _ _ (fun _ => F)); [|skip; by apply tracked_ret].
    set (G := fun l => F l /\ cleaned k (SourceNodeID t0) (Generation t0) l).
    apply (tracked_post _ _ _ _ _ _ (fun _ => G) _ G); [by intros _ l [? _]|by intros l [? _]|]. apply (tracked_mild late); [apply _..|done|by destruct late|].
    intros l [[_ (t1 & Hk & He)] Hc] t Ht _ Eg. cbn in *. assert (t = t1) as -> by congruence.
    destruct He as [?|[_ Es]]; [lia|]. by rewrite <- Es.
  - eapply tracked_bind; [apply (tracked_mild _ _ F); [done|by destruct late|done]|skip]. by apply tracked_fail.
Qed.
Lemma tracked_cleanup_loop first l (P : list task_event -> Prop) `{!Mild P} :
  tracked (fun h => P h /\ all_seen l h) (cleanup_loop first l) (fun _ => P) P.
Proof.
  revert first. induction l as [|kt l IH]; intros first; cbn [cleanup_loop].
  { destruct first; [apply tracked_fail|apply tracked_ret]; by intros h [? _]. }
  destruct (negb (CleanupPending kt.2) || Enabled kt.2) eqn:E.
  { eapply tracked_pre; [|apply IH]. intros h [HP Hs]. split; [done|]. intros k Hk. apply Hs. by constructor. }
  apply orb_false_iff in E as [_ E].
  eapply tracked_bind; [apply (tracked_try _ _ _ _ _ _ (fun h => (P h /\ all_seen l h) /\ seen kt h))|].
  - apply (tracked_pre _ _ _ _ _ (fun h => (P h /\ all_seen l h) /\ seen kt h));
      [|by apply (tracked_cleanup_target kt (fun h => P h /\ all_seen l h))].
    intros h [HP Hs]. split_and!; [done|intros k Hk; apply Hs; by constructor|apply Hs; by constructor].
  - intros r. eapply tracked_pre; [|apply IH]. by intros h [? _].
Qed.
Lemma keeps_backup_cleanup (P : list task_event -> Prop) `{!Mild P} : keeps P cleanupBackups.
Proof. unfold cleanupBackups. eapply tracked_bind; [by apply tracked_backups|]. intros r. by apply tracked_cleanup_loop. Qed.

Lemma keeps_repl p (P : list task_event -> Prop) `{!Mild P} : keeps P (handleReplTrigger p).
Proof.
  unfold handleReplTrigger. cbv zeta. eapply (tracked_bind _ _ _ _ _ _ _ (fun _ => P)); [by case_match; [apply keeps_active|apply tracked_ret]|].
  intros [|]; cbn [negb]; [|by apply tracked_ret].
  eapply (tracked_bind _ _ _ _ _ _ _ (fun _ => P)).
  { case_decide; [by apply tracked_ret|]. eapply (tracked_bind _ _ _ _ _ _ _ (fun _ => P)); [by apply (tracked_query_ late)|].
    intros s. case_decide; [by apply tracked_ret|by apply tracked_fail]. }
  skip. apply keeps_try; [by apply (tracked_call_mild late)|]. intros r.
  eapply (tracked_bind _ _ _ _ _ _ _ (fun _ => P)); [by case_match; [apply keeps_active|apply tracked_ret]|].
  intros [|]; cbn [negb]; [|by apply keeps_backup_cleanup].
  eapply (tracked_bind _ _ _ _ _ _ _ (fun _ => P)).
  { destruct r as [body|m]; [|by apply tracked_ret]. eapply (tracked_bind _ _ _ _ _ _ _ (fun _ => P)).
    apply (tracked_post _ _ _ _ _ _ (fun r l => P l /\ all_seen r l) _ P); [by intros a l [? _]|done|by apply tracked_backups].
    - intros l. eapply (tracked_bind _ _ _ _ _ _ _ (fun _ => P)).
      + apply tracked_each_. intros kt _. case_match; [|by apply tracked_ret]. apply keeps_try; [by apply (tracked_call_mild late)|].
        intros pr. apply keeps_outcome.
      + skip. destruct body; try (by apply tracked_fail). apply keeps_outcome. }
  skip. eapply tracked_bind; [apply keeps_outcome|skip]. destruct r; [by apply tracked_ret|by apply tracked_fail].
Qed.

(** *** Restoring from backups *)

Lemma keeps_saved_restore p (P : list task_event -> Prop) `{!Mild P} : keeps P (saveBackupRestore p).
Proof. apply (tracked_mild late); [apply _..|done|by destruct late|done]. Qed.
Lemma keeps_prepare p c (P : list task_event -> Prop) `{!Mild P} : keeps P (prepare p c).
Proof.
  unfold prepare. destruct preparer as [f|]; [|by apply (tracked_call_mild late)]. apply tracked_silent. intros q Hv. cbn.
  repeat split; [done|]. by destruct (f c (qlog q)).
Qed.
Lemma keeps_restore_mount p host s (P : list task_event -> Prop) `{!Mild P} : keeps P (restore_mount p host s).
Proof.
  unfold restore_mount. cbv zeta. destruct (match _ with Some m => _ | None => _ end); [by apply tracked_ret|].
  eapply (tracked_bind _ _ _ _ _ _ _ (fun _ => P)).
  { destruct (Prepared p !! s.1); [by apply tracked_ret|]. unfold prepare_mount.
    eapply tracked_bind; [by apply keeps_prepare|]. intros [| |ds sn g]; try (by apply tracked_fail).
    destruct (_ || _); [by apply tracked_fail|]. eapply tracked_bind; [by apply keeps_record|skip]. cbv zeta.
    eapply tracked_bind; [by apply keeps_saved_restore|skip]. by apply tracked_ret. }
  intros [m p']. eapply tracked_bind; [by apply (tracked_call_mild late)|skip].
  eapply tracked_bind; [by apply keeps_saved_restore|skip]. by apply tracked_ret.
Qed.
Lemma keeps_restore_mounts p host l (P : list task_event -> Prop) `{!Mild P} : keeps P (restore_mounts p host l).
Proof.
  revert p. induction l as [|s l IH]; intros p; cbn [restore_mounts]; [by apply tracked_ret|].
  eapply tracked_bind; [by apply keeps_restore_mount|]. intros p'. apply IH.
Qed.
Lemma keeps_backup_restore p (P : list task_event -> Prop) `{!Mild P} : keeps P (handleBackupRestore p).
Proof.
  unfold handleBackupRestore. eapply tracked_bind; [apply keeps_working|]. intros [|]; [by apply tracked_ret|].
  eapply tracked_bind; [apply tracked_read|]. intros st. destruct (match st with Some i => _ | None => _ end); [by apply tracked_ret|].
  eapply tracked_bind; [apply keeps_working|skip]. eapply tracked_bind; [by apply (tracked_call_mild late)|skip].
  eapply (tracked_bind _ _ _ _ _ _ _ (fun _ => P)).
  { apply tracked_silent. intros q Hv. unfold GetNode. cbn. repeat split; [done|]. by destruct (node_addresses _ _). }
  intros addresses. cbv zeta. destruct (_ && _); [by apply tracked_fail|].
  eapply tracked_bind; [by apply keeps_restore_mounts|]. intros p'.
  eapply tracked_bind; [apply keeps_working|skip]. eapply tracked_bind; [apply keeps_working|skip]. by apply keeps_apply_entry.
Qed.

(** Whatever its type, the handler of a task keeps what mild entries keep. *)
Lemma keeps_handler type h raw (P : list task_event -> Prop) `{!Mild P} : handler type = Some h -> keeps P (h raw).
Proof.
  unfold handler. intros Hh. apply fmap_Some in Hh as ([ty h'] & Hf & ->). apply List.find_some in Hf as [Hin _].
  assert (Hp : forall A (dec : string -> option A) (k : A -> qcmd unit), (forall p, keeps P (k p)) -> keeps P (parsed dec k raw)).
  { intros A dec k Hk. unfold parsed. destruct (dec raw); [done|by apply tracked_fail]. }
  cbn [snd]. repeat (destruct Hin as [[= _ <-]|Hin]; [apply Hp; intros p; first [by apply keeps_backup_restore|by apply keeps_repl|apply keeps_working]|]).
  destruct Hin.
Qed.
End Handlers.

(** ** The queue *)

(** A mild statement leaves the tasks there are as they are, and adds pending ones. *)
Lemma mild_rows s d t' : mild (QStmt s) = true -> t' ∈ tasks (exec s d).2 ->
  (exists t, t ∈ tasks d /\ t_ID t = t_ID t' /\ t_Type t = t_Type t' /\ t_State t = t_State t' /\ t_Attempts t = t_Attempts t') \/
  (t_ID t' ∉ task_keys d /\ t_State t' = "pending" /\ t_Attempts t' = 0%Z).
Proof.
  assert (Hold : t' ∈ tasks d -> exists t, t ∈ tasks d /\ t_ID t = t_ID t' /\ t_Type t = t_Type t' /\ t_State t = t_State t' /\ t_Attempts t = t_Attempts t') by (by exists t').
  intros Hm. destruct s; try done; cbn -[find_task put_target]; auto.
  - destruct (find_task id d) eqn:E; [auto|]. cbn. intros [Hin| ->%list_elem_of_singleton]%elem_of_app; [auto|].
    right. cbn. split_and!; [by apply find_task_None|done..].
  - intros (t0 & Hin & [[_ ->]|[_ ->]])%with_id_elem; [left; by exists t0|auto].
  - case_decide; [auto|]. destruct (put_target _ _ _ _ _ _); auto.
Qed.

Lemma next_task_eligible now l t : next_task now l = Some t -> t ∈ l /\ eligible now t = true.
Proof.
  unfold next_task. assert (Hg : forall L best, (forall b, best = Some b -> b ∈ l /\ eligible now b = true) -> (forall x, x ∈ L -> x ∈ l /\ eligible now x = true) ->
    fold_left earlier L best = Some t -> t ∈ l /\ eligible now t = true).
  { induction L as [|x L IH]; intros best Hb HL; cbn; [apply Hb|]. apply IH.
    - intros b. unfold earlier. destruct best as [b0|]; [destruct (_ <? _)%Z|]; intros [= <-]; try (by apply Hb); apply HL; by constructor.
    - intros y Hy. apply HL. by constructor. }
  apply Hg; [done|]. intros x [? ?]%list_elem_of_filter. done.
Qed.

(** A running task has attempts left, and attempts are between none and all. *)
Lemma replay_attempts l t : t ∈ tasks (replay l) -> t_State t = "running" -> (t_Attempts t < maxAttempts)%Z.
Proof.
  revert t. induction l as [|e l IH]; intros t; [by intros []%elem_of_nil|]. destruct e as [s| | | | |]; cbn [replay foldr replay_event]; try apply IH.
  fold (replay l). destruct s; cbn -[find_task put_target]; try apply IH.
  - destruct (find_task _ _); [apply IH|]. cbn. intros [?| ->%list_elem_of_singleton]%elem_of_app; [by apply IH|done].
  - intros (t0 & -> & Hin)%list_elem_of_fmap. unfold recover. case_bool_decide; [done|]. by apply IH.
  - destruct (next_task _ _) as [c|] eqn:E; [|apply IH]. apply next_task_eligible in E as [Hc Hel].
    intros (t0 & Hin & [[Hid ->]|[_ ->]])%with_id_elem; [|by apply IH]. intros _. cbn.
    rewrite (keys_unique _ _ _ (replay_keys l) Hin Hc Hid). unfold eligible in Hel. repeat (apply andb_true_iff in Hel as [Hel ?]). lia.
  - intros (t0 & Hin & [[Hid ->]|[_ ->]])%with_id_elem; [done|by apply IH].
  - intros (t0 & Hin & [[Hid ->]|[_ ->]])%with_id_elem; [done|by apply IH].
  - intros (t0 & Hin & [[Hid ->]|[_ ->]])%with_id_elem; [done|by apply IH].
  - intros (t0 & Hin & [[Hid ->]|[_ ->]])%with_id_elem; [by apply (IH t0)|by apply IH].
  - case_decide; [apply IH|]. destruct (put_target _ _ _ _ _ _); apply IH.
Qed.

(** The worker holds the task [t]: it runs, with the attempts that were read. *)
Definition held (t : Task) (l : list task_event) : Prop :=
  t_ID t ∈ task_keys (replay l) /\ rows_of (t_ID t) l (fun t' => t_Type t' = t_Type t /\ t_State t' = "running" /\ t_Attempts t' = t_Attempts t).
#[export] Instance mild_held late t : Mild late (held t).
Proof.
  intros e l He _ [Hk Hr]. destruct e as [s| | | | |]; try done. split.
  - cbn. destruct s; try done; cbn -[find_task put_target].
    + destruct (find_task _ _); [done|]. unfold task_keys in *. cbn. rewrite map_app. apply elem_of_app. by left.
    + unfold task_keys in *. cbn. by rewrite with_id_keys.
    + case_decide; [done|]. by destruct (put_target _ _ _ _ _ _).
  - intros t' Ht' Hid. destruct (mild_rows s (replay l) t' He Ht') as [(t0 & Hin & Ei & Et & Es & Ea)|(Hn & _)]; [|congruence].
    rewrite <- Et, <- Es, <- Ea. apply Hr; [done|congruence].
Qed.

Lemma claimed_task_row worker d t : claimed_task worker d = Some t -> t ∈ tasks d /\ t_State t = "running".
Proof.
  unfold claimed_task. assert (Hg : forall L best, (forall b, best = Some b -> b ∈ tasks d /\ t_State b = "running") ->
    (forall x, x ∈ L -> x ∈ tasks d /\ t_State x = "running") -> fold_left later L best = Some t -> t ∈ tasks d /\ t_State t = "running").
  { induction L as [|x L IH]; intros best Hb HL; cbn; [apply Hb|]. apply IH.
    - intros b. unfold later. destruct best as [b0|]; [destruct (_ <? _)%Z|]; intros [= <-]; try (by apply Hb); apply HL; by constructor.
    - intros y Hy. apply HL. by constructor. }
  apply Hg; [done|]. intros x [[? _] ?]%list_elem_of_filter. done.
Qed.
Lemma row_held l t : t ∈ tasks (replay l) -> t_State t = "running" -> held t l.
Proof.
  intros Hin Hs. split; [by apply list_elem_of_fmap_2|]. intros t' Hin' Hid.
  by rewrite (keys_unique _ _ _ (replay_keys l) Hin' Hin Hid).
Qed.

(** A type has a handler when it is known. *)
Lemma handler_known `{TaskEnv} `{Monitoring.MonEnv unit} `{Worker.WorkerEnv} `{Payloads} type :
  is_Some (handler type) <-> known_type type = true.
Proof.
  unfold handler, known_type. cbn. repeat (case_bool_decide; cbn; [by split; eauto|]). split; [by intros [? ?]|done].
Qed.

Section Queue.
Context `{TaskEnv} `{Monitoring.MonEnv unit} `{Worker.WorkerEnv} `{Payloads} (late : option Z) `{!Punctual late}.
Abbreviation Mild := (TaskLog.Mild late).
Abbreviation tracked := (TraceLogic.tracked (E:=string) replayed qlog log_allowed []).
Abbreviation anything := (fun _ : list task_event => True).

Lemma tracked_seconds P : tracked P seconds_now (fun _ => P) P.
Proof. unfold seconds_now. eapply tracked_bind; [apply tracked_read|intros n; by apply tracked_ret]. Qed.

Lemma tracked_failTask t err (P : list task_event -> Prop) : (forall l, P l -> held t l) -> (t_Attempts t < maxAttempts)%Z ->
  (known_type (t_Type t) = true -> (t_Attempts t + 1 < maxAttempts)%Z) -> Mild P -> tracked P (failTask (t_ID t) err) (fun _ => anything) anything.
Proof.
  intros HP Hlt Hk ?. unfold failTask. eapply (tracked_bind _ _ _ _ _ _ _ (fun _ => P)).
  { eapply tracked_post; [by intros a l Hl; exact Hl|done|apply tracked_seconds]. }
  intros now. eapply (tracked_bind _ _ _ _ _ _ _ (fun _ => anything)); [|skip; by apply tracked_ret].
  apply tracked_try, (tracked_execute_ late); [apply _..| |done|done]. intros l [_ Hr]%HP t' Hin Hid. destruct (Hr t' Hin Hid) as (-> & _ & ->). by split.
Qed.

Lemma tracked_abandon t err : t_Attempts t = 4%Z ->
  tracked (fun l => held t l /\ QRun (t_ID t) false ∈ l) (abandon t err) (fun _ => anything) anything.
Proof.
  intros E4. set (P := fun l => held t l /\ QRun (t_ID t) false ∈ l). unfold abandon.
  eapply (tracked_bind _ _ _ _ _ _ _ (fun _ => P)); [eapply tracked_post; [by intros a l Hl; exact Hl|done|apply tracked_seconds]|].
  intros now. eapply (tracked_bind _ _ _ _ _ _ _ (fun _ => anything)).
  { apply tracked_try, (tracked_execute_ late); [apply _..| |done|done]. intros l [[_ Hr] Hin]. split; [done|]. intros t' Hin' Hid.
    destruct (Hr t' Hin' Hid) as (_ & _ & ->). lia. }
  skip. eapply (tracked_bind _ _ _ _ _ _ _ (fun _ => anything)).
  { case_decide; [|by apply tracked_ret]. destruct (decode_restore_backup _); [|by apply tracked_ret].
    apply (keeps_try _ _ anything); [by apply (keeps_apply_entry late)|]. intros r. by apply tracked_ret. }
  skip. destruct (payload_ids _) as [[[op|] st]|]; try (by apply tracked_ret).
  apply (keeps_try _ _ anything); [apply keeps_working|]. intros r.
  apply (keeps_try _ _ anything); [apply keeps_working|]. intros r'. by apply tracked_ret.
Qed.

Lemma tracked_run_task t : (t_Attempts t < maxAttempts)%Z -> tracked (held t) (run_task t) (fun _ => anything) anything.
Proof.
  intros Hlt. unfold run_task. destruct (handler (t_Type t)) as [h|] eqn:Eh; [|].
  2: { apply (tracked_failTask t _ (held t)); [done|done| |apply _]. intros [h Hh]%handler_known. congruence. }
  apply (keeps_try _ _ (held t)); [by apply (keeps_handler late _ _ _ (held t) Eh)|]. intros r.
  eapply (tracked_bind _ _ _ _ _ _ _ (fun _ l => held t l /\ QRun (t_ID t) (is_ok r) ∈ l)).
  { apply tracked_event. intros q l Hv _ Hl. split; [done|]. exists (QRun (t_ID t) (is_ok r)). cbn. split_and!; [done| |done|by constructor].
    intros t' Hin Hid. destruct Hl as [_ Hr]. destruct (Hr t' Hin Hid) as (_ & ? & ->). by split. }
  skip. destruct r as [u|e]; cbn [is_ok].
  - eapply (tracked_bind _ _ _ _ _ _ _ (fun _ l => held t l /\ QRun (t_ID t) true ∈ l)).
    { eapply tracked_post; [by intros a l Hl; exact Hl|done|apply tracked_seconds]. }
    intros now. apply (tracked_execute_ late); [apply _|by intros l [_ ?]|done|done].
  - destruct (Z.leb_spec maxAttempts (t_Attempts t + 1)); [apply tracked_abandon; unfold maxAttempts in *; lia|].
    apply tracked_failTask; [by intros l [? _]|done|lia|apply _].
Qed.

Lemma tracked_poll worker : tracked anything (poll worker) (fun _ => anything) anything.
Proof.
  unfold poll. eapply (tracked_bind _ _ _ _ _ _ _ (fun _ => anything)); [apply tracked_seconds|]. intros now.
  eapply (tracked_bind _ _ _ _ _ _ _ (fun _ => anything)); [by apply (tracked_request late)|]. intros [|]; cbn [negb]; [|by apply tracked_ret].
  eapply (tracked_bind _ _ _ _ _ _ _ (fun row l => match row with Some t => held t l /\ (t_Attempts t < maxAttempts)%Z | None => True end)).
  { apply (tracked_query_ late); [apply _..|]. intros l _. destruct (claimed_task _ _) as [t|] eqn:E; [|done].
    apply claimed_task_row in E as [Hin Hs]. split; [by apply row_held|by apply (replay_attempts l)]. }
  intros [t|]; [|by apply tracked_fail].
  apply (tracked_pre _ _ _ _ _ (fun l => (t_Attempts t < maxAttempts)%Z /\ held t l)); [by intros l [? ?]|].
  apply tracked_pure. apply tracked_run_task.
Qed.
Lemma tracked_ticks worker n : tracked anything (ticks worker n) (fun _ => anything) anything.
Proof.
  induction n as [|n IH]; cbn [ticks]; [by apply tracked_ret|].
  eapply (tracked_bind _ _ _ _ _ _ _ (fun _ => anything)); [apply (keeps_record late QTick anything); done|skip].
  apply (keeps_try _ _ anything); [apply tracked_poll|]. intros r. exact IH.
Qed.
Lemma tracked_Run worker n : tracked anything (Run worker n) (fun _ => anything) anything.
Proof.
  unfold Run. eapply (tracked_bind _ _ _ _ _ _ _ (fun _ => anything)); [by apply (tracked_execute_ late)|skip]. apply tracked_ticks.
Qed.
End Queue.

(** ** What an ordered log promises *)

Definition task_honest (l : list task_event) (t : Task) : Prop :=
  (0 <= t_Attempts t <= maxAttempts)%Z /\
  ((t_State t = "pending" /\ (known_type (t_Type t) = true -> (t_Attempts t < maxAttempts)%Z)) \/ (t_State t = "running" /\ (t_Attempts t < maxAttempts)%Z) \/ (t_State t = "done" /\ QRun (t_ID t) true ∈ l) \/
   (t_State t = "failed" /\ t_Attempts t = maxAttempts /\ QRun (t_ID t) false ∈ l)).

Lemma task_honest_grows l e t : task_honest l t -> task_honest (e :: l) t.
Proof.
  intros [Ha Hs]. split; [done|]. destruct Hs as [?|[?|[[? ?]|(? & ? & ?)]]]; [by left|by right; left| |].
  - right; right; left. split; [done|by constructor].
  - right; right; right. split_and!; [done..|by constructor].
Qed.

Lemma log_tasks l t : Ordered log_allowed l -> t ∈ tasks (replay l) -> task_honest l t.
Proof.
  intros Ho. revert t. induction Ho as [|e l Ho IH He]; intros t; [by intros []%elem_of_nil|].
  destruct e as [s| | | | |]; try (intros Hin; by apply task_honest_grows, IH).
  cbn [replay foldr replay_event]. fold (replay l). intros Hin.
  assert (Hrun : t_State t = "running" -> (t_Attempts t < maxAttempts)%Z) by (by apply (replay_attempts (QStmt s :: l))).
  assert (Hold : forall t, t ∈ tasks (replay l) -> task_honest (QStmt s :: l) t) by (intros; by apply task_honest_grows, IH).
  destruct s; cbn -[find_task put_target] in *; auto.
  - destruct (find_task _ _); [auto|]. apply elem_of_app in Hin as [Hin| ->%list_elem_of_singleton]; [auto|].
    split; [done|by left].
  - apply list_elem_of_fmap in Hin as (t0 & -> & Hin). unfold recover. case_bool_decide; [|auto]. split; [apply (IH t0 Hin)|].
    left. split; [done|]. intros _. apply (replay_attempts l t0); [done|assumption].
  - destruct (next_task _ _) as [c|]; [|auto]. cbn in Hin. apply with_id_elem in Hin as (t0 & Hin & [[_ ->]|[_ ->]]); [|auto].
    split; [apply (IH t0 Hin)|]. right; left. split; [done|]. by apply Hrun.
  - apply with_id_elem in Hin as (t0 & Hin & [[<- ->]|[_ ->]]); [|auto]. split; [apply (IH t0 Hin)|]. right; right; left. split; [done|by constructor].
  - apply with_id_elem in Hin as (t0 & Hin & [[<- ->]|[_ ->]]); [|auto]. destruct (IH t0 Hin) as [? _].
    specialize (He t0 Hin eq_refl). cbn in *. destruct He as [? He]. split; [cbn; lia|]. left. split; [done|exact He].
  - apply with_id_elem in Hin as (t0 & Hin & [[<- ->]|[_ ->]]); [|auto]. destruct He as [Hq Ha]. specialize (Ha t0 Hin eq_refl). cbv beta in Ha.
    split; [cbn; unfold maxAttempts; lia|]. right; right; right. split_and!; [done|cbn; unfold maxAttempts; lia|by constructor].
  - apply with_id_elem in Hin as (t0 & Hin & [[<- ->]|[_ ->]]); [|auto]. by apply (Hold t0).
  - case_decide; [auto|]. destruct (put_target _ _ _ _ _ _); auto.
Qed.

(** A target that was removed: its node still owes the cleanup of its generation,
    or has done it. *)
Definition owed (k : target_key) (node : string) (g : Z) (l : list task_event) : Prop :=
  (exists t, targets (replay l) !! k = Some t /\ Generation t = g /\ SourceNodeID t = node /\ Enabled t = false /\ CleanupPending t = true) \/
  cleaned k node g l.

Lemma owed_step e k node g l : log_allowed e l -> owed k node g l -> owed k node g (e :: l).
Proof.
  intros He [(t & Hk & Hg & Hn & Hen & Hp)|Hc]; [|right; by apply (grows l [e])].
  assert (Hsame : forall m : gmap target_key BackupTarget, m !! k = Some t -> exists t, m !! k = Some t /\ Generation t = g /\ SourceNodeID t = node /\ Enabled t = false /\ CleanupPending t = true) by (intros; by exists t).
  destruct e as [s| | | | |]; try (left; by apply Hsame). unfold owed. cbn [replay foldr replay_event]. fold (replay l).
  destruct s; cbn -[find_task put_target]; try (left; by apply Hsame).
  - left. destruct (find_task _ _); by apply Hsame.
  - left. destruct (next_task _ _); by apply Hsame.
  - left. case_decide; [by apply Hsame|]. destruct (decide (k0 = k)) as [->|Hne].
    + rewrite Hk. unfold put_target. rewrite Hp. by apply Hsame.
    + destruct (put_target _ _ _ _ _ _); apply Hsame; [cbn; by rewrite lookup_insert_ne|done].
  - left. apply Hsame. cbn. destruct (decide (k0 = k)) as [->|Hne]; [|by rewrite lookup_alter_ne].
    rewrite lookup_alter_eq, Hk. cbn. unfold remove_target. by rewrite Hen.
  - left. rewrite map_lookup_imap, Hk. cbn. eexists. split; [done|]. by case_decide.
  - left. rewrite map_lookup_imap, Hk. cbn. eexists. split; [done|]. case_decide; [|done]. unfold disable_target. by rewrite Hen.
  - destruct (decide (k0 = k)) as [->|Hne]; [|left; apply Hsame; cbn; by rewrite lookup_alter_ne].
    destruct (decide (generation = g)) as [->|Hng].
    + destruct pending.
      * left. rewrite lookup_alter_eq, Hk. cbn. eexists. split; [done|]. unfold acknowledge. rewrite Hen, Hg, Z.eqb_refl. by split_and!.
      * right. cbn in He. specialize (He t Hk Hen Hg). rewrite Hn in He. apply (grows l [_]), He.
    + left. apply Hsame. rewrite lookup_alter_eq, Hk. cbn. unfold acknowledge. rewrite Hg. rewrite (proj2 (Z.eqb_neq g generation)) by done.
      by rewrite andb_false_r.
Qed.

(** What a disabled row says. *)
Lemma log_disabled l k t : Ordered log_allowed l -> targets (replay l) !! k = Some t -> Enabled t = false ->
  owed k (SourceNodeID t) (Generation t) l.
Proof.
  intros Ho. revert t. induction Ho as [|e l Ho IH He]; intros t Hk Hen; [done|].
  assert (Hold : targets (replay l) !! k = Some t -> owed k (SourceNodeID t) (Generation t) (e :: l)) by (intros; by apply owed_step, IH).
  destruct e as [s| | | | |]; try (by apply Hold). cbn [replay foldr replay_event] in Hk. fold (replay l) in Hk.
  destruct s; cbn -[find_task put_target] in Hk; try (by apply Hold).
  - apply Hold. by destruct (find_task _ _).
  - apply Hold. by destruct (next_task _ _).
  - case_decide; [by apply Hold|]. destruct (put_target _ _ _ _ _ _) as [t'|] eqn:E; [|by apply Hold]. cbn in Hk.
    destruct (decide (k0 = k)) as [->|Hne]; [|rewrite lookup_insert_ne in Hk by done; by apply Hold].
    rewrite lookup_insert_eq in Hk. simplify_eq. unfold put_target in E. destruct (targets (replay l) !! k); [|by simplify_eq].
    destruct (_ && _); by simplify_eq.
  - destruct (decide (k0 = k)) as [->|Hne]; [|rewrite lookup_alter_ne in Hk by done; by apply Hold].
    rewrite lookup_alter_eq in Hk. apply fmap_Some in Hk as (t0 & Hk0 & ->). unfold remove_target in *.
    destruct (Enabled t0) eqn:E0; [|by apply Hold]. left. eexists. cbn. rewrite lookup_alter_eq, Hk0. cbn. unfold remove_target. rewrite E0. by split_and!.
  - rewrite map_lookup_imap in Hk. destruct (targets (replay l) !! k) as [t0|] eqn:Hk0; [|done]. cbn in Hk. simplify_eq.
    destruct (owed_step (QStmt (SPolicy stack dataset policy)) _ _ _ _ He (IH t0 eq_refl ltac:(by case_decide))) as [Hx|Hx]; [left|right]; by case_decide.
  - rewrite map_lookup_imap in Hk. destruct (targets (replay l) !! k) as [t0|] eqn:Hk0; [|done]. cbn in Hk. simplify_eq.
    case_decide; [|by apply Hold]. unfold disable_target in *. destruct (Enabled t0) eqn:E0; [|by apply Hold].
    left. eexists. cbn. rewrite map_lookup_imap, Hk0. cbn. rewrite decide_True by done. unfold disable_target. rewrite E0. by split_and!.
  - destruct (decide (k0 = k)) as [->|Hne]; [|rewrite lookup_alter_ne in Hk by done; by apply Hold].
    rewrite lookup_alter_eq in Hk. apply fmap_Some in Hk as (t0 & Hk0 & ->).
    assert (He0 : Enabled t0 = false) by (revert Hen; unfold acknowledge; by case_match).
    pose proof (owed_step _ _ _ _ _ He (IH t0 Hk0 He0)) as Hx. unfold acknowledge. by case_match.
Qed.

(** ** Lives of the worker *)

Section Lives.
Context `{TaskEnv} `{Monitoring.MonEnv unit} `{Worker.WorkerEnv} `{Payloads}.

(** The worker starts on an empty database and any number of times again; each
    life runs for some ticks and may have been cut off anywhere: what is left is
    the tables after some prefix of the log. *)
Inductive lived : Q -> Prop :=
| lived_new q : tables q = no_tables -> qlog q = [] -> lived q
| lived_run worker n q l q' : lived q -> l `suffix_of` qlog (Run worker n q).2 -> tables q' = replay l -> qlog q' = l -> lived q'.

Lemma lived_log q : lived q -> replayed q /\ Ordered log_allowed (qlog q).
Proof.
  induction 1 as [q Ht Hl|worker n q l q' _ [Hr Ho] [l1 Hsuf] Ht Hl].
  - split; [by unfold replayed; rewrite Ht, Hl|rewrite Hl; constructor].
  - split; [by unfold replayed; rewrite Ht, Hl|].
    destruct (tracked_Run None worker n q (qlog q) Hr ltac:(by rewrite app_nil_r) Ho I) as (_ & l' & Hlog & Ho' & _).
    rewrite Hl. apply (Ordered_app _ l1). rewrite <- Hsuf, Hlog, app_nil_r. exact Ho'.
Qed.

(** C28. Tasks, at every moment of every history of lives of the worker, whatever
    the database answers and others enqueue in between: identifiers are unique,
    no task was tried more often than it may be, a running task and a pending one
    of a known type have an attempt left, a task is done only if a run of it ended well, and failed only if its
    last attempt was used up by a run that failed. *)
Theorem tasks_honest q (Hq : lived q) :
  NoDup (task_keys (tables q)) /\ forall t, t ∈ tasks (tables q) -> task_honest (qlog q) t.
Proof.
  destruct (lived_log q Hq) as [-> Ho]. split; [apply replay_keys|]. intros t. by apply log_tasks.
Qed.

(** C27. Backup targets, at every moment of every such history, while the API, the
    synchronisation with Compose files, node removals and a second cleanup write
    in between: a removal is never forgotten.  From the moment a target was
    disabled on, its row stands at that generation with its cleanup pending, so
    that it cannot be configured again, until the source node that held that
    generation has answered the cleanup; a disabled row with nothing pending was
    cleaned up. *)
Theorem removal_never_forgotten q l1 l0 k t (Hq : lived q) (Hlog : qlog q = l1 ++ l0)
  (Hk : targets (replay l0) !! k = Some t) (Hen : Enabled t = false) :
  ((exists t', targets (tables q) !! k = Some t' /\ Generation t' = Generation t /\ SourceNodeID t' = SourceNodeID t /\
      Enabled t' = false /\ CleanupPending t' = true) \/ cleaned k (SourceNodeID t) (Generation t) (qlog q)) /\
  forall t', targets (tables q) !! k = Some t' -> Enabled t' = false -> CleanupPending t' = false ->
    cleaned k (SourceNodeID t') (Generation t') (qlog q).
Proof.
  destruct (lived_log q Hq) as [-> Ho]. split.
  - rewrite Hlog in *. assert (Ho0 : Ordered log_allowed l0) by by eapply Ordered_app.
    pose proof (log_disabled _ _ _ Ho0 Hk Hen) as Hb. clear Hlog Hq Ho0 Hk. revert Ho. induction l1 as [|e l1 IH]; intros Ho; [exact Hb|].
    inversion Ho; subst. cbn [app]. apply owed_step; [done|]. by apply IH.
  - intros t' Hk' Hen' Hp. destruct (log_disabled _ _ _ Ho Hk' Hen') as [(t2 & Hk2 & _ & _ & _ & Hp2)|Hc]; [|done]. congruence.
Qed.
End Lives.

(** ** A replication that outlives its target *)

Module Sample.
Definition key : target_key := ("app", "tank/app", "backup").
Definition repl : ReplTriggerPayload := mkRepl "" 0 "" "backup" "tank/backup" "fl-1" "" "app" "tank/app" "node" "10.0.0.2" 7000.

(** Two tasks and a target come first; the target is removed while it is sent to. *)
Definition others_ (l : list task_event) : list other :=
  match l with
  | [] => [OStmt (SEnqueue "t1" TaskReplTrigger "app" "repl" 100); OStmt (SEnqueue "t2" "unknown" "app" "" 100);
           OStmt (SPut key "node" "1h" "1h/24" "compose" "r1")]
  | QCall _ (ReplSend _ _ _ _ _ _ _ _ _ _) _ :: _ => [OStmt (SRemove key "r2")]
  | _ => []
  end.
#[export] Instance tasks_env : TaskEnv := {|
  statement _ := Done; answers_ _ := true; others := others_;
  clock l := (200 * Second + 5 * Second * Z.of_nat (List.length l))%Z;
  identity := String.concat "/"; node_addresses _ _ := Ok []; preparer := None; stamp _ := "now";
  backup_host _ c _ := match c with ReplSend _ _ _ _ _ _ _ _ _ _ => Ok (BSent "") | _ => Ok BNone end |}.
#[export] Instance monitoring_env : Monitoring.MonEnv unit := {|
  Monitoring.io _ := Monitoring.Fine; Monitoring.others _ _ := []; Monitoring.newID _ := "id";
  Monitoring.later a b := (b <? a)%Z; Monitoring.has_broker := false |}.
#[export] Instance worker_env : Worker.WorkerEnv := {|
  Worker.host _ _ _ := Ok Worker.RNone; Worker.database _ := Done; Worker.readable _ := true; Worker.raft _ _ := Done;
  Worker.now _ := 0%Z; Worker.wake _ _ := Worker.Cancelled; Worker.new_id _ := "id"; Worker.stack_ip _ _ := "";
  Worker.stack_service _ _ := Ok None; Worker.runtime_yaml source _ _ := Some source; Worker.sync_targets _ _ := None;
  Worker.ParseDuration _ := None |}.
#[export] Instance payloads : Payloads := {|
  decode_restore_backup _ := None; encode_restore_backup _ := "";
  decode_repl s := if decide (s = "repl") then Some repl else None;
  decode_upgrade _ := None; decode_restart _ := None; decode_delete _ := None; decode_restore _ := None; decode_rollback _ := None;
  decode_snapshot_create _ := None; decode_snapshot_delete _ := None; payload_ids _ := None |}.

Definition start : Q :=
  mkQ no_tables (Monitoring.mkW (Monitoring.mkDB ∅ ∅ ∅ ∅ tt) [] 0 []) (Worker.mkW (mkFSM ∅ ∅ ∅ 0) [] [] ∅ [] [] []) [].
Lemma lived_start : lived start.
Proof. by apply lived_new. Qed.
Definition after_two : Q := (Run "w" 2 start).2.
Definition state_of (id : string) (q : Q) : option (string * Z) := (fun t => (t_State t, t_Attempts t)) <$> find_task id (tables q).
Definition put : list task_event :=
  [QStmt (SPut key "node" "1h" "1h/24" "compose" "r1"); QStmt (SEnqueue "t2" "unknown" "app" "" 100); QStmt (SEnqueue "t1" TaskReplTrigger "app" "repl" 100)].

Lemma lived_after : lived after_two.
Proof. apply (lived_run "w" 2 start (qlog after_two)); [apply lived_start|done|by vm_compute|done]. Qed.
(** Cut off after the first statements of that life. *)
Definition cut_off : Q := mkQ (replay put) (alarms start) (work start) put.
Lemma lived_cut_off : lived cut_off.
Proof. apply (lived_run "w" 2 start put); [apply lived_start| |done|done]. exists (take 12 (qlog after_two)). by vm_compute. Qed.

Lemma tasks_honest_witness : lived after_two /\ state_of "t1" after_two = Some ("done", 0%Z) /\
  forall t, t ∈ tasks (tables after_two) -> task_honest (qlog after_two) t.
Proof. split; [apply lived_after|]. split; [by vm_compute|]. apply (tasks_honest after_two lived_after). Defined.

(** The history up to the removal, and what followed. *)
Definition until_removal : list task_event := drop 7 (qlog after_two).
Definition since_removal : list task_event := take 7 (qlog after_two).
Definition removed : BackupTarget := mkTarget 2 "r2" "compose" "node" "1h" "1h/24" false true "".
Lemma removal_never_forgotten_witness :
  targets (replay until_removal) !! key = Some removed /\ CleanupPending <$> targets (tables after_two) !! key = Some false /\
  cleaned key "node" 2 (qlog after_two).
Proof.
  split; [by vm_compute|]. split; [by vm_compute|].
  destruct (removal_never_forgotten after_two since_removal until_removal key removed lived_after) as [[(t & Hk & _ & _ & _ & Hp)|Hc] _];
    [by vm_compute|by vm_compute|done| |exact Hc].
  assert (Hn : CleanupPending <$> targets (tables after_two) !! key = Some false) by by vm_compute. rewrite Hk in Hn. cbn in Hn. congruence.
Defined.
End Sample.
