(* ===== verification/TaskLiveness.v ===== *)
(** Every task is settled: while the database answers, each task there is when
    the worker starts is done or failed within a bounded number of ticks, however
    its handler fails and whatever is enqueued after it. *)
From S2P Require Import Prelude TraceLogic GoTime GoStrings Run Lifecycle Operations TaskTables BackupTargets WorkerTasks TaskLog TaskSafety.
From S2P Require Monitoring Worker.

Open Scope string_scope.
Open Scope list_scope.

(** ** What the queue looks at *)

Definition core (t : Task) : Task :=
  mkTask (t_ID t) (t_Type t) "" "" (t_State t) (t_Attempts t) (t_CreatedAt t) (t_UpdatedAt t) (t_LockedBy t) "".
Definition rows (l : list task_event) : list Task := map core (tasks (replay l)).

Lemma rows_keys l : NoDup (map t_ID (rows l)).
Proof. unfold rows. rewrite map_map. apply (replay_keys l). Qed.

Lemma next_task_core now l : next_task now (map core l) = core <$> next_task now l.
Proof.
  unfold next_task. change (@None Task) with (core <$> @None Task) at 1. generalize (@None Task).
  induction l as [|t l IH]; intros best; [done|]. cbn [map]. rewrite !filter_cons.
  change (eligible now (core t)) with (eligible now t). case_decide; [|apply IH]. cbn [fold_left]. rewrite <- IH. f_equal.
  unfold earlier. destruct best as [b|]; cbn; [by destruct (_ <? _)%Z|done].
Qed.
Lemma with_id_core id (f g : Task -> Task) l : (forall t, core (f t) = g (core t)) -> map core (with_id id f l) = with_id id g (map core l).
Proof. intros Hf. unfold with_id. rewrite !map_map. apply map_ext. intros t. cbn. by case_bool_decide. Qed.
Lemma with_id_same id l : with_id id (fun t => t) l = l.
Proof. unfold with_id. rewrite <- map_id. apply map_ext. intros t. by case_bool_decide. Qed.
Lemma with_id_app id f l1 l2 : with_id id f (l1 ++ l2) = with_id id f l1 ++ with_id id f l2.
Proof. unfold with_id. by rewrite map_app. Qed.
Lemma with_id_none id f l : id ∉ map t_ID l -> with_id id f l = l.
Proof.
  unfold with_id. induction l as [|t l IH]; cbn; [done|]. intros [Hne Hni]%not_elem_of_cons. rewrite bool_decide_false by done. by rewrite IH.
Qed.

Lemma earlier_in L A best : (forall b, best = Some b -> b ∈ L) -> A ⊆ L -> (is_Some best \/ A <> []) ->
  exists b, fold_left earlier A best = Some b /\ b ∈ L.
Proof.
  revert best. induction A as [|a A IH]; intros best Hb HA Hor; cbn.
  { destruct Hor as [[b ->]|]; [|done]. exists b. auto. }
  assert (Ha : a ∈ L) by (apply HA; by constructor). apply IH; [|intros y Hy; apply HA; by constructor|left].
  - intros b. unfold earlier. destruct best as [b0|]; [destruct (_ <? _)%Z|]; intros [= <-]; auto.
  - unfold earlier. destruct best as [b0|]; [destruct (_ <? _)%Z|]; by eexists.
Qed.
Lemma earlier_stays b A : Forall (fun t => (t_CreatedAt b <= t_CreatedAt t)%Z) A -> fold_left earlier A (Some b) = Some b.
Proof.
  induction 1 as [|a A Ha _ IH]; cbn; [done|]. destruct (Z.ltb_spec (t_CreatedAt a) (t_CreatedAt b)); [lia|done].
Qed.

(** The oldest eligible task is found among the older ones when one of them is. *)
Lemma next_task_older now L news c : Forall (fun t => (t_CreatedAt t <= c)%Z) L -> Forall (fun t => (c <= t_CreatedAt t)%Z) news ->
  (exists t, t ∈ L /\ eligible now t = true) -> exists t, next_task now (L ++ news) = Some t /\ t ∈ L.
Proof.
  intros HL Hn (x & Hx & He). unfold next_task. rewrite filter_app, fold_left_app.
  destruct (earlier_in L (filter (fun t => eligible now t = true) L) None) as (b & -> & Hb); [done| | |].
  - intros y [_ Hy]%list_elem_of_filter. exact Hy.
  - right. intros E. assert (Hin : x ∈ filter (fun t => eligible now t = true) L) by (by apply list_elem_of_filter). rewrite E in Hin. by apply elem_of_nil in Hin.
  - exists b. split; [|done]. apply earlier_stays. rewrite Forall_forall in HL, Hn |- *. intros y [_ Hy]%list_elem_of_filter.
    specialize (HL _ Hb). specialize (Hn _ Hy). lia.
Qed.

Lemma next_task_none now l x : next_task now l = None -> x ∈ l -> eligible now x = false.
Proof.
  unfold next_task. intros Hn Hx. destruct (eligible now x) eqn:E; [|done].
  assert (Hin : x ∈ filter (fun t => eligible now t = true) l) by (by apply list_elem_of_filter).
  destruct (earlier_in l (filter (fun t => eligible now t = true) l) None) as (b & Hb & _); [done| | |congruence].
  - by intros y [_ ?]%list_elem_of_filter.
  - right. intros E0. rewrite E0 in Hin. by apply elem_of_nil in Hin.
Qed.

(** ** What is left to do *)

Definition left_for (t : Task) : nat := if bool_decide (t_State t = "pending") then Z.to_nat (maxAttempts - t_Attempts t) else 0.
Definition left_of (L : list Task) : nat := sum_list_with left_for L.

(** [x] is the settled row of a task [t] that was pending. *)
Definition settles (now : Z) (t x : Task) : Prop :=
  t_ID x = t_ID t /\ t_Type x = t_Type t /\ t_CreatedAt x = t_CreatedAt t /\ t_UpdatedAt x = now /\ t_State x <> "running" /\
  (t_State x = "pending" -> t_Attempts x = (t_Attempts t + 1)%Z).

Lemma left_settled id f t L now : NoDup (map t_ID L) -> t ∈ L -> t_ID t = id -> t_State t = "pending" ->
  (t_Attempts t < maxAttempts)%Z -> settles now t (f t) -> (left_of (with_id id f L) < left_of L)%nat.
Proof.
  intros Hnd Hin Hid Hp Hlt (_ & _ & _ & _ & _ & Hs). induction L as [|x L IH]; [by apply elem_of_nil in Hin|].
  apply NoDup_cons in Hnd as [Hx Hnd]. cbn. apply elem_of_cons in Hin as [->|Hin].
  - rewrite bool_decide_true by done. fold (with_id id f L). rewrite with_id_none by (by subst). unfold left_of in *. cbn.
    assert (left_for (f x) < left_for x)%nat; [|lia]. unfold left_for. rewrite (bool_decide_true (t_State x = _)) by done.
    case_bool_decide as E; [rewrite (Hs E)|]; unfold maxAttempts in *; lia.
  - assert (Hne : t_ID x <> id) by (intros <-; apply Hx; rewrite <- Hid; by apply list_elem_of_fmap_2).
    rewrite bool_decide_false by done. fold (with_id id f L). specialize (IH Hnd Hin). unfold left_of in *. cbn. lia.
Qed.

(** ** The claimed row *)

Lemma filter_core (Q : Task -> Prop) `{!forall t, Decision (Q t)} l : (forall t, Q (core t) <-> Q t) ->
  filter Q (map core l) = map core (filter Q l).
Proof.
  intros HQ. induction l as [|t l IH]; [done|]. cbn [map]. rewrite !filter_cons.
  destruct (decide (Q (core t))) as [Ht|Ht], (decide (Q t)) as [Ht'|Ht']; rewrite HQ in Ht; try done. cbn. by rewrite IH.
Qed.

Definition mine (worker : string) (t : Task) : Prop := t_State t = "running" /\ t_LockedBy t = worker.
Lemma mine_claimed worker now T t news : NoDup (map t_ID T) -> t ∈ T -> Forall (fun x => t_State x <> "running") T ->
  Forall (fun x => t_State x <> "running") news ->
  filter (fun x => t_State x = "running" /\ t_LockedBy x = worker) (with_id (t_ID t) (claim worker now) T ++ news) = [claim worker now t].
Proof.
  intros Hnd Hin HT Hn. rewrite filter_app.
  assert (Hnone : forall l, Forall (fun x => t_State x <> "running") l -> filter (fun x => t_State x = "running" /\ t_LockedBy x = worker) l = []).
  { induction 1 as [|x l Hx _ IH]; [done|]. rewrite filter_cons_False; [done|]. by intros [? _]. }
  rewrite (Hnone news Hn), app_nil_r. clear Hn news. induction T as [|x T IH]; [by apply elem_of_nil in Hin|].
  apply NoDup_cons in Hnd as [Hx Hnd]. apply Forall_cons in HT as [Hrx HT].
  change (with_id (t_ID t) (claim worker now) (x :: T)) with
    ((if bool_decide (t_ID x = t_ID t) then claim worker now x else x) :: with_id (t_ID t) (claim worker now) T).
  apply elem_of_cons in Hin as [->|Hin].
  - rewrite bool_decide_true by done. rewrite with_id_none by done. rewrite filter_cons_True by done. by rewrite Hnone.
  - rewrite bool_decide_false by (intros E; apply Hx; rewrite E; by apply list_elem_of_fmap_2).
    rewrite filter_cons_False by (by intros [? _]). by apply IH.
Qed.
Lemma claimed_one worker now T t news d : NoDup (map t_ID T) -> t ∈ T -> Forall (fun x => t_State x <> "running") T ->
  Forall (fun x => t_State x <> "running") news -> map core (tasks d) = with_id (t_ID t) (claim worker now) T ++ news ->
  exists r, claimed_task worker d = Some r /\ core r = claim worker now t.
Proof.
  intros Hnd Hin HT Hn Hd. unfold claimed_task. pose proof (mine_claimed worker now T t news Hnd Hin HT Hn) as Hf.
  rewrite <- Hd, filter_core in Hf by done.
  destruct (filter _ (tasks d)) as [|r [|? ?]]; try done. exists r. cbn in *. by simplify_eq.
Qed.
Lemma with_id_twice id (f g : Task -> Task) l : (forall t, t_ID (f t) = t_ID t) -> with_id id g (with_id id f l) = with_id id (fun t => g (f t)) l.
Proof.
  intros Hf. unfold with_id. rewrite map_map. apply map_ext. intros t. destruct (decide (t_ID t = id)) as [E|E].
  - rewrite !(bool_decide_true (t_ID t = id)) by done. by rewrite bool_decide_true by (by rewrite Hf).
  - rewrite !(bool_decide_false (t_ID t = id)) by done. done.
Qed.
Lemma with_id_forall (P : Task -> Prop) id f l : Forall P l -> (forall t, t ∈ l -> t_ID t = id -> P (f t)) -> Forall P (with_id id f l).
Proof.
  rewrite !Forall_forall. intros Hl Hf t (t0 & Hin & [[Hid ->]|[_ ->]])%with_id_elem; auto.
Qed.

(** ** A worker whose database answers *)

Definition pollInterval : Z := (5 * Second)%Z.
Definition is_tick (e : task_event) : bool := match e with QTick => true | _ => false end.
Definition nticks (l : list task_event) : nat := List.length (List.filter is_tick l).
Lemma nticks_app l1 l2 : nticks (l1 ++ l2) = (nticks l1 + nticks l2)%nat.
Proof. unfold nticks. by rewrite List.filter_app, length_app. Qed.
Lemma nticks_split n l : (n <= nticks l)%nat -> exists a b, l = a ++ b /\ nticks b = n.
Proof.
  induction l as [|e l IH]; intros Hn.
  - exists [], []. cbn in *. split; [done|lia].
  - destruct (decide (n = nticks (e :: l))) as [->|Hne]; [by exists [], (e :: l)|].
    destruct IH as (a & b & -> & Hb); [|by exists (e :: a), b]. unfold nticks in *. cbn in *. destruct (is_tick e); cbn in *; lia.
Qed.

Section Patient.
Context `{TaskEnv} `{Monitoring.MonEnv unit} `{Worker.WorkerEnv} `{Payloads} (c : Z) `{!Punctual (Some c)}.
Hypothesis Hdb : forall l, statement l = Done.
Hypothesis Hanswers : forall l, answers_ l = true.
Hypothesis Hclock : forall e l, (clock l <= clock (e :: l))%Z.
(** A ticker holds at most one tick back: three of them take an interval. *)
Hypothesis Htick : forall l' l, (3 <= nticks l')%nat -> (clock l + pollInterval <= clock (l' ++ l))%Z.
Abbreviation Mild := (TaskLog.Mild (Some c)).
Abbreviation tracked := (TraceLogic.tracked (E:=string) replayed qlog log_allowed []).
Abbreviation never := (fun _ : list task_event => False).

Lemma patient_request s (P : list task_event -> Prop) (Q : bool -> list task_event -> Prop) `{!Mild P} :
  (forall l, P l -> log_allowed (QStmt s) l) -> (forall l, P l -> Q (exec s (replay l)).1 (QStmt s :: l)) ->
  tracked P (Request s) Q never.
Proof.
  intros Ha HQ. eapply (tracked_step (Some c) _ P _ _ (fun q => match statement (qlog q) with
    | Done => (Ok (exec s (tables q)).1, commit s q) | Refused => (Err "database", q) | Unreported => (Err "database", commit s q) end)); [done|].
  intros q l Hv Ht Ho HP. unfold post. rewrite Hdb. cbn. split; [unfold replayed; cbn; by rewrite Hv|].
  exists [QStmt s]. cbn. rewrite Ht. split_and!; [done|constructor; auto|]. rewrite Hv, Ht, app_nil_r. by apply HQ.
Qed.
Lemma patient_execute s (P Q : list task_event -> Prop) `{!Mild P} :
  (forall l, P l -> log_allowed (QStmt s) l) -> (forall l, P l -> Q (QStmt s :: l)) -> tracked P (Execute s) (fun _ => Q) never.
Proof.
  intros Ha HQ. unfold Execute. eapply tracked_bind; [apply (patient_request s P (fun _ => Q)); auto|]. intros b. by apply tracked_ret.
Qed.
Lemma patient_query {A} (f : Tables -> A) (P : list task_event -> Prop) (Q : A -> list task_event -> Prop) `{!Mild P} :
  (forall l, P l -> Q (f (replay l)) l) -> tracked P (Query f) Q never.
Proof.
  intros HQ. eapply (tracked_step (Some c) _ P _ _ (fun q => (if answers_ (qlog q) then Ok (f (tables q)) else Err "database", q))); [done|].
  intros q l Hv Ht Ho HP. unfold post. cbn. rewrite Hanswers. split; [done|]. exists []. cbn. split_and!; [by rewrite Ht|done|].
  rewrite Hv, Ht, app_nil_r. by apply HQ.
Qed.
(** [u] is not in the future. *)
Definition past (u : Z) (l : list task_event) : Prop := (u <= clock l / Second)%Z.
Lemma clock_grows l l' : (clock l <= clock (l' ++ l))%Z.
Proof. induction l' as [|e l' IH]; cbn; [lia|]. etrans; [exact IH|apply Hclock]. Qed.
#[local] Instance growing_past u : Growing (past u).
Proof. intros l l' Hl. unfold past in *. etrans; [exact Hl|]. apply Z.div_le_mono; [done|apply clock_grows]. Qed.
Lemma patient_seconds (P : list task_event -> Prop) m : (forall l, P l -> (m <= clock l)%Z) ->
  tracked P seconds_now (fun now l => P l /\ (m / Second <= now)%Z /\ past now l) never.
Proof.
  intros Hm q l Hv Ht Ho HP. unfold post, seconds_now, time_now. rewrite bind_run. cbn. split; [done|]. exists [].
  cbn. rewrite Ht, app_nil_r. split_and!; [done..| |]; unfold past; [|done]. apply Z.div_le_mono; [done|auto].
Qed.
Lemma patient_now (P : list task_event -> Prop) : tracked P seconds_now (fun now l => P l /\ past now l) never.
Proof.
  intros q l Hv Ht Ho HP. unfold post, seconds_now, time_now. rewrite bind_run. cbn. split; [done|]. exists [].
  cbn. rewrite Ht, app_nil_r. split_and!; [done..|]. unfold past. lia.
Qed.

(** ** The rows there are, and those enqueued later *)

Definition later_row (t : Task) : Prop := (c <= t_CreatedAt t)%Z /\ t_State t <> "running".
Definition has (L : list Task) (l : list task_event) : Prop := exists news, rows l = L ++ news /\ Forall later_row news.

Lemma mild_has L : Mild (has L).
Proof.
  intros e l He Hp (news & Hr & Hn). destruct e as [s| | | | |]; try by exists news. unfold has, rows. cbn [replay foldr replay_event]. fold (replay l).
  fold (rows l) in *. destruct s; try done; cbn -[find_task put_target]; try by exists news.
  - destruct (find_task _ _); [by exists news|]. cbn. rewrite map_app. fold (rows l). rewrite Hr, <- app_assoc. eexists. split; [done|].
    apply Forall_app. split; [done|]. by apply Forall_singleton.
  - exists news. split; [|done]. rewrite <- Hr. unfold rows. rewrite (with_id_core _ _ (fun t => t)) by done. apply with_id_same.
  - case_decide; [by exists news|]. destruct (put_target _ _ _ _ _ _); by exists news.
Qed.
#[local] Existing Instance mild_has.

(** A settling statement, on the row [id] of [L]. *)
Lemma has_settle s id g L l : id ∈ map t_ID L -> (forall d, map core (tasks (exec s d).2) = with_id id g (map core (tasks d))) ->
  has L l -> has (with_id id g L) (QStmt s :: l).
Proof.
  intros Hid Hs (news & Hr & Hn). exists news. split; [|done]. unfold rows. cbn [replay foldr replay_event]. fold (replay l).
  rewrite Hs. fold (rows l). rewrite Hr, with_id_app. f_equal. apply with_id_none. pose proof (rows_keys l) as Hnd.
  rewrite Hr, map_app in Hnd. apply NoDup_app in Hnd as (_ & Hd & _). by apply Hd.
Qed.
Lemma core_release st err k now t : core (release st err (t_Attempts t + k) now t) = release st "" (t_Attempts (core t) + k) now (core t).
Proof. done. Qed.

(** The row [t] of [T] was claimed at [now] and is not settled yet. *)
Definition claimed (worker : string) (now : Z) (T : list Task) (t : Task) : list task_event -> Prop :=
  has (with_id (t_ID t) (claim worker now) T).
(** The row [t] of [T] was settled. *)
Definition settled (T : list Task) (t : Task) (l : list task_event) : Prop :=
  exists g now, has (with_id (t_ID t) g T) l /\ past now l /\ settles now t (g t).

#[local] Instance mild_settled T t : Mild (settled T t).
Proof.
  intros e l He Hp (g & now & Hh & Hpast & Hg). exists g, now. split_and!; [|by apply (grows l [_])|done].
  by apply (mild_kept (Some c)).
Qed.

Section Run.
Context (worker : string) (now : Z) (T : list Task) (t r : Task).
Hypothesis Hr : core r = claim worker now t.
Hypothesis Hin : t ∈ T.
Hypothesis Hlt : (t_Attempts t < maxAttempts)%Z.

Lemma settle_step s g now' l : past now' l -> claimed worker now T t l ->
  (forall d, map core (tasks (exec s d).2) = with_id (t_ID t) g (map core (tasks d))) ->
  settles now' t (g (claim worker now t)) -> settled T t (QStmt s :: l).
Proof.
  intros Hp Hc Hs Hg. exists (fun x => g (claim worker now x)), now'. split_and!; [|by apply (grows l [_])|done].
  rewrite <- (with_id_twice (t_ID t) (claim worker now) g) by done. apply has_settle; [|done|done].
  rewrite with_id_keys by done. by apply list_elem_of_fmap_2.
Qed.

Lemma same_id : t_ID r = t_ID t.
Proof. change (t_ID (core r) = t_ID t). by rewrite Hr. Qed.
Lemma same_attempts : t_Attempts r = t_Attempts t.
Proof. change (t_Attempts (core r) = t_Attempts t). by rewrite Hr. Qed.
Abbreviation holding := (fun l => claimed worker now T t l /\ held r l).

Lemma patient_fail err (P : list task_event -> Prop) `{!Mild P} : (forall l, P l -> holding l) ->
  (known_type (t_Type r) = true -> (t_Attempts r + 1 < maxAttempts)%Z) ->
  tracked P (failTask (t_ID r) err) (fun _ => settled T t) never.
Proof.
  intros HP Hk. unfold failTask. eapply tracked_bind; [apply patient_now|]. intros now'.
  eapply (tracked_bind _ _ _ _ _ _ _ (fun _ => settled T t)); [|skip; by apply tracked_ret].
  eapply tracked_post; [| |apply (tracked_attempt _ _ _ _ _ _ (fun _ => settled T t) never never), patient_execute; [apply _|..]]; [by intros []|done|..].
  - intros l [[_ [_ Hrow]]%HP _] t' Hin' Hid. destruct (Hrow t' Hin' Hid) as (-> & _ & ->). rewrite same_attempts. split; [done|].
    intros Hkt. rewrite <- same_attempts. by apply Hk.
  - intros l [[Hc _]%HP Hp]. apply (settle_step _ (fun x => release "pending" "" (t_Attempts x + 1) now' x) now'); [done|done| |].
    + intros d. cbn. rewrite same_id. by apply with_id_core.
    + by repeat split.
Qed.

Lemma patient_run_task : tracked holding (run_task r) (fun _ => settled T t) never.
Proof.
  unfold run_task. destruct (handler (t_Type r)) as [h|] eqn:Eh.
  2: { apply patient_fail; [apply _|done|]. intros [h Hh]%handler_known. congruence. }
  eapply (tracked_bind _ _ _ _ _ _ _ (fun _ => holding)).
  { apply tracked_try. apply (keeps_handler (Some c) (t_Type r) h _ holding Eh). }
  intros res. eapply (tracked_bind _ _ _ _ _ _ _ (fun _ l => holding l /\ QRun (t_ID r) (is_ok res) ∈ l)).
  { apply tracked_event. intros q l Hv _ Hl. split; [done|]. exists (QRun (t_ID r) (is_ok res)). cbn. split_and!; [done| |apply Hl..|by constructor].
    intros t' Hin' Hid. destruct Hl as [_ [_ Hrow]]. destruct (Hrow t' Hin' Hid) as (_ & ? & ->). by rewrite same_attempts. }
  skip. destruct res as [u|e]; cbn [is_ok].
  - eapply tracked_bind; [apply patient_now|]. intros now'. apply patient_execute; [apply _|by intros l [[_ ?] _]|].
    intros l [[[Hc _] _] Hp]. apply (settle_step _ (fun x => release "done" "" (t_Attempts x) now' x) now'); [done|done| |].
    + intros d. cbn. rewrite same_id. by apply with_id_core.
    + by repeat split.
  - destruct (Z.leb_spec maxAttempts (t_Attempts r + 1)); [|by apply patient_fail; [apply _|by intros l [? _]|lia]].
    unfold abandon. eapply tracked_bind; [apply patient_now|]. intros now'.
    eapply (tracked_bind _ _ _ _ _ _ _ (fun _ => settled T t)).
    { eapply tracked_post; [| |apply (tracked_attempt _ _ _ _ _ _ (fun _ => settled T t) never never), patient_execute; [apply _|..]]; [by intros []|done|..].
      - intros l [[[_ [_ Hrow]] Hq] _]. split; [done|]. intros t' Hin' Hid. destruct (Hrow t' Hin' Hid) as (_ & _ & ->).
        rewrite same_attempts in *. unfold maxAttempts in *. lia.
      - intros l [[[Hc _] _] Hp]. apply (settle_step _ (fun x => release "failed" "" (t_Attempts x + 1) now' x) now'); [done|done| |].
        + intros d. cbn. rewrite same_id. by apply with_id_core.
        + by repeat split. }
    skip. assert (Hk : forall A (m : qcmd A), tracked (settled T t) m (fun _ => settled T t) (settled T t) ->
      tracked (settled T t) (attempt m) (fun _ => settled T t) never) by (intros A m Hm; by apply tracked_try).
    eapply (tracked_bind _ _ _ _ _ _ _ (fun _ => settled T t)).
    { case_decide; [|by apply tracked_ret]. destruct (decode_restore_backup _); [|by apply tracked_ret].
      eapply tracked_bind; [apply Hk, (keeps_apply_entry (Some c)), _|]. intros x. by apply tracked_ret. }
    skip. destruct (payload_ids _) as [[[op|] st]|]; try (by apply tracked_ret).
    eapply tracked_bind; [apply Hk, keeps_working|]. intros x.
    eapply tracked_bind; [apply Hk, keeps_working|]. intros x'. by apply tracked_ret.
Qed.
End Run.

(** ** A poll *)

(** The rows [L] that were there first, settled or pending. *)
Definition good (L : list Task) (l : list task_event) : Prop :=
  has L l /\ Forall (fun x => t_State x <> "running") L /\ Forall (fun x => (t_CreatedAt x <= c)%Z) L /\
  forall x, x ∈ L -> past (t_UpdatedAt x) l.
#[local] Instance mild_good L : Mild (good L).
Proof.
  intros e l He Hp (Hh & Hr & Hc & Hu). split_and!; [by apply (mild_kept (Some c))|done|done|]. intros x Hx. apply (grows l [e]). by apply Hu.
Qed.
Definition kept (L L' : list Task) : Prop := map (fun x => (t_ID x, t_Type x)) L' = map (fun x => (t_ID x, t_Type x)) L.

Lemma eligible_later m now x : (m <= now)%Z -> eligible m x = true -> eligible now x = true.
Proof.
  unfold eligible. intros Hm [[Hs Hl]%andb_true_iff Hr]%andb_true_iff. rewrite Hs, Hl. cbn.
  apply orb_true_iff in Hr as [->|Hr]; [done|]. apply orb_true_iff. right. lia.
Qed.
Lemma settled_split L news t l : NoDup (map t_ID (L ++ news)) -> t ∈ L ++ news -> Forall later_row news ->
  Forall (fun x => t_State x <> "running") L -> Forall (fun x => (t_CreatedAt x <= c)%Z) L -> (forall x, x ∈ L -> past (t_UpdatedAt x) l) ->
  t_State t = "pending" -> (t_Attempts t < maxAttempts)%Z -> settled (L ++ news) t l ->
  (t ∈ L /\ exists L', good L' l /\ kept L L' /\ (left_of L' < left_of L)%nat) \/ (t ∉ L /\ good L l).
Proof.
  intros Hnd Hin Hn Hrun Hc Hu Hp Hlt (g & now & (extra & Hrows & Hex) & Hpast & Hg).
  assert (Huniq : forall x, x ∈ L ++ news -> t_ID x = t_ID t -> x = t).
  { intros x Hx E. by apply (keys_unique (mkTables (L ++ news) ∅ ∅)). }
  rewrite with_id_app, <- app_assoc in Hrows.
  assert (Hnews : Forall later_row (with_id (t_ID t) g news ++ extra)).
  { apply Forall_app. split; [|done]. apply with_id_forall; [done|]. intros x Hx E.
    assert (x = t) as -> by (apply Huniq; [apply elem_of_app; by right|done]). rewrite Forall_forall in Hn.
    destruct (Hn t Hx) as [Hct _]. destruct Hg as (_ & _ & Ec & _ & Hs & _). split; [by rewrite Ec|done]. }
  destruct (decide (t ∈ L)) as [HtL|HtL]; [left|right]; (split; [done|]).
  - exists (with_id (t_ID t) g L).
    assert (HuL : forall x, x ∈ L -> t_ID x = t_ID t -> x = t) by (intros x Hx; apply Huniq, elem_of_app; by left).
    assert (Hndl : NoDup (map t_ID L)) by (rewrite map_app in Hnd; by apply NoDup_app in Hnd as [? _]).
    destruct Hg as (Ei & Et & Ec & Eu & Hs & Ha). split_and!; [split_and!| |].
    + by eexists.
    + apply with_id_forall; [done|]. intros x Hx E. by rewrite (HuL x Hx E).
    + apply with_id_forall; [done|]. intros x Hx E. rewrite (HuL x Hx E), Ec. rewrite Forall_forall in Hc. by apply Hc.
    + intros x (x0 & Hx0 & [[E ->]|[_ ->]])%with_id_elem; [|by apply Hu]. rewrite (HuL x0 Hx0 E), Eu. exact Hpast.
    + unfold kept, with_id. rewrite map_map. apply map_ext_in. intros x Hx%list_elem_of_In. case_bool_decide as E; [|done].
      rewrite (HuL x Hx E). by rewrite Ei, Et.
    + by apply (left_settled _ _ t _ now).
  - split_and!; [|done..]. eexists. split; [|exact Hnews]. rewrite Hrows. f_equal. apply with_id_none.
    intros (x & E & Hx)%list_elem_of_fmap. apply HtL. by rewrite <- (Huniq x) by (rewrite ?elem_of_app; auto).
Qed.

#[local] Instance growing_since m : Growing (fun l => (m <= clock l)%Z).
Proof. intros l l' Hl. etrans; [exact Hl|apply clock_grows]. Qed.
#[local] Instance growing_pure (A : Prop) : Growing (fun _ : list task_event => A).
Proof. by intros l l' Ha. Qed.

(** What a claim took, among the rows [L] and those enqueued since. *)
Definition took (L : list Task) (now : Z) (nt : list Task * Task) : Prop :=
  Forall later_row nt.1 /\ NoDup (map t_ID (L ++ nt.1)) /\ next_task now (L ++ nt.1) = Some nt.2.
Definition olds (L : list Task) (l : list task_event) : Prop :=
  Forall (fun x => t_State x <> "running") L /\ Forall (fun x => (t_CreatedAt x <= c)%Z) L /\ forall x, x ∈ L -> past (t_UpdatedAt x) l.
#[local] Instance growing_olds L : Growing (olds L).
Proof. intros l l' (? & ? & Hu). split_and!; [done..|]. intros x Hx. apply (grows l l'). by apply Hu. Qed.

Lemma patient_claim worker L now : tracked (good L) (Request (SClaim worker now))
  (fun b l => if b then exists nt, took L now nt /\ claimed worker now (L ++ nt.1) nt.2 l /\ olds L l
              else good L l /\ forall x, x ∈ L -> eligible now x = false) never.
Proof.
  apply patient_request; [apply _|done|]. intros l ((news & Hr & Hn) & Hrun & Hc & Hu).
  assert (Hnt : next_task now (L ++ news) = core <$> next_task now (tasks (replay l))) by (rewrite <- Hr; apply next_task_core).
  assert (Ho : olds L (QStmt (SClaim worker now) :: l)) by (apply (grows l [_]); by split_and!).
  assert (Hrows : rows (QStmt (SClaim worker now) :: l) = map core (tasks (exec (SClaim worker now) (replay l)).2)) by done.
  cbn in Hrows |- *. destruct (next_task now (tasks (replay l))) as [t|]; cbn in Hrows, Hnt |- *.
  - exists (news, core t). cbn. split_and!; [split_and!|..]; try done.
    + cbn. rewrite <- Hr. apply rows_keys.
    + exists []. split; [|done]. rewrite app_nil_r, <- Hr, Hrows. by apply with_id_core.
  - split; [split_and!; try apply Ho|].
    + exists news. split; [|done]. by rewrite Hrows, <- Hr.
    + intros x Hx. apply (next_task_none _ _ _ Hnt), elem_of_app. by left.
Qed.

Lemma patient_poll worker L m : tracked (fun l => good L l /\ (m <= clock l)%Z) (poll worker)
  (fun _ l => (exists L', good L' l /\ kept L L' /\ (left_of L' < left_of L)%nat) \/
              (good L l /\ forall x, x ∈ L -> eligible (m / Second) x = false)) never.
Proof.
  unfold poll. eapply tracked_bind; [apply (patient_seconds _ m); by intros l [_ ?]|]. intros now.
  apply (tracked_pre _ _ _ _ _ (fun l => (m / Second <= now)%Z /\ good L l)); [by intros l ((? & ?) & ? & ?)|].
  apply tracked_pure. intros Hnow. eapply tracked_bind; [apply patient_claim|]. intros [|]; cbn [negb].
  2: { apply tracked_ret. intros l [Hg Hno]. right. split; [done|]. intros x Hx. specialize (Hno x Hx).
       destruct (eligible (m / Second) x) eqn:E; [|done]. by rewrite (eligible_later _ _ _ Hnow E) in Hno. }
  apply tracked_ex. intros [news t]. apply tracked_pure. cbn. intros (Hn & Hnd & Hnt). cbn in Hn, Hnd, Hnt.
  destruct (next_task_eligible _ _ _ Hnt) as [Hin Hel].
  assert (Hp : t_State t = "pending" /\ (t_Attempts t < maxAttempts)%Z).
  { unfold eligible in Hel. apply andb_true_iff in Hel as [[Hs Hl]%andb_true_iff _]. case_bool_decide; [|done]. split; [done|lia]. }
  eapply (tracked_bind _ _ _ _ _ _ _ (fun row l => match row with
    | Some r => core r = claim worker now t /\ (claimed worker now (L ++ news) t l /\ held r l) /\ olds L l | None => False end)).
  { apply patient_query; [apply _|]. intros l [(extra & Hr & Hex) Ho]. cbn in Hr.
    destruct (claimed_one worker now (L ++ news) t extra (replay l)) as (r & Hr' & Hc); [done|done|..].
    - apply Forall_app. split; [apply Ho|]. apply (Forall_impl _ _ _ Hn). by intros x [_ ?].
    - apply (Forall_impl _ _ _ Hex). by intros x [_ ?].
    - exact Hr.
    - rewrite Hr'. split_and!; [done|by exists extra| |apply Ho..]. apply claimed_task_row in Hr' as [Hrin Hrs]. by apply row_held. }
  intros [r|]; [|by apply tracked_fail]. apply tracked_pure. intros Hcore.
  apply (tracked_pre _ _ _ _ _ (fun l => olds L l /\ (claimed worker now (L ++ news) t l /\ held r l))); [by intros l [? ?]|].
  set (holding := fun l => claimed worker now (L ++ news) t l /\ held r l). set (T := L ++ news) in *.
  assert (Hrt : tracked holding (run_task r) (fun _ => settled T t) never) by (apply (patient_run_task worker now T t r Hcore Hin), Hp).
  eapply tracked_post; [| |exact (tracked_frame _ _ _ _ (run_task r) (olds L) holding _ _ Hrt)]; [|by intros l [_ []]].
  intros _ l [(Hrun & Hc & Hu) Hs]. destruct Hp as [Hp Hlt].
  destruct (settled_split L news t l Hnd Hin Hn Hrun Hc Hu Hp Hlt Hs) as [[_ HL]|[HtL Hg]]; [by left|right].
  split; [done|]. intros x Hx. destruct (eligible (m / Second) x) eqn:E; [|done]. destruct HtL.
  destruct (next_task_older now L news c) as (t' & Ht' & HinL); [done| |by exists x; split; [|by apply (eligible_later (m / Second))]|unfold T in *; congruence].
  apply (Forall_impl _ _ _ Hn). by intros y [? _].
Qed.

(** ** Ticks *)

Lemma ticks_take j l' l : (3 * j <= nticks l')%nat -> (clock l + Z.of_nat j * pollInterval <= clock (l' ++ l))%Z.
Proof.
  revert l' l. induction j as [|j IH]; intros l' l Hj; [pose proof (clock_grows l l'); lia|].
  destruct (nticks_split 3 l') as (a & b & -> & Hb); [lia|]. rewrite nticks_app in Hj. rewrite <- app_assoc.
  specialize (IH a (b ++ l) ltac:(lia)). specialize (Htick b l ltac:(lia)). lia.
Qed.

(** The ticks after which whatever is open has rested. *)
Definition blockTicks : nat := 144.
(** Ticks that settle [L], when [k] are left until the next open row rested. *)
Definition budget (k : nat) (L : list Task) : nat :=
  match left_of L with O => 0 | S r => k + blockTicks * r end.

Lemma open_left L : left_of L <> 0%nat -> exists x, x ∈ L /\ t_State x = "pending" /\ (t_Attempts x < maxAttempts)%Z.
Proof.
  induction L as [|x L IH]; [done|]. unfold left_of in *. cbn. intros Hl. destruct (decide (left_for x = 0%nat)) as [E|E].
  - destruct IH as (y & Hy & Hp); [lia|]. exists y. split; [by constructor|done].
  - exists x. split; [by constructor|]. unfold left_for in E. case_bool_decide; [|done]. split; [done|lia].
Qed.
Lemma open_eligible now x : t_State x = "pending" -> (t_Attempts x < maxAttempts)%Z -> (t_UpdatedAt x + 240 <= now)%Z ->
  eligible now x = true.
Proof.
  intros Hs Hlt Hu. unfold eligible. rewrite bool_decide_true by done. apply andb_true_iff. split; [cbn; lia|].
  apply orb_true_iff. right. unfold maxAttempts, backoffFactor in *. lia.
Qed.

(** What is known between two ticks: the rows, an instant from which ticks are
    counted, and how many may still pass before what is open rested. *)
Record phase := mkPhase { ph_rows : list Task; ph_since : Z; ph_ticks : nat; ph_wait : nat }.
Definition passed (m : Z) (j : nat) (l : list task_event) : Prop :=
  exists l' l0, l = l' ++ l0 /\ (m <= clock l0)%Z /\ (j <= nticks l')%nat.
#[local] Instance growing_passed m j : Growing (passed m j).
Proof. intros l l2 (l' & l0 & -> & Hm & Hj). exists (l2 ++ l'), l0. rewrite nticks_app, <- app_assoc. split_and!; [done..|lia]. Qed.
Definition phase_ok (f : phase) : Prop :=
  (1 <= ph_wait f)%nat /\ (blockTicks <= ph_ticks f + ph_wait f)%nat /\ forall x, x ∈ ph_rows f -> (t_UpdatedAt x <= ph_since f / Second)%Z.
Definition in_phase (f : phase) (l : list task_event) : Prop := good (ph_rows f) l /\ passed (ph_since f) (ph_ticks f) l.
Definition left_in (f : phase) : nat := budget (ph_wait f) (ph_rows f).

Lemma passed_clock m j l : passed m j l -> (m + Z.of_nat (j / 3) * pollInterval <= clock l)%Z.
Proof.
  intros (l' & l0 & -> & Hm & Hj). pose proof (ticks_take (j / 3) l' l0) as Ht. pose proof (Nat.Div0.mul_div_le j 3). lia.
Qed.
Lemma rested m j x : (blockTicks <= j)%nat -> (t_UpdatedAt x <= m / Second)%Z ->
  (t_UpdatedAt x + 240 <= (m + Z.of_nat (j / 3) * pollInterval) / Second)%Z.
Proof.
  intros Hj Hx. apply Z.div_le_lower_bound; [done|]. assert (48 <= j / 3)%nat by (apply Nat.div_le_lower_bound; unfold blockTicks in *; lia).
  pose proof (Z.mul_div_le m Second eq_refl). assert (0 < Second)%Z by done. assert (pollInterval = 5 * Second)%Z as -> by done. nia.
Qed.

(** A tick spends a tick of the budget, or settles a row. *)
Lemma patient_tick worker f : phase_ok f ->
  tracked (in_phase f) (modify (record QTick);; attempt (poll worker))
    (fun _ l => exists f', (phase_ok f' /\ kept (ph_rows f) (ph_rows f') /\ (left_in f' <= pred (left_in f))%nat) /\ in_phase f' l) never.
Proof.
  destruct f as [L m j k]. intros (Hk & Hj & Hu). unfold in_phase, left_in. cbn -[passed] in *.
  set (m' := (m + Z.of_nat (S j / 3) * pollInterval)%Z).
  eapply (tracked_bind _ _ _ _ _ _ _ (fun _ l => passed m (S j) l /\ good L l /\ (m' <= clock l)%Z)).
  { apply tracked_event. intros q l Hv Hl [Hg (l' & l0 & -> & Hm & Hn)]. rewrite app_nil_r in Hl. split; [done|]. exists QTick.
    split; [done|]. split; [done|]. cbn -[passed]. assert (Hp : passed m (S j) (QTick :: l' ++ l0)).
    { exists (QTick :: l'), l0. split_and!; [done..|]. unfold nticks in *. cbn. lia. }
    split; [done|]. split; [by apply (mild_kept (Some c))|by apply passed_clock]. }
  skip. pose proof (tracked_frame _ _ _ _ _ (passed m (S j)) _ _ _ (tracked_attempt _ _ _ _ _ _ _ _ never (patient_poll worker L m'))) as Hpoll.
  cbv beta in Hpoll. eapply tracked_post; [| |exact Hpoll]; [|by intros l [_ Hf]].
  cbv beta. intros r l [Hp HQ]. destruct r as [[]|]; [|done]. destruct HQ as [(L' & Hg & Hkept & Hlt)|[Hg Hno]].
  - exists (mkPhase L' (clock l) 0 blockTicks). cbn. split; [split_and!; cbn|split; [done|by exists [], l]].
    + split_and!; cbn; [unfold blockTicks; lia|lia|by destruct Hg as (_ & _ & _ & ?)].
    + done.
    + unfold budget, blockTicks. destruct (left_of L) eqn:E1, (left_of L') eqn:E2; cbn [pred Nat.add]; lia.
  - destruct (decide (left_of L = 0%nat)) as [E0|Ne].
    + exists (mkPhase L m (S j) k). cbn -[passed]. split; [|done]. split_and!; [split_and!; cbn; [done|lia|done]|done|].
      unfold budget. rewrite E0. lia.
    + destruct (open_left L Ne) as (x & Hx & Hs & Hlt). assert (k <> 1%nat) as Hk1.
      { intros ->. specialize (Hno x Hx). rewrite (open_eligible _ x Hs Hlt) in Hno; [done|]. apply rested; [lia|by apply Hu]. }
      exists (mkPhase L m (S j) (pred k)). cbn -[passed]. split; [|done]. split_and!; [split_and!; cbn; [lia|lia|done]|done|].
      unfold budget. destruct (left_of L); cbn [pred]; lia.
Qed.

Lemma kept_trans L1 L2 L3 : kept L1 L2 -> kept L2 L3 -> kept L1 L3.
Proof. unfold kept. congruence. Qed.

Lemma patient_ticks worker n f : phase_ok f -> (left_in f <= n)%nat ->
  tracked (in_phase f) (ticks worker n) (fun _ l => exists L, kept (ph_rows f) L /\ left_of L = 0%nat /\ good L l) never.
Proof.
  revert f. induction n as [|n IH]; intros f Hf Hn; cbn [ticks].
  { apply tracked_ret. intros l [Hg _]. exists (ph_rows f). split_and!; [done| |done].
    destruct Hf as [Hk _]. unfold left_in, budget in Hn. destruct (left_of (ph_rows f)); lia. }
  apply tracked_assoc. eapply tracked_bind; [by apply patient_tick|]. skip. apply tracked_ex. intros f'. apply tracked_pure. intros (Hf' & Hk & Hl).
  eapply tracked_post; [| |apply (IH f'); [done|lia]]; [|done]. intros _ l (L & HL & H0' & Hg). exists L. split_and!; [by eapply kept_trans|done|done].
Qed.

(** ** A life of the worker *)

Lemma core_recover t : core (recover t) = recover (core t).
Proof. unfold recover. cbn. by case_bool_decide. Qed.
Lemma recover_idle t : t_State (recover t) <> "running".
Proof. unfold recover. by case_bool_decide. Qed.

Definition at_start (L : list Task) (l : list task_event) : Prop :=
  has L l /\ Forall (fun x => (t_CreatedAt x <= c)%Z) L /\ forall x, x ∈ L -> past (t_UpdatedAt x) l.
#[local] Instance mild_start L : Mild (at_start L).
Proof. intros e l He Hp (Hh & Hc & Hu). split_and!; [by apply (mild_kept (Some c))|done|]. intros x Hx. apply (grows l [e]). by apply Hu. Qed.

Lemma patient_recover L : tracked (at_start L) (Execute SRecover) (fun _ => good (map recover L)) never.
Proof.
  apply patient_execute; [apply _|done|]. intros l ((news & Hr & Hn) & Hc & Hu). split_and!.
  - exists (map recover news). split.
    + unfold rows. cbn [replay foldr replay_event exec snd tasks set_tasks]. fold (replay l). rewrite <- map_app, <- Hr. unfold rows.
      rewrite !map_map. apply map_ext. intros t. apply core_recover.
    + rewrite Forall_forall in *. intros x (t & -> & Ht)%list_elem_of_fmap. destruct (Hn t Ht) as [? _]. split; [|apply recover_idle].
      unfold recover. by case_bool_decide.
  - apply Forall_forall. intros x (t & -> & Ht)%list_elem_of_fmap. apply recover_idle.
  - rewrite Forall_forall in *. intros x (t & -> & Ht)%list_elem_of_fmap. unfold recover. case_bool_decide; by apply (Hc t).
  - intros x (t & -> & Ht)%list_elem_of_fmap. apply (grows l [_]). unfold recover. case_bool_decide; by apply (Hu t).
Qed.

Lemma patient_Run worker n L : (blockTicks * left_of (map recover L) <= n)%nat ->
  tracked (at_start L) (Run worker n) (fun _ l => exists L', kept (map recover L) L' /\ left_of L' = 0%nat /\ good L' l) never.
Proof.
  intros Hn. unfold Run. eapply tracked_bind; [apply patient_recover|]. skip.
  set (f m := mkPhase (map recover L) m 0 blockTicks). apply (tracked_pre _ _ _ _ _ (fun l => exists m, phase_ok (f m) /\ in_phase (f m) l)).
  { intros l Hg. exists (clock l). split; [split_and!; cbn; [unfold blockTicks; lia|lia|by destruct Hg as (_ & _ & _ & ?)]|]. split; [done|by exists [], l]. }
  apply tracked_ex. intros m. apply tracked_pure. intros Hf. apply (patient_ticks worker n (f m) Hf).
  unfold left_in, budget, blockTicks in *. cbn [f ph_rows ph_wait]. destruct (left_of _); lia.
Qed.

Lemma left_recovered d : (forall t, t ∈ d -> 0 <= t_Attempts t)%Z -> (left_of (map recover (map core d)) <= 5 * List.length d)%nat.
Proof.
  unfold left_of. induction d as [|t d IH]; intros Ha; cbn; [lia|].
  specialize (IH ltac:(intros x Hx; apply Ha; by constructor)). specialize (Ha t ltac:(by constructor)).
  assert (left_for (recover (core t)) <= 5)%nat; [|lia]. unfold left_for, recover. unfold maxAttempts.
  repeat (case_bool_decide; cbn); lia.
Qed.
Lemma left_none L x : left_of L = 0%nat -> x ∈ L -> t_State x = "pending" -> (maxAttempts <= t_Attempts x)%Z.
Proof.
  unfold left_of. induction L as [|y L IH]; cbn; intros Hl; [by intros []%elem_of_nil|].
  intros [->|Hx]%elem_of_cons Hs; [|apply IH; [lia|done..]]. assert (Hy : left_for y = 0%nat) by lia.
  unfold left_for in Hy. rewrite bool_decide_true in Hy by done. lia.
Qed.
Lemma kept_row L L' x : kept L L' -> x ∈ L -> exists x', x' ∈ L' /\ t_ID x' = t_ID x /\ t_Type x' = t_Type x.
Proof.
  unfold kept. intros Hk Hx. assert (Hin : (t_ID x, t_Type x) ∈ map (fun x => (t_ID x, t_Type x)) L') by (rewrite Hk; by apply list_elem_of_fmap_2 with (f := fun x => (t_ID x, t_Type x))).
  apply list_elem_of_fmap in Hin as (x' & E & Hin). exists x'. by simplify_eq.
Qed.

Definition finished (l : list task_event) (t : Task) : Prop :=
  (t_State t = "done" /\ QRun (t_ID t) true ∈ l) \/
  (t_State t = "failed" /\ t_Attempts t = maxAttempts /\ QRun (t_ID t) false ∈ l) \/
  (t_State t = "pending" /\ t_Attempts t = maxAttempts /\ known_type (t_Type t) = false).

Lemma finished_row L l x : good L l -> left_of L = 0%nat -> Ordered log_allowed l -> x ∈ L ->
  exists t, t ∈ tasks (replay l) /\ t_ID t = t_ID x /\ t_Type t = t_Type x /\ finished l t.
Proof.
  intros ((news & Hr & _) & Hrun & _) Hl Ho Hx. assert (Hin : x ∈ rows l) by (rewrite Hr; apply elem_of_app; by left).
  unfold rows in Hin. apply list_elem_of_fmap in Hin as (t & -> & Ht). exists t. split_and!; [done..|].
  rewrite Forall_forall in Hrun. specialize (Hrun _ Hx). destruct (log_tasks l t Ho Ht) as [Ha [[Hs Hk]|[[Hs _]|[?|?]]]]; [|done|by left|by right; left].
  right; right. pose proof (left_none L _ Hl Hx Hs) as Hle. cbn in Hle. split_and!; [done|lia|].
  destruct (known_type (t_Type t)); [|done]. specialize (Hk eq_refl). lia.
Qed.
End Patient.

Section Settles.
Context `{TaskEnv} `{Monitoring.MonEnv unit} `{Worker.WorkerEnv} `{Payloads}.

(** C26. Every task is settled.  Whatever its handler does, however often the
    worker died before, and whatever is enqueued meanwhile: while the database
    answers, a worker that is started finishes each of the [m] tasks there are
    within [720 * m] ticks.  Each is done after a run that ended well, or failed
    after five runs of which the last failed; only a task of a type without a
    handler stays pending, its attempts used up.  (Its other users give new tasks
    times no earlier than those there were; the clock does not go back; a ticker
    holds at most one tick.) *)
Theorem tasks_settle (c : Z) (worker : string) (n : nat) (q : Q) (Hpunctual : Punctual (Some c))
  (Hdb : forall l, statement l = Done) (Hanswers : forall l, answers_ l = true)
  (Hclock : forall e l, (clock l <= clock (e :: l))%Z)
  (Htick : forall l' l, (3 <= nticks l')%nat -> (clock l + pollInterval <= clock (l' ++ l))%Z)
  (Hq : lived q)
  (Hrows : forall t, t ∈ tasks (tables q) -> (t_CreatedAt t <= c)%Z /\ (t_UpdatedAt t <= clock (qlog q) / Second)%Z)
  (Hn : (720 * List.length (tasks (tables q)) <= n)%nat) :
  (Run worker n q).1 = Ok tt /\ forall t, t ∈ tasks (tables q) ->
    exists t', t' ∈ tasks (tables (Run worker n q).2) /\ t_ID t' = t_ID t /\ t_Type t' = t_Type t /\ finished (qlog (Run worker n q).2) t'.
Proof.
  destruct (lived_log q Hq) as [Hr Ho]. set (L := rows (qlog q)). assert (Hlog : forall t, t ∈ tasks (tables q) -> task_honest (qlog q) t).
  { rewrite Hr. intros t. by apply log_tasks. }
  assert (Hstart : at_start c L (qlog q)).
  { unfold L, rows. split_and!; [by exists []; rewrite app_nil_r|apply Forall_forall|]; intros x (t & -> & Ht)%list_elem_of_fmap; rewrite <- Hr in Ht; destruct (Hrows t Ht); done. }
  assert (Hleft : (blockTicks * left_of (map recover L) <= n)%nat).
  { pose proof (left_recovered (tasks (tables q)) ltac:(intros t Ht; apply (Hlog t Ht))) as Hl. unfold L, rows. rewrite <- Hr. unfold blockTicks. lia. }
  pose proof (patient_Run c Hdb Hanswers Hclock Htick worker n L Hleft) as Hrun.
  destruct (Hrun q (qlog q) Hr ltac:(by rewrite app_nil_r) Ho Hstart) as (Hr' & l' & Hl' & Ho' & Hend).
  rewrite app_nil_r in Hl'. rewrite <- Hl' in *. destruct (Run worker n q).1 as [[]|e]; [|done]. split; [done|].
  destruct Hend as (L' & Hk & Hz & Hg). intros t Ht. rewrite Hr in Ht.
  destruct (kept_row _ _ (recover (core t)) Hk) as (x & Hx & Ei & Et); [by apply list_elem_of_fmap_2, list_elem_of_fmap_2|].
  destruct (finished_row c L' _ x Hg Hz Ho' Hx) as (t' & Ht' & Ei' & Et' & Hf). exists t'. rewrite Hr'. split_and!; [done| | |done].
  - rewrite Ei', Ei. unfold recover. by case_bool_decide.
  - rewrite Et', Et. unfold recover. by case_bool_decide.
Qed.
End Settles.

(** ** Two tasks, one of them of a type nobody handles *)

Module Sample.
Import TaskSafety.Sample.

Lemma clock_forward e l : (clock l <= clock (e :: l))%Z.
Proof. unfold clock, tasks_env. cbn [List.length]. assert (0 <= Second)%Z by done. nia. Qed.
Lemma clock_ticks l' l : (3 <= nticks l')%nat -> (clock l + pollInterval <= clock (l' ++ l))%Z.
Proof.
  intros Hn. unfold clock, tasks_env, pollInterval. rewrite length_app. assert (0 <= Second)%Z by done.
  assert (nticks l' <= List.length l')%nat by apply List.filter_length_le. nia.
Qed.
Lemma others_punctual : Punctual (Some 100%Z).
Proof.
  intros l s Hs. unfold others, tasks_env, others_ in Hs.
  repeat case_match; subst; repeat (apply elem_of_cons in Hs as [[= ->]|Hs]; [done|]); by apply elem_of_nil in Hs.
Qed.
Lemma early_rows t : t ∈ tasks (tables cut_off) -> (t_CreatedAt t <= 100)%Z /\ (t_UpdatedAt t <= clock (qlog cut_off) / Second)%Z.
Proof.
  intros Ht. cbn in Ht. repeat (apply elem_of_cons in Ht as [->|Ht]; [by vm_compute|]). by apply elem_of_nil in Ht.
Qed.

Lemma tasks_settle_witness : List.length (tasks (tables cut_off)) = 2%nat /\
  exists t, t ∈ tasks (tables (Run "w" 1440 cut_off).2) /\ t_ID t = "t2" /\ finished (qlog (Run "w" 1440 cut_off).2) t.
Proof.
  split; [done|].
  destruct (tasks_settle 100 "w" 1440 cut_off others_punctual (fun _ => eq_refl) (fun _ => eq_refl) clock_forward clock_ticks lived_cut_off
    early_rows (le_n _)) as [_ Hs].
  destruct (Hs (mkTask "t2" "unknown" "app" "" "pending" 0 100 100 "" "")) as (t & Ht & Ei & _ & Hf); [cbn; apply list_elem_of_further, list_elem_of_here|].
  by exists t.
Defined.
End Sample.
