(* ===== verification/Backup.v ===== *)
(** Replicated backups of a dataset: [src/pkg/store/backup.go] and
    [src/pkg/store/backup_transport.go], over the [zfs] and [ssh] tools.

    One source dataset and its backup on one destination node.  What the tools
    change is a log of effects, latest first, and the state of both datasets is
    its replay; what a tool answers, and what others do before each of its
    calls, is the environment's choice within the tool's own rules. *)
From S2P Require Import Prelude GoTime Timestamp Release GoStrings.
From S2P Require Retention Lifecycle.
From Stdlib Require Import Ascii.

Open Scope string_scope.
Open Scope list_scope.

(** ** Datasets *)

(** A snapshot: [sn_Seq] is its place in the order of creation, which [zfs
    list -s createtxg] shows; the two properties are read from JSON, [[]] when
    there are none. *)
Record Snap := mkSnap {
  sn_Name : string; sn_GUID : string; sn_Seq : Z; sn_Created : Z;
  sn_HoldTargets : list string; sn_TransferTargets : list string; sn_Holds : list string; sn_Clones : bool }.

(** What a resume token names: the qualified target of the stream and its GUID;
    and the snapshot the stream starts from, none for a full one. *)
Record Token := mkToken { tk_toname : string; tk_toguid : string; tk_from : option string }.
(** The destination's dataset, its snapshots in the order received. *)
Record Dest := mkDest { ds_Owner : string; ds_Snaps : list Snap; ds_Token : option Token; ds_Policy : string }.
Record Tables := mkTables { source : list Snap; removed : gmap string Z; generations : gmap string Z; dest : option Dest }.

Inductive side := Source | Destination.
Definition snaps_of (sd : side) (d : Tables) : list Snap :=
  match sd with Source => source d | Destination => match dest d with Some b => ds_Snaps b | None => [] end end.
Definition token_of (d : Tables) : option Token := b ← dest d; ds_Token b.
Definition find_snap (name : string) (l : list Snap) : option Snap := List.find (fun s => bool_decide (sn_Name s = name)) l.

(** ** Effects *)

Inductive effect :=
| BNew (s : Snap)
| BDestroy (sd : side) (name : string)
| BHold (tag name : string)
| BRelease (tag name : string)
| BMeta (kind : string) (nodes : list string) (name : string)
| BRemoved (m : gmap string Z)
| BGenerations (m : gmap string Z)
| BCreate (owner : string)
| BReceive (after : option string) (s : Snap)
| BToken (t : option Token)
| BPolicy (policy : string).

Definition set_source (l : list Snap) (d : Tables) : Tables := mkTables l (removed d) (generations d) (dest d).
Definition set_dest (b : option Dest) (d : Tables) : Tables := mkTables (source d) (removed d) (generations d) b.
Definition with_name (name : string) (f : Snap -> Snap) (l : list Snap) : list Snap :=
  map (fun s => if bool_decide (sn_Name s = name) then f s else s) l.
Definition without (name : string) (l : list Snap) : list Snap := filter (fun s => sn_Name s <> name) l.
Definition set_holds (f : list string -> list string) (s : Snap) : Snap :=
  mkSnap (sn_Name s) (sn_GUID s) (sn_Seq s) (sn_Created s) (sn_HoldTargets s) (sn_TransferTargets s) (f (sn_Holds s)) (sn_Clones s).
Definition set_meta (kind : string) (nodes : list string) (s : Snap) : Snap :=
  if decide (kind = "transfer")
  then mkSnap (sn_Name s) (sn_GUID s) (sn_Seq s) (sn_Created s) (sn_HoldTargets s) nodes (sn_Holds s) (sn_Clones s)
  else mkSnap (sn_Name s) (sn_GUID s) (sn_Seq s) (sn_Created s) nodes (sn_TransferTargets s) (sn_Holds s) (sn_Clones s).
(** A snapshot as it is received: no property of the source is sent. *)
Definition plain (s : Snap) : Snap := mkSnap (sn_Name s) (sn_GUID s) (sn_Seq s) (sn_Created s) [] [] [] false.
(** [zfs receive -F]: what is newer than the stream's base is rolled back. *)
Fixpoint upto (guid : string) (l : list Snap) : list Snap :=
  match l with
  | [] => []
  | s :: l => if bool_decide (sn_GUID s = guid) then [s] else s :: upto guid l
  end.
Definition base_of (after : option string) (l : list Snap) : list Snap := match after with Some g => upto g l | None => [] end.

Definition exec (e : effect) (d : Tables) : Tables :=
  match e with
  | BNew s => set_source (source d ++ [s]) d
  | BDestroy Source name => set_source (without name (source d)) d
  | BDestroy Destination name => set_dest ((fun b => mkDest (ds_Owner b) (without name (ds_Snaps b)) (ds_Token b) (ds_Policy b)) <$> dest d) d
  | BHold tag name => set_source (with_name name (set_holds (fun h => h ++ [tag])) (source d)) d
  | BRelease tag name => set_source (with_name name (set_holds (filter (fun t => t <> tag))) (source d)) d
  | BMeta kind nodes name => set_source (with_name name (set_meta kind nodes) (source d)) d
  | BRemoved m => mkTables (source d) m (generations d) (dest d)
  | BGenerations m => mkTables (source d) (removed d) m (dest d)
  | BCreate owner => set_dest (Some (mkDest owner [] None "")) d
  | BReceive after s => set_dest ((fun b => mkDest (ds_Owner b) (base_of after (ds_Snaps b) ++ [plain s]) None (ds_Policy b)) <$> dest d) d
  | BToken t => set_dest ((fun b => mkDest (ds_Owner b) (ds_Snaps b) t (ds_Policy b)) <$> dest d) d
  | BPolicy policy => set_dest ((fun b => mkDest (ds_Owner b) (ds_Snaps b) (ds_Token b) policy) <$> dest d) d
  end.

(** [zfs] refuses to destroy what is held or cloned, to hold twice, to release
    what is not held, and to touch what is not there; a stream must start at a
    snapshot of the destination, or at nothing. *)
Definition has_snap (sd : side) (name : string) (p : Snap -> bool) (d : Tables) : bool :=
  match find_snap name (snaps_of sd d) with Some s => p s | None => false end.
Definition starts (after : option string) (l : list Snap) : bool :=
  match after with
  | Some g => existsb (fun t => bool_decide (sn_GUID t = g)) l
  | None => bool_decide (l = [])
  end.
Definition possible (e : effect) (d : Tables) : bool :=
  match e with
  | BNew s => negb (existsb (fun t => bool_decide (sn_Name t = sn_Name s)) (source d))
  | BDestroy sd name => has_snap sd name (fun s => bool_decide (sn_Holds s = []) && negb (sn_Clones s)) d
  | BHold tag name => has_snap Source name (fun s => negb (bool_decide (tag ∈ sn_Holds s))) d
  | BRelease tag name => has_snap Source name (fun s => bool_decide (tag ∈ sn_Holds s)) d
  | BMeta _ _ name => has_snap Source name (fun _ => true) d
  | BRemoved _ | BGenerations _ => true
  | BCreate _ => negb (bool_decide (is_Some (dest d)))
  | BReceive after s => match dest d with Some b => starts after (ds_Snaps b) | None => false end
  | BToken t => match dest d, t with Some b, Some t => starts (tk_from t) (ds_Snaps b) | o, _ => bool_decide (is_Some o) end
  | BPolicy _ => bool_decide (is_Some (dest d))
  end.

Definition no_tables : Tables := mkTables [] ∅ ∅ None.
Definition replay : list effect -> Tables := foldr exec no_tables.

(** ** The world *)

(** Who may act between two calls: whoever takes or destroys snapshots of the
    source, and the replication to other nodes. *)
Definition tag_of (kind node : string) : string := "floatlab:" +:+ kind +:+ ":" +:+ node.
Definition tags_of (node : string) : list string := [tag_of "hold" node; tag_of "transfer" node].
(** A new snapshot: its name, GUID and place are new, it starts without clones,
    and the clock did not go back since the last automated one. *)
Definition point_of (dataset : string) (s : Snap) : Retention.point :=
  Retention.mkPoint (Retention.mkSnap (sn_Name s) dataset "") (sn_Created s).
Definition automated (s : Snap) : bool := IsAutomatedSnapshot (chars (sn_Name s)).
Definition newer (t s : Snap) : bool :=
  negb (bool_decide (sn_Name t = sn_Name s)) && negb (bool_decide (sn_GUID t = sn_GUID s)) && (sn_Seq t <? sn_Seq s)%Z &&
  (negb (automated t && automated s) || Retention.less (point_of "" t) (point_of "" s)).
Definition born (l : list effect) : list Snap := omap (fun e => match e with BNew s => Some s | _ => None end) l.
Definition fresh (s : Snap) (l : list effect) : bool := forallb (fun t => newer t s) (born l).

(** What others may do between two calls, a condition on the environment and no
    code: [mine] is the node whose backup this is, and others leave its tags
    alone.  The restore of a stack, which swaps the source dataset for a promoted
    clone, is not an effect of this model. *)
Definition honest (mine : string) (e : effect) (l : list effect) : bool :=
  match e with
  | BNew s => fresh s l
  | BDestroy Source _ => true
  | BHold tag _ | BRelease tag _ => negb (bool_decide (tag ∈ tags_of mine))
  | BMeta _ _ _ => true
  | _ => false
  end.

Record stream_end := mkEnd { se_whole : nat; se_partial : bool; se_reported : bool; se_bytes : Z }.

(** The answers of the tools, from the effects so far. *)
Class BackupEnv := {
  node : string;                              (* whose backup this is *)
  identity : string;                          (* the source the receiver authenticated *)
  tool : list effect -> Lifecycle.outcome;              (* a command that changes something *)
  answers : list effect -> bool;              (* a command that reads *)
  connected : list effect -> bool;            (* ssh brought the answer back *)
  locks : list effect -> bool;                (* flock *)
  cancelled : list effect -> bool;            (* ctx.Err() *)
  stream : list effect -> stream_end;         (* how far a stream came *)
  token_read : list effect -> result string bool;  (* zfs send -nvt: [Ok false] when it calls the token invalid *)
  others : list effect -> list effect;
  now : list effect -> Z;
  shuffle : list effect -> list string -> list string;  (* the order of a map *)
  RFC3339 : Z -> string;
  Parse : string -> option Z;
  ParseIP : string -> bool;
  EncodeToString : string -> string;
  DecodeString : string -> option string }.

Abbreviation B := (list effect).
Abbreviation bcmd := (prog string (list effect)).

Section Store.
Context `{BackupEnv}.

Definition act (e : effect) (l : B) : B :=
  if honest node e l && possible e (replay l) then e :: l else l.
Definition interfere (l : B) : B := fold_left (fun l e => act e l) (others l) l.

Definition read {A} (f : Tables -> result string A) : bcmd A := fun l =>
  let l := interfere l in (if answers l then f (replay l) else Err "zfs", l).
Definition write (e : effect) : bcmd unit := fun l =>
  let l := interfere l in
  if possible e (replay l) then
    match tool l with
    | Lifecycle.Done => (Ok tt, e :: l)
    | Lifecycle.Refused => (Err "zfs", l)
    | Lifecycle.Unreported => (Err "zfs", e :: l)
    end
  else (Err "zfs", l).
Definition read_snap {A} (sd : side) (name : string) (f : Snap -> A) : bcmd A :=
  read (fun d => match find_snap name (snaps_of sd d) with Some s => Ok (f s) | None => Err "zfs" end).
Definition look {A} (f : B -> A) : bcmd A := fun l => (Ok (f l), l).
Definition time_now : bcmd Z := look now.
Definition ctx_err : bcmd bool := look cancelled.

Fixpoint each {A} (f : A -> bcmd unit) (l : list A) : bcmd unit :=
  match l with
  | [] => ret tt
  | x :: l => f x;; each f l
  end.

(** ** Names *)

Definition alphanumeric (c : ascii) : bool :=
  let n := N_of_ascii c in ((48 <=? n) && (n <=? 57) || (65 <=? n) && (n <=? 90) || (97 <=? n) && (n <=? 122))%N.
Definition word_of (extra : list ascii) (s : string) : bool :=
  match chars s with
  | [] => false
  | c :: l => alphanumeric c && forallb (fun c => alphanumeric c || existsb (Ascii.eqb c) extra) l
  end.
Definition backupID : string -> bool := word_of ["_"; "-"]%char.
Definition backupPart : string -> bool := word_of ["_"; "."; ":"; "-"]%char.
Definition split (c : ascii) (s : string) : list string := map str (split_on c (chars s)).
Definition validBackupDataset (s : string) : bool := negb (bool_decide (s = "")) && forallb backupPart (split "/" s).
Definition BackupDataset (source dataset : string) : string :=
  default "" (head (split "/" dataset)) +:+ "/backups/" +:+ source +:+ "/" +:+ dataset.

(** ** Protection of snapshots *)

Definition snapshotHolds (sd : side) (name : string) : bcmd (list string) := read_snap sd name sn_Holds.
Definition targets_of (kind : string) (s : Snap) : list string :=
  if decide (kind = "transfer") then sn_TransferTargets s else sn_HoldTargets s.
Definition insert_sorted (x : string) : list string -> list string := fix go l :=
  match l with
  | [] => [x]
  | y :: l => if bytes_ltb (chars y) (chars x) then y :: go l else x :: y :: l
  end.
Definition sort_strings (l : list string) : list string := foldr insert_sorted [] l.

(** Adding writes the hold first, removing writes the property first. *)
Definition UpdateSnapshotProtection (dataset snapshot node kind : string) (add : bool) : bcmd unit :=
  if negb (validBackupDataset dataset) || negb (backupPart snapshot) || negb (backupID node) ||
     (negb (bool_decide (kind = "hold")) && negb (bool_decide (kind = "transfer"))) then fail "invalid snapshot protection"
  else
    let tag := tag_of kind node in
    nodes ← read_snap Source snapshot (targets_of kind);
    let found := bool_decide (node ∈ nodes) in
    let next := if add then (if found then nodes else nodes ++ [node]) else filter (fun n => n <> node) nodes in
    (if add then
       held ← snapshotHolds Source snapshot;
       if decide (tag ∈ held) then ret tt else write (BHold tag snapshot)
     else ret tt);;
    write (BMeta kind (sort_strings next) snapshot);;
    if add then ret tt
    else
      held ← snapshotHolds Source snapshot;
      if decide (tag ∈ held) then write (BRelease tag snapshot) else ret tt.

(** ** Pruning *)

(** What a listing says of a snapshot. *)
Record SnapshotInfo := mkInfo { si_Name : string; si_Created : Z; HoldTargets : list string; TransferTargets : list string; Holds : list string }.
(** The metadata of the automated ones are read one by one. *)
Fixpoint describe (sd : side) (l : list Snap) : bcmd (list SnapshotInfo) :=
  match l with
  | [] => ret []
  | s :: l =>
      i ← (if automated s then
             h ← read_snap sd (sn_Name s) sn_HoldTargets;
             t ← read_snap sd (sn_Name s) sn_TransferTargets;
             tags ← snapshotHolds sd (sn_Name s);
             ret (mkInfo (sn_Name s) (sn_Created s) h t tags)
           else ret (mkInfo (sn_Name s) (sn_Created s) [] [] []));
      r ← describe sd l;
      ret (i :: r)
  end.
Definition SnapshotList (sd : side) : bcmd (list SnapshotInfo) :=
  l ← read (fun d => Ok (snaps_of sd d)); describe sd l.

Definition of_policy {A} (r : result Retention.Error A) : bcmd A := match r with Ok a => ret a | Err _ => fail "policy" end.
Definition retention_info (dataset : string) (i : SnapshotInfo) : Retention.SnapshotInfo :=
  Retention.mkSnap (si_Name i) dataset (RFC3339 (si_Created i)).

Definition floatlab_tag (t : string) : bool := HasPrefix t "floatlab:hold:" || HasPrefix t "floatlab:transfer:".
(** Holds and properties tell the same, for the nodes of this system. *)
Definition reconciled (i : SnapshotInfo) : bool :=
  let metadata := map (tag_of "hold") (HoldTargets i) ++ map (tag_of "transfer") (TransferTargets i) in
  forallb (fun t => negb (floatlab_tag t) || bool_decide (t ∈ metadata)) (Holds i) &&
  forallb (fun t => bool_decide (t ∈ Holds i)) metadata.

Definition prune_one (sd : side) (dataset : string) (keep : gset string) (i : SnapshotInfo) : bcmd unit :=
  if negb (IsAutomatedSnapshot (chars (si_Name i))) then ret tt
  else if negb (reconciled i) then fail "snapshot protection requires reconciliation"
  else if decide ((dataset +:+ "@" +:+ si_Name i) ∈ keep) then ret tt
  else
    tags ← snapshotHolds sd (si_Name i);
    h ← read_snap sd (si_Name i) sn_HoldTargets;
    t ← read_snap sd (si_Name i) sn_TransferTargets;
    if bool_decide (tags <> []) || bool_decide (h <> []) || bool_decide (t <> []) then ret tt
    else
      cloned ← read_snap sd (si_Name i) sn_Clones;
      if (cloned : bool) then ret tt else write (BDestroy sd (si_Name i)).

Definition pruneSnapshots (sd : side) (dataset policy : string) : bcmd unit :=
  n ← time_now;
  tiers ← of_policy (Retention.ParseSnapshotPolicy n policy);
  snaps ← SnapshotList sd;
  n ← time_now;
  keep ← of_policy (Retention.RetainedSnapshots Parse (map (retention_info dataset) snaps) tiers n);
  each (prune_one sd dataset keep) snaps.

(** The locks of a dataset, in the process and on its file. *)
Definition lockBackupDataset : bcmd unit := fun l => (if locks l then Ok tt else Err "lock", l).

Definition PruneSnapshots (dataset policy : string) : bcmd unit :=
  if negb (validBackupDataset dataset) then fail "invalid prune dataset"
  else lockBackupDataset;; pruneSnapshots Source dataset policy.

(** ** Generations *)

(** Both fences are a property of the source dataset. *)
Definition removedBackupTargets : bcmd (gmap string Z) := read (fun d => Ok (removed d)).
Definition acceptedGenerations : bcmd (gmap string Z) := read (fun d => Ok (generations d)).

Definition accept_one (ng : string * Z) (a : gmap string Z * bool) : gmap string Z * bool :=
  match a.1 !! ng.1 with
  | Some old => if (old <? ng.2)%Z then (<[ng.1 := ng.2]> a.1, true) else a
  | None => (<[ng.1 := ng.2]> a.1, true)
  end.
Definition acceptBackupGenerations (gens : gmap string Z) : bcmd unit :=
  accepted ← acceptedGenerations;
  if negb (forallb (fun ng => backupID ng.1 && (0 <=? ng.2)%Z) (map_to_list gens)) then fail "invalid backup target generation"
  else
    let '(accepted, changed) := foldr accept_one (accepted, false) (map_to_list gens) in
    if changed then write (BGenerations accepted) else ret tt.

Definition cleanupBackupGenerationLocked (dataset node policy : string) (generation : Z) : bcmd unit :=
  fence ← removedBackupTargets;
  let fence := match (fence : gmap string Z) !! node with
               | Some old => if (old <? generation)%Z then <[node := generation]> fence else fence
               | None => <[node := generation]> fence
               end in
  write (BRemoved fence);;
  accepted ← acceptedGenerations;
  if (generation <? default 0 ((accepted : gmap string Z) !! node))%Z then ret tt
  else
    snaps ← SnapshotList Source;
    each (fun i => each (fun kind => UpdateSnapshotProtection dataset (si_Name i) node kind false) ["hold"; "transfer"]) snaps;;
    pruneSnapshots Source dataset policy.
Definition CleanupBackupGeneration (dataset node policy : string) (generation : Z) : bcmd unit :=
  if negb (validBackupDataset dataset) || negb (backupID node) || (generation <? 0)%Z then fail "invalid backup cleanup"
  else lockBackupDataset;; cleanupBackupGenerationLocked dataset node policy generation.

(** The targets a new snapshot is protected for, after the fence. *)
Fixpoint filter_targets (fence : gmap string Z) (nodes : list string) (gens : gmap string Z) : list string * gmap string Z * gmap string Z :=
  match nodes with
  | [] => ([], ∅, gens)
  | n :: nodes =>
      let g := default 0%Z (gens !! n) in
      if match fence !! n with Some cutoff => (cutoff <? g)%Z | None => true end then
        let '(allowed, accepted, gens) := filter_targets fence nodes gens in
        (n :: allowed, <[n := default g (accepted !! n)]> accepted, gens)
      else filter_targets fence nodes (delete n gens)
  end.
Definition FilterSnapshotTargets (nodes : option (list string)) (gens : gmap string Z) : bcmd (option (list string) * gmap string Z) :=
  match nodes with
  | None => ret (None, gens)
  | Some nodes =>
      fence ← removedBackupTargets;
      let '(allowed, accepted, gens) := filter_targets fence nodes gens in
      acceptBackupGenerations accepted;;
      ret (Some allowed, gens)
  end.

(** ** The receiver at the destination ([ServeBackupReceiver]) *)

Record BackupSnapshot := mkBackupSnapshot { Name : string; GUID : string }.
Record BackupState := mkState { Snapshots : list BackupSnapshot; ResumeToken : option Token }.
Definition listed (l : list Snap) : list BackupSnapshot := map (fun s => mkBackupSnapshot (sn_Name s) (sn_GUID s)) l.

(** What a request brings on its input: nothing, or a stream, as the snapshots
    it carries, what it starts from, and the token it resumes. *)
Record Stream := mkStream { st_snaps : list Snap; st_from : option string; st_resume : bool }.
Inductive answer := Nothing | State_ (s : BackupState).

(** [zfs receive -s]: [n] snapshots arrive whole; the next one may leave a
    token.  A stream that starts afresh is refused while there
    is one, and one that resumes when there is none. *)
Fixpoint receive_all (dataset : string) (n : nat) (partial : bool) (from : option string) (l : list Snap) {struct l} : bcmd unit :=
  match l with
  | [] => ret tt
  | s :: l =>
      match n with
      | 0%nat => (if partial then attempt (write (BToken (Some (mkToken (dataset +:+ "@" +:+ sn_Name s) (sn_GUID s) from))));; ret tt else ret tt);; fail "stream"
      | S n => write (BReceive from s);; receive_all dataset n partial (Some (sn_GUID s)) l
      end
  end.
Definition receive (dataset : string) (st : Stream) : bcmd unit :=
  token ← read (fun d => Ok (token_of d));
  if negb (Bool.eqb (bool_decide (is_Some token)) (st_resume st)) then fail "partially received state"
  else
    e ← look stream;
    if st_resume st && bool_decide (se_whole e = 0%nat) then
      (if se_partial e then ret tt else attempt (write (BToken None));; ret tt);; fail "stream"
    else receive_all dataset (se_whole e) (se_partial e) (st_from st) (st_snaps st).

Definition receiver_dataset (source : string) (fields : list string) : option (string * string * string) :=
  match fields with
  | ["zfs-backup"; action; dataset; policy] =>
      let parts := split "/" dataset in
      if backupID source && validBackupDataset dataset && (5 <=? List.length parts)%nat &&
         bool_decide (parts !! 1%nat = Some "backups") && bool_decide (parts !! 2%nat = Some source) &&
         bool_decide (action ∈ ["state"; "receive"; "abort"; "prune"])
      then Some (action, dataset, policy) else None
  | _ => None
  end.
Definition decode_policy (field : string) : bcmd string :=
  if decide (field = "-") then ret ""
  else match DecodeString field with
       | None => fail "base64"
       | Some policy =>
           n ← time_now;
           of_policy (Retention.ParseSnapshotPolicy n policy);;
           ret policy
       end.
(** [origin] is the dataset the streams come from. *)
Definition serve_action (origin dataset policy action : string) (input : Stream) : bcmd answer :=
  if decide (action = "state") then
    token ← read (fun d => Ok (token_of d));
    snaps ← read (fun d => Ok (snaps_of Destination d));
    ret (State_ (mkState (listed snaps) token))
  else if decide (action = "abort") then write (BToken None);; ret Nothing
  else if decide (action = "prune") then
    if decide (policy = "") then ret Nothing
    else write (BPolicy policy);; pruneSnapshots Destination dataset policy;; ret Nothing
  else receive origin input;; ret Nothing.
Definition ServeBackupReceiver (origin source : string) (fields : list string) (input : Stream) : bcmd answer :=
  match receiver_dataset source fields with
  | None => fail "invalid backup command"
  | Some (action, dataset, policy) =>
      policy ← decode_policy policy;
      lockBackupDataset;;
      exists_ ← attempt (read (fun d => match dest d with Some _ => Ok tt | None => Err "zfs" end));
      (match exists_ with Ok _ => ret tt | Err _ => write (BCreate source) end);;
      owner ← read (fun d => Ok (match dest d with Some b => ds_Owner b | None => "" end));
      if negb (bool_decide (owner = source)) then fail "refusing unowned backup dataset"
      else serve_action origin dataset policy action input
  end.

(** ** The transport over ssh *)

Record ReplicationRequest := mkRequest {
  Generation : Z; Dataset : string; Snapshot : string; SourceNodeID : string; DestNodeID : string; DestDataset : string;
  DestHost : string; Policy : string; JobID : string; DestPort : Z }.

(** What the sender runs: [zfs send], with what it sends. *)
Inductive send_args :=
| SendFull (snapshot : string)
| SendSince (base target : string)
| SendResume (t : Token).

(** The remote command; the answer may be lost on its way back. *)
Definition ssh (r : ReplicationRequest) (action : string) (input : Stream) : bcmd answer :=
  let policy := EncodeToString (Policy r) in
  a ← ServeBackupReceiver (Dataset r) identity ["zfs-backup"; action; DestDataset r; if decide (policy = "") then "-" else policy] input;
  lost ← look (fun l => negb (connected l));
  if (lost : bool) then fail "ssh" else ret a.
Definition no_stream : Stream := mkStream [] None false.

Definition Source_ (r : ReplicationRequest) : bcmd (list BackupSnapshot) :=
  read (fun d => Ok (List.filter (fun s => IsAutomatedSnapshot (chars (Name s))) (listed (source d)))).
Definition State (r : ReplicationRequest) : bcmd BackupState :=
  a ← ssh r "state" no_stream; match a with State_ s => ret s | Nothing => fail "json" end.
Definition Abort (r : ReplicationRequest) : bcmd unit := ssh r "abort" no_stream;; ret tt.
Definition Prune (r : ReplicationRequest) : bcmd unit := ssh r "prune" no_stream;; ret tt.
Definition Protect (r : ReplicationRequest) (snapshot node kind : string) (add : bool) : bcmd unit :=
  UpdateSnapshotProtection (Dataset r) snapshot node kind add.

Definition ErrInvalidResumeToken : string := "invalid resume token".
Definition ValidateToken (r : ReplicationRequest) (t : Token) : bcmd unit :=
  valid ← look token_read;
  ok ← of_result valid;
  if negb ok then fail ErrInvalidResumeToken
  else
    match split "@" (tk_toname t) with
    | [dataset; name] =>
        if bool_decide (dataset = Dataset r) && IsAutomatedSnapshot (chars name) && negb (bool_decide (tk_toguid t = "")) then
          snaps ← Source_ r;
          if existsb (fun s => bool_decide (Name s = name) && bool_decide (GUID s = tk_toguid t)) snaps then ret tt else fail ErrInvalidResumeToken
        else fail ErrInvalidResumeToken
    | _ => fail ErrInvalidResumeToken
    end.

(** The snapshots of a stream, in the order of creation. *)
Definition after_guid (g : string) (l : list Snap) : list Snap :=
  (fix go l := match l with [] => [] | s :: l => if bool_decide (sn_GUID s = g) then l else go l end) l.
Fixpoint until_name (name : string) (l : list Snap) : option (list Snap) :=
  match l with
  | [] => None
  | s :: l => if decide (sn_Name s = name) then Some [s] else cons s <$> until_name name l
  end.
Definition find_guid (g : string) (l : list Snap) : option Snap := List.find (fun s => bool_decide (sn_GUID s = g)) l.
Definition stream_of (a : send_args) (l : list Snap) : option Stream :=
  match a with
  | SendFull name => s ← find_snap name l; Some (mkStream [s] None false)
  | SendSince base target =>
      b ← find_snap base l;
      snaps ← until_name target (after_guid (sn_GUID b) l);
      Some (mkStream snaps (Some (sn_GUID b)) false)
  | SendResume t => s ← find_guid (tk_toguid t) l; Some (mkStream [s] (tk_from t) true)
  end.
(** [sendBackupStream]: the bytes that were copied, and the error. *)
Definition Send (r : ReplicationRequest) (a : send_args) : bcmd (Z * option string) :=
  e ← look stream;
  o ← attempt (st ← read (fun d => match stream_of a (source d) with Some st => Ok st | None => Err "zfs" end);
               ssh r "receive" st);
  ret (match o with
       | Ok _ => (se_bytes e, if se_reported e then None else Some "replication stream")
       | Err m => (se_bytes e, Some m)
       end).

(** ** Replication *)

(** A loop that remembers the last index where [p] holds; -1 when none. *)
Fixpoint last_index {A} (p : A -> bool) (i base : Z) (l : list A) : Z :=
  match l with
  | [] => base
  | x :: l => last_index p (i + 1) (if p x then i else base) l
  end.
Definition common (received : list BackupSnapshot) (s : BackupSnapshot) : bool := existsb (fun d => bool_decide (GUID s = GUID d)) received.
Definition newestCommonSnapshot (source received : list BackupSnapshot) : Z := last_index (common received) 0 (-1) source.
Definition target_index (name : string) (source : list BackupSnapshot) : Z := last_index (fun s => bool_decide (Name s = name)) 0 (-1) source.

Record SendResult := mkResult { sr_JobID : string; BytesSent : Z; PruneError : string }.
(** How the body ends, errors of other calls apart: with a result, or with a
    stream that failed, what was protected and the source as it was then. *)
Inductive finish :=
| Finished (r : SendResult)
| SendFailed (protected : list string) (source : list BackupSnapshot) (err : string).

Definition nth_name (l : list BackupSnapshot) (i : Z) : string := from_option Name "" (l !! Z.to_nat i).

(** The token there was, before anything is sent. *)
Definition resume_first (r : ReplicationRequest) (source : list BackupSnapshot) (state : BackupState) : bcmd (result (list string * string) (Z * BackupState)) :=
  match ResumeToken state with
  | None => ret (Ok (0%Z, state))
  | Some t =>
      let protected := remove_dups (map Name source) in
      v ← attempt (ValidateToken r t);
      sent ← (match v with
              | Err m =>
                  c ← ctx_err;
                  if (c : bool) then fail "context canceled"
                  else if negb (bool_decide (m = ErrInvalidResumeToken)) then fail m
                  else Abort r;; ret (0%Z, None)
              | Ok _ => Send r (SendResume t)
              end);
      match sent.2 with
      | Some m => ret (Err (protected, m))
      | None =>
          state ← State r;
          if bool_decide (is_Some (ResumeToken state)) then fail "receive remains incomplete"
          else ret (Ok (sent.1, state))
      end
  end.

(** What is still to be sent to have [target]: [base] is what there is. *)
Definition send_missing (r : ReplicationRequest) (source : list BackupSnapshot) (base target : Z) : bcmd (Z * option string) :=
  if (base <? target)%Z then
    first ← (if (base <? 0)%Z then Send r (SendFull (nth_name source 0)) else ret (0%Z, None));
    match first.2 with
    | Some m => ret first
    | None =>
        let base := if (base <? 0)%Z then 0%Z else base in
        if (base <? target)%Z then
          n ← Send r (SendSince (nth_name source base) (nth_name source target));
          ret (first.1 + n.1, n.2)%Z
        else ret first
    end
  else ret (0%Z, None).

Definition release_older (r : ReplicationRequest) (snapshot : string) (s : BackupSnapshot) : bcmd unit :=
  (if decide (Name s = snapshot) then ret tt else Protect r (Name s) (DestNodeID r) "hold" false);;
  Protect r (Name s) (DestNodeID r) "transfer" false.

(** After the source was read. *)
Definition replicate_to (r : ReplicationRequest) (source : list BackupSnapshot) (target : Z) : bcmd finish :=
  first ← State r;
  resumed ← resume_first r source first;
  match resumed with
  | Err (protected, m) => ret (SendFailed protected source m)
  | Ok (bytes, state) =>
      let base := newestCommonSnapshot source (Snapshots state) in
      if bool_decide (Snapshots state <> []) && (base <? 0)%Z
      then fail "backup has no common source snapshot; preserving destination history"
      else
        let stale := (target <? base)%Z in
        let target := if stale then base else target in
        let snapshot := if stale then nth_name source target else Snapshot r in
        let resumed_ := match ResumeToken first with Some _ => map Name source | None => [] end in
        let source := take (S (Z.to_nat target)) source in
        let start := if (base <? 0)%Z then 0%Z else base in
        let moving := drop (Z.to_nat start) source in
        each (fun s => Protect r (Name s) (DestNodeID r) "transfer" true) moving;;
        sent ← send_missing r source base target;
        match sent.2 with
        | Some m => ret (SendFailed (remove_dups (resumed_ ++ map Name moving)) source m)
        | None =>
            state ← State r;
            if bool_decide (is_Some (ResumeToken state)) then fail "receive verification found pending resume state"
            else if negb (forallb (fun s => existsb (fun d => bool_decide (GUID d = GUID s)) (Snapshots state)) moving)
            then fail "destination snapshot GUID verification failed"
            else
              Protect r snapshot (DestNodeID r) "hold" true;;
              each (release_older r snapshot) source;;
              pruned ← (if stale then ret (Ok tt) else attempt (Prune r));
              ret (Finished (mkResult (JobID r) (bytes + sent.1) (match pruned with Ok _ => "" | Err m => m end)))
        end
  end.

(** The deferred function: a stream failed, and the destination may already
    have what is needed to go on. *)
Definition reconcile (r : ReplicationRequest) (protected : list string) (source : list BackupSnapshot) : bcmd unit :=
  current ← State r;
  if bool_decide (is_Some (ResumeToken current)) then ret tt
  else
    let base := newestCommonSnapshot source (Snapshots current) in
    if bool_decide (Snapshots current <> []) && (base <? 0)%Z then ret tt
    else
      (if (base <? 0)%Z then ret tt
       else
         Protect r (nth_name source base) (DestNodeID r) "hold" true;;
         each (fun s => Protect r (Name s) (DestNodeID r) "hold" false)
           (take (Z.to_nat base) source ++ drop (S (Z.to_nat base)) source));;
      order ← look (fun l => shuffle l protected);
      each (fun s => Protect r s (DestNodeID r) "transfer" false) order.

Definition ReplicateBackup (r : ReplicationRequest) : bcmd SendResult :=
  if negb (validBackupDataset (Dataset r)) || negb (backupID (DestNodeID r)) || negb (backupID (SourceNodeID r)) || negb (backupPart (Snapshot r))
  then fail "invalid replication identity or snapshot"
  else
    source ← Source_ r;
    let target := target_index (Snapshot r) source in
    if (target <? 0)%Z then fail "requested replication snapshot is missing"
    else
      f ← replicate_to r source target;
      match f with
      | Finished result => ret result
      | SendFailed protected source m =>
          c ← ctx_err;
          (if (c : bool) || bool_decide (protected = []) then ret tt else attempt (reconcile r protected source);; ret tt);;
          fail m
      end.

(** [Trim(s, "[]")] *)
Definition bracket (c : ascii) : bool := Ascii.eqb c "[" || Ascii.eqb c "]".
Fixpoint drop_brackets (l : list ascii) : list ascii :=
  match l with
  | c :: l' => if bracket c then drop_brackets l' else l
  | [] => []
  end.
Definition Trim (s : string) : string := str (rev (drop_brackets (rev (drop_brackets (chars s))))).
Definition set_destination (dataset host : string) (port : Z) (r : ReplicationRequest) : ReplicationRequest :=
  mkRequest (Generation r) (Dataset r) (Snapshot r) (SourceNodeID r) (DestNodeID r) dataset host (Policy r) (JobID r) port.

Definition Replicate (r : ReplicationRequest) : bcmd SendResult :=
  if negb (validBackupDataset (Dataset r)) || negb (backupID (SourceNodeID r)) || negb (backupID (DestNodeID r)) || (Generation r <? 0)%Z
  then fail "invalid source dataset"
  else
    lockBackupDataset;;
    c ← ctx_err;
    if (c : bool) then fail "context canceled"
    else
      fence ← removedBackupTargets;
      if match (fence : gmap string Z) !! DestNodeID r with Some cutoff => (Generation r <=? cutoff)%Z | None => false end
      then fail "backup target was removed; refusing stale replication generation"
      else
        let dataset := if decide (DestDataset r = "") then BackupDataset (SourceNodeID r) (Dataset r) else DestDataset r in
        if negb (validBackupDataset dataset) || negb (Contains dataset ("/backups/" +:+ SourceNodeID r +:+ "/")) then fail "invalid owned backup destination"
        else
          let port := if (DestPort r =? 0)%Z then 22%Z else DestPort r in
          if (port <? 1)%Z || (65535 <? port)%Z then fail "invalid SSH port"
          else
            let host := Trim (DestHost r) in
            if negb (ParseIP host) && negb (word_of ["."; "-"]%char host) then fail "invalid SSH host"
            else
              acceptBackupGenerations {[ DestNodeID r := Generation r ]};;
              ReplicateBackup (set_destination dataset host port r).
End Store.
