(* ===== verification/BackupLog.v ===== *)
(** What every moment of a backup's history has: the snapshots of both datasets
    are in the order of creation, and the newest automated one at the
    destination still stands protected at the source.  Rules of [tracked] for
    the programs of [Backup.v]. *)
From S2P Require Import Prelude TraceLogic Timestamp Release GoStrings Backup.
From S2P Require Retention Lifecycle.
From Stdlib Require Import Ascii.

Open Scope string_scope.
Open Scope list_scope.

(** ** Snapshots that were taken *)

Definition known (s : Snap) (l : list effect) : Prop := exists b, b ∈ born l /\ plain b = plain s.
Definition by_seq (s t : Snap) : Prop := (sn_Seq s < sn_Seq t)%Z.

Lemma plain_fields s t : plain s = plain t ->
  sn_Name s = sn_Name t /\ sn_GUID s = sn_GUID t /\ sn_Seq s = sn_Seq t /\ sn_Created s = sn_Created t.
Proof. by intros [= -> -> -> ->]. Qed.
Lemma newer_spec t s : newer t s = true -> sn_Name t <> sn_Name s /\ sn_GUID t <> sn_GUID s /\ by_seq t s /\
  (automated t = true -> automated s = true -> Retention.less (point_of "" t) (point_of "" s) = true).
Proof.
  unfold newer, by_seq. intros Hn. to_prop. split_and!; [done..|]. intros Ht Hs. rewrite Ht, Hs in *. cbn in *. done.
Qed.
Lemma born_cons e l s : s ∈ born (e :: l) <-> (e = BNew s \/ s ∈ born l).
Proof.
  destruct e; unfold born; cbn [omap list_omap]; try (split; [by right|by intros [?|?]]).
  rewrite elem_of_cons. split; (intros [E|?]; [left; congruence|by right]).
Qed.
Lemma born_grows s l l' : s ∈ born l -> s ∈ born (l' ++ l).
Proof. induction l' as [|e l' IH]; [done|]. intros Hs. cbn [app]. apply born_cons. by right; apply IH. Qed.
#[export] Instance growing_known s : Growing (known s).
Proof. intros l l' (b & Hb & E). exists b. split; [by apply born_grows|done]. Qed.

(** ** Lists in the order of creation *)

Abbreviation sorted := (StronglySorted by_seq).
Lemma sorted_filter (P : Snap -> Prop) `{!forall s, Decision (P s)} l : sorted l -> sorted (filter P l).
Proof.
  induction 1 as [|s l Hs IH Hf]; [constructor|]. rewrite filter_cons. case_decide; [|done]. constructor; [done|].
  rewrite Forall_forall in *. intros t [_ Ht]%list_elem_of_filter. by apply Hf.
Qed.
Lemma sorted_map (f : Snap -> Snap) l : (forall s, sn_Seq (f s) = sn_Seq s) -> sorted l -> sorted (map f l).
Proof.
  intros Hf. induction 1 as [|s l Hs IH Hl]; [constructor|]. cbn. constructor; [done|].
  rewrite Forall_forall in *. intros t (t' & -> & Ht)%list_elem_of_fmap. unfold by_seq. rewrite !Hf. by apply Hl.
Qed.
Lemma sorted_snoc l s : sorted l -> Forall (fun y => by_seq y s) l -> sorted (l ++ [s]).
Proof.
  induction 1 as [|t l Hs IH Hl]; intros Hf; [by repeat constructor|]. apply Forall_cons in Hf as [Ht Hf]. cbn. constructor; [by apply IH|].
  apply Forall_app. split; [done|]. by apply Forall_singleton.
Qed.
Lemma sorted_app l1 l2 : sorted (l1 ++ l2) <-> sorted l1 /\ sorted l2 /\ forall s t, s ∈ l1 -> t ∈ l2 -> by_seq s t.
Proof.
  induction l1 as [|s l1 IH]; cbn.
  - split; [intros Hl; split_and!; [constructor|done|by intros s t []%elem_of_nil]|by intros (_ & ? & _)].
  - split.
    + intros Hl. inversion Hl as [|? ? Hs Hf]; subst. apply IH in Hs as (H1 & H2 & H3). apply Forall_app in Hf as [Hf1 Hf2].
      split_and!; [by constructor|done|]. intros x y [->|Hx]%elem_of_cons Hy; [|by apply H3]. rewrite Forall_forall in Hf2. by apply Hf2.
    + intros (Hl & H2 & H3). inversion Hl as [|? ? Hs Hf]; subst. constructor.
      * apply IH. split_and!; [done..|]. intros x y Hx. apply H3. by constructor.
      * apply Forall_app. split; [done|]. rewrite Forall_forall. intros y Hy. apply H3; [by constructor|done].
Qed.
Lemma sorted_inj l s t : sorted l -> s ∈ l -> t ∈ l -> sn_Seq s = sn_Seq t -> s = t.
Proof.
  induction 1 as [|x l Hs IH Hf]; [by intros []%elem_of_nil|]. rewrite Forall_forall in Hf. unfold by_seq in Hf.
  intros [->|Hx]%elem_of_cons [->|Ht]%elem_of_cons E; [done| | |by apply IH].
  - specialize (Hf _ Ht). lia.
  - specialize (Hf _ Hx). lia.
Qed.
Lemma upto_prefix g l : upto g l `prefix_of` l.
Proof. induction l as [|s l IH]; cbn; [done|]. case_bool_decide; [by exists l|by apply prefix_cons]. Qed.
Lemma base_prefix after l : base_of after l `prefix_of` l.
Proof. destruct after; [apply upto_prefix|apply prefix_nil]. Qed.
Lemma sorted_prefix l1 l2 : l1 `prefix_of` l2 -> sorted l2 -> sorted l1.
Proof. by intros [k ->] (? & _)%sorted_app. Qed.
Lemma upto_split g l s : s ∈ l -> sn_GUID s = g -> (forall t, t ∈ l -> sn_GUID t = g -> t = s) -> exists l1 l2, l = l1 ++ s :: l2 /\ upto g l = l1 ++ [s].
Proof.
  induction l as [|x l IH]; intros Hs Hg Hu; [by apply elem_of_nil in Hs|]. cbn. case_bool_decide as E.
  - assert (x = s) as -> by (apply Hu; [by constructor|done]). by exists [], l.
  - apply elem_of_cons in Hs as [->|Hs]; [done|]. destruct (IH Hs Hg) as (l1 & l2 & -> & ->); [intros t Ht; apply Hu; by constructor|].
    by exists (x :: l1), l2.
Qed.

Lemma with_name_elem name f l s : s ∈ with_name name f l -> exists t, t ∈ l /\ ((sn_Name t = name /\ s = f t) \/ (sn_Name t <> name /\ s = t)).
Proof.
  unfold with_name. rewrite list_elem_of_fmap. intros (t & -> & Ht). exists t. split; [done|]. case_bool_decide; [by left|by right].
Qed.
Lemma elem_with_name name f l s : s ∈ l -> (if bool_decide (sn_Name s = name) then f s else s) ∈ with_name name f l.
Proof. intros Hs. unfold with_name. apply list_elem_of_fmap. by exists s. Qed.
Lemma find_snap_Some name l s : find_snap name l = Some s -> s ∈ l /\ sn_Name s = name.
Proof. intros [Hin Hn]%List.find_some. split; [by apply list_elem_of_In|by apply bool_decide_eq_true in Hn]. Qed.
Lemma plain_holds f s : plain (set_holds f s) = plain s.
Proof. done. Qed.
Lemma plain_meta kind nodes s : plain (set_meta kind nodes s) = plain s.
Proof. unfold set_meta. by case_decide. Qed.
Lemma plain_with_name name f l s : (forall t, plain (f t) = plain t) -> s ∈ with_name name f l -> exists t, t ∈ l /\ plain s = plain t.
Proof. intros Hf (t & Ht & [[_ ->]|[_ ->]])%with_name_elem; exists t; [|done]. split; [done|apply Hf]. Qed.

(** ** Order and protection *)

Section Order.
Context `{BackupEnv}.

Definition autos (l : list Snap) : list Snap := filter (fun s => automated s = true) l.
Definition received (d : Tables) : list Snap := snaps_of Destination d.
Definition newest (d : Tables) : option Snap := last (autos (received d)).
(** A snapshot of the source with the GUID [g] has the hold [tag]. *)
Definition tagged (tag g : string) (l : list effect) : Prop := exists s, s ∈ source (replay l) /\ sn_GUID s = g /\ tag ∈ sn_Holds s.

(** The newest point at the destination, if there is one, is held at the source. *)
Definition base_safe (l : list effect) : Prop :=
  match newest (replay l) with
  | None => received (replay l) = []
  | Some x => exists tag, tag ∈ tags_of node /\ tagged tag (sn_GUID x) l
  end.
(** What a token would bring is held, fits what it starts from, and rolls no point back. *)
Definition token_safe (l : list effect) : Prop :=
  forall t, token_of (replay l) = Some t ->
    exists s, known s l /\ sn_GUID s = tk_toguid t /\ starts (tk_from t) (received (replay l)) = true /\
      Forall (fun y => by_seq y s) (base_of (tk_from t) (received (replay l))) /\
      autos (base_of (tk_from t) (received (replay l))) = autos (received (replay l)) /\
      (automated s = true -> (exists s', s' ∈ source (replay l) /\ sn_GUID s' = sn_GUID s) -> tagged (tag_of "transfer" node) (sn_GUID s) l).
(** The newest point at the destination only moves forward. *)
Definition forward (d d' : Tables) : Prop := forall x, newest d = Some x -> exists x', newest d' = Some x' /\ (sn_Seq x <= sn_Seq x')%Z.
Definition safe (l : list effect) : Prop := base_safe l /\ token_safe l.

(** What an effect needs for the order of both datasets. *)
Definition sane (e : effect) (l : list effect) : Prop :=
  match e with
  | BNew s => fresh s l = true
  | BReceive after s => known s l /\ Forall (fun y => by_seq y s) (base_of after (received (replay l)))
  | _ => True
  end.
Definition allowed (e : effect) (l : list effect) : Prop := possible e (replay l) = true /\ sane e l /\ forward (replay l) (replay (e :: l)) /\ safe (e :: l).

(** ** What an ordered log says *)

Lemma forward_same d d' : received d' = received d -> forward d d'.
Proof. intros E x Hx. exists x. unfold newest in *. rewrite E. split; [done|lia]. Qed.
Lemma ordered_forward l l' : Ordered allowed (l' ++ l) -> forward (replay l) (replay (l' ++ l)).
Proof.
  induction l' as [|e l' IH]; [intros _; by apply forward_same|]. cbn [app]. inversion 1 as [|? ? Ho (_ & _ & Hf & _)]; subst.
  intros x Hx. destruct (IH Ho x Hx) as (y & Hy & Hle). destruct (Hf y Hy) as (z & Hz & Hle'). exists z. split; [done|lia].
Qed.
Lemma ordered_safe l : Ordered allowed l -> safe l.
Proof.
  intros [|e l' Ho (_ & _ & _ & Hs)]; [|done]. split; [done|]. by intros t [=].
Qed.

Lemma born_distinct l s t : Ordered allowed l -> s ∈ born l -> t ∈ born l -> s = t \/ newer s t = true \/ newer t s = true.
Proof.
  intros Ho. revert s t. induction Ho as [|e l Ho IH (_ & Hs & _)]; intros s t; [by intros []%elem_of_nil|].
  intros [->|Hs']%born_cons [Ht|Ht]%born_cons.
  - left. congruence.
  - right; right. cbn in Hs. unfold fresh in Hs. rewrite forallb_forall in Hs. apply Hs. by apply list_elem_of_In.
  - subst e. right; left. cbn in Hs. unfold fresh in Hs. rewrite forallb_forall in Hs. apply Hs. by apply list_elem_of_In.
  - by apply IH.
Qed.
(** A name, a GUID or a place tells the snapshot. *)
Lemma known_unique l s t : Ordered allowed l -> known s l -> known t l ->
  sn_Name s = sn_Name t \/ sn_GUID s = sn_GUID t \/ sn_Seq s = sn_Seq t -> plain s = plain t.
Proof.
  intros Ho (b & Hb & Eb) (c & Hc & Ec) Heq. apply plain_fields in Eb as Fb. apply plain_fields in Ec as Fc.
  destruct Fb as (Fb1 & Fb2 & Fb3 & _), Fc as (Fc1 & Fc2 & Fc3 & _).
  destruct (born_distinct l b c Ho Hb Hc) as [->|[Hn|Hn]]; [congruence| |]; apply newer_spec in Hn as (? & ? & Hlt & _);
    unfold by_seq in Hlt; exfalso; destruct Heq as [E|[E|E]]; [congruence|congruence|lia|congruence|congruence|lia].
Qed.
Lemma known_less l s t : Ordered allowed l -> known s l -> known t l -> by_seq s t -> automated s = true -> automated t = true ->
  Retention.less (point_of "" s) (point_of "" t) = true.
Proof.
  intros Ho (b & Hb & Eb) (c & Hc & Ec) Hlt Hs Ht. apply plain_fields in Eb as (Fb1 & Fb2 & Fb3 & Fb4). apply plain_fields in Ec as (Fc1 & Fc2 & Fc3 & Fc4).
  unfold automated in *. rewrite <- Fb1 in Hs. rewrite <- Fc1 in Ht. unfold point_of. rewrite <- Fb1, <- Fc1, <- Fb4, <- Fc4.
  destruct (born_distinct l b c Ho Hb Hc) as [->|[Hn|Hn]].
  - unfold by_seq in Hlt. lia.
  - apply newer_spec in Hn as (_ & _ & _ & Hl). by apply Hl.
  - apply newer_spec in Hn as (_ & _ & Hl & _). unfold by_seq in *. lia.
Qed.

(** ** Both datasets *)

(** The effects on the source: what a snapshot of it was before. *)
Lemma source_before e d s : s ∈ source (exec e d) -> e = BNew s \/ exists t, t ∈ source d /\ plain s = plain t.
Proof.
  destruct e; cbn -[snaps_of]; try (intros Hs; right; by exists s).
  - intros [Hs| ->%list_elem_of_singleton]%elem_of_app; [right; by exists s|by left].
  - destruct sd; cbn; intros Hs; right; exists s; [by apply list_elem_of_filter in Hs as [_ ?]|done].
  - intros Hs. right. by apply plain_with_name in Hs.
  - intros Hs. right. by apply plain_with_name in Hs.
  - intros Hs. right. apply plain_with_name in Hs; [done|]. intros t. apply plain_meta.
Qed.
Lemma received_before e d s : s ∈ received (exec e d) -> (exists after t, e = BReceive after t /\ s = plain t) \/ s ∈ received d.
Proof.
  destruct e; cbn; try (by right).
  - destruct sd; cbn; [by right|]. destruct (dest d) as [b|]; cbn; [|by right]. intros [_ Hs]%list_elem_of_filter. by right.
  - intros []%elem_of_nil.
  - destruct (dest d) as [b|]; cbn; [|by right]. intros [Hs| ->%list_elem_of_singleton]%elem_of_app; [right|left; by eexists _, _].
    destruct (base_prefix after (ds_Snaps b)) as [k ->]. apply elem_of_app. by left.
  - destruct (dest d); cbn; by right.
  - destruct (dest d); cbn; by right.
Qed.

Lemma ordered_known l s : Ordered allowed l -> s ∈ source (replay l) \/ s ∈ received (replay l) -> known s l.
Proof.
  intros Ho. revert s. induction Ho as [|e l Ho IH (_ & Hs & _)]; intros s; [by intros [[]%elem_of_nil|[]%elem_of_nil]|].
  assert (Hold : forall t, known t l -> plain s = plain t -> known s (e :: l)).
  { intros t (b & Hb & E) Et. exists b. split; [by apply (born_grows _ l [e])|congruence]. }
  intros [Hin|Hin].
  - apply source_before in Hin as [->|(t & Ht & E)]; [exists s; split; [apply born_cons; by left|done]|]. eapply Hold; [|done]. apply IH. by left.
  - apply received_before in Hin as [(after & t & -> & ->)|Hin]; [apply (Hold t); [apply Hs|done]|]. apply (Hold s); [apply IH; by right|done].
Qed.
Lemma ordered_sorted l : Ordered allowed l -> sorted (source (replay l)) /\ sorted (received (replay l)).
Proof.
  intros Ho. induction Ho as [|e l Ho [IHs IHr] (_ & Hs & _)]; [by split; constructor|].
  cbn [replay foldr]. fold (replay l). destruct e; cbn; try done.
  - split; [|done]. apply sorted_snoc; [done|]. apply Forall_forall. intros t Ht.
    destruct (ordered_known l t Ho (or_introl Ht)) as (b & Hb & E). apply plain_fields in E as (_ & _ & E & _).
    cbn in Hs. unfold fresh in Hs. rewrite forallb_forall in Hs. apply list_elem_of_In, Hs, newer_spec in Hb as (_ & _ & Hlt & _). unfold by_seq in *. by rewrite <- E.
  - destruct sd; cbn; [split; [by apply sorted_filter|done]|]. split; [done|]. unfold received in *. cbn in *. destruct (dest (replay l)); cbn in *; [by apply sorted_filter|done].
  - split; [|done]. unfold with_name. apply sorted_map; [|done]. intros t. by case_bool_decide.
  - split; [|done]. unfold with_name. apply sorted_map; [|done]. intros t. by case_bool_decide.
  - split; [|done]. unfold with_name. apply sorted_map; [|done]. intros t. unfold set_meta. case_bool_decide; [by case_decide|done].
  - split; [done|constructor].
  - split; [done|]. destruct Hs as [_ Hs]. unfold received in *. cbn in *. destruct (dest (replay l)) as [b|]; cbn in *; [|done].
    apply sorted_snoc; [|done]. by eapply sorted_prefix; [apply base_prefix|].
  - split; [done|]. unfold received in *. cbn in *. by destruct (dest (replay l)).
  - split; [done|]. unfold received in *. cbn in *. by destruct (dest (replay l)).
Qed.

(** On one dataset a name or a GUID tells the snapshot. *)
Lemma source_unique l s t : Ordered allowed l -> s ∈ source (replay l) -> t ∈ source (replay l) ->
  sn_Name s = sn_Name t \/ sn_GUID s = sn_GUID t -> s = t.
Proof.
  intros Ho Hs Ht Heq. apply (sorted_inj (source (replay l))); [by apply ordered_sorted|done..|].
  assert (E : plain s = plain t) by (apply (known_unique l); [done|apply ordered_known; auto..|tauto]).
  by apply plain_fields in E as (_ & _ & ? & _).
Qed.
Lemma received_unique l s t : Ordered allowed l -> s ∈ received (replay l) -> t ∈ received (replay l) ->
  sn_Name s = sn_Name t \/ sn_GUID s = sn_GUID t -> s = t.
Proof.
  intros Ho Hs Ht Heq. apply (sorted_inj (received (replay l))); [by apply ordered_sorted|done..|].
  assert (E : plain s = plain t) by (apply (known_unique l); [done|apply ordered_known; auto..|tauto]).
  by apply plain_fields in E as (_ & _ & ? & _).
Qed.
Lemma find_source l s : Ordered allowed l -> s ∈ source (replay l) -> find_snap (sn_Name s) (source (replay l)) = Some s.
Proof.
  intros Ho Hs. destruct (find_snap (sn_Name s) (source (replay l))) as [t|] eqn:E.
  - apply find_snap_Some in E as [Ht En]. f_equal. by apply (source_unique l); [..|left].
  - exfalso. pose proof (List.find_none _ _ E s (proj1 (list_elem_of_In _ _) Hs)) as Hn. cbn in Hn. by apply bool_decide_eq_false in Hn.
Qed.

(** ** What others do, and what protects *)

(** Effects that release nothing of this node's and bring nothing to the destination. *)
Definition tame (e : effect) (l : list effect) : Prop :=
  match e with
  | BNew s => fresh s l = true
  | BDestroy Source _ | BHold _ _ | BMeta _ _ _ | BRemoved _ | BGenerations _ | BCreate _ => True
  | BRelease tag _ => tag ∉ tags_of node
  | _ => False
  end.
Lemma honest_tame e l : honest node e l = true -> tame e l.
Proof.
  destruct e; cbn; try done; [by destruct sd|]. intros Hh%negb_true_iff. by apply bool_decide_eq_false in Hh.
Qed.
Lemma tame_dest e d l : possible e d = true -> tame e l -> received (exec e d) = received d /\ token_of (exec e d) = token_of d.
Proof.
  destruct e; cbn; try done; [by destruct sd|]. intros Hn%negb_true_iff%bool_decide_eq_false _. unfold received, token_of. cbn.
  destruct (dest d); [|done]. by destruct Hn.
Qed.

Lemma tagged_kept e l tag g : Ordered allowed l -> possible e (replay l) = true -> tagged tag g l ->
  (forall name s, e = BRelease tag name -> s ∈ source (replay l) -> sn_Name s = name -> sn_GUID s <> g) -> tagged tag g (e :: l).
Proof.
  intros Ho Hp (s & Hs & Hg & Ht) Hr. unfold tagged. cbn [replay foldr]. fold (replay l).
  assert (Hsame : exists s, s ∈ source (replay l) /\ sn_GUID s = g /\ tag ∈ sn_Holds s) by (by exists s).
  assert (Hwith : forall name f, sn_GUID (f s) = sn_GUID s -> (sn_Name s = name -> tag ∈ sn_Holds (f s)) ->
    exists s', s' ∈ with_name name f (source (replay l)) /\ sn_GUID s' = g /\ tag ∈ sn_Holds s').
  { intros name f Hf Hh. eexists. split; [by apply elem_with_name, Hs|]. case_bool_decide; [|done]. split; [by rewrite Hf|by apply Hh]. }
  destruct e; cbn; try done.
  - exists s. split_and!; [apply elem_of_app; by left|done..].
  - destruct sd; cbn; [|done]. exists s. split_and!; [|done..]. apply list_elem_of_filter. split; [|done]. intros E.
    cbn [possible] in Hp. unfold has_snap in Hp. rewrite <- E in Hp. cbn [snaps_of] in Hp. rewrite (find_source l s Ho Hs) in Hp.
    apply andb_true_iff in Hp as [Hh%bool_decide_eq_true _]. rewrite Hh in Ht. by apply elem_of_nil in Ht.
  - apply Hwith; [done|]. intros _. cbn. apply elem_of_app. by left.
  - apply Hwith; [done|]. intros En. cbn. apply list_elem_of_filter. split; [|done]. intros E. subst tag0. by apply (Hr name s).
  - apply Hwith; unfold set_meta; by case_decide.
Qed.
Lemma tame_tagged e l tag g : Ordered allowed l -> possible e (replay l) = true -> tame e l -> tag ∈ tags_of node -> tagged tag g l -> tagged tag g (e :: l).
Proof. intros Ho Hp Ht Hin Hg. apply tagged_kept; [done..|]. intros name s -> _ _. by destruct Ht. Qed.

Lemma token_safe_kept e l : sane e l -> received (replay (e :: l)) = received (replay l) -> token_of (replay (e :: l)) = token_of (replay l) ->
  (forall g, tagged (tag_of "transfer" node) g l -> tagged (tag_of "transfer" node) g (e :: l)) -> token_safe l -> token_safe (e :: l).
Proof.
  intros Hs Hr Hd Hg Ht t Htk. rewrite Hd in Htk. destruct (Ht t Htk) as (s & Hk & E & Hst & Hpos & Hap & Hau).
  exists s. split; [by apply (grows l [e])|]. split; [done|]. rewrite Hr. do 3 (split; [done|]).
  intros Ha (s' & Hs' & Es). apply Hg, Hau; [done|]. cbn [replay foldr] in Hs'. fold (replay l) in Hs'.
  apply source_before in Hs' as [->|(s2 & Hs2 & E2)].
  - exfalso. cbn in Hs. unfold fresh in Hs. rewrite forallb_forall in Hs. destruct Hk as (b2 & Hb2 & Eb). apply plain_fields in Eb as (_ & Eb & _ & _).
    apply list_elem_of_In, Hs, newer_spec in Hb2 as (_ & Hn & _). congruence.
  - exists s2. split; [done|]. apply plain_fields in E2 as (_ & E2 & _ & _). congruence.
Qed.
Lemma base_safe_kept e l : received (replay (e :: l)) = received (replay l) ->
  (forall tag x, tag ∈ tags_of node -> newest (replay l) = Some x -> tagged tag (sn_GUID x) l -> exists tag', tag' ∈ tags_of node /\ tagged tag' (sn_GUID x) (e :: l)) ->
  base_safe l -> base_safe (e :: l).
Proof.
  intros Hd Hg. unfold base_safe, newest in *. rewrite Hd. destruct (last _) as [x|] eqn:E; [|done].
  intros (tag & Hin & Ht). by apply (Hg tag x).
Qed.
Lemma tame_allowed e l : Ordered allowed l -> possible e (replay l) = true -> tame e l -> allowed e l.
Proof.
  intros Ho Hp Ht. assert (Hs : sane e l) by (by destruct e). destruct (ordered_safe l Ho) as [Hb Htk].
  destruct (tame_dest e (replay l) l Hp Ht) as [Hr Hd]. do 2 (split; [done|]). split; [by apply forward_same|]. split.
  - apply base_safe_kept; [done| |done]. intros tag x Hin _ Hx. exists tag. split; [done|]. by apply tame_tagged.
  - apply token_safe_kept; [done..| |done]. intros g. apply tame_tagged; [done..|]. unfold tags_of. apply list_elem_of_further, list_elem_of_here.
Qed.

(** What tame effects keep. *)
Class Stable (P : list effect -> Prop) : Prop := stable : forall e l, Ordered allowed l -> possible e (replay l) = true -> tame e l -> P l -> P (e :: l).
#[export] Instance stable_and P Q : Stable P -> Stable Q -> Stable (fun l => P l /\ Q l).
Proof. intros HP HQ e l Ho Hp Ht [? ?]. split; [by apply HP|by apply HQ]. Qed.
#[export] Instance stable_growing P : Growing P -> Stable P.
Proof. intros HP e l _ _ _ Hl. by apply (grows l [e]). Qed.
#[export] Instance stable_received (Q : list Snap -> Prop) : Stable (fun l => Q (received (replay l))).
Proof. intros e l _ Hp Ht Hl. cbn [replay foldr]. fold (replay l). by destruct (tame_dest e (replay l) l Hp Ht) as [-> _]. Qed.
#[export] Instance stable_token (Q : option Token -> Prop) : Stable (fun l => Q (token_of (replay l))).
Proof. intros e l _ Hp Ht Hl. cbn [replay foldr]. fold (replay l). by destruct (tame_dest e (replay l) l Hp Ht) as [_ ->]. Qed.
#[export] Instance stable_newest (Q : option Snap -> Prop) : Stable (fun l => Q (newest (replay l))).
Proof. apply (stable_received (fun r => Q (last (autos r)))). Qed.
#[export] Instance stable_tagged kind g : kind = "hold" \/ kind = "transfer" -> Stable (tagged (tag_of kind node) g).
Proof.
  intros Hk e l Ho Hp Ht. apply tame_tagged; [done..|]. unfold tags_of. destruct Hk as [->| ->]; [apply list_elem_of_here|apply list_elem_of_further, list_elem_of_here].
Qed.

(** ** The primitives *)

Abbreviation tracked := (TraceLogic.tracked (E:=string) (fun _ : list effect => True) (fun l => l) allowed []).

Lemma meddling_kept l (P : list effect -> Prop) `{!Stable P} : Ordered allowed l -> P l ->
  exists l', interfere l = l' ++ l /\ Ordered allowed (l' ++ l) /\ P (l' ++ l).
Proof.
  unfold interfere. generalize (others l). intros es. revert l. induction es as [|e es IH]; intros l Ho HP; [by exists []|]. cbn.
  unfold act at 2. destruct (honest node e l && possible e (replay l)) eqn:E; [|by apply IH].
  apply andb_true_iff in E as [Hh%honest_tame Hp]. destruct (IH (e :: l)) as (l' & E' & Ho' & HP'); [by constructor; [|apply tame_allowed]|by apply stable|].
  exists (l' ++ [e]). rewrite <- app_assoc. by split_and!.
Qed.

Lemma tracked_looking {A} (f : list effect -> A) (P : list effect -> Prop) (Q : A -> list effect -> Prop) R : (forall l, Ordered allowed l -> P l -> Q (f l) l) -> tracked P (look f) Q R.
Proof. intros HQ w l _ Hl Ho HP. rewrite app_nil_r in Hl. subst w. split; [done|]. exists []. cbn. rewrite app_nil_r. split_and!; [done..|]. by apply HQ. Qed.

Lemma tracked_reading {A} (f : Tables -> result string A) (P : list effect -> Prop) (Q : A -> list effect -> Prop) (R : list effect -> Prop) `{!Stable P} :
  (forall l a, Ordered allowed l -> P l -> f (replay l) = Ok a -> Q a l) -> (forall l, P l -> R l) -> tracked P (read f) Q R.
Proof.
  intros HQ HR w l _ Hl Ho HP. rewrite app_nil_r in Hl. subst w. destruct (meddling_kept l P Ho HP) as (l' & E & Ho' & HP').
  unfold post, read. rewrite E. cbn. split; [done|]. exists l'. rewrite app_nil_r. split_and!; [done..|].
  destruct (answers _); [|by apply HR]. destruct (f _) eqn:Ef; [by apply HQ|by apply HR].
Qed.
Lemma tracked_read_snap {A} sd name (f : Snap -> A) (P : list effect -> Prop) (Q : A -> list effect -> Prop) (R : list effect -> Prop) `{!Stable P} :
  (forall l s, Ordered allowed l -> P l -> s ∈ snaps_of sd (replay l) -> sn_Name s = name -> Q (f s) l) -> (forall l, P l -> R l) -> tracked P (read_snap sd name f) Q R.
Proof.
  intros HQ HR. apply tracked_reading; [done| |done]. intros l a Ho HP. destruct (find_snap name _) as [s|] eqn:Ef; [|done]. intros [= <-].
  apply find_snap_Some in Ef as [? ?]. by apply HQ.
Qed.
Lemma tracked_writing e (P Q R : list effect -> Prop) `{!Stable P} :
  (forall l, Ordered allowed l -> possible e (replay l) = true -> P l -> allowed e l) ->
  (forall l, Ordered allowed l -> possible e (replay l) = true -> P l -> Q (e :: l)) ->
  (forall l, P l -> R l) -> (forall l, Ordered allowed l -> possible e (replay l) = true -> P l -> R (e :: l)) -> tracked P (write e) (fun _ => Q) R.
Proof.
  intros Ha HQ HR HR' w l _ Hl Ho HP. rewrite app_nil_r in Hl. subst w. destruct (meddling_kept l P Ho HP) as (l' & E & Ho' & HP').
  unfold post, write. rewrite E. destruct (possible e _) eqn:Hp; cbn; [|split; [done|]; exists l'; rewrite app_nil_r; split_and!; [done..|by apply HR]].
  destruct (tool _); cbn; (split; [done|]).
  - exists (e :: l'). cbn. rewrite app_nil_r. split_and!; [done|by constructor; [|apply Ha]|by apply HQ].
  - exists l'. rewrite app_nil_r. split_and!; [done..|by apply HR].
  - exists (e :: l'). cbn. rewrite app_nil_r. split_and!; [done|by constructor; [|apply Ha]|by apply HR'].
Qed.
Lemma tracked_tame e (P : list effect -> Prop) `{!Stable P} : (forall l, P l -> tame e l) -> tracked P (write e) (fun _ => P) P.
Proof.
  intros Ht. assert (Hk : forall l, Ordered allowed l -> possible e (replay l) = true -> P l -> P (e :: l)) by (intros l Ho Hp HP; by apply stable; [..|apply Ht|]).
  apply tracked_writing; try done. intros l Ho Hp HP. apply tame_allowed; [done..|by apply Ht].
Qed.
Lemma tracked_every {A} (f : A -> bcmd unit) l (P : list effect -> Prop) :
  (forall x, x ∈ l -> tracked P (f x) (fun _ => P) P) -> tracked P (each f l) (fun _ => P) P.
Proof.
  induction l as [|x l IH]; intros Hf; cbn [each]; [by apply tracked_ret|].
  eapply tracked_bind; [apply Hf; by constructor|]. skip. apply IH. intros y Hy. apply Hf. by constructor.
Qed.
End Order.
