(* ===== verification/BackupSafety.v ===== *)
(** A backup never loses its base: whatever fails, and whatever others do to the
    source, the newest point at the destination stands held at the source, so
    that the next replication can go on from it. *)
From S2P Require Import Prelude TraceLogic Timestamp Release GoStrings Backup BackupLog.
From S2P Require Retention Lifecycle.
From Stdlib Require Import Ascii.

Open Scope string_scope.
Open Scope list_scope.

(** The texts of instants in listings are read back. *)
Class Calendar `{BackupEnv} : Prop := { Parse_RFC3339 : forall t, Parse (RFC3339 t) = Some t }.

Section Safety.
Context `{BackupEnv} `{!Calendar}.
Abbreviation tracked := (TraceLogic.tracked (E:=string) (fun _ : list effect => True) (fun l => l) allowed []).
Abbreviation keeps P m := (tracked P m (fun _ => P) P).

Lemma string_app_inj a b c : a +:+ b = a +:+ c -> b = c.
Proof. induction a as [|x a IH]; [done|]. intros [= E]. by apply IH. Qed.
Lemma tag_inj kind n n' : tag_of kind n = tag_of kind n' -> n = n'.
Proof. unfold tag_of. intros E. by do 3 apply string_app_inj in E. Qed.
Lemma tag_kinds n n' : tag_of "hold" n <> tag_of "transfer" n'.
Proof. by intros [=]. Qed.
Lemma other_tag kind n : kind = "hold" \/ kind = "transfer" -> n <> node -> tag_of kind n ∉ tags_of node.
Proof.
  intros Hk Hn. unfold tags_of. rewrite !not_elem_of_cons. split_and!; [| |apply not_elem_of_nil]; intros E.
  - destruct Hk as [->| ->]; [by apply tag_inj in E|by symmetry in E; apply tag_kinds in E].
  - destruct Hk as [->| ->]; [by apply tag_kinds in E|by apply tag_inj in E].
Qed.
Lemma own_tag kind : kind = "hold" \/ kind = "transfer" -> tag_of kind node ∈ tags_of node.
Proof. unfold tags_of. intros [->| ->]; [apply list_elem_of_here|apply list_elem_of_further, list_elem_of_here]. Qed.

(** ** Programs that only read, or change what is not protected *)

Lemma keeps_reading {A} (f : Tables -> result string A) (P : list effect -> Prop) `{!Stable P} : keeps P (read f).
Proof. by apply tracked_reading. Qed.
Lemma keeps_read_snap {A} sd name (f : Snap -> A) (P : list effect -> Prop) `{!Stable P} : keeps P (read_snap sd name f).
Proof. by apply tracked_read_snap. Qed.
Lemma keeps_look {A} (f : list effect -> A) (P : list effect -> Prop) : keeps P (look f).
Proof. by apply tracked_looking. Qed.
Lemma keeps_policy {A} (r : result Retention.Error A) (P : list effect -> Prop) : keeps P (of_policy r).
Proof. destruct r; [by apply tracked_ret|by apply tracked_fail]. Qed.
Lemma keeps_lock (P : list effect -> Prop) : keeps P lockBackupDataset.
Proof. apply tracked_silent. intros l _. unfold lockBackupDataset. cbn. destruct (locks l); by split_and!. Qed.
Lemma keeps_describe sd l (P : list effect -> Prop) `{!Stable P} : keeps P (describe sd l).
Proof.
  induction l as [|s l IH]; cbn [describe]; [by apply tracked_ret|].
  eapply (tracked_bind _ _ _ _ _ _ _ (fun _ => P)); [|intros i; eapply (tracked_bind _ _ _ _ _ _ _ (fun _ => P)); [exact IH|intros r; by apply tracked_ret]].
  destruct (automated s); [|by apply tracked_ret]. do 3 (eapply (tracked_bind _ _ _ _ _ _ _ (fun _ => P)); [by apply keeps_read_snap|intros ?]). by apply tracked_ret.
Qed.
Lemma keeps_list sd (P : list effect -> Prop) `{!Stable P} : keeps P (SnapshotList sd).
Proof. unfold SnapshotList. eapply tracked_bind; [by apply keeps_reading|]. intros l. by apply keeps_describe. Qed.

(** What a prune keeps: [P] must bear the snapshots it destroys. *)
Lemma keeps_prune_one sd dataset keep i (P : list effect -> Prop) `{!Stable P} :
  (IsAutomatedSnapshot (chars (si_Name i)) = true -> (dataset +:+ "@" +:+ si_Name i) ∉ keep -> keeps P (write (BDestroy sd (si_Name i)))) ->
  keeps P (prune_one sd dataset keep i).
Proof.
  intros Hd. unfold prune_one. destruct (IsAutomatedSnapshot _); cbn [negb]; [|by apply tracked_ret].
  destruct (reconciled i); cbn [negb]; [|by apply tracked_fail]. case_decide; [by apply tracked_ret|].
  do 3 (eapply (tracked_bind _ _ _ _ _ _ _ (fun _ => P)); [by apply keeps_read_snap|intros ?]).
  destruct (_ || _); [by apply tracked_ret|]. eapply (tracked_bind _ _ _ _ _ _ _ (fun _ => P)); [by apply keeps_read_snap|intros [|]; [by apply tracked_ret|by apply Hd]].
Qed.
Lemma keeps_prune_source dataset policy (P : list effect -> Prop) `{!Stable P} : keeps P (pruneSnapshots Source dataset policy).
Proof.
  unfold pruneSnapshots, time_now. eapply (tracked_bind _ _ _ _ _ _ _ (fun _ => P)); [apply keeps_look|intros n].
  eapply (tracked_bind _ _ _ _ _ _ _ (fun _ => P)); [apply keeps_policy|intros tiers]. eapply (tracked_bind _ _ _ _ _ _ _ (fun _ => P)); [by apply keeps_list|intros snaps].
  eapply (tracked_bind _ _ _ _ _ _ _ (fun _ => P)); [apply keeps_look|intros n']. eapply (tracked_bind _ _ _ _ _ _ _ (fun _ => P)); [apply keeps_policy|intros keep].
  apply tracked_every. intros i _. apply keeps_prune_one; [done|]. intros _ _. by apply tracked_tame.
Qed.

(** *** Pruning the destination *)

Lemma autos_without name l : autos (without name l) = without name (autos l).
Proof. unfold autos, without. rewrite !list_filter_filter. apply list_filter_iff. intros s. tauto. Qed.
Lemma last_without name l x : last l = Some x -> sn_Name x <> name -> last (without name l) = Some x.
Proof.
  intros Hl Hn. apply last_Some in Hl as [l' ->]. unfold without. rewrite filter_app, filter_cons_True, filter_nil by done. by rewrite last_snoc.
Qed.

(** The newest point is [x], and nothing is half received. *)
Definition at_point (x : Snap) (l : list effect) : Prop := newest (replay l) = Some x /\ token_of (replay l) = None.
#[export] Instance stable_at_point x : Stable (at_point x).
Proof. apply stable_and; [apply (stable_newest (fun o => o = Some x))|apply (stable_token (fun o => o = None))]. Qed.

Lemma destroy_other x name l : Ordered allowed l -> possible (BDestroy Destination name) (replay l) = true -> at_point x l -> sn_Name x <> name ->
  allowed (BDestroy Destination name) l /\ at_point x (BDestroy Destination name :: l).
Proof.
  intros Ho Hp [Hx Ht] Hn.
  assert (Hr : received (replay (BDestroy Destination name :: l)) = without name (received (replay l))).
  { unfold received. cbn. fold (replay l). by destruct (dest (replay l)). }
  assert (Hnew : newest (replay (BDestroy Destination name :: l)) = Some x).
  { unfold newest. rewrite Hr, autos_without. by apply last_without. }
  assert (Htk : token_of (replay (BDestroy Destination name :: l)) = None).
  { unfold token_of in *. cbn. fold (replay l). by destruct (dest (replay l)). }
  split; [|done]. split; [done|]. split; [done|]. split; [intros y Hy; exists x; split; [done|]; assert (y = x) as -> by congruence; lia|]. split.
  - unfold base_safe. rewrite Hnew. destruct (ordered_safe l Ho) as [Hb _]. unfold base_safe in Hb. rewrite Hx in Hb. exact Hb.
  - intros t. by rewrite Htk.
Qed.

(** What the names of a listing are. *)
Definition tells (R : list Snap) (snaps : list SnapshotInfo) : Prop :=
  map (fun i => (si_Name i, si_Created i)) snaps = map (fun s => (sn_Name s, sn_Created s)) R.
Lemma tracked_describe sd l (P : list effect -> Prop) `{!Stable P} : tracked P (describe sd l) (fun r h => P h /\ tells l r) P.
Proof.
  induction l as [|s l IH]; cbn [describe]; [by apply tracked_ret|].
  eapply (tracked_bind _ _ _ _ _ _ _ (fun i h => P h /\ si_Name i = sn_Name s /\ si_Created i = sn_Created s)).
  - destruct (automated s); [|by apply tracked_ret]. do 3 (eapply (tracked_bind _ _ _ _ _ _ _ (fun _ => P)); [by apply keeps_read_snap|intros ?]). by apply tracked_ret.
  - intros i. apply (tracked_pre _ _ _ _ _ (fun h => (si_Name i = sn_Name s /\ si_Created i = sn_Created s) /\ P h)); [by intros h (? & ? & ?)|].
    apply tracked_pure. intros [En Ec]. eapply tracked_bind; [exact IH|]. intros r. apply tracked_ret. intros h [? Ht]. split; [done|].
    unfold tells in *. cbn. by rewrite En, Ec, Ht.
Qed.

(** The newest point of a listing is among the kept. *)
Lemma newest_kept dataset l x snaps tiers n keep : Ordered allowed l -> newest (replay l) = Some x -> tells (received (replay l)) snaps ->
  Retention.RetainedSnapshots Parse (map (retention_info dataset) snaps) tiers n = Ok keep -> (dataset +:+ "@" +:+ sn_Name x) ∈ keep.
Proof.
  intros Ho Hx Ht Hk. pose proof (last_elem_of _ _ Hx) as [Hax Hin]%list_elem_of_filter.
  assert (Hmem : forall i, i ∈ snaps -> exists y, y ∈ received (replay l) /\ si_Name i = sn_Name y /\ si_Created i = sn_Created y).
  { intros i Hi. assert (Hp : (si_Name i, si_Created i) ∈ map (fun s => (sn_Name s, sn_Created s)) (received (replay l))).
    { rewrite <- Ht. by apply (list_elem_of_fmap_2 (fun i => (si_Name i, si_Created i))). }
    apply list_elem_of_fmap in Hp as (y & [= -> ->] & Hy). by exists y. }
  assert (Hxi : exists i, i ∈ snaps /\ si_Name i = sn_Name x /\ si_Created i = sn_Created x).
  { assert (Hp : (sn_Name x, sn_Created x) ∈ map (fun i => (si_Name i, si_Created i)) snaps).
    { rewrite Ht. by apply (list_elem_of_fmap_2 (fun s => (sn_Name s, sn_Created s))). }
    apply list_elem_of_fmap in Hp as (i & [= En Ec] & Hi). by exists i. }
  destruct Hxi as (i & Hi & En & Ec). rewrite <- En.
  apply (Retention.retained_newest _ _ _ _ _ (retention_info dataset i) (si_Created i) Hk).
  - by apply list_elem_of_fmap_2.
  - cbn. rewrite En. exact Hax.
  - apply Parse_RFC3339.
  - intros t d (j & -> & Hj)%list_elem_of_fmap Ha _ Hd. cbn in Ha, Hd. rewrite Parse_RFC3339 in Hd. simplify_eq.
    destruct (Hmem j Hj) as (y & Hy & Eny & Ecy). rewrite Eny in Ha.
    assert (Hle : y = x \/ by_seq y x).
    { apply last_Some in Hx as [pre Hpre]. assert (Hyin : y ∈ autos (received (replay l))) by (by apply list_elem_of_filter).
      rewrite Hpre in Hyin. apply elem_of_app in Hyin as [Hyin| ->%list_elem_of_singleton]; [right|by left].
      assert (Hs : sorted (autos (received (replay l)))) by (apply sorted_filter, ordered_sorted; done). rewrite Hpre in Hs.
      apply sorted_app in Hs as (_ & _ & Hs). apply Hs; [done|apply list_elem_of_here]. }
    unfold Retention.less. cbn. rewrite En, Ec, Eny, Ecy. destruct Hle as [->|Hlt].
    + rewrite Z.eqb_refl. destruct (bytes_ltb _ _) eqn:E; [|done]. by apply bytes_ltb_asym in E as E2; congruence.
    + pose proof (known_less l y x Ho (ordered_known l y Ho (or_intror Hy)) (ordered_known l x Ho (or_intror Hin)) Hlt Ha Hax) as Hless.
      unfold Retention.less in Hless. cbn in Hless. destruct (Z.eqb_spec (sn_Created y) (sn_Created x)) as [E|E].
      * rewrite E, Z.eqb_refl. by apply bytes_ltb_asym.
      * rewrite (proj2 (Z.eqb_neq _ _)) by congruence. lia.
Qed.

Lemma keeps_prune_destination dataset policy x (P : list effect -> Prop) `{!Stable P} : (forall l, P l -> at_point x l) ->
  (forall l name, Ordered allowed l -> possible (BDestroy Destination name) (replay l) = true -> P l -> P (BDestroy Destination name :: l) \/ sn_Name x = name) ->
  keeps P (pruneSnapshots Destination dataset policy).
Proof.
  intros Hx Hd. unfold pruneSnapshots, time_now. eapply (tracked_bind _ _ _ _ _ _ _ (fun _ => P)); [apply keeps_look|intros n].
  eapply (tracked_bind _ _ _ _ _ _ _ (fun _ => P)); [apply keeps_policy|intros tiers].
  eapply (tracked_bind _ _ _ _ _ _ _ (fun snaps l => (exists l0, Ordered allowed l0 /\ newest (replay l0) = Some x /\ tells (received (replay l0)) snaps) /\ P l)).
  { unfold SnapshotList. eapply (tracked_bind _ _ _ _ _ _ _ (fun r l => (exists l0, Ordered allowed l0 /\ newest (replay l0) = Some x /\ r = received (replay l0)) /\ P l)).
    - apply tracked_reading; [done| |done]. intros l r Ho HP [= <-]. split; [|done]. exists l. split_and!; [done|by apply Hx|done].
    - intros r. apply tracked_pure. intros (l0 & Ho0 & Hx0 & ->). eapply tracked_post; [| |by apply (tracked_describe Destination)]; [|done].
      intros snaps l [HP Ht]. split; [|done]. by exists l0. }
  intros snaps. apply tracked_pure. intros (l0 & Ho0 & Hx0 & Ht). eapply (tracked_bind _ _ _ _ _ _ _ (fun _ => P)); [apply keeps_look|intros n'].
  eapply (tracked_bind _ _ _ _ _ _ _ (fun keep l => Retention.RetainedSnapshots Parse (map (retention_info dataset) snaps) tiers n' = Ok keep /\ P l)).
  { destruct (Retention.RetainedSnapshots _ _ _ _) as [k|]; [by apply tracked_ret|by apply tracked_fail]. }
  intros keep. apply tracked_pure. intros Hk. pose proof (newest_kept dataset l0 x snaps tiers n' keep Ho0 Hx0 Ht Hk) as Hin.
  apply tracked_every. intros i Hi. apply keeps_prune_one; [done|]. intros _ Hnot.
  assert (Hne : sn_Name x <> si_Name i) by (intros E; rewrite E in Hin; done).
  assert (Hkeep : forall l, Ordered allowed l -> possible (BDestroy Destination (si_Name i)) (replay l) = true -> P l -> P (BDestroy Destination (si_Name i) :: l)).
  { intros l Ho Hp HP. by destruct (Hd l (si_Name i) Ho Hp HP). }
  apply tracked_writing; [done| |by auto|done|by auto]. intros l Ho Hp HP. by apply (destroy_other x); [..|apply Hx|].
Qed.

(** ** Protection *)

(** Names of the source, with the GUID they always had. *)
Definition pair (name g : string) (l : list effect) : Prop := exists s, known s l /\ sn_Name s = name /\ sn_GUID s = g.
#[export] Instance growing_pair name g : Growing (pair name g).
Proof. intros l l' (s & Hs & ?). exists s. split; [by apply grows|done]. Qed.
Lemma pair_guid l name g s : Ordered allowed l -> pair name g l -> s ∈ source (replay l) -> sn_Name s = name -> sn_GUID s = g.
Proof.
  intros Ho (t & Ht & <- & <-) Hs En. assert (E : plain s = plain t) by (apply (known_unique l); [done|by apply ordered_known; [|left]|done|by left]).
  by apply plain_fields in E as (_ & ? & _).
Qed.
Lemma pair_name l name g s : Ordered allowed l -> pair name g l -> s ∈ source (replay l) -> sn_GUID s = g -> sn_Name s = name.
Proof.
  intros Ho (t & Ht & <- & <-) Hs En. assert (E : plain s = plain t) by (apply (known_unique l); [done|by apply ordered_known; [|left]|done|by right; left]).
  by apply plain_fields in E as (? & _).
Qed.

Lemma kind_test kind : kind = "hold" \/ kind = "transfer" -> negb (bool_decide (kind = "hold")) && negb (bool_decide (kind = "transfer")) = false.
Proof. by intros [->| ->]. Qed.

(** Adding protection loses nothing, and the snapshot is held in the end. *)
Lemma tracked_protect dataset name n kind g (P : list effect -> Prop) `{!Stable P} : n = node -> kind = "hold" \/ kind = "transfer" ->
  (forall l, P l -> pair name g l) ->
  tracked P (UpdateSnapshotProtection dataset name n kind true) (fun _ l => P l /\ tagged (tag_of kind node) g l) P.
Proof.
  intros -> Hk Hg. unfold UpdateSnapshotProtection. destruct (_ || _); [by apply tracked_fail|]. cbv zeta.
  pose proof (stable_tagged kind g Hk) as Hst. set (T := fun l => P l /\ tagged (tag_of kind node) g l).
  assert (HT : Stable T) by (by apply stable_and).
  eapply (tracked_bind _ _ _ _ _ _ _ (fun _ => P)); [by apply keeps_read_snap|intros nodes].
  eapply (tracked_bind _ _ _ _ _ _ _ (fun _ => T)).
  - eapply (tracked_bind _ _ _ _ _ _ _ (fun held l => P l /\ (tag_of kind node ∈ held -> tagged (tag_of kind node) g l))).
    + apply tracked_read_snap; [done| |done]. intros l s Ho HP Hs En. split; [done|]. intros Ht. exists s. split_and!; [done| |done].
      by apply (pair_guid l name); [|apply Hg|..].
    + intros held. case_decide as Ht; [apply tracked_ret; intros l [HP Hi]; split; [done|by apply Hi]|].
      apply (tracked_pre _ _ _ _ _ P); [by intros l [? _]|]. apply tracked_writing; [done|intros l Ho Hp HP; by apply tame_allowed| |done|].
      * intros l Ho Hp HP. split; [by apply stable|]. cbn [possible] in Hp. unfold has_snap in Hp. cbn [snaps_of] in Hp.
        destruct (find_snap name (source (replay l))) as [s|] eqn:Ef; [|done]. apply find_snap_Some in Ef as [Hs En].
        exists (set_holds (fun h => h ++ [tag_of kind node]) s). cbn. fold (replay l). split_and!.
        -- pose proof (elem_with_name name (set_holds (fun h => h ++ [tag_of kind node])) _ _ Hs) as Hw. by rewrite bool_decide_true in Hw.
        -- by apply (pair_guid l name); [|apply Hg|..].
        -- apply elem_of_app. right. apply list_elem_of_here.
      * intros l Ho Hp HP. by apply stable.
  - skip. eapply (tracked_bind _ _ _ _ _ _ _ (fun _ => T)); [|skip; by apply tracked_ret].
    apply (tracked_post _ _ _ _ _ _ (fun _ => T) _ T); [done|intros l Hl; by apply Hl|]. by apply tracked_tame.
Qed.

(** Removing it: [P] says what makes that safe. *)
Lemma tracked_unprotect dataset name n kind (P : list effect -> Prop) `{!Stable P} :
  (forall l, Ordered allowed l -> possible (BRelease (tag_of kind n) name) (replay l) = true -> P l ->
     allowed (BRelease (tag_of kind n) name) l /\ P (BRelease (tag_of kind n) name :: l)) ->
  keeps P (UpdateSnapshotProtection dataset name n kind false).
Proof.
  intros Hr. unfold UpdateSnapshotProtection. destruct (_ || _); [by apply tracked_fail|]. cbv zeta.
  eapply (tracked_bind _ _ _ _ _ _ _ (fun _ => P)); [by apply keeps_read_snap|intros nodes].
  eapply (tracked_bind _ _ _ _ _ _ _ (fun _ => P)); [by apply tracked_ret|skip]. eapply (tracked_bind _ _ _ _ _ _ _ (fun _ => P)); [by apply tracked_tame|skip].
  eapply (tracked_bind _ _ _ _ _ _ _ (fun _ => P)); [by apply keeps_read_snap|intros held].
  case_decide; [|by apply tracked_ret]. apply tracked_writing; [done|..]; try done; intros l Ho Hp HP; by apply Hr.
Qed.

(** The newest point is [x], it is held, and nothing is half received. *)
Definition held_at (x : Snap) (l : list effect) : Prop := at_point x l /\ tagged (tag_of "hold" node) (sn_GUID x) l /\ pair (sn_Name x) (sn_GUID x) l.
#[export] Instance stable_held_at x : Stable (held_at x).
Proof. apply stable_and; [apply stable_at_point|apply stable_and; [apply stable_tagged; by left|apply _]]. Qed.

Lemma release_allowed tag name l : Ordered allowed l -> possible (BRelease tag name) (replay l) = true -> token_of (replay l) = None ->
  match newest (replay l) with
  | Some x => exists tag', tag' ∈ tags_of node /\ tagged tag' (sn_GUID x) (BRelease tag name :: l)
  | None => True
  end -> allowed (BRelease tag name) l.
Proof.
  intros Ho Hp Ht Hn. split; [done|]. split; [done|]. split; [by apply forward_same|]. destruct (ordered_safe l Ho) as [Hb _]. split.
  - unfold base_safe in *. change (newest (replay (BRelease tag name :: l))) with (newest (replay l)). by destruct (newest (replay l)).
  - intros t Ht'. change (token_of (replay (BRelease tag name :: l))) with (token_of (replay l)) in Ht'. congruence.
Qed.
(** Everything but that hold may be released. *)
Lemma release_held x kind name (P : list effect -> Prop) `{!Growing P} l : kind = "hold" \/ kind = "transfer" -> kind = "transfer" \/ name <> sn_Name x ->
  Ordered allowed l -> possible (BRelease (tag_of kind node) name) (replay l) = true -> P l /\ held_at x l ->
  allowed (BRelease (tag_of kind node) name) l /\ P (BRelease (tag_of kind node) name :: l) /\ held_at x (BRelease (tag_of kind node) name :: l).
Proof.
  intros Hk Hother Ho Hp (HP & [Hn Ht] & Hh & Hpair).
  assert (Htag : tagged (tag_of "hold" node) (sn_GUID x) (BRelease (tag_of kind node) name :: l)).
  { apply tagged_kept; [done..|]. intros name' s E Hs En. assert (Et : tag_of "hold" node = tag_of kind node) by congruence.
    destruct Hother as [->|Hother]; [by apply tag_kinds in Et|]. intros Eg. apply Hother. assert (name = name') as -> by congruence. rewrite <- En.
    by apply (pair_name l _ (sn_GUID x)). }
  split; [|split; [by apply (grows l [_])|split; [done|split; [done|by apply (grows l [_])]]]].
  apply release_allowed; [done..|]. rewrite Hn. exists (tag_of "hold" node). split; [apply own_tag; by left|done].
Qed.

(** ** Calls of the receiver *)

Lemma tracked_serve origin src action dataset policy input (P : list effect -> Prop) (Q : answer -> list effect -> Prop) (R : list effect -> Prop) `{!Stable P} :
  (forall policy', tracked P (serve_action origin dataset policy' action input) Q R) -> (forall l, P l -> R l) ->
  tracked P (ServeBackupReceiver origin src ["zfs-backup"; action; dataset; policy] input) Q R.
Proof.
  intros Hact HR. unfold ServeBackupReceiver, receiver_dataset. cbv zeta. destruct (_ && _); [|by apply tracked_fail].
  assert (HPR : forall A (m : bcmd A), keeps P m -> tracked P m (fun _ => P) R) by (intros A m Hm; by eapply tracked_post; [by intros a l Hl; exact Hl|exact HR|exact Hm]).
  eapply (tracked_bind _ _ _ _ _ _ _ (fun _ => P)).
  { apply HPR. unfold decode_policy, time_now. case_decide; [by apply tracked_ret|]. destruct (DecodeString policy); [|by apply tracked_fail].
    eapply (tracked_bind _ _ _ _ _ _ _ (fun _ => P)); [apply keeps_look|intros n]. eapply (tracked_bind _ _ _ _ _ _ _ (fun _ => P)); [apply keeps_policy|skip]. by apply tracked_ret. }
  intros policy'. eapply (tracked_bind _ _ _ _ _ _ _ (fun _ => P)); [apply HPR, keeps_lock|skip].
  eapply (tracked_bind _ _ _ _ _ _ _ (fun _ => P)); [apply tracked_try; by apply keeps_reading|intros e].
  eapply (tracked_bind _ _ _ _ _ _ _ (fun _ => P)); [destruct e; [by apply tracked_ret|apply HPR; by apply tracked_tame]|skip].
  eapply (tracked_bind _ _ _ _ _ _ _ (fun _ => P)); [apply HPR; by apply keeps_reading|intros owner].
  destruct (negb _); [by apply tracked_fail|apply Hact].
Qed.
Lemma tracked_ssh r action input (P : list effect -> Prop) (Q : answer -> list effect -> Prop) (R : list effect -> Prop) `{!Stable P} :
  (forall policy, tracked P (serve_action (Dataset r) (DestDataset r) policy action input) Q R) -> (forall l, P l -> R l) -> (forall a l, Q a l -> R l) ->
  tracked P (ssh r action input) Q R.
Proof.
  intros Hact HR HQR. unfold ssh. cbv zeta. eapply tracked_bind; [by apply tracked_serve|]. intros a.
  eapply (tracked_bind _ _ _ _ _ _ _ (fun _ => Q a)); [by apply tracked_looking|]. intros [|]; [apply tracked_fail; by apply HQR|by apply tracked_ret].
Qed.

Lemma tracked_state r (P : list effect -> Prop) `{!Stable P} :
  tracked P (State r) (fun st l => P l /\ Snapshots st = listed (received (replay l)) /\ ResumeToken st = token_of (replay l)) P.
Proof.
  set (Q := fun a l => P l /\ match a with State_ st => Snapshots st = listed (received (replay l)) /\ ResumeToken st = token_of (replay l) | Nothing => False end).
  unfold State. eapply (tracked_bind _ _ _ _ _ _ _ Q).
  - apply tracked_ssh; [done| |done|by intros a l [? _]]. intros policy. unfold serve_action. rewrite decide_True by done.
    eapply (tracked_bind _ _ _ _ _ _ _ (fun t l => P l /\ t = token_of (replay l))).
    { apply tracked_reading; [done| |done]. intros l t _ HP [= <-]. done. }
    intros t. eapply (tracked_bind _ _ _ _ _ _ _ (fun s l => (P l /\ t = token_of (replay l)) /\ s = received (replay l))).
    { assert (Hst : Stable (fun l => P l /\ t = token_of (replay l))) by (apply (stable_and P); [done|apply (stable_token (fun o => t = o))]).
      apply tracked_reading; [done| |by intros l [? _]]. intros l s _ HP [= <-]. done. }
    intros s. apply tracked_ret. intros l [[HP ->] ->]. by split.
  - intros [|st]; [apply tracked_fail; by intros l [? _]|apply tracked_ret]. by intros l [HP ?].
Qed.

(** Without a token nothing half received is left. *)
Lemma abort_allowed l : Ordered allowed l -> possible (BToken None) (replay l) = true -> allowed (BToken None) l /\
  received (replay (BToken None :: l)) = received (replay l) /\ token_of (replay (BToken None :: l)) = None.
Proof.
  intros Ho Hp.
  assert (Hr : received (replay (BToken None :: l)) = received (replay l)) by (unfold received; cbn; fold (replay l); by destruct (dest (replay l))).
  assert (Ht : token_of (replay (BToken None :: l)) = None) by (unfold token_of; cbn; fold (replay l); by destruct (dest (replay l))).
  split; [|done]. split; [done|]. split; [done|]. split; [by apply forward_same|]. split; [|by intros t; rewrite Ht].
  destruct (ordered_safe l Ho) as [Hb _]. unfold base_safe, newest in *. rewrite Hr. destruct (last _) as [x|]; [|done]. exact Hb.
Qed.
Lemma tracked_abort r (P P' : list effect -> Prop) `{!Stable P} : (forall l, P l -> P' l) ->
  (forall l, Ordered allowed l -> P l -> received (replay (BToken None :: l)) = received (replay l) -> token_of (replay (BToken None :: l)) = None -> P' (BToken None :: l)) ->
  tracked P (Abort r) (fun _ => P') P'.
Proof.
  intros Hi Hk. unfold Abort. eapply (tracked_bind _ _ _ _ _ _ _ (fun _ => P')); [|skip; by apply tracked_ret].
  apply tracked_ssh; [done| |done|done]. intros policy. unfold serve_action. rewrite decide_False, decide_True by done.
  eapply (tracked_bind _ _ _ _ _ _ _ (fun _ => P')); [|skip; by apply tracked_ret].
  assert (Hk' : forall l, Ordered allowed l -> possible (BToken None) (replay l) = true -> P l -> P' (BToken None :: l)).
  { intros l Ho Hp HP. destruct (abort_allowed l Ho Hp) as (_ & Hr & Ht). by apply Hk. }
  apply tracked_writing; try done. intros l Ho Hp HP. by apply abort_allowed.
Qed.
Lemma tracked_prune r x : keeps (held_at x) (Prune r).
Proof.
  unfold Prune. eapply (tracked_bind _ _ _ _ _ _ _ (fun _ => held_at x)); [|skip; by apply tracked_ret].
  apply tracked_ssh; [apply _| |done|done]. intros policy. unfold serve_action. rewrite !decide_False, decide_True by done.
  case_decide; [by apply tracked_ret|].
  assert (Hpol : forall l, Ordered allowed l -> possible (BPolicy policy) (replay l) = true -> held_at x l -> allowed (BPolicy policy) l /\ held_at x (BPolicy policy :: l)).
  { intros l Ho Hp ([Hn Ht] & Hh & Hpr).
    assert (Hr : received (replay (BPolicy policy :: l)) = received (replay l)) by (unfold received; cbn; fold (replay l); by destruct (dest (replay l))).
    assert (Ht' : token_of (replay (BPolicy policy :: l)) = None) by (unfold token_of in *; cbn; fold (replay l); by destruct (dest (replay l))).
    assert (Hn' : newest (replay (BPolicy policy :: l)) = Some x) by (unfold newest in *; by rewrite Hr).
    split; [|split; [done|split; [done|by apply (grows l [_])]]]. split; [done|]. split; [done|]. split; [by apply forward_same|]. split; [|by intros t; rewrite Ht'].
    unfold base_safe. rewrite Hn'. exists (tag_of "hold" node). split; [apply own_tag; by left|done]. }
  eapply (tracked_bind _ _ _ _ _ _ _ (fun _ => held_at x)); [apply tracked_writing; [apply _|..]; try done; intros l Ho Hp HP; by apply Hpol|skip].
  eapply (tracked_bind _ _ _ _ _ _ _ (fun _ => held_at x)); [|skip; by apply tracked_ret].
  apply (keeps_prune_destination _ _ x); [apply _|by intros l [? _]|]. intros l name Ho Hp (Hat & Hh & Hpr).
  destruct (decide (sn_Name x = name)) as [E|E]; [by right|left]. 
  destruct (destroy_other x name l Ho Hp Hat E) as [_ Hat']. split; [done|]. split; [done|by apply (grows l [_])].
Qed.

(** ** Streams *)

Lemma stable_all {A} (L : list A) (P : A -> list effect -> Prop) : (forall x, x ∈ L -> Stable (P x)) -> Stable (fun l => forall x, x ∈ L -> P x l).
Proof. intros HP e l Ho Hp Ht Hl x Hx. apply (HP x Hx); [done..|]. by apply Hl. Qed.
Lemma stable_implies (A : Prop) (P : list effect -> Prop) : Stable P -> Stable (fun l => A -> P l).
Proof. intros HP e l Ho Hp Ht Hl Ha. apply HP; [done..|by apply Hl]. Qed.

Section Streams.
(** [Good] snapshots may become the newest point; a whole stream ends with a
    [Last] one. *)
Context (Good Last : Snap -> Prop) (n0 : option Snap) (F : list effect -> Prop) `{!Stable F}.
Hypothesis HF : forall e l, (exists after s, e = BReceive after s) \/ (exists t, e = BToken t) -> F l -> F (e :: l).

(** What is still to come of a stream fits the destination. *)
Record fits (from : option string) (sts : list Snap) (l : list effect) : Prop := {
  fit_known : forall s, s ∈ sts -> known s l;
  fit_held : forall s, s ∈ sts -> automated s = true -> tagged (tag_of "transfer" node) (sn_GUID s) l;
  fit_good : forall s, s ∈ sts -> automated s = true -> Good s;
  fit_sorted : sorted sts;
  fit_newer : starts from (received (replay l)) = true -> forall y s, y ∈ base_of from (received (replay l)) -> s ∈ sts -> by_seq y s;
  fit_points : starts from (received (replay l)) = true -> autos (base_of from (received (replay l))) = autos (received (replay l));
  fit_first : newest (replay l) = None -> match sts with s :: _ => automated s = true | [] => True end }.
#[local] Instance stable_fits from sts : Stable (fits from sts).
Proof.
  intros e l Ho Hp Ht [Hk Hh Hg Hs Hn Ha Hf]. assert (Hr : received (replay (e :: l)) = received (replay l)) by (by apply (tame_dest e (replay l) l)).
  split; rewrite ?Hr; try done.
  - intros s Hin. apply (grows l [e]). by apply Hk.
  - intros s Hin Hau. apply tame_tagged; [done..|apply own_tag; by right|]. by apply Hh.
  - unfold newest in *. by rewrite Hr.
Qed.
Definition progress (l : list effect) : Prop := newest (replay l) = n0 \/ exists s, Good s /\ newest (replay l) = Some (plain s).
#[local] Instance stable_progress : Stable progress.
Proof. apply (stable_newest (fun o => o = n0 \/ exists s, Good s /\ o = Some (plain s))). Qed.

Lemma received_after from s l : possible (BReceive from s) (replay l) = true -> starts from (received (replay l)) = true /\
  received (replay (BReceive from s :: l)) = base_of from (received (replay l)) ++ [plain s] /\ token_of (replay (BReceive from s :: l)) = None.
Proof. intros Hp. unfold received, token_of. cbn in *. fold (replay l). by destruct (dest (replay l)). Qed.

Lemma receive_allowed from s sts l : Ordered allowed l -> possible (BReceive from s) (replay l) = true -> fits from (s :: sts) l ->
  allowed (BReceive from s) l /\ fits (Some (sn_GUID s)) sts (BReceive from s :: l) /\
  newest (replay (BReceive from s :: l)) = (if automated s then Some (plain s) else newest (replay l)).
Proof.
  intros Ho Hp Hfit. destruct (received_after from s l Hp) as (Hst & Hr & Htk). pose proof Hfit as [Hk Hh Hg Hs Hn Ha Hf].
  specialize (Hn Hst). specialize (Ha Hst).
  assert (Hnew : newest (replay (BReceive from s :: l)) = if automated s then Some (plain s) else newest (replay l)).
  { unfold newest. rewrite Hr. unfold autos in *. rewrite filter_app. destruct (automated s) eqn:E.
    - rewrite (filter_cons_True _ (plain s)), filter_nil by done. by rewrite last_snoc.
    - rewrite (filter_cons_False _ (plain s)), filter_nil, app_nil_r by (change (automated s = true -> False); congruence). by rewrite Ha. }
  assert (Hks : known s l) by (apply Hk; by constructor).
  assert (Hseq : Forall (fun y => by_seq y s) (base_of from (received (replay l)))) by (apply Forall_forall; intros y Hy; apply Hn; [done|by constructor]).
  split; [|split; [|exact Hnew]].
  - split; [done|]. split; [by split|]. split; [|split; [|by intros t; rewrite Htk]].
    { intros x Hx. rewrite Hnew. destruct (automated s); [|exists x; split; [done|lia]]. exists (plain s). split; [done|]. cbn.
      assert (Hxb : x ∈ base_of from (received (replay l))).
      { unfold newest in Hx. apply last_elem_of in Hx. rewrite <- Ha in Hx. by apply list_elem_of_filter in Hx as [_ ?]. }
      specialize (Hn x s Hxb (list_elem_of_here _ _)). unfold by_seq in Hn. lia. }
    unfold base_safe. rewrite Hnew.
    destruct (automated s) eqn:E.
    + exists (tag_of "transfer" node). split; [apply own_tag; by right|]. apply (Hh s); [by constructor|done].
    + destruct (ordered_safe l Ho) as [Hb _]. unfold base_safe in Hb. destruct (newest (replay l)) as [x|] eqn:Ex; [exact Hb|].
      exfalso. specialize (Hf eq_refl). cbn in Hf. congruence.
  - apply StronglySorted_inv in Hs as [Hs Hlt]. rewrite Forall_forall in Hlt, Hseq.
    assert (Hb : base_of (Some (sn_GUID s)) (received (replay (BReceive from s :: l))) = received (replay (BReceive from s :: l))).
    { rewrite Hr. cbn [base_of]. assert (Hno : forall y, y ∈ base_of from (received (replay l)) -> sn_GUID y <> sn_GUID s).
      { intros y Hy E. assert (Hyk : known y l) by (apply ordered_known; [done|right]; destruct (base_prefix from (received (replay l))) as [k ->]; apply elem_of_app; by left).
        pose proof (known_unique l y s Ho Hyk Hks (or_intror (or_introl E))) as (_ & _ & Es & _)%plain_fields. specialize (Hseq y Hy). unfold by_seq in Hseq. lia. }
      revert Hno. generalize (base_of from (received (replay l))). intros base. induction base as [|y base IH]; intros Hno; cbn.
      - by rewrite bool_decide_true.
      - rewrite bool_decide_false by (apply Hno; by constructor). f_equal. apply IH. intros z Hz. apply Hno. by constructor. }
    split.
    + intros t Ht. apply (grows l [_]). apply Hk. by constructor.
    + intros t Ht Hau. destruct (Hh t ltac:(by constructor) Hau) as (s' & ? & ? & ?). by exists s'.
    + intros t Ht. apply Hg. by constructor.
    + done.
    + intros _ y t. rewrite Hb, Hr. intros [Hy| ->%list_elem_of_singleton]%elem_of_app Ht; [apply Hn; [done|by constructor]|by apply Hlt].
    + intros _. by rewrite Hb.
    + intros Hnone. rewrite Hnew in Hnone. destruct (automated s) eqn:E; [done|]. specialize (Hf Hnone). cbn in Hf. congruence.
Qed.
Lemma token_allowed dataset from s sts l : Ordered allowed l -> possible (BToken (Some (mkToken dataset (sn_GUID s) from))) (replay l) = true -> fits from (s :: sts) l ->
  allowed (BToken (Some (mkToken dataset (sn_GUID s) from))) l /\ received (replay (BToken (Some (mkToken dataset (sn_GUID s) from)) :: l)) = received (replay l).
Proof.
  intros Ho Hp [Hk Hh Hg Hs Hn Ha Hf].
  assert (Hst : starts from (received (replay l)) = true) by (unfold received; cbn in *; by destruct (dest (replay l))). set (e := BToken _) in *.
  assert (Hr : received (replay (e :: l)) = received (replay l)) by (unfold received; cbn; fold (replay l); by destruct (dest (replay l))).
  split; [|done]. split; [done|]. split; [done|]. split; [by apply forward_same|]. destruct (ordered_safe l Ho) as [Hb _]. split.
  - unfold base_safe, newest in *. rewrite Hr. destruct (last _) as [x|]; [exact Hb|done].
  - intros t Ht. assert (t = mkToken dataset (sn_GUID s) from) as ->.
    { unfold token_of in Ht. cbn in Ht. fold (replay l) in Ht. destruct (dest (replay l)); cbn in Ht; [congruence|done]. }
    exists s. split; [apply (grows l [e]), Hk; by constructor|]. split; [done|]. rewrite Hr. cbn [tk_from tk_toguid]. split_and!.
    + done.
    + apply Forall_forall. intros y Hy. apply Hn; [done..|by constructor].
    + by apply Ha.
    + intros Hau _. destruct (Hh s ltac:(by constructor) Hau) as (s' & ? & ? & ?). by exists s'.
Qed.

Definition whole (l : list effect) : Prop := exists s, Last s /\ newest (replay l) = Some (plain s).
#[local] Instance stable_whole : Stable whole.
Proof. apply (stable_newest (fun o => exists s, Last s /\ o = Some (plain s))). Qed.
(** A stream ends at an automated snapshot. *)
Definition ends (sts : list Snap) : Prop := exists s, last sts = Some s /\ automated s = true /\ Last s.

Lemma progress_receive from s sts l : Ordered allowed l -> possible (BReceive from s) (replay l) = true -> fits from (s :: sts) l -> progress l -> progress (BReceive from s :: l).
Proof.
  intros Ho Hp Hf Hg. destruct (receive_allowed from s sts l Ho Hp Hf) as (_ & _ & Hn). unfold progress. rewrite Hn.
  destruct (automated s) eqn:E; [|exact Hg]. right. exists s. split; [|done]. apply (fit_good _ _ _ Hf); [by constructor|done].
Qed.
Lemma tracked_receive_all dataset n partial from sts : ends sts ->
  tracked (fun l => F l /\ fits from sts l /\ progress l) (receive_all dataset n partial from sts) (fun _ l => F l /\ whole l) (fun l => F l /\ progress l).
Proof.
  revert n from. induction sts as [|s sts IH]; intros n from (x & Hx & Hax & HLx); cbn [receive_all]; [done|].
  destruct n as [|n].
  - eapply (tracked_bind _ _ _ _ _ _ _ (fun _ l => F l /\ progress l)); [|skip; by apply tracked_fail].
    destruct partial; [|apply tracked_ret; by intros l (? & _ & ?)].
    eapply (tracked_bind _ _ _ _ _ _ _ (fun _ l => F l /\ progress l)); [|skip; by apply tracked_ret].
    set (e := BToken (Some (mkToken (dataset +:+ "@" +:+ sn_Name s) (sn_GUID s) from))).
    assert (Hkeep : forall l, Ordered allowed l -> possible e (replay l) = true -> F l /\ fits from (s :: sts) l /\ progress l -> allowed e l /\ F (e :: l) /\ progress (e :: l)).
    { intros l Ho Hp (HFl & Hf & Hg). destruct (token_allowed (dataset +:+ "@" +:+ sn_Name s) from s sts l Ho Hp Hf) as [Hal Hr]. split; [exact Hal|].
      split; [apply HF; [by right; eexists|done]|]. unfold progress, newest in *. unfold e. by rewrite Hr. }
    apply tracked_try, tracked_writing; [apply stable_and; [done|apply stable_and; apply _]|..].
    + intros l Ho Hp Hl. by apply Hkeep.
    + intros l Ho Hp Hl. by apply Hkeep.
    + by intros l (? & _ & ?).
    + intros l Ho Hp Hl. by apply Hkeep.
  - destruct sts as [|s2 sts].
    + cbn in Hx. injection Hx as <-. eapply (tracked_bind _ _ _ _ _ _ _ (fun _ l => F l /\ whole l)); [|skip; by apply tracked_ret].
      apply tracked_writing; [apply stable_and; [done|apply stable_and; apply _]|..].
      * intros l Ho Hp (_ & Hf & _). by apply (receive_allowed from s []).
      * intros l Ho Hp (HFl & Hf & _). split; [apply HF; [left; by eexists _, _|done]|]. exists s. split; [done|].
        destruct (receive_allowed from s [] l Ho Hp Hf) as (_ & _ & ->). by rewrite Hax.
      * by intros l (? & _ & ?).
      * intros l Ho Hp (HFl & Hf & Hg). split; [apply HF; [left; by eexists _, _|done]|by apply (progress_receive from s [])].
    + eapply tracked_bind; [|skip; apply IH; by exists x].
      apply tracked_writing; [apply stable_and; [done|apply stable_and; apply _]|..].
      * intros l Ho Hp (_ & Hf & _). by apply (receive_allowed from s (s2 :: sts)).
      * intros l Ho Hp (HFl & Hf & Hg). split; [apply HF; [left; by eexists _, _|done]|].
        split; [by apply (receive_allowed from s (s2 :: sts))|by apply (progress_receive from s (s2 :: sts))].
      * by intros l (? & _ & ?).
      * intros l Ho Hp (HFl & Hf & Hg). split; [apply HF; [left; by eexists _, _|done]|by apply (progress_receive from s (s2 :: sts))].
Qed.
Lemma tracked_receive dataset st : ends (st_snaps st) ->
  tracked (fun l => F l /\ fits (st_from st) (st_snaps st) l /\ progress l) (receive dataset st) (fun _ l => F l /\ whole l) (fun l => F l /\ progress l).
Proof.
  intros He. unfold receive. set (P := fun l => F l /\ fits (st_from st) (st_snaps st) l /\ progress l).
  assert (HP : Stable P) by (apply stable_and; [done|apply stable_and; apply _]).
  assert (HPR : forall l, P l -> F l /\ progress l) by (by intros l (? & _ & ?)).
  eapply (tracked_bind _ _ _ _ _ _ _ (fun _ => P)); [by apply tracked_reading|intros token].
  destruct (negb _); [by apply tracked_fail|]. eapply (tracked_bind _ _ _ _ _ _ _ (fun _ => P)); [by apply tracked_looking|intros e].
  destruct (st_resume st && _); [|by apply tracked_receive_all].
  eapply (tracked_bind _ _ _ _ _ _ _ (fun _ l => F l /\ progress l)); [|skip; by apply tracked_fail].
  destruct (se_partial e); [by apply tracked_ret|].
  eapply (tracked_bind _ _ _ _ _ _ _ (fun _ l => F l /\ progress l)); [|skip; by apply tracked_ret].
  assert (Hkeep : forall l, Ordered allowed l -> possible (BToken None) (replay l) = true -> P l -> F (BToken None :: l) /\ progress (BToken None :: l)).
  { intros l Ho Hp (HFl & _ & Hg). destruct (abort_allowed l Ho Hp) as (_ & Hr & _). split; [apply HF; [by right; eexists|done]|].
    unfold progress, newest in *. by rewrite Hr. }
  apply tracked_try, tracked_writing; [done|..]; [|by auto..]. intros l Ho Hp _. by apply abort_allowed.
Qed.

(** A stream that is read from the source and received. *)
Lemma tracked_send r a (P : list effect -> Prop) `{!Stable P} :
  (forall l, P l -> F l /\ progress l) ->
  (forall l st, Ordered allowed l -> P l -> stream_of a (source (replay l)) = Some st -> ends (st_snaps st) /\ fits (st_from st) (st_snaps st) l) ->
  tracked P (Send r a) (fun res l => match res.2 with None => F l /\ whole l | Some _ => F l /\ (progress l \/ whole l) end) (fun _ => False).
Proof.
  intros HPF Hst. unfold Send. eapply (tracked_bind _ _ _ _ _ _ _ (fun _ => P)); [by apply tracked_looking|intros e].
  set (Q := fun (a : answer) l => F l /\ whole l). set (R := fun l => F l /\ (progress l \/ whole l)).
  eapply (tracked_bind _ _ _ _ _ _ _ (fun o l => match o with Ok a => Q a l | Err _ => R l end)).
  - apply (tracked_attempt _ _ _ _ _ _ Q R).
    eapply (tracked_bind _ _ _ _ _ _ _ (fun st l => ends (st_snaps st) /\ (F l /\ fits (st_from st) (st_snaps st) l /\ progress l))).
    + apply tracked_reading; [done| |by intros l Hl; split; [|left]; apply HPF].
      intros l st Ho HP. destruct (stream_of a _) as [st'|] eqn:E; [|done]. intros [= <-]. destruct (Hst l st' Ho HP E). destruct (HPF l HP). by split_and!.
    + intros st. apply tracked_pure. intros He.
      apply tracked_ssh; [apply stable_and; [done|apply stable_and; apply _]| |by intros l (? & _ & ?); split; [|left]|by intros x l [? ?]; split; [|right]].
      intros policy. unfold serve_action. rewrite !decide_False by done.
      eapply (tracked_bind _ _ _ _ _ _ _ (fun _ l => F l /\ whole l)); [|skip; by apply tracked_ret].
      eapply tracked_post; [| |by apply tracked_receive]; [done|]. by intros l [? ?]; split; [|left].
  - intros [x|m]; apply tracked_ret; cbn; [|done]. intros l [? ?]. destruct (se_reported e); [done|]. by split; [|right].
Qed.
End Streams.
End Safety.
