(* ===== verification/BackupRun.v ===== *)
(** What one replication does to both datasets, from what it read of the
    source to what it releases in the end. *)
From S2P Require Import Prelude TraceLogic Timestamp Release GoStrings Backup BackupLog BackupSafety.
From S2P Require Retention Lifecycle.
From Stdlib Require Import Ascii.

Open Scope string_scope.
Open Scope list_scope.

Section Run.
Context `{BackupEnv} `{!Calendar}.
Abbreviation tracked := (TraceLogic.tracked (E:=string) (fun _ : list effect => True) (fun l => l) allowed []).
Abbreviation keeps P m := (tracked P m (fun _ => P) P).

(** ** What was read of the source *)

(** The points of the source when it was read. *)
Definition points (l0 : list effect) : list Snap := autos (source (replay l0)).
Lemma listed_points l : List.filter (fun s => IsAutomatedSnapshot (chars (Name s))) (listed l) = listed (autos l).
Proof.
  induction l as [|s l IH]; [done|]. cbn [listed map List.filter]. fold (listed l). rewrite IH. unfold autos. rewrite filter_cons. unfold automated.
  cbn [Name]. by destruct (IsAutomatedSnapshot (chars (sn_Name s))) eqn:E; case_decide.
Qed.

Lemma born_split l' l0 b : Ordered allowed (l' ++ l0) -> b ∈ born (l' ++ l0) -> b ∈ born l0 \/ forall t, t ∈ born l0 -> newer t b = true.
Proof.
  induction l' as [|e l' IH]; [by left|]. cbn [app]. intros Ho [->|Hb]%born_cons; inversion Ho as [|? ? Ho' (_ & Hs & _)]; subst; [right|by apply IH].
  intros t Ht. cbn in Hs. unfold fresh in Hs. rewrite forallb_forall in Hs. apply Hs, list_elem_of_In. by apply born_grows.
Qed.
(** What is no newer than something known then was known then. *)
Lemma known_then l' l0 s t : Ordered allowed (l' ++ l0) -> known s (l' ++ l0) -> known t l0 -> (sn_Seq s <= sn_Seq t)%Z -> known s l0.
Proof.
  intros Ho (b & Hb & E) (c & Hc & Ec) Hle. destruct (born_split l' l0 b Ho Hb) as [Hb0|Hn]; [by exists b|].
  specialize (Hn c Hc). apply newer_spec in Hn as (_ & _ & Hlt & _). apply plain_fields in E as (_ & _ & E & _), Ec as (_ & _ & Ec & _).
  unfold by_seq in Hlt. lia.
Qed.
(** The source keeps no secret: what stands there and was known stood there. *)
Lemma seen_then l' l0 s : Ordered allowed (l' ++ l0) -> s ∈ source (replay (l' ++ l0)) -> known s l0 -> exists s0, s0 ∈ source (replay l0) /\ plain s0 = plain s.
Proof.
  revert s. induction l' as [|e l' IH]; intros s Ho Hs Hk; [by exists s|]. inversion Ho as [|? ? Ho' (_ & Hsane & _)]; subst.
  cbn [app replay foldr] in Hs. fold (replay (l' ++ l0)) in Hs. apply source_before in Hs as [->|(t & Ht & E)].
  - exfalso. cbn in Hsane. unfold fresh in Hsane. rewrite forallb_forall in Hsane. destruct Hk as (b & Hb & Eb).
    apply (born_grows b l0 l'), list_elem_of_In, Hsane, newer_spec in Hb as (Hn & _). apply plain_fields in Eb as (? & _). done.
  - destruct (IH t Ho' Ht) as (s0 & Hs0 & E0); [destruct Hk as (b & Hb & Eb); exists b; split; [done|congruence]|]. exists s0. split; [done|congruence].
Qed.

(** ** Indexes *)

Lemma last_index_spec {A} (p : A -> bool) l i base : (last_index p i base l = base /\ (forall x, x ∈ l -> p x = false)) \/
  exists k x, last_index p i base l = (i + Z.of_nat k)%Z /\ l !! k = Some x /\ p x = true /\ forall j y, (k < j)%nat -> l !! j = Some y -> p y = false.
Proof.
  revert i base. induction l as [|x l IH]; intros i base; cbn [last_index]; [left; split; [done|by intros x []%elem_of_nil]|].
  destruct (IH (i + 1)%Z (if p x then i else base)) as [[E Hn]|(k & y & E & Hy & Hp & Hn)].
  - rewrite E. destruct (p x) eqn:Hx.
    + right. exists 0%nat, x. split_and!; [lia|done|done|]. intros [|j] y Hj Hy; [lia|]. apply Hn. by eapply list_elem_of_lookup_2.
    + left. split; [done|]. intros y [->|Hy]%elem_of_cons; [done|by apply Hn].
  - right. exists (S k), y. split_and!; [lia|done|done|]. intros [|j] z Hj Hz; [lia|]. apply (Hn j); [lia|done].
Qed.
Lemma common_spec R s : common (listed R) s = true <-> exists d, d ∈ R /\ sn_GUID d = GUID s.
Proof.
  unfold common. rewrite existsb_exists. split.
  - intros (d & Hd%list_elem_of_In & E%bool_decide_eq_true). unfold listed in Hd. apply list_elem_of_fmap in Hd as (t & -> & Ht). by exists t.
  - intros (d & Hd & E). eexists. split; [apply list_elem_of_In, list_elem_of_fmap_2, Hd|]. cbn. by apply bool_decide_eq_true.
Qed.
Lemma sorted_lookup l i j s t : sorted l -> l !! i = Some s -> l !! j = Some t -> (i < j)%nat -> by_seq s t.
Proof.
  intros Hl Hi Hj Hij. rewrite <- (take_drop (S i) l) in Hl. apply sorted_app in Hl as (_ & _ & Hl). apply Hl.
  - apply list_elem_of_lookup. exists i. rewrite lookup_take_lt by lia. done.
  - apply list_elem_of_lookup. exists (j - S i)%nat. rewrite lookup_drop. by replace (S i + (j - S i))%nat with j by lia.
Qed.
Lemma listed_lookup l i : listed l !! i = (fun s => mkBackupSnapshot (sn_Name s) (sn_GUID s)) <$> l !! i.
Proof. apply list_lookup_fmap. Qed.

Lemma elem_take {A} n (l : list A) x : x ∈ take n l -> x ∈ l.
Proof. intros Hx. rewrite <- (take_drop n l). apply elem_of_app. by left. Qed.
Lemma elem_drop {A} n (l : list A) x : x ∈ drop n l -> x ∈ l.
Proof. intros Hx. rewrite <- (take_drop n l). apply elem_of_app. by right. Qed.

(** A list of known points, in the order of creation. *)
Record history (T : list Snap) (l : list effect) : Prop := {
  hi_sorted : sorted T; hi_known : forall s, s ∈ T -> known s l; hi_auto : forall s, s ∈ T -> automated s = true }.
#[export] Instance growing_history T : Growing (history T).
Proof. intros l l' [? Hk ?]. split; [done| |done]. intros s Hs. by apply grows, Hk. Qed.
Lemma points_history l : Ordered allowed l -> history (points l) l.
Proof.
  intros Ho. split.
  - apply sorted_filter. by apply ordered_sorted.
  - intros s [_ Hs]%list_elem_of_filter. apply ordered_known; [done|by left].
  - by intros s [? _]%list_elem_of_filter.
Qed.

(** The newest common snapshot is the newest point of the destination. *)
Lemma common_index T l : Ordered allowed l -> history T l ->
  match newest (replay l) with
  | None => newestCommonSnapshot (listed T) (listed (received (replay l))) = (-1)%Z
  | Some x => (exists s, s ∈ T /\ sn_GUID s = sn_GUID x) ->
      exists i s, newestCommonSnapshot (listed T) (listed (received (replay l))) = Z.of_nat i /\ T !! i = Some s /\ plain s = plain x
  end.
Proof.
  intros Ho [Hs Hk Ha]. unfold newestCommonSnapshot. destruct (ordered_safe l Ho) as [Hb _]. unfold base_safe in Hb.
  destruct (last_index_spec (common (listed (received (replay l)))) (listed T) 0 (-1)) as [[-> Hn]|(i & p & -> & Hi & Hp & Hn)].
  - destruct (newest (replay l)) as [x|] eqn:Hx; [|done]. intros (s & HsT & Eg). exfalso.
    assert (Hin : x ∈ received (replay l)) by (unfold newest in Hx; by apply last_elem_of, list_elem_of_filter in Hx as [_ ?]).
    assert (Hc : common (listed (received (replay l))) (mkBackupSnapshot (sn_Name s) (sn_GUID s)) = true) by (apply common_spec; exists x; by split).
    rewrite Hn in Hc; [done|]. unfold listed. apply list_elem_of_fmap. by exists s.
  - rewrite listed_lookup in Hi. destruct (T !! i) as [s|] eqn:ET; [|done]. injection Hi as <-.
    assert (HsT : s ∈ T) by by eapply list_elem_of_lookup_2.
    apply common_spec in Hp as (d & Hd & Ed). cbn in Ed.
    assert (Epl : plain d = plain s) by (apply (known_unique l); [done|apply ordered_known; [done|by right]|by apply Hk|by right; left]).
    assert (Had : automated d = true) by (unfold automated; apply plain_fields in Epl as (-> & _); by apply Ha).
    assert (Hda : d ∈ autos (received (replay l))) by (by apply list_elem_of_filter).
    destruct (newest (replay l)) as [x|] eqn:Hx; [|rewrite Hb in Hd; by apply elem_of_nil in Hd].
    intros (s' & Hs' & Eg). exists i, s. split_and!; [done|done|]. unfold newest in Hx. apply last_Some in Hx as [pre Hpre].
    assert (Hxin : x ∈ received (replay l)).
    { assert (Hx' : x ∈ autos (received (replay l))) by (rewrite Hpre; apply elem_of_app; right; apply list_elem_of_here). by apply list_elem_of_filter in Hx' as [_ ?]. }
    assert (Exs : plain s' = plain x) by (apply (known_unique l); [done|by apply Hk|apply ordered_known; [done|by right]|by right; left]).
    rewrite Hpre in Hda. apply elem_of_app in Hda as [Hda| ->%list_elem_of_singleton]; [exfalso|by symmetry].
    assert (Hlt : by_seq d x).
    { assert (Hsr : sorted (autos (received (replay l)))) by (apply sorted_filter; by apply ordered_sorted). rewrite Hpre in Hsr.
      apply sorted_app in Hsr as (_ & _ & Hsr). apply Hsr; [done|apply list_elem_of_here]. }
    apply list_elem_of_lookup in Hs' as [j Hj].
    assert (Hij : (i < j)%nat).
    { destruct (Nat.lt_trichotomy i j) as [?|[->|Hgt]]; [done| |]; exfalso; apply plain_fields in Exs as (_ & _ & E1 & _), Epl as (_ & _ & E2 & _); unfold by_seq in Hlt.
      - simplify_eq. lia.
      - pose proof (sorted_lookup T j i s' s Hs Hj ET Hgt) as Hl2. unfold by_seq in Hl2. lia. }
    assert (Hc : common (listed (received (replay l))) (mkBackupSnapshot (sn_Name s') (sn_GUID s')) = true) by (apply common_spec; exists x; by split).
    rewrite (Hn j) in Hc; [done|done|]. by rewrite listed_lookup, Hj.
Qed.

Lemma newest_elem l x : newest (replay l) = Some x -> x ∈ received (replay l) /\ automated x = true.
Proof. unfold newest. intros [? ?]%last_elem_of%list_elem_of_filter. done. Qed.

(** What happened since the source was read. *)
Definition since (l0 l : list effect) : Prop := exists l', l = l' ++ l0.
#[export] Instance growing_since l0 : Growing (since l0).
Proof. intros l l' [l2 ->]. exists (l' ++ l2). by rewrite <- app_assoc. Qed.
Lemma known_since l0 l s : since l0 l -> known s l0 -> known s l.
Proof. intros [l' ->]. apply grows. Qed.
Lemma pair_since l0 l s : since l0 l -> known s l0 -> pair (sn_Name s) (sn_GUID s) l.
Proof. intros Hl Hs. exists s. split; [by apply (known_since l0)|done]. Qed.
Lemma points_known l s : Ordered allowed l -> s ∈ points l -> known s l.
Proof. intros Ho. apply points_history. done. Qed.
(** A point of the source now that was known then was a point then. *)
Lemma points_then l0 l s : Ordered allowed l -> since l0 l -> s ∈ source (replay l) -> automated s = true -> known s l0 -> exists s0, s0 ∈ points l0 /\ plain s0 = plain s.
Proof.
  intros Ho [l' ->] Hs Ha Hk. destruct (seen_then l' l0 s Ho Hs Hk) as (s0 & Hs0 & E). exists s0. split; [|done].
  apply list_elem_of_filter. split; [|done]. unfold automated in *. by apply plain_fields in E as (-> & _).
Qed.
Lemma newest_point l x : Ordered allowed l -> newest (replay l) = Some x -> exists s, s ∈ points l /\ plain s = plain x.
Proof.
  intros Ho Hx. destruct (newest_elem l x Hx) as [Hin Ha]. destruct (ordered_safe _ Ho) as [Hb _]. unfold base_safe in Hb. rewrite Hx in Hb.
  destruct Hb as (_ & _ & s & Hs & Eg & _).
  assert (E : plain s = plain x) by (apply (known_unique l); [done|apply ordered_known; [done|by left]|apply ordered_known; [done|by right]|by right; left]).
  exists s. split; [|done]. apply list_elem_of_filter. split; [|done]. unfold automated in *. by apply plain_fields in E as (-> & _).
Qed.

#[export] Instance stable_newest_eq o : Stable (fun l => newest (replay l) = o).
Proof. apply (stable_newest (fun x => x = o)). Qed.
#[export] Instance stable_received_eq L : Stable (fun l => received (replay l) = L).
Proof. apply (stable_received (fun x => x = L)). Qed.
#[export] Instance stable_token_eq o : Stable (fun l => token_of (replay l) = o).
Proof. apply (stable_token (fun x => x = o)). Qed.

(** The newest point of the destination is one of [T]. *)
Definition among (T : list Snap) (s : Snap) : Prop := exists s0, s0 ∈ T /\ plain s0 = plain s.
Definition within (T : list Snap) (l : list effect) : Prop := forall x, newest (replay l) = Some x -> among T x.
#[export] Instance stable_within T : Stable (within T).
Proof. apply (stable_newest (fun o => forall x, o = Some x -> among T x)). Qed.
Lemma within_sent T Last n0 l : (forall x, n0 = Some x -> among T x) -> (forall s, Last s -> among T s) ->
  progress (among T) n0 l \/ whole Last l -> within T l.
Proof.
  intros Hn HL Hp x Hx. destruct Hp as [[E|(s & Hs & E)]|(s & Hs & E)].
  - apply Hn. congruence.
  - assert (x = plain s) as -> by congruence. destruct Hs as (s0 & ? & Es). by exists s0.
  - assert (x = plain s) as -> by congruence. destruct (HL s Hs) as (s0 & ? & Es). by exists s0.
Qed.

(** ** The rules of the calls *)

Lemma tracked_source r (P : list effect -> Prop) `{!Stable P} : tracked P (Source_ r) (fun s l => P l /\ s = listed (points l)) P.
Proof. unfold Source_. apply tracked_reading; [done| |done]. intros l s Ho HP [= <-]. split; [done|]. apply listed_points. Qed.

Lemma tracked_validate r t (P : list effect -> Prop) `{!Stable P} :
  tracked P (ValidateToken r t) (fun _ l => P l /\ exists s, known s l /\ sn_GUID s = tk_toguid t /\ automated s = true) P.
Proof.
  unfold ValidateToken. eapply (tracked_bind _ _ _ _ _ _ _ (fun _ => P)); [apply keeps_look|intros valid].
  eapply (tracked_bind _ _ _ _ _ _ _ (fun _ => P)); [unfold of_result; destruct valid; [by apply tracked_ret|by apply tracked_fail]|intros ok].
  destruct (negb ok); [by apply tracked_fail|]. destruct (split "@" (tk_toname t)) as [|dataset [|name [|? ?]]]; try (by apply tracked_fail).
  destruct (_ && _); [|by apply tracked_fail]. eapply tracked_bind; [by apply tracked_source|]. intros snaps.
  destruct (existsb _ snaps) eqn:E; [|apply tracked_fail; by intros l [? _]]. apply (tracked_conseq _ _ _ _ _ (fun l => P l /\ exists s, known s l /\ sn_GUID s = tk_toguid t /\ automated s = true) _ (fun _ l => P l /\ exists s, known s l /\ sn_GUID s = tk_toguid t /\ automated s = true) _ P); [|done..|by apply tracked_ret].
  intros l Ho [HP ->]. split; [done|]. apply existsb_exists in E as (b & Hb%list_elem_of_In & Eb%andb_true_iff). destruct Eb as [_ Eg%bool_decide_eq_true].
  unfold listed in Hb. apply list_elem_of_fmap in Hb as (s & -> & Hs). exists s. split_and!; [by apply points_known|done|]. by apply list_elem_of_filter in Hs as [? _].
Qed.

Lemma tracked_protect_each r (L : list Snap) kind (P : list effect -> Prop) `{!Stable P} : DestNodeID r = node -> kind = "hold" \/ kind = "transfer" ->
  (forall s l, s ∈ L -> P l -> pair (sn_Name s) (sn_GUID s) l) ->
  tracked P (each (fun s => Protect r (Name s) (DestNodeID r) kind true) (listed L)) (fun _ l => P l /\ forall s, s ∈ L -> tagged (tag_of kind node) (sn_GUID s) l) P.
Proof.
  intros Hn Hk. revert P Stable0. induction L as [|s L IH]; intros P HP Hpair; cbn [listed map each].
  - apply tracked_ret. intros l HPl. split; [done|]. by intros s []%elem_of_nil.
  - fold (listed L). cbn [Name]. pose proof (stable_tagged kind (sn_GUID s) Hk) as Hst. eapply tracked_bind.
    + unfold Protect. apply (tracked_protect _ _ _ _ (sn_GUID s)); [done..|]. intros l. apply Hpair. by constructor.
    + skip. eapply tracked_post; [| |apply (IH (fun l => P l /\ tagged (tag_of kind node) (sn_GUID s) l)); [by apply stable_and|]].
      * intros _ l [[HPl Ht] Hall]. split; [done|]. by intros t [->|Ht']%elem_of_cons; [|apply Hall].
      * by intros l [? _].
      * intros t l Ht [HPl _]. apply Hpair; [by constructor|done].
Qed.

(** ** A stream that is resumed *)

Lemma find_guid_Some g l s : find_guid g l = Some s -> s ∈ l /\ sn_GUID s = g.
Proof. intros [Hin Hn]%List.find_some. split; [by apply list_elem_of_In|by apply bool_decide_eq_true in Hn]. Qed.
(** The destination is as it was when the source was read. *)
Definition same (l0 l : list effect) : Prop := since l0 l /\ received (replay l) = received (replay l0) /\ token_of (replay l) = token_of (replay l0).
#[local] Instance stable_same l0 : Stable (same l0).
Proof. apply stable_and; apply _. Qed.

Lemma resume_fits l0 t l s s1 : Ordered allowed l -> same l0 l -> token_of (replay l0) = Some t -> find_guid (tk_toguid t) (source (replay l)) = Some s ->
  known s1 l -> sn_GUID s1 = tk_toguid t -> automated s1 = true ->
  ends (among (points l0)) [s] /\ fits (among (points l0)) (tk_from t) [s] l.
Proof.
  intros Ho (Hl & Hr & Htk) Ht [Hs Eg]%find_guid_Some Hk1 Eg1 Ha1. destruct Hl as [l' ->].
  assert (Ho0 : Ordered allowed l0) by (by eapply Ordered_app).
  assert (Hks : known s (l' ++ l0)) by (apply ordered_known; [done|by left]).
  assert (Ha : automated s = true).
  { assert (E : plain s = plain s1) by (apply (known_unique (l' ++ l0)); [done..|right; left; congruence]). unfold automated in *. by apply plain_fields in E as (-> & _). }
  destruct (ordered_safe _ Ho) as [_ Hsafe]. destruct (Hsafe t) as (s2 & Hk2 & Eg2 & Hst & Hpos & Hap & Hau); [congruence|].
  destruct (ordered_safe _ Ho0) as [_ Hsafe0]. destruct (Hsafe0 t Ht) as (s3 & Hk3 & Eg3 & _).
  assert (E2 : plain s2 = plain s) by (apply (known_unique (l' ++ l0)); [done..|right; left; congruence]).
  assert (E3 : plain s3 = plain s) by (apply (known_unique (l' ++ l0)); [done|by apply (grows l0 l')|done|right; left; congruence]).
  assert (Hks0 : known s l0) by (destruct Hk3 as (b & Hb & Eb); exists b; split; [done|congruence]).
  assert (Hgood : among (points l0) s) by (apply (points_then l0 (l' ++ l0)); [done|by exists l'|done..]).
  split; [by exists s|]. split.
  - by intros x ->%list_elem_of_singleton.
  - intros x ->%list_elem_of_singleton _. apply plain_fields in E2 as (En2 & Egg & _). rewrite <- Egg. apply Hau; [unfold automated in *; by rewrite En2|].
    by exists s.
  - by intros x ->%list_elem_of_singleton _.
  - by repeat constructor.
  - intros _ y x Hy ->%list_elem_of_singleton. rewrite Forall_forall in Hpos. apply plain_fields in E2 as (_ & _ & E2 & _).
    unfold by_seq in *. rewrite <- E2. by apply Hpos.
  - done.
  - by intros _.
Qed.

Abbreviation anything := (fun _ : list effect => True).
Lemma tracked_any {A} (m : bcmd A) P (Q : A -> list effect -> Prop) R : tracked P m Q R -> tracked P m Q anything.
Proof. by apply tracked_post. Qed.

(** What is known of the destination, when nothing is half received. *)
Definition settled (T : list Snap) (l0 : list effect) (state : BackupState) (l : list effect) : Prop :=
  (since l0 l /\ within T l) /\ Snapshots state = listed (received (replay l)) /\ token_of (replay l) = None.
#[local] Instance stable_settled T l0 state : Stable (settled T l0 state).
Proof. apply stable_and; [apply _|apply stable_and; [apply (stable_received (fun x => _ = listed x))|apply (stable_token (fun x => x = None))]]. Qed.
Lemma within_points l0 l : Ordered allowed l0 -> received (replay l) = received (replay l0) -> within (points l0) l.
Proof. intros Ho E x Hx. apply (newest_point l0 x Ho). unfold newest in *. by rewrite <- E. Qed.

Lemma no_token (o : option Token) : bool_decide (is_Some o) = false -> o = None.
Proof. intros Hn%bool_decide_eq_false. by apply eq_None_not_Some. Qed.

Lemma tracked_resume r l0 state : Ordered allowed l0 -> Snapshots state = listed (received (replay l0)) -> ResumeToken state = token_of (replay l0) ->
  tracked (same l0) (resume_first r (listed (points l0)) state)
    (fun res l => match res with Ok (_, state) => settled (points l0) l0 state l | Err _ => since l0 l /\ within (points l0) l end) anything.
Proof.
  intros Ho0 Hsn Hrt. unfold resume_first. destruct (ResumeToken state) as [t|] eqn:Et.
  2: { apply tracked_ret. intros l (Hl & Hr & Ht). split; [split; [done|by apply within_points]|]. split; [congruence|]. rewrite Ht. by symmetry. }
  set (P := same l0). set (V := fun (_ : unit) l => P l /\ exists s, known s l /\ sn_GUID s = tk_toguid t /\ automated s = true).
  set (S := fun l => since l0 l /\ within (points l0) l).
  assert (HPS : forall l, P l -> S l) by (intros l (? & ? & ?); split; [done|by apply within_points]).
  eapply (tracked_bind _ _ _ _ _ _ _ (fun v l => match v with Ok _ => V tt l | Err _ => P l end)).
  { apply (tracked_attempt _ _ _ _ _ _ V P). eapply tracked_post; [| |by apply (tracked_validate r t P)]; [|done]. by intros [] l Hl. }
  intros v. eapply (tracked_bind _ _ _ _ _ _ _ (fun _ => S)).
  - destruct v as [[]|m].
    + apply (tracked_post _ _ _ _ _ _ (fun res l => match res.2 with None => since l0 l /\ whole (among (points l0)) l
        | Some _ => since l0 l /\ (progress (among (points l0)) (newest (replay l0)) l \/ whole (among (points l0)) l) end) _ (fun _ => False)); [|done|].
      * assert (Hn0 : forall x, newest (replay l0) = Some x -> among (points l0) x) by (intros x; by apply newest_point).
        intros [n [m|]] l [Hl Hw]; (split; [done|]); (eapply within_sent; [exact Hn0| |]); [|exact Hw| |right; exact Hw]; done.
      * apply tracked_send; [apply _|by intros e l _ Hl; apply (grows l [e])| | |].
        -- intros e l Ho Hp Ht [HP (s & Hk & ?)]. split; [by apply stable_same|]. exists s. split; [by apply (grows l [e])|done].
        -- intros l [(Hl & Hr & _) _]. split; [done|left]. unfold newest. by rewrite Hr.
        -- intros l st Ho [HP (s1 & Hk1 & Eg1 & Ha1)] E. cbn [stream_of] in E. destruct (find_guid _ _) as [s|] eqn:Ef; [|done].
           injection E as <-. cbn. by apply (resume_fits l0 t l s s1).
    + eapply (tracked_bind _ _ _ _ _ _ _ (fun _ => P)); [by apply tracked_looking|intros c]. destruct c; [by apply tracked_fail|].
      destruct (negb _); [by apply tracked_fail|]. eapply (tracked_bind _ _ _ _ _ _ _ (fun _ => S)); [|skip; by apply tracked_ret].
      apply (tracked_any _ _ _ S), tracked_abort; [apply stable_same|done|]. intros l Ho (Hl & Hr & _) E _. split; [by apply (grows l [_])|].
      apply within_points; [done|]. by rewrite E.
  - intros [n [m|]]; cbn [fst snd]; [by apply tracked_ret|]. eapply tracked_bind; [by apply (tracked_any _ S _ S), (tracked_state r S)|]. intros state'.
    destruct (bool_decide (is_Some (ResumeToken state'))) eqn:Ek; [by apply tracked_fail|]. apply no_token in Ek.
    apply tracked_ret. intros l (HS & Hsn' & Hrt'). split; [done|]. split; [done|congruence].
Qed.

(** ** The streams to the target *)

Lemma after_guid_cons g s l : after_guid g (s :: l) = if bool_decide (sn_GUID s = g) then l else after_guid g l.
Proof. done. Qed.
Lemma after_guid_spec g l b : b ∈ l -> sn_GUID b = g -> (forall t, t ∈ l -> sn_GUID t = g -> t = b) -> exists l1, l = l1 ++ b :: after_guid g l.
Proof.
  intros Hb Hg. induction l as [|s l IH]; intros Hu; [by apply elem_of_nil in Hb|]. rewrite after_guid_cons. case_bool_decide as E.
  - exists []. assert (s = b) as -> by (apply Hu; [by constructor|done]). done.
  - apply elem_of_cons in Hb as [->|Hb]; [done|]. destruct IH as [l1 E1]; [done|intros t Ht; apply Hu; by constructor|].
    exists (s :: l1). cbn. by rewrite <- E1.
Qed.
Lemma until_name_spec name l k : until_name name l = Some k -> exists k1 e l2, k = k1 ++ [e] /\ sn_Name e = name /\ l = k ++ l2.
Proof.
  revert k. induction l as [|s l IH]; intros k; cbn [until_name]; [done|]. case_decide as E.
  - intros [= <-]. by exists [], s, l.
  - intros (k' & Hk & ->)%fmap_Some. destruct (IH k' Hk) as (k1 & e & l2 & -> & En & ->). by exists (s :: k1), e, l2.
Qed.

(** The newest point of the destination is that one. *)
Definition newest_is (p : Snap) (l : list effect) : Prop := exists x, newest (replay l) = Some x /\ plain x = plain p.
#[export] Instance stable_newest_is p : Stable (newest_is p).
Proof. apply (stable_newest (fun o => exists x, o = Some x /\ plain x = plain p)). Qed.
Lemma whole_newest p l : whole (fun s => plain s = plain p) l -> newest_is p l.
Proof. intros (s & Hs & E). by exists (plain s). Qed.
(** What follows the newest point at the destination is no point. *)
Lemma newest_upto l x : Ordered allowed l -> newest (replay l) = Some x ->
  autos (upto (sn_GUID x) (received (replay l))) = autos (received (replay l)) /\
  forall y, y ∈ upto (sn_GUID x) (received (replay l)) -> (sn_Seq y <= sn_Seq x)%Z.
Proof.
  intros Ho Hx. destruct (newest_elem l x Hx) as [Hin Ha]. pose proof (proj2 (ordered_sorted l Ho)) as Hs.
  destruct (upto_split (sn_GUID x) (received (replay l)) x Hin eq_refl) as (l1 & l2 & E & ->); [intros t Ht Eg; by apply (received_unique l); [..|right]|].
  rewrite E in Hs. apply sorted_app in Hs as (_ & Hs2 & H12). apply StronglySorted_inv in Hs2 as [_ Hlt]. rewrite Forall_forall in Hlt. split.
  - rewrite E. unfold autos. rewrite !filter_app, !filter_cons_True, filter_nil by done. do 2 f_equal. symmetry.
    unfold newest in Hx. rewrite E in Hx. unfold autos in Hx. rewrite filter_app, filter_cons_True in Hx by done.
    destruct (filter (fun s => automated s = true) l2) as [|z l3] eqn:E2; [done|exfalso]. rewrite last_app, last_cons_cons in Hx.
    destruct (last (z :: l3)) as [x'|] eqn:El; [|by apply last_None in El]. injection Hx as ->.
    apply last_elem_of in El. rewrite <- E2 in El. apply list_elem_of_filter in El as [_ El]. specialize (Hlt x El). unfold by_seq in Hlt. lia.
  - intros y [Hy| ->%list_elem_of_singleton]%elem_of_app; [|lia]. specialize (H12 y x Hy (list_elem_of_here _ _)). unfold by_seq in H12. lia.
Qed.

Section Target.
Context (l0 : list effect) (target : nat) (p : Snap).
Hypothesis Ho0 : Ordered allowed l0.
Hypothesis Hp : points l0 !! target = Some p.
Let T := take (S target) (points l0).

Lemma target_known : known p l0.
Proof. apply points_known; [done|]. by eapply list_elem_of_lookup_2. Qed.
(** A point of the source between two points that were read. *)
Lemma among_range l s i b : Ordered allowed l -> since l0 l -> s ∈ source (replay l) -> automated s = true ->
  points l0 !! i = Some b -> (sn_Seq b <= sn_Seq s <= sn_Seq p)%Z -> among (drop i T) s.
Proof.
  intros Ho Hl Hs Ha Hi Hle. destruct (points_then l0 l s) as (s0 & Hs0 & E); [done..| |].
  - destruct Hl as [l' ->]. apply (known_then l' l0 s p); [done|apply ordered_known; [done|by left]|apply target_known|lia].
  - exists s0. split; [|done]. apply list_elem_of_lookup in Hs0 as [j Hj]. pose proof (hi_sorted _ _ (points_history l0 Ho0)) as Hsort.
    apply plain_fields in E as (_ & _ & E & _).
    assert (Hj1 : (j <= target)%nat).
    { destruct (decide (j <= target)%nat) as [?|Hgt]; [done|exfalso]. pose proof (sorted_lookup _ target j p s0 Hsort Hp Hj ltac:(lia)) as Hlt. unfold by_seq in Hlt. lia. }
    assert (Hj2 : (i <= j)%nat).
    { destruct (decide (i <= j)%nat) as [?|Hgt]; [done|exfalso]. pose proof (sorted_lookup _ j i s0 b Hsort Hj Hi ltac:(lia)) as Hlt. unfold by_seq in Hlt. lia. }
    apply list_elem_of_lookup. exists (j - i)%nat. rewrite lookup_drop. replace (i + (j - i))%nat with j by lia. unfold T. by rewrite lookup_take_lt by lia.
Qed.
Lemma among_drop i s : among (drop i T) s -> among T s.
Proof.
  intros (s0 & Hs0 & E). exists s0. split; [by apply (elem_drop i)|done].
Qed.

(** The points that move are held. *)
Definition guarded (L : list Snap) (l : list effect) : Prop := since l0 l /\ forall m, m ∈ L -> tagged (tag_of "transfer" node) (sn_GUID m) l.
#[export] Instance stable_guarded L : Stable (guarded L).
Proof. apply stable_and; [apply _|]. apply stable_all. intros m _. apply stable_tagged. by right. Qed.
Lemma guarded_sent L e l : (exists after s, e = BReceive after s) \/ (exists t, e = BToken t) -> guarded L l -> guarded L (e :: l).
Proof.
  intros He [Hl Hm]. split; [by apply (grows l [e])|]. intros m Hin. destruct (Hm m Hin) as (s & ? & ? & ?). exists s. split_and!; [|done..].
  by destruct He as [(after & s' & ->)|(t & ->)].
Qed.
Lemma guarded_among L s l : guarded L l -> among L s -> tagged (tag_of "transfer" node) (sn_GUID s) l.
Proof. intros [_ Hm] (s0 & Hs0 & E). apply plain_fields in E as (_ & <- & _). by apply Hm. Qed.

(** A snapshot of the source with the name of one that was read. *)
Lemma find_point l i b s : Ordered allowed l -> since l0 l -> points l0 !! i = Some b -> find_snap (sn_Name b) (source (replay l)) = Some s ->
  s ∈ source (replay l) /\ plain s = plain b /\ automated s = true.
Proof.
  intros Ho Hl Hb [Hs En]%find_snap_Some. assert (Hb' : b ∈ points l0) by (by eapply list_elem_of_lookup_2).
  assert (E : plain s = plain b).
  { apply (known_unique l); [done|apply ordered_known; [done|by left]| |by left]. apply (known_since l0); [done|by apply points_known]. }
  split_and!; [done..|]. unfold automated. rewrite En. by apply list_elem_of_filter in Hb' as [? _].
Qed.

Lemma full_fits l b s : Ordered allowed l -> guarded T l -> received (replay l) = [] -> points l0 !! 0%nat = Some b ->
  find_snap (sn_Name b) (source (replay l)) = Some s -> ends (fun s => plain s = plain b) [s] /\ fits (among T) None [s] l.
Proof.
  intros Ho Hg Hr Hb Hf. destruct (find_point l 0 b s Ho (proj1 Hg) Hb Hf) as (Hs & E & Ha).
  assert (Ham : among T s).
  { exists b. split; [|done]. unfold T. apply list_elem_of_lookup. exists 0%nat. by rewrite lookup_take_lt by lia. }
  split; [by exists s|]. split.
  - intros x ->%list_elem_of_singleton. apply ordered_known; [done|by left].
  - intros x ->%list_elem_of_singleton _. by apply (guarded_among T).
  - by intros x ->%list_elem_of_singleton _.
  - by repeat constructor.
  - intros _ y x []%elem_of_nil.
  - intros _. by rewrite Hr.
  - by intros _.
Qed.

Lemma since_fits l i b st : Ordered allowed l -> guarded (drop i T) l -> points l0 !! i = Some b -> newest_is b l ->
  stream_of (SendSince (sn_Name b) (sn_Name p)) (source (replay l)) = Some st ->
  ends (fun s => plain s = plain p) (st_snaps st) /\ fits (among T) (st_from st) (st_snaps st) l.
Proof.
  intros Ho Hg Hb (x & Hx & Ex) Hst. cbn [stream_of] in Hst. destruct (find_snap (sn_Name b) _) as [b'|] eqn:Eb; [|done]. cbn in Hst.
  destruct (until_name _ _) as [k|] eqn:Ek; [|done]. injection Hst as <-. cbn [st_snaps st_from].
  pose proof (proj1 Hg) as Hl. destruct (find_point l i b b' Ho Hl Hb Eb) as (Hb' & Epb & _).
  destruct (after_guid_spec (sn_GUID b') (source (replay l)) b' Hb' eq_refl) as [l1 E1]; [intros t Ht Eg; by apply (source_unique l); [..|right]|].
  destruct (until_name_spec _ _ _ Ek) as (k1 & e & l2 & -> & Ene & E2). rewrite E2 in E1.
  pose proof (proj1 (ordered_sorted l Ho)) as Hs. rewrite E1 in Hs. apply sorted_app in Hs as (_ & Hs & _).
  apply StronglySorted_inv in Hs as [Hs Hlt]. apply sorted_app in Hs as (Hk & _ & _). rewrite Forall_forall in Hlt.
  assert (Hin : forall s, s ∈ k1 ++ [e] -> s ∈ source (replay l) /\ by_seq b' s).
  { intros s Hs'. split; [|apply Hlt, elem_of_app; by left]. rewrite E1. apply elem_of_app. right. apply list_elem_of_further, elem_of_app. by left. }
  assert (He : e ∈ k1 ++ [e]) by (apply elem_of_app; right; apply list_elem_of_here).
  assert (Epe : plain e = plain p).
  { apply (known_unique l); [done|apply ordered_known; [done|left; by apply Hin]|apply (known_since l0); [done|apply target_known]|by left]. }
  assert (Hle : forall s, s ∈ k1 ++ [e] -> (sn_Seq s <= sn_Seq p)%Z).
  { apply plain_fields in Epe as (_ & _ & <- & _). intros s [Hs'| ->%list_elem_of_singleton]%elem_of_app; [|lia].
    apply sorted_app in Hk as (_ & _ & Hk). specialize (Hk s e Hs' (list_elem_of_here _ _)). unfold by_seq in Hk. lia. }
  assert (Ham : forall s, s ∈ k1 ++ [e] -> automated s = true -> among (drop i T) s).
  { intros s Hs' Ha. destruct (Hin s Hs') as [Hsrc Hb2]. apply (among_range l s i b); [done..|]. apply plain_fields in Epb as (_ & _ & Epb & _). unfold by_seq in Hb2.
    specialize (Hle s Hs'). lia. }
  assert (Hae : automated e = true).
  { unfold automated. rewrite Ene. assert (Hpin : p ∈ points l0) by (by eapply list_elem_of_lookup_2). by apply list_elem_of_filter in Hpin as [? _]. }
  assert (Egx : sn_GUID b' = sn_GUID x) by (apply plain_fields in Epb as (_ & -> & _), Ex as (_ & <- & _); done).
  destruct (newest_upto l x Ho Hx) as [Hau Hseq].
  split; [exists e; by rewrite last_snoc|]. split.
  - intros s Hs'. apply ordered_known; [done|left; by apply Hin].
  - intros s Hs' Ha. apply (guarded_among (drop i T)); [done|by apply Ham].
  - intros s Hs' Ha. by apply (among_drop i), Ham.
  - done.
  - intros _ y s Hy Hs'. cbn [base_of] in Hy. rewrite Egx in Hy. specialize (Hseq y Hy). destruct (Hin s Hs') as [_ Hb2].
    apply plain_fields in Epb as (_ & _ & Epb & _), Ex as (_ & _ & Ex & _). unfold by_seq in *. lia.
  - intros _. cbn [base_of]. by rewrite Egx.
  - congruence.
Qed.

Lemma point_among i b x : points l0 !! i = Some b -> (i <= target)%nat -> plain x = plain b -> among T x.
Proof.
  intros Hb Hi E. exists b. split; [|done]. apply list_elem_of_lookup. exists i. unfold T. by rewrite lookup_take_lt by lia.
Qed.
(** The outcome of the streams. *)
Definition arrived (q : Snap) (res : Z * option string) (l : list effect) : Prop :=
  match res.2 with None => since l0 l /\ newest_is q l | Some _ => since l0 l /\ within T l end.
(** A stream that brings the points up to [q]. *)
Lemma tracked_brings r a L (P : list effect -> Prop) q n0 `{!Stable P} : among T q -> (forall x, n0 = Some x -> among T x) ->
  (forall l, P l -> guarded L l /\ newest (replay l) = n0) ->
  (forall l st, Ordered allowed l -> P l -> stream_of a (source (replay l)) = Some st ->
     ends (fun s => plain s = plain q) (st_snaps st) /\ fits (among T) (st_from st) (st_snaps st) l) ->
  tracked P (Send r a) (fun res l => arrived q res l /\ (res.2 = None -> guarded L l)) (fun _ => False).
Proof.
  intros Hq Hn0 HP Hst.
  apply (tracked_post _ _ _ _ _ _ (fun res l => match res.2 with None => guarded L l /\ whole (fun s => plain s = plain q) l
    | Some _ => guarded L l /\ (progress (among T) n0 l \/ whole (fun s => plain s = plain q) l) end) _ (fun _ => False)); [|done|].
  - intros [n [m|]] l [Hg Hw]; unfold arrived; cbn [snd] in *.
    + split; [|done]. split; [apply Hg|]. apply (within_sent T (fun s => plain s = plain q) n0); [done| |done]. intros s E.
      destruct Hq as (s0 & ? & E0). exists s0. split; [done|congruence].
    + split; [|done]. split; [apply Hg|by apply whole_newest].
  - apply tracked_send; [apply _|by intros e l; apply guarded_sent|done| |done].
    intros l HPl. destruct (HP l HPl) as [? ?]. split; [done|by left].
Qed.

Lemma tracked_since r i b : points l0 !! i = Some b -> (i <= target)%nat ->
  tracked (fun l => guarded (drop i T) l /\ newest_is b l) (Send r (SendSince (sn_Name b) (sn_Name p))) (arrived p) (fun _ => False).
Proof.
  intros Hb Hi. apply (tracked_pre _ _ _ _ _ (fun l => exists x, plain x = plain b /\ guarded (drop i T) l /\ newest (replay l) = Some x)).
  { intros l (Hg & x & Hx & E). by exists x. }
  apply tracked_ex. intros x. apply tracked_pure. intros E.
  apply (tracked_post _ _ _ _ _ _ (fun res l => arrived p res l /\ (res.2 = None -> guarded (drop i T) l)) _ (fun _ => False)); [by intros res l [? _]|done|].
  apply (tracked_brings _ _ _ _ p (Some x)).
  - by apply (point_among target p).
  - intros y [= <-]. by apply (point_among i b).
  - done.
  - intros l st Ho [Hg Hx]. apply (since_fits l i b); [done..|]. by exists x.
Qed.
Lemma tracked_full r b : points l0 !! 0%nat = Some b ->
  tracked (fun l => guarded T l /\ received (replay l) = []) (Send r (SendFull (sn_Name b))) (fun res l => arrived b res l /\ (res.2 = None -> guarded T l)) (fun _ => False).
Proof.
  intros Hb. apply (tracked_brings _ _ _ _ b None).
  - apply (point_among 0 b); [done|lia|done].
  - done.
  - intros l [Hg Hr]. split; [done|]. unfold newest. by rewrite Hr.
  - intros l st Ho [Hg Hr] E. cbn [stream_of] in E. destruct (find_snap _ _) as [s|] eqn:Ef; [|done]. injection E as <-. cbn. by apply (full_fits l).
Qed.

Lemma listed_point i b : points l0 !! i = Some b -> (i <= target)%nat -> nth_name (listed T) (Z.of_nat i) = sn_Name b.
Proof. intros Hb Hi. unfold nth_name. rewrite Nat2Z.id, listed_lookup. unfold T. by rewrite lookup_take_lt, Hb by lia. Qed.

(** What the destination has, by the index of the newest common snapshot. *)
Definition based (base : Z) (l : list effect) : Prop :=
  if (base <? 0)%Z then received (replay l) = [] else exists b, points l0 !! Z.to_nat base = Some b /\ newest_is b l.
#[export] Instance stable_based base : Stable (based base).
Proof.
  unfold based. destruct (_ <? _)%Z; [apply _|]. intros e l Ho Hp' Ht (b & Hb & Hn). exists b. split; [done|].
  by apply stable_newest_is.
Qed.
Lemma tracked_missing r base : (base <= Z.of_nat target)%Z ->
  tracked (fun l => guarded (drop (Z.to_nat (if (base <? 0)%Z then 0%Z else base)) T) l /\ based base l)
    (send_missing r (listed T) base (Z.of_nat target)) (arrived p) (fun _ => False).
Proof.
  intros Hle. unfold send_missing, based. destruct (Z.ltb_spec base (Z.of_nat target)) as [Hlt|Hge].
  - assert (Hlast : forall i b (n : Z), points l0 !! i = Some b -> (i <= target)%nat ->
      tracked (fun l => guarded (drop i T) l /\ newest_is b l)
        (if (Z.of_nat i <? Z.of_nat target)%Z
         then x ← Send r (SendSince (nth_name (listed T) (Z.of_nat i)) (nth_name (listed T) (Z.of_nat target))); ret (n + x.1, x.2)%Z
         else ret (n, None)) (arrived p) (fun _ => False)).
    { intros i b n Hb Hi. rewrite (listed_point i b), (listed_point target p) by done. destruct (Z.ltb_spec (Z.of_nat i) (Z.of_nat target)) as [Hlt'|Hge'].
      - eapply tracked_bind; [by apply tracked_since|]. intros [z o]. by apply tracked_ret.
      - assert (i = target) as -> by lia. simplify_eq. apply tracked_ret. intros l [[? _] ?]. done. }
    destruct (Z.ltb_spec base 0) as [Hneg|Hpos].
    + assert (Hb : exists b, points l0 !! 0%nat = Some b).
      { apply lookup_lt_is_Some. apply lookup_lt_Some in Hp. lia. }
      destruct Hb as [b Hb]. pose proof (listed_point 0 b Hb ltac:(lia)) as En. change (Z.of_nat 0) with 0%Z in En. rewrite En.
      eapply tracked_bind; [apply (tracked_full r b Hb)|]. intros [n [m|]]; unfold arrived at 1; cbn [fst snd]; [by apply tracked_ret; intros l [? _]|].
      apply (tracked_pre _ _ _ _ _ (fun l => guarded (drop 0 T) l /\ newest_is b l)); [by intros l ([_ ?] & Hg); split; [apply Hg|]|].
      pose proof (Hlast 0%nat b n Hb ltac:(lia)) as Hl0. change (Z.of_nat 0) with 0%Z in Hl0. rewrite En in Hl0. exact Hl0.
    + eapply (tracked_bind _ _ _ _ _ _ _ (fun first l => first = (0%Z, None) /\ (guarded (drop (Z.to_nat base) T) l /\ exists b, points l0 !! Z.to_nat base = Some b /\ newest_is b l))); [by apply tracked_ret|].
      intros first. apply tracked_pure. intros ->. cbn [fst snd]. replace base with (Z.of_nat (Z.to_nat base)) by lia. rewrite Nat2Z.id.
      apply (tracked_pre _ _ _ _ _ (fun l => exists b, points l0 !! Z.to_nat base = Some b /\ guarded (drop (Z.to_nat base) T) l /\ newest_is b l)).
      { intros l (Hg & b & Hb & Hn). by exists b. }
      apply tracked_ex. intros b. apply tracked_pure. intros Hb. apply (Hlast _ b 0%Z Hb). lia.
  - assert (base = Z.of_nat target) as -> by lia. rewrite (proj2 (Z.ltb_ge _ _)) by lia. rewrite Nat2Z.id. apply tracked_ret.
    intros l ([Hl _] & b & Hb & Hn). simplify_eq. done.
Qed.
End Target.

(** ** What is released *)

Lemma history_take T l n : history T l -> history (take n T) l.
Proof.
  intros [Hs Hk Ha]. split.
  - eapply sorted_prefix; [|exact Hs]. apply prefix_take.
  - intros s Hin. apply Hk. by apply (elem_take n).
  - intros s Hin. apply Ha. by apply (elem_take n).
Qed.
Lemma listed_take n L : take n (listed L) = listed (take n L).
Proof. unfold listed. by rewrite <- fmap_take. Qed.
Lemma listed_drop n L : drop n (listed L) = listed (drop n L).
Proof. unfold listed. by rewrite <- fmap_drop. Qed.
Lemma listed_app L1 L2 : listed L1 ++ listed L2 = listed (L1 ++ L2).
Proof. unfold listed. by rewrite map_app. Qed.

Lemma tracked_hold r x : DestNodeID r = node -> tracked (at_point x) (Protect r (sn_Name x) (DestNodeID r) "hold" true) (fun _ => held_at x) anything.
Proof.
  intros Hn. apply (tracked_conseq _ _ _ _ _ (fun l => at_point x l /\ pair (sn_Name x) (sn_GUID x) l) _
    (fun _ l => (at_point x l /\ pair (sn_Name x) (sn_GUID x) l) /\ tagged (tag_of "hold" node) (sn_GUID x) l) _ (fun l => at_point x l /\ pair (sn_Name x) (sn_GUID x) l)).
  - intros l Ho Hat. split; [done|]. exists x. split; [|done]. apply ordered_known; [done|right]. by apply (newest_elem l x), Hat.
  - intros _ l _ [[? ?] ?]. by split.
  - done.
  - unfold Protect. apply tracked_protect; [apply _|done|by left|]. by intros l [_ ?].
Qed.
Lemma keeps_release r x name kind : DestNodeID r = node -> kind = "hold" \/ kind = "transfer" -> kind = "transfer" \/ name <> sn_Name x ->
  keeps (held_at x) (Protect r name (DestNodeID r) kind false).
Proof.
  intros Hn Hk Hother. unfold Protect. apply tracked_unprotect; [apply _|]. rewrite Hn. intros l Ho Hp Hl.
  destruct (release_held x kind name (fun _ => True) l Hk Hother Ho Hp) as (? & _ & ?); done.
Qed.
Lemma keeps_release_older r x L : DestNodeID r = node -> keeps (held_at x) (each (release_older r (sn_Name x)) L).
Proof.
  intros Hn. apply tracked_every. intros s _. unfold release_older.
  eapply (tracked_bind _ _ _ _ _ _ _ (fun _ => held_at x)); [|skip; apply keeps_release; [done|by right|by left]].
  case_decide; [by apply tracked_ret|]. apply keeps_release; [done|by left|by right].
Qed.
Lemma keeps_release_all r x L : DestNodeID r = node -> keeps (held_at x) (each (fun s => Protect r s (DestNodeID r) "transfer" false) L).
Proof. intros Hn. apply tracked_every. intros s _. apply keeps_release; [done|by right|by left]. Qed.

(** Nothing is at the destination, or what is there is no point yet. *)
Definition empty_there (l : list effect) : Prop := newest (replay l) = None /\ token_of (replay l) = None.
Lemma keeps_release_empty r L : keeps empty_there (each (fun s => Protect r s (DestNodeID r) "transfer" false) L).
Proof.
  apply tracked_every. intros s _. unfold Protect. apply tracked_unprotect; [apply stable_and; apply _|].
  intros l Ho Hp [Hn Ht]. split; [|done]. apply release_allowed; [done..|]. by rewrite Hn.
Qed.

(** ** After a stream that failed *)

(** Where the newest common snapshot is. *)
Lemma common_found T l : Ordered allowed l -> history T l -> within T l ->
  match newest (replay l) with
  | None => newestCommonSnapshot (listed T) (listed (received (replay l))) = (-1)%Z /\ received (replay l) = []
  | Some x => exists i s, newestCommonSnapshot (listed T) (listed (received (replay l))) = Z.of_nat i /\ T !! i = Some s /\ plain s = plain x
  end.
Proof.
  intros Ho Hh Hw. pose proof (common_index T l Ho Hh) as Hc. destruct (ordered_safe l Ho) as [Hb _]. unfold base_safe in Hb.
  destruct (newest (replay l)) as [x|] eqn:Hx; [|done]. destruct (Hw x Hx) as (s & Hs & E). apply Hc. exists s. split; [done|].
  by apply plain_fields in E as (_ & ? & _).
Qed.
Lemma history_names T l i s t : Ordered allowed l -> history T l -> T !! i = Some s -> t ∈ take i T ++ drop (S i) T -> sn_Name t <> sn_Name s.
Proof.
  intros Ho [Hs Hk Ha] Hi Ht E. assert (Hlt : by_seq t s \/ by_seq s t).
  { apply elem_of_app in Ht as [(j & Ht)%list_elem_of_lookup|(j & Ht)%list_elem_of_lookup].
    - left. apply lookup_take_Some in Ht as [Ht Hj]. by apply (sorted_lookup T j i).
    - right. rewrite lookup_drop in Ht. apply (sorted_lookup T i (S i + j)); [done..|lia]. }
  assert (Htin : t ∈ T).
  { apply elem_of_app in Ht as [Ht|Ht]; [by apply (elem_take i)|by apply (elem_drop (S i))]. }
  assert (Ep : plain t = plain s) by (apply (known_unique l); [done|by apply Hk|apply Hk; by eapply list_elem_of_lookup_2|by left]).
  apply plain_fields in Ep as (_ & _ & Ep & _). unfold by_seq in Hlt. lia.
Qed.

Lemma tracked_order r protected (P : list effect -> Prop) : (forall L, keeps P (each (fun s => Protect r s (DestNodeID r) "transfer" false) L)) ->
  tracked P (order ← look (fun l => shuffle l protected); each (fun s => Protect r s (DestNodeID r) "transfer" false) order) (fun _ => anything) anything.
Proof.
  intros Hk. eapply (tracked_bind _ _ _ _ _ _ _ (fun _ => P)); [by apply tracked_looking|intros order]. by apply (tracked_post _ _ _ _ _ _ (fun _ => P) _ P).
Qed.
Lemma tracked_reconcile r protected T l0 : DestNodeID r = node -> Ordered allowed l0 -> history T l0 ->
  tracked (fun l => since l0 l /\ within T l) (reconcile r protected (listed T)) (fun _ => anything) anything.
Proof.
  intros Hn Ho0 Hh. unfold reconcile. set (P := fun l => since l0 l /\ within T l).
  eapply tracked_bind; [by apply (tracked_any _ P _ P), (tracked_state r P)|]. intros current.
  destruct (bool_decide (is_Some (ResumeToken current))) eqn:Et; [by apply tracked_ret|]. apply no_token in Et.
  destruct (_ && _) eqn:Estop; [by apply tracked_ret|]. clear Estop.
  assert (Hfound : forall l, Ordered allowed l -> P l /\ Snapshots current = listed (received (replay l)) /\ ResumeToken current = token_of (replay l) ->
    (newestCommonSnapshot (listed T) (Snapshots current) = (-1)%Z /\ empty_there l) \/
    exists i s x, newestCommonSnapshot (listed T) (Snapshots current) = Z.of_nat i /\ T !! i = Some s /\ plain s = plain x /\ at_point x l).
  { intros l Ho ([[l' ->] Hw] & Es & Ek). pose proof (common_found T (l' ++ l0) Ho (growing_history T _ _ Hh) Hw) as Hc. rewrite Es.
    unfold empty_there, at_point. destruct (newest (replay (l' ++ l0))) as [x|] eqn:Hx.
    - destruct Hc as (i & s & ? & ? & ?). right. exists i, s, x. split_and!; [done..|congruence].
    - left. split; [apply Hc|]. split; [done|congruence]. }
  destruct (Z.ltb_spec (newestCommonSnapshot (listed T) (Snapshots current)) 0) as [Hneg|Hpos].
  - apply (tracked_conseq _ _ _ _ _ empty_there _ (fun _ => anything) _ anything); [|done..|].
    + intros l Ho Hl. destruct (Hfound l Ho Hl) as [[_ ?]|(i & s & x & E & _)]; [done|lia].
    + eapply (tracked_bind _ _ _ _ _ _ _ (fun _ => empty_there)); [by apply tracked_ret|skip]. apply tracked_order, keeps_release_empty.
  - apply (tracked_conseq _ _ _ _ _ (fun l => exists x, (exists i s, newestCommonSnapshot (listed T) (Snapshots current) = Z.of_nat i /\ T !! i = Some s /\ plain s = plain x) /\ at_point x l) _ (fun _ => anything) _ anything); [|done..|].
    + intros l Ho Hl. destruct (Hfound l Ho Hl) as [[E _]|(i & s & x & E & Hi & Ep & Hat)]; [lia|]. exists x. split; [by exists i, s|done].
    + apply tracked_ex. intros x. apply tracked_pure. intros (i & s & -> & Hi & Ep). rewrite Nat2Z.id.
      assert (En : nth_name (listed T) (Z.of_nat i) = sn_Name x).
      { unfold nth_name. rewrite Nat2Z.id, listed_lookup, Hi. by apply plain_fields in Ep as (? & _). }
      rewrite En, listed_take, listed_drop, listed_app.
      eapply (tracked_bind _ _ _ _ _ _ _ (fun _ => held_at x)).
      * eapply (tracked_bind _ _ _ _ _ _ _ (fun _ => held_at x)); [by apply tracked_hold|skip].
        apply (tracked_any _ (held_at x) _ (held_at x)), tracked_every. intros b Hb. unfold listed in Hb. apply list_elem_of_fmap in Hb as (t & -> & Ht).
        apply keeps_release; [done|by left|right]. cbn. apply plain_fields in Ep as (<- & _). by apply (history_names T l0 i).
      * skip. apply tracked_order. intros L. by apply keeps_release_all.
Qed.

(** ** A replication *)

(** The index of the newest common snapshot is one of [T], or none. *)
Lemma common_bound T R : newestCommonSnapshot (listed T) R = (-1)%Z \/ exists i s, newestCommonSnapshot (listed T) R = Z.of_nat i /\ T !! i = Some s.
Proof.
  unfold newestCommonSnapshot. destruct (last_index_spec (common R) (listed T) 0 (-1)) as [[-> _]|(i & b & -> & Hi & _)]; [by left|right].
  rewrite listed_lookup in Hi. destruct (T !! i) as [s|] eqn:E; [|done]. exists i, s. split; [lia|done].
Qed.
Lemma target_found name T : (target_index name (listed T) <? 0)%Z = false -> exists i s, target_index name (listed T) = Z.of_nat i /\ T !! i = Some s /\ sn_Name s = name.
Proof.
  unfold target_index. destruct (last_index_spec (fun s => bool_decide (Name s = name)) (listed T) 0 (-1)) as [[-> _]|(i & b & -> & Hi & Hn%bool_decide_eq_true & _)]; [done|]. intros _.
  rewrite listed_lookup in Hi. destruct (T !! i) as [s|] eqn:E; [|done]. injection Hi as <-. exists i, s. split_and!; [lia|done..].
Qed.

(** How a replication from [l0] ends: with the point that was asked for, or a
    later one, held; or with a stream that failed. *)
Definition reached (p : Snap) (l : list effect) : Prop :=
  exists x, held_at x l /\ automated x = true /\ (sn_Seq p <= sn_Seq x)%Z.
Definition finishes (p : Snap) (l0 : list effect) (f : finish) (l : list effect) : Prop :=
  match f with
  | Finished _ => reached p l
  | SendFailed _ src _ => exists T, src = listed T /\ history T l0 /\ since l0 l /\ within T l
  end.

(** From the target on: the streams, and what is held in the end. *)
Lemma settled_based T0 l0 state l : Ordered allowed l -> history T0 l0 -> settled T0 l0 state l -> T0 = points l0 ->
  since l0 l /\ based l0 (newestCommonSnapshot (listed T0) (Snapshots state)) l.
Proof.
  intros Ho Hh ((Hl & Hw) & Es & _) E. split; [done|]. pose proof Hl as [l' El].
  pose proof (common_found T0 l Ho ltac:(rewrite El; by apply growing_history) Hw) as Hc. rewrite Es. unfold based.
  destruct (newest (replay l)) as [x|] eqn:Hx.
  - destruct Hc as (i & s & -> & Hi & Ep). rewrite (proj2 (Z.ltb_ge _ _)), Nat2Z.id by lia. subst T0. exists s. split; [done|]. exists x. by split.
  - destruct Hc as [-> Hr]. done.
Qed.

Lemma tracked_verified r q snapshot (stale : bool) (source : list BackupSnapshot) (bytes : Z) (p : Snap) : DestNodeID r = node -> snapshot = sn_Name q -> (sn_Seq p <= sn_Seq q)%Z ->
  tracked (fun l => newest_is q l /\ token_of (replay l) = None)
    (Protect r snapshot (DestNodeID r) "hold" true;; each (release_older r snapshot) source;;
     pruned ← (if stale then ret (Ok tt) else attempt (Prune r));
     ret (Finished (mkResult (JobID r) bytes (match pruned with Ok _ => "" | Err m => m end))))
    (fun f l => match f with Finished _ => reached p l | _ => False end) anything.
Proof.
  intros Hn -> Hle. apply (tracked_conseq _ _ _ _ _ (fun l => exists x, (plain x = plain q /\ automated x = true) /\ at_point x l) _
    (fun f l => match f with Finished _ => reached p l | _ => False end) _ anything); [|done..|].
  - intros l Ho [(x & Hx & E) Ht]. exists x. split; [|done]. split; [done|]. by apply (newest_elem l).
  - apply tracked_ex. intros x. apply tracked_pure. intros [E Ha]. apply plain_fields in E as (<- & _ & Es & _).
    eapply (tracked_bind _ _ _ _ _ _ _ (fun _ => held_at x)); [by apply tracked_hold|skip].
    eapply (tracked_bind _ _ _ _ _ _ _ (fun _ => held_at x)); [by apply (tracked_any _ (held_at x) _ (held_at x)), keeps_release_older|skip].
    eapply (tracked_bind _ _ _ _ _ _ _ (fun _ => held_at x)).
    + destruct stale; [by apply tracked_ret|]. apply tracked_try, tracked_prune.
    + intros pruned. apply tracked_ret. intros l Hh. exists x. split_and!; [done..|lia].
Qed.

Lemma tracked_catch_up r l0 t q state bytes resumed (stale : bool) base (p : Snap) : DestNodeID r = node -> Ordered allowed l0 -> points l0 !! t = Some q ->
  base = newestCommonSnapshot (listed (points l0)) (Snapshots state) -> (base <= Z.of_nat t)%Z -> (sn_Seq p <= sn_Seq q)%Z ->
  let source := listed (take (S t) (points l0)) in
  let moving := drop (Z.to_nat (if (base <? 0)%Z then 0%Z else base)) source in
  tracked (settled (points l0) l0 state)
    (each (fun s => Protect r (Name s) (DestNodeID r) "transfer" true) moving;;
     sent ← send_missing r source base (Z.of_nat t);
     match sent.2 with
     | Some m => ret (SendFailed (remove_dups (resumed ++ map Name moving)) source m)
     | None =>
         state ← State r;
         if bool_decide (is_Some (ResumeToken state)) then fail "receive verification found pending resume state"
         else if negb (forallb (fun s => existsb (fun d => bool_decide (GUID d = GUID s)) (Snapshots state)) moving)
         then fail "destination snapshot GUID verification failed"
         else
           Protect r (sn_Name q) (DestNodeID r) "hold" true;;
           each (release_older r (sn_Name q)) source;;
           pruned ← (if stale then ret (Ok tt) else attempt (Prune r));
           ret (Finished (mkResult (JobID r) (bytes + sent.1) (match pruned with Ok _ => "" | Err m => m end)))
     end) (finishes p l0) anything.
Proof.
  intros Hn Ho0 Hq Hbase Hle Hpq. cbv zeta. set (T := take (S t) (points l0)). set (n := Z.to_nat _). rewrite listed_drop.
  pose proof (points_history l0 Ho0) as Hh. pose proof (history_take _ l0 (S t) Hh) as HhT.
  set (P := fun l => since l0 l /\ based l0 base l).
  apply (tracked_conseq _ _ _ _ _ P _ (finishes p l0) _ anything); [intros l Ho Hs; unfold P; rewrite Hbase; by apply settled_based|done..|].
  eapply (tracked_bind _ _ _ _ _ _ _ (fun _ l => guarded l0 (drop n T) l /\ based l0 base l)).
  - apply (tracked_post _ _ _ _ _ _ (fun _ l => P l /\ forall s, s ∈ drop n T -> tagged (tag_of "transfer" node) (sn_GUID s) l) _ P); [by intros _ l [[? ?] ?]|done|].
    apply tracked_protect_each; [apply stable_and; apply _|done|by right|]. intros s l Hs [Hl _]. apply (pair_since l0); [done|]. apply (hi_known _ _ HhT). by apply (elem_drop n).
  - skip. eapply (tracked_bind _ _ _ _ _ _ _ (arrived l0 t q)).
    + apply (tracked_post _ _ _ _ _ _ (arrived l0 t q) _ (fun _ => False)); [done..|]. by apply tracked_missing.
    + intros [z [m|]]; unfold arrived; cbn [fst snd]; [apply tracked_ret; intros l [? ?]; by exists T|].
      eapply tracked_bind; [by apply (tracked_any _ (fun l => since l0 l /\ newest_is q l) _ (fun l => since l0 l /\ newest_is q l)), tracked_state; apply stable_and; apply _|].
      intros state'. destruct (bool_decide (is_Some (ResumeToken state'))) eqn:Et; [by apply tracked_fail|]. apply no_token in Et.
      destruct (negb _); [by apply tracked_fail|]. apply (tracked_pre _ _ _ _ _ (fun l => newest_is q l /\ token_of (replay l) = None)).
      { intros l ([_ ?] & _ & Ek). split; [done|congruence]. }
      eapply (tracked_post _ _ _ _ _ _ (fun f l => match f with Finished _ => reached p l | _ => False end) _ anything); [|done|by apply tracked_verified].
      by intros [].
Qed.

Lemma tracked_replicate_to r l0 target p : DestNodeID r = node -> Ordered allowed l0 -> points l0 !! target = Some p -> sn_Name p = Snapshot r ->
  tracked (same l0) (replicate_to r (listed (points l0)) (Z.of_nat target)) (finishes p l0) anything.
Proof.
  intros Hn Ho0 Hp Hname. unfold replicate_to. eapply tracked_bind; [by apply (tracked_any _ (same l0) _ (same l0)), tracked_state, _|]. intros first.
  apply (tracked_pre _ _ _ _ _ (fun l => (Snapshots first = listed (received (replay l0)) /\ ResumeToken first = token_of (replay l0)) /\ same l0 l)).
  { intros l ((Hl & Hr & Ht) & Es & Ek). split; [split; congruence|done]. }
  apply tracked_pure. intros [Es Ek]. eapply tracked_bind; [by apply tracked_resume|]. intros [[bytes state]|[protected m]].
  2: { apply tracked_ret. intros l [Hl Hw]. exists (points l0). split_and!; [done|by apply points_history|done..]. }
  set (base := newestCommonSnapshot (listed (points l0)) (Snapshots state)). cbv zeta. destruct (_ && _); [by apply tracked_fail|].
  assert (Ht : exists t q, (if (Z.of_nat target <? base)%Z then base else Z.of_nat target) = Z.of_nat t /\ points l0 !! t = Some q /\
    (if (Z.of_nat target <? base)%Z then nth_name (listed (points l0)) (Z.of_nat t) else Snapshot r) = sn_Name q /\ (base <= Z.of_nat t)%Z /\ (sn_Seq p <= sn_Seq q)%Z).
  { destruct (Z.ltb_spec (Z.of_nat target) base) as [Hlt|Hge].
    - destruct (common_bound (points l0) (Snapshots state)) as [E|(i & q & E & Hi)]; fold base in E; [lia|]. exists i, q. split_and!; [done|done| |lia|].
      + unfold nth_name. by rewrite Nat2Z.id, listed_lookup, Hi.
      + pose proof (sorted_lookup _ target i p q (hi_sorted _ _ (points_history l0 Ho0)) Hp Hi ltac:(lia)) as Hl. unfold by_seq in Hl. lia.
    - exists target, p. split_and!; [done..|lia|lia]. }
  destruct Ht as (t & q & -> & Hq & -> & Hle & Hpq). rewrite Nat2Z.id, listed_take.
  apply (tracked_catch_up r l0 t q state bytes _ _ base p); done.
Qed.

Lemma tracked_replicate_backup r : DestNodeID r = node ->
  tracked anything (ReplicateBackup r) (fun _ l => exists p, known p l /\ sn_Name p = Snapshot r /\ reached p l) anything.
Proof.
  intros Hn. unfold ReplicateBackup. destruct (_ || _); [by apply tracked_fail|]. eapply tracked_bind; [by apply (tracked_source r anything)|]. intros src.
  destruct (target_index (Snapshot r) src <? 0)%Z eqn:Et; [by apply tracked_fail|].
  apply (tracked_conseq _ _ _ _ _ (fun l => exists l0, (Ordered allowed l0 /\ src = listed (points l0)) /\ same l0 l) _
    (fun _ l => exists p, known p l /\ sn_Name p = Snapshot r /\ reached p l) _ anything); [|done..|].
  { intros l Ho [_ ->]. exists l. split; [done|]. split; [by exists []|done]. }
  apply tracked_ex. intros l0. apply tracked_pure. intros [Ho0 ->]. destruct (target_found _ _ Et) as (target & p & -> & Hp & Hname).
  assert (Hk : known p l0) by (apply points_known; [done|]; by eapply list_elem_of_lookup_2).
  eapply tracked_bind.
  - apply (tracked_post _ _ _ _ _ _ (fun f l => since l0 l /\ finishes p l0 f l) _ anything); [by intros f l Hf; exact Hf|done|].
    apply (tracked_pre _ _ _ _ _ (fun l => since l0 l /\ same l0 l)); [by intros l Hl; split; [apply Hl|]|].
    apply (tracked_post _ _ _ _ _ _ (fun f l => since l0 l /\ finishes p l0 f l) _ (fun l => since l0 l /\ True)); [done..|].
    apply tracked_frame; [apply _|by apply tracked_replicate_to].
  - intros [res|protected src m]; cbn [finishes].
    + apply tracked_ret. intros l [Hl Hr]. exists p. split_and!; [by apply (known_since l0)|done..].
    + apply (tracked_pre _ _ _ _ _ (fun l => exists T, (src = listed T /\ history T l0) /\ since l0 l /\ within T l)).
      { intros l (_ & T & ? & ? & ? & ?). by exists T. }
      apply tracked_ex. intros T. apply tracked_pure. intros [-> Hh].
      eapply (tracked_bind _ _ _ _ _ _ _ (fun _ l => since l0 l /\ within T l)); [by apply tracked_looking|intros c].
      eapply (tracked_bind _ _ _ _ _ _ _ (fun _ => anything)); [|skip; by apply tracked_fail].
      destruct (_ || _); [by apply tracked_ret|]. eapply (tracked_bind _ _ _ _ _ _ _ (fun _ => anything)); [|skip; by apply tracked_ret].
      apply tracked_try. by apply (tracked_reconcile r protected T l0).
Qed.

Lemma keeps_accept gens (P : list effect -> Prop) `{!Stable P} : keeps P (acceptBackupGenerations gens).
Proof.
  unfold acceptBackupGenerations, acceptedGenerations. eapply (tracked_bind _ _ _ _ _ _ _ (fun _ => P)); [by apply keeps_reading|intros accepted].
  destruct (negb _); [by apply tracked_fail|]. destruct (foldr _ _ _) as [accepted' changed]. destruct changed; [by apply tracked_tame|by apply tracked_ret].
Qed.

Lemma tracked_replicate r : DestNodeID r = node ->
  tracked anything (Replicate r) (fun _ l => exists p, known p l /\ sn_Name p = Snapshot r /\ reached p l) anything.
Proof.
  intros Hn. unfold Replicate. destruct (_ || _); [by apply tracked_fail|].
  eapply (tracked_bind _ _ _ _ _ _ _ (fun _ => anything)); [apply keeps_lock|skip].
  eapply (tracked_bind _ _ _ _ _ _ _ (fun _ => anything)); [apply keeps_look|intros c]. destruct c; [by apply tracked_fail|].
  eapply (tracked_bind _ _ _ _ _ _ _ (fun _ => anything)); [by apply keeps_reading|intros fence]. destruct (match _ !! _ with Some _ => _ | None => _ end); [by apply tracked_fail|].
  cbv zeta. repeat (destruct (_ || _); [by apply tracked_fail|]). destruct (_ && _); [by apply tracked_fail|].
  eapply (tracked_bind _ _ _ _ _ _ _ (fun _ => anything)); [by apply keeps_accept|skip]. by apply (tracked_replicate_backup (set_destination _ _ _ r)).
Qed.
End Run.
