(* ===== verification/BackupReplication.v ===== *)
(** Replicated backups over time: replications that may stop at any moment,
    prunes, the removal of other targets, and others at work on the source. *)
From S2P Require Import Prelude TraceLogic Timestamp Release GoStrings Backup BackupLog BackupSafety BackupRun.
From S2P Require Retention Lifecycle.
From Stdlib Require Import Ascii.

Open Scope string_scope.
Open Scope list_scope.

Section History.
Context `{BackupEnv} `{!Calendar}.
Abbreviation tracked := (TraceLogic.tracked (E:=string) (fun _ : list effect => True) (fun l => l) allowed []).
Abbreviation keeps P m := (tracked P m (fun _ => P) P).
Abbreviation anything := (fun _ : list effect => True).

(** ** Operations *)

Inductive operation :=
| Replicates (r : ReplicationRequest)
| Prunes (dataset policy : string)
| Removes (dataset target policy : string) (generation : Z)
| Filters (nodes : option (list string)) (gens : gmap string Z).
Definition perform (op : operation) : bcmd unit :=
  match op with
  | Replicates r => Replicate r;; ret tt
  | Prunes dataset policy => PruneSnapshots dataset policy
  | Removes dataset target policy generation => CleanupBackupGeneration dataset target policy generation
  | Filters nodes gens => FilterSnapshotTargets nodes gens;; ret tt
  end.
(** This target stays, and its replications go to it. *)
Definition ours (op : operation) : Prop :=
  match op with
  | Replicates r => DestNodeID r = node
  | Removes _ target _ _ => target <> node
  | _ => True
  end.
(** What was done to both datasets, from the beginning: an operation may stop at
    any of its effects, and others act at any time. *)
Inductive lived : list effect -> Prop :=
| lived_new : lived []
| lived_other e l : lived l -> honest node e l = true -> possible e (replay l) = true -> lived (e :: l)
| lived_ran op l l' : lived l -> ours op -> (exists k, (perform op l).2 = k ++ l') -> (exists k, l' = k ++ l) -> lived l'.

Lemma keeps_prunes dataset policy (P : list effect -> Prop) `{!Stable P} : keeps P (PruneSnapshots dataset policy).
Proof.
  unfold PruneSnapshots. destruct (negb _); [by apply tracked_fail|].
  eapply (tracked_bind _ _ _ _ _ _ _ (fun _ => P)); [apply keeps_lock|skip; by apply keeps_prune_source].
Qed.
Lemma keeps_removes dataset target policy generation (P : list effect -> Prop) `{!Stable P} : target <> node ->
  keeps P (CleanupBackupGeneration dataset target policy generation).
Proof.
  intros Hn. unfold CleanupBackupGeneration, cleanupBackupGenerationLocked, removedBackupTargets, acceptedGenerations. destruct (_ || _); [by apply tracked_fail|].
  eapply (tracked_bind _ _ _ _ _ _ _ (fun _ => P)); [apply keeps_lock|skip].
  eapply (tracked_bind _ _ _ _ _ _ _ (fun _ => P)); [by apply keeps_reading|intros fence].
  eapply (tracked_bind _ _ _ _ _ _ _ (fun _ => P)); [by apply tracked_tame|skip].
  eapply (tracked_bind _ _ _ _ _ _ _ (fun _ => P)); [by apply keeps_reading|intros accepted]. case_match; [by apply tracked_ret|].
  eapply (tracked_bind _ _ _ _ _ _ _ (fun _ => P)); [by apply keeps_list|intros snaps].
  eapply (tracked_bind _ _ _ _ _ _ _ (fun _ => P)); [|skip; by apply keeps_prune_source].
  apply tracked_every. intros i _. apply tracked_every. intros kind Hk. apply tracked_unprotect; [done|]. intros l Ho Hp HP.
  assert (Ht : tame (BRelease (tag_of kind target) (si_Name i)) l).
  { apply other_tag; [|done]. apply elem_of_cons in Hk as [->| ->%list_elem_of_singleton]; [by left|by right]. }
  split; [by apply tame_allowed|by apply stable].
Qed.
Lemma keeps_filters nodes gens (P : list effect -> Prop) `{!Stable P} : keeps P (FilterSnapshotTargets nodes gens).
Proof.
  unfold FilterSnapshotTargets, removedBackupTargets. destruct nodes as [nodes|]; [|by apply tracked_ret].
  eapply (tracked_bind _ _ _ _ _ _ _ (fun _ => P)); [by apply keeps_reading|intros fence]. destruct (filter_targets _ _ _) as [[allowed_ accepted] gens'].
  eapply (tracked_bind _ _ _ _ _ _ _ (fun _ => P)); [by apply keeps_accept|skip]. by apply tracked_ret.
Qed.
Lemma tracked_perform op : ours op -> keeps anything (perform op).
Proof.
  destruct op as [r|dataset policy|dataset target policy g|nodes gens]; cbn [ours perform]; intros Ho.
  - eapply tracked_bind; [by apply tracked_replicate|]. intros res. by apply tracked_ret.
  - by apply keeps_prunes.
  - by apply keeps_removes.
  - eapply tracked_bind; [by apply keeps_filters|]. intros res. by apply tracked_ret.
Qed.

(** What a rule says of a run. *)
Lemma tracked_from {A} (m : bcmd A) (Q : A -> list effect -> Prop) l : tracked anything m Q anything -> Ordered allowed l ->
  (exists k, (m l).2 = k ++ l) /\ Ordered allowed (m l).2 /\ forall a, (m l).1 = Ok a -> Q a (m l).2.
Proof.
  intros Hm Ho. destruct (Hm l l I (eq_sym (app_nil_r l)) Ho I) as (_ & k & E & Ho' & Hq). rewrite app_nil_r in E. rewrite E.
  split; [by exists k|]. split; [done|]. intros a Ea. by rewrite Ea in Hq.
Qed.
Lemma lived_ordered l : lived l -> Ordered allowed l.
Proof.
  induction 1 as [|e l Hl IH Hh Hp|op l l' Hl IH Hop [k Hk] _]; [constructor|constructor; [done|]; by apply tame_allowed, honest_tame|].
  destruct (tracked_from _ _ l (tracked_perform op Hop) IH) as (_ & Ho & _). rewrite Hk in Ho. by eapply Ordered_app.
Qed.

(** ** Properties *)

(** C21. The newest point of a backup stands at the source, with a hold of this
    target that keeps [zfs] from destroying it: wherever the operations above
    failed or stopped, and whatever [honest] others did in between.  Those take
    snapshots under new names by a clock that does not go back, destroy what
    [zfs] lets them, write metadata, and hold or release for other targets.  A
    restore of the stack is not among them: it renames the source away and
    promotes a clone in its place, which has only the older snapshots; nor is
    the removal of this target. *)
Theorem backup_base_held l x : lived l -> newest (replay l) = Some x ->
  exists s, s ∈ source (replay l) /\ sn_GUID s = sn_GUID x /\ (exists tag, tag ∈ tags_of node /\ tag ∈ sn_Holds s) /\
    possible (BDestroy Source (sn_Name s)) (replay l) = false.
Proof.
  intros Hl Hx. pose proof (lived_ordered l Hl) as Ho. destruct (ordered_safe l Ho) as [Hb _]. unfold base_safe in Hb. rewrite Hx in Hb.
  destruct Hb as (tag & Ht & s & Hs & Eg & Hin). exists s. split_and!; [done..|by exists tag|].
  cbn [possible]. unfold has_snap. cbn [snaps_of]. rewrite find_source by done.
  rewrite bool_decide_false; [done|]. intros E. rewrite E in Hin. by apply elem_of_nil in Hin.
Qed.

(** C22. When a replication succeeds, the newest point at the destination is the
    one that was asked for or a later one, nothing is half received, and that
    point is held for the destination at the source. *)
Theorem replicated_point_held l r res : lived l -> DestNodeID r = node -> (Replicate r l).1 = Ok res ->
  let l' := (Replicate r l).2 in
  exists p x s, p ∈ born l' /\ sn_Name p = Snapshot r /\ newest (replay l') = Some x /\ (sn_Seq p <= sn_Seq x)%Z /\ token_of (replay l') = None /\
    s ∈ source (replay l') /\ sn_GUID s = sn_GUID x /\ tag_of "hold" node ∈ sn_Holds s.
Proof.
  intros Hl Hn Hr. cbv zeta. destruct (tracked_from _ _ l (tracked_replicate r Hn) (lived_ordered l Hl)) as (_ & _ & Hq).
  destruct (Hq _ Hr) as (p & (b & Hb & E) & Hname & x & ([Hx Ht] & (s & Hs & Eg & Hh) & _) & _ & Hle).
  apply plain_fields in E as (En & _ & Es & _). exists b, x, s. split_and!; [done|congruence|done|lia|done..].
Qed.

(** C23. A backup never moves backward: whatever happens later, its newest point
    is the one it had or a later one. *)
Theorem backup_moves_forward l l' x : lived (l' ++ l) -> newest (replay l) = Some x ->
  exists x', newest (replay (l' ++ l)) = Some x' /\ (sn_Seq x <= sn_Seq x')%Z.
Proof. intros Hl%lived_ordered Hx. by apply ordered_forward. Qed.
End History.

(** ** A concrete backup *)

Module Sample.
Fixpoint bits (p : positive) : string :=
  match p with
  | xH => ""
  | xO p => String "0" (bits p)
  | xI p => String "1" (bits p)
  end.
Fixpoint unbits (s : string) : option positive :=
  match s with
  | "" => Some xH
  | String "0" s => xO <$> unbits s
  | String "1" s => xI <$> unbits s
  | _ => None
  end.
Definition show (z : Z) : string := match z with Z0 => "z" | Zpos p => String "p" (bits p) | Zneg p => String "n" (bits p) end.
Definition parse (s : string) : option Z :=
  match s with
  | "z" => Some 0%Z
  | String "p" s => Zpos <$> unbits s
  | String "n" s => Zneg <$> unbits s
  | _ => None
  end.
Lemma unbits_bits p : unbits (bits p) = Some p.
Proof. induction p as [p IH|p IH|]; cbn; by rewrite ?IH. Qed.

(** The first stream comes whole; of the second, one snapshot and part of the next. *)
Definition streams (l : list effect) : stream_end :=
  match newest (replay l) with
  | None => mkEnd 1 false true 10
  | Some _ => if bool_decide (is_Some (token_of (replay l))) then mkEnd 9 false true 30 else mkEnd 1 true false 20
  end.
#[export] Instance backup_env : BackupEnv := {
  node := "b"; identity := "a";
  tool := fun _ => Lifecycle.Done; answers := fun _ => true; connected := fun _ => true; locks := fun _ => true; cancelled := fun _ => false;
  stream := streams; token_read := fun _ => Ok true; others := fun _ => []; now := fun _ => 1735689600000000000%Z;
  shuffle := fun _ l => l; RFC3339 := show; Parse := parse; ParseIP := fun _ => true;
  EncodeToString := fun s => s; DecodeString := Some }.
#[export] Instance backup_calendar : Calendar.
Proof. constructor. intros [|p|p]; cbn; by rewrite ?unbits_bits. Qed.

Definition point (name : string) (guid : string) (i : Z) : Snap := mkSnap name guid i (1735689600000000000 + i * 3600000000000)%Z [] [] [] false.
Definition taken : list effect := [BNew (point "fl-000003" "g3" 3); BNew (point "fl-000002" "g2" 2); BNew (point "fl-000001" "g1" 1)].
Definition request : ReplicationRequest := mkRequest 1 "tank/stacks/app" "fl-000003" "a" "b" "" "192.0.2.1" "h/24" "job" 0.
(** A replication that fails, and one that goes on from it. *)
Definition first_try : list effect := (Replicate request taken).2.
Definition second_try : list effect := (Replicate request first_try).2.

Definition since_taken (l : list effect) : list effect := take (List.length l - 3) l.
Lemma lived_taken : lived taken.
Proof. repeat (apply lived_other; [|by vm_compute|by vm_compute]). constructor. Qed.
Lemma lived_first : lived first_try.
Proof.
  apply (lived_ran (Replicates request) taken); [apply lived_taken|done|by exists []; vm_compute|].
  exists (since_taken first_try). by vm_compute.
Qed.
Lemma second_extends : exists k, second_try = k ++ first_try.
Proof. exists (take (List.length second_try - List.length first_try) second_try). by vm_compute. Qed.
Lemma lived_second : lived second_try.
Proof. apply (lived_ran (Replicates request) first_try); [apply lived_first|done|by exists []; vm_compute|apply second_extends]. Qed.

Definition arrived_point : Snap := plain (point "fl-000002" "g2" 2).
Lemma backup_base_held_witness : newest (replay first_try) = Some arrived_point /\
  exists s, s ∈ source (replay first_try) /\ sn_GUID s = "g2" /\ possible (BDestroy Source (sn_Name s)) (replay first_try) = false.
Proof.
  split; [by vm_compute|]. destruct (backup_base_held first_try arrived_point lived_first ltac:(by vm_compute)) as (s & Hs & Eg & _ & Hp).
  exists s. split; [exact Hs|split; [exact Eg|exact Hp]].
Defined.
Lemma replicated_point_held_witness : (Replicate request first_try).1 = Ok (mkResult "job" 30 "") /\
  exists x s, newest (replay second_try) = Some x /\ s ∈ source (replay second_try) /\ sn_GUID s = sn_GUID x /\ tag_of "hold" node ∈ sn_Holds s.
Proof.
  split; [by vm_compute|].
  destruct (replicated_point_held first_try request (mkResult "job" 30 "") lived_first eq_refl ltac:(by vm_compute)) as (p & x & s & _ & _ & Hx & _ & _ & Hs & Eg & Hh).
  exists x, s. split; [exact Hx|split; [exact Hs|split; [exact Eg|exact Hh]]].
Defined.
Lemma backup_moves_forward_witness : newest (replay first_try) = Some arrived_point /\
  exists x', newest (replay second_try) = Some x' /\ (2 <= sn_Seq x')%Z.
Proof.
  split; [by vm_compute|].
  destruct second_extends as [k E].
  destruct (backup_moves_forward first_try k arrived_point) as (x' & Hx & Hle); [rewrite <- E; apply lived_second|by vm_compute|].
  rewrite <- E in Hx. exists x'. split; [exact Hx|exact Hle].
Defined.
End Sample.
