(* ===== verification/BackupRestore.v ===== *)
(** Restores from backups: [src/pkg/store/backup_restore.go], over the [zfs]
    and [ssh] tools of the backup's node and of the destination.

    A restore brings one snapshot of a backup into a staging dataset of its own
    operation, by a clone when the destination is the backup's node, by a stream
    that can be resumed otherwise; then it renames the staging dataset to its
    place below the reserved root of the stack. *)
From S2P Require Import Prelude Timestamp Release GoStrings CrashLogic.
From S2P Require Backup.
From Stdlib Require Import Ascii.

Open Scope string_scope.
Open Scope list_scope.

(** ** Pools *)

Record Snap := mkSnap { guid : string; holds : list string }.
(** Local properties, snapshots by name, the token of a half received one as its
    name and GUID, and the snapshot it was cloned from. *)
Record Dataset := mkDataset {
  props : gmap string string; snaps : gmap string Snap; token : option (string * string); origin : option (string * string); mounted : bool }.
Inductive host := Here | There.
#[export] Instance host_eq : EqDecision host.
Proof. solve_decision. Defined.
(** [Here] is the node of the backup. *)
Record View := mkView { here : gmap string Dataset; there : gmap string Dataset }.
Definition pool (h : host) (v : View) : gmap string Dataset := match h with Here => here v | There => there v end.
Definition set_pool (h : host) (f : gmap string Dataset -> gmap string Dataset) (v : View) : View :=
  match h with Here => mkView (f (here v)) (there v) | There => mkView (here v) (f (there v)) end.

Definition mountpoint : string := "mountpoint".
Definition readonly : string := "readonly".
Definition empty_dataset (ps : gmap string string) : Dataset := mkDataset ps ∅ None None false.
Definition set_snaps (f : gmap string Snap -> gmap string Snap) (d : Dataset) : Dataset := mkDataset (props d) (f (snaps d)) (token d) (origin d) (mounted d).
Definition set_token (t : option (string * string)) (d : Dataset) : Dataset := mkDataset (props d) (snaps d) t (origin d) (mounted d).
Definition set_holds (f : list string -> list string) (s : Snap) : Snap := mkSnap (guid s) (f (holds s)).

(** ** Commands *)

Inductive zcmd :=
| Lock (dataset : string)
| Request | Reply
| Exists (h : host) (ds : string)
| Get (h : host) (key ds : string)
| GuidOf (h : host) (ds snap : string)
| Holds (h : host) (ds snap : string)
| Origin (h : host) (ds : string)
| Token (h : host) (ds : string)
| Snapshots (h : host) (ds : string)
| Mounted (h : host) (ds : string)
| TestToken (name guid : string)
| Hold (tag ds snap : string)
| Release (tag ds snap : string)
| Clone (ds snap : string) (ps : gmap string string) (new : string)
| Create (h : host) (ps : gmap string string) (ds : string)
| Rename (h : host) (a b : string)
| DestroyTree (h : host) (ds : string)
| SetMount (h : host) (path ds : string)
| Mount (h : host) (ds : string)
| AbortReceive (h : host) (ds : string)
| Part (h : host) (resume : bool) (ds name guid : string)
| Receive (h : host) (ps : gmap string string) (ds name guid : string).

Inductive zout :=
| Text (s : string)
| Tags (l : list string)
| Table (l : list (string * string))
| Named (o : option (string * string)).

Definition with_snap (f : Snap -> option Snap) (ds snap : string) (p : gmap string Dataset) : option (gmap string Dataset) :=
  d ← p !! ds; s ← snaps d !! snap; s' ← f s; Some (<[ds := set_snaps (insert snap s') d]> p).
Definition with_dataset (f : Dataset -> option Dataset) (ds : string) (p : gmap string Dataset) : option (gmap string Dataset) :=
  d ← p !! ds; d' ← f d; Some (<[ds := d']> p).
Definition added (ds : string) (d : Dataset) (p : gmap string Dataset) : option (gmap string Dataset) :=
  match p !! ds with None => Some (<[ds := d]> p) | Some _ => None end.

(** What a command does to the pool it works on.  A stream is received in two
    steps, [Part], after which a token names what is half received, and
    [Receive]; it starts where nothing is, or at the token it resumes.  The mount state after a change
    of the mountpoint is [zfs]'s choice, [m]. *)
Definition changes (c : zcmd) (m : bool) : option (host * (gmap string Dataset -> option (gmap string Dataset))) :=
  match c with
  | Hold tag ds snap => Some (Here, with_snap (fun s => if decide (tag ∈ holds s) then None else Some (set_holds (cons tag) s)) ds snap)
  | Release tag ds snap => Some (Here, with_snap (fun s => if decide (tag ∈ holds s) then Some (set_holds (filter (fun t => t <> tag)) s) else None) ds snap)
  | Clone ds snap ps new => Some (Here, fun p => d ← p !! ds; s ← snaps d !! snap; added new (mkDataset ps ∅ None (Some (ds, snap)) false) p)
  | Create h ps ds => Some (h, added ds (empty_dataset ps))
  | Rename h a b => Some (h, fun p => d ← p !! a; if decide (a = b) then None else added b d (delete a p))
  | DestroyTree h ds => Some (h, fun p => d ← p !! ds; Some (delete ds p))
  | SetMount h path ds => Some (h, with_dataset (fun d => Some (mkDataset (<[mountpoint := path]> (<[readonly := "off"]> (props d))) (snaps d) (token d) (origin d) m)) ds)
  | Mount h ds => Some (h, with_dataset (fun d => if mounted d then None else Some (mkDataset (props d) (snaps d) (token d) (origin d) true)) ds)
  | AbortReceive h ds => Some (h, with_dataset (fun d => match token d with Some _ => Some (set_token None d) | None => None end) ds)
  | Part h resume ds name g => Some (h, with_dataset (fun d =>
      if bool_decide (snaps d = ∅) && bool_decide (origin d = None) && bool_decide (token d = if resume then Some (name, g) else None)
      then Some (set_token (Some (name, g)) d) else None) ds)
  | Receive h ps ds name g => Some (h, with_dataset (fun d =>
      if bool_decide (token d = Some (name, g)) then Some (mkDataset (ps ∪ props d) {[ name := mkSnap g [] ]} None None (mounted d)) else None) ds)
  | _ => None
  end.
Definition changes_to (c : zcmd) (v v' : View) : Prop :=
  exists m h f p, changes c m = Some (h, f) /\ f (pool h v) = Some p /\ v' = set_pool h (fun _ => p) v.

Definition snap_of (ds snap : string) (p : gmap string Dataset) : option Snap := d ← p !! ds; snaps d !! snap.
Definition zanswers (c : zcmd) (v : View) (out : zout) : Prop :=
  match c with
  | Exists h ds => is_Some (pool h v !! ds)
  | Get h key ds => exists d, pool h v !! ds = Some d /\ out = Text (default "" (props d !! key))
  | GuidOf h ds snap => exists s, snap_of ds snap (pool h v) = Some s /\ out = Text (guid s)
  | Holds h ds snap => exists s, snap_of ds snap (pool h v) = Some s /\ out = Tags (holds s)
  | Origin h ds => exists d, pool h v !! ds = Some d /\ out = Named (origin d)
  | Token h ds => exists d, pool h v !! ds = Some d /\ out = Named (token d)
  | Snapshots h ds => exists d l, pool h v !! ds = Some d /\ out = Table l /\ l ≡ₚ map_to_list (guid <$> snaps d)
  | Mounted h ds => exists d, pool h v !! ds = Some d /\ out = Text (if mounted d then "yes" else "no")
  | TestToken name g => out = Named (Some (name, g))
  | _ => True
  end.
Definition zmutating (c : zcmd) : bool :=
  match c with
  | Hold _ _ _ | Release _ _ _ | Clone _ _ _ _ | Create _ _ _ | Rename _ _ _ | DestroyTree _ _ | SetMount _ _ _ | Mount _ _
  | AbortReceive _ _ | Part _ _ _ _ _ | Receive _ _ _ _ _ => true
  | _ => false
  end.
Definition zready (c : zcmd) (v : View) : Prop :=
  if zmutating c then exists v', changes_to c v v' else match c with Lock _ | Request | Reply => True | _ => exists out, zanswers c v out end.
#[export] Instance restore_spec : Spec zcmd zout View := {| mutating := zmutating; effect := changes_to; answers := zanswers; ready := zready |}.

(** ** Names *)

Record restoreMetadata := mkMetadata { OperationID : string; MountID : string; Snapshot : string; GUID : string }.
Class RestoreEnv := {
  Marshal : restoreMetadata -> string;
  Unmarshal : string -> option restoreMetadata;
  ParseIP : string -> bool }.

Record PrepareRequest := mkPrepare {
  pr_SourceNodeID : string; pr_BackupNodeID : string; pr_Dataset : string; pr_Snapshot : string; pr_OperationID : string; pr_MountID : string;
  pr_DestNodeID : string; pr_DestHost : string; pr_DestPort : Z }.
Record PrepareResult := mkPrepared { rs_Dataset : string; rs_Snapshot : string; rs_GUID : string }.
Record ActivateRequest := mkActivate {
  ac_Dataset : string; ac_SourceNodeID : string; ac_OperationID : string; ac_MountID : string; ac_TargetDataset : string; ac_Mountpoint : string; ac_ExpectedGUID : string }.

Abbreviation split := (Backup.split "/"%char).
Definition part (n : nat) (dataset : string) : string := default "" (split dataset !! n).
Definition RestoreDataset (pool_ source operation mount : string) : string :=
  pool_ +:+ "/restores/" +:+ source +:+ "/" +:+ operation +:+ "/" +:+ mount.
Definition digits (s : string) : bool := negb (bool_decide (s = "")) && forallb digit (chars s).
Definition mount_char (c : ascii) : bool := digit c || letter c || existsb (Ascii.eqb c) ["_"; "."; "-"]%char.
Definition validRestoreMount (mount : string) : bool :=
  negb (bool_decide (mount = "")) && forallb mount_char (chars mount) && negb (bool_decide (mount = ".")) && negb (bool_decide (mount = "..")).
Definition validRestoreMetadata (m : restoreMetadata) : bool :=
  Backup.backupID (OperationID m) && validRestoreMount (MountID m) && IsAutomatedSnapshot (chars (Snapshot m)) && digits (GUID m).
Definition validRestoreStage (dataset source operation mount : string) : bool :=
  Backup.validBackupDataset dataset && (List.length (split dataset) =? 5)%nat && Backup.backupID source && Backup.backupID operation &&
  validRestoreMount mount && bool_decide (dataset = RestoreDataset (part 0 dataset) source operation mount).

Definition restoreOperationProperty : string := "floatlab:restore-operation".
Definition restoreGUIDProperty : string := "floatlab:restore-guid".
Definition restoreSourceProperty : string := "floatlab:restore-source".
Definition restoreMountProperty : string := "floatlab:restore-mount".
Definition identity (source : string) (m : restoreMetadata) : list (string * string) :=
  [(restoreOperationProperty, OperationID m); (restoreGUIDProperty, GUID m); (restoreSourceProperty, source); (restoreMountProperty, MountID m)].
Definition restoreProperties (source : string) (m : restoreMetadata) : gmap string string :=
  list_to_map ([(mountpoint, "none"); (readonly, "on")] ++ identity source m).

(** ** Programs *)

Section Restore.
Context `{RestoreEnv} {P : Type} `{Tool zcmd zout View P}.
Abbreviation cmd := (prog string (World P)).

Definition text (o : zout) : string := match o with Text s => s | _ => "" end.
Definition get (h : host) (key ds : string) : cmd string := o ← run (Get h key ds); ret (text o).
Definition guid_of (h : host) (ds snap : string) : cmd string := o ← run (GuidOf h ds snap); ret (text o).
Definition named (c : zcmd) : cmd (option (string * string)) := o ← run c; ret (match o with Named o => o | _ => None end).
Definition listing (h : host) (ds : string) : cmd (list (string * string)) := o ← run (Snapshots h ds); ret (match o with Table l => l | _ => [] end).
Definition snapshotHolds (h : host) (ds snap : string) : cmd (list string) := o ← run (Holds h ds snap); ret (match o with Tags l => l | _ => [] end).
Definition there_is (h : host) (ds : string) : cmd bool := r ← attempt (run (Exists h ds)); ret (is_ok r).

(** The properties are read in the order of a map; the result is the same in
    any order. *)
Fixpoint verify_each (h : host) (dataset : string) (l : list (string * string)) : cmd unit :=
  match l with
  | [] => ret tt
  | (key, expected) :: l =>
      value ← get h key dataset;
      if decide (value = expected) then verify_each h dataset l else fail "restore ownership mismatch"
  end.
Definition verifyRestoreOwnership (h : host) (dataset source : string) (m : restoreMetadata) : cmd unit :=
  verify_each h dataset (identity source m).

Definition prepareLocalRestore (backup stage source : string) (m : restoreMetadata) : cmd unit :=
  found ← there_is Here stage;
  if (found : bool) then
    verifyRestoreOwnership Here stage source m;;
    o ← named (Origin Here stage);
    if bool_decide (o = Some (backup, Snapshot m)) then ret tt else fail "restore clone origin mismatch"
  else run_ (Clone backup (Snapshot m) (restoreProperties source m) stage).

(** The receiver at the destination; a request brings nothing, or a stream of
    one snapshot, which may resume one. *)
Record Stream := mkStream { st_resume : bool; st_Name : string; st_GUID : string }.
Record BackupState := mkState { st_Snapshots : list (string * string); st_ResumeToken : option (string * string) }.
Definition serve_restore (dataset source : string) (m : restoreMetadata) (action : string) (input : option Stream) : cmd (option BackupState) :=
  if decide (action = "abort") then run_ (AbortReceive There dataset);; ret None
  else if decide (action = "state") then
    t ← named (Token There dataset);
    l ← listing There dataset;
    ret (Some (mkState l t))
  else
    match input with
    | None => fail "receive"
    | Some s =>
        run_ (Part There (st_resume s) dataset (st_Name s) (st_GUID s));;
        run_ (Receive There (restoreProperties source m) dataset (st_Name s) (st_GUID s));;
        ret None
    end.
Definition ServeRestoreReceiver (source : string) (fields : list string) (input : option Stream) : cmd (option BackupState) :=
  match fields with
  | ["zfs-restore"; action; dataset; text] =>
      if bool_decide (action ∈ ["state"; "abort"; "receive"]) then
        match Unmarshal text with
        | None => fail "invalid restore metadata"
        | Some m =>
            if negb (validRestoreMetadata m) || negb (validRestoreStage dataset source (OperationID m) (MountID m))
            then fail "restore outside authenticated operation subtree"
            else
              run_ (Lock dataset);;
              found ← there_is There dataset;
              (if (found : bool) then ret tt else run_ (Create There (restoreProperties source m) dataset));;
              verifyRestoreOwnership There dataset source m;;
              serve_restore dataset source m action input
        end
      else fail "invalid restore command"
  | _ => fail "invalid restore command"
  end.

(** The remote command over [ssh], as the node of the backup. *)
Definition remote (source stage : string) (m : restoreMetadata) (action : string) (input : option Stream) : cmd (option BackupState) :=
  run_ Request;;
  a ← ServeRestoreReceiver source ["zfs-restore"; action; stage; Marshal m] input;
  run_ Reply;;
  ret a.
Definition state (source stage : string) (m : restoreMetadata) : cmd BackupState :=
  a ← remote source stage m "state" None;
  match a with Some s => ret s | None => fail "json" end.

Definition ErrInvalidResumeToken : string := "invalid resume token".
Definition unusable (out : string) : bool :=
  existsb (Contains out) ["resume token is invalid"; "resume token is corrupt"; "invalid resume token"; "no longer exists"; "does not exist"].
(** [validateToken], with the snapshot that is wanted; [None] is a token that
    must be retired. *)
Definition validateToken (backup snapshot : string) (t : string * string) : cmd (option (string * string)) :=
  r ← attempt (named (TestToken t.1 t.2));
  match r with
  | Err out => if unusable out then ret None else fail out
  | Ok None => ret None
  | Ok (Some (name, g)) =>
      if negb (IsAutomatedSnapshot (chars name)) || bool_decide (g = "") || negb (bool_decide (name = snapshot)) then ret None
      else
        l ← listing Here backup;
        ret (if bool_decide ((name, g) ∈ l) then Some (name, g) else None)
  end.

(** [zfs send] of a snapshot of the backup, received at the stage. *)
Definition send_full (backup source stage : string) (m : restoreMetadata) : cmd unit :=
  g ← guid_of Here backup (Snapshot m);
  remote source stage m "receive" (Some (mkStream false (Snapshot m) g));; ret tt.

Definition normalizeRestoreDestination (r : PrepareRequest) : cmd unit :=
  if negb (Backup.backupID (pr_DestNodeID r)) then fail "invalid restore destination node"
  else
    let host := Backup.Trim (pr_DestHost r) in
    if negb (ParseIP host) && negb (Backup.word_of ["."; "-"]%char host) then fail "invalid restore destination host"
    else
      let port := if (pr_DestPort r =? 0)%Z then 22%Z else pr_DestPort r in
      if (port <? 1)%Z || (65535 <? port)%Z then fail "invalid restore destination port" else ret tt.

Definition retire_token (backup source stage : string) (m : restoreMetadata) (t : string * string) : cmd unit :=
  v ← validateToken backup (Snapshot m) t;
  match v with
  | None => remote source stage m "abort" None;; ret tt
  | Some (name, g) => remote source stage m "receive" (Some (mkStream true name g));; ret tt
  end.
Definition prepareRemoteRestore (source backup stage : string) (m : restoreMetadata) : cmd unit :=
  st ← state source stage m;
  st ← (match st_ResumeToken st with
        | Some t => retire_token backup source stage m t;; state source stage m
        | None => ret st
        end);
  if bool_decide (is_Some (st_ResumeToken st)) then fail "restore receive remains incomplete"
  else
    st ← (if decide (st_Snapshots st = []) then send_full backup source stage m;; state source stage m else ret st);
    if bool_decide (st_ResumeToken st = None) && bool_decide (st_Snapshots st = [(Snapshot m, GUID m)]) then ret tt
    else fail "restore snapshot GUID verification failed".

Definition local (r : PrepareRequest) : bool := bool_decide (pr_DestNodeID r = "") || bool_decide (pr_DestNodeID r = pr_BackupNodeID r).
Definition restore_tag (operation mount : string) : string := "floatlab:restore:" +:+ operation +:+ ":" +:+ mount.
Definition PrepareBackupRestore (r : PrepareRequest) : cmd PrepareResult :=
  if negb (Backup.validBackupDataset (pr_Dataset r)) || negb (Backup.backupID (pr_SourceNodeID r)) || negb (Backup.backupID (pr_BackupNodeID r)) ||
     negb (Backup.backupID (pr_OperationID r)) || negb (validRestoreMount (pr_MountID r)) || negb (IsAutomatedSnapshot (chars (pr_Snapshot r)))
  then fail "invalid backup restore identity"
  else
    (if local r then ret tt else normalizeRestoreDestination r);;
    let backup := Backup.BackupDataset (pr_SourceNodeID r) (pr_Dataset r) in
    run_ (Lock backup);;
    owner ← get Here "floatlab:backup-source" backup;
    if negb (bool_decide (owner = pr_SourceNodeID r)) then fail "backup restore requires an owned backup dataset"
    else
      g ← guid_of Here backup (pr_Snapshot r);
      let m := mkMetadata (pr_OperationID r) (pr_MountID r) (pr_Snapshot r) g in
      if negb (validRestoreMetadata m) then fail "invalid backup snapshot GUID"
      else
        let stage := RestoreDataset (part 0 (pr_Dataset r)) (pr_BackupNodeID r) (pr_OperationID r) (pr_MountID r) in
        let tag := restore_tag (pr_OperationID r) (pr_MountID r) in
        tags ← snapshotHolds Here backup (pr_Snapshot r);
        (if decide (tag ∈ tags) then ret tt else run_ (Hold tag backup (pr_Snapshot r)));;
        (if local r then run_ (Lock stage);; prepareLocalRestore backup stage (pr_BackupNodeID r) m
         else prepareRemoteRestore (pr_BackupNodeID r) backup stage m);;
        run_ (Release tag backup (pr_Snapshot r));;
        ret (mkPrepared stage (pr_Snapshot r) g).

Definition verifyRestoreData (h : host) (dataset g : string) : cmd unit :=
  t ← named (Token h dataset);
  if bool_decide (is_Some t) then fail "restore has an incomplete receive"
  else
    o ← named (Origin h dataset);
    match o with
    | Some (ds, snap) =>
        actual ← guid_of h ds snap;
        if decide (actual = g) then ret tt else fail "restore staging data does not match requested snapshot GUID"
    | None =>
        l ← listing h dataset;
        if existsb (fun s => bool_decide (s.2 = g)) l then ret tt else fail "restore staging data does not match requested snapshot GUID"
    end.

Definition reserved_names : list string := ["system"; "backups"; "restores"].
(** [h] is the destination: these two run there. *)
Definition mount_target (h : host) (target mountpoint : string) : cmd unit :=
  run_ (SetMount h mountpoint target);;
  o ← run (Mounted h target);
  if bool_decide (text o = "yes") then ret tt
  else
    run_ (Mount h target);;
    o ← run (Mounted h target);
    if bool_decide (text o = "yes") then ret tt else fail "restored dataset is not mounted".
Definition activateBackupRestoreLocked (h : host) (r : ActivateRequest) : cmd unit :=
  let root := Join (take 2 (split (ac_TargetDataset r))) "/" in
  owner ← get h restoreOperationProperty root;
  if negb (bool_decide (owner = ac_OperationID r)) then fail "restore target stack is not reserved by this operation"
  else
    let m := mkMetadata (ac_OperationID r) (ac_MountID r) "" (ac_ExpectedGUID r) in
    found ← there_is h (ac_TargetDataset r);
    (if (found : bool) then
       verifyRestoreOwnership h (ac_TargetDataset r) (ac_SourceNodeID r) m;;
       staged ← there_is h (ac_Dataset r);
       if (staged : bool) then
         verifyRestoreOwnership h (ac_Dataset r) (ac_SourceNodeID r) m;;
         verifyRestoreData h (ac_Dataset r) (ac_ExpectedGUID r);;
         run_ (DestroyTree h (ac_Dataset r))
       else ret tt
     else
       verifyRestoreOwnership h (ac_Dataset r) (ac_SourceNodeID r) m;;
       verifyRestoreData h (ac_Dataset r) (ac_ExpectedGUID r);;
       run_ (Rename h (ac_Dataset r) (ac_TargetDataset r)));;
    mount_target h (ac_TargetDataset r) (ac_Mountpoint r).
Definition ActivateBackupRestore (h : host) (r : ActivateRequest) : cmd unit :=
  if negb (validRestoreStage (ac_Dataset r) (ac_SourceNodeID r) (ac_OperationID r) (ac_MountID r)) ||
     negb (Backup.validBackupDataset (ac_TargetDataset r)) || negb (bool_decide (ac_Mountpoint r = "/" +:+ ac_TargetDataset r))
  then fail "invalid restore activation"
  else if (List.length (split (ac_TargetDataset r)) <? 3)%nat || negb (bool_decide (part 0 (ac_TargetDataset r) = part 0 (ac_Dataset r))) ||
          bool_decide (part 1 (ac_TargetDataset r) ∈ reserved_names) || negb (digits (ac_ExpectedGUID r))
  then fail "restore target must be a new workload dataset in the same pool"
  else run_ (Lock (ac_Dataset r));; activateBackupRestoreLocked h r.

Definition reserveBackupRestoreLocked (h : host) (operation target : string) : cmd unit :=
  found ← there_is h target;
  if (found : bool) then
    owner ← get h restoreOperationProperty target;
    if decide (owner = operation) then ret tt else fail "restore target stack already exists"
  else run_ (Create h {[ restoreOperationProperty := operation; mountpoint := "/" +:+ target ]} target).
Definition ReserveBackupRestore (h : host) (operation target : string) : cmd unit :=
  if negb (Backup.backupID operation) || negb (Backup.validBackupDataset target) || negb (List.length (split target) =? 2)%nat ||
     bool_decide (part 1 target ∈ reserved_names)
  then fail "invalid restore stack reservation"
  else run_ (Lock target);; reserveBackupRestoreLocked h operation target.
End Restore.
