(* ===== verification/BackupRestoreSafety.v ===== *)
(** A restore from a backup, interrupted any number of times, never touches
    what is not its own and never shows data that were not asked for; left
    alone it finishes. *)
From S2P Require Import Prelude Timestamp Release GoStrings CrashLogic BackupRestore.
From S2P Require Backup BackupReplication.
From Stdlib Require Import Ascii.

Open Scope string_scope.
Open Scope list_scope.

(** The metadata sent with a request are read back. *)
Class RestoreLaws `{RestoreEnv} : Prop := { Unmarshal_Marshal m : Unmarshal (Marshal m) = Some m }.

Definition prop (key : string) (d : Dataset) : string := default "" (props d !! key).
Definition upd (h : host) (n : string) (d : Dataset) : View -> View := set_pool h (insert n d).
Definition del (h : host) (n : string) : View -> View := set_pool h (delete n).

Lemma pool_upd h k n d v : pool k (upd h n d v) = if decide (h = k) then <[n := d]> (pool k v) else pool k v.
Proof. by destruct h, k. Qed.
Lemma pool_del h k n v : pool k (del h n v) = if decide (h = k) then delete n (pool k v) else pool k v.
Proof. by destruct h, k. Qed.
Lemma upd_other h k n n' d v : h <> k \/ n <> n' -> pool k (upd h n d v) !! n' = pool k v !! n'.
Proof. rewrite pool_upd. intros Hn. case_decide; [|done]. apply lookup_insert_ne. by destruct Hn. Qed.
Lemma upd_same h n d v : pool h (upd h n d v) !! n = Some d.
Proof. rewrite pool_upd, decide_True by done. apply lookup_insert_eq. Qed.
Lemma del_other h k n n' v : h <> k \/ n <> n' -> pool k (del h n v) !! n' = pool k v !! n'.
Proof. rewrite pool_del. intros Hn. case_decide; [|done]. apply lookup_delete_ne. by destruct Hn. Qed.
Lemma del_same h n v : pool h (del h n v) !! n = None.
Proof. rewrite pool_del, decide_True by done. apply lookup_delete_eq. Qed.
Lemma set_insert h n d v p : p = <[n := d]> (pool h v) -> set_pool h (fun _ => p) v = upd h n d v.
Proof. intros ->. by destruct h. Qed.

Lemma can c h f v p : (exists m, changes c m = Some (h, f)) -> f (pool h v) = Some p -> exists v', changes_to c v v'.
Proof. intros [m Hm] Hf. by exists (set_pool h (fun _ => p) v), m, h, f, p. Qed.

Section Restoring.
Context `{RestoreEnv} `{!RestoreLaws} {P : Type} `{Tool zcmd zout View P} `{!ToolLaws zcmd zout View P}.
Variables (r : PrepareRequest) (target G : string).

Definition backup : string := Backup.BackupDataset (pr_SourceNodeID r) (pr_Dataset r).
Definition stage : string := RestoreDataset (part 0 (pr_Dataset r)) (pr_BackupNodeID r) (pr_OperationID r) (pr_MountID r).
Definition root : string := Join (take 2 (split target)) "/".
Definition dst : host := if local r then Here else There.
Definition meta : restoreMetadata := mkMetadata (pr_OperationID r) (pr_MountID r) (pr_Snapshot r) G.
Definition tag : string := restore_tag (pr_OperationID r) (pr_MountID r).

(** The three datasets of the restore and the backup are different ones. *)
Hypothesis apart : NoDup [backup; stage; target; root].

(** ** What is true at every moment *)

Definition mine (d : Dataset) : Prop := forall kv, kv ∈ identity (pr_BackupNodeID r) meta -> prop kv.1 d = kv.2.
Definition foreign (d : Dataset) : Prop := prop restoreOperationProperty d <> pr_OperationID r.
(** The data of the snapshot that was asked for, as a clone of it or received. *)
Definition cloned (v : View) (d : Dataset) : Prop :=
  origin d = Some (backup, pr_Snapshot r) /\ snaps d = ∅ /\ token d = None /\ is_Some (snap_of backup (pr_Snapshot r) (here v)).
Definition received (d : Dataset) : Prop := origin d = None /\ snaps d = {[ pr_Snapshot r := mkSnap G [] ]} /\ token d = None.
Definition complete (v : View) (d : Dataset) : Prop := if local r then cloned v d else received d.
Definition awaiting (d : Dataset) : Prop := origin d = None /\ snaps d = ∅ /\ (token d = None \/ token d = Some (pr_Snapshot r, G)).
Definition staged (v : View) (d : Dataset) : Prop := complete v d \/ (local r = false /\ awaiting d).

Record Inv (v : View) : Prop := {
  inv_backup : forall s, snap_of backup (pr_Snapshot r) (here v) = Some s -> guid s = G;
  inv_stage : forall d, pool dst v !! stage = Some d -> mine d /\ staged v d;
  inv_target : forall d, pool dst v !! target = Some d -> foreign d \/ (mine d /\ complete v d) }.

(** What a run that began in [v1] leaves alone: everything but its own staging
    dataset, the holds of the backup, and a target or root that it made. *)
Record beside (v1 v : View) : Prop := {
  be_others : forall h n, ~ (h = dst /\ n ∈ [stage; target; root]) -> ~ (h = Here /\ n = backup) -> pool h v !! n = pool h v1 !! n;
  be_backup : match here v1 !! backup, here v !! backup with
    | Some d, Some d' => props d' = props d /\ token d' = token d /\ origin d' = origin d /\ mounted d' = mounted d /\ guid <$> snaps d' = guid <$> snaps d
    | None, None => True
    | _, _ => False
    end;
  be_target : forall d, pool dst v1 !! target = Some d -> foreign d -> pool dst v !! target = Some d;
  be_root : forall d, pool dst v1 !! root = Some d -> pool dst v !! root = Some d }.

Lemma beside_refl v : beside v v.
Proof. split; try done. by destruct (here v !! backup). Qed.
Lemma apart_all : backup <> stage /\ backup <> target /\ backup <> root /\ stage <> target /\ stage <> root /\ target <> root.
Proof. pose proof apart as Ha. repeat rewrite NoDup_cons, ?elem_of_cons in Ha. naive_solver. Qed.

(** *** Changes of the staging dataset and the target *)

Lemma snap_upd n d v : n <> backup -> snap_of backup (pr_Snapshot r) (here (upd dst n d v)) = snap_of backup (pr_Snapshot r) (here v).
Proof. intros Hn. unfold snap_of. change (here (upd dst n d v)) with (pool Here (upd dst n d v)). rewrite upd_other by auto. done. Qed.
Lemma snap_del n v : n <> backup -> snap_of backup (pr_Snapshot r) (here (del dst n v)) = snap_of backup (pr_Snapshot r) (here v).
Proof. intros Hn. unfold snap_of. change (here (del dst n v)) with (pool Here (del dst n v)). rewrite del_other by auto. done. Qed.
Lemma complete_snap v v' d : snap_of backup (pr_Snapshot r) (here v') = snap_of backup (pr_Snapshot r) (here v) -> complete v d -> complete v' d.
Proof. unfold complete, cloned. intros E. destruct (local r); [|done]. by rewrite E. Qed.
Lemma staged_snap v v' d : snap_of backup (pr_Snapshot r) (here v') = snap_of backup (pr_Snapshot r) (here v) -> staged v d -> staged v' d.
Proof. intros E [Hc|Ha]; [left; by eapply complete_snap|by right]. Qed.

Lemma inv_upd_stage v d : Inv v -> mine d -> staged v d -> Inv (upd dst stage d v).
Proof.
  intros [Hb Hs Ht] Hm Hst. destruct apart_all as (N1 & N2 & _ & N4 & _). assert (E := snap_upd stage d v (not_eq_sym N1)). split.
  - rewrite E. done.
  - intros d'. rewrite upd_same. intros [= <-]. split; [done|]. by eapply staged_snap.
  - intros d'. rewrite upd_other by auto. intros Hd. destruct (Ht d' Hd) as [?|[? ?]]; [by left|right]. split; [done|]. by eapply complete_snap.
Qed.
Lemma inv_del_stage v : Inv v -> Inv (del dst stage v).
Proof.
  intros [Hb Hs Ht]. destruct apart_all as (N1 & N2 & _ & N4 & _). assert (E := snap_del stage v (not_eq_sym N1)). split.
  - rewrite E. done.
  - intros d'. by rewrite del_same.
  - intros d'. rewrite del_other by auto. intros Hd. destruct (Ht d' Hd) as [?|[? ?]]; [by left|right]. split; [done|]. by eapply complete_snap.
Qed.
Lemma inv_upd_target v d : Inv v -> mine d -> complete v d -> Inv (upd dst target d v).
Proof.
  intros [Hb Hs Ht] Hm Hst. destruct apart_all as (N1 & N2 & _ & N4 & _). assert (E := snap_upd target d v (not_eq_sym N2)). split.
  - rewrite E. done.
  - intros d'. rewrite upd_other by auto. intros Hd. destruct (Hs d' Hd). split; [done|]. by eapply staged_snap.
  - intros d'. rewrite upd_same. intros [= <-]. right. split; [done|]. by eapply complete_snap.
Qed.
Lemma inv_upd_root v d : Inv v -> Inv (upd dst root d v).
Proof.
  intros [Hb Hs Ht]. destruct apart_all as (N1 & N2 & N3 & N4 & N5 & N6). assert (E := snap_upd root d v (not_eq_sym N3)). split.
  - rewrite E. done.
  - intros d'. rewrite upd_other by auto. intros Hd. destruct (Hs d' Hd). split; [done|]. by eapply staged_snap.
  - intros d'. rewrite upd_other by auto. intros Hd. destruct (Ht d' Hd) as [?|[? ?]]; [by left|right]. split; [done|]. by eapply complete_snap.
Qed.

Lemma beside_upd v1 v n d : beside v1 v -> n ∈ [stage; target; root] ->
  (n = target -> forall d1, pool dst v1 !! target = Some d1 -> foreign d1 -> False) -> (n = root -> pool dst v1 !! root = None) -> beside v1 (upd dst n d v).
Proof.
  intros [Ho Hb Ht Hr] Hin Hnt Hnr. destruct apart_all as (N1 & N2 & N3 & N4 & N5 & N6).
  assert (Hnb : n <> backup) by (intros ->; set_solver). split.
  - intros h k Hk Hk'. rewrite upd_other; [by apply Ho|]. destruct (decide (dst = h)) as [<-|]; [right|by left]. intros <-. by destruct Hk.
  - change (here (upd dst n d v)) with (pool Here (upd dst n d v)). rewrite upd_other by auto. exact Hb.
  - intros d1 Hd Hf. destruct (decide (n = target)) as [->|]; [by destruct (Hnt eq_refl d1 Hd)|]. rewrite upd_other by auto. by apply Ht.
  - intros d1 Hd. destruct (decide (n = root)) as [->|]; [by rewrite Hnr in Hd|]. rewrite upd_other by auto. by apply Hr.
Qed.
Lemma beside_del v1 v : beside v1 v -> beside v1 (del dst stage v).
Proof.
  intros [Ho Hb Ht Hr]. destruct apart_all as (N1 & N2 & N3 & N4 & N5 & N6). split.
  - intros h k Hk Hk'. rewrite del_other; [by apply Ho|]. destruct (decide (dst = h)) as [<-|]; [right|by left]. intros <-. destruct Hk. set_solver.
  - change (here (del dst stage v)) with (pool Here (del dst stage v)). rewrite del_other by auto. exact Hb.
  - intros d1 Hd Hf. rewrite del_other by auto. by apply Ht.
  - intros d1 Hd. rewrite del_other by auto. by apply Hr.
Qed.

Lemma mine_foreign d : mine d -> foreign d -> False.
Proof. intros Hm Hf. apply Hf. apply (Hm (restoreOperationProperty, pr_OperationID r)). apply list_elem_of_here. Qed.
Lemma prop_restored key value ps : (key, value) ∈ [(mountpoint, "none"); (readonly, "on")] ++ identity (pr_BackupNodeID r) meta ->
  (restoreProperties (pr_BackupNodeID r) meta ∪ ps) !! key = Some value.
Proof.
  intros Hin. apply lookup_union_Some_l. cbn in Hin. unfold restoreProperties. cbn [identity app list_to_map].
  repeat (apply elem_of_cons in Hin as [[= -> ->]|Hin]; [vm_compute; reflexivity|]). by apply elem_of_nil in Hin.
Qed.
Lemma mine_restored ps sn t o b : mine (mkDataset (restoreProperties (pr_BackupNodeID r) meta ∪ ps) sn t o b).
Proof.
  intros [key value] Hin. unfold prop. cbn [fst snd props]. erewrite prop_restored; [done|]. apply elem_of_app. by right.
Qed.
Lemma mine_created sn t o b : mine (mkDataset (restoreProperties (pr_BackupNodeID r) meta) sn t o b).
Proof. pose proof (mine_restored ∅ sn t o b) as Hm. by rewrite (right_id_L ∅ (∪)) in Hm. Qed.

(** ** Runs *)

(** [bad] lets a run fail; without it a run of cooperative tools may not. *)
Variables (v1 : View) (bad : Prop).
Definition excused : Prop := ~ Cooperative zcmd zout View P \/ bad.
Definition Iv (v : View) : Prop := Inv v /\ beside v1 v.
Abbreviation T := (triple Iv excused).
Abbreviation cmd := (prog string (World P)).
Lemma excuse : ~ Cooperative zcmd zout View P -> excused.
Proof. by left. Qed.

(** What else does not change while the staging dataset does. *)
Record kept (v v' : View) : Prop := {
  ke_target : pool dst v' !! target = pool dst v !! target;
  ke_root : pool dst v' !! root = pool dst v !! root;
  ke_backup : here v' !! backup = here v !! backup }.
#[export] Instance kept_order : PreOrder kept.
Proof. split; [by intros v; split|]. intros v v' v'' [T1 R1 B1] [T2 R2 B2]. split; congruence. Qed.
Definition have_snap (v : View) : Prop := is_Some (snap_of backup (pr_Snapshot r) (here v)).
Lemma kept_snap v v' : kept v v' -> have_snap v -> have_snap v'.
Proof. intros [_ _ Hb]. unfold have_snap, snap_of. by rewrite Hb. Qed.
Lemma kept_upd_stage v d : kept v (upd dst stage d v).
Proof.
  destruct apart_all as (N1 & N2 & N3 & N4 & N5 & N6). split.
  - by apply upd_other; auto.
  - by apply upd_other; auto.
  - change (here (upd dst stage d v)) with (pool Here (upd dst stage d v)). by apply upd_other; auto.
Qed.
Lemma Iv_upd_stage v d : Iv v -> mine d -> staged v d -> Iv (upd dst stage d v).
Proof.
  intros [Hi Hb] Hm Hs. destruct apart_all as (N1 & N2 & N3 & N4 & N5 & N6). split; [by apply inv_upd_stage|].
  apply beside_upd; [done|apply list_elem_of_here|congruence|congruence].
Qed.

(** *** Single commands *)

Lemma t_ask c v : Iv v -> zmutating c = false -> excused \/ zready c v -> T (fun v' => v' = v) (run c) (fun out v' => v' = v /\ zanswers c v out).
Proof.
  intros Hi Hm Hr. eapply triple_post; [|apply (triple_ask Iv excused excuse c (fun v' => v' = v)); [done|by intros ? ->]].
  by intros out v' [-> Ha].
Qed.
Lemma t_try c v : Iv v -> zmutating c = false -> T (fun v' => v' = v) (attempt (run c)) (fun r v' => v' = v /\
  match r with Ok out => zanswers c v out | Err _ => Cooperative zcmd zout View P -> ~ zready c v end).
Proof.
  intros Hi Hm. eapply triple_post; [|apply (triple_try Iv excused c (fun v' => v' = v)); [done|by intros ? ->]].
  by intros out v' [-> Ha].
Qed.
Lemma t_do c v : Iv v -> zmutating c = true -> excused \/ (exists v', changes_to c v v') -> (forall v', changes_to c v v' -> Iv v') ->
  T (fun v' => v' = v) (run_ c) (fun _ v' => changes_to c v v' /\ Iv v').
Proof.
  intros Hi Hm Hr Hs. apply (triple_do Iv excused excuse); [done| |].
  - intros ? ->. split; [done|]. destruct Hr as [?|[v' Hv]]; [by left|right; intros _]. cbn. unfold zready. rewrite Hm. by exists v'.
  - intros ? v' -> Hc. split; [by apply Hs|]. split; [done|by apply Hs].
Qed.
Lemma t_signal c v : Iv v -> zmutating c = false -> zready c v -> T (fun v' => v' = v) (run_ c) (fun _ v' => v' = v).
Proof.
  intros Hi Hm Hr. unfold run_. eapply triple_bind; [apply t_ask; [done..|by right]|]. intros out. apply triple_ret. by intros v' [-> _].
Qed.
Lemma t_get h key ds v : Iv v -> excused \/ is_Some (pool h v !! ds) -> T (fun v' => v' = v) (get h key ds) (fun x v' => v' = v /\ exists d, pool h v !! ds = Some d /\ x = prop key d).
Proof.
  intros Hi Hr. unfold get. eapply triple_bind; [apply t_ask; [done..|]|].
  - destruct Hr as [?|[d Hd]]; [by left|right]. exists (Text (prop key d)), d. done.
  - intros out. apply triple_ret. intros v' [-> (d & Hd & ->)]. split; [done|]. by exists d.
Qed.
Lemma t_guid h ds snap v : Iv v -> excused \/ is_Some (snap_of ds snap (pool h v)) ->
  T (fun v' => v' = v) (guid_of h ds snap) (fun x v' => v' = v /\ exists s, snap_of ds snap (pool h v) = Some s /\ x = guid s).
Proof.
  intros Hi Hr. unfold guid_of. eapply triple_bind; [apply t_ask; [done..|]|].
  - destruct Hr as [?|[d Hd]]; [by left|right]. exists (Text (guid d)), d. done.
  - intros out. apply triple_ret. intros v' [-> (d & Hd & ->)]. split; [done|]. by exists d.
Qed.
Lemma t_named c (f : Dataset -> option (string * string)) h ds v : Iv v -> (c = Origin h ds /\ f = origin) \/ (c = Token h ds /\ f = token) ->
  excused \/ is_Some (pool h v !! ds) -> T (fun v' => v' = v) (named c) (fun x v' => v' = v /\ exists d, pool h v !! ds = Some d /\ x = f d).
Proof.
  intros Hi Hc Hr. unfold named. eapply triple_bind; [apply t_ask; [done|by destruct Hc as [[-> _]|[-> _]]|]|].
  - destruct Hr as [?|[d Hd]]; [by left|right]. destruct Hc as [[-> _]|[-> _]]; [exists (Named (origin d)), d|exists (Named (token d)), d]; done.
  - intros out. apply triple_ret. intros v' [-> Ha]. split; [done|]. destruct Hc as [[-> ->]|[-> ->]]; destruct Ha as (d & Hd & ->); by exists d.
Qed.
Lemma t_listing h ds v : Iv v -> excused \/ is_Some (pool h v !! ds) ->
  T (fun v' => v' = v) (listing h ds) (fun x v' => v' = v /\ exists d, pool h v !! ds = Some d /\ x ≡ₚ map_to_list (guid <$> snaps d)).
Proof.
  intros Hi Hr. unfold listing. eapply triple_bind; [apply t_ask; [done..|]|].
  - destruct Hr as [?|[d Hd]]; [by left|right]. by exists (Table (map_to_list (guid <$> snaps d))), d, (map_to_list (guid <$> snaps d)).
  - intros out. apply triple_ret. intros v' [-> (d & l & Hd & -> & Hl)]. split; [done|]. by exists d.
Qed.
Lemma t_holds ds snap s v : Iv v -> snap_of ds snap (here v) = Some s -> T (fun v' => v' = v) (snapshotHolds Here ds snap) (fun x v' => v' = v /\ x = holds s).
Proof.
  intros Hi Hs. unfold snapshotHolds. eapply triple_bind; [apply t_ask; [done..|right; by exists (Tags (holds s)), s]|].
  intros out. apply triple_ret. intros v' [-> (s' & Hs' & ->)]. cbn in *. by simplify_eq.
Qed.
Lemma t_there h ds v : Iv v -> T (fun v' => v' = v) (there_is h ds) (fun b v' => v' = v /\
  if b : bool then is_Some (pool h v !! ds) else Cooperative zcmd zout View P -> pool h v !! ds = None).
Proof.
  intros Hi. unfold there_is. eapply triple_bind; [by apply t_try|]. intros res. apply triple_ret. intros v' [-> Ha]. split; [done|].
  destruct res as [out|e]; cbn in *; [done|]. intros HC. apply eq_None_not_Some. intros Hs. apply (Ha HC). by exists (Text "").
Qed.

Lemma t_verify_each h ds l v : Iv v -> excused \/ (exists d, pool h v !! ds = Some d /\ forall kv, kv ∈ l -> prop kv.1 d = kv.2) ->
  T (fun v' => v' = v) (verify_each h ds l) (fun _ v' => v' = v /\ forall d, pool h v !! ds = Some d -> forall kv, kv ∈ l -> prop kv.1 d = kv.2).
Proof.
  intros Hi. induction l as [|[key value] l IH]; intros Hr; cbn [verify_each].
  - apply triple_ret. intros v' ->. split; [done|]. by intros d _ kv []%elem_of_nil.
  - eapply triple_bind; [apply t_get; [done|]; destruct Hr as [?|(d & Hd & _)]; [by left|right; by exists d]|]. intros x.
    apply triple_case. intros v' (-> & d & Hd & ->). case_decide as E.
    + eapply triple_post; [|apply IH].
      * intros _ v' [-> Ha]. split; [done|]. intros d' Hd' kv [->|Hkv]%elem_of_cons; [by simplify_eq|by apply Ha].
      * destruct Hr as [?|(d' & Hd' & Ha)]; [by left|right]. exists d'. split; [done|]. intros kv Hkv. apply Ha. by constructor.
    + apply triple_fail. intros v' ->. split; [done|]. destruct Hr as [?|(d' & Hd' & Ha)]; [done|]. simplify_eq. destruct E.
      apply (Ha (key, value)). apply list_elem_of_here.
Qed.

(** *** Staging *)

(** The staging dataset is there, and as it must be. *)
Definition at_stage (Q : Dataset -> Prop) (v : View) : Prop := exists d, pool dst v !! stage = Some d /\ mine d /\ staged v d /\ Q d.
Definition ready_stage (v : View) : Prop := exists d, pool dst v !! stage = Some d /\ mine d /\ complete v d.

Lemma t_verify_stage v m : Iv v -> is_Some (pool dst v !! stage) -> identity (pr_BackupNodeID r) m = identity (pr_BackupNodeID r) meta ->
  T (fun v' => v' = v) (verifyRestoreOwnership dst stage (pr_BackupNodeID r) m) (fun _ v' => v' = v).
Proof.
  intros Hi [d Hd] E. unfold verifyRestoreOwnership. rewrite E. eapply triple_post; [|apply t_verify_each; [done|]]; [by intros _ v' [-> _]|].
  right. exists d. split; [done|]. by apply (inv_stage v (proj1 Hi) d).
Qed.

Lemma t_local v : Iv v -> local r = true -> have_snap v ->
  T (fun v' => v' = v) (prepareLocalRestore backup stage (pr_BackupNodeID r) meta) (fun _ v' => Iv v' /\ kept v v' /\ ready_stage v').
Proof.
  intros Hi Hl Hs. assert (Hdst : dst = Here) by (unfold dst; by rewrite Hl). unfold prepareLocalRestore.
  eapply triple_bind; [by apply t_there|]. intros found. apply triple_case. intros v' [-> Hf]. rewrite <- Hdst in *. destruct found.
  - eapply triple_bind; [by apply t_verify_stage|]. skip.
    eapply triple_bind; [apply (t_named _ origin dst stage); [done|by left|by right]|]. intros o. apply triple_case. intros v' (-> & d & Hd & ->).
    destruct (inv_stage v (proj1 Hi) d Hd) as [Hm [Hc|[? _]]]; [|congruence]. assert (Ho := Hc). unfold complete in Ho. rewrite Hl in Ho. destruct Ho as (-> & _).
    rewrite bool_decide_true by done. apply triple_ret. intros v' ->. split; [done|]. split; [done|]. by exists d.
  - destruct Hs as [sn Hsn].
    assert (Hch : forall v', changes_to (Clone backup (Snapshot meta) (restoreProperties (pr_BackupNodeID r) meta) stage) v v' ->
      v' = upd dst stage (mkDataset (restoreProperties (pr_BackupNodeID r) meta) ∅ None (Some (backup, pr_Snapshot r)) false) v).
    { intros v' (m & h & f & p & [= <- <-] & Hp & ->). rewrite <- Hdst in *. unfold snap_of in Hsn. change (here v) with (pool Here v) in Hsn. rewrite <- Hdst in Hsn.
      cbn in Hp. destruct (pool dst v !! backup) as [d|]; [|done]. cbn in Hp, Hsn. rewrite Hsn in Hp. cbn in Hp. unfold added in Hp.
      destruct (pool dst v !! stage); [done|]. injection Hp as <-. by apply set_insert. }
    assert (Hst : staged v (mkDataset (restoreProperties (pr_BackupNodeID r) meta) ∅ None (Some (backup, pr_Snapshot r)) false)).
    { left. unfold complete. rewrite Hl. split_and!; try done; by exists sn. }
    assert (Hiv := Iv_upd_stage v _ Hi (mine_created ∅ None (Some (backup, pr_Snapshot r)) false) Hst).
    eapply triple_post; [|apply t_do; [done..| |]].
    + intros _ v' [->%Hch Hi']. split; [done|]. split; [apply kept_upd_stage|]. eexists. split; [apply upd_same|]. split; [apply mine_created|].
      destruct (inv_stage _ (proj1 Hi') _ (upd_same _ _ _ _)) as [_ [?|[? _]]]; [done|congruence].
    + destruct (pool dst v !! stage) as [d|] eqn:Es; [left|right].
      * left. intros HC. by specialize (Hf HC).
      * eapply can; [by exists false|]. rewrite <- Hdst. unfold snap_of in Hsn. change (here v) with (pool Here v) in Hsn. rewrite <- Hdst in Hsn.
        cbn. destruct (pool dst v !! backup) as [d|]; [|done]. cbn in *. rewrite Hsn. cbn. unfold added. by rewrite Es.
    + by intros v' ->%Hch.
Qed.

(** The receiver, once the staging dataset is there. *)
Record requestable : Prop := {
  rq_ids : Backup.validBackupDataset (pr_Dataset r) && Backup.backupID (pr_SourceNodeID r) && Backup.backupID (pr_BackupNodeID r) &&
    Backup.backupID (pr_OperationID r) && validRestoreMount (pr_MountID r) && IsAutomatedSnapshot (chars (pr_Snapshot r)) = true;
  rq_dest : local r = true \/
    Backup.backupID (pr_DestNodeID r) && (ParseIP (Backup.Trim (pr_DestHost r)) || Backup.word_of ["."; "-"]%char (Backup.Trim (pr_DestHost r))) &&
    (0 <=? pr_DestPort r)%Z && (pr_DestPort r <=? 65535)%Z = true;
  rq_meta : validRestoreMetadata meta = true;
  rq_stage : validRestoreStage stage (pr_BackupNodeID r) (pr_OperationID r) (pr_MountID r) = true;
  rq_target : Backup.validBackupDataset target && negb (List.length (split target) <? 3)%nat && bool_decide (part 0 target = part 0 stage) &&
    negb (bool_decide (part 1 target ∈ reserved_names)) = true;
  rq_root : Backup.validBackupDataset root && (List.length (split root) =? 2)%nat && negb (bool_decide (part 1 root ∈ reserved_names)) = true }.
Hypothesis valid : bad \/ requestable.

Lemma t_serve v action input (Q : option BackupState -> View -> Prop) : Iv v -> local r = false -> action ∈ ["state"; "abort"; "receive"] ->
  (forall v', Iv v' -> kept v v' -> (is_Some (pool dst v !! stage) -> v' = v) -> is_Some (pool dst v' !! stage) ->
     T (fun w => w = v') (serve_restore stage (pr_BackupNodeID r) meta action input) Q) ->
  T (fun v' => v' = v) (ServeRestoreReceiver (pr_BackupNodeID r) ["zfs-restore"; action; stage; Marshal meta] input) Q.
Proof.
  intros Hi Hl Ha Hserve. assert (Hdst : dst = There) by (unfold dst; by rewrite Hl). unfold ServeRestoreReceiver.
  rewrite bool_decide_true by done. rewrite Unmarshal_Marshal. destruct (_ || _) eqn:Ev.
  { apply triple_fail. intros ? ->. split; [done|]. destruct valid as [?|[_ _ E1 E2 _ _]]; [by right|]. cbn in Ev. by rewrite E1, E2 in Ev. }
  eapply triple_bind; [by apply t_signal|]. skip. eapply triple_bind; [by apply t_there|]. intros found. apply triple_case. intros v' [-> Hf]. rewrite <- Hdst in *.
  eapply (triple_bind _ _ _ _ _ (fun _ v' => Iv v' /\ kept v v' /\ (is_Some (pool dst v !! stage) -> v' = v) /\ is_Some (pool dst v' !! stage))).
  - destruct found; [by apply triple_ret; intros ? ->|].
    assert (Hch : forall v', changes_to (Create dst (restoreProperties (pr_BackupNodeID r) meta) stage) v v' ->
      pool dst v !! stage = None /\ v' = upd dst stage (empty_dataset (restoreProperties (pr_BackupNodeID r) meta)) v).
    { intros v' (m & h & f & p & [= <- <-] & Hp & ->). unfold added in Hp. destruct (pool dst v !! stage); [done|]. injection Hp as <-. split; [done|]. by apply set_insert. }
    eapply triple_post; [|apply t_do; [done..| |]].
    + intros _ v' [[En ->]%Hch Hi']. split; [done|]. split; [apply kept_upd_stage|]. rewrite En. split; [by intros []|]. rewrite upd_same. done.
    + destruct (pool dst v !! stage) as [d|] eqn:Es; [left|right].
      * left. intros HC. by specialize (Hf HC).
      * eapply can; [by exists false|]. unfold added. by rewrite Es.
    + intros v' [_ ->]%Hch. apply Iv_upd_stage; [done|apply mine_created|]. right. split; [done|]. split_and!; try done; by left.
  - skip. apply triple_case. intros v' (Hi' & Hk & Hsame & Hst). eapply triple_bind; [by apply t_verify_stage|]. skip. by apply Hserve.
Qed.
Lemma t_remote v action input (Q : option BackupState -> View -> Prop) : Iv v -> local r = false -> action ∈ ["state"; "abort"; "receive"] ->
  (forall a v', Q a v' -> Iv v') ->
  (forall v', Iv v' -> kept v v' -> (is_Some (pool dst v !! stage) -> v' = v) -> is_Some (pool dst v' !! stage) ->
     T (fun w => w = v') (serve_restore stage (pr_BackupNodeID r) meta action input) Q) ->
  T (fun v' => v' = v) (remote (pr_BackupNodeID r) stage meta action input) Q.
Proof.
  intros Hi Hl Ha HQ Hserve. unfold remote. eapply triple_bind; [by apply t_signal|]. skip. eapply triple_bind; [by apply t_serve|]. intros a.
  apply triple_case. intros v' Hq. eapply triple_bind; [by apply t_signal; [apply (HQ a)|..]|]. skip. apply triple_ret. by intros ? ->.
Qed.

Definition told (st : BackupState) (d : Dataset) : Prop := st_ResumeToken st = token d /\ st_Snapshots st ≡ₚ map_to_list (guid <$> snaps d).
Lemma t_state v : Iv v -> local r = false ->
  T (fun v' => v' = v) (state (pr_BackupNodeID r) stage meta) (fun st v' => Iv v' /\ kept v v' /\ (is_Some (pool dst v !! stage) -> v' = v) /\ at_stage (told st) v').
Proof.
  intros Hi Hl. assert (Hdst : dst = There) by (unfold dst; by rewrite Hl). unfold state.
  eapply (triple_bind _ _ _ _ _ (fun a v' => exists st, a = Some st /\ Iv v' /\ kept v v' /\ (is_Some (pool dst v !! stage) -> v' = v) /\ at_stage (told st) v')).
  - apply t_remote; [done..|apply list_elem_of_here|by intros a v' (st & _ & ? & _)|]. intros v' Hi' Hk Hsame Hst. unfold serve_restore.
    rewrite decide_False, decide_True by done. rewrite <- Hdst. eapply triple_bind; [apply (t_named _ token dst stage); [done|by right|by right]|].
    intros t. apply triple_case. intros w (-> & d & Hd & ->). eapply triple_bind; [apply t_listing; [done|by right]|]. intros l. apply triple_ret.
    intros w (-> & d' & Hd' & Hl'). simplify_eq. eexists. split; [done|]. split; [done|]. split; [done|]. split; [done|]. exists d.
    destruct (inv_stage _ (proj1 Hi') d Hd). by split_and!.
  - intros a. apply triple_case. intros v' (st & -> & Hq). apply triple_ret. by intros ? ->.
Qed.

(** A stream of the snapshot that was asked for. *)
Lemma t_receive v (resume : bool) d : Iv v -> local r = false -> pool dst v !! stage = Some d -> awaiting d -> token d = (if resume then Some (pr_Snapshot r, G) else None) ->
  T (fun v' => v' = v) (remote (pr_BackupNodeID r) stage meta "receive" (Some (mkStream resume (pr_Snapshot r) G)))
    (fun _ v' => Iv v' /\ kept v v' /\ ready_stage v').
Proof.
  intros Hi Hl Hd (Ho & Hs & _) Ht. assert (Hdst : dst = There) by (unfold dst; by rewrite Hl).
  destruct (inv_stage _ (proj1 Hi) d Hd) as [Hm _].
  apply t_remote; [done..|apply list_elem_of_further, list_elem_of_further, list_elem_of_here|by intros a v' (? & _)|]. intros v' _ _ Hsame _. rewrite (Hsame ltac:(by eexists)).
  unfold serve_restore. rewrite !decide_False by done. rewrite <- Hdst. cbn [st_resume st_Name st_GUID].
  set (d2 := set_token (Some (pr_Snapshot r, G)) d).
  assert (Hm2 : mine d2) by exact Hm. assert (Hs2 : staged v d2) by (right; split; [done|]; split_and!; [done..|by right]).
  assert (Hch : forall w, changes_to (Part dst resume stage (pr_Snapshot r) G) v w -> w = upd dst stage d2 v).
  { intros w (m & h & f & p & [= <- <-] & Hp & ->). unfold with_dataset in Hp. rewrite Hd in Hp. cbn in Hp. destruct (_ && _); [|done]. injection Hp as <-. by apply set_insert. }
  eapply triple_bind; [apply t_do; [done..| |]|].
  - right. eapply can; [by exists false|]. unfold with_dataset. rewrite Hd. cbn. by rewrite Hs, Ho, Ht, !bool_decide_true.
  - intros w ->%Hch. by apply Iv_upd_stage.
  - skip. apply triple_case. intros w [->%Hch Hi2]. set (v2 := upd dst stage d2 v) in *. assert (Hd2 : pool dst v2 !! stage = Some d2) by apply upd_same.
    set (d3 := mkDataset (restoreProperties (pr_BackupNodeID r) meta ∪ props d2) {[ pr_Snapshot r := mkSnap G [] ]} None None (mounted d2)).
    assert (Hc3 : complete v2 d3) by (unfold complete; by rewrite Hl).
    assert (Hi3 : Iv (upd dst stage d3 v2)) by (apply Iv_upd_stage; [done|apply mine_restored|by left]).
    assert (Hch2 : forall w, changes_to (Receive dst (restoreProperties (pr_BackupNodeID r) meta) stage (pr_Snapshot r) G) v2 w -> w = upd dst stage d3 v2).
    { intros w (m & h & f & p & [= <- <-] & Hp & ->). unfold with_dataset in Hp. rewrite Hd2 in Hp. cbn in Hp. destruct (bool_decide _); [|done]. injection Hp as <-. by apply set_insert. }
    eapply triple_bind; [apply t_do; [done..| |]|].
    + right. eapply can; [by exists false|]. unfold with_dataset. rewrite Hd2. cbn. by rewrite bool_decide_true.
    + by intros w ->%Hch2.
    + skip. apply triple_ret. intros w [->%Hch2 _]. split; [done|]. split; [etrans; apply kept_upd_stage|].
      exists d3. split; [apply upd_same|]. split; [apply mine_restored|]. unfold complete. by rewrite Hl.
Qed.

Lemma have_dataset v : have_snap v -> is_Some (pool Here v !! backup).
Proof. intros [sn Hs]. unfold snap_of in Hs. cbn. by destruct (here v !! backup). Qed.
(** The token is good for what was asked for, or is to be retired. *)
Lemma t_validate v t : Iv v -> have_snap v ->
  T (fun v' => v' = v) (validateToken backup (pr_Snapshot r) t) (fun o v' => v' = v /\ (o = None \/ (t = (pr_Snapshot r, G) /\ o = Some t))).
Proof.
  intros Hi Hs. unfold validateToken.
  eapply (triple_bind _ _ _ _ _ (fun res v' => v' = v /\ match res with Ok o => o = Some t | Err _ => ~ Cooperative zcmd zout View P end)).
  { intros w Hw Hf. pose proof (t_try (TestToken t.1 t.2) v Hi eq_refl w Hw Hf) as [Hf' Hr]. unfold attempt, named in *. rewrite bind_run in *.
    destruct (run (TestToken t.1 t.2) w) as [[out|e] w']; cbn in *; (split; [done|]); destruct Hr as [-> Ha]; (split; [done|]).
    - rewrite Ha. by destruct t.
    - intros HC. apply (Ha HC). by exists (Named (Some (t.1, t.2))). }
  intros [o|e]; apply triple_case; intros v' [-> Hr].
  - subst o. destruct t as [name g]. destruct (_ || _) eqn:Eb; [apply triple_ret; intros ? ->; split; [done|by left]|].
    apply orb_false_iff in Eb as [_ En%negb_false_iff]. apply bool_decide_eq_true in En. subst name.
    eapply triple_bind; [apply t_listing; [done|right; by apply have_dataset]|]. intros l. apply triple_ret. intros ? (-> & d & Hd & Hl). split; [done|].
    case_bool_decide as Ein; [right|by left]. rewrite Hl in Ein. apply elem_of_map_to_list in Ein. rewrite lookup_fmap in Ein.
    destruct (snaps d !! pr_Snapshot r) as [sn|] eqn:Es; [|done]. injection Ein as <-.
    assert (Eg : guid sn = G) by (apply (inv_backup v (proj1 Hi)); unfold snap_of; cbn in Hd; rewrite Hd; exact Es). by rewrite Eg.
  - destruct (unusable e); [apply triple_ret; intros ? ->; split; [done|by left]|]. apply triple_fail. intros ? ->. split; [done|by left].
Qed.

Lemma t_retire v t d : Iv v -> local r = false -> have_snap v -> pool dst v !! stage = Some d -> token d = Some t ->
  T (fun v' => v' = v) (retire_token backup (pr_BackupNodeID r) stage meta t) (fun _ v' => Iv v' /\ kept v v' /\ at_stage (fun d => token d = None) v').
Proof.
  intros Hi Hl Hs Hd Ht. assert (Hdst : dst = There) by (unfold dst; by rewrite Hl). destruct (inv_stage _ (proj1 Hi) d Hd) as [Hm Hst].
  assert (Haw : awaiting d). { destruct Hst as [Hc|[_ ?]]; [|done]. unfold complete in Hc. rewrite Hl in Hc. destruct Hc as (_ & _ & ?). congruence. }
  assert (Et : token d = Some (pr_Snapshot r, G)) by (destruct Haw as (_ & _ & [?|?]); congruence).
  unfold retire_token. eapply triple_bind; [by apply t_validate|]. intros o. apply triple_case. intros v' [-> [->|[-> ->]]].
  - eapply (triple_bind _ _ _ _ _ (fun _ v' => Iv v' /\ kept v v' /\ at_stage (fun d => token d = None) v')); [|skip; by apply triple_ret].
    apply t_remote; [done..|apply list_elem_of_further, list_elem_of_here|by intros a v' (? & _)|]. intros v' _ _ Hsame _. rewrite (Hsame ltac:(by eexists)).
    unfold serve_restore. rewrite decide_True by done. rewrite <- Hdst.
    assert (Hch : forall w, changes_to (AbortReceive dst stage) v w -> w = upd dst stage (set_token None d) v).
    { intros w (m & h & f & p & [= <- <-] & Hp & ->). unfold with_dataset in Hp. rewrite Hd in Hp. cbn in Hp. rewrite Ht in Hp. injection Hp as <-. by apply set_insert. }
    assert (Hi2 : Iv (upd dst stage (set_token None d) v)).
    { apply Iv_upd_stage; [done|exact Hm|]. right. split; [done|]. destruct Haw as (? & ? & _). split_and!; [done..|by left]. }
    eapply triple_bind; [apply t_do; [done..| |]|].
    + right. eapply can; [by exists false|]. unfold with_dataset. rewrite Hd. cbn. by rewrite Ht.
    + by intros w ->%Hch.
    + skip. apply triple_ret. intros w [->%Hch _]. split; [done|]. split; [apply kept_upd_stage|]. exists (set_token None d).
      destruct (inv_stage _ (proj1 Hi2) _ (upd_same _ _ _ _)). split_and!; [apply upd_same|done..].
  - eapply triple_bind; [by apply (t_receive v true d)|]. skip. apply triple_ret. intros w (Hi2 & Hk & d2 & Hd2 & Hm2 & Hc2).
    split; [done|]. split; [done|]. exists d2. split_and!; [done..|by left|]. unfold complete in Hc2. rewrite Hl in Hc2. apply Hc2.
Qed.
Lemma t_full v d : Iv v -> local r = false -> have_snap v -> pool dst v !! stage = Some d -> awaiting d -> token d = None ->
  T (fun v' => v' = v) (send_full backup (pr_BackupNodeID r) stage meta) (fun _ v' => Iv v' /\ kept v v' /\ ready_stage v').
Proof.
  intros Hi Hl Hs Hd Ha Ht. unfold send_full. eapply triple_bind; [apply t_guid; [done|by right]|]. intros g. apply triple_case. intros v' (-> & sn & Hsn & ->).
  cbn in Hsn. rewrite (inv_backup v (proj1 Hi) sn Hsn). eapply triple_bind; [by apply (t_receive v false d)|]. skip. apply triple_ret. by intros ? ?.
Qed.

Lemma guids_received d : received d -> map_to_list (guid <$> snaps d) = [(pr_Snapshot r, G)].
Proof. intros (_ & -> & _). by rewrite map_fmap_singleton, map_to_list_singleton. Qed.
Lemma t_prepare_remote v : Iv v -> local r = false -> have_snap v ->
  T (fun v' => v' = v) (prepareRemoteRestore (pr_BackupNodeID r) backup stage meta) (fun _ v' => Iv v' /\ kept v v' /\ ready_stage v').
Proof.
  intros Hi Hl Hs. unfold prepareRemoteRestore. eapply triple_bind; [by apply t_state|]. intros st. apply triple_case.
  intros v2 (Hi2 & Hk2 & _ & d & Hd & Hm & Hst & Htok & Hsn).
  eapply (triple_bind _ _ _ _ _ (fun st v' => Iv v' /\ kept v v' /\ at_stage (fun d => told st d /\ token d = None) v')).
  { rewrite Htok. destruct (token d) as [t|] eqn:Et.
    - eapply triple_bind; [by apply (t_retire v2 t d); [..|by apply (kept_snap v)| |]|]. skip. apply triple_case. intros v3 (Hi3 & Hk3 & d3 & Hd3 & _ & _ & Et3).
      eapply triple_post; [|by apply t_state]. intros st3 v4 (Hi4 & Hk4 & Hsame & d4 & Hd4 & Hm4 & Hst4 & Htold). rewrite (Hsame ltac:(by eexists)) in *.
      simplify_eq. split; [done|]. split; [by etrans|]. by exists d3.
    - apply triple_ret. intros ? ->. split; [done|]. split; [done|]. exists d. do 3 (split; [done|]). split; [split; [congruence|done]|done]. }
  clear st v2 Hi2 Hk2 d Hd Hm Hst Htok Hsn. intros st. apply triple_case. intros v2 (Hi2 & Hk2 & d & Hd & Hm & Hst & [Htok Hsn] & Et).
  rewrite Htok, Et, bool_decide_false by (by intros []).
  eapply (triple_bind _ _ _ _ _ (fun st v' => Iv v' /\ kept v v' /\ ready_stage v' /\ st_ResumeToken st = None /\ st_Snapshots st = [(pr_Snapshot r, G)])).
  - destruct Hst as [Hc|[_ Ha]].
    + assert (Hr := Hc). unfold complete in Hr. rewrite Hl in Hr. rewrite (guids_received d Hr), Permutation_singleton_r in Hsn.
      rewrite decide_False by (by rewrite Hsn). apply triple_ret. intros ? ->. split; [done|]. split; [done|]. split; [by exists d|]. split; [congruence|done].
    + assert (E : st_Snapshots st = []) by (destruct Ha as (_ & E & _); rewrite E, fmap_empty, map_to_list_empty in Hsn; by apply Permutation_nil_r).
      rewrite decide_True by done. eapply triple_bind; [by apply (t_full v2 d); [..|by apply (kept_snap v)| | |]|]. skip. apply triple_case.
      intros v3 (Hi3 & Hk3 & d3 & Hd3 & Hm3 & Hc3). eapply triple_post; [|by apply t_state].
      intros st4 v4 (Hi4 & Hk4 & Hsame & d4 & Hd4 & Hm4 & Hst4 & Htok4 & Hsn4). rewrite (Hsame ltac:(by eexists)) in *. simplify_eq.
      assert (Hr := Hc3). unfold complete in Hr. rewrite Hl in Hr. rewrite (guids_received d3 Hr), Permutation_singleton_r in Hsn4.
      split; [done|]. split; [by do 2 (etrans; [done|])|]. split; [by exists d3|]. split; [|done]. destruct Hr as (_ & _ & ?). congruence.
  - clear st Htok Hsn. intros st. apply triple_case. intros v3 (Hi3 & Hk3 & Hr3 & Htok & Hsn). rewrite Htok, Hsn, !bool_decide_true by done.
    apply triple_ret. by intros ? ->.
Qed.

(** *** Holds of the backup *)

Definition marked (d : Dataset) (s' : Snap) : Dataset := set_snaps (insert (pr_Snapshot r) s') d.
Lemma Iv_mark v d s s' : Iv v -> here v !! backup = Some d -> snaps d !! pr_Snapshot r = Some s -> guid s' = guid s -> Iv (upd Here backup (marked d s') v).
Proof.
  intros [[Hb Hs Ht] [Bo Bb Bt Br]] Hd Hsn Eg. destruct apart_all as (N1 & N2 & N3 & N4 & N5 & N6). set (d' := marked d s'). set (v' := upd Here backup d' v).
  assert (Hd' : here v' !! backup = Some d') by apply (upd_same Here).
  assert (Hsn' : snap_of backup (pr_Snapshot r) (here v') = Some s') by (unfold snap_of; rewrite Hd'; cbn; apply lookup_insert_eq).
  assert (Hg : guid <$> snaps d' = guid <$> snaps d) by (cbn; rewrite fmap_insert, insert_id; [done|]; by rewrite lookup_fmap, Hsn, Eg).
  assert (Hc : forall e, complete v e -> complete v' e).
  { intros e. unfold complete, cloned. destruct (local r); [|done]. intros (? & ? & ? & _). rewrite Hsn'. by split_and!. }
  assert (Hother : forall n, n <> backup -> pool dst v' !! n = pool dst v !! n) by (intros n Hn; apply upd_other; by right; congruence).
  split; split.
  - rewrite Hsn'. intros ? [= <-]. rewrite Eg. apply Hb. unfold snap_of. by rewrite Hd.
  - intros e. rewrite Hother by congruence. intros He. destruct (Hs e He) as [? [?|?]]; (split; [done|]); [left; by apply Hc|by right].
  - intros e. rewrite Hother by congruence. intros He. destruct (Ht e He) as [?|[? ?]]; [by left|right; split; [done|by apply Hc]].
  - intros h n Hx1 Hx2. unfold v'. rewrite upd_other; [by apply Bo|]. destruct (decide (Here = h)) as [<-|]; [right|by left]. intros <-. by destruct Hx2.
  - rewrite Hd'. rewrite Hd in Bb. destruct (here v1 !! backup) as [d1|]; [|done]. destruct Bb as (? & ? & ? & ? & ?). split_and!; try done. congruence.
  - intros e. rewrite Hother by congruence. apply Bt.
  - intros e. rewrite Hother by congruence. apply Br.
Qed.
(** Marking the snapshot changes nothing else. *)
Definition marks (v : View) (f : Snap -> option Snap) (v' : View) : Prop :=
  Iv v' /\ (forall n, n <> backup -> pool dst v' !! n = pool dst v !! n) /\
  exists d s s', here v !! backup = Some d /\ snaps d !! pr_Snapshot r = Some s /\ f s = Some s' /\ here v' !! backup = Some (marked d s').
Lemma t_mark c f v : c = Hold tag backup (pr_Snapshot r) \/ c = Release tag backup (pr_Snapshot r) -> (exists m, changes c m = Some (Here, with_snap f backup (pr_Snapshot r))) ->
  (forall s s', f s = Some s' -> guid s' = guid s) -> Iv v -> (exists s s', snap_of backup (pr_Snapshot r) (here v) = Some s /\ f s = Some s') ->
  T (fun v' => v' = v) (run_ c) (fun _ v' => marks v f v').
Proof.
  intros Hc [m Hm] Hf Hi (s & s' & Hs & Es). unfold snap_of in Hs. destruct (here v !! backup) as [d|] eqn:Hd; [|done]. cbn in Hs.
  assert (Hch : forall w, changes_to c v w -> w = upd Here backup (marked d s') v).
  { intros w (m' & h & g & p & E & Hp & ->). assert (E' : changes c m' = changes c m) by (by destruct Hc as [->| ->]). rewrite E', Hm in E. injection E as <- <-.
    unfold with_snap in Hp. cbn [pool] in Hp. rewrite Hd in Hp. cbn in Hp. rewrite Hs in Hp. cbn in Hp. rewrite Es in Hp. injection Hp as <-. by apply set_insert. }
  assert (Hi2 := Iv_mark v d s s' Hi Hd Hs (Hf _ _ Es)).
  eapply triple_post; [|apply t_do; [done|by destruct Hc as [->| ->]| |]].
  - intros _ w [->%Hch _]. split; [done|]. split; [intros n Hn; apply upd_other; by right; congruence|]. exists d, s, s'. split_and!; [done..|apply (upd_same Here)].
  - right. eapply can; [by exists m|]. unfold with_snap. cbn [pool]. rewrite Hd. cbn. rewrite Hs. cbn. by rewrite Es.
  - by intros w ->%Hch.
Qed.

(** *** Preparing *)

(** The backup is what it must be. *)
Definition offered (v : View) : Prop :=
  exists d, here v !! backup = Some d /\ prop "floatlab:backup-source" d = pr_SourceNodeID r /\ is_Some (snaps d !! pr_Snapshot r).
Lemma offered_snap v : offered v -> have_snap v.
Proof. intros (d & Hd & _ & Hs). unfold have_snap, snap_of. by rewrite Hd. Qed.

Lemma t_normalize v : Iv v -> local r = false -> T (fun v' => v' = v) (normalizeRestoreDestination r) (fun _ v' => v' = v).
Proof.
  intros Hi Hl. unfold normalizeRestoreDestination. cbv zeta.
  assert (Hex : forall e, (requestable -> False) -> T (fun v' => v' = v) (fail e : cmd unit) (fun _ v' => v' = v)).
  { intros e Hf. apply triple_fail. intros ? ->. split; [done|right]. destruct valid as [?|Hv]; [done|by destruct (Hf Hv)]. }
  assert (Hd : requestable -> Backup.backupID (pr_DestNodeID r) = true /\ (ParseIP (Backup.Trim (pr_DestHost r)) || Backup.word_of ["."; "-"]%char (Backup.Trim (pr_DestHost r))) = true /\
    (0 <= pr_DestPort r <= 65535)%Z).
  { intros [_ [?|Hd] _ _ _ _]; [congruence|]. apply andb_true_iff in Hd as [[[? ?]%andb_true_iff ?]%andb_true_iff ?]. split; [done|split; [done|lia]]. }
  destruct (negb (Backup.backupID _)) eqn:E1; [apply Hex; intros (E & _)%Hd; by rewrite E in E1|].
  destruct (_ && _) eqn:E2; [apply Hex; intros (_ & E & _)%Hd; by destruct (ParseIP _), (Backup.word_of _ _)|].
  destruct ((_ <? 1)%Z || _) eqn:E3; [apply Hex; intros (_ & _ & E)%Hd; destruct (Z.eqb_spec (pr_DestPort r) 0); lia|by apply triple_ret].
Qed.

Lemma t_prepare v : Iv v -> bad \/ offered v ->
  T (fun v' => v' = v) (PrepareBackupRestore r) (fun res v' => Iv v' /\ ready_stage v' /\ pool dst v' !! target = pool dst v !! target /\ pool dst v' !! root = pool dst v !! root /\
    res = mkPrepared stage (pr_Snapshot r) G).
Proof.
  intros Hi Hoff. destruct apart_all as (N1 & N2 & N3 & N4 & N5 & N6). unfold PrepareBackupRestore. destruct (_ || _) eqn:Eids.
  { apply triple_fail. intros ? ->. split; [done|right]. destruct valid as [?|[Hv _ _ _ _ _]]; [done|]. revert Eids Hv.
    by destruct (Backup.validBackupDataset _), (Backup.backupID (pr_SourceNodeID r)), (Backup.backupID (pr_BackupNodeID r)), (Backup.backupID (pr_OperationID r)), (validRestoreMount _), (IsAutomatedSnapshot _). }
  eapply (triple_bind _ _ _ _ _ (fun _ v' => v' = v)); [destruct (local r) eqn:El; [by apply triple_ret|by apply t_normalize]|skip].
  cbv zeta. fold backup stage tag. eapply triple_bind; [by apply t_signal|]. skip.
  eapply triple_bind; [apply t_get; [done|]; destruct Hoff as [?|(d & Hd & _)]; [left; by right|right; by exists d]|]. intros owner. apply triple_case. intros v' (-> & d & Hd & ->).
  clear Eids. destruct (negb _) eqn:Eown.
  { apply triple_fail. intros ? ->. split; [done|]. destruct Hoff as [?|(d' & Hd' & Ho & _)]; [by right|]. cbn in Hd. simplify_eq. by rewrite bool_decide_true in Eown. }
  eapply triple_bind; [apply t_guid; [done|]; destruct Hoff as [?|?%offered_snap]; [left; by right|by right]|]. intros g. apply triple_case. intros v' (-> & s & Hs & ->).
  cbn [pool] in Hs. rewrite (inv_backup v (proj1 Hi) s Hs). fold meta. destruct (negb (validRestoreMetadata meta)) eqn:Em.
  { apply triple_fail. intros ? ->. split; [done|right]. destruct valid as [?|[_ _ Hv _ _ _]]; [done|]. by rewrite Hv in Em. }
  eapply triple_bind; [by apply t_holds|]. intros tags. apply triple_case. intros v' [-> ->].
  (* the snapshot is held *)
  eapply (triple_bind _ _ _ _ _ (fun _ v' => Iv v' /\ (forall n, n <> backup -> pool dst v' !! n = pool dst v !! n) /\ exists s', snap_of backup (pr_Snapshot r) (here v') = Some s' /\ tag ∈ holds s')).
  { destruct (decide (tag ∈ holds s)) as [Ht|Ht].
    - apply triple_ret. intros ? ->. split; [done|]. split; [done|]. by exists s.
    - eapply triple_post; [|apply (t_mark _ (fun s => if decide (tag ∈ holds s) then None else Some (set_holds (cons tag) s)) v); [by left|by exists false| |done|]].
      + intros _ v' (Hi' & Ho & d' & s0 & s' & _ & _ & Es & Hb). split; [done|]. split; [done|]. exists s'. split; [unfold snap_of; rewrite Hb; apply lookup_insert_eq|].
        destruct (decide (tag ∈ holds s0)); [done|]. injection Es as <-. apply list_elem_of_here.
      + intros s0 s'. cbv beta. destruct (decide (tag ∈ holds s0)); [done|]. by intros [= <-].
      + exists s. eexists. split; [done|]. by rewrite decide_False. }
  skip. apply triple_case. intros v2 (Hi2 & Ho2 & s2 & Hs2 & Ht2).
  (* what was asked for is staged *)
  eapply (triple_bind _ _ _ _ _ (fun _ v' => Iv v' /\ kept v2 v' /\ ready_stage v')).
  { destruct (local r) eqn:El; [|by apply t_prepare_remote; [..|exists s2]]. eapply triple_bind; [by apply t_signal|]. skip. by apply t_local; [..|exists s2]. }
  skip. apply triple_case. intros v3 (Hi3 & [Hkt Hkr Hkb] & d3 & Hd3 & Hm3 & Hc3).
  assert (Hs3 : snap_of backup (pr_Snapshot r) (here v3) = Some s2) by (unfold snap_of in *; by rewrite Hkb).
  eapply (triple_bind _ _ _ _ _ (fun _ v' => Iv v' /\ forall n, n <> backup -> pool dst v' !! n = pool dst v3 !! n)).
  { eapply triple_post; [|apply (t_mark _ (fun s => if decide (tag ∈ holds s) then Some (set_holds (filter (fun t => t <> tag)) s) else None) v3); [by right|by exists false| |done|]].
    - by intros _ v' (? & ? & _).
    - intros s0 s'. cbv beta. destruct (decide (tag ∈ holds s0)); [|done]. by intros [= <-].
    - exists s2. eexists. split; [done|]. by rewrite decide_True. }
  skip. apply triple_ret. intros v4 [Hi4 Ho4]. rewrite !Ho4 by congruence. split; [done|]. split.
  - exists d3. rewrite Ho4 by congruence. split; [done|]. split; [done|].
    destruct (inv_stage v4 (proj1 Hi4) d3) as [_ [?|[El Ha]]]; [by rewrite Ho4 by congruence|done|].
    unfold complete in *. by rewrite El in *.
  - rewrite Hkt, Hkr, !Ho2 by congruence. done.
Qed.

(** *** Activating *)

(** The data of the staging dataset are what was asked for. *)
Lemma t_data v d g : Iv v -> pool dst v !! stage = Some d -> excused \/ (complete v d /\ g = G) ->
  T (fun v' => v' = v) (verifyRestoreData dst stage g) (fun _ v' => v' = v /\ complete v d).
Proof.
  intros Hi Hd Hc. destruct (inv_stage v (proj1 Hi) d Hd) as [Hm Hst]. unfold verifyRestoreData.
  assert (Hex : forall e, (complete v d -> g = G -> False) -> T (fun v' => v' = v) (fail e : cmd unit) (fun _ v' => v' = v /\ complete v d)).
  { intros e Hf. apply triple_fail. intros ? ->. split; [done|]. destruct Hc as [?|[? ?]]; [done|by destruct Hf]. }
  eapply triple_bind; [apply (t_named _ token dst stage); [done|by right|right; by exists d]|]. intros t. apply triple_case. intros v' (-> & d' & Hd' & ->). simplify_eq.
  case_bool_decide as Et.
  { apply Hex. unfold complete, cloned, received. intros Hcc _. destruct Et as [? Et], (local r); destruct_and?; congruence. }
  eapply triple_bind; [apply (t_named _ origin dst stage); [done|by left|right; by eexists]|]. intros o. apply triple_case. intros v' (-> & d2 & Hd2 & ->). simplify_eq.
  apply eq_None_not_Some in Et. destruct Hst as [Hcl|[El Ha]].
  - assert (Hgood : g = G -> T (fun v' => v' = v) (ret tt : cmd unit) (fun _ v' => v' = v /\ complete v d)) by (intros _; apply triple_ret; by intros ? ->).
    assert (Hcc := Hcl). unfold complete in Hcc. destruct (local r) eqn:El.
    + destruct Hcc as (Eo & _ & _ & s & Hs). rewrite Eo. assert (Hdst : dst = Here) by (unfold dst; by rewrite El).
      eapply triple_bind; [apply t_guid; [done|right; rewrite Hdst; by exists s]|]. intros x. apply triple_case. intros v' (-> & s' & Hs' & ->).
      rewrite Hdst in Hs'. rewrite (inv_backup v (proj1 Hi) s' Hs'). destruct (decide (G = g)) as [Eg|Eg]; [by apply Hgood|by apply Hex].
    + assert (Hr := Hcc). destruct Hr as (Eo & _). rewrite Eo.
      eapply triple_bind; [apply t_listing; [done|right; by eexists]|]. intros l. apply triple_case. intros v' (-> & d3 & Hd3 & Hl). simplify_eq.
      rewrite (guids_received d Hcc), Permutation_singleton_r in Hl. subst l. cbn [existsb snd]. rewrite orb_false_r. destruct (bool_decide (G = g)) eqn:Eg.
      * apply Hgood. by apply bool_decide_eq_true in Eg.
      * apply Hex. intros _ ->. by apply bool_decide_eq_false in Eg.
  - destruct Ha as (Eo & Es & _). rewrite Eo.
    eapply triple_bind; [apply t_listing; [done|right; by eexists]|]. intros l. apply triple_case. intros v' (-> & d3 & Hd3 & Hl). simplify_eq.
    rewrite Es, fmap_empty, map_to_list_empty in Hl. apply Permutation_nil_r in Hl. subst l. cbn [existsb]. apply Hex.
    unfold complete. rewrite El. intros (_ & E & _) _. rewrite E in Es. by apply map_non_empty_singleton in Es.
Qed.

(** The target is in place. *)
Definition finished (v : View) : Prop :=
  exists d, pool dst v !! target = Some d /\ mine d /\ complete v d /\ mounted d = true /\ prop mountpoint d = "/" +:+ target.

Lemma not_foreign v : Iv v -> (forall d, pool dst v !! target = Some d -> mine d) -> forall d1, pool dst v1 !! target = Some d1 -> foreign d1 -> False.
Proof. intros [_ Hb] Hm d1 Hd Hf. apply (be_target _ _ Hb) in Hd; [|done]. by apply (mine_foreign d1); [apply Hm|]. Qed.
Lemma Iv_upd_target v d : Iv v -> (forall d, pool dst v !! target = Some d -> mine d) -> mine d -> complete v d -> Iv (upd dst target d v).
Proof.
  intros Hi Hm Hmd Hc. destruct apart_all as (N1 & N2 & N3 & N4 & N5 & N6). split; [by apply inv_upd_target; [apply Hi|..]|].
  apply beside_upd; [apply Hi|apply list_elem_of_further, list_elem_of_here|intros _; by apply (not_foreign v)|done].
Qed.
Lemma complete_same v d d' : origin d' = origin d -> snaps d' = snaps d -> token d' = token d -> complete v d -> complete v d'.
Proof. unfold complete, cloned, received. intros -> -> ->. done. Qed.
Lemma mine_mounted path d sn t o b : mine d -> mine (mkDataset (<[mountpoint := path]> (<[readonly := "off"]> (props d))) sn t o b).
Proof.
  intros Hm kv Hin. rewrite <- (Hm kv Hin). unfold prop. cbn [props]. f_equal.
  cbn in Hin. repeat (apply elem_of_cons in Hin as [->|Hin]; [by rewrite !lookup_insert_ne|]). by apply elem_of_nil in Hin.
Qed.
Lemma target_snap v d : complete v d -> complete (upd dst target d v) d.
Proof. destruct apart_all as (N1 & N2 & _). apply complete_snap. apply snap_upd. congruence. Qed.

Lemma t_mounted v d : Iv v -> pool dst v !! target = Some d ->
  T (fun v' => v' = v) (run (Mounted dst target)) (fun o v' => v' = v /\ text o = if mounted d then "yes" else "no").
Proof.
  intros Hi Hd. eapply triple_post; [|apply t_ask; [done..|right; by exists (Text (if mounted d then "yes" else "no")), d]].
  intros o v' [-> (d' & Hd' & ->)]. by simplify_eq.
Qed.
Lemma t_mount v d : Iv v -> pool dst v !! target = Some d -> mine d -> complete v d ->
  T (fun v' => v' = v) (mount_target dst target ("/" +:+ target)) (fun _ v' => Iv v' /\ finished v').
Proof.
  intros Hi Hd Hm Hc. unfold mount_target.
  set (d2 m := mkDataset (<[mountpoint := "/" +:+ target]> (<[readonly := "off"]> (props d))) (snaps d) (token d) (origin d) m).
  assert (Hd2 : forall m, mine (d2 m) /\ complete v (d2 m) /\ Iv (upd dst target (d2 m) v)).
  { intros m. assert (complete v (d2 m)) by (by apply (complete_same v d)). split; [by apply mine_mounted|]. split; [done|].
    apply Iv_upd_target; [done| |by apply mine_mounted|done]. intros e He. by simplify_eq. }
  assert (Hdone : forall m, mounted (d2 m) = true -> finished (upd dst target (d2 m) v)).
  { intros m Em. destruct (Hd2 m) as (? & ? & ?). exists (d2 m). split; [apply upd_same|]. split; [done|]. split; [by apply target_snap|]. split; [done|].
    unfold prop. cbn [props d2]. by rewrite lookup_insert_eq. }
  assert (Hch : forall w, changes_to (SetMount dst ("/" +:+ target) target) v w -> exists m, w = upd dst target (d2 m) v).
  { intros w (m & h & f & p & [= <- <-] & Hp & ->). unfold with_dataset in Hp. rewrite Hd in Hp. cbn in Hp. injection Hp as <-. exists m. by apply set_insert. }
  eapply triple_bind; [apply t_do; [done..| |]|].
  - right. eapply can; [by exists true|]. unfold with_dataset. rewrite Hd. done.
  - intros w [m ->]%Hch. apply Hd2.
  - skip. apply triple_case. intros w [[m ->]%Hch Hi2]. eapply triple_bind; [by apply t_mounted; [|apply upd_same]|]. intros o. apply triple_case. intros w [-> Ho].
    destruct m; rewrite Ho; cbn [mounted d2].
    + rewrite bool_decide_true by done. apply triple_ret. intros ? ->. split; [done|by apply Hdone].
    + rewrite bool_decide_false by done. set (w2 := upd dst target (d2 false) v) in *.
      assert (Hch2 : forall w, changes_to (Mount dst target) w2 w -> w = upd dst target (d2 true) w2).
      { intros w (m & h & f & p & [= <- <-] & Hp & ->). unfold with_dataset in Hp. unfold w2 in Hp. rewrite upd_same in Hp. cbn in Hp. injection Hp as <-. by apply set_insert. }
      assert (Hi3 : Iv (upd dst target (d2 true) w2)).
      { apply Iv_upd_target; [done| |apply Hd2|]. - intros e. unfold w2. rewrite upd_same. intros [= <-]. apply Hd2. - apply (complete_same w2 (d2 false)); [done..|]. apply target_snap, Hd2. }
      eapply triple_bind; [apply t_do; [done..| |]|].
      * right. eapply can; [by exists true|]. unfold with_dataset, w2. rewrite upd_same. done.
      * by intros w ->%Hch2.
      * skip. apply triple_case. intros w [->%Hch2 _]. eapply triple_bind; [by apply t_mounted; [|apply upd_same]|]. intros o2. apply triple_case. intros w [-> Ho2].
        rewrite Ho2. cbn [mounted d2]. rewrite bool_decide_true by done. apply triple_ret. intros ? ->. split; [done|].
        exists (d2 true). split; [apply upd_same|]. split; [apply Hd2|]. split; [|split; [done|]].
        -- apply target_snap. apply (complete_same w2 (d2 false)); [done..|]. apply target_snap, Hd2.
        -- unfold prop. cbn [props d2]. by rewrite lookup_insert_eq.
Qed.

Definition activation (g : string) : ActivateRequest :=
  mkActivate stage (pr_BackupNodeID r) (pr_OperationID r) (pr_MountID r) target ("/" +:+ target) g.
Definition activatable (v : View) : Prop :=
  (exists d, pool dst v !! root = Some d /\ prop restoreOperationProperty d = pr_OperationID r) /\
  (forall d, pool dst v !! target = Some d -> mine d) /\ (pool dst v !! target = None -> is_Some (pool dst v !! stage)) /\
  (forall d, pool dst v !! stage = Some d -> complete v d).

Lemma t_verify h ds m v : Iv v -> excused \/ (exists d, pool h v !! ds = Some d /\ forall kv, kv ∈ identity (pr_BackupNodeID r) m -> prop kv.1 d = kv.2) ->
  T (fun v' => v' = v) (verifyRestoreOwnership h ds (pr_BackupNodeID r) m) (fun _ v' => v' = v /\ forall d, pool h v !! ds = Some d -> forall kv, kv ∈ identity (pr_BackupNodeID r) m -> prop kv.1 d = kv.2).
Proof. intros Hi Hr. by apply t_verify_each. Qed.
Lemma identity_meta g : identity (pr_BackupNodeID r) (mkMetadata (pr_OperationID r) (pr_MountID r) "" g) = identity (pr_BackupNodeID r) (mkMetadata (pr_OperationID r) (pr_MountID r) (pr_Snapshot r) g).
Proof. done. Qed.

(** The staging dataset takes the target's place. *)
Lemma t_rename v d : Iv v -> pool dst v !! stage = Some d -> mine d -> complete v d -> excused \/ (Cooperative zcmd zout View P -> pool dst v !! target = None) ->
  T (fun v' => v' = v) (run_ (Rename dst stage target)) (fun _ v' => Iv v' /\ exists d, pool dst v' !! target = Some d /\ mine d /\ complete v' d).
Proof.
  intros Hi Hd Hm Hc Hnone. destruct apart_all as (N1 & N2 & N3 & N4 & N5 & N6).
  assert (Hch : forall w, changes_to (Rename dst stage target) v w -> pool dst v !! target = None /\ w = upd dst target d (del dst stage v)).
  { intros w (m & h & f & p & [= <- <-] & Hp & ->). rewrite Hd in Hp. cbn in Hp. rewrite decide_False in Hp by done. unfold added in Hp.
    rewrite lookup_delete_ne in Hp by done. destruct (pool dst v !! target); [done|]. injection Hp as <-. split; [done|]. by destruct dst. }
  assert (Hi2 : pool dst v !! target = None -> Iv (upd dst target d (del dst stage v))).
  { intros En. assert (Hd0 : Iv (del dst stage v)) by (split; [apply inv_del_stage, Hi|apply beside_del, Hi]). apply Iv_upd_target; [done| |done|].
    - intros e. rewrite del_other by auto. congruence.
    - eapply complete_snap; [|exact Hc]. apply snap_del. congruence. }
  eapply triple_post; [|apply t_do; [done..| |]].
  - intros _ w [[En ->]%Hch Hi3]. split; [done|]. exists d. split; [apply upd_same|]. split; [done|]. apply target_snap.
    eapply complete_snap; [|exact Hc]. apply snap_del. congruence.
  - destruct Hnone as [?|Hnone]; [by left|]. destruct (pool dst v !! target) as [e|] eqn:Et; [left; left; intros HC; by specialize (Hnone HC)|right].
    eapply can; [by exists false|]. cbv beta. rewrite Hd. cbn. rewrite decide_False by done. unfold added. by rewrite lookup_delete_ne, Et.
  - intros w [En ->]%Hch. by apply Hi2.
Qed.
Lemma t_discard v d : Iv v -> pool dst v !! stage = Some d -> 
  T (fun v' => v' = v) (run_ (DestroyTree dst stage)) (fun _ v' => Iv v' /\ v' = del dst stage v).
Proof.
  intros Hi Hd. assert (Hi2 : Iv (del dst stage v)) by (split; [apply inv_del_stage, Hi|apply beside_del, Hi]).
  assert (Hch : forall w, changes_to (DestroyTree dst stage) v w -> w = del dst stage v).
  { intros w (m & h & f & p & [= <- <-] & Hp & ->). rewrite Hd in Hp. cbn in Hp. injection Hp as <-. by destruct dst. }
  eapply triple_post; [|apply t_do; [done..| |]].
  - by intros _ w [->%Hch _].
  - right. eapply can; [by exists false|]. cbv beta. by rewrite Hd.
  - by intros w ->%Hch.
Qed.

Definition placed (v : View) : Prop := exists d, pool dst v !! target = Some d /\ mine d /\ complete v d.
Lemma t_place v g : Iv v -> bad \/ (g = G /\ activatable v) ->
  let m := mkMetadata (pr_OperationID r) (pr_MountID r) "" g in
  T (fun v' => v' = v)
    (found ← there_is dst target;
     if found : bool then
       verifyRestoreOwnership dst target (pr_BackupNodeID r) m;;
       staged ← there_is dst stage;
       if staged : bool then
         verifyRestoreOwnership dst stage (pr_BackupNodeID r) m;;
         verifyRestoreData dst stage g;;
         run_ (DestroyTree dst stage)
       else ret tt
     else
       verifyRestoreOwnership dst stage (pr_BackupNodeID r) m;;
       verifyRestoreData dst stage g;;
       run_ (Rename dst stage target)) (fun _ v' => Iv v' /\ placed v').
Proof.
  intros Hi Hok m. destruct apart_all as (N1 & N2 & N3 & N4 & N5 & N6).
  assert (Hid : g = G -> identity (pr_BackupNodeID r) m = identity (pr_BackupNodeID r) meta) by (by intros ->).
  assert (Hstage : is_Some (pool dst v !! stage) -> excused \/ exists d, pool dst v !! stage = Some d /\ forall kv, kv ∈ identity (pr_BackupNodeID r) m -> prop kv.1 d = kv.2).
  { intros [d Hd]. destruct Hok as [?|[Eg _]]; [left; by right|right]. exists d. split; [done|]. rewrite Hid by done. by apply (inv_stage v (proj1 Hi)). }
  assert (Hdata : forall d, pool dst v !! stage = Some d -> excused \/ (complete v d /\ g = G)).
  { intros d Hd. destruct Hok as [?|(Eg & _ & _ & _ & Hc)]; [left; by right|right]. split; [by apply Hc|done]. }
  eapply triple_bind; [by apply t_there|]. intros found. apply triple_case. intros v' [-> Hf]. destruct found.
  - destruct Hf as [d Hd]. eapply triple_bind; [apply t_verify; [done|]|].
    { destruct Hok as [?|(Eg & _ & Hm & _)]; [left; by right|right]. exists d. split; [done|]. rewrite Hid by done. by apply Hm. }
    skip. apply triple_case. intros v' [-> Hv]. specialize (Hv d Hd).
    assert (Hmc : mine d /\ complete v d).
    { destruct (inv_target v (proj1 Hi) d Hd) as [Hfo|?]; [|done]. destruct Hfo. apply (Hv (restoreOperationProperty, pr_OperationID r)). apply list_elem_of_here. }
    eapply triple_bind; [by apply t_there|]. intros st. apply triple_case. intros v' [-> Hst]. destruct st.
    + destruct Hst as [e He]. eapply triple_bind; [by apply t_verify; [|apply Hstage; eexists]|]. skip. apply triple_case. intros v' [-> _].
      eapply triple_bind; [by apply (t_data v e g); [..|apply Hdata]|]. skip. apply triple_case. intros v' [-> _].
      eapply triple_post; [|by apply (t_discard v e)]. intros _ v' [Hi' ->]. split; [done|]. exists d. rewrite del_other by auto. split; [done|]. split; [apply Hmc|].
      eapply complete_snap; [|apply Hmc]. apply snap_del. congruence.
    + apply triple_ret. intros ? ->. split; [done|]. by exists d.
  - eapply triple_bind; [apply t_verify; [done|]|].
    { destruct Hok as [?|(Eg & _ & _ & Hs & _)]; [left; by right|]. destruct (pool dst v !! target) as [d|] eqn:Et; [left; left; intros HC; by specialize (Hf HC)|]. apply Hstage. by apply Hs. }
    skip. apply triple_case. intros v' [-> _]. destruct (pool dst v !! stage) as [e|] eqn:He.
    + eapply triple_bind; [by apply (t_data v e g); [..|apply Hdata]|]. skip. apply triple_case. intros v' [-> Hc].
      eapply triple_post; [|apply (t_rename v e); [done..|by apply (inv_stage v (proj1 Hi))|done|by right]]. done.
    + (* without a staging dataset nothing is read of it *)
      unfold verifyRestoreData. apply triple_assoc.
      eapply triple_bind; [apply (t_named _ token dst stage); [done|by right|]|].
      { left. destruct Hok as [?|(Eg & _ & _ & Hs & _)]; [by right|]. left. intros HC. destruct (Hs (Hf HC)) as [? ?]. congruence. }
      intros t. apply triple_case. intros v' (_ & d & Hd & _). congruence.
Qed.

Lemma t_activate v g : Iv v -> bad \/ (g = G /\ activatable v) ->
  T (fun v' => v' = v) (ActivateBackupRestore dst (activation g)) (fun _ v' => Iv v' /\ finished v').
Proof.
  intros Hi Hok. unfold ActivateBackupRestore. cbn [ac_Dataset ac_SourceNodeID ac_OperationID ac_MountID ac_TargetDataset ac_Mountpoint ac_ExpectedGUID activation].
  assert (Hex : forall e, (requestable -> g = G -> False) -> T (fun v' => v' = v) (fail e : cmd unit) (fun _ v' => Iv v' /\ finished v')).
  { intros e Hf. apply triple_fail. intros ? ->. split; [done|right]. destruct valid as [?|Hv]; [done|]. destruct Hok as [?|[Eg _]]; [done|by destruct (Hf Hv Eg)]. }
  destruct (_ || _) eqn:E1.
  { apply Hex. intros [_ _ _ Hs Ht _] _. rewrite Hs in E1. cbn [negb orb] in E1. rewrite (bool_decide_true ("/" +:+ target = _)) in E1 by done.
    by destruct (Backup.validBackupDataset target). }
  destruct (_ || negb (digits g)) eqn:E2.
  { apply Hex. intros [_ _ Hm _ Ht _] ->. revert E2 Ht. unfold validRestoreMetadata in Hm. apply andb_true_iff in Hm as [_ Hdig]. cbn in Hdig. rewrite Hdig.
    by destruct (Backup.validBackupDataset target), (List.length (split target) <? 3)%nat, (bool_decide (part 0 target = part 0 stage)), (bool_decide (part 1 target ∈ reserved_names)). }
  eapply triple_bind; [by apply t_signal|]. skip. unfold activateBackupRestoreLocked. cbv zeta.
  cbn [ac_Dataset ac_SourceNodeID ac_OperationID ac_MountID ac_TargetDataset ac_Mountpoint ac_ExpectedGUID activation]. fold root.
  eapply triple_bind; [apply t_get; [done|]; destruct Hok as [?|(_ & (d & Hd & _) & _)]; [left; by right|right; by exists d]|].
  clear E1 E2. intros owner. apply triple_case. intros v' (-> & d & Hd & ->). destruct (negb _) eqn:E3.
  { apply triple_fail. intros ? ->. split; [done|right]. destruct Hok as [?|(_ & (d' & Hd' & Ho) & _)]; [done|]. simplify_eq. by rewrite bool_decide_true in E3. }
  apply triple_assoc_rev. eapply triple_bind; [by apply t_place|]. skip. apply triple_case. intros v' [Hi' (e & He & Hm & Hc)]. by apply (t_mount v' e).
Qed.

(** *** Reserving *)

Definition reserved (v : View) : Prop := exists d, pool dst v !! root = Some d /\ prop restoreOperationProperty d = pr_OperationID r.
Lemma t_reserve v : Iv v -> bad \/ (forall d, pool dst v !! root = Some d -> prop restoreOperationProperty d = pr_OperationID r) ->
  T (fun v' => v' = v) (ReserveBackupRestore dst (pr_OperationID r) root) (fun _ v' => Iv v' /\ reserved v' /\
    (forall h n, ~ (h = dst /\ n = root) -> pool h v' !! n = pool h v !! n)).
Proof.
  intros Hi Hok. destruct apart_all as (N1 & N2 & N3 & N4 & N5 & N6). unfold ReserveBackupRestore. destruct (_ || _) eqn:E1.
  { apply triple_fail. intros ? ->. split; [done|right]. destruct valid as [?|[Hids _ _ _ _ Hr]]; [done|]. revert E1 Hids Hr.
    destruct (Backup.backupID (pr_OperationID r)), (Backup.validBackupDataset root), (List.length (split root) =? 2)%nat, (bool_decide (part 1 root ∈ reserved_names)); cbn; try done.
    all: by rewrite ?andb_false_r. }
  eapply triple_bind; [by apply t_signal|]. skip. unfold reserveBackupRestoreLocked. clear E1.
  eapply triple_bind; [by apply t_there|]. intros found. apply triple_case. intros v' [-> Hf]. destruct found.
  - eapply triple_bind; [apply t_get; [done|by right]|]. intros owner. apply triple_case. intros v' (-> & d & Hd & ->). case_decide as Eo.
    + apply triple_ret. intros ? ->. split; [done|]. split; [by exists d|done].
    + apply triple_fail. intros ? ->. split; [done|right]. destruct Hok as [?|Hok]; [done|]. by destruct Eo; apply Hok.
  - set (d := empty_dataset {[ restoreOperationProperty := pr_OperationID r; mountpoint := "/" +:+ root ]}).
    assert (Hch : forall w, changes_to (Create dst {[ restoreOperationProperty := pr_OperationID r; mountpoint := "/" +:+ root ]} root) v w ->
      pool dst v !! root = None /\ w = upd dst root d v).
    { intros w (m & h & f & p & [= <- <-] & Hp & ->). unfold added in Hp. destruct (pool dst v !! root); [done|]. injection Hp as <-. split; [done|]. by apply set_insert. }
    assert (Hi2 : pool dst v !! root = None -> Iv (upd dst root d v)).
    { intros En. split; [apply inv_upd_root, Hi|]. apply beside_upd; [apply Hi|apply list_elem_of_further, list_elem_of_further, list_elem_of_here|congruence|].
      intros _. destruct (pool dst v1 !! root) as [d1|] eqn:E; [|done]. apply (be_root _ _ (proj2 Hi)) in E. congruence. }
    eapply triple_post; [|apply t_do; [done..| |]].
    + intros _ w [[En ->]%Hch Hi3]. split; [done|]. split.
      * exists d. split; [apply upd_same|]. unfold prop, d. cbn [props empty_dataset]. by rewrite lookup_insert_eq.
      * intros h n Hn. apply upd_other. destruct (decide (dst = h)) as [<-|]; [right|by left]. intros <-. by destruct Hn.
    + destruct (pool dst v !! root) as [e|] eqn:Er; [left; left; intros HC; by specialize (Hf HC)|right].
      eapply can; [by exists false|]. unfold added. by rewrite Er.
    + intros w [En ->]%Hch. by apply Hi2.
Qed.
End Restoring.

(** ** A restore over time *)

Section History.
Context `{RestoreEnv} `{!RestoreLaws} {P : Type} `{Tool zcmd zout View P} `{!ToolLaws zcmd zout View P}.
Variables (r : PrepareRequest) (target G : string).

(** The steps of the restore of one mount, in any order and any number; an
    activation may come with any GUID. *)
Inductive step := Reserve | Prepare | Activate (g : string).
Definition perform (s : step) : prog string (World P) unit :=
  match s with
  | Reserve => ReserveBackupRestore (dst r) (pr_OperationID r) (root target)
  | Prepare => PrepareBackupRestore r;; ret tt
  | Activate g => ActivateBackupRestore (dst r) (activation r target g)
  end.
(** What others may do meanwhile: anything but with the three datasets of the
    restore; the snapshot keeps its GUID, and stays while a clone of it is there. *)
Definition neighbours (v v' : View) : Prop :=
  (forall n, n ∈ [stage r; target; root target] -> pool (dst r) v' !! n = pool (dst r) v !! n) /\
  (forall s, snap_of (backup r) (pr_Snapshot r) (here v') = Some s -> guid s = G) /\
  (forall n d, n ∈ [stage r; target] -> pool (dst r) v !! n = Some d -> origin d = Some (backup r, pr_Snapshot r) ->
     is_Some (snap_of (backup r) (pr_Snapshot r) (here v'))).
Inductive moves (p p' : P) : Prop :=
| moved_step s : during (perform s) p p' -> moves p p'
| moved_others : neighbours (view p) (view p') -> moves p p'.
(** At the beginning there is no staging dataset and no target of this
    operation. *)
Definition fresh (v : View) : Prop :=
  (forall s, snap_of (backup r) (pr_Snapshot r) (here v) = Some s -> guid s = G) /\ pool (dst r) v !! stage r = None /\
  (forall d, pool (dst r) v !! target = Some d -> foreign r d).
Definition lived (p p' : P) : Prop := fresh (view p) /\ star moves p p'.

Hypothesis apart : NoDup [backup r; stage r; target; root target].

Lemma triple_at {A} I E (m : prog string (World P) A) (Q : A -> View -> Prop) w : triple I E (fun v => v = view (medium w)) m Q ->
  Forall (fun p => I (view p)) (past w) -> Forall (fun p => I (view p)) (past (m w).2) /\
  match (m w).1 with Ok a => Q a (view (medium (m w).2)) | Err _ => I (view (medium (m w).2)) /\ E end.
Proof. intros Hm Hf. by apply Hm. Qed.
(** Every step keeps the invariant and leaves alone what is not its own. *)
Lemma step_kept s v : Inv r target G v -> triple (Iv r target G v) (excused (P:=P) True) (fun v' => v' = v) (perform s) (fun _ v' => Iv r target G v v').
Proof.
  intros Hi. assert (Hv : Iv r target G v v) by (split; [done|apply beside_refl]). destruct s as [| |g]; cbn [perform].
  - eapply triple_post; [|apply (t_reserve r target G apart v True); [by left|done|by left]]. by intros _ v' [? _].
  - eapply triple_bind; [apply (t_prepare r target G apart v True); [by left|done|by left]|]. intros res. apply triple_ret. by intros v' [? _].
  - eapply triple_post; [|apply (t_activate r target G apart v True); [by left|done|by left]]. by intros _ v' [? _].
Qed.
Lemma during_kept s p p' : Inv r target G (view p) -> during (perform s) p p' -> Iv r target G (view p) (view p').
Proof.
  intros Hi Hd. apply (triple_during (Iv r target G (view p)) (excused (P:=P) True) (fun v' => v' = view p) (perform s) (fun _ v' => Iv r target G (view p) v') p p'); [by apply step_kept|by intros ? ->; split; [|apply beside_refl]|done..].
Qed.
Lemma neighbours_kept v v' : Inv r target G v -> neighbours v v' -> Inv r target G v'.
Proof.
  intros [Hb Hs Ht] (Hsame & Hg & Hc).
  assert (Hcomp : forall n d, n ∈ [stage r; target] -> pool (dst r) v !! n = Some d -> complete r G v d -> complete r G v' d).
  { intros n d Hn Hd. unfold complete, cloned. destruct (local r); [|done]. intros (Ho & ? & ? & _). split_and!; try done. by apply (Hc n d). }
  split; [done| |]; intros d; rewrite Hsame by set_solver; intros Hd.
  - destruct (Hs d Hd) as [? [?|?]]; (split; [done|]); [left; apply (Hcomp (stage r)); [set_solver|done..]|by right].
  - destruct (Ht d Hd) as [?|[? ?]]; [by left|right; split; [done|]]. apply (Hcomp target); [set_solver|done..].
Qed.
Lemma lived_inv p p' : lived p p' -> Inv r target G (view p').
Proof.
  intros [(Hg & Hs & Ht) Hl]. assert (Hi : Inv r target G (view p)) by (split; [done|congruence|by left; apply Ht]).
  clear Hg Hs Ht. revert Hi. induction Hl as [p|p p2 p3 Hm Hl IH]; [done|]. intros Hi. apply IH. destruct Hm as [s Hd|Hn].
  - by apply (during_kept s) in Hd as [? _].
  - by apply (neighbours_kept (view p)).
Qed.

(** C24. However the steps of a restore are repeated and interrupted, and
    whatever others do: a target of this operation has the data that were asked
    for; and at every moment of a step everything else is as it was when it
    began, a target or root of others included. *)
Theorem restore_isolated p p1 p2 s : lived p p1 -> during (perform s) p1 p2 ->
  beside r target (view p1) (view p2) /\
  forall d, pool (dst r) (view p2) !! target = Some d -> foreign r d \/ complete r G (view p2) d.
Proof.
  intros Hl Hd. apply lived_inv in Hl. apply (during_kept s) in Hd as [Hi Hb]; [|done]. split; [done|].
  intros d Ht. destruct (inv_target _ _ _ _ Hi d Ht) as [?|[_ ?]]; [by left|by right].
Qed.

(** C2. From wherever the steps were interrupted, one run of all three that is
    left alone puts the data in place, mounted. *)
Definition all_steps : prog string (World P) unit :=
  perform Reserve;; res ← PrepareBackupRestore r; perform (Activate (rs_GUID res)).
Theorem restore_finishes p p1 : lived p p1 -> Cooperative zcmd zout View P -> requestable r target G ->
  offered r (view p1) ->
  (forall d, pool (dst r) (view p1) !! root target = Some d -> prop restoreOperationProperty d = pr_OperationID r) ->
  (forall d, pool (dst r) (view p1) !! target = Some d -> ~ foreign r d) ->
  let out := all_steps (mkWorld p1 []) in
  out.1 = Ok tt /\ exists d, pool (dst r) (view (medium out.2)) !! target = Some d /\ complete r G (view (medium out.2)) d /\
    mounted d = true /\ prop mountpoint d = "/" +:+ target.
Proof.
  intros Hl HC Hv Hoff Hroot Htgt. apply lived_inv in Hl as Hi. set (v := view p1) in *. destruct (apart_all r target apart) as (N1 & N2 & N3 & N4 & N5 & N6).
  assert (Hiv : Iv r target G v v) by (split; [done|apply beside_refl]).
  assert (Hrun : triple (Iv r target G v) (excused (P:=P) False) (fun v' => v' = v) all_steps (fun _ v' => Iv r target G v v' /\ finished r target G v')).
  { unfold all_steps. cbn [perform]. eapply triple_bind; [apply (t_reserve r target G apart v False); [by right|done|by right]|]. skip. apply triple_case. intros v2 (Hi2 & (d & Hd & Ho) & Hsame).
    eapply triple_bind; [apply (t_prepare r target G apart v False); [by right|done|right]|].
    { destruct Hoff as (b & Hb & ? & ?). exists b. split; [|done]. change (here v2) with (pool Here v2). rewrite Hsame; [done|]. intros [_ E]. by apply N3. }
    intros res. apply triple_case. intros v3 (Hi3 & (e & He & Hme & Hce) & Et & Er & ->). cbn [rs_GUID].
    apply (t_activate r target G apart v False); [by right|done|right]. split; [done|]. split; [exists d; by rewrite Er|]. split; [|split; [intros _; by exists e|intros e' He'; by simplify_eq]].
    intros t. rewrite Et, Hsame by naive_solver. intros Ht. destruct (inv_target _ _ _ _ Hi t Ht) as [Hf|[? _]]; [by destruct (Htgt t Ht)|done]. }
  destruct (triple_at _ _ _ _ (mkWorld p1 []) Hrun ltac:(constructor)) as [_ Hres]. cbv zeta. destruct (all_steps (mkWorld p1 [])) as [[[]|e] w]; cbn in *.
  - destruct Hres as [_ (d & Hd & _ & Hc & Hm & Hp)]. split; [done|]. by exists d.
  - destruct Hres as [_ [Hn|[]]]. by destruct Hn.
Qed.
End History.

(** ** A concrete pool *)

Module Sample.
Import BackupReplication.Sample.

Definition answer (c : zcmd) (v : View) : option zout :=
  match c with
  | Exists h ds => if pool h v !! ds then Some (Text "") else None
  | Get h key ds => d ← pool h v !! ds; Some (Text (default "" (props d !! key)))
  | GuidOf h ds snap => s ← snap_of ds snap (pool h v); Some (Text (guid s))
  | Holds h ds snap => s ← snap_of ds snap (pool h v); Some (Tags (holds s))
  | Origin h ds => d ← pool h v !! ds; Some (Named (origin d))
  | Token h ds => d ← pool h v !! ds; Some (Named (token d))
  | Snapshots h ds => d ← pool h v !! ds; Some (Table (map_to_list (guid <$> snaps d)))
  | Mounted h ds => d ← pool h v !! ds; Some (Text (if mounted d then "yes" else "no"))
  | TestToken name g => Some (Named (Some (name, g)))
  | _ => Some (Text "")
  end.
#[export] Instance pools : Tool zcmd zout View View := {|
  CrashLogic.view := fun v => v;
  CrashLogic.execute := fun c v =>
    if zmutating c then
      match changes c true with
      | Some (h, f) => match f (pool h v) with Some p => (Ok (Text ""), set_pool h (fun _ => p) v) | None => (Err "zfs", v) end
      | None => (Err "zfs", v)
      end
    else match answer c v with Some out => (Ok out, v) | None => (Err "zfs", v) end |}.

Lemma answer_true c v out : zmutating c = false -> answer c v = Some out -> zanswers c v out.
Proof.
  destruct c; cbn; try done; intros _.
  - destruct (pool h v !! ds); [done|by intros [=]].
  - destruct (pool h v !! ds) as [d|]; [|done]. intros [= <-]. by exists d.
  - destruct (snap_of ds snap (pool h v)) as [s|]; [|done]. intros [= <-]. by exists s.
  - destruct (snap_of ds snap (pool h v)) as [s|]; [|done]. intros [= <-]. by exists s.
  - destruct (pool h v !! ds) as [d|]; [|done]. intros [= <-]. by exists d.
  - destruct (pool h v !! ds) as [d|]; [|done]. intros [= <-]. by exists d.
  - destruct (pool h v !! ds) as [d|]; [|done]. intros [= <-]. by exists d, (map_to_list (guid <$> snaps d)).
  - destruct (pool h v !! ds) as [d|]; [|done]. intros [= <-]. by exists d.
  - by intros [= <-].
Qed.
Lemma answer_ready c v : zmutating c = false -> zready c v -> is_Some (answer c v).
Proof.
  unfold zready. intros E. rewrite E. destruct c; cbn in *; try done; intros [out Ha]; [by destruct Ha as [d ->]|..]; repeat destruct Ha as [? Ha];
    repeat match goal with H : _ = Some _ |- _ => rewrite H; clear H end; done.
Qed.
Lemma changes_any c m h f : changes c m = Some (h, f) -> exists f', changes c true = Some (h, f') /\ forall p, is_Some (f p) -> is_Some (f' p).
Proof.
  destruct c; cbn; try done; intros [= <- <-]; eexists; (split; [done|]); try done.
  intros p. unfold with_dataset. by destruct (p !! ds).
Qed.
#[export] Instance pools_laws : ToolLaws zcmd zout View View.
Proof.
  split; intros c v; cbn.
  - destruct (zmutating c) eqn:Em; [|destruct (answer c v); by left]. destruct (changes c true) as [[h f]|] eqn:Ec; [|by left].
    destruct (f (pool h v)) as [p|] eqn:Ef; [right|by left]. split; [done|]. by exists true, h, f, p.
  - intros out. destruct (zmutating c) eqn:Em; [|by destruct (answer c v)]. intros Ho _. destruct (changes c true) as [[h f]|] eqn:Ec; [|done].
    destruct (f (pool h v)) as [p|] eqn:Ef; [|done]. by exists true, h, f, p.
  - intros out. destruct (zmutating c) eqn:Em.
    + intros _. by destruct c.
    + destruct (answer c v) as [o|] eqn:Ea; [|done]. intros [= <-]. by apply answer_true.
Qed.
#[export] Instance pools_cooperative : Cooperative zcmd zout View View.
Proof.
  intros c v Hr. cbn in *. destruct (zmutating c) eqn:Em.
  - unfold zready in Hr. rewrite Em in Hr. destruct Hr as (v' & m & h & f & p & Hc & Hf & _).
    destruct (changes_any c m h f Hc) as (f' & -> & Hs). destruct (Hs (pool h v)) as [p' ->]; [by eexists|done].
  - by destruct (answer_ready c v Em Hr) as [out ->].
Qed.
#[export] Instance restore_env : RestoreEnv := {
  Marshal := fun m => bits (encode (OperationID m, MountID m, Snapshot m, GUID m));
  Unmarshal := fun s => p ← unbits s; t ← decode p; let '(o, m, s, g) := (t : string * string * string * string) in Some (mkMetadata o m s g);
  ParseIP := fun _ => true }.
#[export] Instance restore_laws : RestoreLaws.
Proof. constructor. intros [o m s g]. cbn. rewrite unbits_bits. cbn. by rewrite decode_encode. Qed.

Definition request : PrepareRequest := mkPrepare "a" "b" "tank/app/data" "fl-000001" "op1" "data" "c" "192.0.2.1" 22.
Definition target : string := "tank/app/data".
Definition begin : View := mkView {[ "tank/backups/a/tank/app/data" :=
  mkDataset {[ "floatlab:backup-source" := "a" ]} {[ "fl-000001" := mkSnap "77" [] ]} None None false ]} ∅.
(** The stream of the first preparation stops half way. *)
Definition half_way : View := nth 13 (past (PrepareBackupRestore request (mkWorld begin [])).2) begin.

Lemma sample_apart : NoDup [backup request; stage request; target; root target].
Proof. by apply (bool_decide_unpack _). Qed.
Lemma prepared_half : during (perform request target Prepare) begin half_way.
Proof.
  right. apply (list_elem_of_lookup_2 _ 13%nat). by vm_compute.
Qed.
Lemma lived_half : lived request target "77" begin half_way.
Proof.
  split.
  - split; [|split; [by vm_compute|]]; intros x; vm_compute; [by intros [= <-]|done].
  - apply star_one. by apply (moved_step _ _ _ _ _ Prepare), prepared_half.
Qed.
Lemma restore_isolated_witness : token <$> there half_way !! stage request = Some (Some ("fl-000001", "77")) /\
  beside request target begin half_way.
Proof.
  split; [by vm_compute|].
  assert (Hl : lived request target "77" begin begin) by (split; [exact (proj1 lived_half)|apply star_refl]).
  destruct (restore_isolated request target "77" sample_apart begin begin half_way Prepare Hl prepared_half) as [Hb _]. exact Hb.
Defined.
Lemma restore_finishes_witness : token <$> there half_way !! stage request = Some (Some ("fl-000001", "77")) /\
  exists d, there (medium (all_steps request target (mkWorld half_way [])).2) !! target = Some d /\ mounted d = true.
Proof.
  split; [by vm_compute|].
  destruct (restore_finishes request target "77" sample_apart begin half_way lived_half pools_cooperative) as [_ (d & Hd & _ & Hm & _)].
  - by split; vm_compute; auto.
  - eexists. split; [by vm_compute|]. split; [done|]. by eexists.
  - intros d. by vm_compute.
  - intros d. by vm_compute.
  - exists d. split; [exact Hd|exact Hm].
Defined.
End Sample.
